(* ===== verification/_CoqProject ===== *)
-Q . S2P
Prelude.v
F64.v
Wire.v
Skip.v
Enums.v
Command.v
CommandCodec.v
Chunk.v
BusTypes.v
Ring.v
RtState.v
Snapshot.v
Gripper.v
Gpio.v
CoreState.v
Core.v
CoreExample.v
CoreSafety.v
CoreOps.v
Convert.v
HomingConfig.v
Homing.v
HomingSeq.v
HomingExample.v
HomingProps.v
HomingSeqProps.v
HomingLimits.v
HomingCore.v
Joints.v
Dispatch.v
SettlePolicy.v
ExecTick.v
ExecProps.v
LoopTiming.v
RtLoop.v
RtTick.v
RtTickSteps.v
RtTickFrames.v
RtTickProps.v
RtTickLine.v
RtTickMotion.v
RtThread.v
TickExample.v
CanCodec.v
CanLemmas.v
CanSched.v
CanBus.v
Drive.v
CanExample.v
CanProps.v
CaptureProps.v
DriveProps.v
CanBusLemmas.v
CanBusProps.v
SchedProps.v
WireError.v
Reply.v
ReplyProps.v
Status.v
StatusProps.v
ServerGate.v
ServerTypes.v
ServerQueue.v
ServerDispatch.v
ServerLedger.v
ServerSound.v
ServerWindow.v
ServerExample.v
ServerProps.v
RobotSchema.v
RobotValidate.v
RobotProps.v
ConfigBundle.v
RobotExample.v
Client.v
ClientProps.v
ClientApi.v
Plane.v
Planner.v
PlannerProps.v
