(* ===== verification/Prelude.v ===== *)
(** * par6: the wire protocol, the command plane and the real-time core of a six-axis arm

    A development that verifies parts of the Rust workspace under [crates/].  The
    program is a robot controller: clients ([par6-client], [par6-py]) send msgpack
    datagrams to the daemon ([par6d], with the protocol server [par6-server]);
    the daemon plans motions ([par6-motion], [par6-kin]) into a lock-free ring of
    samples and queues commands for the real-time core ([par6-rt]), which ticks at
    250 Hz, runs the mode machine and the safety reactions, and drives the motors
    over CAN ([par6-bus]).  [par6-proto] is the vocabulary both sides share.

    ** Files, and what they model

    - [Prelude], [F64]: results with a bind notation, machine-width integers,
      byte strings, the proof automation; binary64 and its arithmetic through SpecFloat.
    - [Wire], [Skip] (par6-proto/src/wire.rs, lib.rs): the msgpack writers as
      byte-list functions, the [Reader] as a state monad over (datagram, cursor),
      the skipper of unknown tails with its depth bound.
    - [Enums] (enums.rs, macros.rs): the wire enums, [from_wire], the ack taxonomy.
    - [Command] (command.rs): the parameter structs, the 67 commands, [validate].
    - [CommandCodec] (command.rs, lib.rs): [encode_command], [decode_command], the
      envelope peeks.
    - [Chunk] (chunk.rs): the chunk envelope, the splitter, the reassembler.
    - [BusTypes] (par6-bus/src/types.rs): joint commands, gripper frames, fault
      flags, node state, freshness and link health, the capture buffer.
    - [Ring] (par6-rt/src/ring.rs): the single-producer single-consumer sample
      ring with its generation-bounded flush, sequentially and interleaved.
    - [RtState] (state.rs, errors.rs): modes, arming, the error latch.
    - [Gripper] (gripper_gate.rs, gripper_settle.rs), [Gpio] (gpio.rs).
    - [CoreState], [Core] (core.rs, exec.rs, hooks.rs): the state of [RtCore] that
      the mode machine reads or writes; command intake, mode gates and
      transitions, the error checks and their reactions, the ends of homing, the
      bus scan, the box lines.  [CoreExample] is a concrete core for witnesses.
    - [CoreSafety], [CoreOps]: the theorems about the core.
    - [Convert] (par6-bus/src/spectral/convert.rs): a joint's calibration, ticks and
      radians.  [HomingConfig] (par6-config/src/homing.rs, lib.rs): the homing
      section, its validation, the sequence fitted to a tool.
    - [Homing], [HomingSeq] (par6-rt/src/homing.rs): the state machine that
      references one actuator with its detectors; the sequencer of steps, moves and
      groups, its deadline and its limits.  [HomingExample] is a small arm for
      witnesses; [HomingProps], [HomingSeqProps] and [HomingLimits] hold the
      theorems; [HomingCore] puts the sequencer under the core.
    - [Joints]: one value per joint.  [Dispatch] (par6-rt/src/dispatch.rs): the setpoint law of every mode, the
      torque slew, the commit to joint commands.  [SettlePolicy] (hooks.rs): the
      completion policies, the clamping tracker.  [ExecTick], [ExecProps]
      (exec.rs): one tick of playback and its theorems.  [LoopTiming] (timing.rs):
      the period statistics and their verdict.
    - [RtLoop], [RtTick] (core.rs): the whole state of the real-time core and one
      tick of it, phase by phase, with the frames it sends as the history [l_tx];
      the bus swap, the teleport, the shutdown retreat.  [RtTickSteps] shows a tick
      to be steps of the mode machine, [RtTickFrames] what each phase leaves alone;
      [RtTickProps], [RtTickLine] and [RtTickMotion] hold the theorems and
      [TickExample] a concrete loop.
    - [CanCodec], [CanLemmas] (par6-bus/src/spectral/codec.rs): the frames of the
      motor drives, packing of commands and unpacking of replies.  [CanSched]
      (sched.rs): the per-node freshness, the send budget, the config fan-out and
      the boot waves.  [CanBus], [CanBusLemmas] (spectral/mod.rs): the SocketCAN
      driver, one write and one drain at a time.  [Drive] (sim/mod.rs): one
      simulated drive, its watchdog, faults and capture.  [CanExample] is a small
      bus for witnesses; [CanProps], [CaptureProps], [DriveProps], [CanBusProps]
      and [SchedProps] hold the theorems.
    - [Reply], [ReplyProps] (par6-proto/src/reply.rs): every reply shape and its
      codec.  [Status], [StatusProps] (status.rs): the STATUS frame and its codec.
    - [WireError] (par6-proto/src/error.rs): the error codes, the catalogue of
      texts, [make_error], the codec of an error.
    - [ServerGate] (par6-server/src/gating.rs, faults.rs): the gating table and the
      rendering of the core's latch as wire errors.
    - [ServerTypes], [ServerQueue], [ServerDispatch] (par6-server/src/server.rs,
      config.rs, plane.rs, runtime.rs): the state of the server task; the motion
      queue; validation, the four command classes, the poll and the event loop.
    - [ServerLedger], [ServerSound], [ServerWindow]: the invariants of the server,
      handler by handler.  [ServerExample] is a concrete server for witnesses and
      [ServerProps] holds the theorems.
    - [RtThread] (rt.rs): the deadlines of the thread the core ticks on, the
      deliberate exit.  [Snapshot] (snapshot.rs): the triple buffer the core
      publishes through, run alone and as two interleaved threads.
    - [RobotSchema], [RobotValidate] (par6-config/src/robot.rs, io.rs): the robot
      file as records, [validate] with every check in order.  [RobotProps] states
      the contract of a configuration and holds the theorems.  [ConfigBundle]
      (gripper.rs, lib.rs): the tool files and their bundle.  [RobotExample] is an
      arm of one joint for witnesses.
    - [Client], [ClientProps] (par6-client/src/core.rs): the transport of the client
      library and its theorems.  [ClientApi] (api.rs): the named calls and the waits
      on the STATUS stream.
    - [Plane] (par6-server/src/plane.rs, runtime.rs): the planner thread, its queue of
      requests, and the class of the planners it can serve.  [Planner]
      (par6d/src/planner.rs): the daemon's planner, from a queued command to the samples
      in the ring and the requests to the core, and on to the outcome.
      [PlannerProps] holds the theorems and a concrete planner.

    ** How state and operations correspond

    A Rust struct is a [Record] with the struct's field names behind a short
    prefix; an enum is an [Inductive]; [&mut self] methods are functions from the
    state to the state (with a result where the method returns one); [Result] is
    [result], with the error first in its type.  u8 to u64 and i32 values are
    integers with their bounds as predicates; wrapping and saturating operations
    are written out.  An f64 that crosses the wire is its bit pattern, compared and
    computed through SpecFloat; in homing and unit conversion an f64 is the number
    it denotes ([real]).  Trait objects ([DriverBus], [JogEngine], [StreamTracker],
    [GravityModel]) and the homing sequencer are the class [CoreDeps]; what the
    core relies on of a bus is the class [BusSilenceLaws]; [sequenced] is the class
    with the modelled sequencer in place.  The sequencer's calls on the bus are a
    list in the order they are made.  [TickDeps] is what a tick calls beyond that
    class, and [TickInput] what it reads from outside: the e-stop line, the box
    lines, the measured period, at most one command.  Logging is left out.

    A CAN frame is its identifier and its data bytes; an f32 of a drive is its bit
    pattern.  What a socket answers (the outcome of each write, the frames that
    have arrived) is the class [CanSocket]; the sine and cosine of the motor
    model are the class [Trig].

    The server is one task that finishes an event before it takes the next; a turn
    of its loop is [server_turn], given the event and the time.  What a handler does
    outside its state (replies, requests to the planner thread, calls of
    [RtCommands], reads of the socket and of the snapshot) is appended to [s_out],
    and what those answer is the class [ServerEnv], each answer a function of that
    history: theorems hold for every environment.  How a float prints is the class
    [Show]; in a configuration file it is the class [RealText].

    A client is shared by its callers and its two listener tasks; what each does under
    its locks is one event ([ClientEvent]), and a history is any list of events.  A
    channel to a waiting caller is the caller's token.  What became of each send and of
    each wait of a roundtrip is an argument.

    A pass of the planner thread is given the requests that have arrived by then.  What
    the daemon's planner reads from outside in a call (the latest snapshot, the clock,
    the tool swaps the core has applied) is the record [PlanView]; what it sends is the
    list of [LinkItem]s; its ring is the one of [Ring].  The motion itself, with the
    collision world it is checked in, is the class [PlanDeps], of which nothing is
    assumed.

    ** What the theorems show

    - Wire: a command decodes to what was encoded; whatever decodes is well typed
      and validated; encoding fails exactly when validation does; the request id is
      salvaged from a datagram whose envelope is intact; skipping consumes exactly
      one value and never runs out of fuel; the ack taxonomy and the idempotency
      keys agree.
    - Chunks: a split payload is reassembled whatever the order and the duplicates;
      the table of open transfers stays small on any input; what a late duplicate
      does.
    - Ring: refinement to an abstract queue; no data race, no reordering and no
      overwrite in any interleaving; a flush never reaches a later generation.
    - Latch, gripper, GPIO: the latch is a bounded set that never hides a hard
      error and is wiped at the end of the clear window; jaws move only under
      their two conditions, a release is announced, every wait ends; a debounced
      level changes after five equal reads, no sooner and no later.
    - Core: the safety invariant of every reachable state (step relation
      [core_step] over commands, checks, homing ends, rests and bus swaps); the
      reaction to hard errors and to the e-stop; arming, motion and flashing
      gates; the exact grant condition of a mode request; the EXEC link watchdog;
      the e-stop halt of a live grip; the user clear, the bus scan, the resend
      queue and the box outputs.
    - Tick: a tick moves the mode machine by steps of [core_step] only; it sends one
      frame set; with a hard error latched it commands nothing; an e-stop line held
      for the debounce window stops the arm in the fifth tick whatever happens
      besides; torque starts from zero after every stop; a released motion mode is
      left only once the measured arm has stood still, and is left then.  Playback
      completes the commands of the ring in order, and no change of its speed
      exceeds the joints' acceleration limits; a critical loop is a p99 beyond the
      band for the sustain time.
    - Homing: referencing a joint ends within a computed number of ticks whatever the
      bus reads; a reference is a reading taken after the endstop was found, which
      takes both stall detectors or a fresh hall reply; a sequence ends by its
      deadline, a failing tick leaves the bus idle, completion means every joint of
      a validated configuration is referenced and homes the arm; the published
      current limit is the one last sent; fitting a tool keeps a configuration
      valid; a home reference is exact in ticks.
    - CAN: what the host packs is what the drive obeys, whole frames and fields
      alike; a configuration written to a drive reads back; a captured trace
      crosses the bus; a faulted drive goes limp; the watchdog trips at the tick it
      is set to; a closed bus sends nothing.  A silent node is reported lost after
      a known number of ticks, and every node's poll goes out within a bounded
      number of slots, whatever the rest of the traffic does.
    - Replies and STATUS: a reply decodes to what was encoded and whatever decodes
      is well typed; a STATUS frame with fields of a later version appended decodes
      to the fields this version knows.
    - Server: every index handed out is live in one place or completed exactly once;
      the completed index is the end of the longest finished prefix; the queue is in
      order and bounded; a failure and an e-stop complete everything they drop; the
      e-stop latch holds until a RESET is delivered; a retransmission within the
      window is answered with its index, and a concrete run in which the window is
      too small; a preemption keeps every datagram but the superseded setpoints; the
      latch of the core is rendered without hiding a hard error.
    - Thread and snapshot: the deliberate exit ends within a computed number of ticks,
      its last tick commanding no current; the snapshot channel never writes the slot
      being read, and what is read is a whole value, in order and no older than the
      newest when the read began.
    - Configuration: validation accepts exactly the files that meet the contract; in an
      accepted file every mode of every joint stays below the hardware ceiling, the
      retreat pose is inside the limits, the freshness windows last a tick (but one
      written [nan]); any tool of a valid bundle can be fitted.
    - Client: the completions held and handed out are of the running session and of
      the command that was waited for; lost STATUS frames are counted exactly; the
      datagrams of a command fit the MTU and reassemble at the server to the bytes
      encoded; a roundtrip resends the same bytes and ends; a request id is fresh; every
      named call goes by the transport of its command's class; an arm is reported
      settled only after it stood still for the settle window.
    - Planner: the thread serves what arrives in order, each request in its pass or the
      next; a queued command has at most one outcome, and success only when the core
      reports what that command waits for; the ring is fed the samples of the motion in
      flight, each once, in order and under its index, and a flush of an abandoned motion
      spares the next; a failing gripper leaves the arm alone; the tool fitted is the one
      a live drive reports.

    ** Fuel and bounds

    The skipper recurses on a fuel of its depth bound (eight levels) and, inside a
    level, of the bytes left, which every loop consumes; [skip_loops_terminate]
    shows the fuel is never what stops it.  Counters the code holds in u64 (ticks,
    ring positions, generations) are unbounded integers: they grow by at most one
    per tick or sample.  The tick counters of a homing phase are unbounded too, and
    [homing_always_ends] bounds them by [attempt_budget].  Draining the socket
    recurses on the number of frames queued, streaming a capture on the frames a
    tick may send.  A request id is found within two turns more than there are requests
    pending; a roundtrip recurses on its attempts, the eviction of completions on the
    length of the log.

    ** What is not modelled

    Of the server: the contents of the STATUS frame, the queries that only read the
    snapshot, the planner's report or the configuration text, and its shutdown; of the
    core: the phase profiler, the contents of the published snapshot and the swap of
    the tool; of the configuration: the TOML parser and the merge of a local file over
    the shipped one; of the client: its sockets and environment.  Of the
    daemon: its wiring, the bridge from the server to the core, the preview and the
    calibration.  The generation of motions (paths, timing, inverse kinematics,
    collision), the jog engine behind [TickDeps], the plant of the simulator and the
    test double of the bus are not modelled.  Sockets,
    threads and clocks, the netlink calls that bring a CAN interface up, the Python
    bindings, FFI kinematics and logging are outside the model. *)

(** The result type of fallible code with its bind notation, the machine-width
    integer predicates and casts, big-endian byte strings, the conversion of
    Rocq string literals to bytes, and the Ltac that the proofs of the
    components use.  Nothing below is about par6 itself. *)
From Stdlib Require Export String Ascii ZArith Lia List.
From stdpp Require Export base tactics option list numbers strings.
#[global] Open Scope Z_scope.

(** ** Fallible results *)

(** Rust's [Result<A, E>]. *)
Inductive result (E A : Type) : Type :=
| Ok (a : A)
| Err (e : E).
Arguments Ok {E A} a.
Arguments Err {E A} e.

#[global] Instance result_eq_dec {E A} `{EqDecision E} `{EqDecision A} :
  EqDecision (result E A).
Proof. solve_decision. Defined.

Declare Scope par6_scope.
Delimit Scope par6_scope with par6.
#[global] Open Scope par6_scope.

(** The [?] operator of Rust: an error stops the computation. *)
Definition rbind {E A B} (m : result E A) (k : A -> result E B) : result E B :=
  match m with
  | Ok a => k a
  | Err e => Err e
  end.

Notation "'let?' x := m 'in' k" := (rbind m (fun x => k))
  (at level 10, x binder, m at level 100, k at level 200) : par6_scope.

Notation "m1 ;;? m2" := (rbind m1 (fun _ => m2))
  (at level 100, right associativity) : par6_scope.

Definition is_ok {E A} (m : result E A) : bool :=
  match m with Ok _ => true | Err _ => false end.

(** Run a check on every element, first failure wins ([for v in vs { f(v)?; }]). *)
Fixpoint for_each {E A} (f : A -> result E unit) (l : list A) : result E unit :=
  match l with
  | [] => Ok tt
  | x :: l' => f x ;;? for_each f l'
  end.

Lemma rbind_ok {E A B} (m : result E A) (k : A -> result E B) b :
  rbind m k = Ok b <-> exists a, m = Ok a /\ k a = Ok b.
Proof.
  destruct m; simpl; split; [eauto | | | ].
  - intros (a' & H & Hk). by simplify_eq.
  - done.
  - by intros (a' & H & _).
Qed.

Lemma is_ok_spec {E} (m : result E unit) : is_ok m = true <-> m = Ok tt.
Proof. destruct m as [[]|]; simpl; split; congruence. Qed.

Lemma for_each_ok {E A} (f : A -> result E unit) l :
  for_each f l = Ok tt <-> Forall (fun x => f x = Ok tt) l.
Proof.
  induction l as [|x l IH]; simpl; [split; auto|].
  rewrite rbind_ok, Forall_cons_iff. split.
  - intros ([] & H1 & H2). tauto.
  - intros [H1 H2]. exists tt. tauto.
Qed.

(** ** Machine-width integers *)

(** [v] is a value of the unsigned type of [w] bits. *)
Definition is_uint (w v : Z) : bool := (0 <=? v) && (v <? 2 ^ w).
(** [v] is a value of the signed type of [w] bits. *)
Definition is_sint (w v : Z) : bool := (- 2 ^ (w - 1) <=? v) && (v <? 2 ^ (w - 1)).

(** [v as u<w>]: the low [w] bits. *)
Definition wrap (w v : Z) : Z := v mod 2 ^ w.
(** [v as i<w>]: the low [w] bits read in two's complement. *)
Definition swrap (w v : Z) : Z :=
  let u := wrap w v in if u <? 2 ^ (w - 1) then u else u - 2 ^ w.

(** Membership in the inclusive range pattern [lo..=hi]. *)
Definition in_range (lo m hi : Z) : bool := (lo <=? m) && (m <=? hi).

Definition u64_max : Z := 2 ^ 64 - 1.

Definition checked_add_usize (a b : Z) : option Z :=
  if a + b <=? u64_max then Some (a + b) else None.

Definition wrapping_add (w a b : Z) : Z := wrap w (a + b).
Definition saturating_add (w a b : Z) : Z := Z.min (a + b) (2 ^ w - 1).
Definition saturating_sub (a b : Z) : Z := Z.max 0 (a - b).

Lemma is_uint_spec w v : is_uint w v = true <-> 0 <= v < 2 ^ w.
Proof. unfold is_uint. lia. Qed.

Lemma is_sint_spec w v : is_sint w v = true <-> - 2 ^ (w - 1) <= v < 2 ^ (w - 1).
Proof. unfold is_sint. lia. Qed.

Lemma in_range_spec lo m hi : in_range lo m hi = true <-> lo <= m <= hi.
Proof. unfold in_range. lia. Qed.

Lemma wrap_small w v : is_uint w v = true -> wrap w v = v.
Proof. rewrite is_uint_spec. intros ?. apply Z.mod_small. lia. Qed.

Lemma wrap_range w v : 0 <= w -> is_uint w (wrap w v) = true.
Proof.
  intros. rewrite is_uint_spec. unfold wrap. apply Z.mod_pos_bound.
  apply Z.pow_pos_nonneg; lia.
Qed.

(** Two's complement: reading back the low bits of a signed value. *)
Lemma swrap_wrap w v : 1 <= w -> is_sint w v = true -> swrap w (wrap w v) = v.
Proof.
  intros Hw. rewrite is_sint_spec. intros Hv.
  assert (E : 2 ^ w = 2 * 2 ^ (w - 1)).
  { rewrite <- Z.pow_succ_r by lia. f_equal. lia. }
  unfold swrap, wrap. rewrite Zmod_mod.
  destruct (Z_lt_le_dec v 0).
  - rewrite (Z.mod_eq v (2 ^ w)) by lia.
    replace (v / 2 ^ w) with (-1) by (apply (Z.div_unique v (2 ^ w) (-1) (v + 2 ^ w)); lia).
    destruct (Z.ltb_spec (v - 2 ^ w * -1) (2 ^ (w - 1))); lia.
  - rewrite Z.mod_small by lia.
    destruct (Z.ltb_spec v (2 ^ (w - 1))); lia.
Qed.

(** A marker byte whose low bits are clear, or-ed with a small count. *)
Lemma lor_marker c k n : 0 <= k -> 0 <= n < 2 ^ k -> Z.lor (c * 2 ^ k) n = c * 2 ^ k + n.
Proof.
  intros Hk Hn.
  assert (Z.land (c * 2 ^ k) n = 0) as L.
  { destruct (decide (n = 0)) as [->|Hn0]; [apply Z.land_0_r|].
    apply Z.bits_inj'. intros i Hi. rewrite Z.land_spec, Z.bits_0.
    destruct (Z_lt_le_dec i k).
    - rewrite Z.mul_pow2_bits_low by lia. done.
    - rewrite (Z.bits_above_log2 n i), andb_false_r; [done|lia|].
      apply Z.log2_lt_pow2; [lia|]. pose proof (Z.pow_le_mono_r 2 k i). lia. }
  rewrite <- Z.lxor_lor by done. by rewrite <- Z.add_nocarry_lxor.
Qed.

(** ** Bytes *)

(** A byte is its value, an integer of [0..=255]; a byte string a list of them. *)
Abbreviation bytes := (list Z).
Definition is_bytes (l : bytes) : bool := forallb (is_uint 8) l.

(** [v.to_be_bytes()] of an unsigned integer of [n] bytes (the low bytes of [v]). *)
Fixpoint be_bytes (n : nat) (v : Z) : bytes :=
  match n with
  | O => []
  | S n' => wrap 8 (Z.shiftr v (8 * Z.of_nat n')) :: be_bytes n' v
  end.

(** [from_be_bytes]. *)
Fixpoint from_be_acc (acc : Z) (l : bytes) : Z :=
  match l with
  | [] => acc
  | b :: l' => from_be_acc (acc * 256 + b) l'
  end.
Definition from_be (l : bytes) : Z := from_be_acc 0 l.

(** The UTF-8 bytes of an ASCII literal. *)
Definition str_bytes (s : string) : bytes :=
  map (fun a => Z.of_N (N_of_ascii a)) (list_ascii_of_string s).

Lemma length_be_bytes n v : length (be_bytes n v) = n.
Proof. induction n; simpl; congruence. Qed.

Lemma from_be_acc_be_bytes n v acc :
  from_be_acc acc (be_bytes n v) = acc * 2 ^ (8 * Z.of_nat n) + v mod 2 ^ (8 * Z.of_nat n).
Proof.
  revert acc. induction n as [|n IH]; intros acc; cbn [be_bytes from_be_acc].
  - change (2 ^ (8 * Z.of_nat 0)) with 1. rewrite Z.mod_1_r. lia.
  - rewrite IH. unfold wrap.
    replace (8 * Z.of_nat (S n)) with (8 * Z.of_nat n + 8) by lia.
    rewrite Z.pow_add_r, Z.shiftr_div_pow2 by lia.
    set (p := 2 ^ (8 * Z.of_nat n)). assert (0 < p) by (apply Z.pow_pos_nonneg; lia).
    change (2 ^ 8) with 256. rewrite (Z.rem_mul_r v p 256) by lia. ring.
Qed.

Lemma from_be_be_bytes n v :
  is_uint (8 * Z.of_nat n) v = true -> from_be (be_bytes n v) = v.
Proof.
  rewrite is_uint_spec. intros H. unfold from_be. rewrite from_be_acc_be_bytes.
  rewrite Z.mod_small by done. lia.
Qed.

Lemma is_bytes_app l1 l2 : is_bytes (l1 ++ l2) = is_bytes l1 && is_bytes l2.
Proof. apply forallb_app. Qed.

Lemma is_bytes_be_bytes n v : is_bytes (be_bytes n v) = true.
Proof.
  induction n; simpl; [done|]. rewrite wrap_range, IHn by lia. done.
Qed.

Lemma from_be_acc_range l acc k :
  is_bytes l = true -> 0 <= k -> is_uint (8 * k) acc = true ->
  is_uint (8 * (k + Z.of_nat (length l))) (from_be_acc acc l) = true.
Proof.
  revert acc k. induction l as [|b l IH]; intros acc k Hl Hk Ha; simpl.
  - by rewrite Z.add_0_r.
  - simpl in Hl. apply andb_prop in Hl as [Hb Hl].
    replace (k + Z.of_nat (S (length l))) with ((k + 1) + Z.of_nat (length l)) by lia.
    apply IH; [done|lia|]. rewrite is_uint_spec in *.
    replace (8 * (k + 1)) with (8 * k + 8) by lia. rewrite Z.pow_add_r by lia.
    change (2 ^ 8) with 256 in *. lia.
Qed.

Lemma from_be_range l n :
  is_bytes l = true -> length l = n -> is_uint (8 * Z.of_nat n) (from_be l) = true.
Proof.
  intros Hl <-. apply (from_be_acc_range l 0 0); [done|lia|]. done.
Qed.

(** ** Automation *)

(** Split every boolean conjunction among the hypotheses and the goal. *)
Ltac bsplit :=
  repeat match goal with
    | H : (_ && _) = true |- _ => apply andb_prop in H; destruct H
    | |- (_ && _) = true => apply andb_true_intro; split
    end.

(** Turn the width predicates into inequalities over [Z]. *)
Ltac unfold_widths :=
  unfold is_uint, is_sint, in_range in *.

(** Decide a boolean condition of the goal by arithmetic. *)
Ltac zdecide :=
  repeat match goal with
    | |- context [if ?b then _ else _] =>
        first [ replace b with true by (unfold_widths; lia)
              | replace b with false by (unfold_widths; lia) ]; cbn iota
    end.

(** Invert a successful chain of [let?]. *)
Ltac inv_ok :=
  repeat match goal with
    | H : rbind _ _ = Ok _ |- _ =>
        let a := fresh "a" in let H1 := fresh "Hok" in
        apply rbind_ok in H; destruct H as (a & H1 & H)
    | u : unit |- _ => destruct u
    | H : Ok _ = Ok _ |- _ => injection H as H; subst
    | H : Err _ = Ok _ |- _ => discriminate H
    end.

Create HintDb par6 discriminated.
#[export] Hint Resolve wrap_range is_bytes_be_bytes length_be_bytes : par6.
Create Rewrite HintDb par6_rw.
#[export] Hint Rewrite is_bytes_app length_be_bytes @length_app : par6_rw.
