(* ===== verification/F64.v ===== *)
(** * F64: IEEE-754 binary64 as the program uses it

    An [f64] is its bit pattern, an integer of 64 bits: that is what
    [f64::to_bits] puts on the wire, NaN payloads included.  Comparisons and
    arithmetic go through the Standard Library's [SpecFloat], the executable
    specification of IEEE-754 (precision 53, maximal exponent 1024, round to
    nearest even).  The last part characterises the order tests of the
    validators by inequalities on bit patterns. *)
From Stdlib Require Import SpecFloat.
From S2P Require Import Prelude.

Definition f64 := Z.

(** The bit pattern of a binary32, for values that are only stored. *)
Definition f32 := Z.

(** The three fields of the encoding. *)
Definition f64_sign (b : f64) : bool := Z.testbit b 63.
Definition f64_exp (b : f64) : Z := Z.land (Z.shiftr b 52) 2047.
Definition f64_man (b : f64) : Z := Z.land b (2 ^ 52 - 1).

(** The number a bit pattern denotes. *)
Definition f64_to_SF (b : f64) : spec_float :=
  let s := f64_sign b in let e := f64_exp b in let m := f64_man b in
  if e =? 2047 then (if m =? 0 then S754_infinity s else S754_nan)
  else if e =? 0 then
    match m with Zpos p => S754_finite s p (-1074) | _ => S754_zero s end
  else match m + 2 ^ 52 with Zpos p => S754_finite s p (e - 1075) | _ => S754_nan end.

(** The comparisons [<], [<=], [>], [>=] of Rust: false on a NaN. *)
Definition sf_lt (a b : spec_float) : bool :=
  match SFcompare a b with Some Lt => true | _ => false end.
Definition sf_le (a b : spec_float) : bool :=
  match SFcompare a b with Some (Lt | Eq) => true | _ => false end.

Definition f64_lt (a b : f64) : bool := sf_lt (f64_to_SF a) (f64_to_SF b).
Definition f64_le (a b : f64) : bool := sf_le (f64_to_SF a) (f64_to_SF b).
Definition f64_gt (a b : f64) : bool := f64_lt b a.
Definition f64_ge (a b : f64) : bool := f64_le b a.

(** [a == b] of Rust: false on a NaN, true on the two zeros. *)
Definition f64_eqb (a b : f64) : bool :=
  match SFcompare (f64_to_SF a) (f64_to_SF b) with Some Eq => true | _ => false end.

(** [v.is_finite()] and [v.is_nan()]. *)
Definition f64_is_finite (b : f64) : bool := negb (f64_exp b =? 2047).
Definition f64_is_nan (b : f64) : bool := (f64_exp b =? 2047) && negb (f64_man b =? 0).

(** Arithmetic on the denoted numbers, rounded to nearest even. *)
Definition sf_add := SFadd 53 1024.
Definition sf_sub := SFsub 53 1024.
Definition sf_mul := SFmul 53 1024.
Definition sf_abs := SFabs.
Definition sf_opp := SFopp.

Definition sf_div := SFdiv 53 1024.

(** [x.round()] to an integer, half away from zero; none for NaN and infinities. *)
Definition sf_round (x : spec_float) : option Z :=
  match x with
  | S754_zero _ => Some 0
  | S754_infinity _ | S754_nan => None
  | S754_finite s m e =>
      let v := if 0 <=? e then Zpos m * 2 ^ e else (2 * Zpos m + 2 ^ (- e)) / (2 * 2 ^ (- e)) in
      Some (if s then - v else v)
  end.

(** [x.round() as u<w>]: saturating, NaN to 0. *)
Definition sf_round_as_uint (w : Z) (x : spec_float) : Z :=
  match sf_round x with
  | Some v => Z.max 0 (Z.min v (2 ^ w - 1))
  | None => match x with S754_infinity false => 2 ^ w - 1 | _ => 0 end
  end.

(** [f64::max]: a NaN operand is ignored. *)
Definition sf_max (a b : spec_float) : spec_float :=
  match SFcompare a b with
  | Some Lt => b
  | Some _ => a
  | None => match a with S754_nan => b | _ => a end
  end.

(** [n as f64]. *)
Definition sf_of_int (n : Z) : spec_float := binary_normalize 53 1024 n 0 false.

(** [x as f32], kept as the number it denotes. *)
Definition sf_to_f32 (x : spec_float) : spec_float :=
  match x with
  | S754_finite s m e => binary_normalize 24 128 (if s then Zneg m else Zpos m) e s
  | _ => x
  end.

(** The number a binary32 bit pattern denotes ([f64::from(f32)]). *)
Definition f32_to_SF (b : f32) : spec_float :=
  let s := Z.testbit b 31 in
  let e := Z.land (Z.shiftr b 23) 255 in
  let m := Z.land b (2 ^ 23 - 1) in
  if e =? 255 then (if m =? 0 then S754_infinity s else S754_nan)
  else if e =? 0 then
    match m with Zpos p => S754_finite s p (-149) | _ => S754_zero s end
  else match m + 2 ^ 23 with Zpos p => S754_finite s p (e - 150) | _ => S754_nan end.

(** [x as f32] as a bit pattern, an integer of 32 bits; a NaN is the quiet one. *)
Definition sf_to_f32_bits (x : spec_float) : f32 :=
  let sign (s : bool) := if s then 2 ^ 31 else 0 in
  wrap 32 match sf_to_f32 x with
  | S754_zero s => sign s
  | S754_infinity s => sign s + 0x7F800000
  | S754_nan => 0x7FC00000
  | S754_finite s m e =>
      sign s + (if Zpos m <? 2 ^ 23 then Zpos m else (e + 150) * 2 ^ 23 + (Zpos m - 2 ^ 23))
  end.

(** [f64::min]: a NaN operand is ignored. *)
Definition sf_min (a b : spec_float) : spec_float :=
  match SFcompare a b with
  | Some Gt => b
  | Some _ => a
  | None => match a with S754_nan => b | _ => a end
  end.

(** [x.clamp(lo, hi)]: a NaN stays. *)
Definition sf_clamp (lo hi x : spec_float) : spec_float :=
  if sf_lt x lo then lo else if sf_lt hi x then hi else x.

(** The integers next to [m * 2 ^ e], and the nearest with ties to even. *)
Definition floor_at (m e : Z) : Z := if 0 <=? e then m * 2 ^ e else m / 2 ^ (- e).
Definition ceil_at (m e : Z) : Z := - floor_at (- m) e.
Definition nearest_even_at (m e : Z) : Z :=
  if 0 <=? e then m * 2 ^ e
  else
    let q := m / 2 ^ (- e) in
    let r := 2 * (m mod 2 ^ (- e)) in
    if (r <? 2 ^ (- e)) || ((r =? 2 ^ (- e)) && Z.even q) then q else q + 1.

(** [x as i<w>] and [x as u<w>]: toward zero, saturating, NaN to 0. *)
Definition sf_saturate (lo hi : Z) (near : Z -> Z -> Z) (x : spec_float) : Z :=
  match x with
  | S754_zero _ | S754_nan => 0
  | S754_infinity s => if s then lo else hi
  | S754_finite s m e => Z.max lo (Z.min (if s then - near (Zpos m) e else near (Zpos m) e) hi)
  end.

Definition sf_trunc_as_uint (w : Z) : spec_float -> Z := sf_saturate 0 (2 ^ w - 1) floor_at.
Definition sf_trunc_as_sint (w : Z) : spec_float -> Z := sf_saturate (- 2 ^ (w - 1)) (2 ^ (w - 1) - 1) floor_at.

(** [x.round() as i<w>], half away from zero; [x.round_ties_even() as i<w>]. *)
Definition sf_round_as_sint (w : Z) : spec_float -> Z :=
  sf_saturate (- 2 ^ (w - 1)) (2 ^ (w - 1) - 1) (fun m e => if 0 <=? e then m * 2 ^ e else (2 * m + 2 ^ (- e)) / (2 * 2 ^ (- e))).
Definition sf_round_even_as_sint (w : Z) : spec_float -> Z :=
  sf_saturate (- 2 ^ (w - 1)) (2 ^ (w - 1) - 1) nearest_even_at.

(** [x.ceil() as u<w>]. *)
Definition sf_ceil_as_uint (w : Z) : spec_float -> Z := sf_saturate 0 (2 ^ w - 1) ceil_at.

Lemma sf_saturate_range lo hi near x : lo <= 0 <= hi -> lo <= sf_saturate lo hi near x <= hi.
Proof. intros. destruct x as [s|s| |s m e]; cbn; try destruct s; lia. Qed.

(** Literals of the sources. *)
Definition f64_0 : f64 := 0.
Definition f64_1 : f64 := 0x3FF0000000000000.
Definition f64_m1 : f64 := 0xBFF0000000000000.
Definition f64_0_1 : f64 := 0x3FB999999999999A.
Definition f64_60 : f64 := 0x404E000000000000.
Definition f64_3600 : f64 := 0x40AC200000000000.
Definition f64_1e_9 : f64 := 0x3E112E0BE826D695.

(** ** Positive numbers are ordered like their bit patterns *)

(** Bit pattern of [+infinity], the first that is not finite. *)
Definition f64_inf : Z := 0x7FF0000000000000.

Lemma f64_fields_nonneg b : 0 <= b < 2 ^ 63 ->
  f64_sign b = false /\ b = f64_exp b * 2 ^ 52 + f64_man b /\
  0 <= f64_exp b < 2048 /\ 0 <= f64_man b < 2 ^ 52.
Proof.
  intros Hb. unfold f64_sign, f64_exp, f64_man.
  change 2047 with (Z.ones 11). change (2 ^ 52 - 1) with (Z.ones 52).
  rewrite !Z.land_ones, Z.shiftr_div_pow2 by lia.
  rewrite (Z.mod_small (b / 2 ^ 52)) by (split; [apply Z.div_pos|apply Z.div_lt_upper_bound]; lia).
  pose proof (Z.div_mod b (2 ^ 52)). pose proof (Z.mod_pos_bound b (2 ^ 52)).
  split; [|repeat split; lia].
  rewrite Z.testbit_odd, Z.shiftr_div_pow2 by lia. rewrite Z.div_small by lia. done.
Qed.

(** A positive finite pattern denotes a positive number with this mantissa and exponent. *)
Definition pos_man (b : Z) : positive :=
  Z.to_pos (if f64_exp b =? 0 then f64_man b else f64_man b + 2 ^ 52).
Definition pos_exp (b : Z) : Z := if f64_exp b =? 0 then -1074 else f64_exp b - 1075.

Lemma f64_to_SF_pos b : 0 < b < f64_inf ->
  f64_to_SF b = S754_finite false (pos_man b) (pos_exp b).
Proof.
  unfold f64_inf. intros Hb.
  destruct (f64_fields_nonneg b) as (Hs & Hd & He & Hm); [lia|].
  unfold f64_to_SF, pos_man, pos_exp. rewrite Hs.
  destruct (Z.eqb_spec (f64_exp b) 2047); [lia|].
  destruct (Z.eqb_spec (f64_exp b) 0).
  - destruct (f64_man b); [lia|done|lia].
  - destruct (f64_man b + 2 ^ 52) eqn:E; [lia|done|lia].
Qed.

Lemma pos_compare b1 b2 : 0 < b1 < f64_inf -> 0 < b2 < f64_inf ->
  SFcompare (f64_to_SF b1) (f64_to_SF b2) = Some (b1 ?= b2).
Proof.
  intros H1 H2. rewrite !f64_to_SF_pos by done. unfold SFcompare, f64_inf in *.
  destruct (f64_fields_nonneg b1) as (_ & Hd1 & He1 & Hm1); [lia|].
  destruct (f64_fields_nonneg b2) as (_ & Hd2 & He2 & Hm2); [lia|].
  unfold pos_exp, pos_man. f_equal.
  destruct (Z.eqb_spec (f64_exp b1) 0), (Z.eqb_spec (f64_exp b2) 0);
    repeat match goal with
    | |- context [match ?a ?= ?b with _ => _ end] => destruct (Z.compare_spec a b); try lia
    end;
    try change (Pos.compare_cont Eq ?x ?y) with (Pos.compare x y);
    try rewrite <- Z2Pos.inj_compare by lia;
    symmetry; first [apply Z.compare_lt_iff | apply Z.compare_gt_iff | idtac]; try lia.
  all: match goal with |- (_ ?= _) = (_ ?= _) => idtac end;
    destruct (Z.compare_spec b1 b2); symmetry;
    first [apply Z.compare_eq_iff | apply Z.compare_lt_iff | apply Z.compare_gt_iff]; lia.
Qed.

Lemma f64_le_pos b1 b2 : 0 < b1 < f64_inf -> 0 < b2 < f64_inf -> f64_le b1 b2 = (b1 <=? b2).
Proof.
  intros H1 H2. unfold f64_le, sf_le. rewrite pos_compare by done.
  unfold Z.leb. by destruct (b1 ?= b2).
Qed.

Lemma f64_to_SF_neg b : 2 ^ 63 <= b < 2 ^ 64 ->
  match f64_to_SF b with
  | S754_zero s | S754_infinity s | S754_finite s _ _ => s = true
  | S754_nan => True
  end.
Proof.
  intros Hb. unfold f64_to_SF.
  assert (f64_sign b = true) as ->.
  { unfold f64_sign. rewrite Z.testbit_odd, Z.shiftr_div_pow2 by lia.
    replace (b / 2 ^ 63) with 1; [done|].
    apply (Z.div_unique b (2 ^ 63) 1 (b - 2 ^ 63)); lia. }
  repeat case_match; simplify_eq; done.
Qed.

(** [v > 0.0 && v.is_finite()] as a range of bit patterns. *)
Lemma f64_pos_finite b : is_uint 64 b = true ->
  f64_is_finite b && f64_gt b f64_0 = true <-> 0 < b < f64_inf.
Proof.
  rewrite is_uint_spec. intros Hb.
  destruct (Z_lt_le_dec b (2 ^ 63)) as [Hlt|Hge].
  - destruct (f64_fields_nonneg b) as (Hs & Hd & He & Hm); [lia|].
    unfold f64_is_finite. rewrite andb_true_iff, negb_true_iff, Z.eqb_neq. split.
    + intros [Hf Hgt]. unfold f64_inf. destruct (decide (b = 0)) as [->|]; [done|lia].
    + intros H. unfold f64_inf in H. split; [lia|].
      unfold f64_gt, f64_lt. rewrite (f64_to_SF_pos b) by done. done.
  - split; [|unfold f64_inf; lia]. rewrite andb_true_iff. intros [_ Hgt]. exfalso.
    pose proof (f64_to_SF_neg b ltac:(lia)) as Hn.
    unfold f64_gt, f64_lt, sf_lt in Hgt.
    destruct (f64_to_SF b); subst; done.
Qed.

(** ** Computing with bit patterns

    The arithmetic of the per-tick laws on [f64] values: each operation computes
    on the denoted numbers and rounds back to a pattern.  [f64_of_SF_inv] says
    that nothing is lost on the way: a number binary64 can represent denotes
    itself.  A NaN that an operation makes is the quiet one. *)

Definition f64_nan : f64 := 0x7FF8000000000000.
Definition f64_half : f64 := 0x3FE0000000000000.

Definition sign_bit (s : bool) : Z := if s then 2 ^ 63 else 0.

(** The bit pattern of a number. *)
Definition f64_of_SF (x : spec_float) : f64 :=
  match x with
  | S754_zero s => sign_bit s
  | S754_infinity s => sign_bit s + f64_inf
  | S754_nan => f64_nan
  | S754_finite s m e =>
      sign_bit s + (if Zpos m <? 2 ^ 52 then Zpos m else (e + 1075) * 2 ^ 52 + (Zpos m - 2 ^ 52))
  end.

Definition f64_add (a b : f64) : f64 := f64_of_SF (sf_add (f64_to_SF a) (f64_to_SF b)).
Definition f64_sub (a b : f64) : f64 := f64_of_SF (sf_sub (f64_to_SF a) (f64_to_SF b)).
Definition f64_mul (a b : f64) : f64 := f64_of_SF (sf_mul (f64_to_SF a) (f64_to_SF b)).
Definition f64_div (a b : f64) : f64 := f64_of_SF (sf_div (f64_to_SF a) (f64_to_SF b)).
Definition f64_sqrt (a : f64) : f64 := f64_of_SF (SFsqrt 53 1024 (f64_to_SF a)).
Definition f64_of_int (n : Z) : f64 := f64_of_SF (sf_of_int n).

(** [-x], [x.abs()], [x.copysign(y)]: the sign bit alone. *)
Definition f64_neg (a : f64) : f64 := Z.lxor a (2 ^ 63).
Definition f64_abs (a : f64) : f64 := Z.land a (2 ^ 63 - 1).
Definition f64_copysign (a b : f64) : f64 := Z.lor (f64_abs a) (sign_bit (f64_sign b)).

(** [f64::max] and [f64::min]: a NaN operand is ignored. *)
Definition f64_max (a b : f64) : f64 :=
  if f64_is_nan a then b else if f64_lt a b then b else a.
Definition f64_min (a b : f64) : f64 :=
  if f64_is_nan a then b else if f64_gt a b then b else a.

(** [x.clamp(lo, hi)]: a NaN stays. *)
Definition f64_clamp (lo hi x : f64) : f64 :=
  if f64_lt x lo then lo else if f64_gt x hi then hi else x.

(** The key [f64::total_cmp] orders by. *)
Definition f64_total_key (a : f64) : Z := if f64_sign a then - (a - 2 ^ 63) - 1 else a.

Infix "+!" := f64_add (at level 50, left associativity) : par6_scope.
Infix "-!" := f64_sub (at level 50, left associativity) : par6_scope.
Infix "*!" := f64_mul (at level 40, left associativity) : par6_scope.
Infix "/!" := f64_div (at level 40, left associativity) : par6_scope.

(** ** Patterns and numbers *)

Section Fields.
Context (s : bool) (e m : Z) (He : 0 <= e < 2 ^ 11) (Hm : 0 <= m < 2 ^ 52).

Definition pattern : f64 := sign_bit s + e * 2 ^ 52 + m.

Lemma pattern_sign : f64_sign pattern = s.
Proof.
  unfold f64_sign, pattern. rewrite Z.testbit_odd, Z.shiftr_div_pow2 by lia.
  replace ((sign_bit s + e * 2 ^ 52 + m) / 2 ^ 63) with (Z.b2z s); [by destruct s|].
  apply (Z.div_unique _ _ _ (e * 2 ^ 52 + m)); unfold sign_bit; [nia|destruct s; cbn [Z.b2z]; lia].
Qed.

Lemma pattern_high : pattern / 2 ^ 52 = Z.b2z s * 2 ^ 11 + e.
Proof.
  symmetry. apply (Z.div_unique _ _ _ m); unfold pattern, sign_bit; [lia|].
  destruct s; cbn [Z.b2z]; lia.
Qed.

Lemma pattern_exp : f64_exp pattern = e.
Proof.
  unfold f64_exp. change 2047 with (Z.ones 11).
  rewrite Z.land_ones, Z.shiftr_div_pow2, pattern_high by lia.
  rewrite Z.add_comm, Z_mod_plus_full. by apply Z.mod_small.
Qed.

Lemma pattern_man : f64_man pattern = m.
Proof.
  unfold f64_man. change (2 ^ 52 - 1) with (Z.ones 52). rewrite Z.land_ones by lia.
  symmetry. apply (Z.mod_unique _ _ (Z.b2z s * 2 ^ 11 + e)); [lia|].
  unfold pattern, sign_bit. destruct s; cbn [Z.b2z]; lia.
Qed.
End Fields.

Lemma digits2_log2 m : Zpos (digits2_pos m) = Z.log2 (Zpos m) + 1.
Proof.
  induction m; cbn [digits2_pos]; [| |done].
  - rewrite Pos2Z.inj_succ, IHm. change (Zpos m~1) with (2 * Zpos m + 1).
    rewrite Z.log2_succ_double by done. lia.
  - rewrite Pos2Z.inj_succ, IHm. change (Zpos m~0) with (2 * Zpos m).
    rewrite Z.log2_double by done. lia.
Qed.

(** A finite number of binary64: its mantissa and exponent are in canonical form. *)
Lemma canonical_bounds m e :
  bounded 53 1024 m e = true ->
  (Zpos m < 2 ^ 52 /\ e = -1074) \/ (2 ^ 52 <= Zpos m < 2 ^ 53 /\ -1074 <= e <= 971).
Proof.
  unfold bounded, canonical_mantissa, fexp, SpecFloat.emin.
  intros [Hc He]%andb_true_iff. apply Z.eqb_eq in Hc. apply Zle_bool_imp_le in He.
  rewrite digits2_log2 in Hc. pose proof (Z.log2_spec (Zpos m) ltac:(done)) as [H1 H2].
  destruct (Z.le_gt_cases 52 (Z.log2 (Zpos m))) as [Hl|Hl].
  - right. assert (Z.log2 (Zpos m) = 52) as El by lia. rewrite El in *; lia.
  - left. split; [|lia]. eapply Z.lt_le_trans; [exact H2|]. apply Z.pow_le_mono_r; lia.
Qed.

(** A number binary64 can represent is the number its pattern denotes. *)
Lemma f64_of_SF_inv x : valid_binary 53 1024 x = true -> f64_to_SF (f64_of_SF x) = x.
Proof.
  destruct x as [s|s| |s m e]; intros Hv; [by destruct s|by destruct s|done|].
  apply canonical_bounds in Hv. unfold f64_of_SF.
  destruct (Z.ltb_spec (Zpos m) (2 ^ 52)) as [Hm|Hm]; destruct Hv as [[H1 H2]|[H1 H2]]; try lia.
  - replace (sign_bit s + Zpos m) with (pattern s 0 (Zpos m)) by (unfold pattern; lia).
    unfold f64_to_SF. rewrite pattern_sign, pattern_exp, pattern_man by lia. by subst.
  - replace (sign_bit s + ((e + 1075) * 2 ^ 52 + (Zpos m - 2 ^ 52))) with (pattern s (e + 1075) (Zpos m - 2 ^ 52))
      by (unfold pattern; lia).
    unfold f64_to_SF. rewrite pattern_sign, pattern_exp, pattern_man by lia.
    destruct (Z.eqb_spec (e + 1075) 2047); [lia|]. destruct (Z.eqb_spec (e + 1075) 0); [lia|].
    replace (Zpos m - 2 ^ 52 + 2 ^ 52) with (Zpos m) by lia. by replace (e + 1075 - 1075) with e by lia.
Qed.

(** ** Zero *)

Definition is_zero (x : spec_float) : bool := match x with S754_zero _ => true | _ => false end.
Definition zero_or_nan (x : spec_float) : bool :=
  match x with S754_zero _ | S754_nan => true | _ => false end.

Lemma sf_mul_zero x y : is_zero x = true -> zero_or_nan (sf_mul x y) = true.
Proof. destruct x as [|s| |s m e], y as [|s'| |s' m' e']; done. Qed.

Lemma sf_div_zero x y : zero_or_nan x = true -> zero_or_nan (sf_div x y) = true.
Proof. destruct x as [|s| |s m e], y as [|s'| |s' m' e']; done. Qed.

Lemma sf_mul_nan_zero x y : zero_or_nan x = true -> zero_or_nan (sf_mul x y) = true.
Proof. destruct x as [|s| |s m e], y as [|s'| |s' m' e']; done. Qed.

Lemma sf_opp_zero x : is_zero (sf_opp x) = is_zero x.
Proof. by destruct x. Qed.

Lemma sf_trunc_zero w x : zero_or_nan x = true -> sf_trunc_as_sint w x = 0.
Proof. by destruct x. Qed.

Lemma zero_of_SF x : zero_or_nan x = true -> zero_or_nan (f64_to_SF (f64_of_SF x)) = true.
Proof. destruct x as [[]|s| |s m e]; done. Qed.

(** ** The order of the denoted numbers *)

Lemma SFcompare_antisym x y : SFcompare y x = CompOpp <$> SFcompare x y.
Proof.
  destruct x as [sx|sx| |sx m e], y as [sy|sy| |sy m' e']; cbn; try done; try (by destruct sx, sy);
    try (by destruct sx); try (by destruct sy).
  rewrite (Z.compare_antisym e e').
  change (Pos.compare_cont Eq m' m) with (Pos.compare m' m).
  change (Pos.compare_cont Eq m m') with (Pos.compare m m'). rewrite (Pos.compare_antisym m m').
  by destruct sx, sy, (e ?= e'), (Pos.compare m m').
Qed.

Lemma f64_clamp_cases lo hi x :
  (f64_lt x lo = true /\ f64_clamp lo hi x = lo) \/
  (f64_lt x lo = false /\ f64_gt x hi = true /\ f64_clamp lo hi x = hi) \/
  (f64_lt x lo = false /\ f64_gt x hi = false /\ f64_clamp lo hi x = x).
Proof. unfold f64_clamp. destruct (f64_lt x lo), (f64_gt x hi); auto 10. Qed.

Lemma SFcompare_nan_l x : SFcompare S754_nan x = None.
Proof. done. Qed.

Lemma SFcompare_none x y : SFcompare x y = None -> x = S754_nan \/ y = S754_nan.
Proof.
  destruct x as [[]|[]| |sx m e], y as [[]|[]| |sy m' e']; cbn; auto; try done; try (by destruct sx); try (by destruct sy).
Qed.

Lemma sf_not_lt x y : sf_lt x y = false -> x <> S754_nan -> y <> S754_nan -> sf_le y x = true.
Proof.
  unfold sf_lt, sf_le. rewrite (SFcompare_antisym x y). intros H Hx Hy.
  destruct (SFcompare x y) as [[]|] eqn:E; try done. apply SFcompare_none in E. by destruct E.
Qed.

Lemma sf_lt_le x y : sf_lt x y = true -> sf_le x y = true.
Proof. unfold sf_lt, sf_le. by destruct (SFcompare x y) as [[]|]. Qed.

(** A clamped number that is not NaN lies between the bounds. *)
Lemma f64_clamp_bounds lo hi x :
  f64_le lo hi = true -> f64_to_SF x <> S754_nan ->
  f64_le lo (f64_clamp lo hi x) = true /\ f64_le (f64_clamp lo hi x) hi = true.
Proof.
  intros Hb Hx.
  assert (f64_to_SF lo <> S754_nan /\ f64_to_SF hi <> S754_nan) as [Hl Hh].
  { unfold f64_le, sf_le in Hb. split; intros E; rewrite E in Hb; [done|].
    by destruct (f64_to_SF lo) as [[]|[]| |[] m e]. }
  assert (Hr : forall a, f64_to_SF a <> S754_nan -> f64_le a a = true).
  { intros a. unfold f64_le, sf_le. destruct (f64_to_SF a) as [[]|[]| |[] m e]; intros Ha; cbn; try done; try (by destruct Ha);
      rewrite Z.compare_refl; change (Pos.compare_cont Eq ?x ?y) with (Pos.compare x y); by rewrite Pos.compare_refl. }
  destruct (f64_clamp_cases lo hi x) as [[H1 ->]|[(H1 & H2 & ->)|(H1 & H2 & ->)]]; auto.
  split; by apply sf_not_lt.
Qed.

(** Two numbers that compare alike with everything: equal, or both zero. *)
Definition same_number (x y : spec_float) : Prop :=
  x = y \/ is_zero x = true /\ is_zero y = true.

Lemma same_number_le x y z : same_number x y -> sf_le z x = sf_le z y /\ sf_le x z = sf_le y z.
Proof.
  intros [->|[Hx Hy]]; [done|]. destruct x as [|[]| |[]], y as [|[]| |[]]; try done.
Qed.

(** A sum with zero, and a difference from it. *)
Lemma sf_add_zero x : sf_add x (S754_zero false) = match x with S754_zero _ => S754_zero false | _ => x end.
Proof. by destruct x as [[]|s| |s m e]. Qed.

Lemma sf_sub_zero x : sf_sub x (S754_zero false) = x.
Proof. by destruct x as [[]|s| |s m e]. Qed.

(** ** Every pattern denotes a number of binary64 *)

Lemma f64_field_bounds a : 0 <= f64_exp a < 2 ^ 11 /\ 0 <= f64_man a < 2 ^ 52.
Proof.
  unfold f64_exp, f64_man. change 2047 with (Z.ones 11). change (2 ^ 52 - 1) with (Z.ones 52).
  rewrite !Z.land_ones by lia. split; apply Z.mod_pos_bound; lia.
Qed.

Lemma canonical_intro m e :
  (Zpos m < 2 ^ 52 /\ e = -1074) \/ (2 ^ 52 <= Zpos m < 2 ^ 53 /\ -1074 <= e <= 971) ->
  bounded 53 1024 m e = true.
Proof.
  intros H. unfold bounded, canonical_mantissa, fexp, SpecFloat.emin. rewrite digits2_log2.
  apply andb_true_iff. split; [apply Z.eqb_eq|apply Z.leb_le; lia].
  destruct H as [[H1 ->]|[H1 H2]].
  - assert (Z.log2 (Zpos m) < 52) by (apply Z.log2_lt_pow2; lia). lia.
  - assert (Z.log2 (Zpos m) = 52) by (apply Z.log2_unique; [lia|]; change (Z.succ 52) with 53; lia). lia.
Qed.

Lemma f64_to_SF_valid a : valid_binary 53 1024 (f64_to_SF a) = true.
Proof.
  pose proof (f64_field_bounds a) as [He Hm]. unfold f64_to_SF. cbv zeta.
  destruct (Z.eqb_spec (f64_exp a) 2047); [by case_match|].
  destruct (Z.eqb_spec (f64_exp a) 0).
  - destruct (f64_man a) as [|p|p] eqn:E; try done. apply canonical_intro. left. lia.
  - destruct (f64_man a + 2 ^ 52) as [|p|p] eqn:E; try lia. apply canonical_intro. right. lia.
Qed.

Lemma f64_nan_spec a : f64_is_nan a = match f64_to_SF a with S754_nan => true | _ => false end.
Proof.
  pose proof (f64_field_bounds a) as [He Hm]. unfold f64_is_nan, f64_to_SF. cbv zeta.
  destruct (Z.eqb_spec (f64_exp a) 2047); cbn [andb]; [by destruct (f64_man a =? 0)|].
  destruct (Z.eqb_spec (f64_exp a) 0).
  - by destruct (f64_man a).
  - by destruct (f64_man a + 2 ^ 52) as [|p|p] eqn:E; try lia.
Qed.
