(* ===== verification/Wire.v ===== *)
(** * Wire: the msgpack primitives of [crates/par6-proto/src/wire.rs]

    The writers return the bytes they append to the caller's buffer.  The
    reader is a state (the datagram and a position) threaded through a small
    error monad; a position never moves on a [peek].  Two predicates carry the
    proofs of every codec built on it: [reads m bs v] (the reader [m] consumes
    exactly the bytes [bs], wherever they stand, and returns [v]) and
    [yields m P] (whatever the datagram, [m] stays inside it and a value it
    returns satisfies [P]). *)
From S2P Require Import Prelude F64.

(** ** Errors ([DecodeError] of lib.rs) *)

(** The text of a [Validation] error: a literal, or a format string cut at its
    arguments.  Rendering an argument is left to the language. *)
Inductive Why :=
| WText (s : string)
| WFmtF64 (pre : string) (v : f64) (post : string)
| WFmtUsize (pre : string) (n : Z) (post : string)
| WFmtRange (pre : string) (min : Z) (mid : string) (max : Z) (post : string).

Inductive DecodeError :=
| Truncated
| TypeErr (expected : string) (found pos : Z)
| Arity (what : string) (expected got : Z)
| UnknownTag (tag : Z)
| InvalidEnum (what : string) (value : Z)
| Utf8
| Validation (what : string) (why : Why)
| TrailingBytes.

#[export] Instance Why_eq_dec : EqDecision Why.
Proof. solve_decision. Defined.
#[export] Instance DecodeError_eq_dec : EqDecision DecodeError.
Proof. solve_decision. Defined.

Definition MAX_SKIP_DEPTH : nat := 8.

(** ** Writers *)

Definition w_array (n : Z) : bytes :=
  if n <? 16 then [Z.lor 0x90 (wrap 8 n)]
  else if n <=? 0xFFFF then 0xDC :: be_bytes 2 n
  else 0xDD :: be_bytes 4 n.

Definition w_uint (v : Z) : bytes :=
  if v <? 0x80 then [wrap 8 v]
  else if v <=? 0xFF then [0xCC; wrap 8 v]
  else if v <=? 0xFFFF then 0xCD :: be_bytes 2 v
  else if v <=? 0xFFFFFFFF then 0xCE :: be_bytes 4 v
  else 0xCF :: be_bytes 8 v.

Definition w_int (v : Z) : bytes :=
  if v >=? 0 then w_uint v
  else if v >=? -32 then [wrap 8 v]
  else if v >=? -128 then [0xD0; wrap 8 v]
  else if v >=? -32768 then 0xD1 :: be_bytes 2 v
  else if v >=? -2147483648 then 0xD2 :: be_bytes 4 v
  else 0xD3 :: be_bytes 8 v.

Definition w_f64 (v : f64) : bytes := 0xCB :: be_bytes 8 v.

Definition blen (s : bytes) : Z := Z.of_nat (length s).

Definition w_str (s : bytes) : bytes :=
  let n := blen s in
  (if n <? 32 then [Z.lor 0xA0 (wrap 8 n)]
   else if n <=? 0xFF then [0xD9; wrap 8 n]
   else if n <=? 0xFFFF then 0xDA :: be_bytes 2 n
   else 0xDB :: be_bytes 4 n) ++ s.

Definition w_bin (b : bytes) : bytes :=
  let n := blen b in
  (if n <=? 0xFF then [0xC4; wrap 8 n]
   else if n <=? 0xFFFF then 0xC5 :: be_bytes 2 n
   else 0xC6 :: be_bytes 4 n) ++ b.

Definition w_bool (v : bool) : bytes := [if v then 0xC3 else 0xC2].
Definition w_nil : bytes := [0xC0].

(** ** UTF-8 ([std::str::from_utf8]) *)

Definition utf8_cont (b : Z) : bool := in_range 0x80 b 0xBF.

Fixpoint utf8_valid (l : bytes) : bool :=
  match l with
  | [] => true
  | b :: t =>
      if in_range 0 b 0x7F then utf8_valid t
      else match t with
      | [] => false
      | c1 :: t1 =>
          if in_range 0xC2 b 0xDF then utf8_cont c1 && utf8_valid t1
          else match t1 with
          | [] => false
          | c2 :: t2 =>
              if b =? 0xE0 then in_range 0xA0 c1 0xBF && utf8_cont c2 && utf8_valid t2
              else if in_range 0xE1 b 0xEC || in_range 0xEE b 0xEF then
                utf8_cont c1 && utf8_cont c2 && utf8_valid t2
              else if b =? 0xED then in_range 0x80 c1 0x9F && utf8_cont c2 && utf8_valid t2
              else match t2 with
              | [] => false
              | c3 :: t3 =>
                  (if b =? 0xF0 then in_range 0x90 c1 0xBF
                   else if in_range 0xF1 b 0xF3 then utf8_cont c1
                   else if b =? 0xF4 then in_range 0x80 c1 0x8F
                   else false)
                  && utf8_cont c2 && utf8_cont c3 && utf8_valid t3
              end
          end
      end
  end.

(** ** The reader *)

Record reader := Reader { rd_data : bytes; rd_pos : Z }.

Definition Rd (A : Type) : Type := reader -> result DecodeError (A * reader).

Definition rret {A} (a : A) : Rd A := fun r => Ok (a, r).
Definition rfail {A} (e : DecodeError) : Rd A := fun _ => Err e.
Definition rbnd {A B} (m : Rd A) (k : A -> Rd B) : Rd B :=
  fun r => match m r with Ok (a, r') => k a r' | Err e => Err e end.
(** Run a fallible pure computation inside the reader. *)
Definition rlift {A} (m : result DecodeError A) : Rd A :=
  fun r => match m with Ok a => Ok (a, r) | Err e => Err e end.

Notation "'let*' x := m 'in' k" := (rbnd m (fun x => k))
  (at level 10, x binder, m at level 100, k at level 200) : par6_scope.
Notation "m1 ;;* m2" := (rbnd m1 (fun _ => m2))
  (at level 100, right associativity) : par6_scope.

Definition reader_new (data : bytes) : reader := Reader data 0.

Definition rd_type_err {A} (expected : string) (found : Z) : Rd A :=
  fun r => Err (TypeErr expected found (saturating_sub (rd_pos r) 1)).

Definition rd_byte : Rd Z := fun r =>
  match rd_data r !! Z.to_nat (rd_pos r) with
  | Some b => Ok (b, Reader (rd_data r) (rd_pos r + 1))
  | None => Err Truncated
  end.

Definition rd_take (n : Z) : Rd bytes := fun r =>
  match checked_add_usize (rd_pos r) n with
  | None => Err Truncated
  | Some e =>
      if e <=? blen (rd_data r) then
        Ok (take (Z.to_nat n) (drop (Z.to_nat (rd_pos r)) (rd_data r)), Reader (rd_data r) e)
      else Err Truncated
  end.

Definition rd_be (n : Z) : Rd Z := let* b := rd_take n in rret (from_be b).
Definition rd_be_u16 : Rd Z := rd_be 2.
Definition rd_be_u32 : Rd Z := rd_be 4.
Definition rd_be_u64 : Rd Z := rd_be 8.

Definition rd_array_len : Rd Z :=
  let* m := rd_byte in
  if in_range 0x90 m 0x9F then rret (Z.land m 0x0F)
  else if m =? 0xDC then rd_be_u16
  else if m =? 0xDD then rd_be_u32
  else rd_type_err "array" m.

Definition rd_uint : Rd Z :=
  let* m := rd_byte in
  if in_range 0x00 m 0x7F then rret m
  else if m =? 0xCC then rd_byte
  else if m =? 0xCD then rd_be_u16
  else if m =? 0xCE then rd_be_u32
  else if m =? 0xCF then rd_be_u64
  else rd_type_err "unsigned int" m.

Definition rd_int : Rd Z :=
  let* m := rd_byte in
  if in_range 0x00 m 0x7F then rret m
  else if in_range 0xE0 m 0xFF then rret (swrap 8 m)
  else if m =? 0xCC then rd_byte
  else if m =? 0xCD then rd_be_u16
  else if m =? 0xCE then rd_be_u32
  else if m =? 0xCF then
    (let* v := rd_be_u64 in
     if v <=? 2 ^ 63 - 1 then rret v else rd_type_err "int (fits i64)" 0xCF)
  else if m =? 0xD0 then (let* b := rd_byte in rret (swrap 8 b))
  else if m =? 0xD1 then (let* v := rd_be_u16 in rret (swrap 16 v))
  else if m =? 0xD2 then (let* v := rd_be_u32 in rret (swrap 32 v))
  else if m =? 0xD3 then (let* v := rd_be_u64 in rret (swrap 64 v))
  else rd_type_err "int" m.

Definition rd_f64 : Rd f64 :=
  let* m := rd_byte in
  if negb (m =? 0xCB) then rd_type_err "float64" m else rd_be_u64.

Definition rd_str : Rd bytes :=
  let* m := rd_byte in
  let* n := (if in_range 0xA0 m 0xBF then rret (Z.land m 0x1F)
             else if m =? 0xD9 then rd_byte
             else if m =? 0xDA then rd_be_u16
             else if m =? 0xDB then rd_be_u32
             else rd_type_err "str" m) in
  let* s := rd_take n in
  if utf8_valid s then rret s else rfail Utf8.

Definition rd_bin : Rd bytes :=
  let* m := rd_byte in
  let* n := (if m =? 0xC4 then rd_byte
             else if m =? 0xC5 then rd_be_u16
             else if m =? 0xC6 then rd_be_u32
             else rd_type_err "bin" m) in
  rd_take n.

Definition rd_bool : Rd bool :=
  let* m := rd_byte in
  if m =? 0xC2 then rret false
  else if m =? 0xC3 then rret true
  else rd_type_err "bool" m.

Definition rd_peek_nil : Rd bool := fun r =>
  Ok (match rd_data r !! Z.to_nat (rd_pos r) with Some b => b =? 0xC0 | None => false end, r).

Definition rd_peek_marker : Rd Z := fun r =>
  match rd_data r !! Z.to_nat (rd_pos r) with
  | Some b => Ok (b, r)
  | None => Err Truncated
  end.

Definition rd_nil : Rd unit :=
  let* m := rd_byte in
  if negb (m =? 0xC0) then rd_type_err "nil" m else rret tt.

Definition rd_opt_f64 : Rd (option f64) :=
  let* b := rd_peek_nil in
  if b then (rd_nil ;;* rret None) else (let* v := rd_f64 in rret (Some v)).

Definition rd_finish : Rd unit := fun r =>
  if negb (rd_pos r =? blen (rd_data r)) then Err TrailingBytes else Ok (tt, r).

(** [for _ in 0..n { out.push(m?) }] *)
Fixpoint rd_rep {A} (n : nat) (m : Rd A) : Rd (list A) :=
  match n with
  | O => rret []
  | S n' => let* x := m in let* l := rd_rep n' m in rret (x :: l)
  end.

(** ** [reads]: a reader undoes a writer *)

(** A Rust slice is at most [isize::MAX] bytes long. *)
Definition slice_ok (data : bytes) : Prop := blen data < 2 ^ 63.

Definition reads {A} (m : Rd A) (bs : bytes) (v : A) : Prop :=
  forall pre rest, slice_ok (pre ++ bs ++ rest) ->
  m (Reader (pre ++ bs ++ rest) (blen pre)) =
  Ok (v, Reader (pre ++ bs ++ rest) (blen pre + blen bs)).

Lemma blen_app a b : blen (a ++ b) = blen a + blen b.
Proof. unfold blen. rewrite length_app. lia. Qed.
Lemma blen_cons b l : blen (b :: l) = 1 + blen l.
Proof. unfold blen. simpl. lia. Qed.
Lemma blen_nonneg l : 0 <= blen l.
Proof. unfold blen. lia. Qed.
Lemma blen_be n v : blen (be_bytes n v) = Z.of_nat n.
Proof. unfold blen. by rewrite length_be_bytes. Qed.

Lemma reads_ret {A} (v : A) : reads (rret v) [] v.
Proof. intros pre rest _. unfold rret, blen. simpl. by rewrite Z.add_0_r. Qed.

Lemma reads_bind {A B} (m : Rd A) (k : A -> Rd B) bs1 bs2 a b :
  reads m bs1 a -> reads (k a) bs2 b -> reads (rbnd m k) (bs1 ++ bs2) b.
Proof.
  intros Hm Hk pre rest Hok. unfold rbnd.
  rewrite <- app_assoc in *. rewrite Hm by done.
  specialize (Hk (pre ++ bs1) rest). rewrite <- app_assoc, blen_app in Hk.
  rewrite Hk by done. by rewrite blen_app, Z.add_assoc.
Qed.

(** The last step of a decoder: nothing is consumed after it. *)
Lemma reads_bind_last {A B} (m : Rd A) (k : A -> Rd B) bs a b :
  reads m bs a -> reads (k a) [] b -> reads (rbnd m k) bs b.
Proof. intros. rewrite <- (app_nil_r bs). eauto using reads_bind. Qed.

Lemma reads_byte b : reads rd_byte [b] b.
Proof.
  intros pre rest _. unfold rd_byte. cbn [rd_data rd_pos].
  unfold blen. rewrite Nat2Z.id.
  rewrite lookup_app_r, Nat.sub_diag by lia. done.
Qed.

Lemma reads_byte_bind {B} (k : Z -> Rd B) b bs v :
  reads (k b) bs v -> reads (rbnd rd_byte k) (b :: bs) v.
Proof. intros. change (b :: bs) with ([b] ++ bs). eauto using reads_bind, reads_byte. Qed.

Lemma reads_take n bs : n = blen bs -> reads (rd_take n) bs bs.
Proof.
  intros -> pre rest Hok. unfold rd_take, checked_add_usize, u64_max. cbn [rd_data rd_pos].
  unfold slice_ok in Hok. rewrite !blen_app in *. pose proof (blen_nonneg rest).
  zdecide. unfold blen. rewrite !Nat2Z.id.
  rewrite drop_app_length. by rewrite take_app_length.
Qed.

Lemma reads_be n v : is_uint (8 * Z.of_nat n) v = true ->
  reads (rd_be (Z.of_nat n)) (be_bytes n v) v.
Proof.
  intros Hv. unfold rd_be. eapply reads_bind_last; [apply reads_take; by rewrite blen_be|].
  rewrite from_be_be_bytes by done. apply reads_ret.
Qed.

Lemma reads_be16 v : 0 <= v < 2 ^ 16 -> reads rd_be_u16 (be_bytes 2 v) v.
Proof. intros. apply (reads_be 2). by apply is_uint_spec. Qed.
Lemma reads_be32 v : 0 <= v < 2 ^ 32 -> reads rd_be_u32 (be_bytes 4 v) v.
Proof. intros. apply (reads_be 4). by apply is_uint_spec. Qed.
Lemma reads_be64 v : 0 <= v < 2 ^ 64 -> reads rd_be_u64 (be_bytes 8 v) v.
Proof. intros. apply (reads_be 8). by apply is_uint_spec. Qed.

(** A peek consumes nothing and sees the first byte of what follows. *)
Lemma reads_peek_nil {B} (k : bool -> Rd B) b bs v :
  reads (k (b =? 0xC0)) (b :: bs) v -> reads (rbnd rd_peek_nil k) (b :: bs) v.
Proof.
  intros Hk pre rest Hok. unfold rbnd, rd_peek_nil. cbn [rd_data rd_pos].
  unfold blen at 1. rewrite Nat2Z.id, lookup_app_r, Nat.sub_diag by lia. by apply Hk.
Qed.

Lemma reads_peek_marker {B} (k : Z -> Rd B) b bs v :
  reads (k b) (b :: bs) v -> reads (rbnd rd_peek_marker k) (b :: bs) v.
Proof.
  intros Hk pre rest Hok. unfold rbnd, rd_peek_marker. cbn [rd_data rd_pos].
  unfold blen at 1. rewrite Nat2Z.id, lookup_app_r, Nat.sub_diag by lia. by apply Hk.
Qed.

(** Case analysis on a marker: after the byte is known the branch computes. *)
Ltac by_marker :=
  apply reads_byte_bind; unfold in_range;
  cbn [Z.leb Z.ltb Z.eqb Z.compare Pos.compare Pos.compare_cont Pos.eqb CompOpp andb negb].

Lemma reads_array_len n : is_uint 32 n = true -> reads rd_array_len (w_array n) n.
Proof.
  rewrite is_uint_spec. intros Hn. unfold w_array, rd_array_len.
  destruct (Z.ltb_spec n 16); [|destruct (Z.leb_spec n 0xFFFF)].
  - rewrite wrap_small by (apply is_uint_spec; lia).
    change (Z.lor 0x90 n) with (Z.lor (9 * 2 ^ 4) n). rewrite lor_marker by lia.
    apply reads_byte_bind. zdecide.
    change 0x0F with (Z.ones 4). rewrite Z.land_ones by lia.
    replace ((9 * 2 ^ 4 + n) mod 2 ^ 4) with n; [apply reads_ret|].
    rewrite Z.add_comm, Z_mod_plus_full, Z.mod_small; lia.
  - by_marker. apply reads_be16; lia.
  - by_marker. apply reads_be32; lia.
Qed.

Lemma reads_uint v : is_uint 64 v = true -> reads rd_uint (w_uint v) v.
Proof.
  rewrite is_uint_spec. intros Hv. unfold w_uint, rd_uint.
  repeat match goal with
    | |- context [if ?a <? ?b then _ else _] => destruct (Z.ltb_spec a b)
    | |- context [if ?a <=? ?b then _ else _] => destruct (Z.leb_spec a b)
    end; rewrite ?wrap_small by (apply is_uint_spec; lia).
  - apply reads_byte_bind. zdecide. apply reads_ret.
  - by_marker. apply reads_byte.
  - by_marker. apply reads_be16; lia.
  - by_marker. apply reads_be32; lia.
  - by_marker. apply reads_be64; lia.
Qed.

Lemma reads_f64 v : is_uint 64 v = true -> reads rd_f64 (w_f64 v) v.
Proof. rewrite is_uint_spec. intros. unfold w_f64, rd_f64. by_marker. by apply reads_be64. Qed.

Lemma reads_bool v : reads rd_bool (w_bool v) v.
Proof. unfold rd_bool, w_bool. destruct v; by_marker; apply reads_ret. Qed.

Lemma reads_nil : reads rd_nil w_nil tt.
Proof. unfold rd_nil, w_nil. by_marker. apply reads_ret. Qed.

Lemma reads_signed w v bs (m : Rd Z) : 1 <= w -> is_sint w v = true ->
  reads m bs (wrap w v) -> reads (let* u := m in rret (swrap w u)) bs v.
Proof.
  intros Hw Hv Hm. eapply reads_bind_last; [exact Hm|].
  rewrite swrap_wrap by done. apply reads_ret.
Qed.

(** [be_bytes] only sees the low bytes, so it may be fed the wrapped value. *)
Lemma be_bytes_wrap n w v : 8 * Z.of_nat n <= w -> be_bytes n (wrap w v) = be_bytes n v.
Proof.
  unfold wrap at 1. revert v. induction n as [|n IH]; intros v Hw; [done|].
  cbn [be_bytes]. f_equal; [|apply IH; lia].
  unfold wrap. rewrite !Z.shiftr_div_pow2 by lia.
  rewrite <- !Z.land_ones, <- !Z.shiftr_div_pow2 by lia.
  apply Z.bits_inj'. intros i Hi. rewrite !Z.land_spec, !Z.shiftr_spec, Z.land_spec by lia.
  rewrite !Z.testbit_ones_nonneg by lia.
  destruct (Z.ltb_spec i 8); [|by rewrite !andb_false_r].
  replace (i + 8 * Z.of_nat n <? w) with true by lia. by rewrite !andb_true_r.
Qed.

Lemma reads_int v : is_sint 64 v = true -> reads rd_int (w_int v) v.
Proof.
  rewrite is_sint_spec. intros Hv. unfold w_int, rd_int.
  repeat match goal with
    | |- context [if ?a >=? ?b then _ else _] =>
        rewrite (Z.geb_leb a b); destruct (Z.leb_spec b a)
    end.
  - unfold w_uint. repeat match goal with
    | |- context [if ?a <? ?b then _ else _] => destruct (Z.ltb_spec a b)
    | |- context [if ?a <=? 0xFF then _ else _] => destruct (Z.leb_spec a 0xFF)
    | |- context [if ?a <=? 0xFFFF then _ else _] => destruct (Z.leb_spec a 0xFFFF)
    | |- context [if ?a <=? 0xFFFFFFFF then _ else _] => destruct (Z.leb_spec a 0xFFFFFFFF)
    end; rewrite ?wrap_small by (apply is_uint_spec; lia).
    + apply reads_byte_bind. zdecide. apply reads_ret.
    + by_marker. apply reads_byte.
    + by_marker. apply reads_be16; lia.
    + by_marker. apply reads_be32; lia.
    + by_marker. eapply reads_bind_last; [apply reads_be64; lia|]. zdecide. apply reads_ret.
  - assert (wrap 8 v = v + 256) as E.
    { unfold wrap. rewrite Z.mod_eq by lia.
      replace (v / 2 ^ 8) with (-1); [lia|]. apply (Z.div_unique v _ _ (v + 256)); lia. }
    apply reads_byte_bind. rewrite E. zdecide. rewrite <- E.
    rewrite swrap_wrap by (rewrite ?is_sint_spec; lia). apply reads_ret.
  - by_marker. apply reads_signed; [lia|apply is_sint_spec; lia|]. apply reads_byte.
  - by_marker. apply reads_signed; [lia|apply is_sint_spec; lia|].
    rewrite <- (be_bytes_wrap 2 16) by lia. apply reads_be16. apply is_uint_spec, wrap_range. lia.
  - by_marker. apply reads_signed; [lia|apply is_sint_spec; lia|].
    rewrite <- (be_bytes_wrap 4 32) by lia. apply reads_be32. apply is_uint_spec, wrap_range. lia.
  - by_marker. apply reads_signed; [lia|apply is_sint_spec; lia|].
    rewrite <- (be_bytes_wrap 8 64) by lia. apply reads_be64. apply is_uint_spec, wrap_range. lia.
Qed.

(** A length prefix followed by that many bytes. *)
Lemma reads_str s : is_uint 32 (blen s) = true -> utf8_valid s = true ->
  reads rd_str (w_str s) s.
Proof.
  rewrite is_uint_spec. intros Hn Hs. unfold w_str, rd_str.
  assert (reads (let* s0 := rd_take (blen s) in if utf8_valid s0 then rret s0 else rfail Utf8) s s)
    as Htail.
  { eapply reads_bind_last; [by apply reads_take|]. rewrite Hs. apply reads_ret. }
  repeat match goal with
    | |- context [if blen s <? ?b then _ else _] => destruct (Z.ltb_spec (blen s) b)
    | |- context [if blen s <=? ?b then _ else _] => destruct (Z.leb_spec (blen s) b)
    end; rewrite ?wrap_small by (apply is_uint_spec; lia); cbn [app].
  - change (Z.lor 0xA0 (blen s)) with (Z.lor (5 * 2 ^ 5) (blen s)). rewrite lor_marker by lia.
    apply reads_byte_bind. zdecide.
    change 0x1F with (Z.ones 5). rewrite Z.land_ones by lia.
    replace ((5 * 2 ^ 5 + blen s) mod 2 ^ 5) with (blen s); [done|].
    rewrite Z.add_comm, Z_mod_plus_full, Z.mod_small; lia.
  - by_marker. change (blen s :: s) with ([blen s] ++ s).
    eapply reads_bind; [apply reads_byte|done].
  - by_marker. eapply reads_bind; [apply reads_be16; lia|done].
  - by_marker. eapply reads_bind; [apply reads_be32; lia|done].
Qed.

Lemma reads_bin b : is_uint 32 (blen b) = true -> reads rd_bin (w_bin b) b.
Proof.
  rewrite is_uint_spec. intros Hn. unfold w_bin, rd_bin.
  repeat match goal with
    | |- context [if blen b <=? ?c then _ else _] => destruct (Z.leb_spec (blen b) c)
    end; rewrite ?wrap_small by (apply is_uint_spec; lia); cbn [app]; by_marker.
  - change (blen b :: b) with ([blen b] ++ b).
    eapply reads_bind; [apply reads_byte|by apply reads_take].
  - eapply reads_bind; [apply reads_be16; lia|by apply reads_take].
  - eapply reads_bind; [apply reads_be32; lia|by apply reads_take].
Qed.

Definition w_opt_f64 (v : option f64) : bytes :=
  match v with Some v => w_f64 v | None => w_nil end.

Definition is_opt (p : Z -> bool) (v : option Z) : bool :=
  match v with Some v => p v | None => true end.

Lemma reads_opt_f64 v : is_opt (is_uint 64) v = true -> reads rd_opt_f64 (w_opt_f64 v) v.
Proof.
  intros Hv. unfold rd_opt_f64, w_opt_f64. destruct v as [v|]; apply reads_peek_nil.
  - cbn. eapply reads_bind_last; [by apply reads_f64|apply reads_ret].
  - cbn. eapply reads_bind_last; [apply reads_nil|apply reads_ret].
Qed.

(** A counted loop reads back a concatenation of encodings. *)
Lemma reads_rep {A} (m : Rd A) (w : A -> bytes) (l : list A) :
  Forall (fun x => reads m (w x) x) l -> reads (rd_rep (length l) m) (concat (map w l)) l.
Proof.
  induction 1 as [|x l Hx _ IH]; simpl; [apply reads_ret|].
  eapply reads_bind; [exact Hx|]. eapply reads_bind_last; [exact IH|apply reads_ret].
Qed.

Create HintDb reads discriminated.
#[export] Hint Resolve reads_ret reads_uint reads_int reads_f64 reads_bool reads_nil reads_str
  reads_bin reads_opt_f64 reads_array_len reads_byte : reads.

(** A whole datagram: the reader consumes it and [finish] accepts. *)
Lemma reads_run {A} (m : Rd A) bs v : slice_ok bs -> reads m bs v ->
  m (reader_new bs) = Ok (v, Reader bs (blen bs)).
Proof.
  intros Hok Hm. specialize (Hm [] []). rewrite app_nil_r in Hm. by apply Hm.
Qed.

(** Like [reads], for a reader that stands at the end of the datagram. *)
Definition reads_end {A} (m : Rd A) (bs : bytes) (v : A) : Prop :=
  forall pre, slice_ok (pre ++ bs) ->
  m (Reader (pre ++ bs) (blen pre)) = Ok (v, Reader (pre ++ bs) (blen pre + blen bs)).

Lemma reads_end_bind {A B} (m : Rd A) (k : A -> Rd B) bs1 bs2 a b :
  reads m bs1 a -> reads_end (k a) bs2 b -> reads_end (rbnd m k) (bs1 ++ bs2) b.
Proof.
  intros Hm Hk pre Hok. unfold rbnd. rewrite Hm by done.
  specialize (Hk (pre ++ bs1)). rewrite <- app_assoc, blen_app in Hk.
  rewrite Hk by done. by rewrite blen_app, Z.add_assoc.
Qed.

Lemma reads_end_last {A B} (m : Rd A) (k : A -> Rd B) bs a b :
  reads m bs a -> reads_end (k a) [] b -> reads_end (rbnd m k) bs b.
Proof. intros. rewrite <- (app_nil_r bs). eauto using reads_end_bind. Qed.

Lemma reads_end_finish {B} (k : unit -> Rd B) b :
  reads (k tt) [] b -> reads_end (rbnd rd_finish k) [] b.
Proof.
  intros Hk pre Hok. unfold rbnd, rd_finish. cbn [rd_data rd_pos].
  rewrite blen_app, Z.add_0_r, Z.eqb_refl. cbn [negb].
  specialize (Hk pre []). cbn [app] in Hk. rewrite Hk by done. by rewrite Z.add_0_r.
Qed.

Lemma reads_end_run {A} (m : Rd A) bs v : slice_ok bs -> reads_end m bs v ->
  m (reader_new bs) = Ok (v, Reader bs (blen bs)).
Proof. intros Hok Hm. by apply (Hm []). Qed.

Lemma rd_finish_end bs : rd_finish (Reader bs (blen bs)) = Ok (tt, Reader bs (blen bs)).
Proof. unfold rd_finish. simpl. by rewrite Z.eqb_refl. Qed.

(** ** [yields]: what a reader returns on any datagram *)

Definition rd_ok (r : reader) : Prop :=
  is_bytes (rd_data r) = true /\ 0 <= rd_pos r <= blen (rd_data r).

Definition yields {A} (m : Rd A) (P : A -> Prop) : Prop :=
  forall r, rd_ok r ->
  match m r with
  | Ok (a, r') => P a /\ rd_ok r' /\ rd_data r' = rd_data r /\ rd_pos r <= rd_pos r'
  | Err _ => True
  end.

Lemma yields_ret {A} (v : A) (P : A -> Prop) : P v -> yields (rret v) P.
Proof. intros Hv r Hr. simpl. repeat split; try done; apply Hr || lia. Qed.

Lemma yields_fail {A} e (P : A -> Prop) : yields (rfail e) P.
Proof. done. Qed.

Lemma yields_type_err {A} s z (P : A -> Prop) : yields (rd_type_err s z) P.
Proof. done. Qed.

Lemma yields_bind {A B} (m : Rd A) (k : A -> Rd B) P Q :
  yields m P -> (forall a, P a -> yields (k a) Q) -> yields (rbnd m k) Q.
Proof.
  intros Hm Hk r Hr. unfold rbnd. specialize (Hm r Hr). destruct (m r) as [[a r']|]; [|done].
  destruct Hm as (Ha & Hr' & Hd & Hp). specialize (Hk a Ha r' Hr').
  destruct (k a r') as [[b r'']|]; [|done].
  destruct Hk as (? & ? & ? & ?). repeat split; try done; try apply H0; [congruence|lia].
Qed.

Lemma yields_weaken {A} (m : Rd A) (P Q : A -> Prop) :
  yields m P -> (forall a, P a -> Q a) -> yields m Q.
Proof.
  intros Hm HPQ r Hr. specialize (Hm r Hr). destruct (m r) as [[a r']|]; [|done].
  destruct Hm as [Ha Hr']. auto.
Qed.

Lemma yields_lift {A} (m : result DecodeError A) (P : A -> Prop) :
  (forall a, m = Ok a -> P a) -> yields (rlift m) P.
Proof.
  intros Hm r Hr. unfold rlift. destruct m as [a|]; [|done].
  repeat split; try apply Hr; eauto; lia.
Qed.

Lemma yields_if {A} (b : bool) (m1 m2 : Rd A) P :
  (b = true -> yields m1 P) -> (b = false -> yields m2 P) -> yields (if b then m1 else m2) P.
Proof. destruct b; auto. Qed.

Lemma is_bytes_lookup l i b : is_bytes l = true -> l !! i = Some b -> is_uint 8 b = true.
Proof.
  intros Hl Hi. unfold is_bytes in Hl. rewrite forallb_forall in Hl. apply Hl.
  apply list_elem_of_In. eapply list_elem_of_lookup_2; eauto.
Qed.

Lemma yields_byte : yields rd_byte (fun b => is_uint 8 b = true).
Proof.
  intros r [Hb Hp]. unfold rd_byte. destruct (rd_data r !! _) as [b|] eqn:E; [|done].
  pose proof (lookup_lt_Some _ _ _ E). unfold rd_ok, blen in *. simpl.
  repeat split; try done; try lia. by eapply is_bytes_lookup.
Qed.

Lemma is_bytes_take_drop n m l : is_bytes l = true -> is_bytes (take n (drop m l)) = true.
Proof.
  intros Hl. rewrite <- (take_drop m l), is_bytes_app in Hl. bsplit.
  rewrite <- (take_drop n (drop m l)), is_bytes_app in H0. by bsplit.
Qed.

Lemma yields_take n : 0 <= n ->
  yields (rd_take n) (fun l => is_bytes l = true /\ blen l = n).
Proof.
  intros Hn r [Hb Hp]. unfold rd_take, checked_add_usize.
  destruct (Z.leb_spec (rd_pos r + n) u64_max); [|done].
  destruct (Z.leb_spec (rd_pos r + n) (blen (rd_data r))); [|done].
  unfold rd_ok, blen in *. simpl. repeat split; try done; try lia.
  - by apply is_bytes_take_drop.
  - rewrite length_take, length_drop. lia.
Qed.

Lemma yields_be n : yields (rd_be (Z.of_nat n)) (fun v => is_uint (8 * Z.of_nat n) v = true).
Proof.
  unfold rd_be. eapply yields_bind; [apply yields_take; lia|]. intros l [Hl Hn].
  apply yields_ret. apply from_be_range; [done|]. unfold blen in Hn. lia.
Qed.
Lemma yields_be16 : yields rd_be_u16 (fun v => is_uint 16 v = true).
Proof. apply (yields_be 2). Qed.
Lemma yields_be32 : yields rd_be_u32 (fun v => is_uint 32 v = true).
Proof. apply (yields_be 4). Qed.
Lemma yields_be64 : yields rd_be_u64 (fun v => is_uint 64 v = true).
Proof. apply (yields_be 8). Qed.

Create HintDb yields discriminated.
#[export] Hint Resolve yields_ret yields_fail yields_type_err yields_byte yields_be16 yields_be32
  yields_be64 : yields.

(** One step of a [yields] proof: a bind, a branch, or a leaf. *)
Ltac yields_step :=
  match goal with
  | |- yields (rbnd _ _) _ => eapply yields_bind; [solve [eauto with yields]|intros ? ?]
  | |- yields (if _ then _ else _) _ => apply yields_if; intros ?
  | |- yields (rret _) _ => apply yields_ret
  | |- yields (rfail _) _ => apply yields_fail
  | |- yields (rd_type_err _ _) _ => apply yields_type_err
  | |- yields _ _ => solve [eauto with yields] || (eapply yields_weaken; [solve [eauto with yields]|intros ? ?])
  end.

Lemma is_uint_weaken w1 w2 v : 0 <= w1 <= w2 -> is_uint w1 v = true -> is_uint w2 v = true.
Proof. rewrite !is_uint_spec. pose proof (Z.pow_le_mono_r 2 w1 w2). lia. Qed.

Lemma yields_array_len : yields rd_array_len (fun n => is_uint 32 n = true).
Proof.
  unfold rd_array_len. repeat yields_step.
  - change 0x0F with (Z.ones 4). rewrite Z.land_ones by lia.
    apply (is_uint_weaken 4); [lia|]. by apply wrap_range.
  - unfold_widths; lia.
Qed.

Lemma yields_uint : yields rd_uint (fun n => is_uint 64 n = true).
Proof.
  unfold rd_uint. repeat yields_step; unfold_widths; lia.
Qed.

Lemma swrap_range w v : 1 <= w -> is_sint w (swrap w v) = true.
Proof.
  intros Hw. rewrite is_sint_spec. unfold swrap.
  pose proof (wrap_range w v ltac:(lia)) as H. rewrite is_uint_spec in H.
  assert (E : 2 ^ w = 2 * 2 ^ (w - 1)).
  { rewrite <- Z.pow_succ_r by lia. f_equal. lia. }
  destruct (Z.ltb_spec (wrap w v) (2 ^ (w - 1))); lia.
Qed.

Lemma is_sint_weaken w1 w2 v : 1 <= w1 <= w2 -> is_sint w1 v = true -> is_sint w2 v = true.
Proof. rewrite !is_sint_spec. pose proof (Z.pow_le_mono_r 2 (w1 - 1) (w2 - 1)). lia. Qed.

Lemma yields_int : yields rd_int (fun n => is_sint 64 n = true).
Proof.
  unfold rd_int. repeat yields_step;
    first [ eapply is_sint_weaken; [|apply swrap_range; lia]; lia
          | unfold_widths; lia ].
Qed.

Lemma yields_f64 : yields rd_f64 (fun v => is_uint 64 v = true).
Proof. unfold rd_f64. repeat yields_step. Qed.

(** The byte strings [rd_str] returns are Rust [String]s. *)
Definition is_string (s : bytes) : bool :=
  is_bytes s && utf8_valid s && is_uint 32 (blen s).

Lemma yields_str : yields rd_str (fun s => is_string s = true).
Proof.
  unfold rd_str. yields_step.
  eapply (yields_bind _ _ (fun n => is_uint 32 n = true)).
  - repeat yields_step; try (unfold_widths; lia).
    change 0x1F with (Z.ones 5). rewrite Z.land_ones by lia.
    apply (is_uint_weaken 5); [lia|]. by apply wrap_range.
  - intros n Hn. eapply yields_bind; [apply yields_take; unfold_widths; lia|].
    intros s [Hs <-]. apply yields_if; intros Hu; [|apply yields_fail].
    apply yields_ret. unfold is_string. by rewrite Hs, Hu, Hn.
Qed.

Lemma yields_bin : yields rd_bin (fun s => is_bytes s && is_uint 32 (blen s) = true).
Proof.
  unfold rd_bin. yields_step.
  eapply (yields_bind _ _ (fun n => is_uint 32 n = true)).
  - repeat yields_step; unfold_widths; lia.
  - intros n Hn. eapply yields_weaken; [apply yields_take; unfold_widths; lia|].
    intros s [Hs <-]. by rewrite Hs, Hn.
Qed.

Lemma yields_bool : yields rd_bool (fun _ => True).
Proof. unfold rd_bool. repeat yields_step; done. Qed.

Lemma yields_nil : yields rd_nil (fun _ => True).
Proof. unfold rd_nil. repeat yields_step; done. Qed.

Lemma yields_peek_nil : yields rd_peek_nil (fun _ => True).
Proof. intros r Hr. simpl. repeat split; try apply Hr. lia. Qed.

Lemma yields_peek_marker : yields rd_peek_marker (fun b => is_uint 8 b = true).
Proof.
  intros r Hr. unfold rd_peek_marker. destruct (_ !! _) eqn:E; [|done].
  repeat split; try apply Hr; [|lia]. eapply is_bytes_lookup; [apply Hr|done].
Qed.

#[export] Hint Resolve yields_array_len yields_uint yields_int yields_f64 yields_str yields_bin
  yields_bool yields_nil yields_peek_nil yields_peek_marker : yields.

Lemma yields_opt_f64 : yields rd_opt_f64 (fun v => is_opt (is_uint 64) v = true).
Proof. unfold rd_opt_f64. repeat yields_step; done. Qed.

Lemma yields_rep {A} n (m : Rd A) P :
  yields m P -> yields (rd_rep n m) (fun l => Forall P l /\ length l = n).
Proof.
  intros Hm. induction n as [|n IH]; simpl.
  - by apply yields_ret.
  - eapply yields_bind; [done|]. intros x Hx. eapply yields_bind; [exact IH|].
    intros l [Hl Hn]. apply yields_ret. split; [by constructor|]. simpl. by rewrite Hn.
Qed.

Lemma yields_finish : yields rd_finish (fun _ => True).
Proof.
  intros r Hr. unfold rd_finish. destruct (negb _); [done|].
  repeat split; try apply Hr. lia.
Qed.
#[export] Hint Resolve yields_opt_f64 yields_finish : yields.

(** ** [skip_value]: walking a value the decoder does not know *)

(** The loop [for _ in 0..n { m? }].  [n] comes from a 32-bit header, so the
    loop is driven by fuel: the bytes of the datagram plus one.  Every
    successful iteration of the skipper consumes a byte, so the fuel is never
    what stops it ([rd_for_spec] below). *)
Fixpoint rd_loop (fuel : nat) (n : Z) (m : Rd unit) : Rd unit :=
  if n <=? 0 then rret tt
  else match fuel with
  | O => rfail Truncated
  | S fuel' => m ;;* rd_loop fuel' (n - 1) m
  end.

Definition rd_for (n : Z) (m : Rd unit) : Rd unit :=
  fun r => rd_loop (S (length (rd_data r))) n m r.

Definition rd_skip (n : Z) : Rd unit := let* _ := rd_take n in rret tt.

(** [skip_value_at(depth)]; [left] is the number of levels the depth bound
    still allows, [MAX_SKIP_DEPTH + 1 - depth]. *)
Fixpoint skip_value_left (left : nat) : Rd unit :=
  match left with
  | O => rfail (Validation "nesting depth" (WText "nested past 8 levels"))
  | S left' =>
      let* m := rd_byte in
      if in_range 0x00 m 0x7F || in_range 0xE0 m 0xFF || (m =? 0xC0) || (m =? 0xC2) || (m =? 0xC3)
      then rret tt
      else if in_range 0xA0 m 0xBF then rd_skip (Z.land m 0x1F)
      else if in_range 0x90 m 0x9F then rd_for (Z.land m 0x0F) (skip_value_left left')
      else if in_range 0x80 m 0x8F then rd_for (2 * Z.land m 0x0F) (skip_value_left left')
      else if (m =? 0xCC) || (m =? 0xD0) then rd_skip 1
      else if (m =? 0xCD) || (m =? 0xD1) then rd_skip 2
      else if (m =? 0xCE) || (m =? 0xD2) || (m =? 0xCA) then rd_skip 4
      else if (m =? 0xCF) || (m =? 0xD3) || (m =? 0xCB) then rd_skip 8
      else if (m =? 0xC4) || (m =? 0xD9) then (let* n := rd_byte in rd_skip n)
      else if (m =? 0xC5) || (m =? 0xDA) then (let* n := rd_be_u16 in rd_skip n)
      else if (m =? 0xC6) || (m =? 0xDB) then (let* n := rd_be_u32 in rd_skip n)
      else if m =? 0xDC then (let* n := rd_be_u16 in rd_for n (skip_value_left left'))
      else if m =? 0xDD then (let* n := rd_be_u32 in rd_for n (skip_value_left left'))
      else if m =? 0xDE then (let* n := rd_be_u16 in rd_for (2 * n) (skip_value_left left'))
      else if m =? 0xDF then
        (let* n := rd_be_u32 in rd_for n (skip_value_left left' ;;* skip_value_left left'))
      else if in_range 0xD4 m 0xD8 then rd_skip (Z.shiftl 1 (m - 0xD4) + 1)
      else if m =? 0xC7 then (let* n := rd_byte in rd_skip (n + 1))
      else if m =? 0xC8 then (let* n := rd_be_u16 in rd_skip (n + 1))
      else if m =? 0xC9 then (let* n := rd_be_u32 in rd_skip (n + 1))
      else rd_type_err "value" m
  end.

Definition skip_value_at (depth : nat) : Rd unit := skip_value_left (S MAX_SKIP_DEPTH - depth).
Definition skip_value : Rd unit := skip_value_at 0.
