(* ===== verification/Skip.v ===== *)
(** * Skip: the forward-compatible tail skipper of wire.rs

    Correctness of [Reader::skip_value]: its counted loops always terminate on
    the datagram (the fuel of the model is never what stops them), a value any
    of the protocol's writers produced is consumed exactly, and one nested
    deeper than [MAX_SKIP_DEPTH] is refused by the depth guard. *)
From S2P Require Import Prelude F64 Wire.

(** ** The loops consume, so they terminate *)

(** A reader that consumes at least one byte whenever it succeeds. *)
Definition advances (m : Rd unit) : Prop :=
  forall r, rd_ok r ->
  match m r with
  | Ok (_, r') => rd_ok r' /\ rd_data r' = rd_data r /\ rd_pos r < rd_pos r'
  | Err _ => True
  end.

(** The loop as the source writes it, by recursion on the count. *)
Fixpoint rd_times (n : nat) (m : Rd unit) : Rd unit :=
  match n with
  | O => rret tt
  | S n' => m ;;* rd_times n' m
  end.

Lemma rd_loop_spec m : advances m -> forall fuel n r,
  rd_ok r -> blen (rd_data r) - rd_pos r < Z.of_nat fuel ->
  rd_loop fuel n m r = rd_times (Z.to_nat n) m r.
Proof.
  intros Hm. induction fuel as [|fuel IH]; intros n r Hr Hf.
  { destruct Hr as [_ ?]. lia. }
  cbn [rd_loop]. destruct (Z.leb_spec n 0).
  { replace (Z.to_nat n) with O by lia. done. }
  replace (Z.to_nat n) with (S (Z.to_nat (n - 1))) by lia. cbn [rd_times]. unfold rbnd.
  specialize (Hm r Hr). destruct (m r) as [[u r']|]; [|done].
  destruct Hm as (Hr' & Hd & Hp). apply IH; [done|]. rewrite Hd. lia.
Qed.

Lemma rd_for_spec m n r : advances m -> rd_ok r ->
  rd_for n m r = rd_times (Z.to_nat n) m r.
Proof.
  intros Hm Hr. apply rd_loop_spec; [done..|]. destruct Hr as [_ ?]. unfold blen in *. lia.
Qed.

(** Not moving back is enough after a byte has been consumed. *)
Definition skips (m : Rd unit) : Prop := yields m (fun _ => True).

Lemma advances_byte k : (forall b, is_uint 8 b = true -> skips (k b)) -> advances (rbnd rd_byte k).
Proof.
  intros Hk r Hr. unfold rbnd. pose proof (yields_byte r Hr) as Hb. unfold rd_byte in *.
  destruct (rd_data r !! _) as [b|]; [|done].
  destruct Hb as (Hb & Hr' & Hd & _). specialize (Hk b Hb _ Hr').
  destruct (k b _) as [[u r'']|]; [|done]. destruct Hk as (_ & ? & Hd' & Hp). simpl in *.
  repeat split; try apply H; [congruence|lia].
Qed.

Lemma advances_skips m : advances m -> skips m.
Proof.
  intros Hm r Hr. specialize (Hm r Hr). destruct (m r) as [[u r']|]; [|done].
  destruct Hm as (? & ? & ?). repeat split; try apply H; [done|lia].
Qed.

Lemma skips_skip n : 0 <= n -> skips (rd_skip n).
Proof.
  intros Hn. unfold skips, rd_skip. eapply yields_bind; [by apply yields_take|].
  intros; by apply yields_ret.
Qed.

Lemma skips_loop fuel n m : skips m -> skips (rd_loop fuel n m).
Proof.
  intros Hm. revert n. induction fuel as [|fuel IH]; intros n; cbn [rd_loop].
  - by destruct (n <=? 0); [apply yields_ret|].
  - destruct (n <=? 0); [by apply yields_ret|].
    eapply yields_bind; [exact Hm|]. intros. apply IH.
Qed.

Lemma skips_for n m : skips m -> skips (rd_for n m).
Proof. intros Hm r Hr. by apply skips_loop. Qed.

Lemma skip_value_left_advances left : advances (skip_value_left left).
Proof.
  induction left as [|left IH]; [done|]. apply advances_skips in IH. cbn [skip_value_left].
  apply advances_byte. intros b Hb.
  repeat match goal with
    | |- skips (if ?c then _ else _) => apply yields_if; intros ?
    | |- yields (if ?c then _ else _) _ => apply yields_if; intros ?
    | |- yields (rbnd rd_byte _) _ => eapply yields_bind; [apply yields_byte|intros ? ?]
    | |- yields (rbnd rd_be_u16 _) _ => eapply yields_bind; [apply yields_be16|intros ? ?]
    | |- yields (rbnd rd_be_u32 _) _ => eapply yields_bind; [apply yields_be32|intros ? ?]
    | |- yields (rret _) _ => by apply yields_ret
    | |- yields (rd_type_err _ _) _ => done
    | |- yields (rd_for _ _) _ => apply skips_for
    | |- yields (rd_skip _) _ => apply skips_skip
    | |- skips (skip_value_left _) => exact IH
    | |- skips _ => eapply yields_bind; [exact IH|intros; exact IH]
    end; unfold_widths; try lia.
  - apply Z.land_nonneg. lia.
  - rewrite Z.shiftl_mul_pow2 by lia. pose proof (Z.pow_nonneg 2 (b - 0xD4)). lia.
Qed.

(** ** The values the protocol's writers produce *)

Inductive value :=
| VNil
| VBool (b : bool)
| VUint (v : Z)
| VInt (v : Z)
| VF64 (v : f64)
| VStr (s : bytes)
| VBin (s : bytes)
| VArray (l : list value).

Section ValueInd.
  Variable P : value -> Prop.
  Hypothesis (Hnil : P VNil) (Hbool : forall b, P (VBool b)) (Huint : forall v, P (VUint v))
    (Hint : forall v, P (VInt v)) (Hf64 : forall v, P (VF64 v)) (Hstr : forall s, P (VStr s))
    (Hbin : forall s, P (VBin s)) (Harr : forall l, Forall P l -> P (VArray l)).

Fixpoint value_nested_ind (v : value) : P v :=
  match v with
  | VNil => Hnil
  | VBool b => Hbool b
  | VUint v => Huint v
  | VInt v => Hint v
  | VF64 v => Hf64 v
  | VStr s => Hstr s
  | VBin s => Hbin s
  | VArray l => Harr l
      ((fix go l : Forall P l :=
          match l with
          | [] => @List.Forall_nil _ P
          | x :: l' => @List.Forall_cons _ P x l' (value_nested_ind x) (go l')
          end) l)
  end.
End ValueInd.

Fixpoint w_value (v : value) : bytes :=
  match v with
  | VNil => w_nil
  | VBool b => w_bool b
  | VUint v => w_uint v
  | VInt v => w_int v
  | VF64 v => w_f64 v
  | VStr s => w_str s
  | VBin s => w_bin s
  | VArray l => w_array (Z.of_nat (length l)) ++ concat (map w_value l)
  end.

(** Levels of nesting, 1 for a flat value. *)
Fixpoint levels (v : value) : nat :=
  match v with
  | VArray l => S (max_list (map levels l))
  | _ => 1
  end.

(** The ranges of the Rust types behind the writers. *)
Fixpoint wt_value (v : value) : bool :=
  match v with
  | VNil | VBool _ => true
  | VUint v | VF64 v => is_uint 64 v
  | VInt v => is_sint 64 v
  | VStr s => is_string s
  | VBin s => is_uint 32 (blen s)
  | VArray l => is_uint 32 (Z.of_nat (length l)) && forallb wt_value l
  end.

(** ** Skipping a value that was written *)

(** Each first byte of a writer selects its branch of the skipper. *)
Lemma reads_skip n bs : n = blen bs -> reads (rd_skip n) bs tt.
Proof. intros. eapply reads_bind_last; [by apply reads_take|apply reads_ret]. Qed.

Lemma reads_be_skip (rd : Rd Z) n hd bs :
  reads rd hd (n : Z) -> n = blen bs -> reads (let* k := rd in rd_skip k) (hd ++ bs) tt.
Proof. intros. eapply reads_bind; [done|by apply reads_skip]. Qed.

Ltac skip_marker :=
  apply reads_byte_bind; unfold in_range;
  cbn [Z.leb Z.ltb Z.eqb Z.compare Pos.compare Pos.compare_cont Pos.eqb CompOpp andb orb negb].

Lemma skip_uint left v : is_uint 64 v = true -> reads (skip_value_left (S left)) (w_uint v) tt.
Proof.
  intros Hv. apply is_uint_spec in Hv. unfold w_uint. cbn [skip_value_left].
  repeat match goal with
    | |- context [if v <? ?b then _ else _] => destruct (Z.ltb_spec v b)
    | |- context [if v <=? ?b then _ else _] => destruct (Z.leb_spec v b)
    end; rewrite ?wrap_small by (apply is_uint_spec; lia).
  - apply reads_byte_bind. zdecide. apply reads_ret.
  - skip_marker. by apply reads_skip.
  - skip_marker. apply reads_skip. by rewrite blen_be.
  - skip_marker. apply reads_skip. by rewrite blen_be.
  - skip_marker. apply reads_skip. by rewrite blen_be.
Qed.

Lemma skip_int left v : is_sint 64 v = true -> reads (skip_value_left (S left)) (w_int v) tt.
Proof.
  intros Hv. pose proof Hv as Hv'. apply is_sint_spec in Hv. unfold w_int.
  repeat match goal with
    | |- context [if ?a >=? ?b then _ else _] =>
        rewrite (Z.geb_leb a b); destruct (Z.leb_spec b a)
    end.
  - apply skip_uint, is_uint_spec. lia.
  - assert (224 <= wrap 8 v <= 255).
    { unfold wrap. rewrite Z.mod_eq by lia.
      replace (v / 2 ^ 8) with (-1); [lia|]. apply (Z.div_unique v _ _ (v + 256)); lia. }
    cbn [skip_value_left]. apply reads_byte_bind. zdecide. apply reads_ret.
  - cbn [skip_value_left]. skip_marker. by apply reads_skip.
  - cbn [skip_value_left]. skip_marker. apply reads_skip. by rewrite blen_be.
  - cbn [skip_value_left]. skip_marker. apply reads_skip. by rewrite blen_be.
  - cbn [skip_value_left]. skip_marker. apply reads_skip. by rewrite blen_be.
Qed.

Lemma skip_str left s : is_uint 32 (blen s) = true ->
  reads (skip_value_left (S left)) (w_str s) tt.
Proof.
  rewrite is_uint_spec. intros Hn. unfold w_str. cbn [skip_value_left].
  repeat match goal with
    | |- context [if blen s <? ?b then _ else _] => destruct (Z.ltb_spec (blen s) b)
    | |- context [if blen s <=? ?b then _ else _] => destruct (Z.leb_spec (blen s) b)
    end; rewrite ?wrap_small by (apply is_uint_spec; lia); cbn [app].
  - change (Z.lor 0xA0 (blen s)) with (Z.lor (5 * 2 ^ 5) (blen s)). rewrite lor_marker by lia.
    apply reads_byte_bind. zdecide. apply reads_skip.
    change 0x1F with (Z.ones 5). rewrite Z.land_ones by lia.
    rewrite Z.add_comm, Z_mod_plus_full, Z.mod_small; lia.
  - skip_marker. apply (reads_be_skip _ (blen s) [blen s]); [apply reads_byte|done].
  - skip_marker. eapply reads_be_skip; [apply reads_be16; lia|done].
  - skip_marker. eapply reads_be_skip; [apply reads_be32; lia|done].
Qed.

Lemma skip_bin left s : is_uint 32 (blen s) = true ->
  reads (skip_value_left (S left)) (w_bin s) tt.
Proof.
  rewrite is_uint_spec. intros Hn. unfold w_bin. cbn [skip_value_left].
  repeat match goal with
    | |- context [if blen s <=? ?b then _ else _] => destruct (Z.leb_spec (blen s) b)
    end; rewrite ?wrap_small by (apply is_uint_spec; lia); cbn [app]; skip_marker.
  - apply (reads_be_skip _ (blen s) [blen s]); [apply reads_byte|done].
  - eapply reads_be_skip; [apply reads_be16; lia|done].
  - eapply reads_be_skip; [apply reads_be32; lia|done].
Qed.

(** The array header selects a counted loop over the elements. *)
Lemma skip_array_header left n bs :
  is_uint 32 n = true ->
  reads (rd_for n (skip_value_left left)) bs tt ->
  reads (skip_value_left (S left)) (w_array n ++ bs) tt.
Proof.
  rewrite is_uint_spec. intros Hn Hk. unfold w_array. cbn [skip_value_left].
  destruct (Z.ltb_spec n 16); [|destruct (Z.leb_spec n 0xFFFF)]; cbn [app].
  - rewrite wrap_small by (apply is_uint_spec; lia).
    change (Z.lor 0x90 n) with (Z.lor (9 * 2 ^ 4) n). rewrite lor_marker by lia.
    apply reads_byte_bind. zdecide. change 0x0F with (Z.ones 4). rewrite Z.land_ones by lia.
    replace ((9 * 2 ^ 4 + n) mod 2 ^ 4) with n; [done|].
    rewrite Z.add_comm, Z_mod_plus_full, Z.mod_small; lia.
  - skip_marker. eapply reads_bind; [apply reads_be16; lia|done].
  - skip_marker. eapply reads_bind; [apply reads_be32; lia|done].
Qed.

Lemma reads_loop m fuel (bss : list bytes) :
  (length bss <= fuel)%nat -> Forall (fun bs => reads m bs tt) bss ->
  reads (rd_loop fuel (Z.of_nat (length bss)) m) (concat bss) tt.
Proof.
  intros Hf Hall. revert fuel Hf. induction Hall as [|bs bss Hbs _ IH]; intros fuel Hf.
  - destruct fuel; apply reads_ret.
  - cbn [length] in *. destruct fuel as [|fuel]; [lia|]. cbn [rd_loop concat].
    destruct (Z.leb_spec (Z.of_nat (S (length bss))) 0); [lia|].
    eapply reads_bind; [exact Hbs|].
    replace (Z.of_nat (S (length bss)) - 1) with (Z.of_nat (length bss)) by lia.
    apply IH. lia.
Qed.

Lemma length_concat_ge (bss : list bytes) :
  Forall (fun bs => (1 <= length bs)%nat) bss -> (length bss <= length (concat bss))%nat.
Proof.
  induction 1 as [|bs bss Hbs _ IH]; simpl; [lia|]. rewrite length_app. lia.
Qed.

Lemma reads_for m (bss : list bytes) :
  Forall (fun bs => (1 <= length bs)%nat) bss -> Forall (fun bs => reads m bs tt) bss ->
  reads (rd_for (Z.of_nat (length bss)) m) (concat bss) tt.
Proof.
  intros Hne Hall pre rest Hok. unfold rd_for. apply reads_loop; [|done|done].
  simpl. apply length_concat_ge in Hne. rewrite !length_app. lia.
Qed.

Lemma w_value_nonempty v : (1 <= length (w_value v))%nat.
Proof.
  destruct v; simpl; unfold w_nil, w_bool, w_uint, w_int, w_f64, w_str, w_bin, w_array, w_uint;
    repeat case_match; simpl; lia.
Qed.

Lemma levels_le l left : (max_list (map levels l) <= left)%nat <->
  Forall (fun v => (levels v <= left)%nat) l.
Proof.
  induction l as [|v l IH]; simpl; [split; auto; lia|].
  rewrite Forall_cons, <- IH. lia.
Qed.

(** [C] consumption: a value within the depth bound is skipped exactly. *)
Lemma skip_value_left_reads v : wt_value v = true -> forall left,
  (levels v <= left)%nat -> reads (skip_value_left left) (w_value v) tt.
Proof.
  induction v as [| | | | | | |l IH] using value_nested_ind; intros Hwt left Hl;
    (destruct left as [|left]; [simpl in Hl; lia|]); simpl in Hwt; cbn [w_value].
  - cbn [skip_value_left]. unfold w_nil. skip_marker. apply reads_ret.
  - cbn [skip_value_left]. unfold w_bool. destruct b; skip_marker; apply reads_ret.
  - by apply skip_uint.
  - by apply skip_int.
  - cbn [skip_value_left]. unfold w_f64. skip_marker. apply reads_skip. by rewrite blen_be.
  - apply skip_str. unfold is_string in Hwt. by bsplit.
  - by apply skip_bin.
  - bsplit. apply skip_array_header; [done|].
    rewrite <- (length_map w_value l). apply reads_for.
    + apply List.Forall_map, List.Forall_forall. intros. apply w_value_nonempty.
    + simpl in Hl. assert (max_list (map levels l) <= left)%nat as Hll by lia.
      apply levels_le in Hll. apply List.Forall_map.
      rewrite forallb_forall in H0. rewrite List.Forall_forall in *. eauto.
Qed.

(** ** The depth guard *)

Definition depth_error : DecodeError :=
  Validation "nesting depth" (WText "nested past 8 levels").

(** [m] fails with [e] on a datagram that has [bs] at its position. *)
Definition refuses {A} (m : Rd A) (bs : bytes) (e : DecodeError) : Prop :=
  forall pre rest, slice_ok (pre ++ bs ++ rest) ->
  m (Reader (pre ++ bs ++ rest) (blen pre)) = Err e.

Lemma refuses_bind_l {A B} (m : Rd A) (k : A -> Rd B) bs1 bs2 e :
  refuses m bs1 e -> refuses (rbnd m k) (bs1 ++ bs2) e.
Proof.
  intros Hm pre rest Hok. unfold rbnd. rewrite <- app_assoc in *. by rewrite Hm.
Qed.

Lemma refuses_bind_r {A B} (m : Rd A) (k : A -> Rd B) bs1 bs2 a e :
  reads m bs1 a -> refuses (k a) bs2 e -> refuses (rbnd m k) (bs1 ++ bs2) e.
Proof.
  intros Hm Hk pre rest Hok. unfold rbnd. rewrite <- app_assoc in *. rewrite Hm by done.
  specialize (Hk (pre ++ bs1) rest). rewrite <- app_assoc, blen_app in Hk. by apply Hk.
Qed.

(** An element that is refused stops the loop, whatever follows it. *)
Lemma refuses_loop m e fuel (bss : list bytes) :
  (length bss <= fuel)%nat ->
  Forall (fun bs => reads m bs tt \/ refuses m bs e) bss ->
  Exists (fun bs => refuses m bs e) bss ->
  refuses (rd_loop fuel (Z.of_nat (length bss)) m) (concat bss) e.
Proof.
  intros Hf Hall Hex. revert fuel Hf.
  induction Hex as [bs bss Hbs|bs bss Hex IH]; intros fuel Hf; cbn [length] in *;
    (destruct fuel as [|fuel]; [lia|]); cbn [rd_loop concat];
    (destruct (Z.leb_spec (Z.of_nat (S (length bss))) 0); [lia|]).
  - by apply refuses_bind_l.
  - apply List.Forall_cons_iff in Hall as [[Hbs|Hbs] Hall]; [|by apply refuses_bind_l].
    eapply refuses_bind_r; [exact Hbs|].
    replace (Z.of_nat (S (length bss)) - 1) with (Z.of_nat (length bss)) by lia.
    apply IH; [done|lia].
Qed.

Lemma refuses_for m e (bss : list bytes) :
  Forall (fun bs => (1 <= length bs)%nat) bss ->
  Forall (fun bs => reads m bs tt \/ refuses m bs e) bss ->
  Exists (fun bs => refuses m bs e) bss ->
  refuses (rd_for (Z.of_nat (length bss)) m) (concat bss) e.
Proof.
  intros Hne Hall Hex pre rest Hok. unfold rd_for. apply refuses_loop; [|done..].
  simpl. apply length_concat_ge in Hne. rewrite !length_app. lia.
Qed.

Lemma refuses_byte_bind {B} (k : Z -> Rd B) b bs e :
  refuses (k b) bs e -> refuses (rbnd rd_byte k) (b :: bs) e.
Proof.
  intros. change (b :: bs) with ([b] ++ bs). eapply refuses_bind_r; [apply reads_byte|done].
Qed.

Lemma refuse_array_header left n bs e :
  is_uint 32 n = true -> refuses (rd_for n (skip_value_left left)) bs e ->
  refuses (skip_value_left (S left)) (w_array n ++ bs) e.
Proof.
  rewrite is_uint_spec. intros Hn Hk. unfold w_array. cbn [skip_value_left].
  destruct (Z.ltb_spec n 16); [|destruct (Z.leb_spec n 0xFFFF)]; cbn [app];
    apply refuses_byte_bind.
  - rewrite wrap_small by (apply is_uint_spec; lia).
    change (Z.lor 0x90 n) with (Z.lor (9 * 2 ^ 4) n). rewrite lor_marker by lia.
    zdecide. change 0x0F with (Z.ones 4). rewrite Z.land_ones by lia.
    replace ((9 * 2 ^ 4 + n) mod 2 ^ 4) with n; [done|].
    rewrite Z.add_comm, Z_mod_plus_full, Z.mod_small; lia.
  - zdecide. eapply refuses_bind_r; [apply reads_be16; lia|done].
  - zdecide. eapply refuses_bind_r; [apply reads_be32; lia|done].
Qed.

Lemma levels_gt l left : (left < max_list (map levels l))%nat ->
  Exists (fun v => (left < levels v)%nat) l.
Proof.
  induction l as [|v l IH]; simpl; intros Hl; [lia|].
  destruct (decide (left < levels v)%nat); [by apply Exists_cons_hd|].
  apply Exists_cons_tl, IH. lia.
Qed.

Lemma skip_value_left_refuses v : wt_value v = true -> forall left,
  (left < levels v)%nat -> refuses (skip_value_left left) (w_value v) depth_error.
Proof.
  induction v as [| | | | | | |l IH] using value_nested_ind; intros Hwt left Hl;
    (destruct left as [|left]; [by intros pre rest _|]); simpl in Hl; try lia.
  simpl in Hwt. bsplit. cbn [w_value]. apply refuse_array_header; [done|].
  rewrite forallb_forall in H0. rewrite List.Forall_forall in IH.
  rewrite <- (length_map w_value l). apply refuses_for.
  - apply List.Forall_map, List.Forall_forall. intros. apply w_value_nonempty.
  - apply List.Forall_map, List.Forall_forall. intros x Hx.
    destruct (decide (levels x <= left)%nat).
    + left. apply skip_value_left_reads; auto.
    + right. apply IH; auto. lia.
  - apply List.Exists_exists. assert (left < max_list (map levels l))%nat as Hlt by lia.
    apply levels_gt, List.Exists_exists in Hlt as (x & Hx & Hlx).
    exists (w_value x). split; [by apply in_map|]. apply IH; auto.
Qed.

(** ** What the skipper promises *)

(** [skip_value], met with any value the protocol's writers can produce
    (standing anywhere in a datagram), consumes exactly that value when it
    nests at most 9 levels ([MAX_SKIP_DEPTH] + 1), and otherwise refuses it with
    the nesting-depth validation error. *)
Lemma skip_value_spec (v : value) (pre rest : bytes) :
  wt_value v = true -> slice_ok (pre ++ w_value v ++ rest) ->
  skip_value (Reader (pre ++ w_value v ++ rest) (blen pre)) =
  if (levels v <=? S MAX_SKIP_DEPTH)%nat
  then Ok (tt, Reader (pre ++ w_value v ++ rest) (blen pre + blen (w_value v)))
  else Err depth_error.
Proof.
  intros Hwt Hok. unfold skip_value, skip_value_at. rewrite Nat.sub_0_r.
  destruct (Nat.leb_spec (levels v) (S MAX_SKIP_DEPTH)).
  - by apply skip_value_left_reads.
  - by apply skip_value_left_refuses.
Qed.

Definition skip_witness_value : value := VArray [VUint 7; VArray [VStr [104; 105]]; VNil].

Lemma skip_value_spec_witness :
  skip_value (Reader ([1; 2] ++ w_value skip_witness_value ++ [192]) 2) =
  Ok (tt, Reader ([1; 2] ++ w_value skip_witness_value ++ [192]) 9).
Proof.
  exact (skip_value_spec skip_witness_value [1; 2] [192] eq_refl eq_refl).
Defined.

(** The counted loops of the skipper terminate on every datagram: run by
    fuel (the datagram's length plus one) they compute exactly what the
    source's [for _ in 0..n] computes, whatever count the header claims. *)
Lemma skip_loops_terminate (left : nat) (n : Z) (r : reader) :
  rd_ok r ->
  rd_for n (skip_value_left left) r = rd_times (Z.to_nat n) (skip_value_left left) r.
Proof. apply rd_for_spec, skip_value_left_advances. Qed.

Lemma skip_loops_terminate_witness :
  rd_for 3 (skip_value_left 2) (Reader [1; 192; 195; 7] 0) =
  rd_times 3 (skip_value_left 2) (Reader [1; 192; 195; 7] 0).
Proof.
  apply (skip_loops_terminate 2 3 (Reader [1; 192; 195; 7] 0)).
  split; [reflexivity|]. unfold blen. simpl. lia.
Defined.
