(* ===== verification/Enums.v ===== *)
(** * Enums: the wire enums of [crates/par6-proto/src/enums.rs]

    Each [wire_enum!] block gives an inductive type, the wire value of every
    variant ([x as u16]) and [ALL] in declaration order.  The class [WireEnum]
    is the reflection the macro generates; [WireEnumLaws] is what the codecs
    rely on, and every enum has an instance.  [command_class] is the ack
    taxonomy. *)
From S2P Require Import Prelude F64 Wire.

(** ** The macro ([wire_enum!], macros.rs) *)

Class WireEnum (A : Type) := {
  wire : A -> Z;
  ALL : list A;
}.

(** [from_wire]: the variants are tried in declaration order. *)
Definition from_wire {A} `{WireEnum A} (v : Z) : option A :=
  find (fun x => v =? wire x) ALL.

(** What makes the reflection usable: [ALL] is complete, and wire values are
    distinct, non-negative and fit 16 bits. *)
Class WireEnumLaws (A : Type) `{WireEnum A} := {
  ALL_complete : forall x : A, In x ALL;
  wire_inj : forall x y : A, wire x = wire y -> x = y;
  wire_range : forall x : A, is_uint 16 (wire x) = true;
}.

Lemma from_wire_wire {A} `{WireEnumLaws A} (x : A) : from_wire (wire x) = Some x.
Proof.
  unfold from_wire. destruct (find _ _) as [y|] eqn:E.
  - apply find_some in E as [_ E]. apply Z.eqb_eq in E. f_equal. by apply wire_inj.
  - apply find_none with (x := x) in E; [|apply ALL_complete]. by rewrite Z.eqb_refl in E.
Qed.

Lemma from_wire_some {A} `{WireEnumLaws A} v (x : A) : from_wire v = Some x <-> wire x = v.
Proof.
  split.
  - unfold from_wire. intros E. apply find_some in E as [_ E]. lia.
  - intros <-. apply from_wire_wire.
Qed.

(** Reading an enum: [u] wire values pass through [v as i64]. *)
Definition rd_enum {A} `{WireEnum A} (what : string) : Rd A :=
  let* v := rd_uint in
  match from_wire (swrap 64 v) with
  | Some x => rret x
  | None => rfail (InvalidEnum what (swrap 64 v))
  end.

Lemma reads_enum {A} `{WireEnumLaws A} what (x : A) : reads (rd_enum what) (w_uint (wire x)) x.
Proof.
  pose proof (wire_range x) as Hx. apply (is_uint_weaken 16 64) in Hx as Hx64; [|lia].
  unfold rd_enum. eapply reads_bind_last; [by apply reads_uint|].
  replace (swrap 64 (wire x)) with (wire x).
  - rewrite from_wire_wire. apply reads_ret.
  - rewrite <- (swrap_wrap 64 (wire x)) at 1; [|lia|apply is_sint_spec; apply is_uint_spec in Hx; lia].
    by rewrite wrap_small.
Qed.
#[export] Hint Resolve reads_enum : reads.

Lemma yields_enum {A} `{WireEnum A} what : yields (rd_enum what : Rd A) (fun _ => True).
Proof.
  unfold rd_enum. yields_step. destruct (from_wire _); [by apply yields_ret|done].
Qed.
#[export] Hint Resolve yields_enum : yields.

(** ** The enums *)

Inductive MsgType :=
| MT_Ok
| MT_Error
| MT_Status
| MT_Response
| MT_Complete
| MT_Chunk.

Definition MsgType_wire (x : MsgType) : Z :=
  match x with
  | MT_Ok => 1
  | MT_Error => 2
  | MT_Status => 3
  | MT_Response => 4
  | MT_Complete => 5
  | MT_Chunk => 6
  end.

Definition MsgType_ALL : list MsgType :=
  [MT_Ok; MT_Error; MT_Status; MT_Response; MT_Complete; MT_Chunk].

Inductive ControllerMode :=
| CM_Booting
| CM_Idle
| CM_ActiveError
| CM_Homing
| CM_Jog
| CM_Stream
| CM_Exec
| CM_HandGuiding
| CM_Impedance
| CM_SafetyStop
| CM_Flashing.

Definition ControllerMode_wire (x : ControllerMode) : Z :=
  match x with
  | CM_Booting => 0
  | CM_Idle => 1
  | CM_ActiveError => 2
  | CM_Homing => 3
  | CM_Jog => 4
  | CM_Stream => 5
  | CM_Exec => 6
  | CM_HandGuiding => 7
  | CM_Impedance => 8
  | CM_SafetyStop => 9
  | CM_Flashing => 10
  end.

Definition ControllerMode_ALL : list ControllerMode :=
  [CM_Booting; CM_Idle; CM_ActiveError; CM_Homing; CM_Jog; CM_Stream; CM_Exec;
   CM_HandGuiding; CM_Impedance; CM_SafetyStop; CM_Flashing].

Inductive CmdType :=
| T_Reset
| T_Estop
| T_Stop
| T_WriteIo
| T_Simulator
| T_SelectProfile
| T_ResetState
| T_ConnectHardware
| T_SetTcpOffset
| T_SetShapes
| T_SetCompletionPolicy
| T_SetGravityComp
| T_Pause
| T_SetPayload
| T_EnterFlashing
| T_ExitFlashing
| T_SetPidGains
| T_SetCanId
| T_SaveConfig
| T_SetStatusRate
| T_SetExecutionSpeed
| T_SetToolId
| T_Ping
| T_Status
| T_Angles
| T_Pose
| T_Io
| T_Speeds
| T_Tools
| T_Queue
| T_Activity
| T_LoopStats
| T_Profile
| T_Reachable
| T_Error
| T_TcpSpeed
| T_TcpOffset
| T_ToolStatus
| T_IsSimulator
| T_Shapes
| T_ConfigInfo
| T_Payload
| T_ConfigBundle
| T_BusScan
| T_StatusRate
| T_ExecutionSpeed
| T_ServoJ
| T_ServoJPose
| T_ServoL
| T_JogJ
| T_JogL
| T_Teleport
| T_ResetLoopStats
| T_Home
| T_MoveJ
| T_MoveJPose
| T_MoveL
| T_MoveC
| T_MoveS
| T_MoveP
| T_SelectTool
| T_Delay
| T_Checkpoint
| T_ToolAction
| T_SetTcpTransform
| T_TcpTransform
| T_CommandCompletion.

Definition CmdType_wire (x : CmdType) : Z :=
  match x with
  | T_Reset => 10
  | T_Estop => 11
  | T_Stop => 12
  | T_WriteIo => 13
  | T_Simulator => 14
  | T_SelectProfile => 15
  | T_ResetState => 16
  | T_ConnectHardware => 17
  | T_SetTcpOffset => 18
  | T_SetShapes => 19
  | T_SetCompletionPolicy => 20
  | T_SetGravityComp => 23
  | T_Pause => 24
  | T_SetPayload => 25
  | T_EnterFlashing => 26
  | T_ExitFlashing => 27
  | T_SetPidGains => 28
  | T_SetCanId => 29
  | T_SaveConfig => 30
  | T_SetStatusRate => 31
  | T_SetExecutionSpeed => 32
  | T_SetToolId => 33
  | T_Ping => 40
  | T_Status => 41
  | T_Angles => 42
  | T_Pose => 43
  | T_Io => 44
  | T_Speeds => 45
  | T_Tools => 46
  | T_Queue => 47
  | T_Activity => 48
  | T_LoopStats => 49
  | T_Profile => 50
  | T_Reachable => 51
  | T_Error => 52
  | T_TcpSpeed => 53
  | T_TcpOffset => 54
  | T_ToolStatus => 55
  | T_IsSimulator => 56
  | T_Shapes => 57
  | T_ConfigInfo => 58
  | T_Payload => 59
  | T_ConfigBundle => 60
  | T_BusScan => 61
  | T_StatusRate => 62
  | T_ExecutionSpeed => 63
  | T_ServoJ => 80
  | T_ServoJPose => 81
  | T_ServoL => 82
  | T_JogJ => 83
  | T_JogL => 84
  | T_Teleport => 85
  | T_ResetLoopStats => 86
  | T_Home => 100
  | T_MoveJ => 101
  | T_MoveJPose => 102
  | T_MoveL => 103
  | T_MoveC => 104
  | T_MoveS => 105
  | T_MoveP => 106
  | T_SelectTool => 107
  | T_Delay => 108
  | T_Checkpoint => 109
  | T_ToolAction => 110
  | T_SetTcpTransform => 111
  | T_TcpTransform => 112
  | T_CommandCompletion => 113
  end.

Definition CmdType_ALL : list CmdType :=
  [T_Reset; T_Estop; T_Stop; T_WriteIo; T_Simulator; T_SelectProfile; T_ResetState;
   T_ConnectHardware; T_SetTcpOffset; T_SetShapes; T_SetCompletionPolicy;
   T_SetGravityComp; T_Pause; T_SetPayload; T_EnterFlashing; T_ExitFlashing;
   T_SetPidGains; T_SetCanId; T_SaveConfig; T_SetStatusRate; T_SetExecutionSpeed;
   T_SetToolId; T_Ping; T_Status; T_Angles; T_Pose; T_Io; T_Speeds; T_Tools; T_Queue;
   T_Activity; T_LoopStats; T_Profile; T_Reachable; T_Error; T_TcpSpeed; T_TcpOffset;
   T_ToolStatus; T_IsSimulator; T_Shapes; T_ConfigInfo; T_Payload; T_ConfigBundle;
   T_BusScan; T_StatusRate; T_ExecutionSpeed; T_ServoJ; T_ServoJPose; T_ServoL; T_JogJ;
   T_JogL; T_Teleport; T_ResetLoopStats; T_Home; T_MoveJ; T_MoveJPose; T_MoveL; T_MoveC;
   T_MoveS; T_MoveP; T_SelectTool; T_Delay; T_Checkpoint; T_ToolAction;
   T_SetTcpTransform; T_TcpTransform; T_CommandCompletion].

Inductive QueryType :=
| QT_Ping
| QT_Status
| QT_Angles
| QT_Pose
| QT_Io
| QT_Speeds
| QT_Tools
| QT_Queue
| QT_Activity
| QT_LoopStats
| QT_Profile
| QT_Reachable
| QT_Error
| QT_TcpSpeed
| QT_TcpOffset
| QT_ToolStatus
| QT_IsSimulator
| QT_Shapes
| QT_ConfigInfo
| QT_Payload
| QT_ConfigBundle
| QT_BusScan
| QT_StatusRate
| QT_TcpTransform
| QT_ExecutionSpeed
| QT_CommandCompletion.

Definition QueryType_wire (x : QueryType) : Z :=
  match x with
  | QT_Ping => 1
  | QT_Status => 2
  | QT_Angles => 3
  | QT_Pose => 4
  | QT_Io => 5
  | QT_Speeds => 6
  | QT_Tools => 7
  | QT_Queue => 8
  | QT_Activity => 9
  | QT_LoopStats => 10
  | QT_Profile => 11
  | QT_Reachable => 12
  | QT_Error => 13
  | QT_TcpSpeed => 14
  | QT_TcpOffset => 15
  | QT_ToolStatus => 16
  | QT_IsSimulator => 17
  | QT_Shapes => 18
  | QT_ConfigInfo => 19
  | QT_Payload => 20
  | QT_ConfigBundle => 21
  | QT_BusScan => 22
  | QT_StatusRate => 23
  | QT_TcpTransform => 24
  | QT_ExecutionSpeed => 25
  | QT_CommandCompletion => 26
  end.

Definition QueryType_ALL : list QueryType :=
  [QT_Ping; QT_Status; QT_Angles; QT_Pose; QT_Io; QT_Speeds; QT_Tools; QT_Queue;
   QT_Activity; QT_LoopStats; QT_Profile; QT_Reachable; QT_Error; QT_TcpSpeed;
   QT_TcpOffset; QT_ToolStatus; QT_IsSimulator; QT_Shapes; QT_ConfigInfo; QT_Payload;
   QT_ConfigBundle; QT_BusScan; QT_StatusRate; QT_TcpTransform; QT_ExecutionSpeed;
   QT_CommandCompletion].

Inductive CommandClass :=
| CC_System
| CC_Query
| CC_FireAndForget
| CC_Queued.

Definition CommandClass_wire (x : CommandClass) : Z :=
  match x with
  | CC_System => 0
  | CC_Query => 1
  | CC_FireAndForget => 2
  | CC_Queued => 3
  end.

Definition CommandClass_ALL : list CommandClass :=
  [CC_System; CC_Query; CC_FireAndForget; CC_Queued].

Inductive ActionState :=
| AS_Idle
| AS_Executing
| AS_Error.

Definition ActionState_wire (x : ActionState) : Z :=
  match x with
  | AS_Idle => 0
  | AS_Executing => 1
  | AS_Error => 2
  end.

Definition ActionState_ALL : list ActionState :=
  [AS_Idle; AS_Executing; AS_Error].

Inductive CompletionPolicy :=
| CP_Commanded
| CP_Settled
| CP_Strict.

Definition CompletionPolicy_wire (x : CompletionPolicy) : Z :=
  match x with
  | CP_Commanded => 0
  | CP_Settled => 1
  | CP_Strict => 2
  end.

Definition CompletionPolicy_ALL : list CompletionPolicy :=
  [CP_Commanded; CP_Settled; CP_Strict].

Inductive Frame :=
| Fr_Wrf
| Fr_Trf.

Definition Frame_wire (x : Frame) : Z :=
  match x with
  | Fr_Wrf => 0
  | Fr_Trf => 1
  end.

Definition Frame_ALL : list Frame :=
  [Fr_Wrf; Fr_Trf].

Inductive FlashingAssertion :=
| FA_Parked
| FA_Force.

Definition FlashingAssertion_wire (x : FlashingAssertion) : Z :=
  match x with
  | FA_Parked => 1
  | FA_Force => 2
  end.

Definition FlashingAssertion_ALL : list FlashingAssertion :=
  [FA_Parked; FA_Force].

Inductive ToolState :=
| TS_Off
| TS_Idle
| TS_Active
| TS_Error.

Definition ToolState_wire (x : ToolState) : Z :=
  match x with
  | TS_Off => 0
  | TS_Idle => 1
  | TS_Active => 2
  | TS_Error => 3
  end.

Definition ToolState_ALL : list ToolState :=
  [TS_Off; TS_Idle; TS_Active; TS_Error].

Inductive LinkState :=
| LS_Unknown
| LS_Up
| LS_ErrorPassive
| LS_BusOff.

Definition LinkState_wire (x : LinkState) : Z :=
  match x with
  | LS_Unknown => 0
  | LS_Up => 1
  | LS_ErrorPassive => 2
  | LS_BusOff => 3
  end.

Definition LinkState_ALL : list LinkState :=
  [LS_Unknown; LS_Up; LS_ErrorPassive; LS_BusOff].

Inductive HomingJointState :=
| HJ_Idle
| HJ_Running
| HJ_Done
| HJ_Failed.

Definition HomingJointState_wire (x : HomingJointState) : Z :=
  match x with
  | HJ_Idle => 0
  | HJ_Running => 1
  | HJ_Done => 2
  | HJ_Failed => 3
  end.

Definition HomingJointState_ALL : list HomingJointState :=
  [HJ_Idle; HJ_Running; HJ_Done; HJ_Failed].

Inductive HomingPhase :=
| HP_Idle
| HP_Approach
| HP_Dwell
| HP_Backoff
| HP_Pause
| HP_Release
| HP_Settle
| HP_PostMove
| HP_Finished.

Definition HomingPhase_wire (x : HomingPhase) : Z :=
  match x with
  | HP_Idle => 0
  | HP_Approach => 1
  | HP_Dwell => 2
  | HP_Backoff => 3
  | HP_Pause => 4
  | HP_Release => 5
  | HP_Settle => 6
  | HP_PostMove => 7
  | HP_Finished => 8
  end.

Definition HomingPhase_ALL : list HomingPhase :=
  [HP_Idle; HP_Approach; HP_Dwell; HP_Backoff; HP_Pause; HP_Release; HP_Settle; HP_PostMove;
   HP_Finished].

Ltac wire_enum_laws :=
  split;
  [ intros x; destruct x; cbv; tauto
  | intros x y; destruct x, y; cbv; first [discriminate | reflexivity]
  | intros x; destruct x; reflexivity ].

#[export] Instance MsgType_enum : WireEnum MsgType := {| wire := MsgType_wire; ALL := MsgType_ALL |}.
#[export] Instance MsgType_laws : WireEnumLaws MsgType.
Proof. wire_enum_laws. Qed.
#[export] Instance MsgType_eq_dec : EqDecision MsgType.
Proof. solve_decision. Defined.

#[export] Instance ControllerMode_enum : WireEnum ControllerMode := {| wire := ControllerMode_wire; ALL := ControllerMode_ALL |}.
#[export] Instance ControllerMode_laws : WireEnumLaws ControllerMode.
Proof. wire_enum_laws. Qed.
#[export] Instance ControllerMode_eq_dec : EqDecision ControllerMode.
Proof. solve_decision. Defined.

#[export] Instance CmdType_enum : WireEnum CmdType := {| wire := CmdType_wire; ALL := CmdType_ALL |}.
#[export] Instance CmdType_laws : WireEnumLaws CmdType.
Proof. wire_enum_laws. Qed.
#[export] Instance CmdType_eq_dec : EqDecision CmdType.
Proof. solve_decision. Defined.

#[export] Instance QueryType_enum : WireEnum QueryType := {| wire := QueryType_wire; ALL := QueryType_ALL |}.
#[export] Instance QueryType_laws : WireEnumLaws QueryType.
Proof. wire_enum_laws. Qed.
#[export] Instance QueryType_eq_dec : EqDecision QueryType.
Proof. solve_decision. Defined.

#[export] Instance CommandClass_enum : WireEnum CommandClass := {| wire := CommandClass_wire; ALL := CommandClass_ALL |}.
#[export] Instance CommandClass_laws : WireEnumLaws CommandClass.
Proof. wire_enum_laws. Qed.
#[export] Instance CommandClass_eq_dec : EqDecision CommandClass.
Proof. solve_decision. Defined.

#[export] Instance ActionState_enum : WireEnum ActionState := {| wire := ActionState_wire; ALL := ActionState_ALL |}.
#[export] Instance ActionState_laws : WireEnumLaws ActionState.
Proof. wire_enum_laws. Qed.
#[export] Instance ActionState_eq_dec : EqDecision ActionState.
Proof. solve_decision. Defined.

#[export] Instance CompletionPolicy_enum : WireEnum CompletionPolicy := {| wire := CompletionPolicy_wire; ALL := CompletionPolicy_ALL |}.
#[export] Instance CompletionPolicy_laws : WireEnumLaws CompletionPolicy.
Proof. wire_enum_laws. Qed.
#[export] Instance CompletionPolicy_eq_dec : EqDecision CompletionPolicy.
Proof. solve_decision. Defined.

#[export] Instance Frame_enum : WireEnum Frame := {| wire := Frame_wire; ALL := Frame_ALL |}.
#[export] Instance Frame_laws : WireEnumLaws Frame.
Proof. wire_enum_laws. Qed.
#[export] Instance Frame_eq_dec : EqDecision Frame.
Proof. solve_decision. Defined.

#[export] Instance FlashingAssertion_enum : WireEnum FlashingAssertion := {| wire := FlashingAssertion_wire; ALL := FlashingAssertion_ALL |}.
#[export] Instance FlashingAssertion_laws : WireEnumLaws FlashingAssertion.
Proof. wire_enum_laws. Qed.
#[export] Instance FlashingAssertion_eq_dec : EqDecision FlashingAssertion.
Proof. solve_decision. Defined.

#[export] Instance ToolState_enum : WireEnum ToolState := {| wire := ToolState_wire; ALL := ToolState_ALL |}.
#[export] Instance ToolState_laws : WireEnumLaws ToolState.
Proof. wire_enum_laws. Qed.
#[export] Instance ToolState_eq_dec : EqDecision ToolState.
Proof. solve_decision. Defined.

#[export] Instance LinkState_enum : WireEnum LinkState := {| wire := LinkState_wire; ALL := LinkState_ALL |}.
#[export] Instance LinkState_laws : WireEnumLaws LinkState.
Proof. wire_enum_laws. Qed.
#[export] Instance LinkState_eq_dec : EqDecision LinkState.
Proof. solve_decision. Defined.

#[export] Instance HomingJointState_enum : WireEnum HomingJointState := {| wire := HomingJointState_wire; ALL := HomingJointState_ALL |}.
#[export] Instance HomingJointState_laws : WireEnumLaws HomingJointState.
Proof. wire_enum_laws. Qed.
#[export] Instance HomingJointState_eq_dec : EqDecision HomingJointState.
Proof. solve_decision. Defined.

#[export] Instance HomingPhase_enum : WireEnum HomingPhase := {| wire := HomingPhase_wire; ALL := HomingPhase_ALL |}.
#[export] Instance HomingPhase_laws : WireEnumLaws HomingPhase.
Proof. wire_enum_laws. Qed.
#[export] Instance HomingPhase_eq_dec : EqDecision HomingPhase.
Proof. solve_decision. Defined.

(** The ack taxonomy: which reply discipline a command follows. *)
Definition command_class (cmd : CmdType) : CommandClass :=
  match cmd with
  | T_Reset | T_Estop | T_SetGravityComp | T_Pause | T_Stop | T_Simulator | T_SelectProfile
  | T_ResetState | T_ConnectHardware | T_SetShapes | T_SetCompletionPolicy | T_SetPayload
  | T_EnterFlashing | T_ExitFlashing | T_SetPidGains | T_SetCanId | T_SaveConfig
  | T_SetToolId | T_SetExecutionSpeed | T_SetStatusRate | T_Teleport => CC_System
  | T_Ping | T_Status | T_Angles | T_Pose | T_Io | T_Speeds | T_Tools | T_Queue
  | T_Activity | T_LoopStats | T_Profile | T_Reachable | T_Error | T_TcpSpeed | T_TcpOffset
  | T_ExecutionSpeed | T_TcpTransform | T_ToolStatus | T_IsSimulator | T_Shapes
  | T_ConfigInfo | T_Payload | T_ConfigBundle | T_BusScan | T_StatusRate
  | T_CommandCompletion => CC_Query
  | T_ServoJ | T_ServoJPose | T_ServoL | T_JogJ | T_JogL | T_ResetLoopStats => CC_FireAndForget
  | T_Home | T_MoveJ | T_MoveJPose | T_MoveL | T_MoveC | T_MoveS | T_MoveP | T_SelectTool
  | T_Delay | T_Checkpoint | T_ToolAction | T_SetTcpOffset | T_SetTcpTransform | T_WriteIo => CC_Queued
  end.
