(* ===== verification/Command.v ===== *)
(** * Command: the commands of [crates/par6-proto/src/command.rs]

    The parameter structs, the [Command] sum, the tag and idempotency-key
    projections, and [validate] with its helpers: the range and shape rules a
    command must satisfy before its bytes may travel.  Field names carry a
    prefix for their struct; a [String] is its UTF-8 bytes, a fixed array a
    list whose length the [wt_*] predicates fix.  [wt_Command] is what Rust's
    types guarantee of a value, [validate] what the code checks on top. *)
From Stdlib Require Import SpecFloat.
From S2P Require Import Prelude F64 Wire Enums.

(** ** Bounds *)

Definition MAX_DURATION_S : f64 := f64_3600.
Definition MAX_JOG_DURATION_S : f64 := f64_60.
Definition MAX_WAYPOINTS : Z := 10000.
Definition MAX_SHAPES : Z := 256.
Definition MAX_VEC_ELEMS : Z := 16.

(** ** Parameter structs *)

Record Physical := mkPhysical {
  ph_mass : option f64;
  ph_friction : list f64;
}.

Record Attachment := mkAttachment {
  at_epoch : Z;
  at_allowed_contacts : list bytes;
}.

Record Shape := mkShape {
  sh_kind : bytes;
  sh_params : list f64;
  sh_pose : list f64;
  sh_collision : bool;
  sh_margin : option f64;
  sh_name : bytes;
  sh_physics : option Physical;
  sh_attachment : option Attachment;
}.

Record Stop := mkStop {
  stop_clear_queue : bool;
}.

Record WriteIo := mkWriteIo {
  wio_key : Z;
  wio_port : Z;
  wio_value : Z;
}.

Record Simulator := mkSimulator {
  sim_on : bool;
}.

Record SetExecutionSpeed := mkSetExecutionSpeed {
  ses_scale : f64;
}.

Record Pause := mkPause {
  pause_on : bool;
}.

Record SetGravityComp := mkSetGravityComp {
  sgc_on : bool;
}.

Record SelectProfile := mkSelectProfile {
  spf_profile : bytes;
}.

Record ConnectHardware := mkConnectHardware {
  ch_port : bytes;
}.

Record SetTcpOffset := mkSetTcpOffset {
  sto_key : Z;
  sto_x : f64;
  sto_y : f64;
  sto_z : f64;
}.

Record SetTcpTransform := mkSetTcpTransform {
  stt_key : Z;
  stt_x : f64;
  stt_y : f64;
  stt_z : f64;
  stt_roll : f64;
  stt_pitch : f64;
  stt_yaw : f64;
}.

Record SetPayload := mkSetPayload {
  spl_mass : f64;
  spl_com : list f64;
  spl_inertia : option (list f64);
}.

Record SetCanId := mkSetCanId {
  sci_node : Z;
  sci_new_id : Z;
  sci_force : bool;
}.

Record SaveConfig := mkSaveConfig {
  sc_node : Z;
  sc_force : bool;
}.

Record SetToolId := mkSetToolId {
  sti_node : Z;
  sti_tool_id : Z;
  sti_force : bool;
}.

Record SetStatusRate := mkSetStatusRate {
  ssr_hz : f64;
}.

Record EnterFlashing := mkEnterFlashing {
  ef_assertion : FlashingAssertion;
}.

Record SetPidGains := mkSetPidGains {
  spg_node : Z;
  spg_kpp : f64;
  spg_kpv : f64;
  spg_kiv : f64;
  spg_kpiq : f64;
  spg_kiiq : f64;
  spg_kp : f64;
  spg_kd : f64;
  spg_ilim_ma : f64;
  spg_velocity_limit_ticks_s : f64;
  spg_voltage_limit_mv : Z;
}.

Record SetShapes := mkSetShapes {
  ss_shapes : list Shape;
}.

Record SetCompletionPolicy := mkSetCompletionPolicy {
  scp_policy : CompletionPolicy;
}.

Record PoseQuery := mkPoseQuery {
  pq_frame : option Frame;
}.

Record ServoJ := mkServoJ {
  sj_angles : list f64;
  sj_speed : option f64;
  sj_accel : option f64;
}.

Record ServoJPose := mkServoJPose {
  sjp_pose : list f64;
  sjp_speed : option f64;
  sjp_accel : option f64;
}.

Record ServoL := mkServoL {
  sl_pose : list f64;
  sl_speed : option f64;
  sl_accel : option f64;
}.

Record JogJ := mkJogJ {
  jj_speeds : list f64;
  jj_duration : f64;
  jj_accel : option f64;
}.

Record JogL := mkJogL {
  jl_velocities : list f64;
  jl_duration : f64;
  jl_frame : Frame;
  jl_accel : option f64;
}.

Record Teleport := mkTeleport {
  tp_angles : list f64;
  tp_tool_positions : option (list f64);
}.

Record Home := mkHome {
  home_key : Z;
  home_calibrate : bool;
}.

Record MoveJ := mkMoveJ {
  mj_key : Z;
  mj_angles : list f64;
  mj_duration : option f64;
  mj_speed : option f64;
  mj_accel : option f64;
  mj_blend_radius : option f64;
  mj_rel : bool;
}.

Record MoveJPose := mkMoveJPose {
  mjp_key : Z;
  mjp_pose : list f64;
  mjp_duration : option f64;
  mjp_speed : option f64;
  mjp_accel : option f64;
  mjp_blend_radius : option f64;
}.

Record MoveL := mkMoveL {
  ml_key : Z;
  ml_pose : list f64;
  ml_frame : Frame;
  ml_duration : option f64;
  ml_speed : option f64;
  ml_accel : option f64;
  ml_blend_radius : option f64;
  ml_rel : bool;
}.

Record MoveC := mkMoveC {
  mc_key : Z;
  mc_via : list f64;
  mc_end : list f64;
  mc_frame : Frame;
  mc_duration : option f64;
  mc_speed : option f64;
  mc_accel : option f64;
  mc_blend_radius : option f64;
  mc_rel : bool;
}.

Record MoveS := mkMoveS {
  ms_key : Z;
  ms_waypoints : list (list f64);
  ms_frame : Frame;
  ms_duration : option f64;
  ms_speed : option f64;
  ms_accel : option f64;
  ms_rel : bool;
}.

Record MoveP := mkMoveP {
  mp_key : Z;
  mp_waypoints : list (list f64);
  mp_frame : Frame;
  mp_duration : option f64;
  mp_speed : option f64;
  mp_accel : option f64;
  mp_rel : bool;
}.

Record SelectTool := mkSelectTool {
  st_key : Z;
  st_tool_name : bytes;
  st_variant_key : option bytes;
}.

Record Delay := mkDelay {
  dl_key : Z;
  dl_seconds : f64;
}.

Record Checkpoint := mkCheckpoint {
  ckp_key : Z;
  ckp_label : bytes;
}.

Inductive ToolParam :=
| TP_Bool (b : bool)
| TP_Int (v : Z)
| TP_Float (v : f64)
| TP_Str (s : bytes).

Record ToolAction := mkToolAction {
  ta_key : Z;
  ta_tool_key : bytes;
  ta_action : bytes;
  ta_params : list ToolParam;
}.

Inductive Command :=
| C_Reset
| C_Estop
| C_SetGravityComp (p : SetGravityComp)
| C_Pause (p : Pause)
| C_SetExecutionSpeed (p : SetExecutionSpeed)
| C_Stop (p : Stop)
| C_WriteIo (p : WriteIo)
| C_Simulator (p : Simulator)
| C_SelectProfile (p : SelectProfile)
| C_ResetState
| C_ConnectHardware (p : ConnectHardware)
| C_SetTcpOffset (p : SetTcpOffset)
| C_SetTcpTransform (p : SetTcpTransform)
| C_SetPayload (p : SetPayload)
| C_SetShapes (p : SetShapes)
| C_SetCompletionPolicy (p : SetCompletionPolicy)
| C_EnterFlashing (p : EnterFlashing)
| C_ExitFlashing
| C_SetPidGains (p : SetPidGains)
| C_SetCanId (p : SetCanId)
| C_SaveConfig (p : SaveConfig)
| C_SetToolId (p : SetToolId)
| C_SetStatusRate (p : SetStatusRate)
| C_Ping
| C_Status
| C_Angles
| C_Pose (p : PoseQuery)
| C_Io
| C_Speeds
| C_Tools
| C_Queue
| C_Activity
| C_LoopStats
| C_Profile
| C_Reachable
| C_Error
| C_TcpSpeed
| C_TcpOffset
| C_TcpTransform
| C_ExecutionSpeed
| C_CommandCompletion (index : Z)
| C_ToolStatus
| C_IsSimulator
| C_Shapes
| C_ConfigInfo
| C_Payload
| C_ConfigBundle
| C_BusScan
| C_StatusRate
| C_ServoJ (p : ServoJ)
| C_ServoJPose (p : ServoJPose)
| C_ServoL (p : ServoL)
| C_JogJ (p : JogJ)
| C_JogL (p : JogL)
| C_Teleport (p : Teleport)
| C_ResetLoopStats
| C_Home (p : Home)
| C_MoveJ (p : MoveJ)
| C_MoveJPose (p : MoveJPose)
| C_MoveL (p : MoveL)
| C_MoveC (p : MoveC)
| C_MoveS (p : MoveS)
| C_MoveP (p : MoveP)
| C_SelectTool (p : SelectTool)
| C_Delay (p : Delay)
| C_Checkpoint (p : Checkpoint)
| C_ToolAction (p : ToolAction).

(** ** What the types guarantee *)

(** A fixed array of [n] floats. *)
Definition is_f64s (n : nat) (l : list f64) : bool :=
  (length l =? n)%nat && forallb (is_uint 64) l.
Definition opt_ok {A} (p : A -> bool) (o : option A) : bool :=
  match o with Some a => p a | None => true end.

Definition wt_Physical (p : Physical) : bool :=
  is_opt (is_uint 64) (ph_mass p) && is_f64s 3 (ph_friction p).

Definition wt_Attachment (p : Attachment) : bool :=
  is_uint 64 (at_epoch p) && forallb is_string (at_allowed_contacts p).

Definition wt_Shape (p : Shape) : bool :=
  is_string (sh_kind p) && forallb (is_uint 64) (sh_params p) &&
  forallb (is_uint 64) (sh_pose p) && is_opt (is_uint 64) (sh_margin p) &&
  is_string (sh_name p) && opt_ok wt_Physical (sh_physics p) &&
  opt_ok wt_Attachment (sh_attachment p).

Definition wt_WriteIo (p : WriteIo) : bool :=
  is_uint 64 (wio_key p) && is_uint 8 (wio_port p) && is_uint 8 (wio_value p).

Definition wt_SetExecutionSpeed (p : SetExecutionSpeed) : bool :=
  is_uint 64 (ses_scale p).

Definition wt_SelectProfile (p : SelectProfile) : bool :=
  is_string (spf_profile p).

Definition wt_ConnectHardware (p : ConnectHardware) : bool :=
  is_string (ch_port p).

Definition wt_SetTcpOffset (p : SetTcpOffset) : bool :=
  is_uint 64 (sto_key p) && is_uint 64 (sto_x p) && is_uint 64 (sto_y p) &&
  is_uint 64 (sto_z p).

Definition wt_SetTcpTransform (p : SetTcpTransform) : bool :=
  is_uint 64 (stt_key p) && is_uint 64 (stt_x p) && is_uint 64 (stt_y p) &&
  is_uint 64 (stt_z p) && is_uint 64 (stt_roll p) && is_uint 64 (stt_pitch p) &&
  is_uint 64 (stt_yaw p).

Definition wt_SetPayload (p : SetPayload) : bool :=
  is_uint 64 (spl_mass p) && is_f64s 3 (spl_com p) && opt_ok (is_f64s 6) (spl_inertia p).

Definition wt_SetCanId (p : SetCanId) : bool :=
  is_uint 8 (sci_node p) && is_uint 8 (sci_new_id p).

Definition wt_SaveConfig (p : SaveConfig) : bool :=
  is_uint 8 (sc_node p).

Definition wt_SetToolId (p : SetToolId) : bool :=
  is_uint 8 (sti_node p) && is_uint 8 (sti_tool_id p).

Definition wt_SetStatusRate (p : SetStatusRate) : bool :=
  is_uint 64 (ssr_hz p).

Definition wt_SetPidGains (p : SetPidGains) : bool :=
  is_uint 8 (spg_node p) && is_uint 64 (spg_kpp p) && is_uint 64 (spg_kpv p) &&
  is_uint 64 (spg_kiv p) && is_uint 64 (spg_kpiq p) && is_uint 64 (spg_kiiq p) &&
  is_uint 64 (spg_kp p) && is_uint 64 (spg_kd p) && is_uint 64 (spg_ilim_ma p) &&
  is_uint 64 (spg_velocity_limit_ticks_s p) && is_uint 32 (spg_voltage_limit_mv p).

Definition wt_SetShapes (p : SetShapes) : bool :=
  forallb wt_Shape (ss_shapes p).

Definition wt_ServoJ (p : ServoJ) : bool :=
  is_f64s 6 (sj_angles p) && is_opt (is_uint 64) (sj_speed p) &&
  is_opt (is_uint 64) (sj_accel p).

Definition wt_ServoJPose (p : ServoJPose) : bool :=
  is_f64s 6 (sjp_pose p) && is_opt (is_uint 64) (sjp_speed p) &&
  is_opt (is_uint 64) (sjp_accel p).

Definition wt_ServoL (p : ServoL) : bool :=
  is_f64s 6 (sl_pose p) && is_opt (is_uint 64) (sl_speed p) &&
  is_opt (is_uint 64) (sl_accel p).

Definition wt_JogJ (p : JogJ) : bool :=
  is_f64s 6 (jj_speeds p) && is_uint 64 (jj_duration p) && is_opt (is_uint 64) (jj_accel p).

Definition wt_JogL (p : JogL) : bool :=
  is_f64s 6 (jl_velocities p) && is_uint 64 (jl_duration p) &&
  is_opt (is_uint 64) (jl_accel p).

Definition wt_Teleport (p : Teleport) : bool :=
  is_f64s 6 (tp_angles p) && opt_ok (forallb (is_uint 64)) (tp_tool_positions p).

Definition wt_Home (p : Home) : bool :=
  is_uint 64 (home_key p).

Definition wt_MoveJ (p : MoveJ) : bool :=
  is_uint 64 (mj_key p) && is_f64s 6 (mj_angles p) && is_opt (is_uint 64) (mj_duration p) &&
  is_opt (is_uint 64) (mj_speed p) && is_opt (is_uint 64) (mj_accel p) &&
  is_opt (is_uint 64) (mj_blend_radius p).

Definition wt_MoveJPose (p : MoveJPose) : bool :=
  is_uint 64 (mjp_key p) && is_f64s 6 (mjp_pose p) && is_opt (is_uint 64) (mjp_duration p) &&
  is_opt (is_uint 64) (mjp_speed p) && is_opt (is_uint 64) (mjp_accel p) &&
  is_opt (is_uint 64) (mjp_blend_radius p).

Definition wt_MoveL (p : MoveL) : bool :=
  is_uint 64 (ml_key p) && is_f64s 6 (ml_pose p) && is_opt (is_uint 64) (ml_duration p) &&
  is_opt (is_uint 64) (ml_speed p) && is_opt (is_uint 64) (ml_accel p) &&
  is_opt (is_uint 64) (ml_blend_radius p).

Definition wt_MoveC (p : MoveC) : bool :=
  is_uint 64 (mc_key p) && is_f64s 6 (mc_via p) && is_f64s 6 (mc_end p) &&
  is_opt (is_uint 64) (mc_duration p) && is_opt (is_uint 64) (mc_speed p) &&
  is_opt (is_uint 64) (mc_accel p) && is_opt (is_uint 64) (mc_blend_radius p).

Definition wt_MoveS (p : MoveS) : bool :=
  is_uint 64 (ms_key p) && forallb (is_f64s 6) (ms_waypoints p) &&
  is_opt (is_uint 64) (ms_duration p) && is_opt (is_uint 64) (ms_speed p) &&
  is_opt (is_uint 64) (ms_accel p).

Definition wt_MoveP (p : MoveP) : bool :=
  is_uint 64 (mp_key p) && forallb (is_f64s 6) (mp_waypoints p) &&
  is_opt (is_uint 64) (mp_duration p) && is_opt (is_uint 64) (mp_speed p) &&
  is_opt (is_uint 64) (mp_accel p).

Definition wt_SelectTool (p : SelectTool) : bool :=
  is_uint 64 (st_key p) && is_string (st_tool_name p) && opt_ok is_string (st_variant_key p).

Definition wt_Delay (p : Delay) : bool :=
  is_uint 64 (dl_key p) && is_uint 64 (dl_seconds p).

Definition wt_Checkpoint (p : Checkpoint) : bool :=
  is_uint 64 (ckp_key p) && is_string (ckp_label p).

Definition wt_ToolParam (p : ToolParam) : bool :=
  match p with
  | TP_Bool _ => true
  | TP_Int v => is_sint 64 v
  | TP_Float v => is_uint 64 v
  | TP_Str s => is_string s
  end.

Definition wt_ToolAction (p : ToolAction) : bool :=
  is_uint 64 (ta_key p) && is_string (ta_tool_key p) && is_string (ta_action p) &&
  forallb wt_ToolParam (ta_params p).

(** The ranges the Rust types of a command guarantee. *)
Definition wt_Command (cmd : Command) : bool :=
  match cmd with
  | C_SetExecutionSpeed p => wt_SetExecutionSpeed p
  | C_WriteIo p => wt_WriteIo p
  | C_SelectProfile p => wt_SelectProfile p
  | C_ConnectHardware p => wt_ConnectHardware p
  | C_SetTcpOffset p => wt_SetTcpOffset p
  | C_SetTcpTransform p => wt_SetTcpTransform p
  | C_SetPayload p => wt_SetPayload p
  | C_SetShapes p => wt_SetShapes p
  | C_SetPidGains p => wt_SetPidGains p
  | C_SetCanId p => wt_SetCanId p
  | C_SaveConfig p => wt_SaveConfig p
  | C_SetToolId p => wt_SetToolId p
  | C_SetStatusRate p => wt_SetStatusRate p
  | C_CommandCompletion i => is_uint 64 i
  | C_ServoJ p => wt_ServoJ p
  | C_ServoJPose p => wt_ServoJPose p
  | C_ServoL p => wt_ServoL p
  | C_JogJ p => wt_JogJ p
  | C_JogL p => wt_JogL p
  | C_Teleport p => wt_Teleport p
  | C_Home p => wt_Home p
  | C_MoveJ p => wt_MoveJ p
  | C_MoveJPose p => wt_MoveJPose p
  | C_MoveL p => wt_MoveL p
  | C_MoveC p => wt_MoveC p
  | C_MoveS p => wt_MoveS p
  | C_MoveP p => wt_MoveP p
  | C_SelectTool p => wt_SelectTool p
  | C_Delay p => wt_Delay p
  | C_Checkpoint p => wt_Checkpoint p
  | C_ToolAction p => wt_ToolAction p
  | _ => true
  end.

(** [Command::tag]. *)
Definition tag (cmd : Command) : CmdType :=
  match cmd with
  | C_Reset => T_Reset
  | C_Estop => T_Estop
  | C_SetGravityComp _ => T_SetGravityComp
  | C_Pause _ => T_Pause
  | C_SetExecutionSpeed _ => T_SetExecutionSpeed
  | C_Stop _ => T_Stop
  | C_WriteIo _ => T_WriteIo
  | C_Simulator _ => T_Simulator
  | C_SelectProfile _ => T_SelectProfile
  | C_ResetState => T_ResetState
  | C_ConnectHardware _ => T_ConnectHardware
  | C_SetTcpOffset _ => T_SetTcpOffset
  | C_SetTcpTransform _ => T_SetTcpTransform
  | C_SetPayload _ => T_SetPayload
  | C_SetShapes _ => T_SetShapes
  | C_SetCompletionPolicy _ => T_SetCompletionPolicy
  | C_EnterFlashing _ => T_EnterFlashing
  | C_ExitFlashing => T_ExitFlashing
  | C_SetPidGains _ => T_SetPidGains
  | C_SetCanId _ => T_SetCanId
  | C_SaveConfig _ => T_SaveConfig
  | C_SetToolId _ => T_SetToolId
  | C_SetStatusRate _ => T_SetStatusRate
  | C_Ping => T_Ping
  | C_Status => T_Status
  | C_Angles => T_Angles
  | C_Pose _ => T_Pose
  | C_Io => T_Io
  | C_Speeds => T_Speeds
  | C_Tools => T_Tools
  | C_Queue => T_Queue
  | C_Activity => T_Activity
  | C_LoopStats => T_LoopStats
  | C_Profile => T_Profile
  | C_Reachable => T_Reachable
  | C_Error => T_Error
  | C_TcpSpeed => T_TcpSpeed
  | C_TcpOffset => T_TcpOffset
  | C_TcpTransform => T_TcpTransform
  | C_ExecutionSpeed => T_ExecutionSpeed
  | C_CommandCompletion _ => T_CommandCompletion
  | C_ToolStatus => T_ToolStatus
  | C_IsSimulator => T_IsSimulator
  | C_Shapes => T_Shapes
  | C_ConfigInfo => T_ConfigInfo
  | C_Payload => T_Payload
  | C_ConfigBundle => T_ConfigBundle
  | C_BusScan => T_BusScan
  | C_StatusRate => T_StatusRate
  | C_ServoJ _ => T_ServoJ
  | C_ServoJPose _ => T_ServoJPose
  | C_ServoL _ => T_ServoL
  | C_JogJ _ => T_JogJ
  | C_JogL _ => T_JogL
  | C_Teleport _ => T_Teleport
  | C_ResetLoopStats => T_ResetLoopStats
  | C_Home _ => T_Home
  | C_MoveJ _ => T_MoveJ
  | C_MoveJPose _ => T_MoveJPose
  | C_MoveL _ => T_MoveL
  | C_MoveC _ => T_MoveC
  | C_MoveS _ => T_MoveS
  | C_MoveP _ => T_MoveP
  | C_SelectTool _ => T_SelectTool
  | C_Delay _ => T_Delay
  | C_Checkpoint _ => T_Checkpoint
  | C_ToolAction _ => T_ToolAction
  end.

(** [Command::idempotency_key]: queued commands carry one. *)
Definition idempotency_key (cmd : Command) : option Z :=
  match cmd with
  | C_Home p => Some (home_key p)
  | C_MoveJ p => Some (mj_key p)
  | C_MoveJPose p => Some (mjp_key p)
  | C_MoveL p => Some (ml_key p)
  | C_MoveC p => Some (mc_key p)
  | C_MoveS p => Some (ms_key p)
  | C_MoveP p => Some (mp_key p)
  | C_SelectTool p => Some (st_key p)
  | C_Delay p => Some (dl_key p)
  | C_Checkpoint p => Some (ckp_key p)
  | C_ToolAction p => Some (ta_key p)
  | C_SetTcpOffset p => Some (sto_key p)
  | C_WriteIo p => Some (wio_key p)
  | C_SetTcpTransform p => Some (stt_key p)
  | _ => None
  end.

(** ** Validation helpers *)

Definition Verdict := result DecodeError unit.

Definition check (ok : bool) (what : string) (why : Why) : Verdict :=
  if ok then Ok tt else Err (Validation what why).

Definition finite (what : string) (v : f64) : Verdict :=
  check (f64_is_finite v) what (WText "must be finite").

Definition finite_all (what : string) (vs : list f64) : Verdict := for_each (finite what) vs.

(** Positive semidefiniteness of [(Ixx, Ixy, Iyy, Ixz, Iyz, Izz)] by all its
    principal minors, with a tolerance scaled by the largest entry. *)
Definition symmetric3_is_psd (i : list f64) : bool :=
  match map f64_to_SF i with
  | [ixx; ixy; iyy; ixz; iyz; izz] =>
      let scale := fold_left (fun m v => sf_max m (sf_abs v))
                     [ixx; ixy; iyy; ixz; iyz; izz] (f64_to_SF f64_0) in
      let eps1 := sf_mul (f64_to_SF f64_1e_9) scale in
      let eps2 := sf_mul eps1 scale in
      let eps3 := sf_mul eps2 scale in
      let det :=
        sf_add
          (sf_sub (sf_mul ixx (sf_sub (sf_mul iyy izz) (sf_mul iyz iyz)))
                  (sf_mul ixy (sf_sub (sf_mul ixy izz) (sf_mul iyz ixz))))
          (sf_mul ixz (sf_sub (sf_mul ixy iyz) (sf_mul iyy ixz))) in
      sf_le (sf_opp eps1) ixx && sf_le (sf_opp eps1) iyy && sf_le (sf_opp eps1) izz &&
      sf_le (sf_opp eps2) (sf_sub (sf_mul ixx iyy) (sf_mul ixy ixy)) &&
      sf_le (sf_opp eps2) (sf_sub (sf_mul ixx izz) (sf_mul ixz ixz)) &&
      sf_le (sf_opp eps2) (sf_sub (sf_mul iyy izz) (sf_mul iyz iyz)) &&
      sf_le (sf_opp eps3) det
  | _ => false
  end.

Definition frac (what : string) (v : f64) : Verdict :=
  finite what v ;;? check (f64_gt v f64_0 && f64_le v f64_1) what (WText "must be in (0, 1]").

Definition opt_frac (what : string) (v : option f64) : Verdict :=
  match v with Some v => frac what v | None => Ok tt end.

Definition signed_fracs (what : string) (vs : list f64) : Verdict :=
  for_each (fun v =>
    finite what v ;;?
    check (f64_le f64_m1 v && f64_le v f64_1) what (WText "must be in [-1, 1]")) vs.

Definition bounded_duration (what : string) (v max : f64) : Verdict :=
  finite what v ;;?
  check (f64_gt v f64_0 && f64_le v max) what (WFmtF64 "must be in (0, " max "] seconds").

Definition duration (what : string) (v : f64) : Verdict := bounded_duration what v MAX_DURATION_S.

Definition blend (what : string) (v : option f64) : Verdict :=
  match v with
  | Some v => finite what v ;;? check (f64_ge v f64_0) what (WText "must be >= 0")
  | None => Ok tt
  end.

Definition motion_timing (what : string) (dur speed accel : option f64) : Verdict :=
  (match dur, speed with
   | Some d, None => duration what d
   | None, Some s => frac what s
   | None, None => Err (Validation what (WText "requires one of duration or speed"))
   | Some _, Some _ => Err (Validation what (WText "duration and speed are mutually exclusive"))
   end) ;;?
  opt_frac what accel.

Definition str_len (what : string) (s : bytes) (min max : Z) : Verdict :=
  check ((min <=? blen s) && (blen s <=? max)) what
    (WFmtRange "length must be " min "..=" max " bytes").

Definition waypoints (what : string) (wps : list (list f64)) : Verdict :=
  check (2 <=? Z.of_nat (length wps)) what (WText "requires at least 2 waypoints") ;;?
  check (Z.of_nat (length wps) <=? MAX_WAYPOINTS) what (WFmtUsize "at most " MAX_WAYPOINTS " waypoints") ;;?
  for_each (finite_all what) wps.

(** ** Collision shapes *)

Definition bytes_eqb (a b : bytes) : bool := bool_decide (a = b).

(** A contact name: bounded, exact (no glob characters), not the shape itself,
    not already listed. *)
Definition contact_fault (shape_name : bytes) (seen : list bytes) (name : bytes) : bool :=
  (blen name =? 0) || (128 <? blen name) ||
  existsb (fun b => (b =? 42) || (b =? 63) || (b =? 91) || (b =? 93) || (b =? 0)) name ||
  bytes_eqb name (str_bytes "shape:" ++ shape_name) ||
  existsb (bytes_eqb name) seen.

Fixpoint contacts_fault (shape_name : bytes) (seen names : list bytes) : bool :=
  match names with
  | [] => false
  | n :: names' => contact_fault shape_name seen n || contacts_fault shape_name (seen ++ [n]) names'
  end.

Definition validate_attachment (s : Shape) (a : Attachment) : result (string * Why) unit :=
  let fail detail := Err ("shape.attachment", WText detail) in
  if negb (sh_collision s) || bool_decide (is_Some (sh_physics s)) then
    fail "attached shapes require collision geometry without physics"
  else if (at_epoch a =? 0) || (blen (sh_name s) =? 0) || (128 <? blen (sh_name s)) then
    fail "attachment requires a nonzero epoch and a bounded name"
  else if 32 <? Z.of_nat (length (at_allowed_contacts a)) then
    fail "at most 32 allowed contacts"
  else if contacts_fault (sh_name s) [] (at_allowed_contacts a) then
    fail "contacts must be distinct exact reporting names, excluding self"
  else Ok tt.

Definition validate_physics (s : Shape) (physics : Physical) : result (string * Why) unit :=
  if negb (sh_collision s) then
    Err ("shape.physics", WText "a collision = false marker cannot declare physics")
  else
  (match ph_mass physics with
   | Some m =>
       if negb (f64_is_finite m && f64_gt m f64_0) then
         Err ("shape.physics.mass", WFmtF64 "mass must be finite and > 0, got " m "")
       else Ok tt
   | None => Ok tt
   end) ;;?
  match find (fun f => negb (f64_is_finite f)) (ph_friction physics) with
  | Some f => Err ("shape.physics.friction", WFmtF64 "" f " is not a finite number")
  | None =>
      if existsb (fun f => f64_lt f f64_0) (ph_friction physics) then
        Err ("shape.physics.friction", WText "friction coefficients must be >= 0")
      else Ok tt
  end.

Definition finite_values (what : string) (values : list f64) : result (string * Why) unit :=
  match find (fun v => negb (f64_is_finite v)) values with
  | Some v => Err (what, WFmtF64 "" v " is not a finite number")
  | None => Ok tt
  end.

Definition validate_shape (s : Shape) : result (string * Why) unit :=
  (if negb (length (sh_pose s) =? 6)%nat then
     Err ("shape.pose", WFmtUsize "must be [x, y, z, rx, ry, rz] (length 6), got "
                          (Z.of_nat (length (sh_pose s))) "")
   else Ok tt) ;;?
  finite_values "shape.params" (sh_params s) ;;?
  finite_values "shape.pose" (sh_pose s) ;;?
  (match sh_margin s with
   | Some m =>
       if negb (f64_is_finite m && f64_ge m f64_0) then
         Err ("shape.margin", WFmtF64 "must be finite and >= 0, got " m "")
       else Ok tt
   | None => Ok tt
   end) ;;?
  (match sh_attachment s with Some a => validate_attachment s a | None => Ok tt end) ;;?
  match sh_physics s with
  | None => Ok tt
  | Some physics => validate_physics s physics
  end.

(** [.map_err(|(what, why)| DecodeError::Validation { what, why })] *)
Definition shape_error (m : result (string * Why) unit) : Verdict :=
  match m with Ok u => Ok u | Err (what, why) => Err (Validation what why) end.

(** ** [Command::validate], one definition per arm that checks something *)

Definition NODE_RANGE : Why := WText "must be a CAN node id (0..=15)".

Definition validate_SetCanId (p : SetCanId) : Verdict :=
  check (sci_node p <=? 15) "set_can_id.node" NODE_RANGE ;;?
  check (sci_new_id p <=? 15) "set_can_id.new_id" NODE_RANGE ;;?
  check (negb (sci_new_id p =? sci_node p)) "set_can_id.new_id" (WText "must differ from node").

Definition validate_SetToolId (p : SetToolId) : Verdict :=
  check (sti_node p <=? 15) "set_tool_id.node" NODE_RANGE.

Definition validate_SaveConfig (p : SaveConfig) : Verdict :=
  check (sc_node p <=? 15) "save_config.node" NODE_RANGE.

Definition validate_SetExecutionSpeed (p : SetExecutionSpeed) : Verdict :=
  check (f64_is_finite (ses_scale p) && (f64_le f64_0_1 (ses_scale p) && f64_le (ses_scale p) f64_1))
    "set_execution_speed.scale" (WText "must be finite and in [0.1, 1]; use Pause to pause").

Definition validate_SetStatusRate (p : SetStatusRate) : Verdict :=
  check (f64_is_finite (ssr_hz p) && f64_gt (ssr_hz p) f64_0)
    "set_status_rate.hz" (WText "must be a positive, finite rate").

Definition validate_WriteIo (p : WriteIo) : Verdict :=
  check (wio_port p <=? 7) "write_io.port" (WText "must be 0..=7") ;;?
  check (wio_value p <=? 1) "write_io.value" (WText "must be 0 or 1").

Definition validate_SetTcpTransform (p : SetTcpTransform) : Verdict :=
  for_each (finite "set_tcp_transform")
    [stt_x p; stt_y p; stt_z p; stt_roll p; stt_pitch p; stt_yaw p].

Definition validate_SetTcpOffset (p : SetTcpOffset) : Verdict :=
  finite "set_tcp_offset.x" (sto_x p) ;;?
  finite "set_tcp_offset.y" (sto_y p) ;;?
  finite "set_tcp_offset.z" (sto_z p).

Definition validate_SetPayload (p : SetPayload) : Verdict :=
  finite "set_payload.mass" (spl_mass p) ;;?
  check (f64_ge (spl_mass p) f64_0) "set_payload.mass" (WText "must be >= 0 kg") ;;?
  finite_all "set_payload.com" (spl_com p) ;;?
  match spl_inertia p with
  | Some inertia =>
      finite_all "set_payload.inertia" inertia ;;?
      check (symmetric3_is_psd inertia) "set_payload.inertia" (WText "must be positive semidefinite")
  | None => Ok tt
  end.

Definition validate_SetShapes (p : SetShapes) : Verdict :=
  check (Z.of_nat (length (ss_shapes p)) <=? MAX_SHAPES) "set_shapes.shapes"
    (WFmtUsize "at most " MAX_SHAPES " shapes") ;;?
  for_each (fun s =>
    str_len "shape.kind" (sh_kind s) 1 32 ;;?
    str_len "shape.name" (sh_name s) 0 128 ;;?
    shape_error (validate_shape s)) (ss_shapes p).

Definition validate_SetPidGains (p : SetPidGains) : Verdict :=
  for_each (fun '(what, v) => finite what v ;;? check (f64_ge v f64_0) what (WText "must be >= 0"))
    [("set_pid_gains.kpp", spg_kpp p); ("set_pid_gains.kpv", spg_kpv p);
     ("set_pid_gains.kiv", spg_kiv p); ("set_pid_gains.kpiq", spg_kpiq p);
     ("set_pid_gains.kiiq", spg_kiiq p); ("set_pid_gains.kp", spg_kp p);
     ("set_pid_gains.kd", spg_kd p)]%string ;;?
  finite "set_pid_gains.ilim_ma" (spg_ilim_ma p) ;;?
  check (f64_gt (spg_ilim_ma p) f64_0) "set_pid_gains.ilim_ma" (WText "must be > 0") ;;?
  finite "set_pid_gains.velocity_limit_ticks_s" (spg_velocity_limit_ticks_s p) ;;?
  check (f64_gt (spg_velocity_limit_ticks_s p) f64_0)
    "set_pid_gains.velocity_limit_ticks_s" (WText "must be > 0").

Definition validate_ServoJ (p : ServoJ) : Verdict :=
  finite_all "servo_j.angles" (sj_angles p) ;;?
  opt_frac "servo_j.speed" (sj_speed p) ;;? opt_frac "servo_j.accel" (sj_accel p).

Definition validate_ServoJPose (p : ServoJPose) : Verdict :=
  finite_all "servo_j_pose.pose" (sjp_pose p) ;;?
  opt_frac "servo_j_pose.speed" (sjp_speed p) ;;? opt_frac "servo_j_pose.accel" (sjp_accel p).

Definition validate_ServoL (p : ServoL) : Verdict :=
  finite_all "servo_l.pose" (sl_pose p) ;;?
  opt_frac "servo_l.speed" (sl_speed p) ;;? opt_frac "servo_l.accel" (sl_accel p).

Definition validate_JogJ (p : JogJ) : Verdict :=
  signed_fracs "jog_j.speeds" (jj_speeds p) ;;?
  bounded_duration "jog_j.duration" (jj_duration p) MAX_JOG_DURATION_S ;;?
  opt_frac "jog_j.accel" (jj_accel p).

Definition validate_JogL (p : JogL) : Verdict :=
  signed_fracs "jog_l.velocities" (jl_velocities p) ;;?
  bounded_duration "jog_l.duration" (jl_duration p) MAX_JOG_DURATION_S ;;?
  opt_frac "jog_l.accel" (jl_accel p).

Definition validate_Teleport (p : Teleport) : Verdict :=
  finite_all "teleport.angles" (tp_angles p) ;;?
  match tp_tool_positions p with
  | Some tp =>
      check (Z.of_nat (length tp) <=? 16) "teleport.tool_positions" (WText "at most 16 values") ;;?
      finite_all "teleport.tool_positions" tp
  | None => Ok tt
  end.

Definition validate_MoveJ (p : MoveJ) : Verdict :=
  finite_all "move_j.angles" (mj_angles p) ;;?
  motion_timing "move_j" (mj_duration p) (mj_speed p) (mj_accel p) ;;?
  blend "move_j.r" (mj_blend_radius p).

Definition validate_MoveJPose (p : MoveJPose) : Verdict :=
  finite_all "move_j_pose.pose" (mjp_pose p) ;;?
  motion_timing "move_j_pose" (mjp_duration p) (mjp_speed p) (mjp_accel p) ;;?
  blend "move_j_pose.r" (mjp_blend_radius p).

Definition validate_MoveL (p : MoveL) : Verdict :=
  finite_all "move_l.pose" (ml_pose p) ;;?
  motion_timing "move_l" (ml_duration p) (ml_speed p) (ml_accel p) ;;?
  blend "move_l.r" (ml_blend_radius p).

Definition validate_MoveC (p : MoveC) : Verdict :=
  finite_all "move_c.via" (mc_via p) ;;?
  finite_all "move_c.end" (mc_end p) ;;?
  motion_timing "move_c" (mc_duration p) (mc_speed p) (mc_accel p) ;;?
  blend "move_c.r" (mc_blend_radius p).

Definition validate_MoveS (p : MoveS) : Verdict :=
  waypoints "move_s.waypoints" (ms_waypoints p) ;;?
  motion_timing "move_s" (ms_duration p) (ms_speed p) (ms_accel p).

Definition validate_MoveP (p : MoveP) : Verdict :=
  waypoints "move_p.waypoints" (mp_waypoints p) ;;?
  motion_timing "move_p" (mp_duration p) (mp_speed p) (mp_accel p).

Definition validate_SelectTool (p : SelectTool) : Verdict :=
  str_len "select_tool.tool_name" (st_tool_name p) 1 64 ;;?
  match st_variant_key p with
  | Some v => str_len "select_tool.variant_key" v 1 64
  | None => Ok tt
  end.

Definition validate_ToolAction (p : ToolAction) : Verdict :=
  str_len "tool_action.tool_key" (ta_tool_key p) 1 64 ;;?
  str_len "tool_action.action" (ta_action p) 1 64 ;;?
  check (Z.of_nat (length (ta_params p)) <=? 16) "tool_action.params" (WText "at most 16 values") ;;?
  for_each (fun tp => match tp with
                      | TP_Float v => finite "tool_action.params" v
                      | _ => Ok tt
                      end) (ta_params p).

Definition validate (cmd : Command) : Verdict :=
  match cmd with
  | C_SetCanId p => validate_SetCanId p
  | C_SetToolId p => validate_SetToolId p
  | C_SaveConfig p => validate_SaveConfig p
  | C_SetExecutionSpeed p => validate_SetExecutionSpeed p
  | C_SetStatusRate p => validate_SetStatusRate p
  | C_WriteIo p => validate_WriteIo p
  | C_SelectProfile p => str_len "select_profile.profile" (spf_profile p) 1 32
  | C_ConnectHardware p => str_len "connect_hardware.port" (ch_port p) 1 256
  | C_SetTcpTransform p => validate_SetTcpTransform p
  | C_SetTcpOffset p => validate_SetTcpOffset p
  | C_SetPayload p => validate_SetPayload p
  | C_SetShapes p => validate_SetShapes p
  | C_SetPidGains p => validate_SetPidGains p
  | C_ServoJ p => validate_ServoJ p
  | C_ServoJPose p => validate_ServoJPose p
  | C_ServoL p => validate_ServoL p
  | C_JogJ p => validate_JogJ p
  | C_JogL p => validate_JogL p
  | C_Teleport p => validate_Teleport p
  | C_MoveJ p => validate_MoveJ p
  | C_MoveJPose p => validate_MoveJPose p
  | C_MoveL p => validate_MoveL p
  | C_MoveC p => validate_MoveC p
  | C_MoveS p => validate_MoveS p
  | C_MoveP p => validate_MoveP p
  | C_SelectTool p => validate_SelectTool p
  | C_Delay p => duration "delay.seconds" (dl_seconds p)
  | C_Checkpoint p => str_len "checkpoint.label" (ckp_label p) 1 128
  | C_ToolAction p => validate_ToolAction p
  | C_Stop _ | C_Simulator _ | C_SetGravityComp _ | C_Pause _ | C_Reset | C_Estop
  | C_ResetState | C_SetCompletionPolicy _ | C_Ping | C_Status | C_Angles | C_Pose _ | C_Io
  | C_Speeds | C_Tools | C_Queue | C_Activity | C_LoopStats | C_Profile | C_Reachable | C_Error
  | C_TcpSpeed | C_TcpOffset | C_ExecutionSpeed | C_TcpTransform | C_CommandCompletion _
  | C_ToolStatus | C_IsSimulator | C_Shapes | C_ConfigInfo | C_Payload | C_ConfigBundle
  | C_BusScan | C_StatusRate | C_ResetLoopStats | C_EnterFlashing _ | C_ExitFlashing
  | C_Home _ => Ok tt
  end.

(** The commands with an idempotency key are exactly those the ack taxonomy
    calls queued: every command a client may retry for a single execution has a
    key to be recognised by, and no other command has one. *)
Lemma queued_iff_keyed cmd :
  command_class (tag cmd) = CC_Queued <-> exists key, idempotency_key cmd = Some key.
Proof. destruct cmd; simpl; split; intros H; eauto; try done; by destruct H. Qed.
