(* ===== verification/CommandCodec.v ===== *)
(** * CommandCodec: encode and decode of commands (command.rs)

    [encode_command] writes [[cmd_tag, req_id, ...params]] and [decode_command]
    reads it back, checking arity, types and ranges.  Encoding and decoding are
    given parameter struct by parameter struct, in the field order of the
    source.  The theorems: a command that validates and is encoded is decoded
    unchanged; whatever the datagram, a decoded command is well-typed and
    validates; an invalid command never reaches the buffer. *)
From S2P Require Import Prelude F64 Wire Enums Command.

(** ** Encode *)

(** Number of wire elements of each command: tag, req_id and parameters. *)
Definition arity (tag : CmdType) : Z :=
  match tag with
  | T_Reset | T_Estop | T_ResetState | T_ResetLoopStats | T_ExitFlashing => 2
  | T_Ping | T_Status | T_Angles | T_Io | T_Speeds | T_Tools | T_Queue | T_Activity
  | T_LoopStats | T_Profile | T_Reachable | T_Error | T_TcpSpeed | T_TcpOffset
  | T_ExecutionSpeed | T_TcpTransform | T_ToolStatus | T_IsSimulator | T_Shapes
  | T_ConfigInfo | T_Payload | T_ConfigBundle | T_BusScan | T_StatusRate => 2
  | T_CommandCompletion => 3
  | T_Stop | T_Simulator | T_SetGravityComp | T_Pause | T_SelectProfile | T_ConnectHardware
  | T_SetShapes | T_SetCompletionPolicy | T_EnterFlashing | T_Pose => 3
  | T_WriteIo => 5
  | T_SetTcpOffset => 6
  | T_SetTcpTransform => 9
  | T_SetPayload => 5
  | T_SetPidGains => 13
  | T_SetCanId => 5
  | T_SaveConfig => 4
  | T_SetToolId => 5
  | T_SetStatusRate | T_SetExecutionSpeed => 3
  | T_ServoJ | T_ServoJPose | T_ServoL => 5
  | T_JogJ => 5
  | T_JogL => 6
  | T_Teleport => 4
  | T_Home => 4
  | T_MoveJ => 9
  | T_MoveJPose => 8
  | T_MoveL => 10
  | T_MoveC => 11
  | T_MoveS | T_MoveP => 9
  | T_SelectTool => 5
  | T_Delay => 4
  | T_Checkpoint => 4
  | T_ToolAction => 6
  end.

Definition w_seq {A} (w : A -> bytes) (l : list A) : bytes :=
  w_array (Z.of_nat (length l)) ++ concat (map w l).

Definition w_fixed (vs : list f64) : bytes := w_seq w_f64 vs.

Definition w_option {A} (w : A -> bytes) (o : option A) : bytes :=
  match o with Some a => w a | None => w_nil end.

Definition w_physical (p : Physical) : bytes :=
  w_array 2 ++ w_opt_f64 (ph_mass p) ++ w_fixed (ph_friction p).

Definition w_attachment (a : Attachment) : bytes :=
  w_array 2 ++ w_uint (at_epoch a) ++ w_seq w_str (at_allowed_contacts a).

Definition w_shape (s : Shape) : bytes :=
  w_array 8 ++ w_str (sh_kind s) ++ w_fixed (sh_params s) ++ w_fixed (sh_pose s) ++
  w_bool (sh_collision s) ++ w_opt_f64 (sh_margin s) ++ w_str (sh_name s) ++
  w_option w_physical (sh_physics s) ++ w_option w_attachment (sh_attachment s).

Definition w_tool_param (tp : ToolParam) : bytes :=
  match tp with
  | TP_Float v => w_f64 v
  | TP_Int v => w_int v
  | TP_Bool v => w_bool v
  | TP_Str v => w_str v
  end.

Definition encode_params (cmd : Command) : bytes :=
  match cmd with
  | C_SetCanId p => w_uint (sci_node p) ++ w_uint (sci_new_id p) ++ w_bool (sci_force p)
  | C_SaveConfig p => w_uint (sc_node p) ++ w_bool (sc_force p)
  | C_SetToolId p => w_uint (sti_node p) ++ w_uint (sti_tool_id p) ++ w_bool (sti_force p)
  | C_SetStatusRate p => w_f64 (ssr_hz p)
  | C_Stop p => w_bool (stop_clear_queue p)
  | C_WriteIo p => w_uint (wio_key p) ++ w_uint (wio_port p) ++ w_uint (wio_value p)
  | C_Simulator p => w_bool (sim_on p)
  | C_SetGravityComp p => w_bool (sgc_on p)
  | C_Pause p => w_bool (pause_on p)
  | C_SetExecutionSpeed p => w_f64 (ses_scale p)
  | C_SelectProfile p => w_str (spf_profile p)
  | C_ConnectHardware p => w_str (ch_port p)
  | C_SetTcpTransform p =>
      w_uint (stt_key p) ++ w_f64 (stt_x p) ++ w_f64 (stt_y p) ++ w_f64 (stt_z p) ++
      w_f64 (stt_roll p) ++ w_f64 (stt_pitch p) ++ w_f64 (stt_yaw p)
  | C_CommandCompletion index => w_uint index
  | C_SetTcpOffset p =>
      w_uint (sto_key p) ++ w_f64 (sto_x p) ++ w_f64 (sto_y p) ++ w_f64 (sto_z p)
  | C_SetPayload p =>
      w_f64 (spl_mass p) ++ w_array 3 ++ concat (map w_f64 (spl_com p)) ++
      w_option (fun i => w_array 6 ++ concat (map w_f64 i)) (spl_inertia p)
  | C_SetShapes p => w_seq w_shape (ss_shapes p)
  | C_SetCompletionPolicy p => w_uint (wire (scp_policy p))
  | C_EnterFlashing p => w_uint (wire (ef_assertion p))
  | C_SetPidGains p =>
      w_uint (spg_node p) ++ w_f64 (spg_kpp p) ++ w_f64 (spg_kpv p) ++ w_f64 (spg_kiv p) ++
      w_f64 (spg_kpiq p) ++ w_f64 (spg_kiiq p) ++ w_f64 (spg_kp p) ++ w_f64 (spg_kd p) ++
      w_f64 (spg_ilim_ma p) ++ w_f64 (spg_velocity_limit_ticks_s p) ++
      w_uint (spg_voltage_limit_mv p)
  | C_Pose p => w_option (fun f => w_uint (wire f)) (pq_frame p)
  | C_ServoJ p => w_fixed (sj_angles p) ++ w_opt_f64 (sj_speed p) ++ w_opt_f64 (sj_accel p)
  | C_ServoJPose p => w_fixed (sjp_pose p) ++ w_opt_f64 (sjp_speed p) ++ w_opt_f64 (sjp_accel p)
  | C_ServoL p => w_fixed (sl_pose p) ++ w_opt_f64 (sl_speed p) ++ w_opt_f64 (sl_accel p)
  | C_JogJ p => w_fixed (jj_speeds p) ++ w_f64 (jj_duration p) ++ w_opt_f64 (jj_accel p)
  | C_JogL p =>
      w_fixed (jl_velocities p) ++ w_f64 (jl_duration p) ++ w_uint (wire (jl_frame p)) ++
      w_opt_f64 (jl_accel p)
  | C_Teleport p => w_fixed (tp_angles p) ++ w_option w_fixed (tp_tool_positions p)
  | C_Home p => w_uint (home_key p) ++ w_bool (home_calibrate p)
  | C_MoveJ p =>
      w_uint (mj_key p) ++ w_fixed (mj_angles p) ++ w_opt_f64 (mj_duration p) ++
      w_opt_f64 (mj_speed p) ++ w_opt_f64 (mj_accel p) ++ w_opt_f64 (mj_blend_radius p) ++
      w_bool (mj_rel p)
  | C_MoveJPose p =>
      w_uint (mjp_key p) ++ w_fixed (mjp_pose p) ++ w_opt_f64 (mjp_duration p) ++
      w_opt_f64 (mjp_speed p) ++ w_opt_f64 (mjp_accel p) ++ w_opt_f64 (mjp_blend_radius p)
  | C_MoveL p =>
      w_uint (ml_key p) ++ w_fixed (ml_pose p) ++ w_uint (wire (ml_frame p)) ++
      w_opt_f64 (ml_duration p) ++ w_opt_f64 (ml_speed p) ++ w_opt_f64 (ml_accel p) ++
      w_opt_f64 (ml_blend_radius p) ++ w_bool (ml_rel p)
  | C_MoveC p =>
      w_uint (mc_key p) ++ w_fixed (mc_via p) ++ w_fixed (mc_end p) ++ w_uint (wire (mc_frame p)) ++
      w_opt_f64 (mc_duration p) ++ w_opt_f64 (mc_speed p) ++ w_opt_f64 (mc_accel p) ++
      w_opt_f64 (mc_blend_radius p) ++ w_bool (mc_rel p)
  | C_MoveS p =>
      w_uint (ms_key p) ++ w_seq w_fixed (ms_waypoints p) ++ w_uint (wire (ms_frame p)) ++
      w_opt_f64 (ms_duration p) ++ w_opt_f64 (ms_speed p) ++ w_opt_f64 (ms_accel p) ++
      w_bool (ms_rel p)
  | C_MoveP p =>
      w_uint (mp_key p) ++ w_seq w_fixed (mp_waypoints p) ++ w_uint (wire (mp_frame p)) ++
      w_opt_f64 (mp_duration p) ++ w_opt_f64 (mp_speed p) ++ w_opt_f64 (mp_accel p) ++
      w_bool (mp_rel p)
  | C_SelectTool p =>
      w_uint (st_key p) ++ w_str (st_tool_name p) ++ w_option w_str (st_variant_key p)
  | C_Delay p => w_uint (dl_key p) ++ w_f64 (dl_seconds p)
  | C_Checkpoint p => w_uint (ckp_key p) ++ w_str (ckp_label p)
  | C_ToolAction p =>
      w_uint (ta_key p) ++ w_str (ta_tool_key p) ++ w_str (ta_action p) ++
      w_seq w_tool_param (ta_params p)
  | _ => []
  end.

(** The buffer is replaced only once the command has been validated. *)
Definition encode_command (cmd : Command) (req_id : Z) (buf : bytes)
  : result DecodeError unit * bytes :=
  match validate cmd with
  | Err e => (Err e, buf)
  | Ok _ =>
      let t := tag cmd in
      (Ok tt, w_array (arity t) ++ w_uint (wire t) ++ w_uint req_id ++ encode_params cmd)
  end.

(** ** Decode: shared readers *)

(** [u8::try_from(v)], [u32::try_from(v)] with the error of the field. *)
Definition rd_try (w : Z) (what : string) (why : Why) : Rd Z :=
  let* v := rd_uint in if is_uint w v then rret v else rfail (Validation what why).

Definition r_fixed (n : nat) (what : string) : Rd (list f64) :=
  let* k := rd_array_len in
  if negb (k =? Z.of_nat n) then rfail (Arity what (Z.of_nat n) k) else rd_rep n rd_f64.
Definition r_fixed3 := r_fixed 3.
Definition r_fixed6 := r_fixed 6.

Definition r_node_id (what : string) : Rd Z :=
  let* v := rd_uint in
  if is_uint 8 v && (v <=? 15) then rret v else rfail (Validation what NODE_RANGE).

Definition r_len (what : string) (max : Z) : Rd Z :=
  let* n := rd_array_len in
  let* _ := rlift (check (n <=? max) what (WFmtUsize "at most " max " elements")) in rret n.

(** A bounded sequence: the header is refused before anything is reserved. *)
Definition r_seq {A} (what : string) (max : Z) (m : Rd A) : Rd (list A) :=
  let* n := r_len what max in rd_rep (Z.to_nat n) m.

Definition r_vec_f64 (what : string) : Rd (list f64) := r_seq what MAX_VEC_ELEMS rd_f64.

Definition r_frame : Rd Frame := rd_enum "frame".

Definition r_waypoints (what : string) : Rd (list (list f64)) :=
  r_seq what MAX_WAYPOINTS (r_fixed6 "waypoint").

(** [if r.peek_nil() { r.nil()?; None } else { Some(m?) }] *)
Definition r_option {A} (m : Rd A) : Rd (option A) :=
  let* b := rd_peek_nil in
  if b then (rd_nil ;;* rret None) else (let* v := m in rret (Some v)).

Definition r_physics : Rd (option Physical) :=
  r_option (
    let* n := rd_array_len in
    if negb (n =? 2) then rfail (Arity "shape.physics" 2 n)
    else (let* mass := rd_opt_f64 in
          let* friction := r_fixed3 "shape.physics.friction" in
          rret (mkPhysical mass friction))).

Definition r_attachment : Rd Attachment :=
  let* len := rd_array_len in
  if negb (len =? 2) then rfail (Arity "shape.attachment" 2 len)
  else (let* epoch := rd_uint in
        let* contacts := r_seq "shape.attachment.allowed_contacts" 32 rd_str in
        rret (mkAttachment epoch contacts)).

(** Six elements (no physics), seven (no attachment) or eight. *)
Definition r_shape : Rd Shape :=
  let* n := rd_array_len in
  if negb (in_range 6 n 8) then rfail (Arity "shape" 8 n)
  else
  let* kind := rd_str in
  let* params := r_vec_f64 "shape.params" in
  let* pose := r_vec_f64 "shape.pose" in
  let* collision := rd_bool in
  let* margin := rd_opt_f64 in
  let* name := rd_str in
  let* physics := (if 7 <=? n then r_physics else rret None) in
  let* attachment := (if n =? 8 then r_option r_attachment else rret None) in
  let shape := mkShape kind params pose collision margin name physics attachment in
  let* _ := rlift (shape_error (validate_shape shape)) in
  rret shape.

Definition r_tool_param : Rd ToolParam :=
  let* m := rd_peek_marker in
  if (m =? 0xC2) || (m =? 0xC3) then (let* b := rd_bool in rret (TP_Bool b))
  else if m =? 0xCB then (let* v := rd_f64 in rret (TP_Float v))
  else if in_range 0xA0 m 0xBF || in_range 0xD9 m 0xDB then (let* s := rd_str in rret (TP_Str s))
  else if in_range 0x00 m 0x7F || in_range 0xE0 m 0xFF || in_range 0xCC m 0xCF ||
          in_range 0xD0 m 0xD3 then (let* v := rd_int in rret (TP_Int v))
  else rfail (Validation "tool_action.params" (WText "parameters must be float, int, bool or str")).

(** ** Decode: one definition per command with parameters *)

Definition decode_WriteIo : Rd Command :=
  let* key := rd_uint in
  let* port := rd_uint in
  let* value := rd_uint in
  if negb (is_uint 8 port) then rfail (Validation "write_io.port" (WText "must be 0..=7"))
  else if negb (is_uint 8 value) then rfail (Validation "write_io.value" (WText "must be 0 or 1"))
  else rret (C_WriteIo (mkWriteIo key port value)).

Definition decode_SetTcpTransform : Rd Command :=
  let* key := rd_uint in
  let* x := rd_f64 in let* y := rd_f64 in let* z := rd_f64 in
  let* roll := rd_f64 in let* pitch := rd_f64 in let* yaw := rd_f64 in
  rret (C_SetTcpTransform (mkSetTcpTransform key x y z roll pitch yaw)).

Definition decode_SetTcpOffset : Rd Command :=
  let* key := rd_uint in
  let* x := rd_f64 in let* y := rd_f64 in let* z := rd_f64 in
  rret (C_SetTcpOffset (mkSetTcpOffset key x y z)).

Definition decode_SetPayload : Rd Command :=
  let* mass := rd_f64 in
  let* com := r_fixed3 "set_payload.com" in
  let* inertia := r_option (r_fixed6 "set_payload.inertia") in
  rret (C_SetPayload (mkSetPayload mass com inertia)).

Definition decode_SetShapes : Rd Command :=
  let* shapes := r_seq "set_shapes.shapes" MAX_SHAPES r_shape in
  rret (C_SetShapes (mkSetShapes shapes)).

Definition decode_SetCompletionPolicy : Rd Command :=
  let* policy := rd_enum "completion policy" in
  rret (C_SetCompletionPolicy (mkSetCompletionPolicy policy)).

Definition decode_EnterFlashing : Rd Command :=
  let* assertion := rd_enum "flashing assertion" in
  rret (C_EnterFlashing (mkEnterFlashing assertion)).

Definition decode_SetPidGains : Rd Command :=
  let* node := rd_try 8 "set_pid_gains.node" (WText "must fit a CAN node id (0..=255)") in
  let* kpp := rd_f64 in let* kpv := rd_f64 in let* kiv := rd_f64 in let* kpiq := rd_f64 in
  let* kiiq := rd_f64 in let* kp := rd_f64 in let* kd := rd_f64 in let* ilim := rd_f64 in
  let* vlim := rd_f64 in
  let* volt := rd_try 32 "set_pid_gains.voltage_limit_mv" (WText "must fit u32") in
  rret (C_SetPidGains (mkSetPidGains node kpp kpv kiv kpiq kiiq kp kd ilim vlim volt)).

Definition decode_Pose : Rd Command :=
  let* frame := r_option r_frame in rret (C_Pose (mkPoseQuery frame)).

Definition decode_SetCanId : Rd Command :=
  let* node := r_node_id "set_can_id.node" in
  let* new_id := r_node_id "set_can_id.new_id" in
  let* force := rd_bool in
  rret (C_SetCanId (mkSetCanId node new_id force)).

Definition decode_SaveConfig : Rd Command :=
  let* node := r_node_id "save_config.node" in
  let* force := rd_bool in
  rret (C_SaveConfig (mkSaveConfig node force)).

Definition decode_SetToolId : Rd Command :=
  let* node := r_node_id "set_tool_id.node" in
  let* tool_id := rd_try 8 "set_tool_id.tool_id" (WText "must fit a byte") in
  let* force := rd_bool in
  rret (C_SetToolId (mkSetToolId node tool_id force)).

Definition decode_ServoJ : Rd Command :=
  let* angles := r_fixed6 "servo_j.angles" in
  let* speed := rd_opt_f64 in let* accel := rd_opt_f64 in
  rret (C_ServoJ (mkServoJ angles speed accel)).

Definition decode_ServoJPose : Rd Command :=
  let* pose := r_fixed6 "servo_j_pose.pose" in
  let* speed := rd_opt_f64 in let* accel := rd_opt_f64 in
  rret (C_ServoJPose (mkServoJPose pose speed accel)).

Definition decode_ServoL : Rd Command :=
  let* pose := r_fixed6 "servo_l.pose" in
  let* speed := rd_opt_f64 in let* accel := rd_opt_f64 in
  rret (C_ServoL (mkServoL pose speed accel)).

Definition decode_JogJ : Rd Command :=
  let* speeds := r_fixed6 "jog_j.speeds" in
  let* duration := rd_f64 in let* accel := rd_opt_f64 in
  rret (C_JogJ (mkJogJ speeds duration accel)).

Definition decode_JogL : Rd Command :=
  let* velocities := r_fixed6 "jog_l.velocities" in
  let* duration := rd_f64 in let* frame := r_frame in let* accel := rd_opt_f64 in
  rret (C_JogL (mkJogL velocities duration frame accel)).

Definition decode_Teleport : Rd Command :=
  let* angles := r_fixed6 "teleport.angles" in
  let* tool_positions := r_option (r_vec_f64 "teleport.tool_positions") in
  rret (C_Teleport (mkTeleport angles tool_positions)).

Definition decode_Home : Rd Command :=
  let* key := rd_uint in let* calibrate := rd_bool in
  rret (C_Home (mkHome key calibrate)).

Definition decode_MoveJ : Rd Command :=
  let* key := rd_uint in
  let* angles := r_fixed6 "move_j.angles" in
  let* duration := rd_opt_f64 in let* speed := rd_opt_f64 in let* accel := rd_opt_f64 in
  let* blend_radius := rd_opt_f64 in let* rel := rd_bool in
  rret (C_MoveJ (mkMoveJ key angles duration speed accel blend_radius rel)).

Definition decode_MoveJPose : Rd Command :=
  let* key := rd_uint in
  let* pose := r_fixed6 "move_j_pose.pose" in
  let* duration := rd_opt_f64 in let* speed := rd_opt_f64 in let* accel := rd_opt_f64 in
  let* blend_radius := rd_opt_f64 in
  rret (C_MoveJPose (mkMoveJPose key pose duration speed accel blend_radius)).

Definition decode_MoveL : Rd Command :=
  let* key := rd_uint in
  let* pose := r_fixed6 "move_l.pose" in
  let* frame := r_frame in
  let* duration := rd_opt_f64 in let* speed := rd_opt_f64 in let* accel := rd_opt_f64 in
  let* blend_radius := rd_opt_f64 in let* rel := rd_bool in
  rret (C_MoveL (mkMoveL key pose frame duration speed accel blend_radius rel)).

Definition decode_MoveC : Rd Command :=
  let* key := rd_uint in
  let* via := r_fixed6 "move_c.via" in
  let* end_ := r_fixed6 "move_c.end" in
  let* frame := r_frame in
  let* duration := rd_opt_f64 in let* speed := rd_opt_f64 in let* accel := rd_opt_f64 in
  let* blend_radius := rd_opt_f64 in let* rel := rd_bool in
  rret (C_MoveC (mkMoveC key via end_ frame duration speed accel blend_radius rel)).

Definition decode_MoveS : Rd Command :=
  let* key := rd_uint in
  let* wps := r_waypoints "move_s.waypoints" in
  let* frame := r_frame in
  let* duration := rd_opt_f64 in let* speed := rd_opt_f64 in let* accel := rd_opt_f64 in
  let* rel := rd_bool in
  rret (C_MoveS (mkMoveS key wps frame duration speed accel rel)).

Definition decode_MoveP : Rd Command :=
  let* key := rd_uint in
  let* wps := r_waypoints "move_p.waypoints" in
  let* frame := r_frame in
  let* duration := rd_opt_f64 in let* speed := rd_opt_f64 in let* accel := rd_opt_f64 in
  let* rel := rd_bool in
  rret (C_MoveP (mkMoveP key wps frame duration speed accel rel)).

Definition decode_SelectTool : Rd Command :=
  let* key := rd_uint in
  let* tool_name := rd_str in
  let* variant_key := r_option rd_str in
  rret (C_SelectTool (mkSelectTool key tool_name variant_key)).

Definition decode_Delay : Rd Command :=
  let* key := rd_uint in let* seconds := rd_f64 in
  rret (C_Delay (mkDelay key seconds)).

Definition decode_Checkpoint : Rd Command :=
  let* key := rd_uint in let* label := rd_str in
  rret (C_Checkpoint (mkCheckpoint key label)).

Definition decode_ToolAction : Rd Command :=
  let* key := rd_uint in
  let* tool_key := rd_str in
  let* action := rd_str in
  let* params := r_seq "tool_action.params" MAX_VEC_ELEMS r_tool_param in
  rret (C_ToolAction (mkToolAction key tool_key action params)).

(** The [match tag] of [decode_command]. *)
Definition decode_params (tag : CmdType) : Rd Command :=
  match tag with
  | T_Reset => rret C_Reset
  | T_Estop => rret C_Estop
  | T_Stop => let* b := rd_bool in rret (C_Stop (mkStop b))
  | T_WriteIo => decode_WriteIo
  | T_Simulator => let* on := rd_bool in rret (C_Simulator (mkSimulator on))
  | T_SetGravityComp => let* on := rd_bool in rret (C_SetGravityComp (mkSetGravityComp on))
  | T_Pause => let* on := rd_bool in rret (C_Pause (mkPause on))
  | T_SetExecutionSpeed =>
      let* scale := rd_f64 in rret (C_SetExecutionSpeed (mkSetExecutionSpeed scale))
  | T_SelectProfile => let* s := rd_str in rret (C_SelectProfile (mkSelectProfile s))
  | T_ResetState => rret C_ResetState
  | T_ConnectHardware => let* s := rd_str in rret (C_ConnectHardware (mkConnectHardware s))
  | T_SetTcpTransform => decode_SetTcpTransform
  | T_SetTcpOffset => decode_SetTcpOffset
  | T_SetPayload => decode_SetPayload
  | T_SetShapes => decode_SetShapes
  | T_SetCompletionPolicy => decode_SetCompletionPolicy
  | T_EnterFlashing => decode_EnterFlashing
  | T_ExitFlashing => rret C_ExitFlashing
  | T_SetPidGains => decode_SetPidGains
  | T_Ping => rret C_Ping
  | T_Status => rret C_Status
  | T_Angles => rret C_Angles
  | T_Pose => decode_Pose
  | T_Io => rret C_Io
  | T_Speeds => rret C_Speeds
  | T_Tools => rret C_Tools
  | T_Queue => rret C_Queue
  | T_Activity => rret C_Activity
  | T_LoopStats => rret C_LoopStats
  | T_Profile => rret C_Profile
  | T_Reachable => rret C_Reachable
  | T_Error => rret C_Error
  | T_TcpSpeed => rret C_TcpSpeed
  | T_TcpOffset => rret C_TcpOffset
  | T_TcpTransform => rret C_TcpTransform
  | T_CommandCompletion => let* index := rd_uint in rret (C_CommandCompletion index)
  | T_ExecutionSpeed => rret C_ExecutionSpeed
  | T_ToolStatus => rret C_ToolStatus
  | T_IsSimulator => rret C_IsSimulator
  | T_Shapes => rret C_Shapes
  | T_ConfigInfo => rret C_ConfigInfo
  | T_Payload => rret C_Payload
  | T_ConfigBundle => rret C_ConfigBundle
  | T_BusScan => rret C_BusScan
  | T_StatusRate => rret C_StatusRate
  | T_SetCanId => decode_SetCanId
  | T_SaveConfig => decode_SaveConfig
  | T_SetToolId => decode_SetToolId
  | T_SetStatusRate => let* hz := rd_f64 in rret (C_SetStatusRate (mkSetStatusRate hz))
  | T_ServoJ => decode_ServoJ
  | T_ServoJPose => decode_ServoJPose
  | T_ServoL => decode_ServoL
  | T_JogJ => decode_JogJ
  | T_JogL => decode_JogL
  | T_Teleport => decode_Teleport
  | T_ResetLoopStats => rret C_ResetLoopStats
  | T_Home => decode_Home
  | T_MoveJ => decode_MoveJ
  | T_MoveJPose => decode_MoveJPose
  | T_MoveL => decode_MoveL
  | T_MoveC => decode_MoveC
  | T_MoveS => decode_MoveS
  | T_MoveP => decode_MoveP
  | T_SelectTool => decode_SelectTool
  | T_Delay => decode_Delay
  | T_Checkpoint => decode_Checkpoint
  | T_ToolAction => decode_ToolAction
  end.

Definition rd_tag : Rd CmdType :=
  let* raw := rd_int in
  match from_wire raw with Some t => rret t | None => rfail (UnknownTag raw) end.

Definition rd_command : Rd (Z * Command) :=
  let* n := rd_array_len in
  if n <? 2 then rfail (Arity "command envelope" 2 n)
  else
  let* t := rd_tag in
  let expected := arity t in
  if negb (n =? expected) then rfail (Arity "command" expected n)
  else
  let* req_id := rd_try 32 "req_id" (WText "exceeds u32") in
  let* cmd := decode_params t in
  let* _ := rd_finish in
  let* _ := rlift (validate cmd) in
  rret (req_id, cmd).

Definition decode_command (data : bytes) : result DecodeError (Z * Command) :=
  match rd_command (reader_new data) with Ok (v, _) => Ok v | Err e => Err e end.

(** ** Envelope peeks ([peek_tag], [peek_req_id] of lib.rs) *)

Definition peek_tag (data : bytes) : result DecodeError Z :=
  match (let* n := rd_array_len in
         if n =? 0 then rfail (Arity "envelope" 1 0) else rd_int) (reader_new data) with
  | Ok (v, _) => Ok v
  | Err e => Err e
  end.

(** [data.get(pos..pos + n)?]. *)
Definition get_slice (data : bytes) (pos n : Z) : option bytes :=
  if pos + n <=? blen data then Some (take (Z.to_nat n) (drop (Z.to_nat pos) data)) else None.

(** The nested [fn uint]: value and new position. *)
Definition peek_uint (data : bytes) (pos : Z) : option (Z * Z) :=
  b ← data !! Z.to_nat pos;
  let pos := pos + 1 in
  if in_range 0x00 b 0x7F then Some (b, pos)
  else if b =? 0xCC then (v ← data !! Z.to_nat pos; Some (v, pos + 1))
  else if b =? 0xCD then (s ← get_slice data pos 2; Some (from_be s, pos + 2))
  else if b =? 0xCE then (s ← get_slice data pos 4; Some (from_be s, pos + 4))
  else if b =? 0xCF then (s ← get_slice data pos 8; Some (from_be s, pos + 8))
  else None.

Definition peek_req_id (data : bytes) : option Z :=
  b ← data !! 0%nat;
  pos ← (if in_range 0x90 b 0x9F then Some 1
         else if b =? 0xDC then Some 3
         else if b =? 0xDD then Some 5
         else None);
  '(_, pos) ← peek_uint data pos;
  '(v, _) ← peek_uint data pos;
  if is_uint 32 v then Some v else None.

(** ** Round trip: shared readers *)

(** The first byte of an encoding is not the nil marker. *)
Definition not_nil (bs : bytes) : Prop := exists b t, bs = b :: t /\ (b =? 0xC0) = false.

Lemma not_nil_app a b : not_nil a -> not_nil (a ++ b).
Proof. intros (x & t & -> & H). exists x, (t ++ b). done. Qed.

Lemma not_nil_array n : 0 <= n -> not_nil (w_array n).
Proof.
  intros Hn. unfold w_array. destruct (Z.ltb_spec n 16); [|destruct (_ <=? _); by repeat eexists].
  eexists _, _. split; [done|]. rewrite wrap_small by (apply is_uint_spec; lia).
  change (Z.lor 0x90 n) with (Z.lor (9 * 2 ^ 4) n). rewrite lor_marker by lia. lia.
Qed.

Lemma not_nil_seq {A} (w : A -> bytes) l : not_nil (w_seq w l).
Proof. apply not_nil_app, not_nil_array. lia. Qed.

Lemma not_nil_uint v : 0 <= v -> not_nil (w_uint v).
Proof.
  intros Hv. unfold w_uint.
  repeat case_match; repeat eexists; try done. rewrite wrap_small; [lia|]. apply is_uint_spec. lia.
Qed.

Lemma not_nil_str s : not_nil (w_str s).
Proof.
  unfold w_str. apply not_nil_app. pose proof (blen_nonneg s).
  destruct (Z.ltb_spec (blen s) 32); [|repeat case_match; by repeat eexists].
  eexists _, _. split; [done|]. rewrite wrap_small by (apply is_uint_spec; lia).
  change (Z.lor 0xA0 (blen s)) with (Z.lor (5 * 2 ^ 5) (blen s)). rewrite lor_marker by lia. lia.
Qed.

Lemma reads_option {A} (m : Rd A) (w : A -> bytes) o :
  (forall a, o = Some a -> reads m (w a) a /\ not_nil (w a)) ->
  reads (r_option m) (w_option w o) o.
Proof.
  intros Ho. unfold r_option, w_option. destruct o as [a|].
  - destruct (Ho a) as [Hm (b & t & E & Hb)]; [done|]. rewrite E in *.
    apply reads_peek_nil. rewrite Hb. eapply reads_bind_last; [done|apply reads_ret].
  - unfold w_nil. apply reads_peek_nil. simpl.
    eapply reads_bind_last; [apply reads_nil|apply reads_ret].
Qed.

Lemma reads_lift {A} (m : result DecodeError A) a : m = Ok a -> reads (rlift m) [] a.
Proof. intros ->. intros pre rest _. unfold rlift, blen. simpl. by rewrite Z.add_0_r. Qed.

Lemma reads_seq {A} what max (m : Rd A) (w : A -> bytes) l :
  max < 2 ^ 32 -> Z.of_nat (length l) <= max -> Forall (fun x => reads m (w x) x) l ->
  reads (r_seq what max m) (w_seq w l) l.
Proof.
  intros Hmax Hl Hall. unfold r_seq, r_len, w_seq.
  eapply reads_bind.
  - eapply reads_bind_last; [apply reads_array_len, is_uint_spec; lia|].
    eapply reads_bind_last; [|apply reads_ret].
    apply reads_lift. unfold check. zdecide. done.
  - rewrite Nat2Z.id. by apply reads_rep.
Qed.

Lemma forallb_Forall {A} (p : A -> bool) (Q : A -> Prop) l :
  (forall x, p x = true -> Q x) -> forallb p l = true -> Forall Q l.
Proof.
  intros HPQ Hl. apply List.Forall_forall. rewrite forallb_forall in Hl. auto.
Qed.

Lemma reads_f64s l : forallb (is_uint 64) l = true ->
  reads (rd_rep (length l) rd_f64) (concat (map w_f64 l)) l.
Proof. intros Hl. apply reads_rep. eapply forallb_Forall; [|exact Hl]. apply reads_f64. Qed.

Lemma reads_fixed n what l : Z.of_nat n < 2 ^ 32 -> is_f64s n l = true ->
  reads (r_fixed n what) (w_fixed l) l.
Proof.
  unfold is_f64s. intros Hn Hl. bsplit. apply Nat.eqb_eq in H. subst n.
  unfold r_fixed, w_fixed, w_seq.
  eapply reads_bind; [apply reads_array_len, is_uint_spec; lia|].
  rewrite Z.eqb_refl. simpl. by apply reads_f64s.
Qed.

Lemma reads_fixed3 what l : is_f64s 3 l = true -> reads (r_fixed3 what) (w_fixed l) l.
Proof. by apply reads_fixed. Qed.
Lemma reads_fixed6 what l : is_f64s 6 l = true -> reads (r_fixed6 what) (w_fixed l) l.
Proof. by apply reads_fixed. Qed.

Lemma reads_vec_f64 what l : Z.of_nat (length l) <= MAX_VEC_ELEMS ->
  forallb (is_uint 64) l = true -> reads (r_vec_f64 what) (w_fixed l) l.
Proof.
  intros Hn Hl. apply reads_seq; [done|done|]. eapply forallb_Forall; [|exact Hl]. apply reads_f64.
Qed.

Lemma reads_rd_try w what why v : 0 <= w <= 64 -> is_uint w v = true ->
  reads (rd_try w what why) (w_uint v) v.
Proof.
  intros Hw Hv. unfold rd_try.
  eapply reads_bind_last; [apply reads_uint, (is_uint_weaken w); done|].
  rewrite Hv. apply reads_ret.
Qed.

Lemma reads_node_id what v : is_uint 8 v = true -> (v <=? 15) = true ->
  reads (r_node_id what) (w_uint v) v.
Proof.
  intros Hv Hn. unfold r_node_id.
  eapply reads_bind_last; [apply reads_uint, (is_uint_weaken 8); done|].
  rewrite Hv, Hn. apply reads_ret.
Qed.

Lemma is_string_parts s : is_string s = true ->
  is_bytes s = true /\ utf8_valid s = true /\ is_uint 32 (blen s) = true.
Proof. unfold is_string. intros. by bsplit. Qed.

Lemma reads_string s : is_string s = true -> reads rd_str (w_str s) s.
Proof. intros (_ & Hu & Hn)%is_string_parts. by apply reads_str. Qed.

#[export] Hint Resolve reads_fixed3 reads_fixed6 reads_string reads_vec_f64 reads_f64s : reads.

(** One field of a struct, then the rest; the last field; the constructor. *)
Ltac reads_step :=
  first
    [ apply reads_ret
    | eapply reads_bind; [solve [eauto with reads]|]
    | eapply reads_bind_last; [solve [eauto with reads]|] ].

Lemma reads_physics o : opt_ok wt_Physical o = true ->
  reads r_physics (w_option w_physical o) o.
Proof.
  intros Ho. apply reads_option. intros p ->. unfold opt_ok, wt_Physical in Ho. bsplit.
  split; [|by apply not_nil_app, not_nil_array].
  unfold w_physical. eapply reads_bind; [by apply reads_array_len|]. simpl.
  repeat reads_step. destruct p. apply reads_ret.
Qed.

Lemma reads_attachment a : wt_Attachment a = true ->
  Z.of_nat (length (at_allowed_contacts a)) <= 32 ->
  reads r_attachment (w_attachment a) a.
Proof.
  unfold wt_Attachment. intros Ha Hn. bsplit. unfold r_attachment, w_attachment.
  eapply reads_bind; [by apply reads_array_len|]. simpl.
  eapply reads_bind; [by apply reads_uint|].
  eapply reads_bind_last.
  - apply reads_seq; [done|done|]. eapply forallb_Forall; [|eassumption]. apply reads_string.
  - destruct a. apply reads_ret.
Qed.

Lemma validate_attachment_ok s a : validate_attachment s a = Ok tt ->
  Z.of_nat (length (at_allowed_contacts a)) <= 32.
Proof. unfold validate_attachment. repeat case_match; intros; try done. lia. Qed.

Lemma validate_shape_ok s : validate_shape s = Ok tt ->
  length (sh_pose s) = 6%nat /\
  (forall a, sh_attachment s = Some a -> Z.of_nat (length (at_allowed_contacts a)) <= 32).
Proof.
  unfold validate_shape. intros H. inv_ok. split.
  - destruct (Nat.eqb_spec (length (sh_pose s)) 6); done.
  - intros a Ea. rewrite Ea in *. eauto using validate_attachment_ok.
Qed.

(** A shape the decoder can take back: validated, and within the vector bound
    that only the decoder enforces. *)
Definition shape_fits (s : Shape) : bool := Z.of_nat (length (sh_params s)) <=? MAX_VEC_ELEMS.

Lemma reads_shape s : wt_Shape s = true -> validate_shape s = Ok tt -> shape_fits s = true ->
  reads r_shape (w_shape s) s.
Proof.
  unfold wt_Shape, shape_fits. intros Hw Hv Hf. bsplit.
  destruct (validate_shape_ok _ Hv) as [Hpose Hatt]. apply Z.leb_le in Hf.
  unfold r_shape, w_shape. eapply reads_bind; [by apply reads_array_len|]. cbn [negb in_range Z.leb Z.eqb Z.compare Pos.compare Pos.compare_cont Pos.eqb andb].
  assert (Z.of_nat (length (sh_pose s)) <= MAX_VEC_ELEMS) by (rewrite Hpose; unfold MAX_VEC_ELEMS; lia).
  do 6 (eapply reads_bind; [solve [eauto with reads]|]).
  eapply reads_bind; [by apply reads_physics|].
  eapply reads_bind_last.
  - apply reads_option. intros a Ea. split; [|by apply not_nil_app, not_nil_array].
    apply reads_attachment; [|by apply Hatt]. by rewrite Ea in *.
  - replace (mkShape _ _ _ _ _ _ _ _) with s by (by destruct s).
    cbv zeta. rewrite Hv. eapply reads_bind_last; [by apply reads_lift|apply reads_ret].
Qed.

Lemma w_int_not_marker v : is_sint 64 v = true ->
  exists b t, w_int v = b :: t /\
  (in_range 0x00 b 0x7F || in_range 0xE0 b 0xFF || in_range 0xCC b 0xCF || in_range 0xD0 b 0xD3) = true.
Proof.
  rewrite is_sint_spec. intros Hv. unfold w_int, w_uint.
  repeat case_match; eexists _, _; split; try done; unfold wrap, in_range;
    [rewrite Z.mod_small by lia; lia|].
  rewrite (Z.mod_eq v (2 ^ 8)) by lia.
  replace (v / 2 ^ 8) with (-1) by (apply (Z.div_unique v (2 ^ 8) (-1) (v + 2 ^ 8)); lia). lia.
Qed.

Lemma w_str_marker s : exists b t, w_str s = b :: t /\
  (in_range 0xA0 b 0xBF || in_range 0xD9 b 0xDB) = true.
Proof.
  unfold w_str. pose proof (blen_nonneg s).
  destruct (Z.ltb_spec (blen s) 32); [|repeat case_match; by repeat eexists].
  eexists _, _. split; [done|]. rewrite wrap_small by (apply is_uint_spec; lia).
  change (Z.lor 0xA0 (blen s)) with (Z.lor (5 * 2 ^ 5) (blen s)). rewrite lor_marker by lia.
  unfold in_range. lia.
Qed.

Lemma reads_tool_param tp : wt_ToolParam tp = true -> reads r_tool_param (w_tool_param tp) tp.
Proof.
  unfold r_tool_param. destruct tp as [b|v|v|s]; cbn [wt_ToolParam w_tool_param]; intros Hw.
  - pose proof (reads_bool b) as Hr. unfold w_bool in *. apply reads_peek_marker.
    destruct b; simpl; (eapply reads_bind_last; [exact Hr|apply reads_ret]).
  - destruct (w_int_not_marker v Hw) as (b & t & E & Hb).
    pose proof (reads_int v Hw) as Hr. rewrite E in *. apply reads_peek_marker.
    assert (((b =? 0xC2) || (b =? 0xC3)) = false) as -> by (unfold in_range in Hb; lia).
    assert ((b =? 0xCB) = false) as -> by (unfold in_range in Hb; lia).
    assert ((in_range 0xA0 b 0xBF || in_range 0xD9 b 0xDB) = false) as ->
      by (unfold in_range in *; lia).
    rewrite Hb. eapply reads_bind_last; [exact Hr|apply reads_ret].
  - pose proof (reads_f64 v Hw) as Hr. unfold w_f64 in *. apply reads_peek_marker. cbn [Z.eqb Pos.eqb orb].
    eapply reads_bind_last; [exact Hr|apply reads_ret].
  - destruct (w_str_marker s) as (b & t & E & Hb).
    pose proof (reads_string s Hw) as Hr. rewrite E in *. apply reads_peek_marker.
    assert (((b =? 0xC2) || (b =? 0xC3)) = false) as -> by (unfold in_range in Hb; lia).
    assert ((b =? 0xCB) = false) as -> by (unfold in_range in Hb; lia).
    rewrite Hb. eapply reads_bind_last; [exact Hr|apply reads_ret].
Qed.

(** ** Round trip: the parameters of every command *)

(** What the decoder bounds and [validate] does not: the parameter count of a shape. *)
Definition fits_wire (cmd : Command) : bool :=
  match cmd with C_SetShapes p => forallb shape_fits (ss_shapes p) | _ => true end.

Lemma check_true b what why : check b what why = Ok tt -> b = true.
Proof. unfold check. by destruct b. Qed.

Lemma shape_error_ok m : shape_error m = Ok tt -> m = Ok tt.
Proof. by destruct m as [[]|[]]. Qed.

Lemma reads_SetShapes p : wt_SetShapes p = true -> validate_SetShapes p = Ok tt ->
  forallb shape_fits (ss_shapes p) = true ->
  reads decode_SetShapes (encode_params (C_SetShapes p)) (C_SetShapes p).
Proof.
  unfold wt_SetShapes, validate_SetShapes, decode_SetShapes. intros Hw Hv Hf. inv_ok.
  apply check_true in Hok. apply for_each_ok in Hv. cbn [encode_params].
  eapply (reads_bind_last _ _ _ (ss_shapes p)); [|destruct p; apply reads_ret].
  apply reads_seq; [done|by apply Z.leb_le|].
  rewrite forallb_forall in Hw, Hf. rewrite List.Forall_forall in Hv |- *.
  intros s Hs. specialize (Hv s Hs). inv_ok. apply shape_error_ok in Hv.
  apply reads_shape; auto.
Qed.

Lemma reads_waypoints what l : Z.of_nat (length l) <= MAX_WAYPOINTS ->
  forallb (is_f64s 6) l = true -> reads (r_waypoints what) (w_seq w_fixed l) l.
Proof.
  intros Hn Hl. apply reads_seq; [done|done|].
  eapply forallb_Forall; [|exact Hl]. intros x. apply reads_fixed6.
Qed.

Lemma waypoints_ok what l : waypoints what l = Ok tt -> 2 <= Z.of_nat (length l) <= MAX_WAYPOINTS.
Proof.
  unfold waypoints. intros H. inv_ok. apply check_true in Hok, Hok0. lia.
Qed.

Lemma reads_opt_enum what (o : option Frame) :
  reads (r_option (rd_enum what)) (w_option (fun f => w_uint (wire f)) o) o.
Proof.
  apply reads_option. intros f _. split; [apply reads_enum|].
  apply not_nil_uint. pose proof (wire_range f) as H. apply is_uint_spec in H. lia.
Qed.

Lemma reads_opt_string o : opt_ok is_string o = true ->
  reads (r_option rd_str) (w_option w_str o) o.
Proof.
  intros Ho. apply reads_option. intros s ->. split; [by apply reads_string|apply not_nil_str].
Qed.

Lemma reads_opt_fixed6 what o : opt_ok (is_f64s 6) o = true ->
  reads (r_option (r_fixed6 what)) (w_option w_fixed o) o.
Proof.
  intros Ho. apply reads_option. intros l ->. split; [by apply reads_fixed6|apply not_nil_seq].
Qed.
Lemma reads_frame (f : Frame) : reads r_frame (w_uint (wire f)) f.
Proof. apply reads_enum. Qed.
Lemma reads_policy what (p : CompletionPolicy) : reads (rd_enum what) (w_uint (wire p)) p.
Proof. apply reads_enum. Qed.
Lemma reads_assertion what (p : FlashingAssertion) : reads (rd_enum what) (w_uint (wire p)) p.
Proof. apply reads_enum. Qed.
#[export] Hint Resolve reads_opt_enum reads_opt_string reads_opt_fixed6 reads_frame reads_policy
  reads_assertion : reads.

(** Split the type and range hypotheses of one command, then read its fields. *)
Ltac reads_fields :=
  repeat reads_step;
  match goal with |- reads (rret _) [] (_ ?p) => destruct p; apply reads_ret end.

Lemma reads_WriteIo p : wt_WriteIo p = true ->
  reads decode_WriteIo (encode_params (C_WriteIo p)) (C_WriteIo p).
Proof.
  unfold wt_WriteIo. intros. bsplit. unfold decode_WriteIo. cbn [encode_params].
  eapply reads_bind; [by apply reads_uint|].
  eapply reads_bind; [apply reads_uint, (is_uint_weaken 8); done|].
  eapply reads_bind_last; [apply reads_uint, (is_uint_weaken 8); done|].
  rewrite H1, H0. destruct p. apply reads_ret.
Qed.

Lemma reads_SetPidGains p : wt_SetPidGains p = true ->
  reads decode_SetPidGains (encode_params (C_SetPidGains p)) (C_SetPidGains p).
Proof.
  unfold wt_SetPidGains. intros. bsplit. unfold decode_SetPidGains. cbn [encode_params].
  eapply reads_bind; [by apply reads_rd_try|].
  do 9 (eapply reads_bind; [by apply reads_f64|]).
  eapply reads_bind_last; [by apply reads_rd_try|]. destruct p. apply reads_ret.
Qed.

Lemma reads_node_cmds :
  (forall p, wt_SetCanId p = true -> validate_SetCanId p = Ok tt ->
     reads decode_SetCanId (encode_params (C_SetCanId p)) (C_SetCanId p)) /\
  (forall p, wt_SaveConfig p = true -> validate_SaveConfig p = Ok tt ->
     reads decode_SaveConfig (encode_params (C_SaveConfig p)) (C_SaveConfig p)) /\
  (forall p, wt_SetToolId p = true -> validate_SetToolId p = Ok tt ->
     reads decode_SetToolId (encode_params (C_SetToolId p)) (C_SetToolId p)).
Proof.
  unfold wt_SetCanId, wt_SaveConfig, wt_SetToolId, validate_SetCanId, validate_SaveConfig,
    validate_SetToolId, decode_SetCanId, decode_SaveConfig, decode_SetToolId.
  cbn [encode_params].
  repeat split; intros p Hw Hv; inv_ok; bsplit;
    repeat match goal with H : check _ _ _ = Ok tt |- _ => apply check_true in H end.
  - eapply reads_bind; [by apply reads_node_id|]. eapply reads_bind; [by apply reads_node_id|].
    reads_fields.
  - eapply reads_bind; [by apply reads_node_id|]. reads_fields.
  - eapply reads_bind; [by apply reads_node_id|]. eapply reads_bind; [by apply reads_rd_try|].
    reads_fields.
Qed.

Lemma is_f64s_length n l : is_f64s n l = true -> length l = n.
Proof. unfold is_f64s. intros H. bsplit. by apply Nat.eqb_eq. Qed.

Lemma reads_SetPayload p : wt_SetPayload p = true ->
  reads decode_SetPayload (encode_params (C_SetPayload p)) (C_SetPayload p).
Proof.
  unfold wt_SetPayload. intros. bsplit. unfold decode_SetPayload. cbn [encode_params].
  replace (w_array 3 ++ concat (map w_f64 (spl_com p)) ++ _) with
    (w_fixed (spl_com p) ++ w_option w_fixed (spl_inertia p)).
  - reads_fields.
  - unfold w_fixed, w_seq. rewrite (is_f64s_length 3 (spl_com p)), <- app_assoc by done.
    do 2 f_equal. destruct (spl_inertia p) as [i|]; [|done].
    cbn [w_option]. by rewrite (is_f64s_length 6 i).
Qed.

Lemma reads_Teleport p : wt_Teleport p = true -> validate_Teleport p = Ok tt ->
  reads decode_Teleport (encode_params (C_Teleport p)) (C_Teleport p).
Proof.
  unfold wt_Teleport, validate_Teleport. intros Hw Hv. bsplit. inv_ok. unfold decode_Teleport.
  cbn [encode_params]. eapply reads_bind; [by apply reads_fixed6|].
  apply (reads_bind_last _ _ _ (tp_tool_positions p)); [|destruct p; apply reads_ret].
  apply reads_option. intros l E. rewrite E in *. split; [|apply not_nil_seq]. inv_ok. apply check_true in Hok0.
  apply reads_vec_f64; [by apply Z.leb_le|done].
Qed.

Lemma reads_ToolAction p : wt_ToolAction p = true -> validate_ToolAction p = Ok tt ->
  reads decode_ToolAction (encode_params (C_ToolAction p)) (C_ToolAction p).
Proof.
  unfold wt_ToolAction, validate_ToolAction. intros Hw Hv. bsplit. inv_ok.
  apply check_true in Hok1. unfold decode_ToolAction. cbn [encode_params].
  do 3 reads_step. apply (reads_bind_last _ _ _ (ta_params p)); [|destruct p; apply reads_ret].
  apply reads_seq; [done|unfold MAX_VEC_ELEMS; lia|].
  eapply forallb_Forall; [|exact H0]. apply reads_tool_param.
Qed.

(** Structs whose fields are all read by the shared readers. *)
Lemma reads_plain cmd :
  wt_Command cmd = true ->
  match cmd with
  | C_SetShapes _ | C_WriteIo _ | C_SetPidGains _ | C_SetCanId _ | C_SaveConfig _ | C_SetToolId _
  | C_SetPayload _ | C_Teleport _ | C_ToolAction _ | C_MoveS _ | C_MoveP _ => True
  | _ => reads (decode_params (tag cmd)) (encode_params cmd) cmd
  end.
Proof.
  destruct cmd; intros Hw; try exact I; cbn [wt_Command] in Hw;
    cbn [decode_params tag encode_params]; try apply reads_ret.
  all: repeat match goal with H : ?f ?p = true |- _ => progress unfold f in H end; bsplit.
  all: lazymatch goal with
       | |- reads (rbnd _ _) _ _ => idtac
       | |- reads ?d _ _ => unfold d
       end.
  all: try reads_fields.
Qed.

Lemma reads_MoveS p : wt_MoveS p = true -> validate_MoveS p = Ok tt ->
  reads decode_MoveS (encode_params (C_MoveS p)) (C_MoveS p).
Proof.
  unfold wt_MoveS, validate_MoveS, decode_MoveS. intros Hw Hv. bsplit. inv_ok. cbn [encode_params].
  apply waypoints_ok in Hok as [_ Hok]. reads_step.
  eapply reads_bind; [by apply reads_waypoints|]. reads_fields.
Qed.

Lemma reads_MoveP p : wt_MoveP p = true -> validate_MoveP p = Ok tt ->
  reads decode_MoveP (encode_params (C_MoveP p)) (C_MoveP p).
Proof.
  unfold wt_MoveP, validate_MoveP, decode_MoveP. intros Hw Hv. bsplit. inv_ok. cbn [encode_params].
  apply waypoints_ok in Hok as [_ Hok]. reads_step.
  eapply reads_bind; [by apply reads_waypoints|]. reads_fields.
Qed.

(** Every command: its parameters are read back. *)
Lemma reads_params cmd :
  wt_Command cmd = true -> validate cmd = Ok tt -> fits_wire cmd = true ->
  reads (decode_params (tag cmd)) (encode_params cmd) cmd.
Proof.
  intros Hw Hv Hf. destruct reads_node_cmds as (Hc & Hs & Ht).
  pose proof (reads_plain cmd Hw) as Hp.
  destruct cmd; try exact Hp; cbn [wt_Command validate fits_wire decode_params tag] in *;
    auto using reads_SetShapes, reads_WriteIo, reads_SetPidGains, reads_SetPayload, reads_Teleport,
      reads_ToolAction, reads_MoveS, reads_MoveP.
Qed.

Lemma arity_range t : 2 <= arity t < 16.
Proof. destruct t; simpl; lia. Qed.

Lemma reads_tag (t : CmdType) : reads rd_tag (w_uint (wire t)) t.
Proof.
  pose proof (wire_range t) as Ht. apply is_uint_spec in Ht as Hr.
  replace (w_uint (wire t)) with (w_int (wire t)) by (unfold w_int; zdecide; done).
  unfold rd_tag. eapply reads_bind_last; [apply reads_int, is_sint_spec; lia|].
  rewrite from_wire_wire. apply reads_ret.
Qed.

(** ** What a decoded command satisfies *)

(** Type, tag and wire bounds of a decoded command. *)
Definition wt_for (t : CmdType) (cmd : Command) : Prop :=
  tag cmd = t /\ wt_Command cmd = true /\ fits_wire cmd = true.

Lemma yields_rd_try w what why : yields (rd_try w what why) (fun v => is_uint w v = true).
Proof.
  unfold rd_try. yields_step. apply yields_if; intros H0; [by apply yields_ret|apply yields_fail].
Qed.

Lemma Forall_forallb {A} (p : A -> bool) l : Forall (fun x => p x = true) l -> forallb p l = true.
Proof. intros H. rewrite forallb_forall. by rewrite List.Forall_forall in H. Qed.

Lemma yields_fixed n what : yields (r_fixed n what) (fun l => is_f64s n l = true).
Proof.
  unfold r_fixed. yields_step. apply yields_if; intros _; [apply yields_fail|].
  eapply yields_weaken; [apply yields_rep, yields_f64|]. intros l [Hl Hn].
  unfold is_f64s. rewrite Hn, Nat.eqb_refl. by apply Forall_forallb.
Qed.

Lemma yields_node_id what : yields (r_node_id what) (fun v => is_uint 8 v = true).
Proof.
  unfold r_node_id. yields_step. apply yields_if; intros Hb; [|apply yields_fail].
  apply yields_ret. by bsplit.
Qed.

Lemma yields_seq {A} what max (m : Rd A) P :
  yields m P -> yields (r_seq what max m) (fun l => Forall P l /\ Z.of_nat (length l) <= Z.max 0 max).
Proof.
  intros Hm. unfold r_seq, r_len.
  eapply (yields_bind _ _ (fun n => n <= max)).
  - yields_step. eapply (yields_bind _ _ (fun _ => a <= max)).
    + apply yields_lift. intros u Hu. destruct u. apply check_true in Hu. lia.
    + intros _ Ha. by apply yields_ret.
  - intros n Hn. eapply yields_weaken; [by apply yields_rep|]. intros l [Hl Hlen].
    split; [done|]. lia.
Qed.

Lemma yields_option {A} (m : Rd A) (p : A -> bool) :
  yields m (fun a => p a = true) -> yields (r_option m) (fun o => opt_ok p o = true).
Proof.
  intros Hm. unfold r_option. yields_step. apply yields_if; intros _.
  - yields_step. by apply yields_ret.
  - eapply yields_bind; [exact Hm|]. intros v Hv. by apply yields_ret.
Qed.

Lemma yields_vec_f64 what : yields (r_vec_f64 what)
  (fun l => forallb (is_uint 64) l = true /\ Z.of_nat (length l) <= MAX_VEC_ELEMS).
Proof.
  eapply yields_weaken; [apply yields_seq, yields_f64|]. intros l [Hl Hn].
  split; [by apply Forall_forallb|]. exact Hn.
Qed.

Lemma yields_fixed3 what : yields (r_fixed3 what) (fun l => is_f64s 3 l = true).
Proof. apply yields_fixed. Qed.
Lemma yields_fixed6 what : yields (r_fixed6 what) (fun l => is_f64s 6 l = true).
Proof. apply yields_fixed. Qed.
Lemma yields_frame : yields r_frame (fun _ => True).
Proof. apply yields_enum. Qed.
Lemma yields_opt_frame : yields (r_option r_frame) (fun _ => True).
Proof.
  eapply yields_weaken; [apply (yields_option _ (fun _ => true))|done].
  eapply yields_weaken; [apply yields_frame|done].
Qed.
Lemma yields_policy what : yields (rd_enum what : Rd CompletionPolicy) (fun _ => True).
Proof. apply yields_enum. Qed.
Lemma yields_assertion what : yields (rd_enum what : Rd FlashingAssertion) (fun _ => True).
Proof. apply yields_enum. Qed.
Lemma yields_opt_str : yields (r_option rd_str) (fun o => opt_ok is_string o = true).
Proof. apply yields_option, yields_str. Qed.
Lemma yields_opt_fixed6 what :
  yields (r_option (r_fixed6 what)) (fun o => opt_ok (is_f64s 6) o = true).
Proof. apply yields_option, yields_fixed. Qed.
Lemma yields_opt_vec what :
  yields (r_option (r_vec_f64 what)) (fun o => opt_ok (forallb (is_uint 64)) o = true).
Proof. apply yields_option. eapply yields_weaken; [apply yields_vec_f64|]. by intros l [Hl _]. Qed.
Lemma yields_waypoints what :
  yields (r_waypoints what) (fun l => forallb (is_f64s 6) l = true).
Proof.
  eapply yields_weaken; [apply yields_seq, yields_fixed6|]. intros l [Hl _].
  by apply Forall_forallb.
Qed.

#[export] Hint Resolve yields_rd_try yields_fixed3 yields_fixed6 yields_node_id yields_vec_f64
  yields_frame yields_opt_frame yields_policy yields_assertion yields_opt_str yields_opt_fixed6
  yields_opt_vec yields_waypoints : yields.

Lemma yields_physics : yields r_physics (fun o => opt_ok wt_Physical o = true).
Proof.
  apply yields_option. yields_step. apply yields_if; intros _; [apply yields_fail|].
  repeat yields_step. unfold wt_Physical. simpl. by bsplit.
Qed.

Lemma yields_attachment : yields r_attachment (fun a => wt_Attachment a = true).
Proof.
  unfold r_attachment. yields_step. apply yields_if; intros _; [apply yields_fail|].
  yields_step. eapply yields_bind; [apply yields_seq, yields_str|]. intros l [Hl _].
  apply yields_ret. unfold wt_Attachment. simpl. bsplit; [done|]. by apply Forall_forallb.
Qed.

Lemma yields_shape : yields r_shape (fun s => wt_Shape s && shape_fits s = true).
Proof.
  unfold r_shape. yields_step. apply yields_if; intros _; [apply yields_fail|].
  yields_step. eapply yields_bind; [apply yields_vec_f64|]. intros ps [Hps Hn].
  eapply yields_bind; [apply yields_vec_f64|]. intros pose [Hpose _].
  do 3 yields_step.
  eapply (yields_bind _ _ (fun o => opt_ok wt_Physical o = true)).
  { apply yields_if; intros _; [apply yields_physics|by apply yields_ret]. }
  intros ph Hph. eapply (yields_bind _ _ (fun o => opt_ok wt_Attachment o = true)).
  { apply yields_if; intros _; [apply yields_option, yields_attachment|by apply yields_ret]. }
  intros att Hatt. cbv zeta. eapply (yields_bind _ _ (fun _ => True)); [by apply yields_lift|].
  intros _ _. apply yields_ret. unfold wt_Shape, shape_fits. simpl. bsplit; try done. by apply Z.leb_le.
Qed.

Lemma yields_tool_param : yields r_tool_param (fun tp => wt_ToolParam tp = true).
Proof. unfold r_tool_param. repeat yields_step; done. Qed.

(** The struct decoders that need no bespoke step. *)
Lemma yields_params_plain t :
  match t with
  | T_SetShapes | T_WriteIo | T_ToolAction => True
  | _ => yields (decode_params t) (wt_for t)
  end.
Proof.
  destruct t; try exact I; cbn [decode_params];
    lazymatch goal with
    | |- yields (rbnd _ _) _ => idtac
    | |- yields (rret _) _ => idtac
    | |- yields ?d _ => unfold d
    end.
  all: repeat yields_step.
  all: split; [done|split; [|done]]; cbn [wt_Command];
    try lazymatch goal with |- ?f ?p = true => unfold f end; cbn; bsplit; done.
Qed.

Lemma yields_params t : yields (decode_params t) (wt_for t).
Proof.
  pose proof (yields_params_plain t) as Hp. destruct t; try exact Hp; cbn [decode_params].
  - unfold decode_WriteIo. do 3 yields_step.
    repeat (apply yields_if; intros ?Hb; [apply yields_fail|]).
    apply yields_ret. apply negb_false_iff in Hb, Hb0. split; [done|split; [|done]].
    cbn. unfold wt_WriteIo. simpl. by bsplit.
  - unfold decode_SetShapes. eapply yields_bind; [apply yields_seq, yields_shape|].
    intros l [Hl _]. apply yields_ret. split; [done|].
    apply Forall_forallb in Hl. cbn. unfold wt_SetShapes. simpl.
    rewrite forallb_forall in Hl. rewrite !forallb_forall.
    split; intros s Hs; specialize (Hl s Hs); by bsplit.
  - unfold decode_ToolAction. do 3 yields_step.
    eapply yields_bind; [apply yields_seq, yields_tool_param|]. intros l [Hl _].
    apply yields_ret. split; [done|split; [|done]]. cbn. unfold wt_ToolAction. simpl.
    bsplit; try done. by apply Forall_forallb.
Qed.

Lemma yields_rd_tag : yields rd_tag (fun _ => True).
Proof. unfold rd_tag. yields_step. destruct (from_wire a); [by apply yields_ret|done]. Qed.

Lemma yields_rd_command :
  yields rd_command (fun '(req, cmd) =>
    is_uint 32 req = true /\ wt_Command cmd = true /\ fits_wire cmd = true /\ validate cmd = Ok tt).
Proof.
  unfold rd_command. yields_step. apply yields_if; intros _; [apply yields_fail|].
  eapply yields_bind; [apply yields_rd_tag|]. intros t _. cbv zeta.
  apply yields_if; intros _; [apply yields_fail|].
  yields_step. eapply yields_bind; [apply yields_params|]. intros cmd (_ & Hw & Hf).
  yields_step. eapply (yields_bind _ _ (fun _ => validate cmd = Ok tt)).
  - apply yields_lift. by intros [] ?.
  - intros _ Hv. by apply yields_ret.
Qed.

(** ** Theorems *)

(** C28: a command its types allow and [validate] accepts, written by
    [encode_command] with a request id, is what [decode_command] returns for the
    datagram, with the same request id: no command is lost, reordered or altered
    on the wire.  [fits_wire] is the one bound the decoder adds. *)
Theorem encode_decode_command cmd req buf bs :
  wt_Command cmd = true -> fits_wire cmd = true -> is_uint 32 req = true ->
  encode_command cmd req buf = (Ok tt, bs) -> slice_ok bs ->
  decode_command bs = Ok (req, cmd).
Proof.
  intros Hw Hf Hreq He Hok. unfold encode_command in He.
  destruct (validate cmd) as [[]|] eqn:Hv; [|done]. injection He as <-.
  pose proof (arity_range (tag cmd)) as Ha. unfold decode_command.
  rewrite (reads_end_run rd_command _ (req, cmd)); [done|done|]. unfold rd_command.
  eapply reads_end_bind; [apply reads_array_len, is_uint_spec; lia|]. zdecide.
  eapply reads_end_bind; [apply reads_tag|]. cbv zeta. rewrite Z.eqb_refl. cbn [negb].
  eapply reads_end_bind; [by apply reads_rd_try|].
  eapply reads_end_last; [by apply reads_params|].
  apply reads_end_finish. eapply reads_bind_last; [by apply reads_lift|apply reads_ret].
Qed.

(** A concrete blend move and its datagram. *)
Definition sample_move : Command :=
  C_MoveJ (mkMoveJ 7 [f64_0; f64_1; f64_m1; f64_0_1; f64_60; f64_0] None (Some f64_0_1) None
             (Some f64_1) false).
Definition sample_datagram : bytes := snd (encode_command sample_move 513 []).

Lemma encode_decode_command_witness :
  decode_command sample_datagram = Ok (513, sample_move).
Proof.
  apply (encode_decode_command sample_move 513 [] sample_datagram);
    [reflexivity|reflexivity|reflexivity|vm_compute; reflexivity|vm_compute; reflexivity].
Defined.

(** C32: whatever the bytes of a datagram, a command that [decode_command]
    returns is well typed, its request id fits [u32] and [validate] accepts it:
    nothing downstream of the decoder sees a command out of range. *)
Theorem decode_command_sound data req cmd :
  is_bytes data = true -> decode_command data = Ok (req, cmd) ->
  is_uint 32 req = true /\ wt_Command cmd = true /\ fits_wire cmd = true /\ validate cmd = Ok tt.
Proof.
  intros Hd. unfold decode_command.
  pose proof (yields_rd_command (reader_new data)) as Hy.
  destruct (rd_command (reader_new data)) as [[[r c] rest]|]; [|done].
  intros [= -> ->]. apply Hy. split; [done|]. simpl. pose proof (blen_nonneg data). lia.
Qed.

Lemma decode_command_sound_witness :
  is_uint 32 513 = true /\ wt_Command sample_move = true /\ fits_wire sample_move = true /\
  validate sample_move = Ok tt.
Proof.
  apply (decode_command_sound sample_datagram); vm_compute; reflexivity.
Defined.

(** A command that fails validation leaves the caller's buffer untouched and
    the error is the one [validate] gave; encoding fails in no other way. *)
Lemma encode_command_error cmd req buf e bs :
  encode_command cmd req buf = (Err e, bs) <-> validate cmd = Err e /\ bs = buf.
Proof.
  unfold encode_command. destruct (validate cmd) as [[]|e'].
  - split; [done|]. by intros [? _].
  - split; [intros [= -> ->]; done|]. by intros [[= ->] ->].
Qed.

(** A shape with 17 parameters: validated, and refused by the decoder. *)
Definition long_shape : Shape :=
  mkShape (str_bytes "box") (replicate 17 f64_1) (replicate 6 f64_0) true None [] None None.
Definition long_shapes : Command := C_SetShapes (mkSetShapes [long_shape]).

(** The round trip does need the bound on shape parameters: a shape with 17
    of them is well typed, validates and is encoded without an error, and the
    datagram is refused by [decode_command]. *)
Lemma shape_params_not_validated :
  wt_Command long_shapes = true /\ validate long_shapes = Ok tt /\
  fst (encode_command long_shapes 1 []) = Ok tt /\
  decode_command (snd (encode_command long_shapes 1 [])) =
    Err (Validation "shape.params" (WFmtUsize "at most " 16 " elements")).
Proof. vm_compute. repeat split. Qed.

(** ** Motion parameters that pass *)

(** The timing fields of a planned move: duration, speed, acceleration. *)
Definition move_timing (cmd : Command) : option (option f64 * option f64 * option f64) :=
  match cmd with
  | C_MoveJ p => Some (mj_duration p, mj_speed p, mj_accel p)
  | C_MoveJPose p => Some (mjp_duration p, mjp_speed p, mjp_accel p)
  | C_MoveL p => Some (ml_duration p, ml_speed p, ml_accel p)
  | C_MoveC p => Some (mc_duration p, mc_speed p, mc_accel p)
  | C_MoveS p => Some (ms_duration p, ms_speed p, ms_accel p)
  | C_MoveP p => Some (mp_duration p, mp_speed p, mp_accel p)
  | _ => None
  end.

(** [0 < v <= bound] on the numbers two patterns denote. *)
Definition in_unit (bound v : f64) : Prop := 0 < v <= bound.

Lemma bounded_ok (what : string) (why : Why) (v bound : f64) :
  is_uint 64 v = true -> 0 < bound < f64_inf ->
  finite what v = Ok tt -> check (f64_gt v f64_0 && f64_le v bound) what why = Ok tt ->
  in_unit bound v.
Proof.
  unfold finite. intros Hv Hb Hf Hc. apply check_true in Hf, Hc. bsplit.
  assert (0 < v < f64_inf) as Hp by (apply f64_pos_finite; [done|by rewrite Hf]).
  rewrite f64_le_pos in H0 by done. unfold in_unit. lia.
Qed.

Lemma frac_ok what v : is_uint 64 v = true -> frac what v = Ok tt -> in_unit f64_1 v.
Proof. unfold frac. intros Hv H. inv_ok. by eapply bounded_ok. Qed.

Lemma opt_frac_ok what o v : is_opt (is_uint 64) o = true -> opt_frac what o = Ok tt ->
  o = Some v -> in_unit f64_1 v.
Proof. intros Hw Hf ->. by eapply frac_ok. Qed.

Lemma bounded_duration_ok what v max : is_uint 64 v = true -> 0 < max < f64_inf ->
  bounded_duration what v max = Ok tt -> in_unit max v.
Proof. unfold bounded_duration. intros Hv Hm H. inv_ok. by eapply bounded_ok. Qed.

(** A move is timed by a duration or by a speed, each inside its bound. *)
Definition timed (d s a : option f64) : Prop :=
  ((exists v, d = Some v /\ s = None /\ in_unit MAX_DURATION_S v) \/
   (exists v, d = None /\ s = Some v /\ in_unit f64_1 v)) /\
  (forall v, a = Some v -> in_unit f64_1 v).

Lemma motion_timing_ok what d s a :
  is_opt (is_uint 64) d = true -> is_opt (is_uint 64) s = true -> is_opt (is_uint 64) a = true ->
  motion_timing what d s a = Ok tt -> timed d s a.
Proof.
  unfold motion_timing, duration. intros Hd Hs Ha H. inv_ok. split.
  - destruct d as [d|], s as [s|]; try done.
    + left. exists d. repeat split; apply bounded_duration_ok in Hok; try done; apply Hok.
    + right. exists s. repeat split; apply frac_ok in Hok; try done; apply Hok.
  - intros v Hv. by eapply opt_frac_ok.
Qed.

(** A planned move that comes out of the decoder is timed by exactly one of
    duration and speed; the duration is in (0, 3600] seconds, the speed and the
    acceleration fractions are in (0, 1]: never a NaN, an infinity or a zero
    that a trajectory generator would divide by. *)
Lemma decoded_move_is_timed data req cmd d s a :
  is_bytes data = true -> decode_command data = Ok (req, cmd) ->
  move_timing cmd = Some (d, s, a) -> timed d s a.
Proof.
  intros Hb Hd Hm. pose proof (yields_rd_command (reader_new data)) as Hy.
  unfold decode_command in Hd. destruct (rd_command _) as [[[r c] rest]|]; [|done].
  injection Hd as -> ->. destruct Hy as [(_ & Hw & _ & Hv) _].
  { split; [done|]. simpl. pose proof (blen_nonneg data). lia. }
  destruct cmd as []; try done; injection Hm as <- <- <-; cbn [wt_Command validate] in Hw, Hv;
    match type of Hw with ?f ?p = true => unfold f in Hw end;
    match type of Hv with ?f ?p = _ => unfold f in Hv end; inv_ok; bsplit;
    eapply motion_timing_ok; eassumption.
Qed.

Lemma decoded_move_is_timed_witness : timed None (Some f64_0_1) None.
Proof.
  apply (decoded_move_is_timed sample_datagram 513 sample_move); vm_compute; reflexivity.
Defined.

(** ** Envelope peeks *)

Lemma get_slice_take data pos n s : 0 <= pos -> 0 <= n -> slice_ok data ->
  get_slice data pos n = Some s -> rd_take n (Reader data pos) = Ok (s, Reader data (pos + n)).
Proof.
  unfold get_slice, rd_take, checked_add_usize, slice_ok, u64_max. intros Hp Hn Hok.
  destruct (Z.leb_spec (pos + n) (blen data)); [|done]. intros [= <-]. cbn [rd_data rd_pos].
  by zdecide.
Qed.

(** What the hand-rolled [fn uint] accepts, [Reader::uint] accepts alike. *)
Lemma peek_uint_rd data pos v pos' : is_bytes data = true -> 0 <= pos -> slice_ok data ->
  peek_uint data pos = Some (v, pos') ->
  rd_uint (Reader data pos) = Ok (v, Reader data pos') /\ pos < pos'.
Proof.
  intros Hb Hp Hok. unfold peek_uint, rd_uint, rbnd at 1, rd_byte at 1. cbn [rd_data rd_pos].
  destruct (data !! Z.to_nat pos) as [b|] eqn:E; [|done]. simpl.
  destruct (in_range 0 b 127); [by intros [= <- <-]; split; [|lia]|].
  destruct (b =? 0xCC).
  { unfold rd_byte. cbn [rd_data rd_pos].
    destruct (data !! Z.to_nat (pos + 1)) as [x|]; [|done]. intros [= <- <-]. by split; [|lia]. }
  repeat match goal with
  | |- context [if ?c =? ?d then _ else _] => destruct (c =? d)
  | |- context [get_slice data (pos + 1) ?n] =>
      destruct (get_slice data (pos + 1) n) as [s|] eqn:Es; [|done];
      apply get_slice_take in Es; [|lia|lia|done]; intros [= <- <-];
      unfold rd_be_u16, rd_be_u32, rd_be_u64, rd_be, rbnd; rewrite Es; split; [done|lia]
  end. done.
Qed.

(** The signed reader agrees where it accepts. *)
Lemma rd_uint_int r v r1 v' r2 :
  rd_ok r -> rd_uint r = Ok (v, r1) -> rd_int r = Ok (v', r2) -> v' = v /\ r2 = r1.
Proof.
  intros Hr. unfold rd_uint, rd_int, rbnd. pose proof (yields_byte r Hr) as Hy.
  destruct (rd_byte r) as [[m r']|]; [|done]. destruct Hy as [Hm _].
  unfold is_uint in Hm.
  repeat match goal with
  | |- context [if in_range ?a m ?b then _ else _] => destruct (in_range a m b) eqn:?
  | |- context [if m =? ?d then _ else _] => destruct (Z.eqb_spec m d)
  end; unfold rret, rd_type_err, in_range in *; try (intros; split; congruence); try lia.
  destruct (rd_be_u64 r') as [[x r'']|]; [|done].
  destruct (x <=? 2 ^ 63 - 1); intros; split; congruence.
Qed.

Lemma rd_be_pos n data pos v r :
  rd_be n (Reader data pos) = Ok (v, r) -> r = Reader data (pos + n).
Proof.
  unfold rd_be, rbnd, rd_take, checked_add_usize, rret. cbn [rd_data rd_pos].
  destruct (pos + n <=? u64_max); [|done]. destruct (_ <=? _); [|done]. by intros [= _ <-].
Qed.

Lemma array_len_pos data n r b : rd_array_len (reader_new data) = Ok (n, r) ->
  data !! 0%nat = Some b ->
  r = Reader data (if in_range 0x90 b 0x9F then 1 else if b =? 0xDC then 3 else 5).
Proof.
  unfold rd_array_len, rbnd at 1, rd_byte, reader_new. cbn [rd_data rd_pos].
  change (Z.to_nat 0) with 0%nat. intros H E. rewrite E in H.
  destruct (in_range 144 b 159); [by injection H as <- <-|].
  destruct (b =? 0xDC); [|destruct (b =? 0xDD); [|done]]; by apply rd_be_pos in H.
Qed.

(** When a datagram does decode and [peek_req_id] reads a request id from
    it, it is the id of the decoded command: the salvage path never correlates a
    reply with another request. *)
Lemma peek_req_id_agrees data req cmd id :
  is_bytes data = true -> slice_ok data ->
  decode_command data = Ok (req, cmd) -> peek_req_id data = Some id -> id = req.
Proof.
  intros Hb Hok Hd Hp. unfold peek_req_id in Hp.
  destruct (data !! 0%nat) as [b|] eqn:E0; [|done]. simpl in Hp.
  unfold decode_command, rd_command, rbnd at 1 in Hd.
  pose proof (yields_array_len (reader_new data)) as Hy.
  destruct (rd_array_len (reader_new data)) as [[n r]|] eqn:Hn; [|done].
  destruct Hy as (_ & Hr & _).
  { split; [done|]. simpl. pose proof (blen_nonneg data). lia. }
  pose proof (array_len_pos _ _ _ _ Hn E0) as ->.
  destruct (n <? 2); [done|]. 
  set (p := if in_range 144 b 159 then 1 else if b =? 220 then 3 else 5) in *.
  assert (0 <= p) by (unfold p; repeat case_match; lia).
  destruct (peek_uint data p) as [[v p1]|] eqn:E1.
  2: { unfold p in E1. destruct (in_range 144 b 159), (b =? 220), (b =? 221); simpl in Hp; by rewrite ?E1 in Hp. }
  assert (exists p2, peek_uint data p1 = Some (id, p2) /\ is_uint 32 id = true) as (p2 & E2 & Hid).
  { assert (('(x, _) ← peek_uint data p1; if is_uint 32 x then Some x else None) = Some id) as Hq.
    { unfold p in E1. destruct (in_range 144 b 159), (b =? 220), (b =? 221); simpl in Hp;
        rewrite ?E1 in Hp; done. }
    destruct (peek_uint data p1) as [[x p2]|]; [|done]. simpl in Hq.
    destruct (is_uint 32 x) eqn:Ex; [|done]. injection Hq as ->. eauto. }
  apply peek_uint_rd in E1 as [E1 Hlt1]; [|done..].
  apply peek_uint_rd in E2 as [E2 _]; [|done|lia|done].
  unfold rd_tag, rbnd at 1 2 in Hd.
  destruct (rd_int (Reader data p)) as [[raw r1]|] eqn:Hi; [|done].
  destruct (rd_uint_int _ _ _ _ _ Hr E1 Hi) as [-> ->].
  destruct (from_wire v) as [t|]; [|done]. cbn in Hd.
  destruct (negb (n =? arity t)); [done|].
  unfold rd_try, rbnd in Hd. rewrite E2 in Hd. rewrite Hid in Hd. cbn in Hd.
  destruct (decode_params t _) as [[c r2]|]; [|done]. destruct (rd_finish r2) as [[u r3]|]; [|done].
  destruct (rlift (validate c) r3) as [[u' r4]|]; [|done]. cbn in Hd. by injection Hd as <- _.
Qed.

Lemma peek_req_id_agrees_witness : peek_req_id sample_datagram = Some 513 /\ 513 = 513.
Proof.
  split; [vm_compute; reflexivity|].
  apply (peek_req_id_agrees sample_datagram 513 sample_move 513); vm_compute; reflexivity.
Defined.

Lemma lookup_blen pre b t : (pre ++ b :: t) !! Z.to_nat (blen pre) = Some b.
Proof. unfold blen. by rewrite Nat2Z.id, lookup_app_r, Nat.sub_diag by lia. Qed.

Lemma get_slice_app pre s rest n : n = blen s -> get_slice (pre ++ s ++ rest) (blen pre) n = Some s.
Proof.
  intros ->. unfold get_slice. rewrite !blen_app. pose proof (blen_nonneg rest). zdecide.
  f_equal. unfold blen. by rewrite !Nat2Z.id, drop_app_length, take_app_length.
Qed.

(** One multi-byte encoding: the marker, then [n] bytes. *)
Lemma peek_be pre m n v rest : is_uint (8 * Z.of_nat n) v = true ->
  (s ← get_slice (pre ++ (m :: be_bytes n v) ++ rest) (blen pre + 1) (Z.of_nat n);
   Some (from_be s, blen pre + 1 + Z.of_nat n)) =
  Some (v, blen pre + blen (m :: be_bytes n v)).
Proof.
  intros Hv. replace (blen pre + 1) with (blen (pre ++ [m])) by (by rewrite blen_app).
  replace (pre ++ (m :: be_bytes n v) ++ rest) with ((pre ++ [m]) ++ be_bytes n v ++ rest)
    by (by rewrite <- app_assoc).
  rewrite (get_slice_app _ (be_bytes n v)) by (by rewrite blen_be). cbn [mbind option_bind].
  rewrite from_be_be_bytes by done. rewrite blen_app, (blen_cons m (be_bytes n v)), blen_be.
  change (blen [m]) with 1. do 2 f_equal. lia.
Qed.

Lemma peek_uint_w_uint v pre rest : is_uint 64 v = true ->
  peek_uint (pre ++ w_uint v ++ rest) (blen pre) = Some (v, blen pre + blen (w_uint v)).
Proof.
  intros Hv. apply is_uint_spec in Hv as Hr. unfold peek_uint, w_uint.
  destruct (Z.ltb_spec v 0x80); [|destruct (Z.leb_spec v 0xFF); [|destruct (Z.leb_spec v 0xFFFF);
    [|destruct (Z.leb_spec v 0xFFFFFFFF)]]]; rewrite ?wrap_small by (apply is_uint_spec; lia);
    rewrite <- ?app_comm_cons; rewrite lookup_blen; cbn [mbind option_bind].
  - replace (in_range 0 v 127) with true by (unfold in_range; lia). done.
  - change (in_range 0 0xCC 127) with false. change (0xCC =? 0xCC) with true. cbn iota.
    pose proof (lookup_blen (pre ++ [0xCC]) v rest) as E. rewrite <- app_assoc, blen_app in E.
    cbn [app] in E. change (blen [0xCC]) with 1 in E. cbn [app]. rewrite E.
    cbn [mbind option_bind]. change (blen [0xCC; v]) with 2. do 2 f_equal. lia.
  - apply (peek_be pre 0xCD 2). apply is_uint_spec. lia.
  - apply (peek_be pre 0xCE 4). apply is_uint_spec. lia.
  - apply (peek_be pre 0xCF 8). apply is_uint_spec. lia.
Qed.

(** The request id is salvaged from any datagram whose header, tag and
    request id are intact, whatever bytes follow them: the error the server sends
    back correlates even when the parameters are garbage. *)
Lemma peek_req_id_salvages (t : CmdType) req rest :
  is_uint 32 req = true ->
  peek_req_id (w_array (arity t) ++ w_uint (wire t) ++ w_uint req ++ rest) = Some req.
Proof.
  intros Hreq. pose proof (arity_range t) as Ha. pose proof (wire_range t) as Ht.
  apply (is_uint_weaken 16 64) in Ht; [|lia]. unfold peek_req_id.
  assert (w_array (arity t) = [0x90 + arity t]) as ->.
  { unfold w_array. zdecide. rewrite wrap_small by (apply is_uint_spec; lia).
    change (Z.lor 0x90 (arity t)) with (Z.lor (9 * 2 ^ 4) (arity t)). rewrite lor_marker; [done|lia|lia]. }
  cbn [app lookup list_lookup mbind option_bind].
  replace (in_range 0x90 (0x90 + arity t) 0x9F) with true by (unfold in_range; lia).
  cbn [mbind option_bind].
  pose proof (peek_uint_w_uint (wire t) [0x90 + arity t] (w_uint req ++ rest) Ht) as E1.
  cbn [app] in E1. change (blen [_]) with 1 in E1. rewrite E1. cbn [mbind option_bind].
  pose proof (peek_uint_w_uint req ([0x90 + arity t] ++ w_uint (wire t)) rest
    (is_uint_weaken 32 64 _ ltac:(lia) Hreq)) as E2.
  rewrite <- app_assoc, blen_app in E2. cbn [app] in E2. change (blen [_]) with 1 in E2.
  rewrite E2. cbn [mbind option_bind]. by rewrite Hreq.
Qed.

Lemma peek_req_id_salvages_witness :
  peek_req_id (w_array 9 ++ w_uint (wire T_MoveJ) ++ w_uint 513 ++ [0xC1; 0xC1]) = Some 513.
Proof. apply (peek_req_id_salvages T_MoveJ 513 [0xC1; 0xC1]). reflexivity. Defined.
