(* ===== verification/Chunk.v ===== *)
(** * Chunk: bulk transfers (crates/par6-proto/src/chunk.rs)

    A command datagram too large for one packet is split into chunk envelopes;
    the server reassembles them, whatever their order, under a bound on the open
    transfers and on the bytes of each.  A [BTreeMap] is a strictly sorted
    association list; the [HashMap] of transfers is a [gmap]; an instant is a
    number of nanoseconds. *)
From Stdlib Require Import Sorted.
From stdpp Require Import gmap sorting.
From S2P Require Import Prelude F64 Wire Enums CommandCodec.

Definition MAX_TRANSFER_BYTES : Z := 4 * 1024 * 1024.
Definition MAX_TRANSFERS_IN_FLIGHT : nat := 8.

Record Chunk := mkChunk {
  ch_req_id : Z;
  ch_transfer_id : Z;
  ch_index : Z;
  ch_total : Z;
  ch_data : bytes;
}.

(** ** Envelopes *)

Definition encode_chunk (c : Chunk) : bytes :=
  w_array 6 ++ w_uint (wire MT_Chunk) ++ w_uint (ch_req_id c) ++ w_uint (ch_transfer_id c) ++
  w_uint (ch_index c) ++ w_uint (ch_total c) ++ w_bin (ch_data c).

Definition rd_chunk : Rd Chunk :=
  let* n := rd_array_len in
  if negb (n =? 6) then rfail (Arity "chunk envelope" 6 n)
  else
  let* raw := rd_int in
  if negb (raw =? wire MT_Chunk) then rfail (UnknownTag raw)
  else
  let* req_id := rd_try 32 "chunk.req_id" (WText "exceeds u32") in
  let* transfer_id := rd_try 32 "chunk.transfer_id" (WText "exceeds u32") in
  let* index := rd_try 16 "chunk.index" (WText "exceeds u16") in
  let* total := rd_try 16 "chunk.total" (WText "exceeds u16") in
  let* payload := rd_bin in
  let* _ := rd_finish in
  if total =? 0 then rfail (Validation "chunk.total" (WText "must be >= 1"))
  else if index >=? total then rfail (Validation "chunk.index" (WText "must be < total"))
  else rret (mkChunk req_id transfer_id index total payload).

Definition decode_chunk (data : bytes) : result DecodeError Chunk :=
  match rd_chunk (reader_new data) with Ok (c, _) => Ok c | Err e => Err e end.

(** ** The reassembler *)

Inductive ChunkError :=
| TotalMismatch (expected got : Z)
| TooManyTransfers (in_flight : nat)
| ReqIdMismatch (expected got : Z)
| TooLarge.

Record Assembled := mkAssembled { as_req_id : Z; as_transfer_id : Z; as_payload : bytes }.

Record Expired := mkExpired {
  xp_req_id : Z;
  xp_transfer_id : Z;
  xp_received : Z;
  xp_total : Z;
}.

(** [BTreeMap::insert] of a fresh key. *)
Fixpoint bt_insert (k : Z) (v : bytes) (l : list (Z * bytes)) : list (Z * bytes) :=
  match l with
  | [] => [(k, v)]
  | (k', v') :: l' => if k <? k' then (k, v) :: l else (k', v') :: bt_insert k v l'
  end.

Definition bt_contains (k : Z) (l : list (Z * bytes)) : bool :=
  existsb (fun '(k', _) => k' =? k) l.

Record Transfer := mkTransfer {
  tr_req_id : Z;
  tr_total : Z;
  tr_bytes : Z;
  tr_parts : list (Z * bytes);
  tr_last_activity : Z;
}.

Record Reassembler := mkReassembler { ra_timeout : Z; ra_transfers : gmap Z Transfer }.

Definition reassembler_new (timeout : Z) : Reassembler := mkReassembler timeout ∅.

Definition ra_set (r : Reassembler) (m : gmap Z Transfer) : Reassembler :=
  mkReassembler (ra_timeout r) m.

(** The transfer's own bookkeeping: a chunk index seen before is not stored again. *)
Definition add_part (t : Transfer) (c : Chunk) (now : Z) : result ChunkError Transfer :=
  if bt_contains (ch_index c) (tr_parts t) then
    Ok (mkTransfer (tr_req_id t) (tr_total t) (tr_bytes t) (tr_parts t) now)
  else if tr_bytes t + blen (ch_data c) >? MAX_TRANSFER_BYTES then Err TooLarge
  else
    Ok (mkTransfer (tr_req_id t) (tr_total t) (tr_bytes t + blen (ch_data c))
          (bt_insert (ch_index c) (ch_data c) (tr_parts t)) now).

Definition push (r : Reassembler) (c : Chunk) (now : Z)
  : Reassembler * result ChunkError (option Assembled) :=
  let m := ra_transfers r in
  let id := ch_transfer_id c in
  if bool_decide (m !! id = None) && (MAX_TRANSFERS_IN_FLIGHT <=? size m)%nat
  then (r, Err (TooManyTransfers (size m)))
  else
    let t := default (mkTransfer (ch_req_id c) (ch_total c) 0 [] now) (m !! id) in
    if negb (tr_total t =? ch_total c) then
      (ra_set r (delete id m), Err (TotalMismatch (tr_total t) (ch_total c)))
    else if negb (tr_req_id t =? ch_req_id c) then
      (ra_set r (delete id m), Err (ReqIdMismatch (tr_req_id t) (ch_req_id c)))
    else
      match add_part t c now with
      | Err e => (ra_set r (delete id m), Err e)
      | Ok t =>
          if Z.of_nat (length (tr_parts t)) =? tr_total t then
            (ra_set r (delete id m),
             Ok (Some (mkAssembled (tr_req_id t) id (concat (map snd (tr_parts t))))))
          else (ra_set r (<[id := t]> m), Ok None)
      end.

Definition idle_out (timeout now : Z) (t : Transfer) : bool :=
  saturating_sub now (tr_last_activity t) >=? timeout.

(** The expired transfers in the order of the map. *)
Definition expire (r : Reassembler) (now : Z) : Reassembler * list Expired :=
  let out := filter (fun p => idle_out (ra_timeout r) now (snd p) = true) (ra_transfers r) in
  (ra_set r (filter (fun p => idle_out (ra_timeout r) now (snd p) = false) (ra_transfers r)),
   map (fun '(id, t) =>
          mkExpired (tr_req_id t) id (wrap 16 (Z.of_nat (length (tr_parts t)))) (tr_total t))
     (map_to_list out)).

Definition in_flight (r : Reassembler) : nat := size (ra_transfers r).

(** ** Splitting *)

(** [slice::chunks], by fuel: the payload shrinks with every piece when [chunk_size]
    is positive, which the code asserts. *)
Fixpoint pieces_go (fuel chunk_size : nat) (payload : bytes) : list bytes :=
  match fuel, payload with
  | O, _ => []
  | _, [] => []
  | S fuel', _ => take chunk_size payload :: pieces_go fuel' chunk_size (drop chunk_size payload)
  end.

Definition pieces (chunk_size : nat) (payload : bytes) : list bytes :=
  match payload with
  | [] => [[]]
  | _ => pieces_go (length payload) chunk_size payload
  end.

Definition split_into_chunks (req_id transfer_id : Z) (payload : bytes) (chunk_size : nat)
  : list Chunk :=
  let parts := pieces chunk_size payload in
  let total := wrap 16 (Z.of_nat (length parts)) in
  imap (fun i p => mkChunk req_id transfer_id (wrap 16 (Z.of_nat i)) total p) parts.

(** ** Envelope round trip *)

Definition wt_Chunk (c : Chunk) : bool :=
  is_uint 32 (ch_req_id c) && is_uint 32 (ch_transfer_id c) && is_uint 16 (ch_index c) &&
  is_uint 16 (ch_total c) && (ch_index c <? ch_total c) && is_uint 32 (blen (ch_data c)).

(** A chunk envelope decodes to the chunk it was made of. *)
Lemma encode_decode_chunk c :
  wt_Chunk c = true -> slice_ok (encode_chunk c) -> decode_chunk (encode_chunk c) = Ok c.
Proof.
  intros Hw Hok. unfold wt_Chunk in Hw. bsplit. unfold decode_chunk.
  rewrite (reads_end_run rd_chunk _ c); [done|done|]. unfold rd_chunk, encode_chunk.
  eapply reads_end_bind; [by apply reads_array_len|]. cbn [Z.eqb Pos.eqb negb].
  eapply reads_end_bind; [apply (reads_int 6); reflexivity|]. cbn [wire MsgType_enum MsgType_wire Z.eqb Pos.eqb negb].
  do 4 (eapply reads_end_bind; [by apply reads_rd_try|]).
  eapply reads_end_last; [by apply reads_bin|].
  apply reads_end_finish. destruct c as [a b i n d]. cbn in *.
  destruct (Z.eqb_spec n 0); [unfold_widths; lia|]. destruct (Z.geb_spec i n); [lia|]. apply reads_ret.
Qed.

(** ** The parts of a transfer *)

Definition key_lt (a b : Z * bytes) : Prop := fst a < fst b.

Lemma bt_contains_spec k l : bt_contains k l = true <-> exists v, In (k, v) l.
Proof.
  unfold bt_contains. rewrite existsb_exists. split.
  - intros ([k' v] & Hin & E%Z.eqb_eq). subst. by exists v.
  - intros [v Hin]. exists (k, v). split; [done|apply Z.eqb_refl].
Qed.

Lemma bt_insert_in k v l x : In x (bt_insert k v l) <-> x = (k, v) \/ In x l.
Proof.
  induction l as [|[k' v'] l IH]; cbn; [intuition|]. destruct (k <? k'); cbn; [intuition|].
  rewrite IH. intuition.
Qed.

Lemma bt_insert_length k v l : length (bt_insert k v l) = S (length l).
Proof. induction l as [|[k' v'] l IH]; cbn; [done|]. destruct (k <? k'); cbn; [done|]. by rewrite IH. Qed.

Lemma bt_insert_sorted k v l :
  StronglySorted key_lt l -> bt_contains k l = false -> StronglySorted key_lt (bt_insert k v l).
Proof.
  induction l as [|[k' v'] l IH]; intros Hs Hc; cbn; [repeat constructor|].
  apply StronglySorted_cons in Hs as [Hf Hs]. cbn in Hc. apply orb_false_iff in Hc as [Hk Hc].
  apply Z.eqb_neq in Hk. destruct (Z.ltb_spec k k').
  - constructor; [by constructor|]. constructor; [done|].
    eapply List.Forall_impl; [|exact Hf]. intros a Ha. unfold key_lt in *. cbn in *. lia.
  - constructor; [by apply IH|]. apply List.Forall_forall. intros x [->|Hin]%bt_insert_in.
    + unfold key_lt. cbn. lia.
    + by eapply List.Forall_forall in Hf.
Qed.

(** The numbered pieces of a payload. *)
Definition numbered (ps : list bytes) : list (Z * bytes) :=
  imap (fun i p => (Z.of_nat i, p)) ps.

Lemma numbered_in ps i p : In (i, p) (numbered ps) <-> 0 <= i /\ ps !! Z.to_nat i = Some p.
Proof.
  unfold numbered. rewrite <- list_elem_of_In, elem_of_lookup_imap. split.
  - intros (j & q & [= -> ->] & Hl). split; [lia|]. by rewrite Nat2Z.id.
  - intros [Hi Hl]. exists (Z.to_nat i), p. split; [|done]. f_equal. lia.
Qed.

Lemma numbered_sorted ps : StronglySorted key_lt (numbered ps).
Proof.
  unfold numbered.
  assert (forall n, StronglySorted key_lt (imap (fun i p => (Z.of_nat (n + i), p)) ps)) as H; [|apply (H O)].
  induction ps as [|p ps IH]; intros n; cbn; [constructor|]. constructor.
  - rewrite (imap_ext _ (fun i p => (Z.of_nat (S n + i), p))); [apply IH|].
    intros i x _. unfold compose. do 2 f_equal. lia.
  - apply List.Forall_forall. intros [i x] Hin.
    apply list_elem_of_In, elem_of_lookup_imap in Hin as (j & y & [= -> ->] & _).
    unfold key_lt. cbn. lia.
Qed.

(** A sorted part list inside the numbered pieces is a sublist of them. *)
Lemma sorted_sublist l : forall m,
  StronglySorted key_lt l -> StronglySorted key_lt m -> (forall x, In x l -> In x m) ->
  l `sublist_of` m.
Proof.
  induction l as [|x l IH]; intros m Hl Hm Hin; [apply sublist_nil_l|].
  apply StronglySorted_cons in Hl as [Hfl Hl].
  induction m as [|y m IHm]; [by destruct (Hin x); left|].
  apply StronglySorted_cons in Hm as [Hfm Hm].
  destruct (Hin x) as [->|Hxm]; [by left| |].
  - apply sublist_skip, IH; [done|done|]. intros z Hz. destruct (Hin z) as [->|]; [by right| |done].
    eapply List.Forall_forall in Hfl; [|exact Hz]. unfold key_lt in Hfl. lia.
  - apply sublist_cons, IHm; [done|]. intros z Hz. destruct (Hin z Hz) as [->|]; [|done].
    eapply List.Forall_forall in Hfm; [|exact Hxm]. unfold key_lt in Hfm.
    destruct Hz as [->|Hz]; [lia|]. eapply List.Forall_forall in Hfl; [|exact Hz].
    unfold key_lt in Hfl. lia.
Qed.

Definition parts_bytes (l : list (Z * bytes)) : Z := blen (concat (map snd l)).

Lemma parts_bytes_cons x l : parts_bytes (x :: l) = blen (snd x) + parts_bytes l.
Proof. unfold parts_bytes. cbn. apply blen_app. Qed.

Lemma parts_bytes_insert k v l : parts_bytes (bt_insert k v l) = parts_bytes l + blen v.
Proof.
  induction l as [|[k' v'] l IH]; cbn [bt_insert].
  - rewrite parts_bytes_cons. cbn. unfold parts_bytes. cbn. lia.
  - destruct (k <? k'); rewrite !parts_bytes_cons; [cbn; lia|]. rewrite IH. cbn. lia.
Qed.

Lemma parts_bytes_sublist l m : l `sublist_of` m -> parts_bytes l <= parts_bytes m.
Proof.
  induction 1 as [|x l m H IH|x l m H IH]; rewrite ?parts_bytes_cons; [lia|lia|].
  pose proof (blen_nonneg (snd x)). lia.
Qed.

Lemma numbered_bytes ps : map snd (numbered ps) = ps.
Proof.
  unfold numbered. change (snd <$> imap (fun i p => (Z.of_nat i, p)) ps = ps).
  rewrite fmap_imap. apply list_eq. intros i. rewrite list_lookup_imap. by destruct (ps !! i).
Qed.

Lemma numbered_length ps : length (numbered ps) = length ps.
Proof. apply length_imap. Qed.

(** ** One transfer among others *)

(** A transfer of the pieces [ps] in progress. *)
Record own (ps : list bytes) (req : Z) (t : Transfer) : Prop := {
  ow_req : tr_req_id t = req;
  ow_total : tr_total t = Z.of_nat (length ps);
  ow_sorted : StronglySorted key_lt (tr_parts t);
  ow_sub : forall x, In x (tr_parts t) -> In x (numbered ps);
  ow_bytes : tr_bytes t = parts_bytes (tr_parts t);
}.

Lemma own_parts_sublist ps req t : own ps req t -> tr_parts t `sublist_of` numbered ps.
Proof. intros []. apply sorted_sublist; [done|apply numbered_sorted|done]. Qed.

(** All pieces there: the parts are the pieces in order. *)
Lemma own_full ps req t :
  own ps req t -> length (tr_parts t) = length ps -> tr_parts t = numbered ps.
Proof.
  intros Ho Hl. apply own_parts_sublist in Ho. rewrite <- numbered_length in Hl.
  revert Hl. induction Ho as [|x l m H IH|x l m H IH]; cbn; [done| |].
  - intros [= E]. f_equal. by apply IH.
  - intros E. apply sublist_length in H. lia.
Qed.

Lemma add_part_own ps req t c now :
  own ps req t -> In (ch_index c, ch_data c) (numbered ps) -> blen (concat ps) <= MAX_TRANSFER_BYTES ->
  exists t', add_part t c now = Ok t' /\ own ps req t' /\
    forall x, In x (tr_parts t') <-> x = (ch_index c, ch_data c) \/ In x (tr_parts t).
Proof.
  intros Ho Hin Hmax. pose proof Ho as [H1 H2 H3 H4 H5]. unfold add_part.
  destruct (bt_contains (ch_index c) (tr_parts t)) eqn:Ec.
  - eexists. split; [reflexivity|]. split; [by constructor|]. cbn. intros x. split; [by right|].
    intros [->|]; [|done]. apply bt_contains_spec in Ec as [v Hv].
    pose proof (H4 _ Hv) as Hn. apply numbered_in in Hin, Hn. destruct Hin, Hn. congruence.
  - assert (own ps req (mkTransfer (tr_req_id t) (tr_total t) (tr_bytes t + blen (ch_data c))
              (bt_insert (ch_index c) (ch_data c) (tr_parts t)) now)) as Ho'.
    { constructor; cbn; auto.
      - by apply bt_insert_sorted.
      - intros x [->|Hx]%bt_insert_in; auto.
      - rewrite parts_bytes_insert. lia. }
    pose proof (parts_bytes_sublist _ _ (own_parts_sublist _ _ _ Ho')) as Hb. cbn in Hb.
    rewrite parts_bytes_insert in Hb. unfold parts_bytes in Hb at 2. rewrite numbered_bytes in Hb.
    destruct (Z.gtb_spec (tr_bytes t + blen (ch_data c)) MAX_TRANSFER_BYTES); [lia|].
    eexists. split; [reflexivity|]. split; [done|]. apply bt_insert_in.
Qed.

(** A chunk of another transfer leaves this one alone. *)
Lemma push_other r c now id :
  ch_transfer_id c <> id -> ra_transfers (fst (push r c now)) !! id = ra_transfers r !! id.
Proof.
  intros Hne. unfold push. cbv zeta. repeat case_match; cbn; try done;
    rewrite ?lookup_delete_ne, ?lookup_insert_ne by done; done.
Qed.

(** A chunk of this transfer, the entry being open or there being room for it. *)
Lemma push_own r c now ps req id t :
  ch_transfer_id c = id -> ch_req_id c = req -> ch_total c = Z.of_nat (length ps) ->
  In (ch_index c, ch_data c) (numbered ps) -> blen (concat ps) <= MAX_TRANSFER_BYTES ->
  (ra_transfers r !! id = Some t /\ own ps req t) \/
  (ra_transfers r !! id = None /\ (in_flight r < MAX_TRANSFERS_IN_FLIGHT)%nat /\ tr_parts t = []) ->
  exists t', own ps req t' /\
    (forall x, In x (tr_parts t') <-> x = (ch_index c, ch_data c) \/ In x (tr_parts t)) /\
    push r c now =
      if decide (length (tr_parts t') = length ps)
      then (ra_set r (delete id (ra_transfers r)), Ok (Some (mkAssembled req id (concat ps))))
      else (ra_set r (<[id := t']> (ra_transfers r)), Ok None).
Proof.
  intros Hid Hreq Htot Hin Hmax Ht. subst id req. unfold push. cbv zeta.
  set (t0 := default (mkTransfer (ch_req_id c) (ch_total c) 0 [] now)
               (ra_transfers r !! ch_transfer_id c)).
  assert (own ps (ch_req_id c) t0 /\ tr_parts t0 = tr_parts t) as [Ho Ep].
  { destruct Ht as [[E Ho]|(E & _ & Ep)]; unfold t0; rewrite E; cbn [default]; [done|].
    split; [|done]. constructor; cbn; auto; [constructor|done]. }
  assert (bool_decide (ra_transfers r !! ch_transfer_id c = None) &&
          (MAX_TRANSFERS_IN_FLIGHT <=? size (ra_transfers r))%nat = false) as ->.
  { destruct Ht as [[E _]|(E & Hs & _)].
    - by rewrite bool_decide_eq_false_2 by congruence.
    - unfold in_flight in Hs. destruct (Nat.leb_spec MAX_TRANSFERS_IN_FLIGHT (size (ra_transfers r)));
        [lia|]. apply andb_false_r. }
  pose proof Ho as [O1 O2 _ _ _]. rewrite O1, O2, Htot, !Z.eqb_refl. cbn [negb].
  destruct (add_part_own _ _ _ c now Ho Hin Hmax) as (t' & -> & Ho' & Hx).
  exists t'. split; [done|]. split; [by rewrite <- Ep|].
  pose proof Ho' as [P1 P2 _ _ _]. rewrite P2.
  destruct (decide (length (tr_parts t') = length ps)) as [E|E].
  - rewrite E, Z.eqb_refl. rewrite (own_full _ _ _ Ho' E), numbered_bytes, P1. done.
  - destruct (Z.eqb_spec (Z.of_nat (length (tr_parts t'))) (Z.of_nat (length ps))); [lia|done].
Qed.

(** ** Splitting *)

Lemma pieces_go_concat fuel k l :
  (0 < k)%nat -> (length l <= fuel)%nat -> concat (pieces_go fuel k l) = l.
Proof.
  intros Hk. revert l. induction fuel as [|fuel IH]; intros l Hl; cbn.
  - destruct l; [done|cbn in Hl; lia].
  - destruct l as [|b l]; [done|]. cbn [concat]. rewrite IH.
    + apply take_drop.
    + rewrite length_drop. cbn in *. lia.
Qed.

Lemma pieces_concat k l : (0 < k)%nat -> concat (pieces k l) = l.
Proof. intros Hk. destruct l as [|b l]; [done|]. by apply pieces_go_concat. Qed.

Lemma pieces_nonempty k l : (0 < length (pieces k l))%nat.
Proof. destruct l as [|b l]; cbn; lia. Qed.

Lemma split_in req id l k c :
  (0 < k)%nat -> Z.of_nat (length (pieces k l)) <= 65535 ->
  In c (split_into_chunks req id l k) <->
  exists i p, In (i, p) (numbered (pieces k l)) /\
    c = mkChunk req id i (Z.of_nat (length (pieces k l))) p.
Proof.
  intros Hk Hn. unfold split_into_chunks. cbv zeta.
  rewrite <- list_elem_of_In, elem_of_lookup_imap.
  assert (forall n, Z.of_nat n <= 65535 -> wrap 16 (Z.of_nat n) = Z.of_nat n) as Hw.
  { intros n H. unfold wrap. apply Z.mod_small. change (2 ^ 16) with 65536. lia. }
  rewrite Hw by done. split.
  - intros (i & p & -> & Hl). pose proof (lookup_lt_Some _ _ _ Hl).
    exists (Z.of_nat i), p. rewrite numbered_in, Nat2Z.id. split; [split; [lia|done]|].
    rewrite Hw by lia. done.
  - intros (i & p & [Hi Hl]%numbered_in & ->). exists (Z.to_nat i), p. split; [|done].
    pose proof (lookup_lt_Some _ _ _ Hl). rewrite Hw by lia. f_equal. lia.
Qed.

(** ** Delivery in any order *)

(** Chunks arriving one after the other, each at its instant. *)
Fixpoint push_all (r : Reassembler) (cs : list (Chunk * Z))
  : Reassembler * list (result ChunkError (option Assembled)) :=
  match cs with
  | [] => (r, [])
  | (c, now) :: cs' =>
      let '(r1, o) := push r c now in
      let '(r2, os) := push_all r1 cs' in (r2, o :: os)
  end.

(** The chunks of the transfer among those delivered come from its pieces. *)
Definition from_pieces (ps : list bytes) (req id : Z) (c : Chunk) : Prop :=
  ch_transfer_id c = id ->
  ch_req_id c = req /\ ch_total c = Z.of_nat (length ps) /\ In (ch_index c, ch_data c) (numbered ps).

Lemma deliver ps req id x pre : forall r t,
  blen (concat ps) <= MAX_TRANSFER_BYTES -> Forall (fun '(c, _) => from_pieces ps req id c) pre ->
  ra_transfers r !! id = Some t -> own ps req t ->
  In x (numbered ps) -> ~ In x (tr_parts t) ->
  (forall c now, In (c, now) pre -> ch_transfer_id c = id -> (ch_index c, ch_data c) <> x) ->
  let '(r', os) := push_all r pre in
  Forall2 (fun '(c, _) o => ch_transfer_id c = id -> o = Ok None) pre os /\
  exists t', ra_transfers r' !! id = Some t' /\ own ps req t' /\
    forall y, In y (tr_parts t') <->
      In y (tr_parts t) \/
      exists c now, In (c, now) pre /\ ch_transfer_id c = id /\ y = (ch_index c, ch_data c).
Proof.
  induction pre as [|[c now] pre IH]; intros r t Hmax Hf Ht Ho Hx Hxt Hxp; cbn [push_all].
  { split; [constructor|]. exists t. split_and!; auto. intros y. split; [auto|].
    intros [|(c & now & [] & _)]; done. }
  apply List.Forall_cons_iff in Hf as [Hc Hf].
  destruct (decide (ch_transfer_id c = id)) as [Hid|Hid].
  - destruct (Hc Hid) as (Hr & Hn & Hin).
    destruct (push_own r c now ps req id t Hid Hr Hn Hin Hmax) as (t1 & Ho1 & Hx1 & Ep); [by left|].
    assert (~ In x (tr_parts t1)) as Hxt1.
    { rewrite Hx1. intros [E|]; [|done]. by apply (Hxp c now (or_introl eq_refl) Hid). }
    rewrite Ep. destruct (decide (length (tr_parts t1) = length ps)) as [E|_].
    { destruct Hxt1. by rewrite (own_full _ _ _ Ho1 E). }
    specialize (IH (ra_set r (<[id := t1]> (ra_transfers r))) t1 Hmax Hf).
    cbn [ra_set ra_transfers] in IH. rewrite lookup_insert_eq in IH.
    specialize (IH eq_refl Ho1 Hx Hxt1).
    destruct (push_all _ pre) as [r' os] eqn:Er.
    destruct IH as (Hos & t' & Ht' & Ho' & Hy').
    { intros c' n' Hin'. apply (Hxp c' n'). by right. }
    split; [by constructor|]. exists t'. split_and!; auto. intros y. rewrite Hy', Hx1. cbn [In]. split.
    + intros [[->|]|(c' & n' & ? & ? & ?)]; eauto 8.
    + intros [|(c' & n' & [[= -> ->]|] & ? & ?)]; eauto 8.
  - destruct (push r c now) as [r1 o] eqn:Ep1.
    assert (ra_transfers r1 !! id = Some t) as Ht1.
    { rewrite <- Ht. rewrite <- (push_other r c now id Hid). by rewrite Ep1. }
    specialize (IH r1 t Hmax Hf Ht1 Ho Hx Hxt). destruct (push_all r1 pre) as [r' os] eqn:Er.
    destruct IH as (Hos & t' & Ht' & Ho' & Hy').
    { intros c' n' Hin'. apply (Hxp c' n'). by right. }
    split; [by constructor|]. exists t'. split_and!; auto. intros y. rewrite Hy'. cbn [In]. split.
    + intros [|(c' & n' & ? & ? & ?)]; eauto 8.
    + intros [|(c' & n' & [[= -> ->]|] & ? & ?)]; eauto 8. done.
Qed.

Lemma own_complete ps req t :
  own ps req t -> (forall y, In y (numbered ps) -> In y (tr_parts t)) ->
  length (tr_parts t) = length ps.
Proof.
  intros Ho Hall. pose proof (sublist_length _ _ (own_parts_sublist _ _ _ Ho)).
  pose proof Ho as [_ _ Hs _ _].
  pose proof (sublist_length _ _ (sorted_sublist _ _ (numbered_sorted ps) Hs Hall)).
  rewrite numbered_length in *. lia.
Qed.

(** A bulk command survives chunking.  Split a payload, deliver its chunks in
    any order, any of them any number of times before the last missing one, with
    chunks of other transfers in between: every chunk before the last is answered
    with nothing, the last missing one with exactly the payload that was split,
    and the transfer is closed. *)
Lemma bulk_transfer_roundtrip r req id payload k pre last now :
  (0 < k)%nat -> Z.of_nat (length (pieces k payload)) <= 65535 ->
  blen payload <= MAX_TRANSFER_BYTES ->
  ra_transfers r !! id = None -> (in_flight r < MAX_TRANSFERS_IN_FLIGHT)%nat ->
  let cs := split_into_chunks req id payload k in
  (pre = [] \/ exists c t pre', pre = (c, t) :: pre' /\ ch_transfer_id c = id) ->
  (forall c t, In (c, t) pre -> ch_transfer_id c = id -> In c cs /\ c <> last) ->
  In last cs -> (forall c, In c cs -> c = last \/ exists t, In (c, t) pre) ->
  let '(r1, os) := push_all r pre in
  Forall2 (fun '(c, _) o => ch_transfer_id c = id -> o = Ok None) pre os /\
  let '(r2, o) := push r1 last now in
  o = Ok (Some (mkAssembled req id payload)) /\ ra_transfers r2 !! id = None.
Proof.
  intros Hk Hn Hmax Hr Hf cs Hfirst Hpre Hlast Hcover.
  set (ps := pieces k payload). pose proof (pieces_concat k payload Hk) as Hcat. fold ps in Hcat.
  rewrite <- Hcat in Hmax.
  assert (forall c, In c cs -> ch_transfer_id c = id /\ ch_req_id c = req /\
            ch_total c = Z.of_nat (length ps) /\ In (ch_index c, ch_data c) (numbered ps)) as Hcs.
  { intros c (i & p & Hin & ->)%split_in; [|done|done]. done. }
  assert (forall c, In c cs -> In last cs -> (ch_index c, ch_data c) = (ch_index last, ch_data last) ->
            c = last) as Hinj.
  { intros c (i & p & Hin & ->)%split_in (j & q & Hjn & ->)%split_in E; [|done..]. cbn in E.
    by injection E as -> ->. }
  assert (forall x, In x (numbered ps) -> exists c, In c cs /\ x = (ch_index c, ch_data c)) as Hx.
  { intros [i p] Hin. exists (mkChunk req id i (Z.of_nat (length ps)) p). split; [|done].
    apply split_in; eauto. }
  destruct (Hcs last Hlast) as (Lid & Lreq & Ltot & Lin).
  assert (forall t1 r1, ra_transfers r1 !! id = Some t1 /\ own ps req t1 \/
            (ra_transfers r1 !! id = None /\ (in_flight r1 < MAX_TRANSFERS_IN_FLIGHT)%nat /\
             tr_parts t1 = []) ->
          (forall c t, In c cs -> In (c, t) pre -> In (ch_index c, ch_data c) (tr_parts t1)) ->
          let '(r2, o) := push r1 last now in
          o = Ok (Some (mkAssembled req id payload)) /\ ra_transfers r2 !! id = None) as Hfin.
  { intros t1 r1 Hs Hall.
    destruct (push_own r1 last now ps req id t1 Lid Lreq Ltot Lin Hmax Hs) as (t2 & Ho2 & Hp2 & ->).
    rewrite decide_True.
    - rewrite Hcat. split; [done|]. apply lookup_delete_eq.
    - apply (own_complete _ _ _ Ho2). intros y Hy. destruct (Hx y Hy) as (c & Hc & ->).
      apply Hp2. destruct (Hcover c Hc) as [->|[t Ht]]; [by left|]. right. by eapply Hall. }
  destruct Hfirst as [->|(c & t & pre' & -> & Hc)].
  { cbn [push_all]. split; [constructor|].
    apply (Hfin (mkTransfer req 0 0 [] 0)); [right; by split_and!|]. by intros c t _ []. }
  cbn [push_all]. destruct (Hpre c t (or_introl eq_refl) Hc) as [Hin Hne].
  destruct (Hcs c Hin) as (Cid & Creq & Ctot & Cin).
  destruct (push_own r c t ps req id (mkTransfer req 0 0 [] 0) Cid Creq Ctot Cin Hmax) as (t1 & Ho1 & Hp1 & Ep);
    [right; by split_and!|].
  assert (forall c', In c' cs -> c' <> last -> (ch_index c', ch_data c') <> (ch_index last, ch_data last))
    as Hneq by (intros c' H1 H2 E; by apply H2, Hinj).
  assert (~ In (ch_index last, ch_data last) (tr_parts t1)) as Hlt.
  { rewrite Hp1. intros [E|[]]. symmetry in E. by apply (Hneq c). }
  rewrite Ep. destruct (decide (length (tr_parts t1) = length ps)) as [E|_].
  { destruct Hlt. by rewrite (own_full _ _ _ Ho1 E). }
  pose proof (deliver ps req id (ch_index last, ch_data last) pre'
                (ra_set r (<[id := t1]> (ra_transfers r))) t1 Hmax) as Hd.
  assert (Forall (fun '(c, _) => from_pieces ps req id c) pre') as Hfp.
  { apply List.Forall_forall. intros [c' t'] Hin' Hid'.
    destruct (Hpre c' t' (or_intror Hin') Hid') as [Hcs' _].
    destruct (Hcs c' Hcs') as (? & ? & ? & ?). done. }
  cbn [ra_set ra_transfers] in Hd. rewrite lookup_insert_eq in Hd.
  specialize (Hd Hfp eq_refl Ho1 Lin Hlt).
  destruct (push_all _ pre') as [r' os]. destruct Hd as (Hos & t' & Ht' & Ho' & Hy').
  { intros c' n' Hin' Hid'. destruct (Hpre c' n' (or_intror Hin') Hid'). auto. }
  split; [by constructor|]. apply (Hfin t'); [by left|].
  intros c' n' Hcs' Hin'. apply Hy'. destruct (Hcs c' Hcs') as (? & _).
  destruct Hin' as [[= -> ->]|Hin']; [left; apply Hp1; by left|right; eauto].
Qed.

Lemma bulk_transfer_roundtrip_witness :
  let c i d := mkChunk 9 70 i 3 d in
  let other := mkChunk 4 71 0 2 [5] in
  let pre := [(c 2 [5], 10); (other, 11); (c 0 [1; 2], 12); (c 2 [5], 13)] in
  let '(r1, os) := push_all (reassembler_new 1000) pre in
  Forall2 (fun '(c, _) o => ch_transfer_id c = 70 -> o = Ok None) pre os /\
  let '(r2, o) := push r1 (c 1 [3; 4]) 14 in
  o = Ok (Some (mkAssembled 9 70 [1; 2; 3; 4; 5])) /\ ra_transfers r2 !! 70 = None.
Proof.
  apply (bulk_transfer_roundtrip (reassembler_new 1000) 9 70 [1; 2; 3; 4; 5] 2).
  - lia.
  - by vm_compute.
  - by vm_compute.
  - reflexivity.
  - by vm_compute; lia.
  - right. eauto.
  - change (split_into_chunks 9 70 [1; 2; 3; 4; 5] 2)
      with [mkChunk 9 70 0 3 [1; 2]; mkChunk 9 70 1 3 [3; 4]; mkChunk 9 70 2 3 [5]].
    intros c t [[= <- <-]|[[= <- <-]|[[= <- <-]|[[= <- <-]|[]]]]] Hid; cbn in *; try discriminate;
      (split; [tauto|discriminate]).
  - vm_compute. tauto.
  - change (split_into_chunks 9 70 [1; 2; 3; 4; 5] 2)
      with [mkChunk 9 70 0 3 [1; 2]; mkChunk 9 70 1 3 [3; 4]; mkChunk 9 70 2 3 [5]].
    intros c [<-|[<-|[<-|[]]]]; cbn; eauto 8.
Defined.

(** ** Bounds *)

(** A transfer in the table: what it holds is what arrived, under the byte cap, and
    it still misses a chunk. *)
Record transfer_ok (t : Transfer) : Prop := {
  to_sorted : StronglySorted key_lt (tr_parts t);
  to_keys : Forall (fun x => 0 <= fst x < tr_total t) (tr_parts t);
  to_bytes : tr_bytes t = parts_bytes (tr_parts t);
  to_cap : tr_bytes t <= MAX_TRANSFER_BYTES;
  to_open : Z.of_nat (length (tr_parts t)) < tr_total t;
}.

Definition reassembler_ok (r : Reassembler) : Prop :=
  (in_flight r <= MAX_TRANSFERS_IN_FLIGHT)%nat /\
  forall id t, ra_transfers r !! id = Some t -> transfer_ok t.

(** Distinct keys below [n]. *)
Lemma sorted_keys_length l : forall lo n,
  StronglySorted key_lt l -> Forall (fun x => lo <= fst x < n) l ->
  lo <= n -> Z.of_nat (length l) <= n - lo.
Proof.
  induction l as [|x l IH]; intros lo n Hs Hf Hn; cbn [length]; [lia|].
  apply StronglySorted_cons in Hs as [Hx Hs]. apply List.Forall_cons_iff in Hf as [Hk Hf].
  specialize (IH (fst x + 1) n Hs). rewrite Nat2Z.inj_succ.
  assert (Z.of_nat (length l) <= n - (fst x + 1)); [|lia]. apply IH; [|lia].
  apply List.Forall_forall. intros y Hy.
  eapply List.Forall_forall in Hx, Hf; [|exact Hy..]. unfold key_lt in Hx. lia.
Qed.

Lemma ok_delete r id : reassembler_ok r -> reassembler_ok (ra_set r (delete id (ra_transfers r))).
Proof.
  intros [Hs Ht]. split.
  - unfold in_flight in *. cbn. rewrite map_size_delete. destruct (ra_transfers r !! id); cbn; lia.
  - cbn. intros id' t [_ H]%lookup_delete_Some. by eapply Ht.
Qed.

(** The socket is open to anyone and the table stays small: whatever chunks
    arrive (each with its index below its total, as the decoder guarantees) and
    whenever idle transfers are expired, at most eight transfers are open, none
    holds more than four megabytes or two parts of one index, and none is kept
    that has all its parts. *)
Lemma reassembler_bounded r c now :
  reassembler_ok r -> 0 <= ch_index c < ch_total c ->
  reassembler_ok (fst (push r c now)) /\ reassembler_ok (fst (expire r now)).
Proof.
  intros Hr Hc. pose proof Hr as [Hs Ht]. split.
  - unfold push. cbv zeta.
    destruct (bool_decide (ra_transfers r !! ch_transfer_id c = None) &&
              (MAX_TRANSFERS_IN_FLIGHT <=? size (ra_transfers r))%nat) eqn:Eroom; [done|].
    set (t := default (mkTransfer (ch_req_id c) (ch_total c) 0 [] now)
                (ra_transfers r !! ch_transfer_id c)).
    assert (transfer_ok t) as Hok.
    { unfold t. destruct (ra_transfers r !! ch_transfer_id c) eqn:E; cbn; [by eapply Ht|].
      constructor; cbn; try constructor; try lia. unfold MAX_TRANSFER_BYTES. lia. }
    destruct (negb (tr_total t =? ch_total c)) eqn:E1; [by apply ok_delete|].
    destruct (negb (tr_req_id t =? ch_req_id c)); [by apply ok_delete|].
    apply negb_false_iff, Z.eqb_eq in E1.
    destruct (add_part t c now) as [t'|e] eqn:Ea; [|by apply ok_delete].
    destruct (Z.eqb_spec (Z.of_nat (length (tr_parts t'))) (tr_total t')); [by apply ok_delete|].
    destruct Hok as [O1 O2 O3 O4 O5]. cbn [fst]. split.
    + unfold in_flight in *. cbn. destruct (ra_transfers r !! ch_transfer_id c) eqn:E.
      * rewrite map_size_insert_Some; [done|by eexists].
      * rewrite map_size_insert_None by done.
        rewrite bool_decide_eq_true_2 in Eroom by done. rewrite andb_true_l in Eroom.
        apply Nat.leb_gt in Eroom. lia.
    + cbn. intros id' x [[_ <-]|[_ H]]%lookup_insert_Some; [|by eapply Ht].
      unfold add_part in Ea. destruct (bt_contains (ch_index c) (tr_parts t)) eqn:Ec.
      * injection Ea as <-. by constructor.
      * destruct (Z.gtb_spec (tr_bytes t + blen (ch_data c)) MAX_TRANSFER_BYTES); [done|].
        injection Ea as <-.
        assert (Forall (fun x => 0 <= fst x < tr_total t) (bt_insert (ch_index c) (ch_data c) (tr_parts t)))
          as Hk.
        { apply List.Forall_forall. intros y [->|Hy]%bt_insert_in; [cbn; lia|].
          by eapply List.Forall_forall in O2. }
        assert (StronglySorted key_lt (bt_insert (ch_index c) (ch_data c) (tr_parts t))) as Hso
          by (by apply bt_insert_sorted).
        cbn in *. constructor; cbn; auto.
        -- rewrite parts_bytes_insert. lia.
        -- pose proof (sorted_keys_length _ 0 (tr_total t) Hso Hk). lia.
  - split.
    + unfold in_flight, expire in *. cbn.
      pose proof (map_size_filter (fun p => idle_out (ra_timeout r) now (snd p) = false) (ra_transfers r)).
      lia.
    + cbn. intros id t [H _]%map_lookup_filter_Some. by eapply Ht.
Qed.

Lemma reassembler_bounded_witness :
  let r := fst (push (reassembler_new 1000) (mkChunk 9 70 2 3 [5]) 10) in
  reassembler_ok (fst (push r (mkChunk 9 70 0 3 [1]) 12)) /\ reassembler_ok (fst (expire r 12)).
Proof.
  assert (reassembler_ok (reassembler_new 1000)) as H0
    by (split; [vm_compute; lia|intros id t H; cbn in H; by rewrite lookup_empty in H]).
  apply (reassembler_bounded (fst (push (reassembler_new 1000) (mkChunk 9 70 2 3 [5]) 10))
           (mkChunk 9 70 0 3 [1]) 12); [|cbn; lia].
  apply (reassembler_bounded (reassembler_new 1000) (mkChunk 9 70 2 3 [5]) 10); [done|cbn; lia].
Defined.

(** A duplicate is idempotent only while its transfer is open.  A copy of a
    chunk that arrives after the last missing one opens the transfer again, with
    that chunk alone in it, and once the timeout has passed it is reported as an
    expired transfer of a request that had completed. *)
Lemma late_duplicate_reopens r c now now' :
  ra_transfers r = ∅ -> wt_Chunk c = true -> 2 <= ch_total c ->
  blen (ch_data c) <= MAX_TRANSFER_BYTES -> 0 <= ra_timeout r <= now' - now ->
  let '(r1, o) := push r c now in
  o = Ok None /\ in_flight r1 = 1%nat /\
  snd (expire r1 now') = [mkExpired (ch_req_id c) (ch_transfer_id c) 1 (ch_total c)].
Proof.
  intros Hr Hw Ht Hb Hn. unfold push. cbv zeta. rewrite Hr, lookup_empty, map_size_empty.
  rewrite bool_decide_eq_true_2 by done. cbn [andb Nat.leb MAX_TRANSFERS_IN_FLIGHT default].
  cbn [tr_total tr_req_id]. rewrite !Z.eqb_refl. cbn [negb]. unfold add_part. cbn [bt_contains existsb tr_parts tr_bytes].
  destruct (Z.gtb_spec (0 + blen (ch_data c)) MAX_TRANSFER_BYTES); [lia|].
  cbn [bt_insert tr_parts length tr_total].
  destruct (Z.eqb_spec (Z.of_nat 1) (ch_total c)); [lia|].
  split_and!; [done| |].
  { unfold in_flight. cbn [ra_set ra_transfers]. rewrite map_size_insert_None by apply lookup_empty.
    by rewrite map_size_empty. }
  unfold expire. cbn [snd ra_set ra_transfers ra_timeout].
  rewrite map_filter_insert_True.
  - rewrite map_filter_empty, insert_empty, map_to_list_singleton. reflexivity.
  - cbn. unfold idle_out, saturating_sub. cbn. lia.
Qed.

Lemma late_duplicate_reopens_witness :
  let '(r1, o) := push (reassembler_new 1000) (mkChunk 9 70 1 3 [3; 4]) 20 in
  o = Ok None /\ in_flight r1 = 1%nat /\ snd (expire r1 1020) = [mkExpired 9 70 1 3].
Proof.
  apply (late_duplicate_reopens (reassembler_new 1000) (mkChunk 9 70 1 3 [3; 4]) 20 1020);
    [reflexivity|reflexivity|cbn; lia|by vm_compute|cbn; lia].
Defined.
