(* ===== verification/BusTypes.v ===== *)
(** * BusTypes: the driver model shared by every bus backend

    The types of [crates/par6-bus/src/types.rs]: per-joint commands, gripper
    frames and replies, poll actions, fault flags, the decoded state of a node,
    health and freshness, and the loop-rate capture buffer with its operations.
    Integers carry their Rust widths in comments; a [JointCommand] channel that is
    [None] is omitted on the wire, not zero. *)
From stdpp Require Import list.
From S2P Require Import Prelude F64.

Definition MAX_NODES : nat := 16.

(** ** Joint commands *)

Inductive Pack :=
| Pk_Pid | Pk_Pd | Pk_Hall (trigger_value : Z) | Pk_Idle | Pk_EncoderPoll.

(** [pos], [vel]: i32; [cur_ma]: i16. *)
Record JointCommand := mkJointCommand {
  jc_pos : option Z;
  jc_vel : option Z;
  jc_cur_ma : option Z;
  jc_pack : Pack;
}.

Definition jc_position (pos vel cur_ma : Z) : JointCommand :=
  mkJointCommand (Some pos) (Some vel) (Some cur_ma) Pk_Pid.
Definition jc_velocity (vel cur_ma : Z) : JointCommand :=
  mkJointCommand None (Some vel) (Some cur_ma) Pk_Pid.
Definition jc_current (cur_ma : Z) : JointCommand := mkJointCommand None None (Some cur_ma) Pk_Pid.
Definition jc_idle : JointCommand := jc_velocity 0 0.
Definition jc_drop_to_idle : JointCommand := mkJointCommand None None None Pk_Idle.
Definition jc_encoder_poll : JointCommand := mkJointCommand None None None Pk_EncoderPoll.
Definition jc_pd (pos vel cur_ff_ma : Z) : JointCommand :=
  mkJointCommand (Some pos) (Some vel) (Some cur_ff_ma) Pk_Pd.
Definition jc_hall (vel trigger_value : Z) : JointCommand :=
  mkJointCommand None (Some vel) None (Pk_Hall trigger_value).

#[export] Instance Pack_eq_dec : EqDecision Pack.
Proof. solve_decision. Defined.
#[export] Instance JointCommand_eq_dec : EqDecision JointCommand.
Proof. solve_decision. Defined.

(** ** Gripper frames and replies *)

Record FirmwareGripperCommand := mkFw {
  fw_position : Z;
  fw_speed : Z;
  fw_current_ma : Z;
  fw_activate : bool;
  fw_action : bool;
  fw_estop : bool;
  fw_release_dir : bool;
}.

Definition fw_default : FirmwareGripperCommand := mkFw 0 0 0 false false false false.

Inductive GripperCommand :=
| GC_NoGripper
| GC_Motor (c : JointCommand)
| GC_Firmware (c : FirmwareGripperCommand)
| GC_FirmwarePoll
| GC_Calibrate.

Inductive ObjectDetection :=
| OD_Moving | OD_DetectedClosing | OD_DetectedOpening | OD_ReachedNoObject.

#[export] Instance FirmwareGripperCommand_eq_dec : EqDecision FirmwareGripperCommand.
Proof. solve_decision. Defined.
#[export] Instance GripperCommand_eq_dec : EqDecision GripperCommand.
Proof. solve_decision. Defined.
#[export] Instance ObjectDetection_eq_dec : EqDecision ObjectDetection.
Proof. solve_decision. Defined.

Record GripperReply := mkReply {
  gr_position : Z;
  gr_current_ma : Z;
  gr_activated : bool;
  gr_action_status : bool;
  gr_object_detection : ObjectDetection;
  gr_temperature_error : bool;
  gr_timeout_error : bool;
  gr_estop_error : bool;
  gr_calibrated : bool;
}.

(** ** Poll actions *)

Inductive PollKind :=
| PK_Telemetry | PK_Temperature | PK_Voltage | PK_Errors | PK_DeviceInfo | PK_Encoder | PK_Kt | PK_Ping.

Inductive ConfigKind :=
| CK_Watchdog | CK_Limits | CK_VoltageLimit | CK_PdGains | CK_CurrentGains | CK_VelocityGains
| CK_PositionGains.

Inductive PollAction :=
| PA_Poll (node : Z) (kind : PollKind)
| PA_ClearError (node : Z)
| PA_ResendConfig (node : Z)
| PA_ConfigFrame (node : Z) (kind : ConfigKind)
| PA_ConfigRead (node : Z) (kind : ConfigKind)
| PA_CaptureRead (node channel chunk : Z).

#[export] Instance PollKind_eq_dec : EqDecision PollKind.
Proof. solve_decision. Defined.
#[export] Instance ConfigKind_eq_dec : EqDecision ConfigKind.
Proof. solve_decision. Defined.
#[export] Instance PollAction_eq_dec : EqDecision PollAction.
Proof. solve_decision. Defined.

(** ** Faults *)

Record ErrorFlags := mkErrorFlags {
  ef_error : bool;
  ef_temperature : bool;
  ef_encoder : bool;
  ef_vbus : bool;
  ef_driver : bool;
  ef_velocity : bool;
  ef_current : bool;
  ef_estop : bool;
  ef_calibrated : bool;
  ef_activated : bool;
  ef_watchdog : bool;
}.

Inductive Fault :=
| Flt_Temperature | Flt_Encoder | Flt_Vbus | Flt_Driver | Flt_Velocity | Flt_Current
| Flt_EstopMotor | Flt_Watchdog.

(** [ErrorFlags::faults]. *)
Definition faults (f : ErrorFlags) : list Fault :=
  omap (fun '(set, fault) => if (set : bool) then Some fault else None)
    [(ef_temperature f, Flt_Temperature); (ef_encoder f, Flt_Encoder); (ef_vbus f, Flt_Vbus);
     (ef_driver f, Flt_Driver); (ef_velocity f, Flt_Velocity); (ef_current f, Flt_Current);
     (ef_estop f, Flt_EstopMotor); (ef_watchdog f, Flt_Watchdog)].

(** ** Retuning a drive *)

(** [par6_config::Gains]. *)
Record Gains := mkGains {
  g_kpp : f64;
  g_kpv : f64;
  g_kiv : f64;
  g_kpiq : f64;
  g_kiiq : f64;
  g_kp : f64;
  g_kd : f64;
}.

Record DriveTune := mkDriveTune {
  dt_gains : Gains;
  dt_ilim_ma : f64;
  dt_velocity_limit_ticks_s : f64;
  dt_voltage_limit_mv : Z;
}.

(** ** Decoded node state *)

Record DeviceInfo := mkDeviceInfo {
  di_hw_ver : Z;
  di_batch : Z;
  di_sw_ver : Z;
  di_serial : Z;
  di_tool_id : Z;
}.

Record HallState := mkHallState { hs_trigger : bool; hs_pin2 : bool; hs_edge : bool }.

(** [spectral::codec::Readback]. *)
Inductive Readback :=
| Rb_Watchdog (ms action : Z)
| Rb_Limits (velocity_ticks_s current_ma : f32)
| Rb_VoltageLimit (mv : Z)
| Rb_PdGains (kp kd : f32)
| Rb_CurrentGains (kpiq kiiq : f32)
| Rb_VelocityGains (kpv kiv : f32)
| Rb_PositionGains (kpp : f32).

(** Positions and speeds are i32, currents, temperatures and voltages i16, the
    position generation and the data age u64. *)
Record NodeState := mkNodeState {
  ns_position_ticks : option Z;
  ns_position_generation : Z;
  ns_speed_ticks_s : option Z;
  ns_current_ma : option Z;
  ns_temperature_c : option Z;
  ns_voltage_mv : option Z;
  ns_error_flags : option ErrorFlags;
  ns_kt_nm_a : option f32;
  ns_device_info : option DeviceInfo;
  ns_combined_telemetry : bool;
  ns_hall : option HallState;
  ns_live_error_bit : bool;
  ns_readback : list (option Readback);
  ns_data_age_ticks : Z;
}.

Definition U64_MAX : Z := 2 ^ 64 - 1.

Definition node_default : NodeState :=
  mkNodeState None 0 None None None None None None None false None false (replicate 7 None) U64_MAX.

(** [NodeState::record_position]. *)
Definition record_position (n : NodeState) (ticks : Z) : NodeState :=
  mkNodeState (Some ticks) (wrapping_add 64 (ns_position_generation n) 1) (ns_speed_ticks_s n)
    (ns_current_ma n) (ns_temperature_c n) (ns_voltage_mv n) (ns_error_flags n) (ns_kt_nm_a n)
    (ns_device_info n) (ns_combined_telemetry n) (ns_hall n) (ns_live_error_bit n) (ns_readback n)
    (ns_data_age_ticks n).

Record GripperState := mkGripperState {
  gs_reply : option GripperReply;
  gs_live_error_bit : bool;
  gs_data_age_ticks : Z;
}.

(** One entry of [bs_nodes] per node id; the counts are u32, the ages u64, the mask u16. *)
Record BusState := mkBusState {
  bs_nodes : list NodeState;
  bs_gripper : GripperState;
  bs_frames_last_drain : Z;
  bs_frame_age_max_ticks : Z;
  bs_frame_age_min_ticks : Z;
  bs_reconnected_mask : Z;
}.

Definition bus_state_new : BusState :=
  mkBusState (replicate MAX_NODES node_default) (mkGripperState None false U64_MAX) 0 0 0 0.

Inductive BusError :=
| BErr_Tx (node : Z)
| BErr_TxQueueFull
| BErr_LinkDown
| BErr_NotConfigured
| BErr_InvalidCommand (reason : string).

(** ** Health *)

Inductive Freshness := Fr_Unknown | Fr_Fresh | Fr_Stale | Fr_Lost.
Inductive LinkState := Lk_Unknown | Lk_Up | Lk_ErrorPassive | Lk_BusOff.

Record LinkHealth := mkLinkHealth {
  lh_state : LinkState;
  lh_restarts : Z;
  lh_bus_off_events : Z;
  lh_tx_errors : Z;
  lh_rx_frames : Z;
}.

#[export] Instance Freshness_eq_dec : EqDecision Freshness.
Proof. solve_decision. Defined.
#[export] Instance LinkState_eq_dec : EqDecision LinkState.
Proof. solve_decision. Defined.

(** ** The capture buffer *)

Definition CAPTURE_LEN : nat := 1024.

Record CaptureBuffer := mkCapture {
  cb_recorded : Z;
  cb_wanted : Z;
  cb_divisor : Z;
  cb_velocity : list Z;
  cb_current : list Z;
  cb_phase : list Z;
  cb_received : list (list bool);
}.

Definition capture_new : CaptureBuffer :=
  mkCapture 0 0 0 (replicate CAPTURE_LEN 0) (replicate CAPTURE_LEN 0) (replicate CAPTURE_LEN 0)
    (replicate 3 (replicate (CAPTURE_LEN / 2) false)).

Definition capture_clear (b : CaptureBuffer) : CaptureBuffer :=
  mkCapture 0 0 0 (map (fun _ => 0) (cb_velocity b)) (map (fun _ => 0) (cb_current b))
    (map (fun _ => 0) (cb_phase b)) (map (map (fun _ => false)) (cb_received b)).

(** [samples]: the pair; an index past the buffer is dropped. *)
Definition store_pair (rows : list Z) (chunk : nat) (samples : Z * Z) : list Z :=
  <[(chunk * 2 + 1)%nat := snd samples]> (<[(chunk * 2 + 0)%nat := fst samples]> rows).

Definition capture_store (b : CaptureBuffer) (channel : Z) (chunk : nat) (samples : Z * Z)
  : CaptureBuffer :=
  let received := alter (fun seen => <[chunk := true]> seen) (Z.to_nat channel) (cb_received b) in
  match channel with
  | 0 =>
      mkCapture (cb_recorded b) (cb_wanted b) (cb_divisor b) (store_pair (cb_velocity b) chunk samples)
        (cb_current b) (cb_phase b) received
  | 1 =>
      mkCapture (cb_recorded b) (cb_wanted b) (cb_divisor b) (cb_velocity b)
        (store_pair (cb_current b) chunk samples) (cb_phase b) received
  | 2 =>
      mkCapture (cb_recorded b) (cb_wanted b) (cb_divisor b) (cb_velocity b) (cb_current b)
        (store_pair (cb_phase b) chunk samples) received
  | _ => b
  end.

Definition capture_status (b : CaptureBuffer) (recorded wanted divisor : Z) : CaptureBuffer :=
  mkCapture recorded wanted divisor (cb_velocity b) (cb_current b) (cb_phase b) (cb_received b).

(** [u16::div_ceil(2)]. *)
Definition chunks (b : CaptureBuffer) : nat := Z.to_nat ((cb_recorded b + 1) / 2).

Definition missing (b : CaptureBuffer) (channel : Z) : list nat :=
  List.filter (fun c =>
    negb (match cb_received b !! Z.to_nat channel with
          | Some seen => default false (seen !! c)
          | None => false
          end)) (seq 0 (chunks b)).

(** The rows of a channel. *)
Definition capture_rows (b : CaptureBuffer) (channel : Z) : list Z :=
  match channel with 0 => cb_velocity b | 1 => cb_current b | _ => cb_phase b end.

(** The lengths a buffer is built with and keeps. *)
Definition capture_wf (b : CaptureBuffer) : Prop :=
  length (cb_velocity b) = CAPTURE_LEN /\ length (cb_current b) = CAPTURE_LEN /\
  length (cb_phase b) = CAPTURE_LEN /\ length (cb_received b) = 3%nat /\
  Forall (fun r => length r = (CAPTURE_LEN / 2)%nat) (cb_received b) /\
  0 <= cb_recorded b <= Z.of_nat CAPTURE_LEN.

Lemma capture_new_wf : capture_wf capture_new.
Proof.
  unfold capture_wf, capture_new. cbn [cb_velocity cb_current cb_phase cb_received cb_recorded].
  rewrite !length_replicate. split_and!; try done. by apply Forall_replicate.
Qed.

Lemma received_insert b channel chunk seen :
  0 <= channel < 3 -> capture_wf b -> cb_received b !! Z.to_nat channel = Some seen ->
  cb_received (capture_store b channel chunk (0, 0)) !! Z.to_nat channel = Some (<[chunk := true]> seen).
Proof.
  intros Hc Hw Hs. assert (channel = 0 \/ channel = 1 \/ channel = 2) as [->|[-> | ->]] by lia;
    cbn [capture_store cb_received]; by rewrite list_lookup_alter_eq, Hs.
Qed.

Lemma store_pair_length rows chunk s : length (store_pair rows chunk s) = length rows.
Proof. unfold store_pair. by rewrite !length_insert. Qed.

Lemma store_pair_lookup rows chunk s i :
  (chunk * 2 + 1 < length rows)%nat ->
  store_pair rows chunk s !! i =
    if (i =? chunk * 2)%nat then Some (fst s)
    else if (i =? chunk * 2 + 1)%nat then Some (snd s) else rows !! i.
Proof.
  intros Hl. unfold store_pair. rewrite Nat.add_0_r.
  destruct (Nat.eqb_spec i (chunk * 2)) as [->|H1].
  - rewrite list_lookup_insert_ne by lia. apply list_lookup_insert_eq. lia.
  - destruct (Nat.eqb_spec i (chunk * 2 + 1)) as [->|H2].
    + apply list_lookup_insert_eq. rewrite length_insert. lia.
    + rewrite !list_lookup_insert_ne by lia. done.
Qed.

(** A capture read back pair by pair.  Storing the answer of an outstanding
    pair of a channel puts its two samples at their places and leaves every other
    sample alone, and takes exactly that pair off the channel's list of missing
    ones: a reply the bus lost stays missing and is read again. *)
Lemma capture_store_spec b channel chunk samples :
  capture_wf b -> 0 <= channel < 3 -> In chunk (missing b channel) ->
  let b' := capture_store b channel chunk samples in
  capture_wf b' /\
  missing b' channel = List.filter (fun c => negb (c =? chunk)%nat) (missing b channel) /\
  (forall other, 0 <= other < 3 -> other <> channel ->
     missing b' other = missing b other /\ capture_rows b' other = capture_rows b other) /\
  (forall i, capture_rows b' channel !! i =
     if (i =? chunk * 2)%nat then Some (fst samples)
     else if (i =? chunk * 2 + 1)%nat then Some (snd samples) else capture_rows b channel !! i).
Proof.
  intros Hw Hc Hin. pose proof Hw as (W1 & W2 & W3 & W4 & W5 & W6).
  unfold missing in Hin. apply List.filter_In in Hin as [Hin _]. apply in_seq in Hin.
  assert (chunk * 2 + 1 < CAPTURE_LEN)%nat as Hb.
  { unfold chunks in Hin. assert (Z.of_nat CAPTURE_LEN = 1024) as E by reflexivity.
    assert ((cb_recorded b + 1) / 2 < 513) by (apply Z.div_lt_upper_bound; lia). lia. }
  destruct (lookup_lt_is_Some_2 (cb_received b) (Z.to_nat channel)) as [seen Es]; [lia|].
  pose proof (Forall_lookup_1 _ _ _ _ W5 Es) as Hlen. cbn in Hlen.
  assert (chunk < length seen)%nat as Hcs.
  { rewrite Hlen. change (CAPTURE_LEN / 2)%nat with 512%nat. unfold CAPTURE_LEN in Hb. lia. }
  set (rec := alter (fun seen => <[chunk := true]> seen) (Z.to_nat channel) (cb_received b)).
  assert (cb_received (capture_store b channel chunk samples) = rec /\
          chunks (capture_store b channel chunk samples) = chunks b) as [Er Ech].
  { assert (channel = 0 \/ channel = 1 \/ channel = 2) as [E|[E|E]] by lia; subst channel; done. }
  assert (rec !! Z.to_nat channel = Some (<[chunk := true]> seen)) as Erc.
  { unfold rec. by rewrite list_lookup_alter_eq, Es. }
  split_and!.
  - assert (Forall (fun r => length r = (CAPTURE_LEN / 2)%nat) rec) as Hr.
    { unfold rec. apply Forall_alter; [done|]. intros x _ Hx. by rewrite length_insert. }
    assert (length rec = 3%nat) as Hl by (unfold rec; by rewrite length_alter).
    assert (channel = 0 \/ channel = 1 \/ channel = 2) as [E|[E|E]] by lia; subst channel;
      split_and!; cbn; rewrite ?store_pair_length; try done; lia.
  - unfold missing. rewrite Er, Ech, Erc, Es. generalize (seq 0 (chunks b)). intros l.
    induction l as [|c l IH]; cbn; [done|]. rewrite IH.
    destruct (Nat.eqb_spec c chunk) as [->|Hne].
    + rewrite list_lookup_insert_eq by done. cbn.
      destruct (default false (seen !! chunk)); cbn; [done|]. by rewrite Nat.eqb_refl.
    + rewrite list_lookup_insert_ne by done.
      destruct (default false (seen !! c)); cbn; [done|].
      destruct (Nat.eqb_spec c chunk); [lia|done].
  - intros other Ho Hne. split.
    + unfold missing. rewrite Er, Ech. unfold rec. by rewrite list_lookup_alter_ne by lia.
    + assert (channel = 0 \/ channel = 1 \/ channel = 2) as [E|[E|E]] by lia; subst channel;
      assert (other = 0 \/ other = 1 \/ other = 2) as [E|[E|E]] by lia; subst other; done.
  - intros i. rewrite <- (store_pair_lookup (capture_rows b channel) chunk samples i).
    + assert (channel = 0 \/ channel = 1 \/ channel = 2) as [E|[E|E]] by lia; subst channel; done.
    + assert (channel = 0 \/ channel = 1 \/ channel = 2) as [E|[E|E]] by lia; subst channel; cbn [capture_rows]; lia.
Qed.

Lemma capture_store_spec_witness :
  let b := capture_status capture_new 5 8 1 in
  let b' := capture_store b 1 2 (-7, 9) in
  capture_wf b' /\
  missing b' 1 = List.filter (fun c => negb (c =? 2)%nat) (missing b 1) /\
  (forall other, 0 <= other < 3 -> other <> 1 ->
     missing b' other = missing b other /\ capture_rows b' other = capture_rows b other) /\
  (forall i, capture_rows b' 1 !! i =
     if (i =? 2 * 2)%nat then Some (fst (-7, 9))
     else if (i =? 2 * 2 + 1)%nat then Some (snd (-7, 9)) else capture_rows b 1 !! i).
Proof.
  apply (capture_store_spec (capture_status capture_new 5 8 1) 1 2 (-7, 9)).
  - destruct capture_new_wf as (H1 & H2 & H3 & H4 & H5 & _). split_and!; try done.
  - lia.
  - vm_compute. tauto.
Defined.
