(* ===== verification/Ring.v ===== *)
(** * Ring: the sample ring of [crates/par6-rt/src/ring.rs]

    A single-producer single-consumer ring with generation-bounded flushes,
    modelled twice.  The operations ([try_push], [pop], [clear_marked], ...) act
    on the shared record as the code does, index arithmetic included, and are
    shown to implement a plain queue ([AQueue]).  [rstep] then splits every
    operation at its atomic loads and stores and lets producer, consumer and
    flush markers interleave freely: the counters are taken as sequentially
    consistent, which is what the Release/Acquire pairs provide for counters
    with one writer each.  The 64-bit counters are integers here: they grow by
    one per sample and do not reach their limit. *)
From S2P Require Import Prelude F64.

(** ** Samples *)

Record SampleMeta := mkSampleMeta {
  sm_command_index : Z;
  sm_checkpoint_id : Z;
  sm_is_last : bool;
}.

Record SampleStart := mkSampleStart {
  ss_q : list f64;
  ss_tau_ff : list f32;
}.

Record Sample := mkSample {
  s_q : list f64;
  s_qd : list f64;
  s_tau_ff : list f32;
  s_inertia_velocity : list f32;
  s_start : option SampleStart;
  s_meta : SampleMeta;
}.

Definition MAX_JOINTS : nat := 6.

Definition sample_default : Sample :=
  mkSample (replicate MAX_JOINTS f64_0) (replicate MAX_JOINTS f64_0) (replicate MAX_JOINTS 0)
    (replicate MAX_JOINTS 0) None (mkSampleMeta 0 0 false).

#[export] Instance SampleMeta_eq_dec : EqDecision SampleMeta.
Proof. solve_decision. Defined.
#[export] Instance SampleStart_eq_dec : EqDecision SampleStart.
Proof. solve_decision. Defined.
#[export] Instance Sample_eq_dec : EqDecision Sample.
Proof. solve_decision. Defined.

(** ** The shared record *)

Record Slot := mkSlot { sl_sample : Sample; sl_generation : Z }.

Record RingShared := mkRing {
  r_buf : list Slot;
  r_head : Z;
  r_tail : Z;
  r_fill_generation : Z;
  r_flush_generation : Z;
}.

Definition ring_capacity (r : RingShared) : Z := Z.of_nat (length (r_buf r)).

(** [assert!(capacity > 0)]: construction panics on 0. *)
Definition sample_ring (capacity : nat) : option RingShared :=
  match capacity with
  | O => None
  | _ => Some (mkRing (replicate capacity (mkSlot sample_default 0)) 0 0 1 0)
  end.

Definition ring_len (r : RingShared) : Z := r_tail r - r_head r.

Definition slot_idx (r : RingShared) (counter : Z) : nat :=
  Z.to_nat (counter mod ring_capacity r).

(** ** Producer *)

Definition write_slot (r : RingShared) (t : Z) (s : Slot) : RingShared :=
  mkRing (<[slot_idx r t := s]> (r_buf r)) (r_head r) (r_tail r)
    (r_fill_generation r) (r_flush_generation r).
Definition set_head (r : RingShared) (h : Z) : RingShared :=
  mkRing (r_buf r) h (r_tail r) (r_fill_generation r) (r_flush_generation r).
Definition set_tail (r : RingShared) (t : Z) : RingShared :=
  mkRing (r_buf r) (r_head r) t (r_fill_generation r) (r_flush_generation r).
Definition set_flush (r : RingShared) (g : Z) : RingShared :=
  mkRing (r_buf r) (r_head r) (r_tail r) (r_fill_generation r) g.

Definition try_push (r : RingShared) (s : Sample) : RingShared * bool :=
  if r_tail r - r_head r >=? ring_capacity r then (r, false)
  else
    let r' := write_slot r (r_tail r) (mkSlot s (r_fill_generation r)) in
    (set_tail r' (r_tail r + 1), true).

Definition begin_generation (r : RingShared) : RingShared * Z :=
  let next := r_fill_generation r + 1 in
  (mkRing (r_buf r) (r_head r) (r_tail r) next (r_flush_generation r), next).

Definition free_slots (r : RingShared) : Z := ring_capacity r - ring_len r.

(** ** Consumer *)

Definition pop (r : RingShared) : RingShared * option Sample :=
  if r_head r =? r_tail r then (r, None)
  else (set_head r (r_head r + 1), sl_sample <$> (r_buf r !! slot_idx r (r_head r))).

Definition peek_offset (r : RingShared) (offset : Z) : option Sample :=
  if offset >=? r_tail r - r_head r then None
  else sl_sample <$> (r_buf r !! slot_idx r (r_head r + offset)).

Definition peek (r : RingShared) : option Sample := peek_offset r 0.

Definition clear (r : RingShared) : RingShared * Z :=
  (set_head r (r_tail r), r_tail r - r_head r).

(** The [while head < tail] scan; one fuel per queued slot. *)
Fixpoint scan_marked (r : RingShared) (bound tail : Z) (fuel : nat) (head : Z) : Z :=
  match fuel with
  | O => head
  | S fuel' =>
      if head <? tail then
        match r_buf r !! slot_idx r head with
        | Some sl => if sl_generation sl >? bound then head else scan_marked r bound tail fuel' (head + 1)
        | None => head
        end
      else head
  end.

Definition clear_marked (r : RingShared) : RingShared * Z :=
  let start := r_head r in
  let head := scan_marked r (r_flush_generation r) (r_tail r) (Z.to_nat (ring_len r)) start in
  (set_head r head, head - start).

(** ** Flush marker *)

Definition mark (r : RingShared) : RingShared * Z :=
  let generation := r_fill_generation r in
  (set_flush r (Z.max (r_flush_generation r) generation), generation).

(** ** The abstract queue *)

Record AQueue := mkAQueue {
  aq_cap : Z;
  aq_items : list Slot;
  aq_fill : Z;
  aq_bound : Z;
}.

(** The [n] slots from counter [h] on, and those the ring holds, oldest first. *)
Fixpoint items_from (r : RingShared) (h : Z) (n : nat) : list Slot :=
  match n with
  | O => []
  | S n' =>
      match r_buf r !! slot_idx r h with
      | Some sl => sl :: items_from r (h + 1) n'
      | None => []
      end
  end.

Definition ring_items (r : RingShared) : list Slot :=
  items_from r (r_head r) (Z.to_nat (ring_len r)).

Definition ring_abs (r : RingShared) : AQueue :=
  mkAQueue (ring_capacity r) (ring_items r) (r_fill_generation r) (r_flush_generation r).

Definition ring_wf (r : RingShared) : Prop :=
  0 < ring_capacity r /\ 0 <= r_head r <= r_tail r /\ ring_len r <= ring_capacity r.

Inductive ring_op :=
| RO_Push (s : Sample)
| RO_Begin
| RO_Pop
| RO_Peek (offset : Z)
| RO_Clear
| RO_ClearMarked
| RO_Mark.

Inductive ring_resp :=
| RR_Bool (b : bool)
| RR_Gen (g : Z)
| RR_Sample (s : option Sample)
| RR_Count (n : Z).

(** What the code answers. *)
Definition ring_run (o : ring_op) (r : RingShared) : RingShared * ring_resp :=
  match o with
  | RO_Push s => let '(r', b) := try_push r s in (r', RR_Bool b)
  | RO_Begin => let '(r', g) := begin_generation r in (r', RR_Gen g)
  | RO_Pop => let '(r', s) := pop r in (r', RR_Sample s)
  | RO_Peek k => (r, RR_Sample (peek_offset r k))
  | RO_Clear => let '(r', n) := clear r in (r', RR_Count n)
  | RO_ClearMarked => let '(r', n) := clear_marked r in (r', RR_Count n)
  | RO_Mark => let '(r', g) := mark r in (r', RR_Gen g)
  end.

(** The queued slots a bounded flush drops: the longest prefix at or below the bound. *)
Fixpoint drop_marked (bound : Z) (l : list Slot) : list Slot :=
  match l with
  | [] => []
  | sl :: l' => if sl_generation sl >? bound then l else drop_marked bound l'
  end.

(** What a queue promises. *)
Definition aq_run (o : ring_op) (q : AQueue) : AQueue * ring_resp :=
  let n := Z.of_nat (length (aq_items q)) in
  let items l := mkAQueue (aq_cap q) l (aq_fill q) (aq_bound q) in
  match o with
  | RO_Push s =>
      if n <? aq_cap q then (items (aq_items q ++ [mkSlot s (aq_fill q)]), RR_Bool true)
      else (q, RR_Bool false)
  | RO_Begin =>
      (mkAQueue (aq_cap q) (aq_items q) (aq_fill q + 1) (aq_bound q), RR_Gen (aq_fill q + 1))
  | RO_Pop => (items (tail (aq_items q)), RR_Sample (sl_sample <$> head (aq_items q)))
  | RO_Peek k => (q, RR_Sample (sl_sample <$> (aq_items q !! Z.to_nat k)))
  | RO_Clear => (items [], RR_Count n)
  | RO_ClearMarked =>
      let l := drop_marked (aq_bound q) (aq_items q) in
      (items l, RR_Count (n - Z.of_nat (length l)))
  | RO_Mark =>
      (mkAQueue (aq_cap q) (aq_items q) (aq_fill q) (Z.max (aq_bound q) (aq_fill q)),
       RR_Gen (aq_fill q))
  end.

(** ** The operations implement the queue *)

Lemma slot_idx_lt r c : 0 < ring_capacity r -> (slot_idx r c < length (r_buf r))%nat.
Proof.
  unfold slot_idx, ring_capacity. intros H.
  pose proof (Z.mod_pos_bound c (Z.of_nat (length (r_buf r))) H). lia.
Qed.

Lemma slot_get r c : 0 < ring_capacity r -> exists sl, r_buf r !! slot_idx r c = Some sl.
Proof. intros H. apply lookup_lt_is_Some, slot_idx_lt, H. Qed.

(** Two counters less than a capacity apart use different slots. *)
Lemma slot_idx_ne r a b : 0 < ring_capacity r -> a < b < a + ring_capacity r ->
  slot_idx r a <> slot_idx r b.
Proof.
  unfold slot_idx. intros Hc Hab E. set (n := ring_capacity r) in *.
  pose proof (Z.mod_pos_bound a n Hc). pose proof (Z.mod_pos_bound b n Hc).
  assert (a mod n = b mod n) as Em by lia.
  rewrite !Z.mod_eq in Em by lia. assert (b - a = n * (b / n - a / n)) as D by lia.
  assert (0 < b / n - a / n < 1 \/ b / n - a / n <= 0 \/ 1 <= b / n - a / n) as [?|[?|?]] by lia; nia.
Qed.

Lemma length_items_from r h n : 0 < ring_capacity r -> length (items_from r h n) = n.
Proof.
  intros Hc. revert h. induction n as [|n IH]; intros h; simpl; [done|].
  destruct (slot_get r h Hc) as [sl ->]. simpl. by rewrite IH.
Qed.

Lemma lookup_items_from r h n i : 0 < ring_capacity r ->
  items_from r h n !! i = if decide (i < n)%nat then r_buf r !! slot_idx r (h + Z.of_nat i) else None.
Proof.
  intros Hc. revert h i. induction n as [|n IH]; intros h i; simpl; [done|].
  destruct (slot_get r h Hc) as [sl E]. rewrite E. destruct i as [|i]; simpl.
  - by rewrite Z.add_0_r.
  - rewrite IH. replace (h + 1 + Z.of_nat i) with (h + Z.of_nat (S i)) by lia.
    repeat case_decide; try done; lia.
Qed.

Lemma items_from_app r h n m :
  0 < ring_capacity r ->
  items_from r h (n + m) = items_from r h n ++ items_from r (h + Z.of_nat n) m.
Proof.
  intros Hc. revert h. induction n as [|n IH]; intros h; simpl; [by rewrite Z.add_0_r|].
  destruct (slot_get r h Hc) as [sl ->]. rewrite IH. simpl. do 3 f_equal. lia.
Qed.

(** Writing a slot outside the window leaves the window as it was. *)
Lemma items_from_write r t sl h n :
  0 < ring_capacity r -> h + Z.of_nat n <= t < h + ring_capacity r ->
  items_from (write_slot r t sl) h n = items_from r h n.
Proof.
  intros Hc. revert h. induction n as [|n IH]; intros h Ht; [done|].
  assert (forall c, slot_idx (write_slot r t sl) c = slot_idx r c) as Hidx.
  { intros c. unfold slot_idx, ring_capacity. simpl. by rewrite length_insert. }
  cbn [items_from]. rewrite Hidx. cbn [write_slot r_buf].
  rewrite list_lookup_insert_ne by (apply not_eq_sym, slot_idx_ne; [done|lia]).
  destruct (_ !! _); [|done]. f_equal. apply IH. lia.
Qed.

Lemma capacity_write r t sl : ring_capacity (write_slot r t sl) = ring_capacity r.
Proof. unfold ring_capacity. simpl. by rewrite length_insert. Qed.

Lemma lookup_write r t sl : 0 < ring_capacity r ->
  r_buf (write_slot r t sl) !! slot_idx (write_slot r t sl) t = Some sl.
Proof.
  intros Hc. unfold slot_idx. rewrite capacity_write. cbn [write_slot r_buf].
  apply list_lookup_insert_eq, slot_idx_lt, Hc.
Qed.

(** The counters do not matter to the window. *)
Lemma items_from_set r r' h n : r_buf r' = r_buf r -> items_from r' h n = items_from r h n.
Proof.
  intros E. revert h. induction n as [|n IH]; intros h; [done|].
  cbn [items_from]. unfold slot_idx, ring_capacity. rewrite E. destruct (_ !! _); [|done].
  f_equal. apply IH.
Qed.

Lemma scan_marked_spec r bound fuel h :
  0 < ring_capacity r -> h <= r_tail r -> fuel = Z.to_nat (r_tail r - h) ->
  let h' := scan_marked r bound (r_tail r) fuel h in
  h <= h' <= r_tail r /\
  items_from r h' (Z.to_nat (r_tail r - h')) = drop_marked bound (items_from r h fuel).
Proof.
  intros Hc. revert h. induction fuel as [|fuel IH]; intros h Hh Hf; cbn [scan_marked items_from].
  - split; [lia|]. by rewrite <- Hf.
  - destruct (Z.ltb_spec h (r_tail r)); [|lia].
    destruct (slot_get r h Hc) as [sl E]. rewrite E. cbn [drop_marked].
    destruct (sl_generation sl >? bound).
    + split; [lia|]. rewrite <- Hf. cbn [items_from]. by rewrite E.
    + destruct (IH (h + 1)) as [Hr Hi]; [lia|lia|]. split; [lia|done].
Qed.

Definition op_ok (o : ring_op) : bool :=
  match o with RO_Peek k => 0 <=? k | _ => true end.

Lemma ring_items_len r : ring_wf r -> Z.of_nat (length (ring_items r)) = ring_len r.
Proof.
  intros (Hc & Hh & Hl). unfold ring_items. rewrite length_items_from by done.
  unfold ring_len in *. lia.
Qed.

Lemma push_items r sl : ring_wf r -> ring_len r < ring_capacity r ->
  ring_items (set_tail (write_slot r (r_tail r) sl) (r_tail r + 1)) = ring_items r ++ [sl].
Proof.
  intros (Hc & Hh & Hl) Hlt. unfold ring_items, ring_len in *. set (w := write_slot r (r_tail r) sl).
  change (r_head (set_tail w (r_tail r + 1))) with (r_head r).
  change (r_tail (set_tail w (r_tail r + 1))) with (r_tail r + 1).
  rewrite (items_from_set w (set_tail w _)) by done.
  replace (Z.to_nat (r_tail r + 1 - r_head r)) with (Z.to_nat (r_tail r - r_head r) + 1)%nat by lia.
  rewrite items_from_app by (unfold w; by rewrite capacity_write).
  unfold w at 1. rewrite items_from_write by (done || lia). f_equal.
  replace (r_head r + Z.of_nat (Z.to_nat (r_tail r - r_head r))) with (r_tail r) by lia.
  cbn [items_from]. unfold w. by rewrite lookup_write.
Qed.

Lemma push_refines r s : ring_wf r ->
  let '(r', b) := try_push r s in
  ring_wf r' /\ aq_run (RO_Push s) (ring_abs r) = (ring_abs r', RR_Bool b).
Proof.
  intros Hwf. pose proof Hwf as (Hc & Hh & Hl). unfold try_push, ring_len in *.
  cbn [aq_run ring_abs aq_cap aq_items aq_fill aq_bound].
  rewrite ring_items_len by done. unfold ring_len.
  rewrite Z.geb_leb. destruct (Z.leb_spec (ring_capacity r) (r_tail r - r_head r)).
  - split; [done|]. by destruct (Z.ltb_spec (r_tail r - r_head r) (ring_capacity r)); [lia|].
  - destruct (Z.ltb_spec (r_tail r - r_head r) (ring_capacity r)); [|lia].
    set (sl := mkSlot s (r_fill_generation r)).
    assert (ring_capacity (set_tail (write_slot r (r_tail r) sl) (r_tail r + 1)) = ring_capacity r)
      as Hcap by apply capacity_write.
    split.
    + unfold ring_wf, ring_len. rewrite Hcap. simpl. lia.
    + f_equal. unfold ring_abs. rewrite Hcap. f_equal. symmetry. by apply push_items.
Qed.

Lemma pop_refines r : ring_wf r ->
  let '(r', s) := pop r in
  ring_wf r' /\ aq_run RO_Pop (ring_abs r) = (ring_abs r', RR_Sample s).
Proof.
  intros (Hc & Hh & Hl). unfold pop, ring_len in *. cbn [aq_run ring_abs aq_items].
  unfold ring_items, ring_len. destruct (Z.eqb_spec (r_head r) (r_tail r)) as [E|E].
  - split; [done|]. replace (Z.to_nat (r_tail r - r_head r)) with 0%nat by lia. simpl.
    unfold ring_abs, ring_items, ring_len. by replace (Z.to_nat (r_tail r - r_head r)) with 0%nat by lia.
  - split; [unfold ring_wf, ring_len; simpl; unfold ring_capacity in *; simpl; lia|].
    destruct (Z.to_nat (r_tail r - r_head r)) as [|n] eqn:En; [lia|]. cbn [items_from].
    destruct (slot_get r (r_head r) Hc) as [sl Esl]. rewrite Esl. simpl. f_equal.
    unfold ring_abs, ring_items, ring_len. simpl. f_equal.
    replace (Z.to_nat (r_tail r - (r_head r + 1))) with n by lia.
    symmetry. by apply items_from_set.
Qed.

Lemma clear_marked_refines r : ring_wf r ->
  let '(r', n) := clear_marked r in
  ring_wf r' /\ aq_run RO_ClearMarked (ring_abs r) = (ring_abs r', RR_Count n).
Proof.
  intros Hwf. pose proof Hwf as (Hc & Hh & Hl). unfold clear_marked.
  destruct (scan_marked_spec r (r_flush_generation r) (Z.to_nat (ring_len r)) (r_head r))
    as [Hr Hi]; [done|lia|done|].
  set (h := scan_marked _ _ _ _ _) in *. cbv zeta.
  split; [unfold ring_wf, ring_len, ring_capacity in *; simpl; lia|].
  cbn [aq_run ring_abs aq_items aq_bound]. fold (ring_items r) in Hi. rewrite <- Hi.
  rewrite ring_items_len by done. rewrite length_items_from by done.
  f_equal; [|f_equal; unfold ring_len; lia].
  unfold ring_abs, ring_items, ring_len. simpl. f_equal. symmetry. by apply items_from_set.
Qed.

(** C33: every operation of the ring, with its index arithmetic modulo the
    capacity, its counters and its scan, does to the queue of the slots in the
    ring what the plain queue specification says and gives the same answer: push
    appends or reports full, pop and peek take the oldest, a bounded flush drops
    exactly the longest prefix of generations at or below the mark. *)
Theorem ring_refines o r :
  ring_wf r -> op_ok o = true ->
  let '(r', a) := ring_run o r in
  ring_wf r' /\ aq_run o (ring_abs r) = (ring_abs r', a).
Proof.
  intros Hwf Hok. destruct o as [s| | |k| | |]; cbn [ring_run].
  - pose proof (push_refines r s Hwf) as H. by destruct (try_push r s).
  - split; [done|]. unfold ring_abs, ring_items. simpl. do 2 f_equal. symmetry. by apply items_from_set.
  - pose proof (pop_refines r Hwf) as H. by destruct (pop r).
  - split; [done|]. cbn [aq_run ring_abs aq_items]. do 2 f_equal. unfold peek_offset, ring_items.
    destruct Hwf as (Hc & Hh & Hl). rewrite lookup_items_from by done. simpl in Hok.
    rewrite Z.geb_leb. unfold ring_len in *.
    destruct (Z.leb_spec (r_tail r - r_head r) k); case_decide; try lia; [done|].
    by replace (r_head r + Z.of_nat (Z.to_nat k)) with (r_head r + k) by lia.
  - destruct Hwf as (Hc & Hh & Hl). unfold ring_wf, ring_len in *. simpl.
    split; [unfold ring_capacity in *; simpl; lia|].
    rewrite ring_items_len by done. unfold ring_abs, ring_items, ring_len. simpl.
    by replace (Z.to_nat (r_tail r - r_tail r)) with 0%nat by lia.
  - pose proof (clear_marked_refines r Hwf) as H. by destruct (clear_marked r).
  - split; [done|]. unfold ring_abs, ring_items. simpl. do 2 f_equal. symmetry. by apply items_from_set.
Qed.

(** Three slots, one already consumed, the next at the end of the buffer. *)
Definition sample_of (n : Z) : Sample :=
  mkSample [n] [] [] [] None (mkSampleMeta n 0 false).
Definition ring_example : RingShared :=
  fold_left (fun r o => fst (ring_run o r))
    [RO_Push (sample_of 1); RO_Push (sample_of 2); RO_Pop; RO_Mark; RO_Begin; RO_Push (sample_of 3);
     RO_Push (sample_of 4)]
    (mkRing (replicate 3 (mkSlot sample_default 0)) 0 0 1 0).

Lemma ring_refines_witness :
  ring_wf ring_example /\
  (let '(r', a) := ring_run RO_ClearMarked ring_example in
   ring_wf r' /\ aq_run RO_ClearMarked (ring_abs ring_example) = (ring_abs r', a)) /\
  snd (ring_run RO_ClearMarked ring_example) = RR_Count 1.
Proof.
  assert (ring_wf ring_example) as Hwf by (vm_compute; repeat split; discriminate).
  split; [exact Hwf|]. split; [|reflexivity].
  exact (ring_refines RO_ClearMarked ring_example Hwf eq_refl).
Defined.

(** ** Interleaving *)

(** Where the producer stands in [try_push]: the slot and counter it works on. *)
Inductive prod_pc :=
| PIdle
| PReserved (t : Z) (sl : Slot)
| PWritten (t : Z) (sl : Slot).

(** Where the consumer stands in [pop], [clear] and [clear_marked]. *)
Inductive cons_pc :=
| CIdle
| CPop (h : Z)
| CPopped (h : Z) (s : Sample)
| CClear (tl : Z)
| CScan (bound tl start head : Z)
| CFlush (bound start head : Z).

Record RState := mkRState {
  rs_ring : RingShared;
  rs_prod : prod_pc;
  rs_cons : cons_pc;
  (** Generations loaded by markers that have not done their [fetch_max] yet. *)
  rs_pending : list Z;
  (** What happened: every slot pushed, the pops (counter and value, newest
      first), the counters dropped by a bounded flush, the generations marked. *)
  rs_log : list Slot;
  rs_out : list (Z * Sample);
  rs_dropped : list Z;
  rs_marked : list Z;
}.

Definition rs_init (r : RingShared) : RState := mkRState r PIdle CIdle [] [] [] [] [].

(** One atomic access of one of the threads. *)
Inductive rstep : RState -> RState -> Prop :=
| St_push_load r s c m l o d k :
    (r_tail r - r_head r >=? ring_capacity r) = false ->
    rstep (mkRState r PIdle c m l o d k)
          (mkRState r (PReserved (r_tail r) (mkSlot s (r_fill_generation r))) c m l o d k)
| St_push_write r t sl c m l o d k :
    rstep (mkRState r (PReserved t sl) c m l o d k)
          (mkRState (write_slot r t sl) (PWritten t sl) c m l o d k)
| St_push_publish r t sl c m l o d k :
    rstep (mkRState r (PWritten t sl) c m l o d k)
          (mkRState (set_tail r (t + 1)) PIdle c m (l ++ [sl]) o d k)
| St_begin r c m l o d k :
    rstep (mkRState r PIdle c m l o d k)
          (mkRState (fst (begin_generation r)) PIdle c m l o d k)
| St_pop_load r p m l o d k :
    (r_head r =? r_tail r) = false ->
    rstep (mkRState r p CIdle m l o d k) (mkRState r p (CPop (r_head r)) m l o d k)
| St_pop_read r p h sl m l o d k :
    r_buf r !! slot_idx r h = Some sl ->
    rstep (mkRState r p (CPop h) m l o d k) (mkRState r p (CPopped h (sl_sample sl)) m l o d k)
| St_pop_store r p h s m l o d k :
    rstep (mkRState r p (CPopped h s) m l o d k)
          (mkRState (set_head r (h + 1)) p CIdle m l ((h, s) :: o) d k)
| St_clear_load r p m l o d k :
    rstep (mkRState r p CIdle m l o d k) (mkRState r p (CClear (r_tail r)) m l o d k)
| St_clear_store r p tl m l o d k :
    rstep (mkRState r p (CClear tl) m l o d k) (mkRState (set_head r tl) p CIdle m l o d k)
| St_flush_load r p m l o d k :
    rstep (mkRState r p CIdle m l o d k)
          (mkRState r p (CScan (r_flush_generation r) (r_tail r) (r_head r) (r_head r)) m l o d k)
| St_flush_next r p b tl st h sl m l o d k :
    (h <? tl) = true -> r_buf r !! slot_idx r h = Some sl -> (sl_generation sl >? b) = false ->
    rstep (mkRState r p (CScan b tl st h) m l o d k)
          (mkRState r p (CScan b tl st (h + 1)) m l o d k)
| St_flush_stop r p b tl st h m l o d k :
    (h <? tl) = false \/
      (exists sl, r_buf r !! slot_idx r h = Some sl /\ (sl_generation sl >? b) = true) ->
    rstep (mkRState r p (CScan b tl st h) m l o d k) (mkRState r p (CFlush b st h) m l o d k)
| St_flush_store r p b st h m l o d k :
    rstep (mkRState r p (CFlush b st h) m l o d k)
          (mkRState (set_head r h) p CIdle m l o (seqZ st (h - st) ++ d) k)
| St_mark_load r p c m l o d k :
    rstep (mkRState r p c m l o d k) (mkRState r p c (r_fill_generation r :: m) l o d k)
| St_mark_max r p c m1 g m2 l o d k :
    rstep (mkRState r p c (m1 ++ g :: m2) l o d k)
          (mkRState (set_flush r (Z.max (r_flush_generation r) g)) p c (m1 ++ m2) l o d (g :: k)).

Inductive rreach (st0 : RState) : RState -> Prop :=
| RR_init : rreach st0 st0
| RR_step st st' : rreach st0 st -> rstep st st' -> rreach st0 st'.

(** ** What holds at every point of every interleaving *)

(** The slot pushed at counter [i]. *)
Definition logged (l : list Slot) (i : Z) (sl : Slot) : Prop := 0 <= i /\ l !! Z.to_nat i = Some sl.

Definition prod_inv (r : RingShared) (p : prod_pc) : Prop :=
  match p with
  | PIdle => True
  | PReserved t sl => t = r_tail r /\ r_tail r < r_head r + ring_capacity r
  | PWritten t sl => t = r_tail r /\ r_tail r < r_head r + ring_capacity r /\
                     r_buf r !! slot_idx r t = Some sl
  end.

Definition cons_inv (r : RingShared) (l : list Slot) (c : cons_pc) : Prop :=
  match c with
  | CIdle => True
  | CPop h => h = r_head r /\ h < r_tail r
  | CPopped h s => h = r_head r /\ h < r_tail r /\ exists sl, logged l h sl /\ s = sl_sample sl
  | CClear tl => r_head r <= tl <= r_tail r
  | CScan b tl st h =>
      st = r_head r /\ st <= h <= tl /\ tl <= r_tail r /\ b <= r_flush_generation r /\
      (forall i sl, st <= i < h -> logged l i sl -> sl_generation sl <= b)
  | CFlush b st h =>
      st = r_head r /\ st <= h <= r_tail r /\ b <= r_flush_generation r /\
      (forall i sl, st <= i < h -> logged l i sl -> sl_generation sl <= b)
  end.

(** Pops in order: newest first, counters strictly falling. *)
Fixpoint falling (bound : Z) (o : list (Z * Sample)) : Prop :=
  match o with
  | [] => True
  | (i, _) :: o' => i < bound /\ falling i o'
  end.

Record RInv (st : RState) : Prop := mkRInv {
  ri_wf : ring_wf (rs_ring st);
  ri_len : Z.of_nat (length (rs_log st)) = r_tail (rs_ring st);
  ri_slots : forall i sl, r_head (rs_ring st) <= i < r_tail (rs_ring st) ->
    logged (rs_log st) i sl -> r_buf (rs_ring st) !! slot_idx (rs_ring st) i = Some sl;
  ri_prod : prod_inv (rs_ring st) (rs_prod st);
  ri_cons : cons_inv (rs_ring st) (rs_log st) (rs_cons st);
  ri_out : forall i s, In (i, s) (rs_out st) -> exists sl, logged (rs_log st) i sl /\ s = sl_sample sl;
  ri_falling : falling (r_head (rs_ring st)) (rs_out st);
  ri_dropped : forall i, In i (rs_dropped st) -> i < r_head (rs_ring st) /\
    forall sl, logged (rs_log st) i sl -> sl_generation sl <= r_flush_generation (rs_ring st);
  ri_marked : r_flush_generation (rs_ring st) <= 0 \/ In (r_flush_generation (rs_ring st)) (rs_marked st);
}.

Lemma logged_snoc l x i sl : logged (l ++ [x]) i sl <->
  logged l i sl \/ (i = Z.of_nat (length l) /\ sl = x).
Proof.
  unfold logged. rewrite lookup_app. split.
  - intros [Hi H]. destruct (l !! Z.to_nat i) as [y|] eqn:E.
    + simplify_eq. auto.
    + apply lookup_ge_None in E. apply list_lookup_singleton_Some in H as [H ->].
      right. split; [lia|done].
  - intros [[Hi H]|[-> ->]]; [by rewrite H|]. split; [lia|].
    rewrite Nat2Z.id, lookup_ge_None_2 by lia. by rewrite Nat.sub_diag.
Qed.

Lemma logged_lt l i sl : logged l i sl -> 0 <= i < Z.of_nat (length l).
Proof. intros [Hi H]. apply lookup_lt_Some in H. lia. Qed.

Lemma slot_idx_write r t sl i : slot_idx (write_slot r t sl) i = slot_idx r i.
Proof. unfold slot_idx. by rewrite capacity_write. Qed.

(** The slot being written is none of those in the window. *)
Lemma window_write r sl i :
  ring_wf r -> r_tail r < r_head r + ring_capacity r -> r_head r <= i < r_tail r ->
  r_buf (write_slot r (r_tail r) sl) !! slot_idx (write_slot r (r_tail r) sl) i =
  r_buf r !! slot_idx r i.
Proof.
  intros (Hc & Hh & Hl) Ht Hi. rewrite slot_idx_write. cbn [write_slot r_buf].
  apply list_lookup_insert_ne, not_eq_sym, slot_idx_ne; [done|lia].
Qed.

Lemma falling_weaken b b' o : b <= b' -> falling b o -> falling b' o.
Proof. destruct o as [|[i s] o]; simpl; [done|]. intros ? [? ?]. split; [lia|done]. Qed.

(** A larger log only adds the newest slot. *)
Lemma cons_inv_snoc r l x c :
  Z.of_nat (length l) = r_tail r -> cons_inv r l c -> cons_inv (set_tail r (r_tail r + 1)) (l ++ [x]) c.
Proof.
  intros Hl. destruct c; simpl; try lia.
  - intros (? & ? & sl & Hs & ?). repeat split; try lia. exists sl. split; [|done].
    apply logged_snoc. by left.
  - intros (? & ? & ? & ? & H). repeat split; try lia. intros i sl Hi Hs.
    apply logged_snoc in Hs as [Hs|[-> _]]; [eauto|lia].
  - intros (? & ? & ? & H). repeat split; try lia. intros i sl Hi Hs.
    apply logged_snoc in Hs as [Hs|[-> _]]; [eauto|lia].
Qed.

Lemma cons_inv_head r l c : cons_inv r l c ->
  match c with
  | CPopped h s => r_head r = h /\ h < r_tail r
  | CClear tl => r_head r <= tl <= r_tail r
  | CFlush b st h => r_head r = st /\ st <= h <= r_tail r
  | _ => True
  end.
Proof. destruct c; simpl; try done; lia. Qed.

Ltac ring_inv H := destruct H as [Hwf Hlen Hslots Hp Hc Hout Hfall Hdrop Hmark]; cbn in *.

(** Moving the head forward inside the window. *)
Lemma inv_head r p c m l o d k h :
  RInv (mkRState r p c m l o d k) -> r_head r <= h <= r_tail r ->
  RInv (mkRState (set_head r h) p CIdle m l o d k).
Proof.
  intros H Hh. ring_inv H. destruct Hwf as (Hcap & Hht & Hl).
  constructor; cbn; try done.
  - unfold ring_wf, ring_len, ring_capacity in *. simpl. lia.
  - intros i sl Hi. apply Hslots. lia.
  - destruct p; unfold prod_inv, ring_capacity in *; simpl in *; try lia; try done.
    destruct Hp as (? & ? & ?). repeat split; try lia. done.
  - eapply falling_weaken; [|exact Hfall]. lia.
  - intros i Hi. destruct (Hdrop i Hi). split; [lia|done].
Qed.

Lemma inv_push_write r t sl c m l o d k :
  RInv (mkRState r (PReserved t sl) c m l o d k) ->
  RInv (mkRState (write_slot r t sl) (PWritten t sl) c m l o d k).
Proof.
  intros H. ring_inv H. destruct Hp as [-> Hroom]. pose proof Hwf as (Hcap & Hht & Hl).
  constructor; cbn; try done.
  - unfold ring_wf, ring_len. rewrite capacity_write. done.
  - intros i x Hi Hx. rewrite window_write by done. eauto.
  - rewrite capacity_write, lookup_write by done. done.
Qed.

Lemma inv_push_publish r t sl c m l o d k :
  RInv (mkRState r (PWritten t sl) c m l o d k) ->
  RInv (mkRState (set_tail r (t + 1)) PIdle c m (l ++ [sl]) o d k).
Proof.
  intros H. ring_inv H. destruct Hp as (-> & Hroom & Hslot). pose proof Hwf as (Hcap & Hht & Hl).
  constructor; cbn; try done.
  - unfold ring_wf, ring_len, ring_capacity in *. simpl. lia.
  - rewrite length_app. simpl. lia.
  - intros i x Hi [Hx|[-> ->]]%logged_snoc.
    + pose proof (logged_lt _ _ _ Hx). apply (Hslots i x); [lia|done].
    + by rewrite Hlen.
  - by apply cons_inv_snoc.
  - intros i s (y & Hy & ->)%Hout. exists y. split; [|done]. apply logged_snoc. by left.
  - intros i Hi. destruct (Hdrop i Hi) as [Hlt Hg]. split; [done|].
    intros x [Hx|[-> ->]]%logged_snoc; [eauto|lia].
Qed.

Lemma inv_pop_store r p h s m l o d k :
  RInv (mkRState r p (CPopped h s) m l o d k) ->
  RInv (mkRState (set_head r (h + 1)) p CIdle m l ((h, s) :: o) d k).
Proof.
  intros H. pose proof H as H'. ring_inv H'. destruct Hc as (-> & Hlt & sl & Hs & ->).
  pose proof Hwf as (Hcap & Hht & Hl).
  apply (inv_head _ _ _ _ _ _ _ _ (r_head r + 1)) in H; [|lia]. destruct H. cbn in *.
  constructor; cbn; try done.
  - intros i x [[= <- <-]|Hi]; [|eauto]. by exists sl.
  - split; [lia|done].
Qed.

Lemma inv_flush_store r p b st h m l o d k :
  RInv (mkRState r p (CFlush b st h) m l o d k) ->
  RInv (mkRState (set_head r h) p CIdle m l o (seqZ st (h - st) ++ d) k).
Proof.
  intros H. pose proof H as H'. ring_inv H'. destruct Hc as (-> & Hlt & Hb & Hgen).
  apply (inv_head _ _ _ _ _ _ _ _ h) in H; [|lia]. destruct H. cbn in *.
  constructor; cbn; try done.
  intros i [Hi|Hi]%in_app_or; [|eauto].
  apply list_elem_of_In, elem_of_seqZ in Hi. split; [lia|]. intros sl Hs.
  specialize (Hgen i sl ltac:(lia) Hs). lia.
Qed.

Lemma inv_flush_next r p b tl st h sl m l o d k :
  (h <? tl) = true -> r_buf r !! slot_idx r h = Some sl -> (sl_generation sl >? b) = false ->
  RInv (mkRState r p (CScan b tl st h) m l o d k) ->
  RInv (mkRState r p (CScan b tl st (h + 1)) m l o d k).
Proof.
  intros Hlt Hsl Hb H. ring_inv H. destruct Hc as (-> & Hh & Htl & Hbf & Hgen).
  constructor; cbn; try done. repeat split; try lia.
  intros i x Hi Hx. destruct (decide (i = h)) as [->|]; [|apply (Hgen i x); [lia|done]].
  rewrite (Hslots h x) in Hsl by (done || lia). injection Hsl as ->. lia.
Qed.

Lemma inv_mark_max r p c m1 g m2 l o d k :
  RInv (mkRState r p c (m1 ++ g :: m2) l o d k) ->
  RInv (mkRState (set_flush r (Z.max (r_flush_generation r) g)) p c (m1 ++ m2) l o d (g :: k)).
Proof.
  intros H. ring_inv H. constructor; cbn; try done.
  - destruct c; simpl in *; try done; intuition lia.
  - intros i Hi. destruct (Hdrop i Hi) as [? Hg]. split; [done|]. intros sl Hs.
    specialize (Hg sl Hs). lia.
  - destruct (Z.max_spec (r_flush_generation r) g) as [[? ->]|[? ->]]; tauto.
Qed.

(** Changing only the consumer's place. *)
Lemma inv_cons r p c c' m m' l o d k :
  cons_inv r l c' -> RInv (mkRState r p c m l o d k) -> RInv (mkRState r p c' m' l o d k).
Proof. intros Hc' H. ring_inv H. by constructor. Qed.

Lemma rstep_inv st st' : RInv st -> rstep st st' -> RInv st'.
Proof.
  intros H Hstep. destruct Hstep;
    eauto using inv_push_write, inv_push_publish, inv_pop_store, inv_flush_store, inv_flush_next,
      inv_mark_max.
  - ring_inv H. constructor; cbn; try done. unfold ring_wf, ring_len in Hwf.
    split; [done|]. rewrite Z.geb_leb in H0. lia.
  - ring_inv H. constructor; cbn; try done; destruct c; done.
  - eapply inv_cons; [|exact H]. ring_inv H. destruct Hwf as (? & ? & ?). simpl. lia.
  - eapply inv_cons; [|exact H]. ring_inv H. destruct Hc as [-> Hlt]. destruct Hwf as (? & ? & ?).
    repeat split; try done.
    destruct (lookup_lt_is_Some_2 l (Z.to_nat (r_head r))) as [x Hx]; [lia|].
    assert (logged l (r_head r) x) as Hlog by (split; [lia|done]).
    exists x. split; [done|]. rewrite (Hslots (r_head r) x) in H0 by (lia || done). by injection H0 as ->.
  - eapply inv_cons; [|exact H]. ring_inv H. destruct Hwf as (? & ? & ?). simpl. lia.
  - eapply inv_head; [exact H|]. by ring_inv H.
  - eapply inv_cons; [|exact H]. ring_inv H. destruct Hwf as (? & ? & ?).
    repeat split; lia.
  - eapply inv_cons; [|exact H]. ring_inv H. destruct Hc as (? & ? & ? & ? & ?).
    repeat split; try lia. done.
  - eapply inv_cons; [|exact H]. by ring_inv H.
Qed.

Lemma init_inv n r : sample_ring n = Some r -> RInv (rs_init r).
Proof.
  destruct n as [|n]; [done|]. intros [= <-]. constructor; cbn; try done; try lia.
Qed.

Lemma reach_inv n r st : sample_ring n = Some r -> rreach (rs_init r) st -> RInv st.
Proof. intros Hr. induction 1; eauto using init_inv, rstep_inv. Qed.

(** ** Theorems of the interleaving *)

(** At every point of every interleaving of producer, consumer and flush
    markers, what the consumer has popped is, in the order of the counters and
    each counter at most once, exactly what the producer pushed at that counter:
    no sample is reordered, duplicated, torn or overwritten, and the ring never
    holds more than its capacity. *)
Lemma ring_fifo n r st :
  sample_ring n = Some r -> rreach (rs_init r) st ->
  falling (r_head (rs_ring st)) (rs_out st) /\
  (forall i s, In (i, s) (rs_out st) ->
     exists sl, logged (rs_log st) i sl /\ s = sl_sample sl) /\
  0 <= ring_len (rs_ring st) <= ring_capacity (rs_ring st).
Proof.
  intros Hr Hst. destruct (reach_inv _ _ _ Hr Hst) as [(? & ? & ?) ? ? ? ? ? ? ? ?].
  repeat split; try done. unfold ring_len in *. lia.
Qed.

(** The producer is about to write, or the consumer about to read, slot [i]. *)
Definition writes_slot (st : RState) (i : nat) : Prop :=
  match rs_prod st with PReserved t _ => slot_idx (rs_ring st) t = i | _ => False end.
Definition reads_slot (st : RState) (i : nat) : Prop :=
  match rs_cons st with
  | CPop h => slot_idx (rs_ring st) h = i
  | CScan _ tl _ h => h < tl /\ slot_idx (rs_ring st) h = i
  | _ => False
  end.

(** The two unsynchronised slot accesses are never enabled on the same slot:
    the safety argument of the [unsafe] blocks (a producer writes outside the
    window the consumer reads). *)
Lemma ring_no_race n r st i :
  sample_ring n = Some r -> rreach (rs_init r) st -> writes_slot st i -> ~ reads_slot st i.
Proof.
  intros Hr Hst. destruct (reach_inv _ _ _ Hr Hst) as [(Hcap & ? & ?) ? ? Hp Hc ? ? ? ?].
  unfold writes_slot, reads_slot. destruct (rs_prod st) as [|t sl|]; try done.
  destruct Hp as [-> Hroom]. intros <-.
  destruct (rs_cons st); simpl in Hc; try tauto.
  - apply slot_idx_ne; [done|]. lia.
  - intros [Hlt E]. revert E. apply slot_idx_ne; [done|]. lia.
Qed.

(** A bounded flush only ever drops samples of a generation some marker
    marked, or an older one: the samples of a program queued after the stop, which
    carry a later generation, survive whatever the timing of the flush. *)
Lemma ring_flush_bounded n r st i sl :
  sample_ring n = Some r -> rreach (rs_init r) st ->
  In i (rs_dropped st) -> logged (rs_log st) i sl -> 1 <= sl_generation sl ->
  exists g, In g (rs_marked st) /\ sl_generation sl <= g.
Proof.
  intros Hr Hst Hi Hs Hg. destruct (reach_inv _ _ _ Hr Hst) as [? ? ? ? ? ? ? Hdrop Hm].
  destruct (Hdrop i Hi) as [_ Hd]. specialize (Hd sl Hs).
  exists (r_flush_generation (rs_ring st)). destruct Hm; [lia|done].
Qed.

(** ** A run: two pushes, a pop overlapping the second, a flush of the rest *)

Definition demo_ring : RingShared := mkRing (replicate 2 (mkSlot sample_default 0)) 0 0 1 0.
Definition demo_slot (n : Z) : Slot := mkSlot (sample_of n) 1.

(** The first sample is in, the second reserved, the consumer about to read. *)
Definition demo_mid : RState :=
  mkRState (mkRing [demo_slot 1; mkSlot sample_default 0] 0 1 1 0)
    (PReserved 1 (demo_slot 2)) (CPop 0) [] [demo_slot 1] [] [] [].

Definition demo_end : RState :=
  mkRState (mkRing [demo_slot 1; demo_slot 2] 2 2 1 1) PIdle CIdle []
    [demo_slot 1; demo_slot 2] [(0, sample_of 1)] [1] [1].

(** Append one step to the run [H]. *)
Ltac run_step H c :=
  let H' := fresh in
  eassert (rreach (rs_init demo_ring) _) as H' by (eapply RR_step; [exact H|c; reflexivity]);
  clear H; rename H' into H.

Lemma demo_mid_reach : rreach (rs_init demo_ring) demo_mid.
Proof.
  pose proof (RR_init (rs_init demo_ring)) as H. unfold rs_init at 2 in H.
  run_step H ltac:(apply (St_push_load _ (sample_of 1))).
  run_step H ltac:(refine (St_push_write _ _ _ _ _ _ _ _ _)).
  run_step H ltac:(refine (St_push_publish _ _ _ _ _ _ _ _ _)).
  run_step H ltac:(apply (St_push_load _ (sample_of 2))).
  run_step H ltac:(apply St_pop_load).
  exact H.
Qed.

Lemma demo_end_reach : rreach (rs_init demo_ring) demo_end.
Proof.
  pose proof demo_mid_reach as H. unfold demo_mid in H.
  run_step H ltac:(apply (St_pop_read _ _ _ (demo_slot 1))).
  run_step H ltac:(refine (St_push_write _ _ _ _ _ _ _ _ _)).
  run_step H ltac:(refine (St_mark_load _ _ _ _ _ _ _ _)).
  run_step H ltac:(refine (St_push_publish _ _ _ _ _ _ _ _ _)).
  run_step H ltac:(refine (St_pop_store _ _ _ _ _ _ _ _ _)).
  run_step H ltac:(refine (St_mark_max _ _ _ [] _ [] _ _ _ _)).
  run_step H ltac:(refine (St_flush_load _ _ _ _ _ _ _)).
  run_step H ltac:(apply (St_flush_next _ _ _ _ _ _ (demo_slot 2))).
  run_step H ltac:(apply St_flush_stop; left).
  run_step H ltac:(refine (St_flush_store _ _ _ _ _ _ _ _ _ _)).
  exact H.
Qed.

Lemma ring_fifo_witness :
  falling 2 [(0, sample_of 1)] /\
  (forall i s, In (i, s) [(0, sample_of 1)] ->
     exists sl, logged [demo_slot 1; demo_slot 2] i sl /\ s = sl_sample sl) /\ 0 <= 0 <= 2.
Proof. exact (ring_fifo 2 demo_ring demo_end eq_refl demo_end_reach). Defined.

Lemma ring_no_race_witness : ~ reads_slot demo_mid 1.
Proof. exact (ring_no_race 2 demo_ring demo_mid 1 eq_refl demo_mid_reach eq_refl). Defined.

Lemma ring_flush_bounded_witness : exists g, In g [1] /\ 1 <= g.
Proof.
  apply (ring_flush_bounded 2 demo_ring demo_end 1 (demo_slot 2) eq_refl demo_end_reach);
    [by left | by split | done].
Defined.
