(* ===== verification/RtState.v ===== *)
(** * RtState: modes and the error latch of the RT core

    The mode, arm-state and error-key enumerations and [ErrorList] of
    [crates/par6-rt/src/state.rs], and [ErrorManager] of
    [crates/par6-rt/src/errors.rs]: the bounded latch with its self-clearing
    warnings and the clear countdown.  The fixed array of the list is the list
    of its live entries.  The theorems: the list stays a bounded set, overflow
    never hides a hard error, and a clear wipes the latch exactly when its
    settle window ends. *)
From Stdlib Require Import SpecFloat.
From S2P Require Import Prelude F64.

(** ** Modes *)

Inductive Mode :=
| Booting
| Idle
| ActiveError
| Homing
| Jog
| Stream
| Exec
| HandGuiding
| Impedance
| SafetyStop
| Flashing.

Inductive ArmState := Disabled | Enabled.

#[export] Instance Mode_eq_dec : EqDecision Mode.
Proof. solve_decision. Defined.
#[export] Instance ArmState_eq_dec : EqDecision ArmState.
Proof. solve_decision. Defined.

(** [a == b] and [matches!(m, ...)] on modes. *)
Definition mode_eqb (a b : Mode) : bool := bool_decide (a = b).
Definition mode_in (m : Mode) (l : list Mode) : bool := existsb (mode_eqb m) l.

Lemma mode_eqb_spec a b : mode_eqb a b = true <-> a = b.
Proof. apply bool_decide_eq_true. Qed.

(** The phase of one actuator's homing ([HomingPhase]). *)
Inductive RtHomingPhase :=
| RHP_Idle | RHP_Approach | RHP_Dwell | RHP_Backoff | RHP_Pause | RHP_Release | RHP_Settle
| RHP_PostMove | RHP_Finished.

#[export] Instance RtHomingPhase_eq_dec : EqDecision RtHomingPhase.
Proof. solve_decision. Defined.

(** ** Error keys *)

Inductive ErrorCode :=
| EC_Estop | EC_SwEstop | EC_ExecLinkLost | EC_ExecSettleTimeout | EC_RtiLinkLost | EC_StreamFault
| EC_LoopDegraded | EC_LoopCritical | EC_NotHomed | EC_Temperature | EC_Encoder | EC_Vbus
| EC_Driver | EC_Velocity | EC_Current | EC_EstopMotor | EC_Watchdog | EC_CanLost | EC_CanStale
| EC_HomingFailed | EC_GripperFault | EC_GripperCalibrationFailed | EC_BusOff
| EC_LinkErrorPassive | EC_TorqueEnvelope.

#[export] Instance ErrorCode_eq_dec : EqDecision ErrorCode.
Proof. solve_decision. Defined.

Definition is_warning (c : ErrorCode) : bool :=
  match c with
  | EC_CanStale | EC_HomingFailed | EC_NotHomed | EC_LoopDegraded | EC_LinkErrorPassive => true
  | _ => false
  end.

Record ErrorEntry := mkErrorEntry { ee_code : ErrorCode; ee_joint : option Z }.

#[export] Instance ErrorEntry_eq_dec : EqDecision ErrorEntry.
Proof. solve_decision. Defined.

Definition MAX_ERRORS : nat := 32.

(** ** The list *)

Abbreviation ErrorList := (list ErrorEntry).

Definition el_contains (l : ErrorList) (e : ErrorEntry) : bool := existsb (fun x => bool_decide (x = e)) l.

(** The list afterwards, and whether the entry is present in it. *)
Definition el_insert (l : ErrorList) (e : ErrorEntry) : ErrorList * bool :=
  if el_contains l e then (l, true)
  else if (MAX_ERRORS <=? length l)%nat then (l, false)
  else (l ++ [e], true).

(** [position], then [copy_within]: the first equal entry goes. *)
Fixpoint el_remove (l : ErrorList) (e : ErrorEntry) : ErrorList * bool :=
  match l with
  | [] => ([], false)
  | x :: l' =>
      if bool_decide (x = e) then (l', true)
      else let '(l'', b) := el_remove l' e in (x :: l'', b)
  end.

Definition el_any_hard (l : ErrorList) : bool := existsb (fun e => negb (is_warning (ee_code e))) l.

(** ** The manager *)

Record ErrorManager := mkErrorManager {
  em_list : ErrorList;
  em_settle_ticks : Z;
  em_settle_left : Z;
}.

Definition CLEAR_SETTLE_S : f64 := 0x3FC374BC6A7EF9DB.

Definition em_new (dt : f64) : ErrorManager :=
  mkErrorManager []
    (Z.max (sf_round_as_uint 32 (sf_div (f64_to_SF CLEAR_SETTLE_S) (f64_to_SF dt))) 1) 0.

Definition em_set_list (m : ErrorManager) (l : ErrorList) : ErrorManager :=
  mkErrorManager l (em_settle_ticks m) (em_settle_left m).

Definition latch (m : ErrorManager) (code : ErrorCode) (joint : option Z) : ErrorManager :=
  let e := mkErrorEntry code joint in
  if el_contains (em_list m) e then m else em_set_list m (fst (el_insert (em_list m) e)).

(** [debug_assert!(code.is_warning())] is the caller's obligation. *)
Definition condition (m : ErrorManager) (code : ErrorCode) (joint : option Z) (active : bool)
  : ErrorManager :=
  let e := mkErrorEntry code joint in
  if active then
    (if el_contains (em_list m) e then m else em_set_list m (fst (el_insert (em_list m) e)))
  else em_set_list m (fst (el_remove (em_list m) e)).

Definition em_begin_clear (m : ErrorManager) : ErrorManager :=
  mkErrorManager (em_list m) (em_settle_ticks m) (em_settle_ticks m).

Definition em_tick (m : ErrorManager) : ErrorManager * bool :=
  if em_settle_left m =? 0 then (m, false)
  else
    let left := em_settle_left m - 1 in
    if left =? 0 then (mkErrorManager [] (em_settle_ticks m) left, true)
    else (mkErrorManager (em_list m) (em_settle_ticks m) left, false).

Definition clearing (m : ErrorManager) : bool := 0 <? em_settle_left m.
Definition any_hard (m : ErrorManager) : bool := el_any_hard (em_list m).

(** Every operation on the manager. *)
Inductive em_op :=
| EO_Latch (c : ErrorCode) (j : option Z)
| EO_Condition (c : ErrorCode) (j : option Z) (active : bool)
| EO_BeginClear
| EO_Tick.

Definition em_step (m : ErrorManager) (o : em_op) : ErrorManager :=
  match o with
  | EO_Latch c j => latch m c j
  | EO_Condition c j a => condition m c j a
  | EO_BeginClear => em_begin_clear m
  | EO_Tick => fst (em_tick m)
  end.

(** ** The list is a bounded set *)

Lemma el_contains_spec l e : el_contains l e = true <-> In e l.
Proof.
  unfold el_contains. rewrite existsb_exists. split.
  - intros (x & Hx & E). apply bool_decide_eq_true in E. by subst.
  - intros H. exists e. split; [done|]. by apply bool_decide_eq_true.
Qed.

Lemma el_contains_false l e : el_contains l e = false <-> ~ In e l.
Proof. rewrite <- el_contains_spec. by destruct (el_contains l e). Qed.

Lemma el_any_hard_spec l :
  el_any_hard l = true <-> exists e, In e l /\ is_warning (ee_code e) = false.
Proof.
  unfold el_any_hard. rewrite existsb_exists. split; intros (e & ? & H); exists e; split; try done.
  - by apply negb_true_iff.
  - by rewrite H.
Qed.

Lemma el_remove_sub l e x : In x (fst (el_remove l e)) -> In x l.
Proof.
  induction l as [|y l IH]; simpl; [done|]. case_bool_decide; simpl; [by right|].
  destruct (el_remove l e); simpl in *. tauto.
Qed.

Lemma el_remove_length l e : (length (fst (el_remove l e)) <= length l)%nat.
Proof.
  induction l as [|y l IH]; simpl; [done|]. case_bool_decide; simpl; [lia|].
  destruct (el_remove l e); simpl in *. lia.
Qed.

Lemma el_remove_nodup l e : List.NoDup l -> List.NoDup (fst (el_remove l e)).
Proof.
  induction 1 as [|y l Hy Hl IH]; simpl; [constructor|]. case_bool_decide; simpl; [done|].
  pose proof (el_remove_sub l e y). destruct (el_remove l e); simpl in *.
  constructor; tauto.
Qed.

Lemma el_remove_absent l e : List.NoDup l -> ~ In e (fst (el_remove l e)).
Proof.
  induction 1 as [|y l Hy Hl IH]; simpl; [tauto|]. case_bool_decide; simpl; [by subst|].
  destruct (el_remove l e); simpl in *. tauto.
Qed.

Lemma el_remove_keeps l e x : x <> e -> In x l -> In x (fst (el_remove l e)).
Proof.
  intros Hne. induction l as [|y l IH]; simpl; [done|].
  case_bool_decide; simpl; [intros [->|?]; [by subst|done]|].
  destruct (el_remove l e); simpl in *. tauto.
Qed.

Lemma el_insert_sub l e x : In x (fst (el_insert l e)) -> In x l \/ x = e.
Proof.
  unfold el_insert. repeat case_match; simpl; auto.
  rewrite in_app_iff. simpl. intuition.
Qed.

Lemma el_insert_keeps l e x : In x l -> In x (fst (el_insert l e)).
Proof. unfold el_insert. repeat case_match; simpl; auto. rewrite in_app_iff. auto. Qed.

(** ** Warnings alone cannot fill the list *)

Definition NUM_NODES : nat := 7.

(** Keys tracked for the arm as a whole, and per actuator. *)
Definition joint_key (c : ErrorCode) : bool :=
  match c with EC_CanStale | EC_HomingFailed => true | _ => false end.

(** A warning entry as [check_errors] raises it: bare, or with an actuator index. *)
Definition warning_entry (e : ErrorEntry) : bool :=
  match ee_joint e with
  | None => negb (joint_key (ee_code e))
  | Some j => joint_key (ee_code e) && (0 <=? j) && (j <? Z.of_nat NUM_NODES)
  end.

Definition entry_ok (e : ErrorEntry) : bool := negb (is_warning (ee_code e)) || warning_entry e.

(** All of them: three bare keys and two for each of the seven actuators. *)
Definition ALL_WARNINGS : list ErrorEntry :=
  map (fun c => mkErrorEntry c None) [EC_NotHomed; EC_LoopDegraded; EC_LinkErrorPassive] ++
  concat (map (fun j => [mkErrorEntry EC_CanStale (Some (Z.of_nat j));
                         mkErrorEntry EC_HomingFailed (Some (Z.of_nat j))]) (seq 0 NUM_NODES)).

Lemma all_warnings e : is_warning (ee_code e) = true -> warning_entry e = true -> In e ALL_WARNINGS.
Proof.
  destruct e as [c [j|]]; unfold warning_entry; cbn [ee_code ee_joint]; intros Hw He.
  - bsplit.
    assert (j = 0 \/ j = 1 \/ j = 2 \/ j = 3 \/ j = 4 \/ j = 5 \/ j = 6) as Hj
      by (change (Z.of_nat NUM_NODES) with 7 in *; lia).
    destruct c; try done; destruct_or! Hj; subst j; vm_compute; tauto.
  - destruct c; try done; vm_compute; tauto.
Qed.

Definition em_wf (m : ErrorManager) : Prop :=
  List.NoDup (em_list m) /\ (length (em_list m) <= MAX_ERRORS)%nat /\
  Forall (fun e => entry_ok e = true) (em_list m) /\
  0 < em_settle_ticks m /\ 0 <= em_settle_left m <= em_settle_ticks m.

(** A full list holds a hard error. *)
Lemma full_is_hard l :
  List.NoDup l -> Forall (fun e => entry_ok e = true) l -> (MAX_ERRORS <= length l)%nat ->
  el_any_hard l = true.
Proof.
  intros Hnd Hok Hlen. destruct (el_any_hard l) eqn:E; [done|]. exfalso.
  assert (forall e, In e l -> In e ALL_WARNINGS) as Hincl.
  { intros e He. rewrite List.Forall_forall in Hok. specialize (Hok e He).
    assert (is_warning (ee_code e) = true) as Hw.
    { destruct (is_warning (ee_code e)) eqn:Ew; [done|].
      assert (el_any_hard l = true) by (apply el_any_hard_spec; eauto). congruence. }
    unfold entry_ok in Hok. rewrite Hw in Hok. by apply all_warnings. }
  pose proof (NoDup_incl_length Hnd Hincl) as Hn. unfold MAX_ERRORS in Hlen.
  change (length ALL_WARNINGS) with 17%nat in Hn. lia.
Qed.

Lemma insert_wf l e :
  List.NoDup l /\ (length l <= MAX_ERRORS)%nat /\ Forall (fun e => entry_ok e = true) l ->
  entry_ok e = true ->
  List.NoDup (fst (el_insert l e)) /\ (length (fst (el_insert l e)) <= MAX_ERRORS)%nat /\
  Forall (fun e => entry_ok e = true) (fst (el_insert l e)).
Proof.
  intros (Hnd & Hlen & Hok) He. unfold el_insert.
  destruct (el_contains l e) eqn:Ec; [done|]. destruct (Nat.leb_spec MAX_ERRORS (length l)); [done|].
  simpl. repeat split.
  - apply el_contains_false in Ec. apply (List.NoDup_Add (a := e) (l := l)); [|done].
    rewrite <- (app_nil_r l) at 1. apply Add_app.
  - rewrite length_app. simpl. lia.
  - apply Forall_app. by split; [|constructor].
Qed.

(** The operation latches hard keys, and raises warnings as the core does. *)
Definition op_wf (o : em_op) : Prop :=
  match o with
  | EO_Latch c j => is_warning c = false
  | EO_Condition c j _ => is_warning c = true /\ warning_entry (mkErrorEntry c j) = true
  | _ => True
  end.

Lemma em_step_preserves_wf m o : em_wf m -> op_wf o -> em_wf (em_step m o).
Proof.
  intros (Hnd & Hlen & Hok & Hs & Hl) Ho. destruct o as [c j|c j a| |]; cbn [em_step].
  - unfold latch. destruct (el_contains _ _); [done|].
    destruct (insert_wf (em_list m) (mkErrorEntry c j)) as (? & ? & ?); [done|..|done].
    unfold entry_ok. cbn. simpl in Ho. by rewrite Ho.
  - unfold condition. simpl in Ho. destruct Ho as [Hw He]. destruct a.
    + destruct (el_contains _ _); [done|].
      destruct (insert_wf (em_list m) (mkErrorEntry c j)) as (? & ? & ?); [done|..|done].
      unfold entry_ok. rewrite He. apply orb_true_r.
    + repeat split; try done; cbn.
      * by apply el_remove_nodup.
      * pose proof (el_remove_length (em_list m) (mkErrorEntry c j)). lia.
      * rewrite List.Forall_forall in *. intros x Hx. eapply Hok, el_remove_sub, Hx.
      * lia.
      * lia.
  - repeat split; try done; cbn; lia.
  - unfold em_tick. destruct (Z.eqb_spec (em_settle_left m) 0); [done|].
    destruct (Z.eqb_spec (em_settle_left m - 1) 0); repeat split; try done; cbn; try lia; constructor.
Qed.

(** An error latch that has seen a bus-off and a stale node. *)
Definition latch_example : ErrorManager :=
  mkErrorManager [mkErrorEntry EC_BusOff None; mkErrorEntry EC_CanStale (Some 2)] 38 0.

Lemma latch_example_wf : em_wf latch_example.
Proof.
  split_and!; try (cbn; unfold MAX_ERRORS; lia).
  - repeat constructor; vm_compute; intuition discriminate.
  - repeat constructor.
Qed.

Lemma em_new_wf dt : em_wf (em_new dt).
Proof. split_and!; cbn; try lia; constructor. Qed.

Lemma latch_any_hard m c j : em_wf m -> is_warning c = false -> any_hard (latch m c j) = true.
Proof.
  intros (Hnd & Hlen & Hok & _) Hc. unfold any_hard, latch.
  destruct (el_contains (em_list m) (mkErrorEntry c j)) eqn:Ec.
  - apply el_any_hard_spec. apply el_contains_spec in Ec. eauto.
  - cbn. unfold el_insert. rewrite Ec. destruct (Nat.leb_spec MAX_ERRORS (length (em_list m))); cbn.
    + by apply full_is_hard.
    + apply el_any_hard_spec. exists (mkErrorEntry c j). rewrite in_app_iff. simpl. auto.
Qed.

(** After a hard key is latched the list shows a hard error, even when the
    list was full and the entry itself was dropped: warnings alone cannot fill
    the 32 places, so overflow never hides the disabling condition. *)
Lemma latch_never_hidden m c j :
  em_wf m -> is_warning c = false -> any_hard (latch m c j) = true.
Proof. apply latch_any_hard. Qed.

(** A full latch: four motor faults on each of the first six nodes, the other
    eight places for other faults of the same nodes. *)
Definition full_list : ErrorList :=
  concat (map (fun j => map (fun c => mkErrorEntry c (Some (Z.of_nat j)))
    [EC_Temperature; EC_Encoder; EC_Vbus; EC_Driver; EC_Velocity]) (seq 0 6)) ++
  [mkErrorEntry EC_Watchdog (Some 0); mkErrorEntry EC_Watchdog (Some 1)].
Definition full_latch : ErrorManager := mkErrorManager full_list 38 0.

Lemma full_latch_wf : em_wf full_latch.
Proof.
  split_and!; try (cbn; unfold MAX_ERRORS; lia).
  - apply NoDup_ListNoDup, (bool_decide_eq_true (NoDup full_list)). vm_compute. reflexivity.
  - repeat constructor.
Qed.

Lemma latch_never_hidden_witness :
  em_list (latch full_latch EC_Estop None) = full_list /\ any_hard (latch full_latch EC_Estop None) = true.
Proof.
  split; [vm_compute; reflexivity|].
  exact (latch_never_hidden full_latch EC_Estop None full_latch_wf eq_refl).
Defined.

(** ** The clear window *)

Definition is_tick (o : em_op) : bool := match o with EO_Tick => true | _ => false end.
Definition is_begin (o : em_op) : bool := match o with EO_BeginClear => true | _ => false end.
Definition ticks (os : list em_op) : Z := Z.of_nat (length (List.filter is_tick os)).

Lemma hard_kept m o e :
  op_wf o -> is_tick o = false -> is_begin o = false -> is_warning (ee_code e) = false ->
  In e (em_list m) ->
  In e (em_list (em_step m o)) /\ em_settle_left (em_step m o) = em_settle_left m.
Proof.
  intros Ho Ht Hb He Hin. destruct o as [c j|c j a| |]; try done; cbn [em_step].
  - unfold latch. destruct (el_contains _ _); [done|]. cbn. split; [by apply el_insert_keeps|done].
  - simpl in Ho. destruct Ho as [Hw _]. unfold condition. destruct a.
    + destruct (el_contains _ _); [done|]. cbn. split; [by apply el_insert_keeps|done].
    + cbn. split; [|done]. apply el_remove_keeps; [|done]. intros ->. simpl in He. congruence.
Qed.

Lemma settle_left_kept m o :
  is_tick o = false -> is_begin o = false ->
  em_settle_left (em_step m o) = em_settle_left m /\ em_settle_ticks (em_step m o) = em_settle_ticks m.
Proof.
  destruct o as [c j|c j a| |]; try done; intros _ _; cbn [em_step].
  - unfold latch. by destruct (el_contains _ _).
  - unfold condition. destruct a; [by destruct (el_contains _ _)|done].
Qed.

(** Before the last tick of the window the countdown runs and no hard error goes. *)
Lemma window_runs os m :
  Forall op_wf os -> Forall (fun o => is_begin o = false) os -> ticks os < em_settle_left m ->
  let m' := fold_left em_step os m in
  em_settle_left m' = em_settle_left m - ticks os /\
  forall e, is_warning (ee_code e) = false -> In e (em_list m) -> In e (em_list m').
Proof.
  revert m. induction os as [|o os IH]; intros m Hw Hb Ht; simpl.
  - unfold ticks. simpl. split; [lia|done].
  - apply List.Forall_cons_iff in Hw as [Ho Hw]. apply List.Forall_cons_iff in Hb as [Hob Hb].
    unfold ticks in *. cbn [List.filter] in *. destruct (is_tick o) eqn:Et; cbn [length] in *.
    + destruct o; try done. cbn [em_step] in *.
      assert (fst (em_tick m) = mkErrorManager (em_list m) (em_settle_ticks m) (em_settle_left m - 1)) as E.
      { unfold em_tick. destruct (Z.eqb_spec (em_settle_left m) 0); [lia|].
        destruct (Z.eqb_spec (em_settle_left m - 1) 0); [lia|done]. }
      rewrite E. destruct (IH (mkErrorManager (em_list m) (em_settle_ticks m) (em_settle_left m - 1)))
        as [Hl Hk]; [done|done|cbn; lia|].
      split; [rewrite Hl; cbn; lia|exact Hk].
    + destruct (settle_left_kept m o Et Hob) as [Hl _].
      destruct (IH (em_step m o)) as [Hl' Hk]; [done|done|lia|].
      split; [lia|]. intros e He Hin. apply Hk; [done|]. by apply hard_kept.
Qed.

(** The user clear.  Whatever errors are latched and conditions tracked in
    between, from the clear until one tick before the end of the settle window
    every hard error that stood is still latched (the arm stays disabled while
    the poll cycle re-reports); the tick that ends the window, and no other,
    wipes the list and ends the countdown. *)
Lemma clear_wipes_after_window m os :
  em_wf m -> Forall op_wf os -> Forall (fun o => is_begin o = false) os ->
  ticks os = em_settle_ticks m - 1 ->
  let m1 := fold_left em_step os (em_begin_clear m) in
  clearing m1 = true /\
  (forall e, is_warning (ee_code e) = false -> In e (em_list m) -> In e (em_list m1)) /\
  snd (em_tick m1) = true /\
  em_list (fst (em_tick m1)) = [] /\ clearing (fst (em_tick m1)) = false.
Proof.
  intros (_ & _ & _ & Hs & _) Hw Hb Ht m1.
  destruct (window_runs os (em_begin_clear m) Hw Hb) as [Hl Hk]; [cbn; lia|].
  fold m1 in Hl, Hk. cbn [em_begin_clear em_settle_left em_list] in Hl, Hk.
  unfold clearing, em_tick. rewrite Hl, Ht.
  replace (em_settle_ticks m - (em_settle_ticks m - 1)) with 1 by lia. cbn. by repeat split.
Qed.

Lemma clear_wipes_after_window_witness :
  let m1 := fold_left em_step
    (EO_Latch EC_Estop None :: replicate 37 EO_Tick) (em_begin_clear latch_example) in
  clearing m1 = true /\
  (forall e, is_warning (ee_code e) = false -> In e (em_list latch_example) -> In e (em_list m1)) /\
  snd (em_tick m1) = true /\
  em_list (fst (em_tick m1)) = [] /\ clearing (fst (em_tick m1)) = false.
Proof.
  apply (clear_wipes_after_window latch_example
    (EO_Latch EC_Estop None :: replicate 37 EO_Tick) latch_example_wf); [| |reflexivity];
    repeat constructor.
Defined.
