(* ===== verification/Snapshot.v ===== *)
(** * Snapshot: the triple buffer that publishes the core's state
    (crates/par6-rt/src/snapshot.rs)

    First the operations as the code has them, run one at a time.  Then the writer
    and the reader as two threads: each swap and load of the shared index is one
    step, each word of a copy is one step, and they interleave in any way.  No slot
    is ever written and read at once, and what a read returns is a whole published
    value, the newest when the read began or newer, in the order of publication. *)
From stdpp Require Import relations.
From S2P Require Import Prelude.

Definition IDX_MASK : Z := 3.
Definition FRESH : Z := 4.

(** ** The operations *)

Section Channel.
Context {T : Type} `{Inhabited T}.

Record SnapShared := mkSnapShared { sh_slots : list T; sh_latest : Z }.

Definition snapshot_channel (default : T) : SnapShared * Z * Z := (mkSnapShared (replicate 3 default) 0, 1, 2).

(** [SnapshotWriter::publish]: the shared state and [write_idx]. *)
Definition publish (value : T) (sh : SnapShared) (write_idx : Z) : SnapShared * Z :=
  let slots := <[Z.to_nat write_idx := value]> (sh_slots sh) in
  (mkSnapShared slots (Z.lor write_idx FRESH), Z.land (sh_latest sh) IDX_MASK).

(** [SnapshotReader::take]. *)
Definition take_snapshot (sh : SnapShared) (read_idx : Z) : SnapShared * Z * option T :=
  if Z.land (sh_latest sh) FRESH =? 0 then (sh, read_idx, None)
  else
    let idx := Z.land (sh_latest sh) IDX_MASK in
    (mkSnapShared (sh_slots sh) read_idx, idx, Some (sh_slots sh !!! Z.to_nat idx)).

(** [SnapshotReader::latest]. *)
Definition latest_snapshot (sh : SnapShared) (read_idx : Z) : SnapShared * Z * T :=
  match take_snapshot sh read_idx with
  | (sh, read_idx, Some v) => (sh, read_idx, v)
  | (sh, read_idx, None) => (sh, read_idx, sh_slots sh !!! Z.to_nat read_idx)
  end.
End Channel.

(** ** The two threads *)

(** Where the writer stands: the words of a value copied so far. *)
Inductive WriterPc := WP_Idle | WP_Copy (value : list Z) (done : nat).

(** Where the reader stands; [began] counts the publications when the read began. *)
Inductive ReaderPc :=
| RP_Idle
| RP_Swap (began : nat)
| RP_Copy (began : nat) (words : list Z).

(** The channel with a thread on each side; what was published, what was read. *)
Record Threads := mkThreads {
  tr_slots : list (list Z);
  tr_latest : Z;
  tr_write_idx : Z;
  tr_read_idx : Z;
  tr_writer : WriterPc;
  tr_reader : ReaderPc;
  tr_published : list (list Z);
  tr_returned : list (nat * list Z);
}.

Section Threads.
Context (width : nat) (initial : list Z) (initial_width : length initial = width).

Definition threads_new : Threads := mkThreads (replicate 3 initial) 0 1 2 WP_Idle RP_Idle [] [].

Definition slot (s : Threads) (i : Z) : list Z := tr_slots s !!! Z.to_nat i.

(** One step of either thread: [publish] and [latest] word by word. *)
Inductive snap_step (s : Threads) : Threads -> Prop :=
| ss_publish v : tr_writer s = WP_Idle -> length v = width ->
    snap_step s (mkThreads (tr_slots s) (tr_latest s) (tr_write_idx s) (tr_read_idx s) (WP_Copy v 0) (tr_reader s)
      (tr_published s) (tr_returned s))
| ss_write v k x : tr_writer s = WP_Copy v k -> v !! k = Some x ->
    snap_step s (mkThreads (<[Z.to_nat (tr_write_idx s) := <[k := x]> (slot s (tr_write_idx s))]> (tr_slots s)) (tr_latest s)
      (tr_write_idx s) (tr_read_idx s) (WP_Copy v (S k)) (tr_reader s) (tr_published s) (tr_returned s))
| ss_swap v : tr_writer s = WP_Copy v width ->
    snap_step s (mkThreads (tr_slots s) (Z.lor (tr_write_idx s) FRESH) (Z.land (tr_latest s) IDX_MASK) (tr_read_idx s) WP_Idle
      (tr_reader s) (tr_published s ++ [v]) (tr_returned s))
| ss_load : tr_reader s = RP_Idle ->
    snap_step s (mkThreads (tr_slots s) (tr_latest s) (tr_write_idx s) (tr_read_idx s) (tr_writer s)
      (if Z.land (tr_latest s) FRESH =? 0 then RP_Copy (length (tr_published s)) [] else RP_Swap (length (tr_published s)))
      (tr_published s) (tr_returned s))
| ss_take n : tr_reader s = RP_Swap n ->
    snap_step s (mkThreads (tr_slots s) (tr_read_idx s) (tr_write_idx s) (Z.land (tr_latest s) IDX_MASK) (tr_writer s)
      (RP_Copy n []) (tr_published s) (tr_returned s))
| ss_read n words x : tr_reader s = RP_Copy n words -> slot s (tr_read_idx s) !! length words = Some x ->
    snap_step s (mkThreads (tr_slots s) (tr_latest s) (tr_write_idx s) (tr_read_idx s) (tr_writer s)
      (RP_Copy n (words ++ [x])) (tr_published s) (tr_returned s))
| ss_return n words : tr_reader s = RP_Copy n words -> length words = width ->
    snap_step s (mkThreads (tr_slots s) (tr_latest s) (tr_write_idx s) (tr_read_idx s) (tr_writer s) RP_Idle
      (tr_published s) (tr_returned s ++ [(n, words)])).

(** ** The invariant *)

(** The value published [n]-th; the initial one is number zero. *)
Definition nth_published (s : Threads) (n : nat) : option (list Z) := (initial :: tr_published s) !! n.

(** The three slots are the writer's, the reader's and the handed-off one. *)
Definition owners_distinct (s : Threads) : Prop :=
  let w := tr_write_idx s in let r := tr_read_idx s in let h := Z.land (tr_latest s) IDX_MASK in
  0 <= w < 3 /\ 0 <= r < 3 /\ 0 <= h < 3 /\ w <> r /\ w <> h /\ r <> h.

Definition is_fresh (s : Threads) : bool := negb (Z.land (tr_latest s) FRESH =? 0).

(** The publications the reads so far returned, oldest first. *)
Definition reads_ok (s : Threads) (upto : nat) : Prop :=
  exists ts : list nat, length ts = length (tr_returned s) /\
    (forall i n words, tr_returned s !! i = Some (n, words) ->
       exists t, ts !! i = Some t /\ nth_published s t = Some words /\ (n <= t)%nat) /\
    (forall i j t u, (i <= j)%nat -> ts !! i = Some t -> ts !! j = Some u -> (t <= u)%nat) /\
    (forall i t, ts !! i = Some t -> (t <= upto)%nat).

Record snap_inv (s : Threads) : Prop := mkSnapInv {
  si_slots : length (tr_slots s) = 3%nat;
  si_widths : Forall (fun v => length v = width) (tr_slots s);
  si_latest : tr_latest s = Z.land (tr_latest s) IDX_MASK + (if is_fresh s then FRESH else 0);
  si_owners : owners_distinct s;
  (** The handed-off slot holds the newest publication while it is fresh. *)
  si_handed : is_fresh s = true ->
    Some (slot s (Z.land (tr_latest s) IDX_MASK)) = nth_published s (length (tr_published s));
  (** The reader's slot holds a publication, the newest once nothing fresh is left. *)
  si_reader : exists t, nth_published s t = Some (slot s (tr_read_idx s)) /\ reads_ok s t /\
    (is_fresh s = false -> t = length (tr_published s)) /\
    (forall n words, tr_reader s = RP_Copy n words -> (n <= t)%nat);
  si_copied : forall n words, tr_reader s = RP_Copy n words -> words = firstn (length words) (slot s (tr_read_idx s));
  si_swap : forall n, tr_reader s = RP_Swap n -> is_fresh s = true /\ (n <= length (tr_published s))%nat;
  si_writing : forall v k, tr_writer s = WP_Copy v k ->
    length v = width /\ (k <= width)%nat /\ firstn k (slot s (tr_write_idx s)) = firstn k v;
}.

(** The index byte of an owner: the low bits and the flag. *)
Lemma idx_bits i : 0 <= i < 3 ->
  Z.land i IDX_MASK = i /\ Z.land i FRESH = 0 /\ Z.land (Z.lor i FRESH) IDX_MASK = i /\ Z.land (Z.lor i FRESH) FRESH = FRESH /\
  Z.lor i FRESH = i + FRESH.
Proof. intros H. assert (i = 0 \/ i = 1 \/ i = 2) as [-> |[-> | ->]] by lia; done. Qed.

Lemma slot_width s i : snap_inv s -> 0 <= i < 3 -> length (slot s i) = width.
Proof.
  intros [H1 H2 _ _ _ _ _ _ _] Hi. unfold slot.
  destruct (lookup_lt_is_Some_2 (tr_slots s) (Z.to_nat i)) as [v Hv]; [lia|].
  rewrite (list_lookup_total_correct _ _ _ Hv). exact (proj1 (Forall_lookup _ _) H2 _ _ Hv).
Qed.

Lemma slot_insert s i j v : length (tr_slots s) = 3%nat -> 0 <= i < 3 -> 0 <= j < 3 ->
  <[Z.to_nat i := v]> (tr_slots s) !!! Z.to_nat j = if decide (i = j) then v else slot s j.
Proof.
  intros Hl Hi Hj. destruct (decide (i = j)) as [->|Hne].
  - apply list_lookup_total_insert_eq. lia.
  - apply list_lookup_total_insert_ne. lia.
Qed.

Lemma new_inv : snap_inv threads_new.
Proof.
  assert (H0 : forall i, 0 <= i < 3 -> slot threads_new i = initial).
  { intros i Hi. unfold slot, threads_new. cbn [tr_slots]. apply lookup_total_replicate_2. lia. }
  constructor; try done.
  - cbn. by repeat constructor.
  - exists 0%nat. split; [cbn; f_equal; symmetry; by apply (H0 2)|]. split; [|by split].
    exists []. split; [done|]. split; [done|]. split; done.
Qed.

(** A read that returns: one more, not older than the last. *)
Lemma reads_snoc s t n words : reads_ok s t -> nth_published s t = Some words -> (n <= t)%nat ->
  reads_ok (mkThreads (tr_slots s) (tr_latest s) (tr_write_idx s) (tr_read_idx s) (tr_writer s) RP_Idle
    (tr_published s) (tr_returned s ++ [(n, words)])) t.
Proof.
  intros (ts & Hl & Hr & Hm & Hu) Hw Hn. exists (ts ++ [t]). cbn [tr_returned]. rewrite !length_app, Hl. split; [done|].
  assert (Hlast : forall i u, (ts ++ [t]) !! i = Some u -> (u <= t)%nat).
  { intros i u Hi. apply lookup_app_Some in Hi as [Hi|[Hi1 Hi2]]; [by eapply Hu|].
    apply list_lookup_singleton_Some in Hi2 as [_ <-]. lia. }
  split_and!; [| |exact Hlast].
  - intros i m ws Hi. apply lookup_app_Some in Hi as [Hi|[Hi1 Hi2]].
    + destruct (Hr i m ws Hi) as (u & H1 & H2 & H3). exists u. split; [|by split]. by apply lookup_app_l_Some.
    + apply list_lookup_singleton_Some in Hi2 as [Hi2 [= <- <-]]. exists t. split; [|by split].
      rewrite lookup_app_r by lia. by replace (i - length ts)%nat with 0%nat by lia.
  - intros i j u v Hij Hi Hj. apply lookup_app_Some in Hj as [Hj|[Hj1 Hj2]].
    + apply lookup_app_Some in Hi as [Hi|[Hi1 _]]; [by eapply Hm|]. apply lookup_lt_Some in Hj. lia.
    + apply list_lookup_singleton_Some in Hj2 as [_ <-]. by eapply Hlast.
Qed.

(** Reads stay what they were when more is published, or the reader moves on. *)
Lemma reads_keep s s' t t' : tr_returned s' = tr_returned s -> (exists more, tr_published s' = tr_published s ++ more) -> (t <= t')%nat ->
  reads_ok s t -> reads_ok s' t'.
Proof.
  intros Er [more Ep] Ht (ts & Hl & Hr & Hm & Hu). exists ts. rewrite Er. split; [done|]. split_and!; [|done|].
  - intros i n ws Hi. destruct (Hr i n ws Hi) as (u & H1 & H2 & H3). exists u. split; [done|]. split; [|done].
    unfold nth_published in *. rewrite Ep, app_comm_cons. by apply lookup_app_l_Some.
  - intros i u Hi. pose proof (Hu i u Hi). lia.
Qed.

(** ** The steps preserve it *)

Lemma nth_snoc s n v w : nth_published s n = Some w -> (initial :: (tr_published s ++ [v])) !! n = Some w.
Proof. intros H. rewrite app_comm_cons. by apply lookup_app_l_Some. Qed.

Lemma nth_bound s n w : nth_published s n = Some w -> (n <= length (tr_published s))%nat.
Proof. intros H. apply lookup_lt_Some in H. cbn in H. lia. Qed.

Lemma write_keeps s v k x : snap_inv s -> tr_writer s = WP_Copy v k -> v !! k = Some x ->
  snap_inv (mkThreads (<[Z.to_nat (tr_write_idx s) := <[k := x]> (slot s (tr_write_idx s))]> (tr_slots s)) (tr_latest s)
    (tr_write_idx s) (tr_read_idx s) (WP_Copy v (S k)) (tr_reader s) (tr_published s) (tr_returned s)).
Proof.
  intros Hinv Hw Hx. pose proof Hinv as [H1 H2 H3 H4 H5 (t & Ht & Hrd & Hnew & Hn) H7 H8 H9].
  pose proof H4 as (Ow & Or & Oh & Owr & Owh & Orh). destruct (H9 v k Hw) as (Hv & Hk & Hc).
  pose proof (lookup_lt_Some _ _ _ Hx) as Hlt. pose proof (slot_width s _ Hinv Ow) as Hsw.
  set (s' := mkThreads _ _ _ _ _ _ _ _).
  assert (Hs : forall j, 0 <= j < 3 -> slot s' j = if decide (tr_write_idx s = j) then <[k := x]> (slot s (tr_write_idx s)) else slot s j).
  { intros j Hj. by apply slot_insert. }
  constructor; try done.
  - cbn. by rewrite length_insert.
  - cbn. apply Forall_insert; [done|]. by rewrite length_insert.
  - intros Hf. cbn [tr_latest s']. rewrite Hs by done. rewrite decide_False by done. exact (H5 Hf).
  - exists t. cbn [tr_read_idx s']. rewrite Hs, decide_False by done. split; [done|]. split; [|by split].
    apply (reads_keep s s' t t); try done. exists []. by rewrite app_nil_r.
  - intros n words Hr. cbn [tr_read_idx s']. rewrite Hs, decide_False by done. by apply (H7 n).
  - cbn. intros v' k' [= <- <-]. split; [done|]. split; [lia|]. fold (slot s' (tr_write_idx s)). rewrite Hs, decide_True by done.
    rewrite (take_S_r v k x Hx), (take_S_r _ k x), take_insert_ge, Hc; [done|lia|]. apply list_lookup_insert_eq. lia.
Qed.

Lemma swap_keeps s v : snap_inv s -> tr_writer s = WP_Copy v width ->
  snap_inv (mkThreads (tr_slots s) (Z.lor (tr_write_idx s) FRESH) (Z.land (tr_latest s) IDX_MASK) (tr_read_idx s) WP_Idle
    (tr_reader s) (tr_published s ++ [v]) (tr_returned s)).
Proof.
  intros Hinv Hw. pose proof Hinv as [H1 H2 H3 H4 H5 (t & Ht & Hrd & Hnew & Hn) H7 H8 H9].
  pose proof H4 as (Ow & Or & Oh & Owr & Owh & Orh). destruct (H9 v width Hw) as (Hv & _ & Hc).
  destruct (idx_bits _ Ow) as (B1 & B2 & B3 & B4 & B5). pose proof (slot_width s _ Hinv Ow) as Hsw.
  rewrite !firstn_all2 in Hc by lia. set (s' := mkThreads _ _ _ _ _ _ _ _).
  assert (Hf : is_fresh s' = true) by (unfold is_fresh; cbn [tr_latest s']; by rewrite B4).
  constructor; try done.
  - rewrite Hf. cbn [tr_latest s']. by rewrite B3, B5.
  - unfold owners_distinct. cbn [tr_latest tr_write_idx tr_read_idx s']. rewrite B3. lia.
  - intros _. cbn [tr_latest s']. rewrite B3. change (Some (slot s (tr_write_idx s)) = (initial :: (tr_published s ++ [v])) !! length (tr_published s ++ [v])).
    rewrite Hc, app_comm_cons, lookup_app_r by (rewrite length_app; cbn; lia).
    rewrite length_app. cbn [length]. by replace (length (tr_published s) + 1 - S (length (tr_published s)))%nat with 0%nat by lia.
  - exists t. split; [by apply nth_snoc|]. split; [|split; [by rewrite Hf|done]].
    apply (reads_keep s s' t t); try done. by exists [v].
  - intros n Hr. split; [done|]. destruct (H8 n Hr) as [_ H]. cbn. rewrite length_app. cbn. lia.
Qed.

Lemma load_keeps s : snap_inv s -> tr_reader s = RP_Idle ->
  snap_inv (mkThreads (tr_slots s) (tr_latest s) (tr_write_idx s) (tr_read_idx s) (tr_writer s)
    (if Z.land (tr_latest s) FRESH =? 0 then RP_Copy (length (tr_published s)) [] else RP_Swap (length (tr_published s)))
    (tr_published s) (tr_returned s)).
Proof.
  intros Hinv Hr. pose proof Hinv as [H1 H2 H3 H4 H5 (t & Ht & Hrd & Hnew & Hn) H7 H8 H9].
  assert (Ef : is_fresh s = negb (Z.land (tr_latest s) FRESH =? 0)) by done.
  constructor; try done; cbn.
  - exists t. split; [done|]. split; [apply (reads_keep s _ t t); try done; exists []; by rewrite app_nil_r|]. split; [done|].
    intros n words E. destruct (Z.land _ _ =? 0); simplify_eq. by rewrite (Hnew Ef).
  - intros n words E. by destruct (Z.land _ _ =? 0); simplify_eq.
  - intros n E. destruct (Z.land _ _ =? 0) eqn:E0; simplify_eq. split; [|lia]. unfold is_fresh. cbn. by rewrite E0.
Qed.

Lemma take_keeps s n : snap_inv s -> tr_reader s = RP_Swap n ->
  snap_inv (mkThreads (tr_slots s) (tr_read_idx s) (tr_write_idx s) (Z.land (tr_latest s) IDX_MASK) (tr_writer s)
    (RP_Copy n []) (tr_published s) (tr_returned s)).
Proof.
  intros Hinv Hr. pose proof Hinv as [H1 H2 H3 H4 H5 (t & Ht & Hrd & Hnew & Hn) H7 H8 H9].
  pose proof H4 as (Ow & Or & Oh & Owr & Owh & Orh). destruct (H8 n Hr) as [Hf Hle].
  destruct (idx_bits _ Or) as (B1 & B2 & _). set (s' := mkThreads _ _ _ _ _ _ _ _).
  assert (Hf' : is_fresh s' = false) by (unfold is_fresh; cbn [tr_latest s']; by rewrite B2).
  constructor; try done.
  - rewrite Hf'. cbn [tr_latest s']. rewrite B1. lia.
  - unfold owners_distinct. cbn [tr_latest tr_write_idx tr_read_idx s']. rewrite B1. lia.
  - by rewrite Hf'.
  - exists (length (tr_published s)). split; [symmetry; exact (H5 Hf)|]. split; [|split; [done|by intros n' w [= <- <-]]].
    apply (reads_keep s s' t); [done|exists []; by rewrite app_nil_r|by eapply nth_bound|done].
  - by intros n' words [= <- <-].
Qed.

Lemma read_keeps s n words x : snap_inv s -> tr_reader s = RP_Copy n words -> slot s (tr_read_idx s) !! length words = Some x ->
  snap_inv (mkThreads (tr_slots s) (tr_latest s) (tr_write_idx s) (tr_read_idx s) (tr_writer s)
    (RP_Copy n (words ++ [x])) (tr_published s) (tr_returned s)).
Proof.
  intros Hinv Hr Hx. pose proof Hinv as [H1 H2 H3 H4 H5 (t & Ht & Hrd & Hnew & Hn) H7 H8 H9].
  constructor; try done.
  - exists t. split; [done|]. split; [apply (reads_keep s _ t t); try done; exists []; by rewrite app_nil_r|]. split; [done|].
    intros n' w [= <- <-]. by eapply Hn.
  - intros n' w [= <- <-]. rewrite length_app, Nat.add_1_r.
    change (words ++ [x] = take (S (length words)) (slot s (tr_read_idx s))).
    rewrite (take_S_r _ _ _ Hx). f_equal. by eapply H7.
Qed.

Lemma return_keeps s n words : snap_inv s -> tr_reader s = RP_Copy n words -> length words = width ->
  snap_inv (mkThreads (tr_slots s) (tr_latest s) (tr_write_idx s) (tr_read_idx s) (tr_writer s) RP_Idle
    (tr_published s) (tr_returned s ++ [(n, words)])).
Proof.
  intros Hinv Hr Hlen. pose proof Hinv as [H1 H2 H3 H4 H5 (t & Ht & Hrd & Hnew & Hn) H7 H8 H9].
  pose proof H4 as (Ow & Or & Oh & Owr & Owh & Orh). pose proof (slot_width s _ Hinv Or) as Hsw.
  assert (E : words = slot s (tr_read_idx s)).
  { rewrite (H7 n words Hr). apply firstn_all2. lia. }
  constructor; try done. exists t. split; [done|]. split; [|by split].
  apply reads_snoc; [done|by rewrite E|by eapply Hn].
Qed.

Lemma step_inv s s' : snap_inv s -> snap_step s s' -> snap_inv s'.
Proof.
  intros Hinv [v Hw Hv|v k x Hw Hx|v Hw|Hr|n Hr|n words x Hr Hx|n words Hr Hlen].
  - pose proof Hinv as [H1 H2 H3 H4 H5 (t & Ht & Hrd & Hnew & Hn) H7 H8 H9].
    constructor; try done; [|intros v' k [= <- <-]; split; [done|split; [lia|done]]].
    exists t. split; [done|]. split; [|by split]. apply (reads_keep s _ t t); try done. exists []. by rewrite app_nil_r.
  - by apply write_keeps.
  - by apply swap_keeps.
  - by apply load_keeps.
  - by apply take_keeps.
  - by apply read_keeps.
  - by apply return_keeps.
Qed.

Lemma reachable_inv s : rtc snap_step threads_new s -> snap_inv s.
Proof.
  intros H. assert (Hg : forall a, snap_inv a -> rtc snap_step a s -> snap_inv s).
  { intros a Ha Hs. induction Hs as [|a b c Hab _ IH]; [done|]. by eapply IH, step_inv. }
  exact (Hg _ new_inv H).
Qed.

(** ** A call run alone is the operation *)

Definition shared_of (s : Threads) : SnapShared := mkSnapShared (tr_slots s) (tr_latest s).

Lemma write_runs s v k : snap_inv s -> tr_writer s = WP_Copy v k ->
  rtc snap_step s (mkThreads (<[Z.to_nat (tr_write_idx s) := v]> (tr_slots s)) (tr_latest s) (tr_write_idx s) (tr_read_idx s)
    (WP_Copy v width) (tr_reader s) (tr_published s) (tr_returned s)).
Proof.
  remember (width - k)%nat as m eqn:Em. revert s k Em.
  induction m as [|m IH]; intros s k Em Hinv Hw; pose proof (si_writing s Hinv v k Hw) as (Hv & Hk & Hc);
    pose proof (si_owners s Hinv) as (Ow & _); pose proof (slot_width s _ Hinv Ow) as Hsw; pose proof (si_slots s Hinv) as Hl.
  - assert (k = width) as -> by lia. rewrite !firstn_all2 in Hc by lia. destruct s as [sl la w r wr rd p q]. cbn in *. subst wr.
    rewrite list_insert_id; [done|]. rewrite <- Hc. unfold slot. cbn. apply list_lookup_lookup_total_lt. lia.
  - destruct (lookup_lt_is_Some_2 v k) as [x Hx]; [lia|]. eapply rtc_l; [by eapply ss_write|].
    pose proof (write_keeps s v k x Hinv Hw Hx) as Hinv'. etrans; [apply (IH _ (S k)); [lia|done|done]|].
    cbn [tr_slots tr_latest tr_write_idx tr_read_idx tr_reader tr_published tr_returned].
    rewrite list_insert_insert_eq. apply rtc_refl.
Qed.

Lemma publish_runs s v : snap_inv s -> tr_writer s = WP_Idle -> length v = width ->
  exists s', rtc snap_step s s' /\ (shared_of s', tr_write_idx s') = publish v (shared_of s) (tr_write_idx s) /\
    tr_writer s' = WP_Idle /\ tr_reader s' = tr_reader s /\ tr_read_idx s' = tr_read_idx s /\
    tr_published s' = tr_published s ++ [v] /\ tr_returned s' = tr_returned s.
Proof.
  intros Hinv Hw Hv. set (s1 := mkThreads (tr_slots s) (tr_latest s) (tr_write_idx s) (tr_read_idx s) (WP_Copy v 0) (tr_reader s)
    (tr_published s) (tr_returned s)). assert (H1 : snap_step s s1) by (by apply ss_publish).
  pose proof (write_runs s1 v 0 (step_inv _ _ Hinv H1) eq_refl) as Hr. eexists. split.
  - eapply rtc_l; [exact H1|]. eapply rtc_r; [exact Hr|]. by apply (ss_swap _ v).
  - by split_and!.
Qed.

Lemma read_runs s n words : snap_inv s -> tr_reader s = RP_Copy n words ->
  rtc snap_step s (mkThreads (tr_slots s) (tr_latest s) (tr_write_idx s) (tr_read_idx s) (tr_writer s)
    (RP_Copy n (slot s (tr_read_idx s))) (tr_published s) (tr_returned s)).
Proof.
  remember (width - length words)%nat as m eqn:Em. revert s words Em.
  induction m as [|m IH]; intros s words Em Hinv Hr; pose proof (si_copied s Hinv n words Hr) as Hc;
    pose proof (si_owners s Hinv) as (_ & Or & _); pose proof (slot_width s _ Hinv Or) as Hsw.
  - rewrite firstn_all2 in Hc by lia. destruct s as [sl la w r wr rd p q]. cbn in *. subst rd. rewrite <- Hc. apply rtc_refl.
  - destruct (lookup_lt_is_Some_2 (slot s (tr_read_idx s)) (length words)) as [x Hx]; [lia|].
    eapply rtc_l; [by apply (ss_read _ n words x)|]. pose proof (read_keeps s n words x Hinv Hr Hx) as Hinv'.
    pose proof (IH _ (words ++ [x]) ltac:(rewrite length_app; cbn; lia) Hinv' eq_refl) as Hi. exact Hi.
Qed.

Lemma latest_runs s : snap_inv s -> tr_reader s = RP_Idle ->
  exists s', rtc snap_step s s' /\
    (exists v, (shared_of s', tr_read_idx s', v) = latest_snapshot (shared_of s) (tr_read_idx s) /\
       tr_returned s' = tr_returned s ++ [(length (tr_published s), v)]) /\
    tr_reader s' = RP_Idle /\ tr_writer s' = tr_writer s /\ tr_write_idx s' = tr_write_idx s /\ tr_published s' = tr_published s.
Proof.
  intros Hinv Hr. assert (Hend : forall s1 n, snap_inv s1 -> tr_reader s1 = RP_Copy n [] ->
    rtc snap_step s1 (mkThreads (tr_slots s1) (tr_latest s1) (tr_write_idx s1) (tr_read_idx s1) (tr_writer s1) RP_Idle
      (tr_published s1) (tr_returned s1 ++ [(n, slot s1 (tr_read_idx s1))]))).
  { intros s1 n Hi Hc. set (s2 := mkThreads (tr_slots s1) (tr_latest s1) (tr_write_idx s1) (tr_read_idx s1) (tr_writer s1)
      (RP_Copy n (slot s1 (tr_read_idx s1))) (tr_published s1) (tr_returned s1)).
    apply (rtc_r s1 s2); [by apply (read_runs s1 n [])|]. apply (ss_return s2 n (slot s1 (tr_read_idx s1))); [done|].
    apply (slot_width s1); [done|]. apply (si_owners s1 Hi). }
  pose proof (ss_load s Hr) as H1. pose proof (load_keeps s Hinv Hr) as I1.
  unfold latest_snapshot, take_snapshot. cbn [sh_latest sh_slots shared_of].
  destruct (Z.land (tr_latest s) FRESH =? 0) eqn:Ef.
  - eexists. split; [eapply rtc_l; [exact H1|]; by apply Hend|]. split_and!; try done. eexists. by split.
  - set (s1 := mkThreads _ _ _ _ _ (RP_Swap _) _ _) in H1, I1. pose proof (ss_take s1 _ eq_refl) as H2. pose proof (take_keeps s1 _ I1 eq_refl) as I2.
    eexists. split; [eapply rtc_l; [exact H1|]; eapply rtc_l; [exact H2|]; by apply Hend|]. split_and!; try done. eexists. by split.
Qed.

(** C34: the triple buffer never tears and never goes back: however the steps of the writer and of the reader interleave, the
    slot being written and the slot being read are different slots; and the values the reader returned are, in order, whole
    published values (the initial one counting as number zero) in the order of publication, each at least as new as the
    newest one that had been published when its read began. *)
Theorem snapshots_are_whole_and_monotonic s : rtc snap_step threads_new s ->
  tr_write_idx s <> tr_read_idx s /\ 0 <= tr_write_idx s < 3 /\ 0 <= tr_read_idx s < 3 /\
  exists ts : list nat, length ts = length (tr_returned s) /\
    (forall i n words, tr_returned s !! i = Some (n, words) ->
       exists t, ts !! i = Some t /\ nth_published s t = Some words /\ (n <= t)%nat) /\
    (forall i j t u, (i <= j)%nat -> ts !! i = Some t -> ts !! j = Some u -> (t <= u)%nat).
Proof.
  intros [H1 H2 H3 H4 H5 (t & Ht & (ts & T1 & T2 & T3 & T4) & _) H7 H8 H9]%reachable_inv.
  destruct H4 as (Ow & Or & Oh & Owr & Owh & Orh). split_and!; try done; try lia. exists ts. by split_and!.
Qed.

End Threads.

(** One publication, taken while the next one is being written. *)
Lemma snapshots_are_whole_and_monotonic_witness :
  let s := mkThreads [[8]; [7]; [0]] 2 0 1 (WP_Copy [8] 1) RP_Idle [[7]] [(1%nat, [7])] in
  rtc (snap_step 1) (threads_new [0]) s /\ tr_write_idx s <> tr_read_idx s.
Proof.
  cbv zeta. set (s := mkThreads [[8]; [7]; [0]] 2 0 1 (WP_Copy [8] 1) RP_Idle [[7]] [(1%nat, [7])]).
  assert (H : rtc (snap_step 1) (threads_new [0]) s).
  { subst s.
    apply (rtc_l _ _ (mkThreads [[0]; [0]; [0]] 0 1 2 (WP_Copy [7] 0) RP_Idle [] [])); [refine (ss_publish 1 _ [7] _ _); reflexivity|].
    apply (rtc_l _ _ (mkThreads [[0]; [7]; [0]] 0 1 2 (WP_Copy [7] 1) RP_Idle [] [])); [refine (ss_write 1 _ [7] 0 7 _ _); reflexivity|].
    apply (rtc_l _ _ (mkThreads [[0]; [7]; [0]] 5 0 2 WP_Idle RP_Idle [[7]] [])); [refine (ss_swap 1 _ [7] _); reflexivity|].
    apply (rtc_l _ _ (mkThreads [[0]; [7]; [0]] 5 0 2 WP_Idle (RP_Swap 1) [[7]] [])); [refine (ss_load 1 _ _); reflexivity|].
    apply (rtc_l _ _ (mkThreads [[0]; [7]; [0]] 5 0 2 (WP_Copy [8] 0) (RP_Swap 1) [[7]] [])); [refine (ss_publish 1 _ [8] _ _); reflexivity|].
    apply (rtc_l _ _ (mkThreads [[0]; [7]; [0]] 2 0 1 (WP_Copy [8] 0) (RP_Copy 1 []) [[7]] [])); [refine (ss_take 1 _ 1%nat _); reflexivity|].
    apply (rtc_l _ _ (mkThreads [[0]; [7]; [0]] 2 0 1 (WP_Copy [8] 0) (RP_Copy 1 [7]) [[7]] [])); [refine (ss_read 1 _ 1%nat [] 7 _ _); reflexivity|].
    apply (rtc_l _ _ (mkThreads [[8]; [7]; [0]] 2 0 1 (WP_Copy [8] 1) (RP_Copy 1 [7]) [[7]] [])); [refine (ss_write 1 _ [8] 0 8 _ _); reflexivity|].
    apply (rtc_l _ _ (mkThreads [[8]; [7]; [0]] 2 0 1 (WP_Copy [8] 1) RP_Idle [[7]] [(1%nat, [7])])); [refine (ss_return 1 _ 1%nat [7] _ _); reflexivity|].
    apply rtc_refl. }
  split; [exact H|]. exact (proj1 (snapshots_are_whole_and_monotonic 1 [0] eq_refl s H)).
Defined.
