(* ===== verification/Gripper.v ===== *)
(** * Gripper: the firmware-gripper send gate and settle detector

    [GripperGate] of [crates/par6-rt/src/gripper_gate.rs] decides the frame of
    every tick; [GripperSettle] of [crates/par6-rt/src/gripper_settle.rs] decides
    when the armed action is over.  Both are small state machines stepped once
    per tick.  The theorems: an action frame goes out only under its two
    conditions, a release is announced exactly three times before the polls, a
    wait always ends by its window, and a contact verdict is backed by a full
    debounce streak of codes in the commanded direction. *)
From Stdlib Require Import SpecFloat.
From S2P Require Import Prelude F64 BusTypes.

(** ** The gate *)

Definition IDLE_PACK_REPEATS : Z := 3.

Record GripperGate := mkGate {
  gg_standing : option FirmwareGripperCommand;
  gg_idle_repeats : Z;
}.

Definition gate_default : GripperGate := mkGate None 0.

Definition gate_set (g : GripperGate) (fw : FirmwareGripperCommand) : GripperGate :=
  mkGate (Some fw) (gg_idle_repeats g).

Definition has_standing (g : GripperGate) : bool :=
  match gg_standing g with Some _ => true | None => false end.

Definition holding (g : GripperGate) : bool :=
  match gg_standing g with Some c => fw_action c | None => false end.

Definition stop_at (g : GripperGate) (jaw_byte : Z) : GripperGate :=
  match gg_standing g with
  | Some c =>
      mkGate (Some (mkFw jaw_byte (fw_speed c) (fw_current_ma c) (fw_activate c) true
                      (fw_estop c) (fw_release_dir c))) (gg_idle_repeats g)
  | None => g
  end.

(** The bytes of a command with [action] dropped. *)
Definition released (c : FirmwareGripperCommand) : FirmwareGripperCommand :=
  mkFw (fw_position c) (fw_speed c) (fw_current_ma c) true false false (fw_release_dir c).

Definition gate_idle (g : GripperGate) : GripperGate :=
  mkGate (released <$> gg_standing g) IDLE_PACK_REPEATS.

Definition announcement (g : GripperGate) : FirmwareGripperCommand :=
  released (default fw_default (gg_standing g)).

Definition force_idle (g : GripperGate) (last : option FirmwareGripperCommand) : GripperGate :=
  gate_idle (match last with Some f => gate_set g f | None => g end).

Definition reset_to_poll (g : GripperGate) : GripperGate := mkGate None 0.

Definition gate_tick (g : GripperGate) (calibrated : bool) : GripperGate * GripperCommand :=
  let active := holding g && calibrated in
  if active then
    (mkGate (gg_standing g) IDLE_PACK_REPEATS, GC_Firmware (default fw_default (gg_standing g)))
  else if gg_idle_repeats g >? 0 then
    (mkGate (gg_standing g) (gg_idle_repeats g - 1), GC_Firmware (announcement g))
  else (g, GC_FirmwarePoll).

(** The frames of a run of ticks. *)
Fixpoint gate_run (g : GripperGate) (cal : list bool) : list GripperCommand :=
  match cal with
  | [] => []
  | b :: cal' => let '(g', f) := gate_tick g b in f :: gate_run g' cal'
  end.

(** ** The settle detector *)

Inductive ToolWait := TW_Move | TW_Calibrate | TW_Hold | TW_Idle.

Inductive ToolSettle :=
| Unarmed
| Running
| Done
| Settled (d : ObjectDetection)
| Timeout (w : ToolWait)
| FaultBits (bits : Z).

#[export] Instance ToolWait_eq_dec : EqDecision ToolWait.
Proof. solve_decision. Defined.
#[export] Instance ToolSettle_eq_dec : EqDecision ToolSettle.
Proof. solve_decision. Defined.

Record ToolStatus := mkToolStatus { tl_verdict : ToolSettle; tl_epoch : Z }.

Record SettleTimings := mkSettleTimings {
  tm_command_grace_s : f64;
  tm_detect_debounce_s : f64;
  tm_move_timeout_s : f64;
  tm_calibrate_timeout_s : f64;
  tm_calibrate_min_wait_s : f64;
}.

Record SettleTicks := mkSettleTicks {
  tk_grace : Z;
  tk_debounce : Z;
  tk_move_timeout : Z;
  tk_calibrate_timeout : Z;
  tk_calibrate_min : Z;
}.

Definition settle_ticks_new (dt : f64) (t : SettleTimings) : SettleTicks :=
  let ticks s := sf_round_as_uint 64 (sf_div (f64_to_SF s) (f64_to_SF dt)) in
  mkSettleTicks
    (Z.max (ticks (tm_command_grace_s t)) 2)
    (wrap 32 (Z.max (ticks (tm_detect_debounce_s t)) 1))
    (ticks (tm_move_timeout_s t))
    (ticks (tm_calibrate_timeout_s t))
    (ticks (tm_calibrate_min_wait_s t)).

Record GripperSettle := mkSettle {
  st_ticks : SettleTicks;
  st_wait : option ToolWait;
  st_armed_tick : Z;
  st_closing : bool;
  st_detect_streak : Z;
  st_status : ToolStatus;
}.

Definition settle_new (dt : f64) (t : SettleTimings) : GripperSettle :=
  mkSettle (settle_ticks_new dt t) None 0 false 0 (mkToolStatus Unarmed 0).

Definition arm (m : GripperSettle) (tick : Z) (wait : ToolWait) : GripperSettle :=
  mkSettle (st_ticks m) (Some wait) tick (st_closing m) 0
    (mkToolStatus Running (wrapping_add 32 (tl_epoch (st_status m)) 1)).

Definition arm_move (m : GripperSettle) (tick target position : Z) : GripperSettle :=
  arm (mkSettle (st_ticks m) (st_wait m) (st_armed_tick m) (target >? position)
         (st_detect_streak m) (st_status m)) tick TW_Move.
Definition arm_calibrate (m : GripperSettle) (tick : Z) : GripperSettle := arm m tick TW_Calibrate.
Definition arm_hold (m : GripperSettle) (tick : Z) : GripperSettle := arm m tick TW_Hold.
Definition arm_idle (m : GripperSettle) (tick : Z) : GripperSettle := arm m tick TW_Idle.

Definition disarm (m : GripperSettle) : GripperSettle :=
  mkSettle (st_ticks m) None (st_armed_tick m) (st_closing m) 0
    (mkToolStatus Unarmed (wrapping_add 32 (tl_epoch (st_status m)) 1)).

Definition set_verdict (m : GripperSettle) (v : ToolSettle) : GripperSettle :=
  mkSettle (st_ticks m) (st_wait m) (st_armed_tick m) (st_closing m) (st_detect_streak m)
    (mkToolStatus v (tl_epoch (st_status m))).
Definition set_streak (m : GripperSettle) (n : Z) : GripperSettle :=
  mkSettle (st_ticks m) (st_wait m) (st_armed_tick m) (st_closing m) n (st_status m).

Definition verdict (m : GripperSettle) : ToolSettle := tl_verdict (st_status m).
Definition running (m : GripperSettle) : bool := bool_decide (verdict m = Running).

Definition settle_timeout (m : GripperSettle) (w : ToolWait) : Z :=
  match w with
  | TW_Calibrate => tk_calibrate_timeout (st_ticks m)
  | TW_Move | TW_Hold | TW_Idle => tk_move_timeout (st_ticks m)
  end.

(** The contact code of the commanded direction. *)
Definition matches_dir (closing : bool) (d : ObjectDetection) : bool :=
  match d with
  | OD_DetectedClosing => closing
  | OD_DetectedOpening => negb closing
  | _ => false
  end.

Definition tick_move (m : GripperSettle) (r : GripperReply) : GripperSettle :=
  match gr_object_detection r with
  | OD_ReachedNoObject => set_verdict m (Settled OD_ReachedNoObject)
  | OD_DetectedClosing | OD_DetectedOpening =>
      let d := gr_object_detection r in
      if Bool.eqb (bool_decide (d = OD_DetectedClosing)) (st_closing m) then
        let m1 := set_streak m (st_detect_streak m + 1) in
        if st_detect_streak m1 >=? tk_debounce (st_ticks m1) then set_verdict m1 (Settled d) else m1
      else set_streak m 0
  | OD_Moving => set_streak m 0
  end.

Definition fault_bits (r : GripperReply) (live_error_bit : bool) : Z :=
  Z.lor (Z.lor (Z.lor (Z.b2z (gr_temperature_error r)) (Z.shiftl (Z.b2z (gr_timeout_error r)) 1))
    (Z.shiftl (Z.b2z (gr_estop_error r)) 2)) (Z.shiftl (Z.b2z live_error_bit) 3).

(** The [match wait] on a reply without a fault. *)
Definition tick_wait (m : GripperSettle) (wait : ToolWait) (elapsed : Z) (r : GripperReply)
  : GripperSettle :=
  match wait with
  | TW_Move => tick_move m r
  | TW_Calibrate =>
      if (elapsed >=? tk_calibrate_min (st_ticks m)) && gr_calibrated r
      then set_verdict m Done else m
  | TW_Hold =>
      if negb (bool_decide (gr_object_detection r = OD_Moving)) then set_verdict m Done else m
  | TW_Idle => if negb (gr_action_status r) then set_verdict m Done else m
  end.

Definition close_window (m : GripperSettle) (wait : ToolWait) (elapsed : Z) : GripperSettle :=
  if running m && (elapsed >=? settle_timeout m wait) then set_verdict m (Timeout wait) else m.

Definition settle_tick (m : GripperSettle) (tick : Z) (reply : option GripperReply)
  (live_error_bit : bool) : GripperSettle :=
  match st_wait m with
  | None => m
  | Some wait =>
      if negb (running m) then m
      else
        let elapsed := saturating_sub tick (st_armed_tick m) in
        match (if elapsed >=? tk_grace (st_ticks m) then reply else None) with
        | Some r =>
            let fault := fault_bits r live_error_bit in
            if negb (fault =? 0) then set_verdict m (FaultBits fault)
            else close_window (tick_wait m wait elapsed r) wait elapsed
        | None => close_window m wait elapsed
        end
  end.

(** One tick of input: the tick counter, the freshest reply, the live fault bit. *)
Definition settle_input : Type := Z * option GripperReply * bool.
Definition settle_step (m : GripperSettle) (i : settle_input) : GripperSettle :=
  let '(t, r, e) := i in settle_tick m t r e.
Definition settle_run (m : GripperSettle) (ins : list settle_input) : GripperSettle :=
  fold_left settle_step ins m.

(** ** Theorems: the gate *)

Definition action_frame (f : GripperCommand) : bool :=
  match f with GC_Firmware c => fw_action c | _ => false end.

Lemma announcement_no_action g : fw_action (announcement g) = false.
Proof. done. Qed.

(** A frame that tells the jaws to move leaves the gate only when a command
    with [action] stands and the gripper reports calibrated, and then it is that
    command, byte for byte. *)
Lemma gate_action_needs_both g cal :
  action_frame (snd (gate_tick g cal)) = true <->
  exists c, gg_standing g = Some c /\ fw_action c = true /\ cal = true /\
            snd (gate_tick g cal) = GC_Firmware c.
Proof.
  unfold gate_tick, holding. destruct (gg_standing g) as [c|] eqn:E.
  - destruct (fw_action c) eqn:Ea, cal; cbn [andb].
    + simpl. split; [intros _; by exists c|done].
    + destruct (_ >? 0); simpl; (split; [done|]); by intros (? & ? & ? & ? & ?).
    + destruct (_ >? 0); simpl; (split; [done|]); intros (? & ? & ? & ? & ?); congruence.
    + destruct (_ >? 0); simpl; (split; [done|]); intros (? & ? & ? & ? & ?); congruence.
  - cbn [andb]. destruct (_ >? 0); simpl; (split; [done|]); by intros (? & ? & ?).
Qed.

(** With no live grip the rest of a run is what is left of the announcement, then polls. *)
Lemma gate_run_idle g cal : holding g = false -> 0 <= gg_idle_repeats g ->
  gate_run g cal =
  take (length cal) (replicate (Z.to_nat (gg_idle_repeats g)) (GC_Firmware (announcement g)) ++
                     replicate (length cal) GC_FirmwarePoll).
Proof.
  revert g. induction cal as [|b cal IH]; intros g Hh Hr; [done|].
  cbn [gate_run]. unfold gate_tick. rewrite Hh. cbn [andb].
  rewrite Z.gtb_ltb. destruct (Z.ltb_spec 0 (gg_idle_repeats g)).
  - rewrite IH by (done || (cbn; lia)). cbn [gg_idle_repeats gg_standing announcement].
    replace (Z.to_nat (gg_idle_repeats g)) with (S (Z.to_nat (gg_idle_repeats g - 1))) by lia.
    cbn [replicate app length take]. f_equal.
    change (announcement (mkGate (gg_standing g) (gg_idle_repeats g - 1))) with (announcement g).
    rewrite !take_app, !length_replicate. f_equal.
    change (GC_FirmwarePoll :: replicate (length cal) GC_FirmwarePoll)
      with (replicate (S (length cal)) GC_FirmwarePoll).
    rewrite !take_replicate. f_equal. lia.
  - rewrite IH by done. replace (Z.to_nat (gg_idle_repeats g)) with 0%nat by lia.
    by cbn [replicate app length take].
Qed.

(** A release, whatever stood before and whatever calibration the gripper
    reports afterwards, is announced by three frames with [action] dropped and the
    standing command's other bytes, then by polls only: one lost frame cannot
    strand the jaws, and the output stage is never toggled after it. *)
Lemma gate_release_announced g last cal :
  gate_run (force_idle g last) cal =
  take (length cal)
    (replicate 3 (GC_Firmware (released (default fw_default
       (match last with Some f => Some f | None => gg_standing g end)))) ++
     replicate (length cal) GC_FirmwarePoll).
Proof.
  rewrite gate_run_idle.
  - destruct last as [f|]; [done|]. unfold force_idle, gate_idle, announcement. cbn.
    by destruct (gg_standing g).
  - unfold force_idle, gate_idle, holding. cbn. destruct last; [done|]. by destruct (gg_standing g).
  - done.
Qed.

Definition grip : FirmwareGripperCommand := mkFw 200 90 400 true true false false.

(** A grip over, then nothing: the run the two theorems describe. *)
Example release_frames :
  gate_run (force_idle (gate_set gate_default grip) None) [true; false; true; true; false] =
  [GC_Firmware (released grip); GC_Firmware (released grip); GC_Firmware (released grip);
   GC_FirmwarePoll; GC_FirmwarePoll].
Proof. reflexivity. Qed.

(** ** Theorems: the detector *)

Definition terminal (m : GripperSettle) : bool := negb (running m).

Lemma tick_wait_keeps m w e r :
  st_wait (tick_wait m w e r) = st_wait m /\ st_ticks (tick_wait m w e r) = st_ticks m /\
  st_armed_tick (tick_wait m w e r) = st_armed_tick m /\
  st_closing (tick_wait m w e r) = st_closing m.
Proof. destruct w; cbn [tick_wait]; unfold tick_move; repeat case_match; done. Qed.

Lemma settle_tick_keeps m t r e :
  st_wait (settle_tick m t r e) = st_wait m /\ st_ticks (settle_tick m t r e) = st_ticks m /\
  st_armed_tick (settle_tick m t r e) = st_armed_tick m /\
  st_closing (settle_tick m t r e) = st_closing m.
Proof.
  unfold settle_tick. destruct (st_wait m) as [w|] eqn:Ew; [|done].
  destruct (negb (running m)); [done|]. unfold close_window.
  destruct (if _ >=? _ then r else None) as [x|].
  - destruct (negb (_ =? 0)); [done|].
    destruct (tick_wait_keeps m w (saturating_sub t (st_armed_tick m)) x) as (H1 & H2 & H3 & H4).
    destruct (_ && _); cbn; rewrite ?H1, ?H2, ?H3, ?H4; done.
  - destruct (_ && _); done.
Qed.

Lemma settle_terminal m t r e : terminal m = true -> settle_tick m t r e = m.
Proof. unfold terminal, settle_tick. intros ->. by destruct (st_wait m). Qed.

Lemma settle_run_terminal ins m : terminal m = true -> settle_run m ins = m.
Proof.
  induction ins as [|[[t r] e] ins IH]; intros H; [done|].
  cbn. rewrite settle_terminal by done. by apply IH.
Qed.

Lemma running_set_verdict m v : running (set_verdict m v) = bool_decide (v = Running).
Proof. done. Qed.

Lemma window_closes m w t r e :
  st_wait m = Some w -> settle_timeout m w <= t - st_armed_tick m -> 0 <= st_armed_tick m <= t ->
  terminal (settle_tick m t r e) = true.
Proof.
  intros Hw Ht Ha. unfold terminal, settle_tick. rewrite Hw.
  destruct (running m) eqn:Er; cbn [negb]; [|by rewrite Er].
  assert (forall m', st_ticks m' = st_ticks m ->
    running (close_window m' w (saturating_sub t (st_armed_tick m))) = false) as Hc.
  { intros m' Hm'. unfold close_window.
    assert ((saturating_sub t (st_armed_tick m) >=? settle_timeout m' w) = true) as ->.
    { unfold settle_timeout in *. rewrite Hm'. unfold saturating_sub. destruct w; lia. }
    rewrite andb_true_r. by destruct (running m') eqn:E. }
  destruct (if _ >=? _ then r else None) as [x|].
  - destruct (negb (fault_bits x e =? 0)); [done|].
    rewrite Hc; [done|]. apply tick_wait_keeps.
  - by rewrite Hc.
Qed.

(** An armed wait ends.  Whatever the replies, present, absent or faulty,
    once a tick has come whose distance from the arming reaches the window of the
    action, the verdict is terminal, and no later tick changes it. *)
Lemma settle_always_ends m w pre t r e post :
  0 <= st_armed_tick m <= t -> st_wait m = Some w ->
  settle_timeout m w <= t - st_armed_tick m ->
  terminal (settle_run m (pre ++ (t, r, e) :: post)) = true /\
  settle_run m (pre ++ (t, r, e) :: post) = settle_run m (pre ++ [(t, r, e)]).
Proof.
  intros Ha Hw Ht. unfold settle_run. rewrite !fold_left_app. cbn [fold_left settle_step].
  set (m1 := fold_left settle_step pre m).
  assert (st_wait m1 = st_wait m /\ st_ticks m1 = st_ticks m /\ st_armed_tick m1 = st_armed_tick m)
    as (Hw1 & Ht1 & Ha1).
  { unfold m1. clear. revert m. induction pre as [|[[t' r'] e'] pre IH]; intros m; [done|].
    cbn. destruct (IH (settle_tick m t' r' e')) as (-> & -> & ->).
    destruct (settle_tick_keeps m t' r' e') as (-> & -> & -> & _). done. }
  assert (terminal (settle_tick m1 t r e) = true) as Hterm.
  { apply (window_closes m1 w); [congruence| |lia].
    unfold settle_timeout in *. rewrite Ht1, Ha1. done. }
  change (terminal (settle_run (settle_tick m1 t r e) post) = true /\
          settle_run (settle_tick m1 t r e) post = settle_tick m1 t r e).
  rewrite settle_run_terminal by done. done.
Qed.

Definition timings_4ms : SettleTicks := mkSettleTicks 25 5 1500 5000 250.
Definition settle_example : GripperSettle :=
  arm_move (mkSettle timings_4ms None 0 false 0 (mkToolStatus Unarmed 0)) 100 200 10.

Lemma settle_always_ends_witness :
  terminal (settle_run settle_example ([] ++ (1600, None, false) :: [])) = true /\
  settle_run settle_example ([] ++ (1600, None, false) :: []) =
  settle_run settle_example ([] ++ [(1600, None, false)]).
Proof. apply (settle_always_ends settle_example TW_Move); [cbn; lia|reflexivity|cbn; lia]. Defined.

(** What the detector hears: the codes of the replies past the grace window. *)
Definition heard (m : GripperSettle) (ins : list settle_input) : list ObjectDetection :=
  omap (fun '(t, r, _) =>
    if saturating_sub t (st_armed_tick m) >=? tk_grace (st_ticks m)
    then gr_object_detection <$> r else None) ins.

Definition dir_code (closing : bool) : ObjectDetection :=
  if closing then OD_DetectedClosing else OD_DetectedOpening.

(** Still waiting, with the streak backed by the codes heard last; or over. *)
Definition streak_inv (m0 m : GripperSettle) (ins : list settle_input) : Prop :=
  st_wait m = Some TW_Move /\ st_ticks m = st_ticks m0 /\ st_armed_tick m = st_armed_tick m0 /\
  st_closing m = st_closing m0 /\
  (verdict m = Running ->
     0 <= st_detect_streak m < tk_debounce (st_ticks m0) /\
     exists l, heard m0 ins =
       l ++ replicate (Z.to_nat (st_detect_streak m)) (dir_code (st_closing m0))) /\
  (forall d, verdict m = Settled d -> d <> OD_ReachedNoObject ->
     d = dir_code (st_closing m0) /\
     exists pre post l, ins = pre ++ post /\
       heard m0 pre = l ++ replicate (Z.to_nat (tk_debounce (st_ticks m0))) d).

Lemma heard_snoc m ins t r e :
  heard m (ins ++ [(t, r, e)]) =
  heard m ins ++
    match (if saturating_sub t (st_armed_tick m) >=? tk_grace (st_ticks m) then r else None) with
    | Some x => [gr_object_detection x]
    | None => []
    end.
Proof.
  unfold heard. rewrite omap_app. f_equal. cbn.
  destruct (_ >=? _); [by destruct r|done].
Qed.

Lemma tick_move_cases m r :
  let m' := tick_move m r in
  (m' = set_verdict m (Settled OD_ReachedNoObject)) \/
  (gr_object_detection r = dir_code (st_closing m) /\
   let m1 := set_streak m (st_detect_streak m + 1) in
   m' = (if st_detect_streak m + 1 >=? tk_debounce (st_ticks m)
         then set_verdict m1 (Settled (dir_code (st_closing m))) else m1)) \/
  m' = set_streak m 0.
Proof.
  unfold tick_move, dir_code. destruct (gr_object_detection r), (st_closing m) eqn:Ec; cbn -[Z.geb]; auto.
Qed.

Lemma settle_step_inv m0 m ins i :
  1 <= tk_debounce (st_ticks m0) -> streak_inv m0 m ins ->
  streak_inv m0 (settle_step m i) (ins ++ [i]).
Proof.
  intros Hd (Hw & Ht & Ha & Hc & Hrun & Hset). destruct i as [[t r] e]. cbn [settle_step].
  destruct (settle_tick_keeps m t r e) as (Kw & Kt & Ka & Kc).
  unfold streak_inv. rewrite Kw, Kt, Ka, Kc. split_and!; try done.
  - (* still running *)
    intros Hv. unfold settle_tick in *. rewrite Hw in *.
    destruct (running m) eqn:Er; cbn [negb] in *.
    2: { unfold running in Er. apply bool_decide_eq_false in Er. done. }
    apply bool_decide_eq_true in Er. destruct (Hrun Er) as (Hs & l & Hl).
    rewrite heard_snoc, Hl. rewrite Ht, Ha in *. 
    destruct (if _ >=? tk_grace _ then r else None) as [x|].
    + destruct (negb (fault_bits x e =? 0)); [done|]. unfold close_window in *.
      destruct (_ && _); [done|]. cbn [tick_wait] in *.
      destruct (tick_move_cases m x) as [E|[[Ex E]|E]]; rewrite E in *; [done| |].
      * rewrite Ht, Hc in *. destruct (st_detect_streak m + 1 >=? tk_debounce (st_ticks m0)) eqn:Eg;
          [done|]. cbn. split; [lia|]. exists l. rewrite Ex.
        replace (Z.to_nat (st_detect_streak m + 1)) with (Z.to_nat (st_detect_streak m) + 1)%nat by lia.
        by rewrite replicate_add, app_assoc.
      * cbn. split; [lia|]. eexists. by rewrite app_nil_r.
    + unfold close_window in *. destruct (_ && _); [done|]. split; [done|].
      exists l. by rewrite app_nil_r.
  - (* settled on a contact *)
    intros d Hv Hne.
    destruct (running m) eqn:Er.
    2: { rewrite settle_terminal in Hv by (unfold terminal; by rewrite Er).
         destruct (Hset d Hv Hne) as (? & pre & post & l & -> & Hl). split; [done|].
         exists pre, (post ++ [(t, r, e)]), l. by rewrite app_assoc. }
    apply bool_decide_eq_true in Er as Ev. destruct (Hrun Ev) as (Hs & l & Hl).
    unfold settle_tick in Hv. rewrite Hw, Er in Hv. cbn [negb] in Hv.
    destruct (if _ >=? tk_grace _ then r else None) as [x|] eqn:Ex.
    + destruct (negb (fault_bits x e =? 0)); [done|]. unfold close_window in Hv.
      destruct (_ && _); [done|]. cbn [tick_wait] in Hv.
      destruct (tick_move_cases m x) as [E|[[Ec E]|E]]; rewrite E in Hv.
      * cbn in Hv. congruence.
      * destruct (st_detect_streak m + 1 >=? tk_debounce (st_ticks m)) eqn:Eg;
          [injection Hv as <-|unfold verdict in *; cbn in Hv; congruence].
        rewrite Hc. split; [done|]. exists (ins ++ [(t, r, e)]), [], l.
        split; [by rewrite app_nil_r|]. rewrite heard_snoc, Hl, <- Ht, <- Ha, Ex, Ec, Hc.
        rewrite Z.geb_leb in Eg. rewrite Ht in *.
        replace (Z.to_nat (tk_debounce (st_ticks m0))) with (Z.to_nat (st_detect_streak m) + 1)%nat by lia.
        by rewrite replicate_add, app_assoc.
      * unfold verdict in *; cbn in Hv. congruence.
    + unfold close_window, verdict in *. destruct (_ && _); cbn in Hv; congruence.
Qed.

Lemma streak_inv_run m0 ins :
  1 <= tk_debounce (st_ticks m0) -> st_wait m0 = Some TW_Move -> st_detect_streak m0 = 0 ->
  verdict m0 = Running -> streak_inv m0 (settle_run m0 ins) ins.
Proof.
  intros Hd Hw Hs Hv. induction ins as [|i ins IH] using rev_ind.
  - unfold settle_run, streak_inv. simpl. split_and!; try done.
    + intros _. rewrite Hs. split; [lia|]. by exists [].
    + intros d Hd'. congruence.
  - unfold settle_run. rewrite fold_left_app. by apply settle_step_inv.
Qed.

(** A jaw move settles on a contact only in the commanded direction, and only
    when the last [debounce] replies heard after the command grace all carried
    that contact code: a code left over from the previous grasp, heard inside the
    grace or of the other direction, never settles it. *)
Lemma contact_is_debounced m tick target pos ins d :
  1 <= tk_debounce (st_ticks m) ->
  verdict (settle_run (arm_move m tick target pos) ins) = Settled d -> d <> OD_ReachedNoObject ->
  d = dir_code (target >? pos) /\
  exists pre post l, ins = pre ++ post /\
    heard (arm_move m tick target pos) pre = l ++ replicate (Z.to_nat (tk_debounce (st_ticks m))) d.
Proof.
  intros Hd Hv Hne.
  destruct (streak_inv_run (arm_move m tick target pos) ins) as (_ & _ & _ & _ & _ & H);
    [done..|]. exact (H d Hv Hne).
Qed.

Definition contact_reply : GripperReply :=
  mkReply 120 0 true true OD_DetectedClosing false false false true.
Definition contact_run : list settle_input :=
  map (fun n => (125 + Z.of_nat n, Some contact_reply, false)) (seq 0 6).

Lemma contact_is_debounced_witness :
  OD_DetectedClosing = dir_code (200 >? 10) /\
  exists pre post l, contact_run = pre ++ post /\
    heard (arm_move (mkSettle timings_4ms None 0 false 0 (mkToolStatus Unarmed 0)) 100 200 10) pre =
    l ++ replicate 5 OD_DetectedClosing.
Proof.
  apply (contact_is_debounced (mkSettle timings_4ms None 0 false 0 (mkToolStatus Unarmed 0))
    100 200 10 contact_run OD_DetectedClosing); [cbn; lia|reflexivity|discriminate].
Defined.
