(* ===== verification/Gpio.v ===== *)
(** * Gpio: input debouncing of [crates/par6-rt/src/gpio.rs]

    [Debouncer], the filter every box input and the e-stop line go through, and
    [EstopMonitor::pressed].  A level change is believed after
    [DEBOUNCE_READS] consecutive identical reads, never earlier and never later;
    the first read seeds the filter. *)
From S2P Require Import Prelude.

Definition DEBOUNCE_READS : Z := 5.

Record Debouncer := mkDebouncer {
  db_stable : option bool;
  db_candidate : bool;
  db_streak : Z;
}.

Definition debouncer_new : Debouncer := mkDebouncer None false 0.

Definition debounce_update (d : Debouncer) (raw : bool) : Debouncer * bool :=
  match db_stable d with
  | None => (mkDebouncer (Some raw) raw DEBOUNCE_READS, raw)
  | Some stable =>
      let d1 :=
        if Bool.eqb raw (db_candidate d)
        then mkDebouncer (db_stable d) (db_candidate d) (saturating_add 32 (db_streak d) 1)
        else mkDebouncer (db_stable d) raw 1 in
      if negb (Bool.eqb raw stable) && (db_streak d1 >=? DEBOUNCE_READS)
      then (mkDebouncer (Some raw) (db_candidate d1) (db_streak d1), raw)
      else (d1, stable)
  end.

(** [EstopMonitor::pressed]: the line is low while the e-stop is pressed. *)
Definition estop_pressed (d : Debouncer) (raw : bool) : Debouncer * bool :=
  let '(d', level) := debounce_update d raw in (d', negb level).

(** Levels reported for a sequence of raw reads, and the filter after it. *)
Definition debounce_run (d : Debouncer) (raws : list bool) : Debouncer :=
  fold_left (fun d r => fst (debounce_update d r)) raws d.

(** ** What the filter has seen *)

(** The reads end in [n] times [b]. *)
Definition ends_in (raws : list bool) (n : nat) (b : bool) : Prop :=
  exists l, raws = l ++ replicate n b.

(** Seeded by the first read; the candidate is the last read and the streak counts
    the reads equal to it at the end (at least the seed's worth at the start). *)
Definition debounce_inv (raws : list bool) (d : Debouncer) : Prop :=
  match raws with
  | [] => d = debouncer_new
  | first :: _ =>
      exists stable, db_stable d = Some stable /\
      1 <= db_streak d /\
      (db_candidate d = stable \/ db_streak d < DEBOUNCE_READS) /\
      (ends_in raws (Z.to_nat (Z.min (db_streak d) DEBOUNCE_READS)) (db_candidate d) \/
       (stable = first /\ db_candidate d = first /\ raws = replicate (length raws) first))
  end.

Lemma ends_in_snoc raws n b : ends_in raws n b -> ends_in (raws ++ [b]) (S n) b.
Proof.
  intros [l ->]. exists l. rewrite <- app_assoc. f_equal. by rewrite <- replicate_cons_app.
Qed.

Lemma ends_in_weaken raws n m b : (m <= n)%nat -> ends_in raws n b -> ends_in raws m b.
Proof.
  intros Hm [l ->]. exists (l ++ replicate (n - m) b).
  rewrite <- app_assoc, <- replicate_add. do 2 f_equal. lia.
Qed.

Lemma ends_in_all n b m : (m <= n)%nat -> ends_in (replicate n b) m b.
Proof.
  intros H. exists (replicate (n - m) b). rewrite <- replicate_add. f_equal. lia.
Qed.

Lemma debounce_inv_step raws d r :
  debounce_inv raws d -> debounce_inv (raws ++ [r]) (fst (debounce_update d r)).
Proof.
  destruct raws as [|first raws]; cbn [debounce_inv app].
  - intros ->. exists r. cbn. unfold DEBOUNCE_READS. split_and!; [done|lia|by left|by right].
  - intros (s & Hs & Hk & Hc & Hends). unfold debounce_update. rewrite Hs.
    unfold saturating_add, DEBOUNCE_READS in *. rewrite app_comm_cons.
    destruct (Bool.eqb r (db_candidate d)) eqn:Ec; cbn [db_stable db_candidate db_streak].
    + apply eqb_prop in Ec as ->.
      assert (ends_in ((first :: raws) ++ [db_candidate d])
                (Z.to_nat (Z.min (Z.min (db_streak d + 1) (2 ^ 32 - 1)) 5)) (db_candidate d) \/
              s = first /\ db_candidate d = first /\
              (first :: raws) ++ [db_candidate d] =
              replicate (length ((first :: raws) ++ [db_candidate d])) first) as Hends'.
      { destruct Hends as [He|(-> & Hcf & He)].
        - left. eapply ends_in_weaken; [|apply ends_in_snoc, He]. lia.
        - right. split_and!; [done|done|]. rewrite Hcf, He at 1.
          rewrite length_app, replicate_add. by rewrite <- He. }
      destruct (negb (Bool.eqb (db_candidate d) s) && _) eqn:Eb; cbn.
      * exists (db_candidate d). split_and!; [done|lia|by left|].
        destruct Hends' as [?|(? & ? & ?)]; [by left|]. right. by split_and!.
      * exists s. split_and!; [done|lia| |done].
        destruct Hc as [->|Hc]; [by left|].
        destruct (Bool.eqb (db_candidate d) s) eqn:E2; [apply eqb_prop in E2; by left|].
        right. cbn in Eb. lia.
    + cbn. rewrite andb_false_r. cbn. exists s. split_and!; [done|lia|by right|].
      left. exists (first :: raws). done.
Qed.

Lemma debounce_inv_run raws : debounce_inv raws (debounce_run debouncer_new raws).
Proof.
  induction raws as [|r raws IH] using rev_ind; [done|].
  unfold debounce_run. rewrite fold_left_app. by apply debounce_inv_step.
Qed.

(** From power-up on, a reported level differs from the level reported before
    it only if the last five raw reads all carry the new level: a contact bounce
    of fewer reads is never seen, whatever preceded it. *)
Lemma debounce_never_early raws r s :
  db_stable (debounce_run debouncer_new raws) = Some s ->
  snd (debounce_update (debounce_run debouncer_new raws) r) <> s ->
  snd (debounce_update (debounce_run debouncer_new raws) r) = r /\
  ends_in (raws ++ [r]) (Z.to_nat DEBOUNCE_READS) r.
Proof.
  intros Hs Hne. pose proof (debounce_inv_run raws) as Hinv.
  remember (debounce_run debouncer_new raws) as d eqn:Ed.
  destruct raws as [|first raws]; [cbn in Ed; by rewrite Ed in Hs|]. clear Ed.
  destruct Hinv as (s' & Hs' & Hk & Hc & Hends). rewrite Hs in Hs'. injection Hs' as <-.
  unfold debounce_update in *. rewrite Hs in *. unfold saturating_add, DEBOUNCE_READS in *.
  destruct (Bool.eqb r (db_candidate d)) eqn:Ec; cbn [db_stable db_candidate db_streak] in *.
  - destruct (negb (Bool.eqb r s) && _) eqn:Eb; cbn in *; [|done]. split; [done|].
    apply eqb_prop in Ec. bsplit. apply negb_true_iff, eqb_false_iff in H.
    destruct Hc as [Hcs|Hc]; [congruence|].
    destruct Hends as [He|(-> & Hcf & _)]; [|congruence].
    assert (db_candidate d = r) as E by congruence. rewrite E in He.
    change (first :: raws ++ [r]) with ((first :: raws) ++ [r]).
    eapply ends_in_weaken; [|apply ends_in_snoc, He]. lia.
  - rewrite andb_false_r in Hne. done.
Qed.

Lemma debounce_never_early_witness :
  snd (debounce_update (debounce_run debouncer_new [true; false; false; false; false]) false) = false /\
  ends_in ([true; false; false; false; false] ++ [false]) 5 false.
Proof.
  apply (debounce_never_early [true; false; false; false; false] false true);
    [reflexivity|discriminate].
Defined.

Definition seeded (d : Debouncer) : Prop := exists s, db_stable d = Some s /\ 0 <= db_streak d.

Lemma seeded_step d r : seeded d -> seeded (fst (debounce_update d r)).
Proof.
  intros (s & Hs & Hk). unfold debounce_update, saturating_add. rewrite Hs.
  destruct (Bool.eqb r (db_candidate d)); cbn [db_stable db_candidate db_streak];
    destruct (_ && _); eexists; cbn; (split; [done|lia]).
Qed.

(** After [k] equal reads: the streak says so, and a fifth one is believed. *)
Definition heading (b : bool) (k : Z) (d : Debouncer) : Prop :=
  db_candidate d = b /\ k <= db_streak d /\
  exists s, db_stable d = Some s /\ (s = b \/ db_streak d < DEBOUNCE_READS).

Lemma heading_step b k d :
  0 <= k < DEBOUNCE_READS -> seeded d -> (k = 0 \/ heading b k d) ->
  heading b (k + 1) (fst (debounce_update d b)).
Proof.
  intros Hk (s & Hs & Hstreak) H. unfold heading, debounce_update, saturating_add in *. rewrite Hs in *.
  unfold DEBOUNCE_READS in *.
  destruct (Bool.eqb b (db_candidate d)) eqn:Ec; cbn [db_stable db_candidate db_streak].
  - apply eqb_prop in Ec. destruct (negb (Bool.eqb b s) && _) eqn:Eb; cbn.
    + split_and!; [done|lia|]. exists b. by auto.
    + split_and!; [done|lia|]. exists s. split; [done|].
      destruct (Bool.eqb b s) eqn:E; [apply eqb_prop in E; by left|]. cbn in Eb. right. lia.
  - apply eqb_false_iff in Ec. rewrite andb_false_r. cbn.
    destruct H as [->|(? & _)]; [|congruence]. split_and!; [done|lia|]. exists s. split; [done|]. right. lia.
Qed.

Lemma heading_run n b d :
  (n <= 5)%nat -> seeded d ->
  seeded (debounce_run d (replicate n b)) /\
  (n = 0%nat \/ heading b (Z.of_nat n) (debounce_run d (replicate n b))).
Proof.
  intros Hn Hd. induction n as [|n IH]; [split; [done|by left]|].
  destruct IH as [IHs IH]; [lia|]. rewrite <- (Nat.add_1_r n), replicate_add.
  unfold debounce_run in *. rewrite fold_left_app. cbn [replicate fold_left].
  split; [by apply seeded_step|]. right. replace (Z.of_nat (n + 1)) with (Z.of_nat n + 1) by lia.
  apply heading_step; [unfold DEBOUNCE_READS; lia|done|]. destruct IH as [->|IH]; [by left|by right].
Qed.

(** A level held for five reads is always reported, whatever state bounces
    have left the filter in: a pressed e-stop is believed by the fifth tick. *)
Lemma debounce_never_late d b :
  seeded d -> db_stable (debounce_run d (replicate 5 b)) = Some b.
Proof.
  intros Hd. destruct (heading_run 5 b d (le_n 5) Hd) as [_ [|(_ & Hk & s & Hs & H)]]; [done|].
  rewrite Hs. unfold DEBOUNCE_READS in H. destruct H as [->|H]; [done|]. lia.
Qed.

Lemma debounce_never_late_witness :
  db_stable (debounce_run (mkDebouncer (Some true) false 4) (replicate 5 false)) = Some false.
Proof. apply debounce_never_late. exists true. split; [reflexivity|cbn; lia]. Defined.
