(* ===== verification/CoreState.v ===== *)
(** * CoreState: the state of the RT core and what it runs on

    [RtCore] of [crates/par6-rt/src/core.rs] as a record with one field per field
    its mode machine, command intake and error checks read or write, and the
    state of [ExecPlayback] ([crates/par6-rt/src/exec.rs]) without its tick.  The
    trait objects of the core (the bus backend, the jog engine, the stream
    trackers, the gravity model) and the homing sequencer are reached through the
    class [CoreDeps]; [BusSilenceLaws] states what the core relies on of a bus:
    only [set_silent] changes whether it is silent. *)
From Stdlib Require Import SpecFloat.
From S2P Require Import Prelude F64 BusTypes Ring RtState Gripper Gpio.

(** ** Types of the loop, the homing sequence and the streams *)

Inductive LoopHealth := LH_Ok | LH_Degraded | LH_Critical.
Inductive HomingJointStatus := HS_Idle | HS_Running | HS_Done | HS_Failed.

#[export] Instance LoopHealth_eq_dec : EqDecision LoopHealth.
Proof. solve_decision. Defined.
#[export] Instance HomingJointStatus_eq_dec : EqDecision HomingJointStatus.
Proof. solve_decision. Defined.

Record StreamSetpoint := mkSetpoint {
  sp_q : list f64;
  sp_speed : f64;
  sp_accel : f64;
  sp_shaped : bool;
}.

(** ** The collaborators *)

(** Methods of the trait objects and of the homing sequencer.  A [Result<(), _>]
    is its success flag. *)
Class CoreDeps := {
  bus_t : Type;
  bus_is_silent : bus_t -> bool;
  bus_set_silent : bus_t -> bool -> bus_t;
  bus_rebase_freshness : bus_t -> bus_t;
  bus_send_clear_error : bus_t -> Z -> Z -> bus_t;
  bus_clear_lost_latch : bus_t -> Z -> bus_t;
  bus_resend_node_config : bus_t -> Z -> Z -> bus_t * bool;
  bus_queue_poll_override : bus_t -> PollAction -> Z -> bus_t;
  bus_link_health : bus_t -> LinkHealth;
  bus_freshness : bus_t -> Z -> Freshness;
  bus_set_can_id : bus_t -> Z -> Z -> bus_t * bool;
  bus_save_config : bus_t -> Z -> bus_t * bool;
  bus_set_tool_id : bus_t -> Z -> Z -> bus_t * bool;
  bus_retune_node : bus_t -> Z -> DriveTune -> Z -> bus_t * bool;
  homing_t : Type;
  homing_start : homing_t -> bus_t -> homing_t * bus_t;
  homing_abort : homing_t -> bus_t -> homing_t * bus_t;
  homing_active : homing_t -> bool;
  homing_last_fw_cmd : homing_t -> option FirmwareGripperCommand;
  homing_clear_faults : homing_t -> homing_t;
  homing_calibration_failed : homing_t -> bool;
  homing_statuses : homing_t -> list HomingJointStatus;
  homing_retune : homing_t -> Z -> DriveTune -> homing_t;
  jog_t : Type;
  jog_activate : jog_t -> list f64 -> jog_t;
  jog_command : jog_t -> list f64 -> jog_t;
  jog_set_accel_scale : jog_t -> f64 -> jog_t;
  jog_release : jog_t -> jog_t;
  track_t : Type;
  track_activate : track_t -> list f64 -> track_t;
  track_release : track_t -> track_t;
  grav_t : Type;
  grav_set_payload : grav_t -> f64 -> list f64 -> option (list f64) -> grav_t;
}.

(** What the core relies on of a bus and of the sequencer that drives it: nothing
    but [set_silent] makes the bus silent or ends the silence. *)
Class BusSilenceLaws `{D : CoreDeps} := {
  silent_set : forall b s, bus_is_silent (bus_set_silent b s) = s;
  silent_rebase : forall b, bus_is_silent (bus_rebase_freshness b) = bus_is_silent b;
  silent_clear : forall b n k, bus_is_silent (bus_send_clear_error b n k) = bus_is_silent b;
  silent_latch : forall b n, bus_is_silent (bus_clear_lost_latch b n) = bus_is_silent b;
  silent_resend : forall b n k, bus_is_silent (fst (bus_resend_node_config b n k)) = bus_is_silent b;
  silent_poll : forall b a k, bus_is_silent (bus_queue_poll_override b a k) = bus_is_silent b;
  silent_can_id : forall b n k, bus_is_silent (fst (bus_set_can_id b n k)) = bus_is_silent b;
  silent_save : forall b n, bus_is_silent (fst (bus_save_config b n)) = bus_is_silent b;
  silent_tool : forall b n k, bus_is_silent (fst (bus_set_tool_id b n k)) = bus_is_silent b;
  silent_retune : forall b n t k, bus_is_silent (fst (bus_retune_node b n t k)) = bus_is_silent b;
  silent_start : forall h b, bus_is_silent (snd (homing_start h b)) = bus_is_silent b;
  silent_abort : forall h b, bus_is_silent (snd (homing_abort h b)) = bus_is_silent b;
}.

(** ** Sample playback, apart from its tick (exec.rs) *)

Record ExecPlayback := mkExec {
  ex_consumer : RingShared;
  ex_hold_q : list f64;
  ex_last_meta : option SampleMeta;
  ex_owe_boundary : option SampleMeta;
  ex_settling : bool;
  ex_active_cmd : Z;
  ex_completed : Z;
  ex_paused : bool;
  ex_paused_ticks : Z;
  ex_stopping : bool;
  ex_faulted : bool;
  ex_scale_rate : f64;
  ex_requested_scale : f64;
  ex_applied_scale : f64;
  ex_phase : f64;
  ex_left : Sample;
}.

Definition sample_at (q : list f64) : Sample :=
  mkSample q (s_qd sample_default) (s_tau_ff sample_default) (s_inertia_velocity sample_default)
    None (s_meta sample_default).

Definition requested_target (e : ExecPlayback) : f64 :=
  if ex_paused e then f64_0 else ex_requested_scale e.

Definition target_scale (e : ExecPlayback) : f64 :=
  if ex_stopping e then f64_0 else requested_target e.

(** [stopping] is cleared before [target_scale] is read. *)
Definition exec_activate (e : ExecPlayback) (q_meas : list f64) : ExecPlayback :=
  mkExec (ex_consumer e) q_meas None None false 0 0 (ex_paused e) (ex_paused_ticks e) false false
    f64_0 (ex_requested_scale e) (requested_target e) f64_0 (sample_at q_meas).

Definition exec_set_paused (e : ExecPlayback) (paused : bool) : ExecPlayback :=
  mkExec (ex_consumer e) (ex_hold_q e) (ex_last_meta e) (ex_owe_boundary e) (ex_settling e)
    (ex_active_cmd e) (ex_completed e) paused (ex_paused_ticks e) (ex_stopping e) (ex_faulted e)
    (ex_scale_rate e) (ex_requested_scale e) (ex_applied_scale e) (ex_phase e) (ex_left e).

Definition exec_clock_tick (e : ExecPlayback) : ExecPlayback :=
  if ex_paused e then
    mkExec (ex_consumer e) (ex_hold_q e) (ex_last_meta e) (ex_owe_boundary e) (ex_settling e)
      (ex_active_cmd e) (ex_completed e) (ex_paused e) (ex_paused_ticks e + 1) (ex_stopping e)
      (ex_faulted e) (ex_scale_rate e) (ex_requested_scale e) (ex_applied_scale e) (ex_phase e)
      (ex_left e)
  else e.

Definition exec_set_speed_scale (e : ExecPlayback) (scale : f64) : ExecPlayback * bool :=
  if negb (f64_is_finite scale) || negb (f64_le f64_0_1 scale && f64_le scale f64_1) then (e, false)
  else
    (mkExec (ex_consumer e) (ex_hold_q e) (ex_last_meta e) (ex_owe_boundary e) (ex_settling e)
       (ex_active_cmd e) (ex_completed e) (ex_paused e) (ex_paused_ticks e) (ex_stopping e)
       (ex_faulted e) (ex_scale_rate e) scale (ex_applied_scale e) (ex_phase e) (ex_left e), true).

Definition exec_set_stopping (e : ExecPlayback) (v : bool) : ExecPlayback :=
  mkExec (ex_consumer e) (ex_hold_q e) (ex_last_meta e) (ex_owe_boundary e) (ex_settling e)
    (ex_active_cmd e) (ex_completed e) (ex_paused e) (ex_paused_ticks e) v (ex_faulted e)
    (ex_scale_rate e) (ex_requested_scale e) (ex_applied_scale e) (ex_phase e) (ex_left e).

Definition exec_begin_stop (e : ExecPlayback) : ExecPlayback := exec_set_stopping e true.

Definition exec_flush (e : ExecPlayback) : ExecPlayback * Z :=
  let '(consumer, dropped) := clear_marked (ex_consumer e) in
  let restart := dropped >? 0 in
  (mkExec consumer (ex_hold_q e) None None false (ex_active_cmd e) (ex_completed e) (ex_paused e)
     (ex_paused_ticks e) (ex_stopping e) (ex_faulted e) (ex_scale_rate e) (ex_requested_scale e)
     (ex_applied_scale e) (if restart then f64_0 else ex_phase e)
     (if restart then sample_at (ex_hold_q e) else ex_left e), dropped).

Definition exec_finish_stop (e : ExecPlayback) : ExecPlayback :=
  fst (exec_flush (exec_set_stopping e false)).

Definition exec_at_rest (e : ExecPlayback) : ExecPlayback :=
  mkExec (ex_consumer e) (ex_hold_q e) (ex_last_meta e) (ex_owe_boundary e) (ex_settling e)
    (ex_active_cmd e) (ex_completed e) (ex_paused e) (ex_paused_ticks e) (ex_stopping e)
    (ex_faulted e) f64_0 (ex_requested_scale e) (target_scale e) (ex_phase e) (ex_left e).

Definition exec_reseed_hold (e : ExecPlayback) (q : list f64) : ExecPlayback :=
  mkExec (ex_consumer e) q (ex_last_meta e) (ex_owe_boundary e) (ex_settling e)
    (ex_active_cmd e) (ex_completed e) (ex_paused e) (ex_paused_ticks e) (ex_stopping e)
    (ex_faulted e) (ex_scale_rate e) (ex_requested_scale e) (ex_applied_scale e) f64_0 (sample_at q).

Definition exec_samples_remaining (e : ExecPlayback) : Z := ring_len (ex_consumer e).

Definition is_holding_after_completion (e : ExecPlayback) : bool :=
  negb (ex_paused e) && negb (ex_faulted e) && negb (ex_settling e) &&
  (match ex_owe_boundary e with None => true | Some _ => false end) &&
  (exec_samples_remaining e =? 0).

(** ** The core *)

Section CoreState.
Context `{D : CoreDeps}.

Record RtCore := mkRtCore {
  c_tick : Z;
  c_bus : bus_t;
  c_nodes : list NodeState;
  c_gripper_reply : option GripperReply;
  c_gripper_live_bit : bool;
  c_reconnected_mask : Z;
  c_config_repush_armed_at : Z;
  c_config_repeats : Z;
  c_node_of : list Z;
  c_gripper_node : Z;
  c_has_can_gripper : bool;
  c_gravity : grav_t;
  c_payload : f64 * list f64 * option (list f64);
  c_jog : jog_t;
  c_stream : track_t;
  c_stream_shaped : track_t;
  c_exec : ExecPlayback;
  c_io_lines : list Z;
  c_io_debounce : list Debouncer;
  c_n_io_inputs : nat;
  c_n_io_outputs : nat;
  c_io_out_dirty : bool;
  c_flashed : bool;
  c_homing : homing_t;
  c_ref_check_sum : list f64;
  c_ref_check_n : Z;
  c_tool_hold : bool;
  c_errors : ErrorManager;
  c_self_heal_armed : list bool;
  c_config_resend_failures : Z;
  c_config_resend_pending : Z;
  c_bus_off_events_seen : Z;
  c_tx_fail_streak : Z;
  c_gripper_tx_fail_streak : Z;
  c_tx_fault_latch_ticks : Z;
  c_mode : Mode;
  c_state : ArmState;
  c_enabled_request_id : Z;
  c_homed : bool;
  c_soft_estop : bool;
  c_hw_estop : bool;
  c_estop_standing : bool;
  c_park_asserted : bool;
  c_gravity_comp : bool;
  c_not_homed_refused : bool;
  c_q : list f64;
  c_tau_ext : list f64;
  c_tau_env_margin_nm : f64;
  c_tau_env_window_ticks : Z;
  c_tau_env_over : list Z;
  c_q_target : list f64;
  c_scratch_tau : list f64;
  c_gripper_gate : GripperGate;
  c_gripper_settle : GripperSettle;
  c_calibrate_pending : bool;
  c_jog_active : bool;
  c_jog_released : bool;
  c_stream_released : bool;
  c_jog_joints : Z;
  c_jog_blocked : Z;
  c_heartbeat : bool;
  c_hb_silence : Z;
  c_hb_timeout_ticks : Z;
  c_stream_rx : option StreamSetpoint;
  c_stream_is_shaped : bool;
  c_stream_commanded : list f64;
  c_jog_accel_scale : f64;
  c_stream_sent : Z;
  c_stream_last_rx_tick : Z;
  c_stream_timeout_ticks : Z;
  c_stream_window_pos : Z;
  c_stream_window_applied : Z;
  c_stream_sent_base : Z;
  c_stream_success : f32;
  c_stream_discard : f32;
  c_stream_filt : list f64;
  c_scan_next : option Z;
  c_scan_settle : Z;
  c_scan_settle_ticks : Z;
  c_scan_epoch : Z;
}.

(** The core rebuilt from its fields: what a setter replaces one field of. *)
Definition core_eta (c : RtCore) : RtCore :=
  mkRtCore (c_tick c) (c_bus c) (c_nodes c) (c_gripper_reply c) (c_gripper_live_bit c)
    (c_reconnected_mask c) (c_config_repush_armed_at c) (c_config_repeats c) (c_node_of c)
    (c_gripper_node c) (c_has_can_gripper c) (c_gravity c) (c_payload c) (c_jog c)
    (c_stream c) (c_stream_shaped c) (c_exec c) (c_io_lines c) (c_io_debounce c)
    (c_n_io_inputs c) (c_n_io_outputs c) (c_io_out_dirty c) (c_flashed c) (c_homing c)
    (c_ref_check_sum c) (c_ref_check_n c) (c_tool_hold c) (c_errors c)
    (c_self_heal_armed c) (c_config_resend_failures c) (c_config_resend_pending c)
    (c_bus_off_events_seen c) (c_tx_fail_streak c) (c_gripper_tx_fail_streak c)
    (c_tx_fault_latch_ticks c) (c_mode c) (c_state c) (c_enabled_request_id c) (c_homed c)
    (c_soft_estop c) (c_hw_estop c) (c_estop_standing c) (c_park_asserted c)
    (c_gravity_comp c) (c_not_homed_refused c) (c_q c) (c_tau_ext c)
    (c_tau_env_margin_nm c) (c_tau_env_window_ticks c) (c_tau_env_over c) (c_q_target c)
    (c_scratch_tau c) (c_gripper_gate c) (c_gripper_settle c) (c_calibrate_pending c)
    (c_jog_active c) (c_jog_released c) (c_stream_released c) (c_jog_joints c)
    (c_jog_blocked c) (c_heartbeat c) (c_hb_silence c) (c_hb_timeout_ticks c)
    (c_stream_rx c) (c_stream_is_shaped c) (c_stream_commanded c) (c_jog_accel_scale c)
    (c_stream_sent c) (c_stream_last_rx_tick c) (c_stream_timeout_ticks c)
    (c_stream_window_pos c) (c_stream_window_applied c) (c_stream_sent_base c)
    (c_stream_success c) (c_stream_discard c) (c_stream_filt c) (c_scan_next c)
    (c_scan_settle c) (c_scan_settle_ticks c) (c_scan_epoch c).

(** [self.field = v]. *)
Ltac replace_field getter c v :=
  let t := eval unfold core_eta in (core_eta c) in
  lazymatch t with context T [getter c] => let t' := context T [v] in exact t' end.

Definition set_tick (v : Z) (c : RtCore) : RtCore := ltac:(replace_field c_tick c v).
Definition set_bus (v : bus_t) (c : RtCore) : RtCore := ltac:(replace_field c_bus c v).
Definition set_nodes (v : list NodeState) (c : RtCore) : RtCore := ltac:(replace_field c_nodes c v).
Definition set_config_repush_armed_at (v : Z) (c : RtCore) : RtCore := ltac:(replace_field c_config_repush_armed_at c v).
Definition set_gravity (v : grav_t) (c : RtCore) : RtCore := ltac:(replace_field c_gravity c v).
Definition set_payload (v : f64 * list f64 * option (list f64)) (c : RtCore) : RtCore := ltac:(replace_field c_payload c v).
Definition set_jog (v : jog_t) (c : RtCore) : RtCore := ltac:(replace_field c_jog c v).
Definition set_stream (v : track_t) (c : RtCore) : RtCore := ltac:(replace_field c_stream c v).
Definition set_stream_shaped (v : track_t) (c : RtCore) : RtCore := ltac:(replace_field c_stream_shaped c v).
Definition set_exec (v : ExecPlayback) (c : RtCore) : RtCore := ltac:(replace_field c_exec c v).
Definition set_io_lines (v : list Z) (c : RtCore) : RtCore := ltac:(replace_field c_io_lines c v).
Definition set_io_debounce (v : list Debouncer) (c : RtCore) : RtCore := ltac:(replace_field c_io_debounce c v).
Definition set_io_out_dirty (v : bool) (c : RtCore) : RtCore := ltac:(replace_field c_io_out_dirty c v).
Definition set_homing (v : homing_t) (c : RtCore) : RtCore := ltac:(replace_field c_homing c v).
Definition set_ref_check_sum (v : list f64) (c : RtCore) : RtCore := ltac:(replace_field c_ref_check_sum c v).
Definition set_ref_check_n (v : Z) (c : RtCore) : RtCore := ltac:(replace_field c_ref_check_n c v).
Definition set_errors (v : ErrorManager) (c : RtCore) : RtCore := ltac:(replace_field c_errors c v).
Definition set_self_heal_armed (v : list bool) (c : RtCore) : RtCore := ltac:(replace_field c_self_heal_armed c v).
Definition set_config_resend_failures (v : Z) (c : RtCore) : RtCore := ltac:(replace_field c_config_resend_failures c v).
Definition set_config_resend_pending (v : Z) (c : RtCore) : RtCore := ltac:(replace_field c_config_resend_pending c v).
Definition set_bus_off_events_seen (v : Z) (c : RtCore) : RtCore := ltac:(replace_field c_bus_off_events_seen c v).
Definition set_mode (v : Mode) (c : RtCore) : RtCore := ltac:(replace_field c_mode c v).
Definition set_state (v : ArmState) (c : RtCore) : RtCore := ltac:(replace_field c_state c v).
Definition set_enabled_request_id (v : Z) (c : RtCore) : RtCore := ltac:(replace_field c_enabled_request_id c v).
Definition set_homed (v : bool) (c : RtCore) : RtCore := ltac:(replace_field c_homed c v).
Definition set_soft_estop (v : bool) (c : RtCore) : RtCore := ltac:(replace_field c_soft_estop c v).
Definition set_estop_standing (v : bool) (c : RtCore) : RtCore := ltac:(replace_field c_estop_standing c v).
Definition set_park_asserted (v : bool) (c : RtCore) : RtCore := ltac:(replace_field c_park_asserted c v).
Definition set_gravity_comp (v : bool) (c : RtCore) : RtCore := ltac:(replace_field c_gravity_comp c v).
Definition set_not_homed_refused (v : bool) (c : RtCore) : RtCore := ltac:(replace_field c_not_homed_refused c v).
Definition set_tau_env_over (v : list Z) (c : RtCore) : RtCore := ltac:(replace_field c_tau_env_over c v).
Definition set_q_target (v : list f64) (c : RtCore) : RtCore := ltac:(replace_field c_q_target c v).
Definition set_gripper_gate (v : GripperGate) (c : RtCore) : RtCore := ltac:(replace_field c_gripper_gate c v).
Definition set_gripper_settle (v : GripperSettle) (c : RtCore) : RtCore := ltac:(replace_field c_gripper_settle c v).
Definition set_calibrate_pending (v : bool) (c : RtCore) : RtCore := ltac:(replace_field c_calibrate_pending c v).
Definition set_jog_active (v : bool) (c : RtCore) : RtCore := ltac:(replace_field c_jog_active c v).
Definition set_jog_released (v : bool) (c : RtCore) : RtCore := ltac:(replace_field c_jog_released c v).
Definition set_stream_released (v : bool) (c : RtCore) : RtCore := ltac:(replace_field c_stream_released c v).
Definition set_jog_joints (v : Z) (c : RtCore) : RtCore := ltac:(replace_field c_jog_joints c v).
Definition set_jog_blocked (v : Z) (c : RtCore) : RtCore := ltac:(replace_field c_jog_blocked c v).
Definition set_heartbeat (v : bool) (c : RtCore) : RtCore := ltac:(replace_field c_heartbeat c v).
Definition set_hb_silence (v : Z) (c : RtCore) : RtCore := ltac:(replace_field c_hb_silence c v).
Definition set_stream_rx (v : option StreamSetpoint) (c : RtCore) : RtCore := ltac:(replace_field c_stream_rx c v).
Definition set_stream_is_shaped (v : bool) (c : RtCore) : RtCore := ltac:(replace_field c_stream_is_shaped c v).
Definition set_stream_commanded (v : list f64) (c : RtCore) : RtCore := ltac:(replace_field c_stream_commanded c v).
Definition set_jog_accel_scale (v : f64) (c : RtCore) : RtCore := ltac:(replace_field c_jog_accel_scale c v).
Definition set_stream_last_rx_tick (v : Z) (c : RtCore) : RtCore := ltac:(replace_field c_stream_last_rx_tick c v).
Definition set_stream_window_pos (v : Z) (c : RtCore) : RtCore := ltac:(replace_field c_stream_window_pos c v).
Definition set_stream_window_applied (v : Z) (c : RtCore) : RtCore := ltac:(replace_field c_stream_window_applied c v).
Definition set_stream_sent_base (v : Z) (c : RtCore) : RtCore := ltac:(replace_field c_stream_sent_base c v).
Definition set_stream_success (v : f32) (c : RtCore) : RtCore := ltac:(replace_field c_stream_success c v).
Definition set_stream_discard (v : f32) (c : RtCore) : RtCore := ltac:(replace_field c_stream_discard c v).
Definition set_stream_filt (v : list f64) (c : RtCore) : RtCore := ltac:(replace_field c_stream_filt c v).
Definition set_scan_next (v : option Z) (c : RtCore) : RtCore := ltac:(replace_field c_scan_next c v).
Definition set_scan_settle (v : Z) (c : RtCore) : RtCore := ltac:(replace_field c_scan_settle c v).
Definition set_scan_epoch (v : Z) (c : RtCore) : RtCore := ltac:(replace_field c_scan_epoch c v).

Definition set_gripper_reply (v : option GripperReply) (c : RtCore) : RtCore := ltac:(replace_field c_gripper_reply c v).
Definition set_gripper_live_bit (v : bool) (c : RtCore) : RtCore := ltac:(replace_field c_gripper_live_bit c v).
Definition set_reconnected_mask (v : Z) (c : RtCore) : RtCore := ltac:(replace_field c_reconnected_mask c v).
Definition set_tool_hold (v : bool) (c : RtCore) : RtCore := ltac:(replace_field c_tool_hold c v).
Definition set_tx_fail_streak (v : Z) (c : RtCore) : RtCore := ltac:(replace_field c_tx_fail_streak c v).
Definition set_gripper_tx_fail_streak (v : Z) (c : RtCore) : RtCore := ltac:(replace_field c_gripper_tx_fail_streak c v).
Definition set_hw_estop (v : bool) (c : RtCore) : RtCore := ltac:(replace_field c_hw_estop c v).
Definition set_q (v : list f64) (c : RtCore) : RtCore := ltac:(replace_field c_q c v).
Definition set_tau_ext (v : list f64) (c : RtCore) : RtCore := ltac:(replace_field c_tau_ext c v).
Definition set_scratch_tau (v : list f64) (c : RtCore) : RtCore := ltac:(replace_field c_scratch_tau c v).

End CoreState.
