(* ===== verification/Core.v ===== *)
(** * Core: the mode machine of the RT core

    Command intake ([apply_command]), the mode gates and transitions
    ([request_mode], [enter_mode], [leave_mode], [rest_into_hold]), the user clear
    ([begin_clear]), the box outputs and the per-tick error checks with their
    reactions ([check_errors]) of [crates/par6-rt/src/core.rs], each as a function
    on [RtCore].  Logging is left out.  The theorems are in CoreSafety. *)
From Stdlib Require Import SpecFloat.
From S2P Require Import Prelude F64 BusTypes Ring RtState Gripper Gpio CoreState.

Definition GRIPPER_ERR_IDX : Z := Z.of_nat MAX_JOINTS.
Definition CLEAR_ERROR_REPEATS : Z := 3.

Inductive GateRefusal :=
| InvalidTransition | NotEnabled | ErrorsActive | NotHomed | ParkAssertionRequired | NotImplemented.

#[export] Instance GateRefusal_eq_dec : EqDecision GateRefusal.
Proof. solve_decision. Defined.

(** Commands of the command plane (hooks.rs). *)
Inductive RtCommand :=
| RC_SetMode (m : Mode)
| RC_Enable (request_id : Z)
| RC_Disable
| RC_ClearErrors
| RC_SetSoftEstop (on : bool)
| RC_AssertParked
| RC_Jog (speeds : list f64) (accel : f64)
| RC_JogRelease
| RC_StreamRelease
| RC_ExecSetPaused (paused : bool)
| RC_ExecSetSpeedScale (scale : f64)
| RC_ExecFlush
| RC_ExecStop
| RC_Hold
| RC_Gripper (fw : FirmwareGripperCommand)
| RC_GripperCalibrate
| RC_GripperStop
| RC_GripperIdle
| RC_SetGravityComp (on : bool)
| RC_SetPayload (mass : f64) (com : list f64) (inertia : option (list f64))
| RC_WriteIo (port value : Z)
| RC_RetuneNode (node : Z) (tune : DriveTune)
| RC_SetCanId (node new_id : Z)
| RC_SaveConfig (node : Z)
| RC_SetToolId (node tool_id : Z)
| RC_RescanBus.

Definition latch_key (f : Fault) : ErrorCode :=
  match f with
  | Flt_Temperature => EC_Temperature
  | Flt_Encoder => EC_Encoder
  | Flt_Vbus => EC_Vbus
  | Flt_Driver => EC_Driver
  | Flt_Velocity => EC_Velocity
  | Flt_Current => EC_Current
  | Flt_EstopMotor => EC_EstopMotor
  | Flt_Watchdog => EC_Watchdog
  end.

(** Bit [i] for every speed that is not zero. *)
Fixpoint joint_mask_from (i : Z) (speeds : list f64) : Z :=
  match speeds with
  | [] => 0
  | v :: l => Z.lor (if f64_eqb v f64_0 then 0 else Z.shiftl 1 i) (joint_mask_from (i + 1) l)
  end.
Definition joint_mask (speeds : list f64) : Z := joint_mask_from 0 speeds.

Section Core.
Context `{D : CoreDeps}.

(** [self.errors.latch(...)] and the like: replace a component by its image. *)
Definition upd_errors (f : ErrorManager -> ErrorManager) (c : RtCore) : RtCore :=
  set_errors (f (c_errors c)) c.
Definition upd_bus (f : bus_t -> bus_t) (c : RtCore) : RtCore := set_bus (f (c_bus c)) c.
Definition upd_exec (f : ExecPlayback -> ExecPlayback) (c : RtCore) : RtCore :=
  set_exec (f (c_exec c)) c.
Definition upd_gate (f : GripperGate -> GripperGate) (c : RtCore) : RtCore :=
  set_gripper_gate (f (c_gripper_gate c)) c.
Definition upd_settle (f : GripperSettle -> GripperSettle) (c : RtCore) : RtCore :=
  set_gripper_settle (f (c_gripper_settle c)) c.

Definition core_latch (code : ErrorCode) (joint : option Z) : RtCore -> RtCore :=
  upd_errors (fun m => latch m code joint).
Definition core_condition (code : ErrorCode) (joint : option Z) (active : bool) : RtCore -> RtCore :=
  upd_errors (fun m => condition m code joint active).

Definition estop_condition (c : RtCore) : bool := c_hw_estop c || c_soft_estop c.

(** ** Stored configuration *)

Definition resend_config (node : Z) (c : RtCore) : RtCore :=
  let bit := Z.shiftl 1 node in
  let '(b, ok) := bus_resend_node_config (c_bus c) node (c_config_repeats c) in
  let c := set_bus b c in
  if ok : bool then set_config_resend_pending (Z.ldiff (c_config_resend_pending c) bit) c
  else
    set_config_resend_pending (Z.lor (c_config_resend_pending c) bit)
      (set_config_resend_failures (saturating_add 32 (c_config_resend_failures c) 1) c).

Definition config_repush (c : RtCore) : RtCore :=
  let c := fold_left (fun c n => resend_config n c) (c_node_of c) c in
  if c_has_can_gripper c then resend_config (c_gripper_node c) c else c.

(** Least set bit of a nonzero 16-bit mask. *)
Definition trailing_zeros (mask : Z) : Z :=
  match List.find (fun i => Z.testbit mask (Z.of_nat i)) (seq 0 16) with
  | Some i => Z.of_nat i
  | None => 16
  end.

Definition drain_config_resends (c : RtCore) : RtCore :=
  if (c_config_resend_pending c =? 0) || bus_is_silent (c_bus c) then c
  else resend_config (trailing_zeros (c_config_resend_pending c)) c.

(** ** Leaving and entering a mode *)

Definition leave_mode (target : Mode) (c : RtCore) : RtCore :=
  let c :=
    match c_mode c with
    | Homing =>
        if homing_active (c_homing c) then
          let '(h, b) := homing_abort (c_homing c) (c_bus c) in
          let c := set_homed false (set_bus b (set_homing h c)) in
          if c_has_can_gripper c then
            upd_settle disarm (upd_gate (fun g => force_idle g (homing_last_fw_cmd (c_homing c))) c)
          else c
        else c
    | Flashing =>
        let c := upd_bus (fun b => bus_set_silent b false) c in
        let c := upd_bus bus_rebase_freshness c in
        let c := config_repush c in
        let c := set_config_repush_armed_at (c_tick c) c in
        let c := if c_flashed c then set_homed false c else c in
        if c_has_can_gripper c then upd_settle disarm (upd_gate (fun g => force_idle g None) c) else c
    | Exec => if ex_stopping (c_exec c) then upd_exec exec_finish_stop c else c
    | Stream => set_stream_rx None c
    | _ => c
    end in
  set_park_asserted false c.

Definition enter_homing (c : RtCore) : RtCore :=
  let c := set_homed false c in
  let c := set_ref_check_sum (replicate MAX_JOINTS f64_0) c in
  let c := set_ref_check_n 0 c in
  let '(h, b) := homing_start (c_homing c) (c_bus c) in
  set_bus b (set_homing h c).

Definition enter_jog (c : RtCore) : RtCore :=
  let c := set_jog (jog_activate (c_jog c) (c_q c)) c in
  let c := set_jog_active false c in
  let c := set_jog_released false c in
  let c := set_jog_joints 0 c in
  set_jog_blocked 0 c.

Definition enter_exec (at_q : list f64) (c : RtCore) : RtCore :=
  set_hb_silence 0 (upd_exec (fun e => exec_activate e at_q) c).

Definition enter_stream (c : RtCore) : RtCore :=
  let c := set_stream (track_activate (c_stream c) (c_q c)) c in
  let c := set_stream_shaped (track_activate (c_stream_shaped c) (c_q c)) c in
  let c := set_stream_commanded (c_q c) c in
  let c := set_stream_is_shaped false c in
  let c := set_stream_released false c in
  let c := set_stream_last_rx_tick (c_tick c) c in
  let c := set_stream_window_pos 0 c in
  let c := set_stream_window_applied 0 c in
  let c := set_stream_sent_base (c_stream_sent c) c in
  let c := set_stream_success 0 c in
  let c := set_stream_discard 0 c in
  let c := set_stream_filt (c_q c) c in
  set_q_target (c_q c) c.

Definition enter_mode (target : Mode) (c : RtCore) : RtCore :=
  let c := leave_mode target c in
  let c :=
    match target with
    | Homing => enter_homing c
    | Jog => enter_jog c
    | Exec => enter_exec (c_q c) c
    | Stream => enter_stream c
    | Flashing => upd_bus (fun b => bus_set_silent b true) c
    | _ => c
    end in
  set_mode target c.

(** ** Gates *)

(** [request_mode]: the transition table. *)
Definition transition_allowed (from target : Mode) : bool :=
  match from with
  | Booting => mode_in target [Idle; SafetyStop]
  | Idle => true
  | ActiveError => mode_in target [Idle; Flashing; SafetyStop]
  | SafetyStop => mode_eqb target Idle
  | _ => mode_in target [Idle; SafetyStop]
  end.

(** The gates of the target, and the warning flag they leave. *)
Definition target_gate (target : Mode) (c : RtCore) : RtCore * result GateRefusal unit :=
  match target with
  | Idle | SafetyStop => (c, Ok tt)
  | Flashing => if negb (c_park_asserted c) then (c, Err ParkAssertionRequired) else (c, Ok tt)
  | _ =>
      if negb (bool_decide (c_state c = Enabled)) then (c, Err NotEnabled)
      else if any_hard (c_errors c) then (c, Err ErrorsActive)
      else if mode_in target [Stream; Exec] && negb (c_homed c) then
        (set_not_homed_refused true c, Err NotHomed)
      else (c, Ok tt)
  end.

Definition request_mode (target : Mode) (c : RtCore) : RtCore * result GateRefusal unit :=
  if mode_eqb target (c_mode c) then
    ((if mode_eqb target Stream && c_stream_released c
      then set_stream_last_rx_tick (c_tick c) (set_stream_released false c) else c), Ok tt)
  else if mode_in target [Booting; ActiveError] then (c, Err InvalidTransition)
  else if mode_in target [HandGuiding; Impedance] then (c, Err NotImplemented)
  else if negb (transition_allowed (c_mode c) target) then (c, Err InvalidTransition)
  else
    match target_gate target c with
    | (c, Err e) => (c, Err e)
    | (c, Ok _) => (enter_mode target c, Ok tt)
    end.

Definition rest_into_hold (at_q : list f64) (c : RtCore) : RtCore :=
  let may_hold := c_homed c && bool_decide (c_state c = Enabled) && negb (any_hard (c_errors c)) in
  if negb may_hold then enter_mode Idle c
  else set_mode Exec (enter_exec at_q (leave_mode Exec c)).

(** ** The user clear *)

Definition err_node (c : RtCore) (j : Z) : Z :=
  if j <? Z.of_nat MAX_JOINTS then c_node_of c !!! Z.to_nat j else c_gripper_node c.

(** One entry of the latch: its node is cleared unless its bit is already set. *)
Definition clear_entry (st : RtCore * Z) (e : ErrorEntry) : RtCore * Z :=
  let '(c, cleared) := st in
  match ee_joint e with
  | None => (c, cleared)
  | Some j =>
      let node := err_node c j in
      let bit := Z.shiftl 1 node in
      if negb (Z.land cleared bit =? 0) then (c, cleared)
      else
        (upd_bus (fun b => bus_clear_lost_latch (bus_send_clear_error b node CLEAR_ERROR_REPEATS) node) c,
         Z.lor cleared bit)
  end.

(** [node.error_flags = None]. *)
Definition drop_flags (n : NodeState) : NodeState :=
  mkNodeState (ns_position_ticks n) (ns_position_generation n) (ns_speed_ticks_s n)
    (ns_current_ma n) (ns_temperature_c n) (ns_voltage_mv n) None (ns_kt_nm_a n)
    (ns_device_info n) (ns_combined_telemetry n) (ns_hall n) (ns_live_error_bit n) (ns_readback n)
    (ns_data_age_ticks n).

Definition begin_clear (c : RtCore) : RtCore :=
  let '(c, cleared) := fold_left clear_entry (em_list (c_errors c)) (c, 0) in
  let c :=
    if c_has_can_gripper c && (Z.land cleared (Z.shiftl 1 (c_gripper_node c)) =? 0)
    then upd_bus (fun b => bus_send_clear_error b (c_gripper_node c) CLEAR_ERROR_REPEATS) c
    else c in
  let c := set_nodes (map drop_flags (c_nodes c)) c in
  let c := set_not_homed_refused false c in
  let c := set_homing (homing_clear_faults (c_homing c)) c in
  upd_errors em_begin_clear c.

(** ** Box lines *)

(** The debounced levels of the declared inputs, one raw read each. *)
Fixpoint debounce_lines (ds : list Debouncer) (raw : list Z) : list Debouncer * list Z :=
  match ds, raw with
  | d :: ds', r :: raw' =>
      let '(d', level) := debounce_update d (negb (r =? 0)) in
      let '(ds'', levels) := debounce_lines ds' raw' in
      (d' :: ds'', Z.b2z level :: levels)
  | _, _ => (ds, [])
  end.

(** [raw]: what the lines read this tick, one value per declared input. *)
Definition read_io_inputs (raw : list Z) (c : RtCore) : RtCore :=
  if (c_n_io_inputs c =? 0)%nat then c
  else
    let '(ds, levels) := debounce_lines (c_io_debounce c) (take (c_n_io_inputs c) raw) in
    set_io_lines (levels ++ drop (length levels) (c_io_lines c)) (set_io_debounce ds c).

(** The levels written to the pins, if any, and the state after. *)
Definition drive_io_outputs (c : RtCore) : RtCore * option (list Z) :=
  if negb (c_io_out_dirty c) then (c, None)
  else
    (set_io_out_dirty false c,
     Some (take (c_n_io_outputs c) (drop (c_n_io_inputs c) (c_io_lines c)))).

Definition set_io_output (port value : Z) (c : RtCore) : RtCore :=
  if port >=? Z.of_nat (c_n_io_outputs c) then c
  else
    let slot := (c_n_io_inputs c + Z.to_nat port)%nat in
    let level := Z.b2z (negb (value =? 0)) in
    if negb (c_io_lines c !!! slot =? level) then
      set_io_out_dirty true (set_io_lines (<[slot := level]> (c_io_lines c)) c)
    else c.

(** ** Gripper *)

Definition gripper_halt_in_place (c : RtCore) : RtCore :=
  match c_gripper_reply c with
  | Some r =>
      if gr_calibrated r && has_standing (c_gripper_gate c) then
        upd_settle (fun m => arm_hold m (c_tick c)) (upd_gate (fun g => stop_at g (gr_position r)) c)
      else upd_settle (fun m => arm_idle m (c_tick c)) (upd_gate gate_idle c)
  | None => upd_settle (fun m => arm_idle m (c_tick c)) (upd_gate gate_idle c)
  end.

(** ** Command intake *)

Definition apply_enable (request_id : Z) (c : RtCore) : RtCore :=
  if mode_eqb (c_mode c) Booting then c
  else if estop_condition c || any_hard (c_errors c) then c
  else if clearing (c_errors c) then c
  else set_enabled_request_id request_id (set_state Enabled c).

Definition apply_jog (speeds : list f64) (accel : f64) (c : RtCore) : RtCore :=
  if mode_eqb (c_mode c) Jog then
    let c :=
      if negb (f64_eqb (c_jog_accel_scale c) accel) then
        set_jog_accel_scale accel (set_jog (jog_set_accel_scale (c_jog c) accel) c)
      else c in
    let c := set_jog (jog_command (c_jog c) speeds) c in
    let c := set_jog_active true c in
    let c := set_jog_released false c in
    set_jog_joints (joint_mask speeds) c
  else c.

Definition apply_stream_release (c : RtCore) : RtCore :=
  if mode_eqb (c_mode c) Stream then
    let c :=
      if c_stream_is_shaped c then set_stream_shaped (track_release (c_stream_shaped c)) c
      else set_stream (track_release (c_stream c)) c in
    set_stream_released true c
  else c.

Definition apply_exec_stop (c : RtCore) : RtCore :=
  match c_mode c with
  | Exec => upd_exec exec_begin_stop c
  | Homing => upd_exec (fun e => fst (exec_flush e)) (fst (request_mode Idle c))
  | _ => upd_exec (fun e => fst (exec_flush e)) c
  end.

Definition apply_hold (c : RtCore) : RtCore :=
  match c_mode c with
  | Jog => rest_into_hold (c_q_target c) c
  | Stream => rest_into_hold (c_stream_commanded c) c
  | _ => c
  end.

Definition apply_gripper (fw : FirmwareGripperCommand) (c : RtCore) : RtCore :=
  if c_has_can_gripper c then
    let at_pos := match c_gripper_reply c with Some r => gr_position r | None => 0 end in
    upd_settle (fun m => arm_move m (c_tick c) (fw_position fw) at_pos)
      (upd_gate (fun g => gate_set g fw) c)
  else c.

Definition apply_gripper_calibrate (c : RtCore) : RtCore :=
  if c_has_can_gripper c then
    upd_settle (fun m => arm_calibrate m (c_tick c))
      (set_calibrate_pending true (upd_gate reset_to_poll c))
  else c.

Definition apply_gravity_comp (on : bool) (c : RtCore) : RtCore :=
  let c := set_gravity_comp on c in
  if on && mode_eqb (c_mode c) Exec && is_holding_after_completion (c_exec c)
  then fst (request_mode Idle c) else c.

Definition apply_set_tool_id (node tool_id : Z) (c : RtCore) : RtCore :=
  let '(b, ok) := bus_set_tool_id (c_bus c) node tool_id in
  if ok : bool then set_bus (fst (bus_save_config b node)) c else set_bus b c.

Definition apply_retune (node : Z) (tune : DriveTune) (c : RtCore) : RtCore :=
  let '(b, ok) := bus_retune_node (c_bus c) node tune (c_config_repeats c) in
  let c := set_bus b c in
  if ok : bool then set_homing (homing_retune (c_homing c) node tune) c else c.

Definition apply_command (cmd : RtCommand) (c : RtCore) : RtCore :=
  match cmd with
  | RC_SetMode target =>
      if mode_eqb target Idle && c_tool_hold c then c else fst (request_mode target c)
  | RC_Enable request_id => apply_enable request_id c
  | RC_Disable => set_state Disabled c
  | RC_ClearErrors => begin_clear c
  | RC_SetSoftEstop on => set_soft_estop on c
  | RC_AssertParked => set_park_asserted true c
  | RC_Jog speeds accel => apply_jog speeds accel c
  | RC_JogRelease =>
      set_jog_joints 0 (set_jog_released true (set_jog_active false
        (set_jog (jog_release (c_jog c)) c)))
  | RC_StreamRelease => apply_stream_release c
  | RC_ExecSetPaused paused => upd_exec (fun e => exec_set_paused e paused) c
  | RC_ExecSetSpeedScale scale => upd_exec (fun e => fst (exec_set_speed_scale e scale)) c
  | RC_ExecFlush => upd_exec (fun e => fst (exec_flush e)) c
  | RC_ExecStop => apply_exec_stop c
  | RC_Hold => apply_hold c
  | RC_Gripper fw => apply_gripper fw c
  | RC_GripperCalibrate => apply_gripper_calibrate c
  | RC_GripperStop => if c_has_can_gripper c then gripper_halt_in_place c else c
  | RC_GripperIdle =>
      if c_has_can_gripper c then
        upd_settle (fun m => arm_idle m (c_tick c)) (upd_gate gate_idle c)
      else c
  | RC_SetGravityComp on => apply_gravity_comp on c
  | RC_SetPayload mass com inertia =>
      set_gravity (grav_set_payload (c_gravity c) mass com inertia)
        (set_payload (mass, com, inertia) c)
  | RC_WriteIo port value => set_io_output port value c
  | RC_SetCanId node new_id => set_bus (fst (bus_set_can_id (c_bus c) node new_id)) c
  | RC_SaveConfig node => set_bus (fst (bus_save_config (c_bus c) node)) c
  | RC_SetToolId node tool_id => apply_set_tool_id node tool_id c
  | RC_RescanBus =>
      if bus_is_silent (c_bus c) then c else set_scan_settle 0 (set_scan_next (Some 0) c)
  | RC_RetuneNode node tune => apply_retune node tune c
  end.

(** ** Error checks *)

Definition check_estop (c : RtCore) : RtCore :=
  let c := if c_hw_estop c then core_latch EC_Estop None c else c in
  let c := if c_soft_estop c then core_latch EC_SwEstop None c else c in
  let estop := estop_condition c in
  let c :=
    if estop && negb (c_estop_standing c) && c_has_can_gripper c && holding (c_gripper_gate c)
    then gripper_halt_in_place c else c in
  set_estop_standing estop c.

Definition check_loop (health : LoopHealth) (c : RtCore) : RtCore :=
  let c := core_condition EC_LoopDegraded None (bool_decide (health = LH_Degraded)) c in
  if bool_decide (health = LH_Critical) then core_latch EC_LoopCritical None c else c.

Definition check_link (c : RtCore) : RtCore :=
  let link := bus_link_health (c_bus c) in
  let c :=
    if bool_decide (lh_state link = Lk_BusOff) ||
       negb (lh_bus_off_events link =? c_bus_off_events_seen c)
    then core_latch EC_BusOff None (set_bus_off_events_seen (lh_bus_off_events link) c) else c in
  core_condition EC_LinkErrorPassive None (bool_decide (lh_state link = Lk_ErrorPassive)) c.

(** One joint of the torque envelope. *)
Definition check_torque_joint (enforce : bool) (c : RtCore) (i : nat) : RtCore :=
  let ff := if mode_eqb (c_mode c) Exec then c_scratch_tau c !!! i else f64_0 in
  let ext := sf_abs (sf_sub (f64_to_SF (c_tau_ext c !!! i)) (f64_to_SF ff)) in
  if enforce && sf_lt (f64_to_SF (c_tau_env_margin_nm c)) ext then
    let n := saturating_add 32 (c_tau_env_over c !!! i) 1 in
    let c := set_tau_env_over (<[i := n]> (c_tau_env_over c)) c in
    if n >=? c_tau_env_window_ticks c then core_latch EC_TorqueEnvelope (Some (Z.of_nat i)) c else c
  else set_tau_env_over (<[i := 0]> (c_tau_env_over c)) c.

Definition check_torque (c : RtCore) : RtCore :=
  if f64_gt (c_tau_env_margin_nm c) f64_0 then
    let enforce := c_homed c && bool_decide (c_state c = Enabled) &&
                   mode_in (c_mode c) [Idle; Jog; Stream; Exec] in
    fold_left (check_torque_joint enforce) (seq 0 MAX_JOINTS) c
  else c.

Definition freshness_check (node err_idx : Z) (c : RtCore) : RtCore :=
  let f := bus_freshness (c_bus c) node in
  let c := core_condition EC_CanStale (Some err_idx) (bool_decide (f = Fr_Stale)) c in
  let c :=
    if bool_decide (f = Fr_Lost) then
      let c := core_latch EC_CanLost (Some err_idx) c in
      if c_homed c then set_homed false c else c
    else c in
  let armed : bool := c_self_heal_armed c !!! Z.to_nat err_idx in
  let set_armed (v : bool) (c : RtCore) : RtCore :=
    set_self_heal_armed (<[Z.to_nat err_idx := v]> (c_self_heal_armed c)) c in
  match f with
  | Fr_Fresh => set_armed true c
  | Fr_Stale | Fr_Lost =>
      if armed then
        upd_bus (fun b => bus_queue_poll_override b (PA_ResendConfig node) 1) (set_armed false c)
      else c
  | Fr_Unknown => c
  end.

Definition motor_flag_check (node err_idx : Z) (c : RtCore) : RtCore :=
  match c_nodes c !! Z.to_nat node with
  | Some n =>
      if negb (ns_live_error_bit n) then c
      else
        match ns_error_flags n with
        | None => c
        | Some flags =>
            fold_left (fun c f => core_latch (latch_key f) (Some err_idx) c) (faults flags) c
        end
  | None => c
  end.

(** A check for every joint, by joint index. *)
Definition for_joints (f : Z -> Z -> RtCore -> RtCore) (c : RtCore) : RtCore :=
  fold_left (fun c i => f (c_node_of c !!! i) (Z.of_nat i) c) (seq 0 MAX_JOINTS) c.

Definition check_tx_streaks (c : RtCore) : RtCore :=
  let c :=
    if c_tx_fail_streak c >=? c_tx_fault_latch_ticks c then
      let c := fold_left (fun c i => core_latch EC_CanLost (Some (Z.of_nat i)) c) (seq 0 MAX_JOINTS) c in
      if c_has_can_gripper c then core_latch EC_CanLost (Some GRIPPER_ERR_IDX) c else c
    else c in
  if c_has_can_gripper c && (c_gripper_tx_fail_streak c >=? c_tx_fault_latch_ticks c)
  then core_latch EC_CanLost (Some GRIPPER_ERR_IDX) c else c.

Definition check_reconnects (c : RtCore) : RtCore :=
  let mask := c_reconnected_mask c in
  if negb (mask =? 0) then
    fold_left (fun c n => if Z.testbit mask (Z.of_nat n) then resend_config (Z.of_nat n) c else c)
      (seq 0 MAX_NODES) c
  else c.

Definition check_gripper_reply (c : RtCore) : RtCore :=
  if c_gripper_live_bit c then
    match c_gripper_reply c with
    | Some r =>
        if gr_temperature_error r || gr_timeout_error r || gr_estop_error r
        then core_latch EC_GripperFault (Some GRIPPER_ERR_IDX) c else c
    | None => c
    end
  else c.

Definition check_nodes (c : RtCore) : RtCore :=
  if negb (bus_is_silent (c_bus c)) then
    let c := check_tx_streaks c in
    let c := for_joints freshness_check c in
    let c := if c_has_can_gripper c then freshness_check (c_gripper_node c) GRIPPER_ERR_IDX c else c in
    let c := check_reconnects c in
    let c := for_joints motor_flag_check c in
    if c_has_can_gripper c then
      check_gripper_reply (motor_flag_check (c_gripper_node c) GRIPPER_ERR_IDX c)
    else c
  else c.

(** EXEC link watchdog; the heartbeat flag is swapped to false as it is read. *)
Definition check_exec_link (c : RtCore) : RtCore :=
  if mode_eqb (c_mode c) Exec then
    let fed := c_heartbeat c in
    let c := set_heartbeat false c in
    let c :=
      if fed then set_hb_silence 0 c else set_hb_silence (saturating_add 32 (c_hb_silence c) 1) c in
    if (exec_samples_remaining (c_exec c) >? 0) && negb (ex_stopping (c_exec c)) &&
       (c_hb_silence c >=? c_hb_timeout_ticks c)
    then core_latch EC_ExecLinkLost None c else c
  else c.

Definition check_stream_link (c : RtCore) : RtCore :=
  if mode_eqb (c_mode c) Stream && negb (c_stream_released c) &&
     (saturating_sub (c_tick c) (c_stream_last_rx_tick c) >=? c_stream_timeout_ticks c)
  then core_latch EC_RtiLinkLost None c else c.

Definition check_homing (c : RtCore) : RtCore :=
  let c :=
    fold_left (fun c '(i, s) =>
        core_condition EC_HomingFailed (Some (Z.of_nat i)) (bool_decide (s = HS_Failed)) c)
      (combine (seq 0 NUM_NODES) (homing_statuses (c_homing c))) c in
  let c :=
    if homing_calibration_failed (c_homing c)
    then core_latch EC_GripperCalibrationFailed (Some GRIPPER_ERR_IDX) c else c in
  core_condition EC_NotHomed None (c_not_homed_refused c) c.

(** The reactions to the latch as the checks left it. *)
Definition react (c : RtCore) : RtCore :=
  if any_hard (c_errors c) then
    let c := if negb (mode_eqb (c_mode c) Booting) then set_state Disabled c else c in
    if negb (mode_in (c_mode c) [ActiveError; Flashing; SafetyStop])
    then enter_mode ActiveError c else c
  else if mode_eqb (c_mode c) ActiveError then enter_mode Idle c
  else c.

Definition check_errors (health : LoopHealth) (c : RtCore) : RtCore :=
  let c := check_estop c in
  let c := check_loop health c in
  let c := check_link c in
  let c := check_torque c in
  let c := check_nodes c in
  let c := check_exec_link c in
  let c := check_stream_link c in
  let c := check_homing c in
  react c.

(** ** End of a homing sequence *)

(** [RtCore::set_homed], the teleport's declaration. *)
Definition core_set_homed (homed : bool) (c : RtCore) : RtCore :=
  let c := set_homed homed c in
  if homed then set_not_homed_refused false c else c.

Definition unreferenced (c : RtCore) : list nat :=
  List.filter (fun i =>
    match homing_statuses (c_homing c) !! i with
    | Some s => negb (bool_decide (s = HS_Done))
    | None => true
    end) (seq 0 MAX_JOINTS).

Definition homing_handback (c : RtCore) : RtCore :=
  if c_has_can_gripper c then
    upd_settle disarm (upd_gate (fun g => force_idle g (homing_last_fw_cmd (c_homing c))) c)
  else c.

(** The sequence ran to its end; [homing] is as [check_reference] left it. *)
Definition homing_complete (c : RtCore) : RtCore :=
  let c :=
    match unreferenced c with
    | [] => set_not_homed_refused false (set_homed true c)
    | _ => set_homed false c
    end in
  let c := config_repush c in
  let c := homing_handback c in
  enter_mode Idle c.

Definition homing_failed (c : RtCore) : RtCore :=
  enter_mode Idle (homing_handback (set_homed false c)).

(** ** Bus scan, and what may float *)

Definition step_scan (c : RtCore) : RtCore :=
  match c_scan_next c with
  | Some n =>
      let c := upd_bus (fun b => bus_queue_poll_override b (PA_Poll n PK_Ping) 1) c in
      if n + 1 <? Z.of_nat MAX_NODES then set_scan_next (Some (n + 1)) c
      else set_scan_next None (set_scan_settle (c_scan_settle_ticks c) c)
  | None =>
      if c_scan_settle c >? 0 then
        let c := set_scan_settle (c_scan_settle c - 1) c in
        if c_scan_settle c =? 0 then set_scan_epoch (wrapping_add 32 (c_scan_epoch c) 1) c else c
      else c
  end.

Definition gravity_applied (c : RtCore) : bool :=
  c_homed c && bool_decide (c_state c = Enabled) && c_gravity_comp c.

(** ** Shutdown *)

Definition shutdown_halt (c : RtCore) : RtCore :=
  if mode_in (c_mode c) [Idle; Booting; ActiveError; SafetyStop; Flashing] then c
  else fst (request_mode Idle c).

Definition shutdown_limp (c : RtCore) : RtCore :=
  if mode_eqb (c_mode c) Flashing then c else fst (request_mode SafetyStop c).

End Core.
