(* ===== verification/CoreExample.v ===== *)
(** * CoreExample: a recording bus and a core on it

    Concrete collaborators the theorems about the core are applied at: a bus that
    records what is sent to it and refuses the nodes it is told to, a sequencer
    that is active or not, engines without state.  The laws a bus owes the core
    ([BusSilenceLaws]) hold of them. *)
From S2P Require Import Prelude F64 BusTypes Ring RtState Gripper Gpio CoreState Core.

Inductive BusEvent :=
| BE_Rebase | BE_Clear (node repeats : Z) | BE_Unlatch (node : Z) | BE_Resend (node : Z)
| BE_Poll (a : PollAction) | BE_Store (node : Z).

Record TraceBus := mkTraceBus {
  tb_silent : bool;
  tb_refuses : list Z;
  tb_lost : list Z;
  tb_trace : list BusEvent;
}.

Definition tb_log (e : BusEvent) (b : TraceBus) : TraceBus :=
  mkTraceBus (tb_silent b) (tb_refuses b) (tb_lost b) (tb_trace b ++ [e]).
Definition tb_accepts (b : TraceBus) (node : Z) : bool :=
  negb (bool_decide (node ∈ tb_refuses b)).

(** The sequencer: whether it runs, and what the last sequence made of the joints. *)
Record TraceHoming := mkTraceHoming { th_active : bool; th_statuses : list HomingJointStatus }.

#[export] Instance trace_deps : CoreDeps := {|
  bus_t := TraceBus;
  bus_is_silent := tb_silent;
  bus_set_silent b s := mkTraceBus s (tb_refuses b) (tb_lost b) (tb_trace b);
  bus_rebase_freshness := tb_log BE_Rebase;
  bus_send_clear_error b n k := tb_log (BE_Clear n k) b;
  bus_clear_lost_latch b n := tb_log (BE_Unlatch n) b;
  bus_resend_node_config b n k := (tb_log (BE_Resend n) b, tb_accepts b n);
  bus_queue_poll_override b a k := tb_log (BE_Poll a) b;
  bus_link_health b := mkLinkHealth Lk_Up 0 0 0 0;
  bus_freshness b n := if bool_decide (n ∈ tb_lost b) then Fr_Lost else Fr_Fresh;
  bus_set_can_id b n k := (tb_log (BE_Store n) b, tb_accepts b n);
  bus_save_config b n := (tb_log (BE_Store n) b, tb_accepts b n);
  bus_set_tool_id b n k := (tb_log (BE_Store n) b, tb_accepts b n);
  bus_retune_node b n t k := (tb_log (BE_Store n) b, tb_accepts b n);
  homing_t := TraceHoming;
  homing_start h b := (mkTraceHoming true (replicate 7 HS_Running), b);
  homing_abort h b := (mkTraceHoming false (replicate 7 HS_Idle), b);
  homing_active := th_active;
  homing_last_fw_cmd h := None;
  homing_clear_faults h := h;
  homing_calibration_failed h := false;
  homing_statuses := th_statuses;
  homing_retune h n t := h;
  jog_t := unit;
  jog_activate j q := j;
  jog_command j v := j;
  jog_set_accel_scale j a := j;
  jog_release j := j;
  track_t := unit;
  track_activate t q := t;
  track_release t := t;
  grav_t := unit;
  grav_set_payload g m c i := g;
|}.

#[export] Instance trace_laws : BusSilenceLaws (D := trace_deps).
Proof. split; reflexivity. Qed.

(** An empty ring, a hold at the zero pose. *)
Definition exec_example : ExecPlayback :=
  mkExec (mkRing (replicate 8 (mkSlot sample_default 0)) 0 0 1 0) (replicate MAX_JOINTS f64_0) None None false 0 0 false 0 false false
    f64_0 f64_1 f64_1 f64_0 sample_default.

(** A homed arm in a mode, with a latch and a silence to match. *)
Definition core_at (mode : Mode) (state : ArmState) (errors : ErrorList) : RtCore (D := trace_deps) :=
  mkRtCore 100 (mkTraceBus (mode_eqb mode Flashing) [] [] []) (replicate 16 node_default)
    None false 0 0 2 [0; 1; 2; 3; 4; 5] 6 false tt (f64_0, replicate 3 f64_0, None) tt tt tt
    exec_example (replicate 8 0) [] 4 4 false false
    (mkTraceHoming false (replicate 7 HS_Done)) (replicate MAX_JOINTS f64_0) 0 false
    (mkErrorManager errors 38 0) (replicate 7 true) 0 0 0 0 0 50 mode state 0 true
    false false false false false false (replicate MAX_JOINTS f64_0) (replicate MAX_JOINTS f64_0)
    f64_0 10 (replicate MAX_JOINTS 0) (replicate MAX_JOINTS f64_0) (replicate MAX_JOINTS f64_0)
    gate_default
    (mkSettle (mkSettleTicks 2 1 500 3000 100) None 0 false 0 (mkToolStatus Unarmed 0)) false false false false 0 0 true 0 50 None false
    (replicate MAX_JOINTS f64_0) f64_1 0 100 50 0 0 0 0 0 (replicate MAX_JOINTS f64_0)
    None 0 5 0.
