(* ===== verification/CoreSafety.v ===== *)
(** * CoreSafety: what the mode machine of the RT core guarantees

    The steps of the core as a relation ([core_step]): every command, the error
    checks, the other phases of the tick that touch the mode, and whatever the
    measured world changes in between.  The safety invariant is shown by cases on
    the step; the reactions, the gates, the arming rules and the flashing
    interlock follow. *)
From stdpp Require Import relations.
From S2P Require Import Prelude F64 BusTypes Ring RtState Gripper Gpio CoreState Core CoreExample.

(** Hard entries of the latch stay; the latch stays well formed. *)
Definition errors_grow (m m' : ErrorManager) : Prop :=
  (em_wf m -> em_wf m') /\
  (forall e, is_warning (ee_code e) = false -> In e (em_list m) -> In e (em_list m')).

Lemma errors_grow_refl m : errors_grow m m.
Proof. by split. Qed.

Lemma errors_grow_trans m1 m2 m3 : errors_grow m1 m2 -> errors_grow m2 m3 -> errors_grow m1 m3.
Proof. intros [W1 K1] [W2 K2]. split; auto. Qed.

Lemma errors_grow_step m o :
  op_wf o -> is_tick o = false -> is_begin o = false -> errors_grow m (em_step m o).
Proof.
  intros Ho Ht Hb. split.
  - intros Hm. by apply em_step_preserves_wf.
  - intros e He Hin. by apply hard_kept.
Qed.

Lemma errors_grow_latch m code j : is_warning code = false -> errors_grow m (latch m code j).
Proof. intros H. by apply (errors_grow_step m (EO_Latch code j)). Qed.

Lemma errors_grow_condition m code j a :
  is_warning code = true -> warning_entry (mkErrorEntry code j) = true ->
  errors_grow m (condition m code j a).
Proof. intros H1 H2. by apply (errors_grow_step m (EO_Condition code j a)). Qed.

Lemma errors_grow_hard m m' : errors_grow m m' -> any_hard m = true -> any_hard m' = true.
Proof.
  intros [_ K]. unfold any_hard. rewrite !el_any_hard_spec. intros (e & Hin & He).
  exists e. auto.
Qed.

Section Frame.
Context `{L : BusSilenceLaws}.

(** A step that leaves the mode, the arming, the silence of the bus and the park
    assertion alone, never sets [homed], and only adds hard errors. *)
Record quiet (c c' : RtCore) : Prop := {
  q_mode : c_mode c' = c_mode c;
  q_state : c_state c' = c_state c;
  q_park : c_park_asserted c' = c_park_asserted c;
  q_silent : bus_is_silent (c_bus c') = bus_is_silent (c_bus c);
  q_homed : c_homed c' = true -> c_homed c = true;
  q_errors : errors_grow (c_errors c) (c_errors c');
}.

#[export] Instance quiet_preorder : PreOrder quiet.
Proof.
  split.
  - intros c. constructor; auto using errors_grow_refl.
  - intros a b c [] []. constructor; try congruence; eauto using errors_grow_trans.
Qed.

(** A fold of quiet steps is quiet. *)
Lemma quiet_fold {A} (f : RtCore -> A -> RtCore) l :
  (forall c a, In a l -> quiet c (f c a)) -> forall c, quiet c (fold_left f l c).
Proof.
  induction l as [|a l IH]; intros H c; cbn; [reflexivity|].
  etransitivity; [apply H; by left|]. apply IH. intros; apply H. by right.
Qed.

Lemma quiet_bus f c :
  (forall b, bus_is_silent (f b) = bus_is_silent b) -> quiet c (upd_bus f c).
Proof. intros H. constructor; cbn; auto using errors_grow_refl. Qed.

Lemma quiet_latch code j c : is_warning code = false -> quiet c (core_latch code j c).
Proof. intros. constructor; cbn; auto using errors_grow_latch. Qed.

Lemma quiet_condition code j a c :
  is_warning code = true -> warning_entry (mkErrorEntry code j) = true ->
  quiet c (core_condition code j a c).
Proof. intros. constructor; cbn; auto using errors_grow_condition. Qed.

Lemma quiet_let c A (B : RtCore -> RtCore) :
  quiet c A -> (forall c1, quiet c1 (B c1)) -> quiet c (B A).
Proof. intros H1 H2. etransitivity; [exact H1|apply H2]. Qed.

Lemma quiet_if (b : bool) c c1 c2 : quiet c c1 -> quiet c c2 -> quiet c (if b then c1 else c2).
Proof. by destruct b. Qed.

End Frame.

(** A field the state was built with, read back. *)
Ltac by_fields :=
  first [reflexivity | exact (fun H => H) | apply errors_grow_refl | discriminate
        | intros _; reflexivity | assumption].

(** The law of one bus operation. *)
Ltac bus_law :=
  first [apply silent_poll | apply silent_clear | apply silent_rebase
        | rewrite silent_latch; apply silent_clear | apply silent_latch].

(** Take a quiet step apart at its [let]s and conditionals; setters of fields the
    frame does not mention are closed by computation. *)
Ltac quiet_go :=
  lazymatch goal with
  | |- quiet ?c ?c => reflexivity
  | |- quiet ?c (let x := ?A in @?B x) =>
      first [apply (quiet_let c A B); [|intros ?; cbv beta]|change (quiet c (B A)); cbv beta];
      quiet_go
  | |- quiet ?c (if _ then _ else _) => apply quiet_if; quiet_go
  | |- quiet _ (core_latch _ _ ?c1) =>
      etransitivity; [|apply quiet_latch; first [reflexivity|done]]; quiet_go
  | |- quiet _ (core_condition _ _ _ ?c1) =>
      etransitivity; [|apply quiet_condition; first [reflexivity|done]]; quiet_go
  | |- quiet _ (upd_bus _ ?c1) =>
      etransitivity; [|apply quiet_bus; intros; bus_law]; quiet_go
  | |- quiet _ _ => try (constructor; by_fields)
  end.

Section Checks.
Context `{L : BusSilenceLaws}.

Lemma quiet_settle f c : quiet c (upd_settle f c).
Proof. quiet_go. Qed.
Lemma quiet_gate f c : quiet c (upd_gate f c).
Proof. quiet_go. Qed.
Lemma quiet_exec f c : quiet c (upd_exec f c).
Proof. quiet_go. Qed.

Lemma quiet_resend n c : quiet c (resend_config n c).
Proof.
  unfold resend_config. pose proof (silent_resend (c_bus c) n (c_config_repeats c)) as H.
  destruct (bus_resend_node_config _ _ _) as [b ok]. cbn in H.
  destruct ok; constructor; by_fields.
Qed.

Lemma quiet_halt_in_place c : quiet c (gripper_halt_in_place c).
Proof. unfold gripper_halt_in_place. repeat case_match; quiet_go. Qed.

Lemma quiet_estop c : quiet c (check_estop c).
Proof.
  cbv beta delta [check_estop]. quiet_go. apply quiet_halt_in_place.
Qed.

Lemma quiet_loop h c : quiet c (check_loop h c).
Proof. cbv beta delta [check_loop]. quiet_go. Qed.

Lemma quiet_link c : quiet c (check_link c).
Proof. cbv beta delta [check_link]. quiet_go. Qed.

Lemma quiet_torque c : quiet c (check_torque c).
Proof.
  cbv beta delta [check_torque]. quiet_go. apply quiet_fold. intros c1 i _.
  cbv beta delta [check_torque_joint]. quiet_go.
Qed.

Lemma quiet_tx_streaks c : quiet c (check_tx_streaks c).
Proof.
  cbv beta delta [check_tx_streaks]. quiet_go. apply quiet_fold. intros c1 i _. quiet_go.
Qed.

Lemma quiet_freshness n i c : 0 <= i < Z.of_nat NUM_NODES -> quiet c (freshness_check n i c).
Proof.
  intros Hi.
  assert (warning_entry (mkErrorEntry EC_CanStale (Some i)) = true) as Hw.
  { unfold warning_entry. cbn. lia. }
  cbv beta delta [freshness_check]. quiet_go. case_match; quiet_go.
Qed.

Lemma quiet_motor n i c : quiet c (motor_flag_check n i c).
Proof.
  unfold motor_flag_check. repeat case_match; try reflexivity.
  apply quiet_fold. intros c1 f _. apply quiet_latch. by destruct f.
Qed.

Lemma quiet_for_joints f c :
  (forall n i c, 0 <= i < Z.of_nat MAX_JOINTS -> quiet c (f n i c)) -> quiet c (for_joints f c).
Proof.
  intros H. unfold for_joints. apply quiet_fold. intros c1 i Hi. apply H.
  apply in_seq in Hi. lia.
Qed.

Lemma quiet_reconnects c : quiet c (check_reconnects c).
Proof.
  cbv beta delta [check_reconnects]. quiet_go. apply quiet_fold. intros c1 n _.
  quiet_go. apply quiet_resend.
Qed.

Lemma quiet_gripper_reply c : quiet c (check_gripper_reply c).
Proof. unfold check_gripper_reply. repeat case_match; quiet_go. Qed.

Lemma quiet_nodes c : quiet c (check_nodes c).
Proof.
  cbv beta delta [check_nodes]. quiet_go.
  - apply quiet_tx_streaks.
  - apply quiet_for_joints. intros. apply quiet_freshness. unfold MAX_JOINTS, NUM_NODES in *. lia.
  - apply quiet_freshness. done.
  - apply quiet_reconnects.
  - apply quiet_for_joints. intros. apply quiet_motor.
  - etransitivity; [apply quiet_motor|apply quiet_gripper_reply].
Qed.

Lemma quiet_exec_link c : quiet c (check_exec_link c).
Proof. cbv beta delta [check_exec_link]. quiet_go. Qed.

Lemma quiet_stream_link c : quiet c (check_stream_link c).
Proof. cbv beta delta [check_stream_link]. quiet_go. Qed.

Lemma quiet_homing c : quiet c (check_homing c).
Proof.
  cbv beta delta [check_homing]. quiet_go. apply quiet_fold. intros c1 [i s] Hi.
  apply in_combine_l, in_seq in Hi. apply quiet_condition; [done|].
  unfold warning_entry. cbn. lia.
Qed.

(** [check_errors] is a quiet phase and the reaction to what it left. *)
Lemma check_errors_split h c :
  exists c1, quiet c c1 /\ quiet (check_estop c) c1 /\ check_errors h c = react c1.
Proof.
  eexists. split; [|split; [|reflexivity]].
  - rewrite <- quiet_homing, <- quiet_stream_link, <- quiet_exec_link, <- quiet_nodes,
      <- quiet_torque, <- quiet_link, <- quiet_loop. apply quiet_estop.
  - rewrite <- quiet_homing, <- quiet_stream_link, <- quiet_exec_link, <- quiet_nodes,
      <- quiet_torque, <- quiet_link. apply quiet_loop.
Qed.

End Checks.

(** ** Transitions *)

Section Transitions.
Context `{L : BusSilenceLaws}.

(** What [leave_mode] does to the control state. *)
Record leaves (c c' : RtCore) : Prop := {
  lv_mode : c_mode c' = c_mode c;
  lv_state : c_state c' = c_state c;
  lv_errors : c_errors c' = c_errors c;
  lv_homed : c_homed c' = true -> c_homed c = true;
  lv_silent :
    bus_is_silent (c_bus c') =
    if mode_eqb (c_mode c) Flashing then false else bus_is_silent (c_bus c);
}.

Lemma resend_keeps n c :
  c_mode (resend_config n c) = c_mode c /\ c_state (resend_config n c) = c_state c /\
  c_errors (resend_config n c) = c_errors c /\ c_homed (resend_config n c) = c_homed c /\
  c_flashed (resend_config n c) = c_flashed c /\
  c_exec (resend_config n c) = c_exec c /\
  bus_is_silent (c_bus (resend_config n c)) = bus_is_silent (c_bus c).
Proof.
  unfold resend_config. pose proof (silent_resend (c_bus c) n (c_config_repeats c)) as H.
  destruct (bus_resend_node_config _ _ _) as [b ok]. cbn in H. by destruct ok; cbn.
Qed.

Lemma repush_keeps c :
  c_mode (config_repush c) = c_mode c /\ c_state (config_repush c) = c_state c /\
  c_errors (config_repush c) = c_errors c /\ c_homed (config_repush c) = c_homed c /\
  c_flashed (config_repush c) = c_flashed c /\
  c_exec (config_repush c) = c_exec c /\
  bus_is_silent (c_bus (config_repush c)) = bus_is_silent (c_bus c).
Proof.
  unfold config_repush.
  assert (forall l c0,
    let c1 := fold_left (fun c n => resend_config n c) l c0 in
    c_mode c1 = c_mode c0 /\ c_state c1 = c_state c0 /\ c_errors c1 = c_errors c0 /\
    c_homed c1 = c_homed c0 /\ c_flashed c1 = c_flashed c0 /\ c_exec c1 = c_exec c0 /\
    bus_is_silent (c_bus c1) = bus_is_silent (c_bus c0)) as H.
  { induction l as [|n l IH]; intros c0; cbn [fold_left]; [by cbn|].
    destruct (IH (resend_config n c0)) as (? & ? & ? & ? & ? & ? & ?).
    destruct (resend_keeps n c0) as (? & ? & ? & ? & ? & ? & ?). cbn. split_and!; congruence. }
  destruct (H (c_node_of c) c) as (? & ? & ? & ? & ? & ? & ?).
  destruct (c_has_can_gripper _); [|by split_and!].
  destruct (resend_keeps (c_gripper_node (fold_left (fun c n => resend_config n c) (c_node_of c) c))
    (fold_left (fun c n => resend_config n c) (c_node_of c) c)) as (? & ? & ? & ? & ? & ? & ?).
  split_and!; congruence.
Qed.

Lemma leave_park t c : c_park_asserted (leave_mode t c) = false.
Proof. reflexivity. Qed.

Lemma leave_leaves t c : leaves c (leave_mode t c).
Proof.
  unfold leave_mode. destruct (c_mode c) eqn:Em;
    try (constructor; rewrite ?Em; by_fields).
  - pose proof (silent_abort (c_homing c) (c_bus c)) as Hs.
    destruct (homing_active _); [|constructor; rewrite ?Em; by_fields].
    destruct (homing_abort _ _) as [h b]. cbn in Hs. cbv zeta.
    case_match; constructor; rewrite ?Em; by_fields.
  - case_match; constructor; rewrite ?Em; by_fields.
  - cbv zeta.
    set (c1 := upd_bus bus_rebase_freshness (upd_bus (fun b => bus_set_silent b false) c)).
    destruct (repush_keeps c1) as (H1 & H2 & H3 & H4 & H5 & H6 & H7).
    assert (bus_is_silent (c_bus c1) = false) as Hs.
    { subst c1. etransitivity; [apply silent_rebase|apply silent_set]. }
    change (c_mode c1) with (c_mode c) in H1. change (c_state c1) with (c_state c) in H2.
    change (c_errors c1) with (c_errors c) in H3. change (c_homed c1) with (c_homed c) in H4.
    rewrite Hs in H7. clearbody c1. set (c2 := config_repush c1) in *. clearbody c2.
    repeat case_match; constructor; rewrite ?Em;
      first [assumption | discriminate | by_fields | exact (fun h => eq_trans (eq_sym H4) h)
            | etransitivity; [eassumption|done]].
Qed.

(** What [enter_mode] does to it. *)
Record entered (t : Mode) (c c' : RtCore) : Prop := {
  en_mode : c_mode c' = t;
  en_state : c_state c' = c_state c;
  en_errors : c_errors c' = c_errors c;
  en_homed : c_homed c' = true -> c_homed c = true /\ t <> Homing;
  en_park : c_park_asserted c' = false;
  en_silent :
    bus_is_silent (c_bus c) = mode_eqb (c_mode c) Flashing ->
    bus_is_silent (c_bus c') = mode_eqb t Flashing;
}.

Lemma enter_enters t c : entered t c (enter_mode t c).
Proof.
  destruct (leave_leaves t c) as [H1 H2 H3 H4 H5]. unfold enter_mode.
  pose proof (leave_park t c) as H6.
  assert (bus_is_silent (c_bus c) = mode_eqb (c_mode c) Flashing ->
          bus_is_silent (c_bus (leave_mode t c)) = false) as Hs.
  { intros E. rewrite H5, E. by destruct (mode_eqb _ _). }
  cbv zeta. generalize dependent (leave_mode t c). intros c1 H1 H2 H3 H4 H5 H6 Hs.
  destruct t;
    try (constructor;
         first [reflexivity|assumption|intros h; split; [exact (H4 h)|discriminate]]).
  - unfold enter_homing. cbv zeta.
    set (c2 := set_ref_check_n 0 _).
    pose proof (silent_start (c_homing c2) (c_bus c2)) as Hst.
    destruct (homing_start _ _) as [h b]. cbn in Hst.
    constructor; first [reflexivity|assumption|discriminate|
      intros E; exact (eq_trans Hst (Hs E))].
  - constructor;
      first [reflexivity|assumption|intros h; split; [exact (H4 h)|discriminate]
            |intros _; apply silent_set].
Qed.

Lemma rest_rests q c :
  c_state (rest_into_hold q c) = c_state c /\ c_errors (rest_into_hold q c) = c_errors c /\
  (c_homed (rest_into_hold q c) = true -> c_homed c = true) /\
  c_park_asserted (rest_into_hold q c) = false /\
  (bus_is_silent (c_bus c) = mode_eqb (c_mode c) Flashing ->
   bus_is_silent (c_bus (rest_into_hold q c)) = false) /\
  (c_mode (rest_into_hold q c) = Idle \/
   c_mode (rest_into_hold q c) = Exec /\ c_homed c = true /\ c_state c = Enabled /\
   any_hard (c_errors c) = false).
Proof.
  unfold rest_into_hold. cbv zeta.
  destruct (c_homed c && bool_decide (c_state c = Enabled) && negb (any_hard (c_errors c))) eqn:E;
    cbn [negb].
  - destruct (leave_leaves Exec c) as [H1 H2 H3 H4 H5]. pose proof (leave_park Exec c) as H6.
    apply andb_true_iff in E as [E E3]. apply andb_true_iff in E as [E1 E2].
    apply bool_decide_eq_true in E2. apply negb_true_iff in E3.
    generalize dependent (leave_mode Exec c). intros c1 H1 H2 H3 H4 H5 H6.
    split_and!; [exact H2|exact H3|exact H4|exact H6| |by right].
    intros Es. refine (eq_trans H5 _). rewrite Es. by destruct (mode_eqb _ _).
  - destruct (enter_enters Idle c) as [H1 H2 H3 H4 H5 H6].
    split_and!; auto. intros Hh. by apply H4.
Qed.

(** Outcome of [request_mode]: nothing but a flag moved, or the target was entered. *)
Lemma request_cases t c :
  let '(c', r) := request_mode t c in
  (quiet c c' /\ c_errors c' = c_errors c /\ c_homed c' = c_homed c /\
   (r = Ok tt -> t = c_mode c)) \/
  (c' = enter_mode t c /\ r = Ok tt /\ t <> c_mode c /\ transition_allowed (c_mode c) t = true /\
   mode_in t [Booting; ActiveError; HandGuiding; Impedance] = false /\
   target_gate t c = (c, Ok tt)).
Proof.
  unfold request_mode. destruct (mode_eqb t (c_mode c)) eqn:Et.
  { left. apply mode_eqb_spec in Et. destruct (_ && _); split_and!; auto; quiet_go. }
  destruct (mode_in t [Booting; ActiveError]) eqn:E1.
  { left. split_and!; try done. }
  destruct (mode_in t [HandGuiding; Impedance]) eqn:E2.
  { left. split_and!; try done. }
  destruct (transition_allowed (c_mode c) t) eqn:E3; cbn [negb].
  2:{ left. split_and!; try done. }
  destruct (target_gate t c) as [c' r] eqn:Eg.
  assert (r = Ok tt /\ c' = c \/
          (exists e, r = Err e) /\ (c' = c \/ c' = set_not_homed_refused true c)) as Hg.
  { unfold target_gate in Eg. repeat case_match; simplify_eq; eauto. }
  destruct Hg as [[-> ->]|[[e ->] [-> | ->]]].
  - right. split_and!; try done; [|clear - E1 E2; by destruct t].
    intros Ht. apply (proj2 (mode_eqb_spec _ _)) in Ht. congruence.
  - left. split_and!; try done.
  - left. split_and!; try done; quiet_go.
Qed.

End Transitions.

(** ** The steps of the core *)

Section Steps.
Context `{L : BusSilenceLaws}.

(** A change of what is measured, counted or commanded that leaves the control
    state alone: the drain, the laws and the telemetry of a tick. *)
Record measured (c c' : RtCore) : Prop := {
  ms_mode : c_mode c' = c_mode c;
  ms_state : c_state c' = c_state c;
  ms_park : c_park_asserted c' = c_park_asserted c;
  ms_homed : c_homed c' = c_homed c;
  ms_errors : c_errors c' = c_errors c;
  ms_silent : bus_is_silent (c_bus c') = bus_is_silent (c_bus c);
}.

(** Every step that touches the control state, in the order the source has them:
    a swapped bus, the boot one-shots' and the shutdown's mode requests, a command,
    the error checks, the ends of homing, the rests of JOG and STREAM, the hard
    latches of the laws, and the clear countdown. *)
Inductive core_step (c : RtCore) : RtCore -> Prop :=
| cs_measured c' : measured c c' -> core_step c c'
| cs_replace_bus c' :
    c_mode c' = Booting -> c_state c' = Disabled -> c_park_asserted c' = c_park_asserted c ->
    c_errors c' = c_errors c -> bus_is_silent (c_bus c') = false -> core_step c c'
| cs_boot_idle : core_step c (fst (request_mode Idle c))
| cs_set_homed h : core_step c (core_set_homed h c)
| cs_shutdown_halt : core_step c (shutdown_halt c)
| cs_shutdown_park : core_step c (fst (request_mode Stream c))
| cs_shutdown_limp : core_step c (shutdown_limp c)
| cs_command cmd : core_step c (apply_command cmd c)
| cs_check_errors h : core_step c (check_errors h c)
| cs_homing_complete : c_mode c = Homing -> core_step c (homing_complete c)
| cs_homing_failed : c_mode c = Homing -> core_step c (homing_failed c)
| cs_rest q : mode_in (c_mode c) [Jog; Stream] = true -> core_step c (rest_into_hold q c)
| cs_law_latch code joint : is_warning code = false -> core_step c (core_latch code joint c)
| cs_clear_tick : core_step c (upd_errors (fun m => fst (em_tick m)) c).

(** How a step changed the control state. *)
Inductive change (c c' : RtCore) : Prop :=
| ch_keep :
    c_mode c' = c_mode c -> c_state c' = c_state c ->
    bus_is_silent (c_bus c') = bus_is_silent (c_bus c) -> change c c'
| ch_arm id :
    c' = apply_command (RC_Enable id) c -> c' = set_enabled_request_id id (set_state Enabled c) ->
    c_mode c <> Booting -> estop_condition c = false -> any_hard (c_errors c) = false ->
    clearing (c_errors c) = false -> change c c'
| ch_disarm : c_mode c' = c_mode c -> c_state c' = Disabled ->
    bus_is_silent (c_bus c') = bus_is_silent (c_bus c) -> change c c'
| ch_request t :
    c_mode c' = t -> t <> c_mode c ->
    transition_allowed (c_mode c) t = true ->
    mode_in t [Booting; ActiveError; HandGuiding; Impedance] = false ->
    target_gate t c = (c, Ok tt) ->
    c_state c' = c_state c -> c_park_asserted c' = false ->
    (bus_is_silent (c_bus c) = mode_eqb (c_mode c) Flashing ->
     bus_is_silent (c_bus c') = mode_eqb t Flashing) -> change c c'
| ch_hold :
    mode_in (c_mode c) [Jog; Stream] = true -> c_mode c' = Exec -> c_state c' = c_state c ->
    c_homed c = true -> c_state c = Enabled -> any_hard (c_errors c) = false ->
    (bus_is_silent (c_bus c) = mode_eqb (c_mode c) Flashing ->
     bus_is_silent (c_bus c') = false) -> change c c'
| ch_drop m :
    mode_in m [Idle; ActiveError] = true -> c_mode c' = m ->
    (c_state c' = Disabled \/ c_state c' = c_state c) ->
    (bus_is_silent (c_bus c) = mode_eqb (c_mode c) Flashing ->
     bus_is_silent (c_bus c') = false) -> change c c'
| ch_boot : c_mode c' = Booting -> c_state c' = Disabled ->
    bus_is_silent (c_bus c') = false -> change c c'.


Lemma quiet_change c c' : quiet c c' -> change c c'.
Proof. intros []. by apply ch_keep. Qed.

Lemma request_change t c : change c (fst (request_mode t c)).
Proof.
  pose proof (request_cases t c) as H. destruct (request_mode t c) as [c' r].
  destruct H as [(Hq & _)|(-> & _ & Hn & Ht & Hm & Hg)]; [by apply quiet_change|]. cbn [fst].
  destruct (enter_enters t c) as [H1 H2 H3 H4 H5 H6].
  eapply ch_request; eauto.
Qed.

(** Requests change the latch nowhere. *)
Lemma request_errors t c : c_errors (fst (request_mode t c)) = c_errors c.
Proof.
  pose proof (request_cases t c) as H. destruct (request_mode t c) as [c' r].
  destruct H as [(_ & He & _)|(-> & _)]; [done|]. apply enter_enters.
Qed.

(** A command handler that keeps the control state and the latch. *)
Record calm (c c' : RtCore) : Prop := {
  cm_mode : c_mode c' = c_mode c;
  cm_state : c_state c' = c_state c;
  cm_silent : bus_is_silent (c_bus c') = bus_is_silent (c_bus c);
  cm_errors : c_errors c' = c_errors c;
}.

(** The handlers that are neither a mode request, nor arming, nor the clear. *)
Definition calm_command (cmd : RtCommand) : bool :=
  match cmd with
  | RC_SetMode _ | RC_Enable _ | RC_Disable | RC_ClearErrors | RC_ExecStop | RC_Hold
  | RC_SetGravityComp _ => false
  | _ => true
  end.

Lemma calm_commands cmd c : calm_command cmd = true -> calm c (apply_command cmd c).
Proof.
  destruct cmd; try discriminate; intros _; cbn [apply_command];
    unfold apply_jog, apply_stream_release, apply_gripper, apply_gripper_calibrate,
      apply_set_tool_id, apply_retune, gripper_halt_in_place, set_io_output; cbv zeta;
    try (repeat case_match; constructor; by_fields).
  - pose proof (silent_retune (c_bus c) node tune (c_config_repeats c)) as H.
    destruct (bus_retune_node _ _ _ _) as [b ok]. cbn in H.
    case_match; constructor; by_fields.
  - constructor; try by_fields. apply silent_can_id.
  - constructor; try by_fields. apply silent_save.
  - pose proof (silent_tool (c_bus c) node tool_id) as H.
    destruct (bus_set_tool_id _ _ _) as [b ok]. cbn in H.
    case_match; constructor; try by_fields. exact (eq_trans (silent_save b node) H).
Qed.

Lemma clear_fold l : forall st,
  let c' := fst (fold_left clear_entry l st) in
  c_mode c' = c_mode (fst st) /\ c_state c' = c_state (fst st) /\
  c_errors c' = c_errors (fst st) /\
  bus_is_silent (c_bus c') = bus_is_silent (c_bus (fst st)).
Proof.
  induction l as [|e l IH]; intros st; cbn [fold_left]; [by cbn|].
  destruct (IH (clear_entry st e)) as (H1 & H2 & H3 & H4). cbv zeta in *.
  rewrite H1, H2, H3, H4. destruct st as [c m]. unfold clear_entry.
  destruct (ee_joint e); [|done]. cbv zeta. case_match; [done|]. cbn [fst].
  split_and!; try reflexivity. etransitivity; [apply silent_latch|apply silent_clear].
Qed.

Lemma begin_clear_effect c :
  c_mode (begin_clear c) = c_mode c /\ c_state (begin_clear c) = c_state c /\
  c_errors (begin_clear c) = em_begin_clear (c_errors c) /\
  bus_is_silent (c_bus (begin_clear c)) = bus_is_silent (c_bus c).
Proof.
  unfold begin_clear. destruct (clear_fold (em_list (c_errors c)) (c, 0)) as (H1 & H2 & H3 & H4).
  destruct (fold_left clear_entry _ _) as [c1 m]. cbn [fst] in *. cbv zeta.
  case_match; (split_and!; [exact H1|exact H2|exact (f_equal em_begin_clear H3)|]).
  - etransitivity; [apply silent_clear|exact H4].
  - exact H4.
Qed.

Lemma rest_change q c : mode_in (c_mode c) [Jog; Stream] = true -> change c (rest_into_hold q c).
Proof.
  intros Hm. destruct (rest_rests q c) as (H1 & H2 & H3 & H4 & H5 & [H6|(H6 & H7 & H8 & H9)]).
  - eapply (ch_drop _ _ Idle); auto.
  - eapply ch_hold; auto.
Qed.

Lemma enter_idle_change c0 c :
  c_mode c0 = c_mode c -> c_state c0 = c_state c -> c_bus c0 = c_bus c ->
  forall f, (forall c, c_mode (f c) = c_mode c /\ c_state (f c) = c_state c /\ c_bus (f c) = c_bus c) ->
  change c (f (enter_mode Idle c0)).
Proof.
  intros Em Es Eb f Hf. destruct (Hf (enter_mode Idle c0)) as (F1 & F2 & F3).
  destruct (enter_enters Idle c0) as [H1 H2 H3 H4 H5 H6].
  eapply (ch_drop _ _ Idle); [done|congruence|right; congruence|].
  rewrite F3, <- Em, <- Eb. auto.
Qed.

Lemma request_idle c :
  c_mode c <> Idle -> request_mode Idle c = (enter_mode Idle c, Ok tt).
Proof. unfold request_mode. by destruct (c_mode c). Qed.

Lemma enable_cases id c :
  apply_enable id c = c \/
  apply_enable id c = set_enabled_request_id id (set_state Enabled c) /\ c_mode c <> Booting /\
  estop_condition c = false /\ any_hard (c_errors c) = false /\ clearing (c_errors c) = false.
Proof.
  unfold apply_enable. destruct (mode_eqb (c_mode c) Booting) eqn:Em; [by left|].
  destruct (estop_condition c), (any_hard (c_errors c)); cbn [orb]; try by left.
  destruct (clearing _); [by left|]. right. split_and!; try done.
  intros E. apply (proj2 (mode_eqb_spec _ _)) in E. congruence.
Qed.

Lemma command_change cmd c : change c (apply_command cmd c).
Proof.
  destruct (calm_command cmd) eqn:Ec.
  { destruct (calm_commands cmd c Ec) as [? ? ? _]. by apply ch_keep. }
  destruct cmd; try discriminate; cbn [apply_command].
  - case_match; [by apply ch_keep|apply request_change].
  - destruct (enable_cases request_id c) as [->|(E & ? & ? & ? & ?)]; [by apply ch_keep|].
    by eapply (ch_arm _ _ request_id).
  - by apply ch_disarm.
  - destruct (begin_clear_effect c) as (? & ? & ? & ?). by apply ch_keep.
  - unfold apply_exec_stop. destruct (c_mode c) eqn:Em; try by apply ch_keep.
    rewrite request_idle by congruence.
    by apply (enter_idle_change c c eq_refl eq_refl eq_refl (upd_exec (fun e => fst (exec_flush e)))).
  - unfold apply_hold. destruct (c_mode c) eqn:Em; try (by apply ch_keep); apply rest_change; by rewrite Em.
  - unfold apply_gravity_comp. cbv zeta.
    destruct (on && mode_eqb (c_mode (set_gravity_comp on c)) Exec && _) eqn:E; [|by apply ch_keep].
    apply andb_true_iff in E as [E _]. apply andb_true_iff in E as [_ E]. apply mode_eqb_spec in E.
    rewrite request_idle by congruence.
    by apply (enter_idle_change (set_gravity_comp on c) c eq_refl eq_refl eq_refl (fun c => c)).
Qed.

Lemma command_errors cmd c : em_wf (c_errors c) -> em_wf (c_errors (apply_command cmd c)).
Proof.
  intros Hw. destruct (calm_command cmd) eqn:Ec.
  { destruct (calm_commands cmd c Ec) as [_ _ _ He]. by rewrite He. }
  destruct cmd; try discriminate; cbn [apply_command].
  - case_match; [done|by rewrite request_errors].
  - destruct (enable_cases request_id c) as [->|[-> _]]; done.
  - done.
  - destruct (begin_clear_effect c) as (_ & _ & -> & _).
    by apply (em_step_preserves_wf _ EO_BeginClear).
  - unfold apply_exec_stop. destruct (c_mode c); try done.
    change (em_wf (c_errors (fst (request_mode Idle c)))). by rewrite request_errors.
  - unfold apply_hold. destruct (c_mode c); try done;
      match goal with |- context [rest_into_hold ?q _] =>
        destruct (rest_rests q c) as (_ & E & _); by rewrite E end.
  - unfold apply_gravity_comp. cbv zeta. case_match; [|done]. by rewrite request_errors.
Qed.

(** The reaction, from what the checks left. *)
Lemma react_spec c :
  c_errors (react c) = c_errors c /\
  c_mode (react c) =
    (if any_hard (c_errors c) then
       if mode_in (c_mode c) [ActiveError; Flashing; SafetyStop] then c_mode c else ActiveError
     else if mode_eqb (c_mode c) ActiveError then Idle else c_mode c) /\
  c_state (react c) =
    (if any_hard (c_errors c) && negb (mode_eqb (c_mode c) Booting) then Disabled else c_state c) /\
  (bus_is_silent (c_bus c) = mode_eqb (c_mode c) Flashing ->
   bus_is_silent (c_bus (react c)) = mode_eqb (c_mode (react c)) Flashing) /\
  (c_homed (react c) = true -> c_homed c = true) /\
  (c_mode (react c) = c_mode c -> c_bus (react c) = c_bus c).
Proof.
  unfold react. cbv zeta. destruct (any_hard (c_errors c)) eqn:Eh; cbn [andb].
  - set (c1 := if negb (mode_eqb (c_mode c) Booting) then set_state Disabled c else c).
    assert (c_mode c1 = c_mode c /\ c_errors c1 = c_errors c /\ c_bus c1 = c_bus c /\
            c_homed c1 = c_homed c /\
            c_state c1 = (if negb (mode_eqb (c_mode c) Booting) then Disabled else c_state c))
      as (E1 & E2 & E3 & E4 & E5) by (subst c1; case_match; done).
    clearbody c1. rewrite E1.
    destruct (mode_in (c_mode c) [ActiveError; Flashing; SafetyStop]) eqn:Em; cbn [negb].
    + split_and!; congruence.
    + destruct (enter_enters ActiveError c1) as [H1 H2 H3 H4 H5 H6].
      rewrite H1, H2, H3, E2, E5. split_and!; auto.
      * intros E. apply H6. congruence.
      * intros Hh. rewrite <- E4. by apply H4.
      * intros E. by rewrite <- E in Em.
  - destruct (mode_eqb (c_mode c) ActiveError) eqn:Em; [|by split_and!].
    destruct (enter_enters Idle c) as [H1 H2 H3 H4 H5 H6]. rewrite H1. apply mode_eqb_spec in Em.
    split_and!; auto; [intros Hh; by apply H4|congruence].
Qed.

Lemma handback_keeps c :
  c_mode (homing_handback c) = c_mode c /\ c_state (homing_handback c) = c_state c /\
  c_errors (homing_handback c) = c_errors c /\ c_homed (homing_handback c) = c_homed c /\
  bus_is_silent (c_bus (homing_handback c)) = bus_is_silent (c_bus c).
Proof. unfold homing_handback. case_match; by split_and!. Qed.

(** Leaving for IDLE at the end of homing. *)
Lemma handback_change c c0 :
  c_mode c0 = c_mode c -> c_state c0 = c_state c ->
  bus_is_silent (c_bus c0) = bus_is_silent (c_bus c) ->
  change c (enter_mode Idle (homing_handback c0)).
Proof.
  intros Em Es Eb. destruct (handback_keeps c0) as (K1 & K2 & _ & _ & K5).
  destruct (enter_enters Idle (homing_handback c0)) as [H1 H2 H3 H4 H5 H6].
  eapply (ch_drop _ _ Idle); [done|done|right; congruence|].
  intros E. apply H6. congruence.
Qed.

Lemma complete_effect c :
  change c (homing_complete c) /\ c_errors (homing_complete c) = c_errors c.
Proof.
  unfold homing_complete. cbv zeta.
  set (c1 := match unreferenced c with [] => _ | _ => _ end).
  assert (c_mode c1 = c_mode c /\ c_state c1 = c_state c /\ c_errors c1 = c_errors c /\
          c_bus c1 = c_bus c) as (E1 & E2 & E3 & E4) by (subst c1; by case_match).
  clearbody c1. destruct (repush_keeps c1) as (R1 & R2 & R3 & _ & _ & _ & R7). split.
  - apply handback_change; congruence.
  - destruct (enter_enters Idle (homing_handback (config_repush c1))) as [_ _ -> _ _ _].
    destruct (handback_keeps (config_repush c1)) as (_ & _ & K & _). congruence.
Qed.

Lemma failed_effect c :
  change c (homing_failed c) /\ c_errors (homing_failed c) = c_errors c.
Proof.
  unfold homing_failed. split; [by apply handback_change|].
  destruct (enter_enters Idle (homing_handback (set_homed false c))) as [_ _ -> _ _ _].
  by destruct (handback_keeps (set_homed false c)) as (_ & _ & K & _).
Qed.

Lemma mode_in_spec m l : mode_in m l = true <-> In m l.
Proof.
  unfold mode_in. rewrite existsb_exists. split.
  - intros (x & Hx & E). apply mode_eqb_spec in E. by subst.
  - intros H. exists m. split; [done|]. by apply mode_eqb_spec.
Qed.

Lemma check_change h c : change c (check_errors h c).
Proof.
  destruct (check_errors_split h c) as (c1 & Q & _ & ->).
  destruct Q as [Q1 Q2 Q3 Q4 Q5 Q6]. destruct (react_spec c1) as (R1 & R2 & R3 & R4 & R5 & R6).
  destruct (any_hard (c_errors c1)); cbn [andb] in R3.
  - destruct (mode_in (c_mode c1) [ActiveError; Flashing; SafetyStop]) eqn:Em.
    + apply ch_disarm; [congruence| |rewrite R6; congruence].
      rewrite R3. by destruct (c_mode c1).
    + eapply (ch_drop _ _ ActiveError); [done|done| |].
      * rewrite R3. case_match; [by left|right; congruence].
      * intros E. rewrite R4, R2; [done|congruence].
  - destruct (mode_eqb (c_mode c1) ActiveError) eqn:Em.
    + eapply (ch_drop _ _ Idle); [done|done|right; congruence|].
      intros E. rewrite R4, R2; [done|congruence].
    + apply ch_keep; [congruence|congruence|rewrite R6; congruence].
Qed.

Lemma step_change c c' : core_step c c' -> change c c'.
Proof.
  intros H. destruct H as [c1 []|c1| |h| | | |cmd|h| | |q Hm|code j Hc|].
  - by apply ch_keep.
  - by apply ch_boot.
  - apply request_change.
  - unfold core_set_homed. by destruct h; apply ch_keep.
  - unfold shutdown_halt. case_match; [by apply ch_keep|apply request_change].
  - apply request_change.
  - unfold shutdown_limp. case_match; [by apply ch_keep|apply request_change].
  - apply command_change.
  - apply check_change.
  - apply complete_effect.
  - apply failed_effect.
  - by apply rest_change.
  - by apply ch_keep.
  - by apply ch_keep.
Qed.

Lemma step_errors c c' : core_step c c' -> em_wf (c_errors c) -> em_wf (c_errors c').
Proof.
  intros H Hw. destruct H as [c1 []|c1 _ _ _ E _| |h| | | |cmd|h| | |q Hm|code j Hc|];
    try congruence.
  - by rewrite request_errors.
  - unfold core_set_homed. by destruct h.
  - unfold shutdown_halt. case_match; [done|by rewrite request_errors].
  - by rewrite request_errors.
  - unfold shutdown_limp. case_match; [done|by rewrite request_errors].
  - by apply command_errors.
  - destruct (check_errors_split h c) as (c1 & Q & _ & ->).
    destruct (react_spec c1) as (-> & _). by apply Q.
  - destruct (complete_effect c) as [_ E]. by rewrite E.
  - destruct (failed_effect c) as [_ E]. by rewrite E.
  - destruct (rest_rests q c) as (_ & E & _). by rewrite E.
  - by apply (em_step_preserves_wf _ (EO_Latch code j)).
  - by apply (em_step_preserves_wf _ EO_Tick).
Qed.
End Steps.

(** ** The safety invariant *)

Section Safety.
Context `{L : BusSilenceLaws}.

(** BOOTING is disarmed, the unimplemented modes are never entered, the bus is
    silent exactly in FLASHING, and the latch is well formed. *)
Record core_inv (c : RtCore) : Prop := {
  ci_boot : c_mode c = Booting -> c_state c = Disabled;
  ci_modes : mode_in (c_mode c) [HandGuiding; Impedance] = false;
  ci_silent : bus_is_silent (c_bus c) = mode_eqb (c_mode c) Flashing;
  ci_errors : em_wf (c_errors c);
}.

Lemma change_inv c c' : change c c' -> core_inv c -> em_wf (c_errors c') -> core_inv c'.
Proof.
  intros H [I1 I2 I3 I4] Hw.
  destruct H as [Em Es Eb|id _ E Hb _ _ _|Em Es Eb|t Em Hn Ht Hm Hg Es Ep Eb
                |Hm Em Es Hh He Ha Eb|m Hm Em Es Eb|Em Es Eb].
  - constructor; rewrite ?Em, ?Es, ?Eb; auto.
  - subst c'. constructor; cbn; auto. intros E. by destruct Hb.
  - constructor; rewrite ?Em, ?Es, ?Eb; auto.
  - constructor; rewrite ?Em, ?(Eb I3); auto; by destruct t.
  - constructor; rewrite ?Em, ?(Eb I3); auto; discriminate.
  - constructor; rewrite ?Em, ?(Eb I3); auto; by destruct m.
  - constructor; rewrite ?Em, ?Eb; auto.
Qed.

(** The control state the core is built with: BOOTING, disarmed, no error. *)
Definition core_fresh (c : RtCore) : Prop :=
  c_mode c = Booting /\ c_state c = Disabled /\ bus_is_silent (c_bus c) = false /\
  (exists dt, c_errors c = em_new dt).

Lemma fresh_inv c : core_fresh c -> core_inv c.
Proof.
  intros (Hm & Hs & Hb & dt & He). constructor; rewrite ?Hm, ?Hs, ?Hb, ?He; auto using em_new_wf.
Qed.

(** C1: in every state the core reaches from construction, whatever commands,
    error checks, phase ends and bus swaps happen in whatever order: BOOTING is
    never armed, HAND_GUIDING and IMPEDANCE are never entered, the motor bus is
    silent exactly while the mode is FLASHING, and the error latch is well formed
    (no duplicates, at most 32 entries, countdown inside its window). *)
Theorem reachable_is_safe c0 c : core_fresh c0 -> rtc core_step c0 c -> core_inv c.
Proof.
  intros H0%fresh_inv Hr. induction Hr as [c|c1 c2 c3 H12 _ IH]; [done|].
  apply IH. eapply change_inv; [by apply step_change|done|]. eapply step_errors; [done|]. apply H0.
Qed.

(** C8: the reaction to hard errors.  After the error checks of a tick, if any hard
    error is latched the arm is disarmed and in ACTIVE_ERROR, SAFETY_STOP or
    FLASHING (the two that outrank the reaction are kept); if none is, the core
    has left ACTIVE_ERROR for IDLE, any other mode is kept, and the arming state
    is what it was: recovery never re-arms. *)
Theorem check_errors_reacts h c :
  core_inv c ->
  let c' := check_errors h c in
  (any_hard (c_errors c') = true ->
   c_state c' = Disabled /\
   c_mode c' = (if mode_in (c_mode c) [Flashing; SafetyStop] then c_mode c else ActiveError)) /\
  (any_hard (c_errors c') = false ->
   c_state c' = c_state c /\
   c_mode c' = (if mode_eqb (c_mode c) ActiveError then Idle else c_mode c)).
Proof.
  intros [I1 I2 I3 I4]. cbv zeta.
  destruct (check_errors_split h c) as (c1 & [Q1 Q2 Q3 Q4 Q5 Q6] & _ & ->).
  destruct (react_spec c1) as (R1 & R2 & R3 & _). rewrite R1.
  split; intros Eh; rewrite Eh in R2, R3; rewrite Q1 in R2, R3; rewrite Q2 in R3; cbn [andb] in R3;
    rewrite R2, R3.
  - destruct (c_mode c); cbn; auto.
  - done.
Qed.

Lemma halt_errors c : c_errors (gripper_halt_in_place c) = c_errors c.
Proof. unfold gripper_halt_in_place. by repeat case_match. Qed.

Lemma estop_latches c :
  em_wf (c_errors c) -> estop_condition c = true -> any_hard (c_errors (check_estop c)) = true.
Proof.
  intros Hw He.
  assert (c_errors (check_estop c) =
          (let m := if c_hw_estop c then latch (c_errors c) EC_Estop None else c_errors c in
           if c_soft_estop c then latch m EC_SwEstop None else m)) as ->.
  { unfold check_estop. cbv zeta. unfold estop_condition in He.
    destruct (c_hw_estop c) eqn:E1, (c_soft_estop c) eqn:E2; try discriminate; cbv iota;
      match goal with |- c_errors (set_estop_standing ?v ?c1) = _ =>
        change (c_errors c1 = c_errors c1) || change (c_errors (set_estop_standing v c1)) with (c_errors c1)
      end; case_match; rewrite ?halt_errors; cbn; rewrite ?E2; done. }
  unfold estop_condition in He. cbv zeta. destruct (c_hw_estop c).
  - pose proof (latch_any_hard (c_errors c) EC_Estop None Hw eq_refl) as H.
    case_match; [|done]. by apply (errors_grow_hard _ _ (errors_grow_latch _ EC_SwEstop None eq_refl)).
  - cbn in He. rewrite He. by apply latch_any_hard.
Qed.

(** A pressed e-stop, hardware or software, stops the arm within the error
    checks of the tick that sees it: its key is latched (or the latch is full of
    other entries, a hard one among them), the arm is disarmed in a protective
    mode, and no enable is honoured while a hard error is latched. *)
Lemma estop_stops_the_arm h c id :
  core_inv c -> estop_condition c = true ->
  let c' := check_errors h c in
  any_hard (c_errors c') = true /\ c_state c' = Disabled /\
  mode_in (c_mode c') [ActiveError; SafetyStop; Flashing] = true /\
  apply_command (RC_Enable id) c' = c'.
Proof.
  intros HI He. pose proof HI as [I1 I2 I3 I4]. cbv zeta.
  assert (any_hard (c_errors (check_errors h c)) = true) as Hh.
  { destruct (check_errors_split h c) as (c1 & _ & [_ _ _ _ _ Q6] & ->).
    destruct (react_spec c1) as (R1 & _). rewrite R1.
    apply (errors_grow_hard _ _ Q6). by apply estop_latches. }
  destruct (check_errors_split h c) as (c1 & [Q1 Q2 _ _ _ _] & _ & E). rewrite E in *.
  destruct (react_spec c1) as (R1 & R2 & R3 & _). rewrite R1 in Hh. rewrite Hh in R2, R3.
  split_and!; [by rewrite R1| | |].
  - rewrite R3, Q1, Q2. by destruct (c_mode c); auto.
  - rewrite R2. by destruct (c_mode c1).
  - destruct (enable_cases id (react c1)) as [H|(_ & _ & _ & H & _)]; [exact H|congruence].
Qed.

(** C12: only an enable arms the arm.  A step that takes the arm from disarmed to
    armed is the enable command, outside BOOTING, with no e-stop pressed, no hard
    error latched and no clear running; it changes the arming state and the
    recorded request id and nothing else. *)
Theorem armed_only_by_enable c c' :
  core_step c c' -> c_state c = Disabled -> c_state c' = Enabled ->
  exists id, c' = apply_command (RC_Enable id) c /\
    c' = set_enabled_request_id id (set_state Enabled c) /\ c_mode c <> Booting /\
    c_hw_estop c = false /\ c_soft_estop c = false /\
    any_hard (c_errors c) = false /\ clearing (c_errors c) = false.
Proof.
  intros H%step_change Hd He.
  destruct H as [_ Es _|id E1 E2 Hb Hs Ha Hc|_ Es _|t _ _ _ _ _ Es _ _|_ _ Es _ _ _ _
                |m _ _ [Es|Es] _|_ Es _]; try congruence.
  exists id. apply orb_false_iff in Hs as [? ?]. by split_and!.
Qed.

(** C31: the flashing interlock.  The bus goes quiet only through a step out of
    IDLE or ACTIVE_ERROR taken while the arm is asserted parked; the assertion is
    spent by it. *)
Theorem flashing_needs_parked c c' :
  core_inv c -> core_step c c' ->
  bus_is_silent (c_bus c) = false -> bus_is_silent (c_bus c') = true ->
  c_park_asserted c = true /\ c_park_asserted c' = false /\
  mode_in (c_mode c) [Idle; ActiveError] = true /\ c_mode c' = Flashing.
Proof.
  intros [_ _ I3 _] H%step_change H0 H1.
  destruct H as [_ _ Eb|id _ E _ _ _ _|_ _ Eb|t Em Hn Ht Hm Hg Es Ep Eb|_ _ _ _ _ _ Eb
                |m Hm Em _ Eb|_ _ Eb]; try congruence.
  - rewrite E in H1. cbn in H1. congruence.
  - rewrite (Eb I3) in H1. apply mode_eqb_spec in H1. subst t.
    unfold target_gate in Hg. rewrite H1 in *.
    destruct (c_park_asserted c); [|discriminate].
    split_and!; try done. destruct (c_mode c); done.
  - rewrite Eb in H1 by done. done.
  - rewrite Eb in H1 by done. done.
Qed.

(** C10: the gates of the working modes.  A step that enters HOMING, JOG, STREAM or
    EXEC starts from IDLE with the arm armed and no hard error latched, STREAM and
    EXEC with the arm homed besides; the one other way in is the hold EXEC takes
    over from a JOG or STREAM that came to rest, under the same conditions. *)
Theorem motion_needs_gates c c' :
  core_step c c' -> c_mode c' <> c_mode c ->
  mode_in (c_mode c') [Homing; Jog; Stream; Exec] = true ->
  c_state c = Enabled /\ any_hard (c_errors c) = false /\
  (mode_in (c_mode c') [Stream; Exec] = true -> c_homed c = true) /\
  (c_mode c = Idle \/ c_mode c' = Exec /\ mode_in (c_mode c) [Jog; Stream] = true).
Proof.
  intros H%step_change Hn Hw.
  destruct H as [Em _ _|id _ E _ _ _ _|Em _ _|t Em Hnt Ht Hm Hg _ _ _|Hm Em _ Hh He Ha _
                |m Hm Em _ _|Em _ _]; try congruence.
  - subst c'. by destruct Hn.
  - rewrite Em in *. clear Hn.
    assert (c_mode c = Idle) as Hi by (destruct (c_mode c), t; done).
    unfold target_gate in Hg. destruct t; try discriminate;
      (case_bool_decide; [|discriminate]); cbn [negb] in Hg;
      destruct (any_hard (c_errors c)); try discriminate; split_and!; auto; try discriminate;
      intros _; by destruct (c_homed c).
  - split_and!; auto.
  - rewrite Em in Hw. by destruct m.
  - rewrite Em in Hw. discriminate.
Qed.

(** The gate of a target in terms of the conditions it reads. *)
Lemma target_gate_ok t c :
  mode_in t [Booting; ActiveError; HandGuiding; Impedance] = false ->
  snd (target_gate t c) = Ok tt <->
  (t = Idle \/ t = SafetyStop \/ (t = Flashing /\ c_park_asserted c = true) \/
   (In t [Homing; Jog] /\ c_state c = Enabled /\ any_hard (c_errors c) = false) \/
   (In t [Stream; Exec] /\ c_state c = Enabled /\ any_hard (c_errors c) = false /\
    c_homed c = true)).
Proof.
  intros Hm. unfold target_gate. cbn [In].
  destruct t; try discriminate; destruct (c_park_asserted c), (c_state c), (any_hard (c_errors c)),
    (c_homed c); cbn; intuition discriminate.
Qed.

(** The mode request.  It is granted exactly when the mode is already the one
    asked for, or the target is IDLE or SAFETY_STOP (from anywhere), or FLASHING
    from IDLE or ACTIVE_ERROR with the park assertion, or HOMING or JOG from IDLE
    armed and clean, or STREAM or EXEC from IDLE armed, clean and homed; a granted
    request leaves the core in that mode, a refused one in the mode it was, with
    nothing changed but the not-homed flag of a gate refused for want of homing. *)
Lemma request_mode_granted t c :
  let '(c', r) := request_mode t c in
  (r = Ok tt <->
   t = c_mode c \/ t = Idle \/ t = SafetyStop \/
   (t = Flashing /\ (c_mode c = Idle \/ c_mode c = ActiveError) /\ c_park_asserted c = true) \/
   (In t [Homing; Jog] /\ c_mode c = Idle /\ c_state c = Enabled /\
    any_hard (c_errors c) = false) \/
   (In t [Stream; Exec] /\ c_mode c = Idle /\ c_state c = Enabled /\
    any_hard (c_errors c) = false /\ c_homed c = true)) /\
  (r = Ok tt -> c_mode c' = t) /\
  (forall e, r = Err e -> c' = if bool_decide (e = NotHomed) then set_not_homed_refused true c else c).
Proof.
  unfold request_mode. destruct (mode_eqb t (c_mode c)) eqn:Et.
  { apply mode_eqb_spec in Et. split_and!; [tauto| |discriminate].
    intros _. subst t. by destruct (_ && _). }
  assert (t <> c_mode c) as Hn by (intros E%mode_eqb_spec; congruence).
  destruct (mode_in t [Booting; ActiveError]) eqn:E1.
  { split_and!; [|discriminate|by intros e [= <-]].
    destruct t; try discriminate; cbn [In]; intuition discriminate. }
  destruct (mode_in t [HandGuiding; Impedance]) eqn:E2.
  { split_and!; [|discriminate|by intros e [= <-]].
    destruct t; try discriminate; cbn [In]; intuition discriminate. }
  destruct (transition_allowed (c_mode c) t) eqn:E3; cbn [negb].
  2:{ split_and!; [|discriminate|by intros e [= <-]].
      split; [discriminate|]. intros Hg. exfalso.
      destruct (c_mode c), t; try discriminate; cbn [In] in Hg; intuition discriminate. }
  pose proof (target_gate_ok t c) as Hg.
  assert (mode_in t [Booting; ActiveError; HandGuiding; Impedance] = false) as Hm by (by destruct t).
  specialize (Hg Hm).
  assert (forall c1 e, target_gate t c = (c1, Err e) ->
          c1 = if bool_decide (e = NotHomed) then set_not_homed_refused true c else c) as Hr.
  { intros c1 e. unfold target_gate. repeat case_match; intros; simplify_eq; done. }
  destruct (target_gate t c) as [c1 [[]|e]] eqn:Eg; cbn [snd] in Hg.
  - split_and!; [|intros _; apply enter_enters|discriminate].
    split; [intros _|done]. destruct Hg as [Hg _]. specialize (Hg eq_refl). cbn [In] in *.
    destruct (c_mode c); destruct t; try discriminate; intuition congruence.
  - split_and!; [|discriminate|intros e' [= ->]; by apply Hr].
    split; [discriminate|]. intros Hc. exfalso. assert (Err (A := unit) e = Ok tt) by (apply Hg; tauto).
    discriminate.
Qed.
End Safety.

(** ** Instances *)

Definition boot_core : RtCore := core_at Booting Disabled [].
Definition idle_core : RtCore := fst (request_mode Idle boot_core).
Definition armed_core : RtCore := apply_command (RC_Enable 7) idle_core.
Definition jog_core : RtCore := apply_command (RC_SetMode Jog) armed_core.
Definition stopped_core : RtCore := set_soft_estop true jog_core.
Definition parked_core : RtCore := apply_command RC_AssertParked idle_core.

Lemma boot_fresh : core_fresh boot_core.
Proof. split_and!; try reflexivity. exists 0x3F70624DD2F1A9FC. vm_compute. reflexivity. Qed.

Lemma reachable_is_safe_witness : c_mode jog_core = Jog /\ core_inv jog_core.
Proof.
  split; [vm_compute; reflexivity|]. apply (reachable_is_safe boot_core jog_core boot_fresh).
  apply (rtc_l _ _ idle_core); [apply cs_boot_idle|].
  apply (rtc_l _ _ armed_core); [apply (cs_command _ (RC_Enable 7))|].
  apply rtc_once, (cs_command _ (RC_SetMode Jog)).
Defined.

Lemma at_inv mode state :
  (mode = Booting -> state = Disabled) -> mode_in mode [HandGuiding; Impedance] = false ->
  core_inv (core_at mode state []).
Proof.
  intros H1 H2. constructor; try done. cbn. split_and!; cbn; try lia; constructor.
Qed.

Lemma check_errors_reacts_witness :
  let c' := check_errors LH_Critical (core_at Jog Enabled []) in
  any_hard (c_errors c') = true /\ c_state c' = Disabled /\ c_mode c' = ActiveError.
Proof.
  assert (any_hard (c_errors (check_errors LH_Critical (core_at Jog Enabled []))) = true) as H
    by (vm_compute; reflexivity).
  split; [exact H|].
  apply (check_errors_reacts LH_Critical (core_at Jog Enabled []));
    [apply at_inv; [discriminate|reflexivity]|exact H].
Defined.

Lemma estop_stops_the_arm_witness :
  let c := set_soft_estop true (core_at Exec Enabled []) in
  let c' := check_errors LH_Ok c in
  any_hard (c_errors c') = true /\ c_state c' = Disabled /\
  mode_in (c_mode c') [ActiveError; SafetyStop; Flashing] = true /\
  apply_command (RC_Enable 9) c' = c'.
Proof.
  apply (estop_stops_the_arm LH_Ok (set_soft_estop true (core_at Exec Enabled [])) 9);
    [|reflexivity].
  destruct (at_inv Exec Enabled) as [H1 H2 H3 H4]; [discriminate|reflexivity|].
  constructor; [exact H1|exact H2|exact H3|exact H4].
Defined.

Lemma armed_only_by_enable_witness :
  exists id, armed_core = apply_command (RC_Enable id) idle_core /\
    armed_core = set_enabled_request_id id (set_state Enabled idle_core) /\
    c_mode idle_core <> Booting /\ c_hw_estop idle_core = false /\ c_soft_estop idle_core = false /\
    any_hard (c_errors idle_core) = false /\ clearing (c_errors idle_core) = false.
Proof.
  apply (armed_only_by_enable idle_core armed_core);
    [exact (cs_command idle_core (RC_Enable 7))|vm_compute; reflexivity..].
Defined.

Lemma flashing_needs_parked_witness :
  let c := core_at Idle Disabled [] in
  let p := apply_command RC_AssertParked c in
  let f := apply_command (RC_SetMode Flashing) p in
  c_park_asserted p = true /\ c_park_asserted f = false /\
  mode_in (c_mode p) [Idle; ActiveError] = true /\ c_mode f = Flashing.
Proof.
  apply (flashing_needs_parked (apply_command RC_AssertParked (core_at Idle Disabled []))
           (apply_command (RC_SetMode Flashing) (apply_command RC_AssertParked (core_at Idle Disabled []))));
    [|exact (cs_command _ (RC_SetMode Flashing))|vm_compute; reflexivity..].
  destruct (at_inv Idle Disabled) as [H1 H2 H3 H4]; [reflexivity|reflexivity|].
  constructor; [exact H1|exact H2|exact H3|exact H4].
Defined.

Lemma motion_needs_gates_witness :
  c_state armed_core = Enabled /\ any_hard (c_errors armed_core) = false /\
  (mode_in (c_mode jog_core) [Stream; Exec] = true -> c_homed armed_core = true) /\
  (c_mode armed_core = Idle \/ c_mode jog_core = Exec /\ mode_in (c_mode armed_core) [Jog; Stream] = true).
Proof.
  apply (motion_needs_gates armed_core jog_core);
    [exact (cs_command armed_core (RC_SetMode Jog))|vm_compute; discriminate|vm_compute; reflexivity].
Defined.

Lemma request_mode_granted_witness :
  let '(c', r) := request_mode Flashing parked_core in
  (r = Ok tt <->
   Flashing = c_mode parked_core \/ Flashing = Idle \/ Flashing = SafetyStop \/
   (Flashing = Flashing /\ (c_mode parked_core = Idle \/ c_mode parked_core = ActiveError) /\
    c_park_asserted parked_core = true) \/
   (In Flashing [Homing; Jog] /\ c_mode parked_core = Idle /\ c_state parked_core = Enabled /\
    any_hard (c_errors parked_core) = false) \/
   (In Flashing [Stream; Exec] /\ c_mode parked_core = Idle /\ c_state parked_core = Enabled /\
    any_hard (c_errors parked_core) = false /\ c_homed parked_core = true)) /\
  (r = Ok tt -> c_mode c' = Flashing) /\
  (forall e, r = Err e ->
   c' = if bool_decide (e = NotHomed) then set_not_homed_refused true parked_core else parked_core).
Proof. exact (request_mode_granted Flashing parked_core). Defined.
