(* ===== verification/CoreOps.v ===== *)
(** * CoreOps: what the operations of the RT core do

    The user clear sends one clear-error burst to each faulted node; the bus scan
    pings every node id once and then bumps its epoch; refused configuration
    resends are retried until none is pending; the box outputs; the halt of a live
    grip on the e-stop edge; the EXEC link watchdog. *)
From stdpp Require Import list.
From S2P Require Import Prelude F64 BusTypes Ring RtState Gripper Gpio CoreState Core CoreExample CoreSafety.

(** The first occurrence of every element, in order. *)
Fixpoint first_seen (seen l : list Z) : list Z :=
  match l with
  | [] => []
  | x :: l' => if bool_decide (x ∈ seen) then first_seen seen l' else x :: first_seen (x :: seen) l'
  end.

Lemma first_seen_in l : forall seen x, x ∈ first_seen seen l <-> x ∈ l /\ x ∉ seen.
Proof.
  induction l as [|y l IH]; intros seen x; cbn; [rewrite elem_of_nil; tauto|].
  case_bool_decide as Hy.
  - rewrite IH, elem_of_cons. split; [tauto|]. intros [[->|?] ?]; tauto.
  - rewrite elem_of_cons, IH, !elem_of_cons. destruct (decide (x = y)) as [->|]; tauto.
Qed.

Lemma first_seen_nodup l : forall seen, NoDup (first_seen seen l).
Proof.
  induction l as [|y l IH]; intros seen; cbn; [constructor|].
  case_bool_decide; [done|]. constructor; [|done]. rewrite first_seen_in, elem_of_cons. tauto.
Qed.

(** A 16-bit mask of a set of node ids. *)
Definition mask_of (mask : Z) (s : list Z) : Prop :=
  forall n, 0 <= n < 16 -> Z.testbit mask n = bool_decide (n ∈ s).

Lemma land_bit mask n : 0 <= n -> (Z.land mask (Z.shiftl 1 n) =? 0) = negb (Z.testbit mask n).
Proof.
  intros Hn. destruct (Z.testbit mask n) eqn:E; cbn.
  - apply Z.eqb_neq. intros H. assert (Z.testbit (Z.land mask (Z.shiftl 1 n)) n = true) as Ht.
    { rewrite Z.land_spec, E, Z.shiftl_spec, Z.sub_diag by lia. done. }
    rewrite H, Z.bits_0 in Ht. done.
  - apply Z.eqb_eq, Z.bits_inj'. intros k Hk.
    rewrite Z.land_spec, Z.bits_0, Z.shiftl_spec by lia.
    destruct (decide (k = n)) as [->|Hne]; [by rewrite E|].
    destruct (Z_lt_dec k n); [rewrite (Z.testbit_neg_r 1) by lia; apply andb_false_r|].
    change 1 with (2 ^ 0). rewrite Z.pow2_bits_false by lia. apply andb_false_r.
Qed.

Lemma mask_of_add mask s n :
  0 <= n -> mask_of mask s -> mask_of (Z.lor mask (Z.shiftl 1 n)) (n :: s).
Proof.
  intros Hn H k Hk. rewrite Z.lor_spec, H by done.
  change (Z.shiftl 1 n) with (Z.shiftl (2 ^ 0) n).
  rewrite Z.shiftl_spec by lia.
  assert (Z.testbit (2 ^ 0) (k - n) = bool_decide (k = n)) as ->.
  { case_bool_decide; [by subst; rewrite Z.sub_diag|].
    destruct (Z_lt_dec k n); [apply Z.testbit_neg_r; lia|apply Z.pow2_bits_false; lia]. }
  rewrite <- bool_decide_or. apply bool_decide_ext. rewrite elem_of_cons. tauto.
Qed.

(** ** The user clear *)

Section Clear.
Context `{D : CoreDeps}.

(** The nodes the standing entries are about, in the order of the latch. *)
Definition faulted (c : RtCore) (l : ErrorList) : list Z :=
  omap (fun e => err_node c <$> ee_joint e) l.

(** One burst: the clear frames, and the freshness latch of the node. *)
Definition clear_burst (b : bus_t) (node : Z) : bus_t :=
  bus_clear_lost_latch (bus_send_clear_error b node CLEAR_ERROR_REPEATS) node.

Definition node_ids_ok (c : RtCore) : Prop :=
  0 <= c_gripper_node c < 16 /\ Forall (fun n => 0 <= n < 16) (c_node_of c) /\
  length (c_node_of c) = MAX_JOINTS.

Lemma set_bus_self (c : RtCore) : set_bus (c_bus c) c = c.
Proof. by destruct c. Qed.

Lemma err_node_range c j : node_ids_ok c -> 0 <= j -> 0 <= err_node c j < 16.
Proof.
  intros (Hg & Hn & Hl) Hj. unfold err_node. destruct (Z.ltb_spec j (Z.of_nat MAX_JOINTS)); [|done].
  destruct (lookup_lt_is_Some_2 (c_node_of c) (Z.to_nat j)) as [n En]; [lia|].
  rewrite (list_lookup_total_correct _ _ _ En). exact (Forall_lookup_1 _ _ _ _ Hn En).
Qed.

Definition joints_ok (l : ErrorList) : Prop :=
  Forall (fun e => match ee_joint e with Some j => 0 <= j | None => True end) l.

Lemma clear_entries c l : forall b mask seen,
  node_ids_ok c -> joints_ok l -> mask_of mask seen ->
  exists mask',
    fold_left clear_entry l (set_bus b c, mask) =
      (set_bus (fold_left clear_burst (first_seen seen (faulted c l)) b) c, mask') /\
    forall n, 0 <= n < 16 -> Z.testbit mask' n = bool_decide (n ∈ seen \/ n ∈ faulted c l).
Proof.
  induction l as [|e l IH]; intros b mask seen Hc Hl Hm.
  { exists mask. split; [done|]. intros n Hn. rewrite Hm by done. apply bool_decide_ext. cbn. rewrite elem_of_nil. tauto. }
  apply List.Forall_cons_iff in Hl as [He Hl]. cbn [fold_left].
  unfold faulted. cbn [omap list_omap]. fold (faulted c l).
  destruct (ee_joint e) as [j|] eqn:Ej; unfold clear_entry at 2; rewrite Ej; cbn [fmap option_fmap option_map].
  2:{ destruct (IH b mask seen Hc Hl Hm) as (mask' & E1 & E2). by exists mask'. }
  change (err_node (set_bus b c) j) with (err_node c j).
  pose proof (err_node_range c j Hc He) as Hr. set (n := err_node c j) in *.
  rewrite land_bit, Hm by lia. cbn [first_seen].
  destruct (bool_decide (n ∈ seen)) eqn:Eb; cbn [negb].
  - apply bool_decide_eq_true in Eb. destruct (IH b mask seen Hc Hl Hm) as (mask' & E1 & E2).
    exists mask'. split; [exact E1|]. intros k Hk. rewrite E2 by done.
    apply bool_decide_ext. rewrite elem_of_cons. split; [tauto|].
    intros [?|[->|?]]; tauto.
  - change (upd_bus _ (set_bus b c)) with (set_bus (clear_burst b n) c).
    destruct (IH (clear_burst b n) (Z.lor mask (Z.shiftl 1 n)) (n :: seen) Hc Hl) as (mask' & E1 & E2).
    { apply mask_of_add; [lia|done]. }
    exists mask'. split; [exact E1|]. intros k Hk. rewrite E2 by done.
    apply bool_decide_ext. rewrite !elem_of_cons. tauto.
Qed.

(** The user clear sends one clear-error burst to every node an entry of the
    latch names, each node once in the order of its first entry, and to the CAN
    gripper's node in any case; it drops the cached fault flags of every node and
    the not-homed warning, and starts the settle window without wiping the latch. *)
Lemma clear_reaches_each_node_once c :
  node_ids_ok c -> joints_ok (em_list (c_errors c)) ->
  let nodes := first_seen [] (faulted c (em_list (c_errors c))) in
  let c' := begin_clear c in
  NoDup nodes /\ (forall n, n ∈ nodes <-> n ∈ faulted c (em_list (c_errors c))) /\
  c_bus c' =
    (let b := fold_left clear_burst nodes (c_bus c) in
     if c_has_can_gripper c && negb (bool_decide (c_gripper_node c ∈ nodes))
     then bus_send_clear_error b (c_gripper_node c) CLEAR_ERROR_REPEATS else b) /\
  c_errors c' = em_begin_clear (c_errors c) /\
  Forall (fun n => ns_error_flags n = None) (c_nodes c') /\ c_not_homed_refused c' = false.
Proof.
  intros Hc Hl nodes. pose proof Hc as (Hg & _).
  assert (forall n, n ∈ nodes <-> n ∈ faulted c (em_list (c_errors c))) as Hin.
  { intros n. unfold nodes. rewrite first_seen_in, elem_of_nil. tauto. }
  destruct (clear_entries c (em_list (c_errors c)) (c_bus c) 0 [] Hc Hl) as (mask & E1 & E2).
  { intros n Hn. rewrite Z.bits_0. by rewrite bool_decide_eq_false_2 by apply not_elem_of_nil. }
  rewrite set_bus_self in E1. fold nodes in E1. cbv zeta. unfold begin_clear. rewrite E1.
  set (c1 := set_bus _ c). change (c_has_can_gripper c1) with (c_has_can_gripper c).
  change (c_gripper_node c1) with (c_gripper_node c). rewrite land_bit, E2 by lia.
  assert (bool_decide (c_gripper_node c ∈ [] \/ c_gripper_node c ∈ faulted c (em_list (c_errors c)))
          = bool_decide (c_gripper_node c ∈ nodes)) as ->.
  { apply bool_decide_ext. rewrite Hin, elem_of_nil. tauto. }
  split_and!; [apply first_seen_nodup|exact Hin| | | |].
  - cbv zeta. by destruct (c_has_can_gripper c && _).
  - by destruct (c_has_can_gripper c && _).
  - assert (forall l, Forall (fun n => ns_error_flags n = None) (map drop_flags l)) as Hd
      by (intros l; induction l; cbn; by constructor).
    destruct (c_has_can_gripper c && _); apply Hd.
  - by destruct (c_has_can_gripper c && _).
Qed.

End Clear.

(** ** The bus scan *)

Section Scan.
Context `{D : CoreDeps}.

Fixpoint iter_core (f : RtCore -> RtCore) (n : nat) (c : RtCore) : RtCore :=
  match n with O => c | S n' => iter_core f n' (f c) end.

Lemma iter_core_add f n m c : iter_core f (n + m) c = iter_core f m (iter_core f n c).
Proof. revert c. induction n as [|n IH]; intros c; cbn; [done|apply IH]. Qed.

Definition ping (b : bus_t) (n : Z) : bus_t := bus_queue_poll_override b (PA_Poll n PK_Ping) 1.

(** The ping phase from node [k] on. *)
Lemma scan_pings k : forall c,
  (k <= 16)%nat -> c_scan_next c = Some (Z.of_nat (16 - k)) -> (0 < k)%nat ->
  iter_core step_scan k c =
  set_scan_settle (c_scan_settle_ticks c) (set_scan_next None
    (set_bus (fold_left ping (map Z.of_nat (seq (16 - k) k)) (c_bus c)) c)).
Proof.
  induction k as [|k IH]; intros c Hk Hn H0; [lia|]. cbn [iter_core].
  assert (step_scan c =
    (if (0 <? Z.of_nat k)
     then set_scan_next (Some (Z.of_nat (16 - k))) (upd_bus (fun b => ping b (Z.of_nat (16 - S k))) c)
     else set_scan_settle (c_scan_settle_ticks c)
            (set_scan_next None (upd_bus (fun b => ping b (Z.of_nat (16 - S k))) c)))) as E.
  { unfold step_scan. rewrite Hn. cbv zeta. unfold MAX_NODES.
    destruct (Z.ltb_spec (Z.of_nat (16 - S k) + 1) (Z.of_nat 16)), (Z.ltb_spec 0 (Z.of_nat k));
      try lia; [|reflexivity].
    by replace (Z.of_nat (16 - S k) + 1) with (Z.of_nat (16 - k)) by lia. }
  rewrite E. clear E. destruct (Z.ltb_spec 0 (Z.of_nat k)).
  - rewrite IH by (try reflexivity; lia).
    replace (seq (16 - S k) (S k)) with ((16 - S k)%nat :: seq (16 - k) k)
      by (cbn [seq]; do 2 f_equal; lia).
    reflexivity.
  - assert (k = 0%nat) as -> by lia. cbn [iter_core]. reflexivity.
Qed.

(** The settle phase. *)
Lemma scan_settles k : forall c,
  c_scan_next c = None -> c_scan_settle c = Z.of_nat k ->
  let c' := iter_core step_scan k c in
  c_scan_next c' = None /\ c_scan_settle c' = 0 /\ c_bus c' = c_bus c /\
  c_scan_epoch c' = (if (0 <? Z.of_nat k) then wrapping_add 32 (c_scan_epoch c) 1 else c_scan_epoch c) /\
  (forall j, (j < k)%nat -> c_scan_epoch (iter_core step_scan j c) = c_scan_epoch c).
Proof.
  induction k as [|k IH]; intros c Hn Hs; cbn [iter_core].
  { split_and!; try done. intros j Hj. lia. }
  assert (step_scan c =
    (let c1 := set_scan_settle (Z.of_nat k) c in
     if (0 <? Z.of_nat k) then c1 else set_scan_epoch (wrapping_add 32 (c_scan_epoch c) 1) c1)) as E.
  { unfold step_scan. rewrite Hn, Hs. cbv zeta.
    destruct (Z.gtb_spec (Z.of_nat (S k)) 0); [|lia].
    change (c_scan_settle (set_scan_settle ?v c)) with v.
    replace (Z.of_nat (S k) - 1) with (Z.of_nat k) by lia.
    destruct (Z.eqb_spec (Z.of_nat k) 0), (Z.ltb_spec 0 (Z.of_nat k)); try lia; reflexivity. }
  cbv zeta in E. destruct (Z.ltb_spec 0 (Z.of_nat k)).
  - destruct (IH (set_scan_settle (Z.of_nat k) c)) as (H1 & H2 & H3 & H4 & H5); [done|done|].
    rewrite E. cbv zeta. split_and!; [done|done|done| |].
    + rewrite H4. destruct (Z.ltb_spec 0 (Z.of_nat k)); [|lia].
      destruct (Z.ltb_spec 0 (Z.of_nat (S k))); [done|lia].
    + intros [|j] Hj; cbn [iter_core]; [done|]. rewrite E. rewrite H5 by lia. done.
  - assert (k = 0%nat) as -> by lia. rewrite E. split_and!; try done.
    intros [|j] Hj; [done|lia].
Qed.

(** A bus rescan.  From the command, the next sixteen ticks queue one ping for
    each of the node ids 0 to 15 in order, and the scan epoch moves exactly once,
    [scan_settle_ticks] ticks after the last ping and not before: a reader that
    sees it move trusts a presence mask that had the time to fill. *)
Lemma rescan_pings_every_node c settle :
  bus_is_silent (c_bus c) = false -> c_scan_settle_ticks c = Z.of_nat settle -> (0 < settle)%nat ->
  let run n := iter_core step_scan n (apply_command RC_RescanBus c) in
  c_bus (run (16 + settle)%nat) = fold_left ping (map Z.of_nat (seq 0 16)) (c_bus c) /\
  c_scan_epoch (run (16 + settle)%nat) = wrapping_add 32 (c_scan_epoch c) 1 /\
  (forall n, (16 <= n < 16 + settle)%nat -> c_scan_epoch (run n) = c_scan_epoch c) /\
  c_scan_next (run (16 + settle)%nat) = None /\ c_scan_settle (run (16 + settle)%nat) = 0.
Proof.
  intros Hb Hs H0. cbv zeta. cbn [apply_command]. rewrite Hb.
  set (c0 := set_scan_settle 0 (set_scan_next (Some 0) c)).
  pose proof (scan_pings 16 c0 (le_n 16) eq_refl) as Hp.
  set (c1 := iter_core step_scan 16 c0) in *.
  assert (c1 = set_scan_settle (Z.of_nat settle) (set_scan_next None
            (set_bus (fold_left ping (map Z.of_nat (seq 0 16)) (c_bus c)) c))) as E1.
  { rewrite Hp by lia. rewrite <- Hs. reflexivity. }
  destruct (scan_settles settle c1) as (A1 & A2 & A3 & A4 & A5).
  { rewrite E1. done. } { rewrite E1. done. }
  rewrite !iter_core_add. fold c1. split_and!.
  - rewrite A3, E1. done.
  - rewrite A4, E1. destruct (Z.ltb_spec 0 (Z.of_nat settle)); [done|lia].
  - intros n Hn. replace n with (16 + (n - 16))%nat by lia. rewrite iter_core_add. fold c1.
    rewrite A5 by lia. by rewrite E1.
  - done.
  - done.
Qed.

End Scan.

(** ** Configuration resends *)

Section Resend.
Context `{L : BusSilenceLaws}.

(** The node ids a 16-bit mask holds, ascending. *)
Definition pending_nodes (mask : Z) : list nat :=
  List.filter (fun i => Z.testbit mask (Z.of_nat i)) (seq 0 16).

Lemma trailing_zeros_spec mask n l :
  pending_nodes mask = n :: l -> trailing_zeros mask = Z.of_nat n.
Proof.
  unfold pending_nodes, trailing_zeros. generalize (seq 0 16). intros s.
  induction s as [|i s IH]; cbn; [discriminate|].
  destruct (Z.testbit mask (Z.of_nat i)); [|done]. intros [= -> _]. done.
Qed.

Lemma pending_ldiff mask n l :
  pending_nodes mask = n :: l -> pending_nodes (Z.ldiff mask (Z.shiftl 1 (Z.of_nat n))) = l.
Proof.
  unfold pending_nodes. pose proof (seq_NoDup 16 0) as Hnd. revert Hnd.
  generalize (seq 0 16). intros s Hnd.
  assert (forall i, Z.testbit (Z.shiftl 1 (Z.of_nat n)) (Z.of_nat i) = (i =? n)%nat) as Hb.
  { intros i. rewrite Z.shiftl_spec by lia. change 1 with (2 ^ 0).
    destruct (Nat.eqb_spec i n) as [->|Hne]; [by rewrite Z.sub_diag|].
    destruct (Z_lt_dec (Z.of_nat i) (Z.of_nat n));
      [apply Z.testbit_neg_r; lia|apply Z.pow2_bits_false; lia]. }
  induction Hnd as [|i s Hi Hs IH]; cbn; [discriminate|].
  rewrite Z.ldiff_spec, Hb. destruct (Z.testbit mask (Z.of_nat i)) eqn:Ei; cbn [andb].
  - intros [= -> <-]. rewrite Nat.eqb_refl. cbn. apply List.filter_ext_in. intros j Hj.
    rewrite Z.ldiff_spec, Hb. destruct (Nat.eqb_spec j n) as [->|]; [done|]. apply andb_true_r.
  - exact IH.
Qed.

Lemma pending_nil mask : 0 <= mask < 2 ^ 16 -> pending_nodes mask = [] -> mask = 0.
Proof.
  intros Hm Hp. apply Z.bits_inj'. intros k Hk. rewrite Z.bits_0.
  destruct (Z_lt_dec k 16).
  - destruct (Z.testbit mask k) eqn:E; [|done]. exfalso.
    assert (In (Z.to_nat k) (pending_nodes mask)) as Hin.
    { apply List.filter_In. split; [apply in_seq; lia|]. by rewrite Z2Nat.id. }
    by rewrite Hp in Hin.
  - destruct (decide (mask = 0)) as [->|]; [apply Z.bits_0|].
    apply Z.bits_above_log2; [lia|]. apply Z.log2_lt_pow2; [lia|].
    apply Z.lt_le_trans with (2 ^ 16); [lia|]. apply Z.pow_le_mono_r; lia.
Qed.

(** One retry. *)
Lemma drain_one c n l :
  bus_is_silent (c_bus c) = false -> pending_nodes (c_config_resend_pending c) = n :: l ->
  0 <= c_config_resend_pending c ->
  let r := bus_resend_node_config (c_bus c) (Z.of_nat n) (c_config_repeats c) in
  c_bus (drain_config_resends c) = fst r /\
  (snd r = true -> pending_nodes (c_config_resend_pending (drain_config_resends c)) = l /\
     0 <= c_config_resend_pending (drain_config_resends c) <= c_config_resend_pending c) /\
  c_config_repeats (drain_config_resends c) = c_config_repeats c.
Proof.
  intros Hb Hp H0. cbv zeta. unfold drain_config_resends. rewrite Hb, orb_false_r.
  destruct (Z.eqb_spec (c_config_resend_pending c) 0) as [E|_].
  { rewrite E in Hp. discriminate. }
  rewrite (trailing_zeros_spec _ _ _ Hp). unfold resend_config.
  destruct (bus_resend_node_config _ _ _) as [b ok]. cbn [fst snd].
  destruct ok; (split_and!; [done| |done]); [intros _|discriminate].
  split; [by apply pending_ldiff|].
  change (c_config_resend_pending (set_config_resend_pending ?v _)) with v.
  change (c_config_resend_pending (set_bus b c)) with (c_config_resend_pending c).
  split.
  - apply Z.ldiff_nonneg. by left.
  - refine (proj2 (Z.ldiff_le _ _ H0 _)). apply Z.bits_inj'. intros k Hk.
    rewrite !Z.ldiff_spec, Z.bits_0.
    by destruct (Z.testbit (c_config_resend_pending c) k), (Z.testbit (Z.shiftl 1 (Z.of_nat n)) k).
Qed.

(** The bus takes the pushes of these nodes, one after the other. *)
Fixpoint takes_all (repeats : Z) (ns : list nat) (b : bus_t) : Prop :=
  match ns with
  | [] => True
  | n :: ns' =>
      let r := bus_resend_node_config b (Z.of_nat n) repeats in
      snd r = true /\ takes_all repeats ns' (fst r)
  end.

(** Refused configuration pushes are not lost.  Once the bus takes frames
    again, one queued node is retried per tick, in ascending order, and after as
    many ticks as there are queued nodes none is pending. *)
Lemma resends_drain c :
  let ns := pending_nodes (c_config_resend_pending c) in
  bus_is_silent (c_bus c) = false -> 0 <= c_config_resend_pending c < 2 ^ 16 ->
  takes_all (c_config_repeats c) ns (c_bus c) ->
  let c' := iter_core drain_config_resends (length ns) c in
  c_config_resend_pending c' = 0 /\
  c_bus c' = fold_left (fun b n => fst (bus_resend_node_config b (Z.of_nat n) (c_config_repeats c)))
               ns (c_bus c).
Proof.
  cbv zeta. remember (pending_nodes (c_config_resend_pending c)) as ns eqn:En.
  revert c En. induction ns as [|n ns IH]; intros c En Hb Hp Ht; cbn [length iter_core fold_left].
  { split; [by apply pending_nil|done]. }
  destruct Ht as [Ha Ht].
  destruct (drain_one c n ns Hb (eq_sym En)) as (E1 & E2 & E3); [lia|].
  destruct (E2 Ha) as [E4 E5].
  destruct (IH (drain_config_resends c)) as [H1 H2].
  - by rewrite E4.
  - rewrite E1. by rewrite silent_resend.
  - lia.
  - by rewrite E1, E3.
  - rewrite E1, E3 in H2. done.
Qed.
End Resend.

(** ** The box outputs *)

Section Outputs.
Context `{D : CoreDeps}.

(** A written output level reaches its pin.  For a declared port the command
    sets that line to 0 or 1 and no other; the pins are written in the same tick
    exactly when a level is new or owed, with the level in its port's place; a
    second drive without a write has nothing to send.  An undeclared port changes
    nothing. *)
Lemma write_io_reaches_pin c port value :
  (c_n_io_inputs c + c_n_io_outputs c <= length (c_io_lines c))%nat -> 0 <= port ->
  let c1 := apply_command (RC_WriteIo port value) c in
  let '(c2, pins) := drive_io_outputs c1 in
  let level := Z.b2z (negb (value =? 0)) in
  (port < Z.of_nat (c_n_io_outputs c) ->
   c_io_lines c2 = <[(c_n_io_inputs c + Z.to_nat port)%nat := level]> (c_io_lines c) /\
   (pins = None <-> c_io_out_dirty c = false /\
      c_io_lines c !! (c_n_io_inputs c + Z.to_nat port)%nat = Some level) /\
   (forall ps, pins = Some ps ->
      ps !! Z.to_nat port = Some level /\ length ps = c_n_io_outputs c)) /\
  (Z.of_nat (c_n_io_outputs c) <= port -> c1 = c) /\
  snd (drive_io_outputs c2) = None.
Proof.
  intros Hlen H0. cbv zeta. cbn [apply_command]. unfold set_io_output.
  destruct (Z.geb_spec port (Z.of_nat (c_n_io_outputs c))) as [Hge|Hlt].
  { unfold drive_io_outputs. destruct (c_io_out_dirty c) eqn:Ed; cbn [negb];
      (split_and!; [lia|done|]); cbn; [done|by rewrite Ed]. }
  cbv zeta. set (slot := (c_n_io_inputs c + Z.to_nat port)%nat).
  assert (slot < length (c_io_lines c))%nat as Hs by (unfold slot; lia).
  destruct (lookup_lt_is_Some_2 _ _ Hs) as [old Eo].
  rewrite (list_lookup_total_correct _ _ _ Eo). set (level := Z.b2z (negb (value =? 0))).
  assert (forall ls : list Z, (length ls = length (c_io_lines c))%nat -> ls !! slot = Some level ->
          let ps := take (c_n_io_outputs c) (drop (c_n_io_inputs c) ls) in
          ps !! Z.to_nat port = Some level /\ length ps = c_n_io_outputs c) as Hps.
  { intros ls Hl He. cbv zeta. split.
    - rewrite lookup_take_lt by lia. by rewrite lookup_drop.
    - rewrite length_take, length_drop. lia. }
  destruct (Z.eqb_spec old level) as [->|Hne]; cbn [negb]; unfold drive_io_outputs.
  - destruct (c_io_out_dirty c) eqn:Ed; cbn [negb]; (split_and!; [intros _|lia|cbn; rewrite ?Ed; done]).
    + split_and!; [by rewrite list_insert_id|by split; [|intros [? _]]|].
      intros ps [= <-]. by apply Hps.
    + split_and!; [by rewrite list_insert_id|done|discriminate].
  - cbn [negb]. (split_and!; [intros _|lia|done]). split_and!.
    + done.
    + split; [discriminate|]. intros [_ E]. congruence.
    + intros ps [= <-]. apply Hps; [apply length_insert|]. apply list_lookup_insert_eq. lia.
Qed.
End Outputs.

(** ** The e-stop edge and a live grip *)

Section Grip.
Context `{D : CoreDeps}.

(** The gate of a halted grip: driven to where the jaws are when the firmware can
    tell, let go of otherwise. *)
Definition halted_gate (g : GripperGate) (r : option GripperReply) : GripperGate :=
  match r, gg_standing g with
  | Some r, Some fw =>
      if gr_calibrated r then
        mkGate (Some (mkFw (gr_position r) (fw_speed fw) (fw_current_ma fw) (fw_activate fw) true
                        (fw_estop fw) (fw_release_dir fw))) (gg_idle_repeats g)
      else gate_idle g
  | _, _ => gate_idle g
  end.

Lemma halt_gate c :
  c_gripper_gate (gripper_halt_in_place c) = halted_gate (c_gripper_gate c) (c_gripper_reply c).
Proof.
  unfold gripper_halt_in_place, halted_gate, has_standing.
  destruct (c_gripper_reply c) as [r|]; [|done].
  destruct (gr_calibrated r), (gg_standing (c_gripper_gate c)) eqn:E; cbn [andb]; try done.
  cbn. unfold stop_at. by rewrite E.
Qed.

Lemma check_estop_fields c :
  c_gripper_gate (check_estop c) =
    (if estop_condition c && negb (c_estop_standing c) && c_has_can_gripper c &&
        holding (c_gripper_gate c)
     then halted_gate (c_gripper_gate c) (c_gripper_reply c) else c_gripper_gate c) /\
  estop_condition (check_estop c) = estop_condition c /\
  c_estop_standing (check_estop c) = estop_condition c.
Proof.
  unfold check_estop. cbv zeta.
  set (c1 := if c_hw_estop c then core_latch EC_Estop None c else c).
  set (c2 := if c_soft_estop c1 then core_latch EC_SwEstop None c1 else c1).
  assert (estop_condition c2 = estop_condition c /\ c_estop_standing c2 = c_estop_standing c /\
          c_has_can_gripper c2 = c_has_can_gripper c /\ c_gripper_gate c2 = c_gripper_gate c /\
          c_gripper_reply c2 = c_gripper_reply c) as (E1 & E2 & E3 & E4 & E5).
  { subst c2 c1. destruct (c_hw_estop c); cbv iota; case_match; by split_and!. }
  clearbody c2. rewrite E1, E2, E3, E4.
  assert (forall c, estop_condition (gripper_halt_in_place c) = estop_condition c) as Hh.
  { intros c0. unfold gripper_halt_in_place. by repeat case_match. }
  destruct (_ && _ && _ && _).
  - split_and!.
    + change (c_gripper_gate (gripper_halt_in_place c2) = halted_gate (c_gripper_gate c) (c_gripper_reply c)).
      rewrite halt_gate. by rewrite E4, E5.
    + change (estop_condition (gripper_halt_in_place c2) = estop_condition c). by rewrite Hh.
    + done.
  - by split_and!.
Qed.

(** A pressed e-stop halts a live grip where the jaws are, once.  The check
    that first sees the e-stop turns a standing grip into a hold at the reported
    jaw position (into a release announcement when the firmware has not reported a
    calibrated position); jaws that were let go are left alone, and so is
    everything the operator commands while the e-stop stays pressed. *)
Lemma estop_halts_grip_once c :
  c_has_can_gripper c = true -> estop_condition c = true -> c_estop_standing c = false ->
  let c1 := check_estop c in
  c_gripper_gate c1 =
    (if holding (c_gripper_gate c) then halted_gate (c_gripper_gate c) (c_gripper_reply c)
     else c_gripper_gate c) /\
  (forall fw, let c2 := apply_command (RC_Gripper fw) c1 in
     c_gripper_gate (check_estop c2) = c_gripper_gate c2) /\
  c_gripper_gate (check_estop c1) = c_gripper_gate c1.
Proof.
  intros Hg He Hs. destruct (check_estop_fields c) as (E1 & E2 & E3). cbv zeta.
  rewrite He in *. rewrite Hs, Hg in E1. cbn [andb negb] in E1.
  split_and!; [exact E1| |].
  - intros fw. set (c2 := apply_command (RC_Gripper fw) (check_estop c)).
    assert (c_estop_standing c2 = true) as Hs2.
    { refine (eq_trans _ E3). unfold c2. cbn [apply_command]. unfold apply_gripper.
      destruct (c_has_can_gripper (check_estop c)); reflexivity. }
    destruct (check_estop_fields c2) as (-> & _). rewrite Hs2. by rewrite andb_false_r.
  - destruct (check_estop_fields (check_estop c)) as (-> & _). rewrite E3. by rewrite andb_false_r.
Qed.

End Grip.

(** ** The EXEC link watchdog *)

Section ExecLink.
Context `{L : BusSilenceLaws}.

(** Ticks of error checks, each with or without a heartbeat from the planner before it. *)
Definition feed_run (feeds : list bool) (c : RtCore) : RtCore :=
  fold_left (fun c (fed : bool) => check_exec_link (if fed then set_heartbeat true c else c)) feeds c.

Definition silence (s : Z) (feeds : list bool) : Z :=
  fold_left (fun s (fed : bool) => if fed then 0 else s + 1) feeds s.

Lemma feed_one fed c :
  c_mode c = Exec -> c_heartbeat c = false -> 0 <= c_hb_silence c < c_hb_timeout_ticks c ->
  c_hb_timeout_ticks c < 2 ^ 32 ->
  exec_samples_remaining (c_exec c) > 0 -> ex_stopping (c_exec c) = false ->
  let c' := feed_run [fed] c in
  let s := silence (c_hb_silence c) [fed] in
  c_mode c' = Exec /\ c_heartbeat c' = false /\ c_hb_silence c' = s /\
  c_hb_timeout_ticks c' = c_hb_timeout_ticks c /\ c_exec c' = c_exec c /\
  c_errors c' = if s >=? c_hb_timeout_ticks c then latch (c_errors c) EC_ExecLinkLost None else c_errors c.
Proof.
  intros Hm Hh Hs Ht Hr Hp. unfold feed_run, silence. cbn [fold_left].
  assert (forall c0, c_mode c0 = Exec -> c_exec c0 = c_exec c ->
    c_hb_timeout_ticks c0 = c_hb_timeout_ticks c -> c_errors c0 = c_errors c ->
    c_hb_silence c0 = c_hb_silence c -> c_heartbeat c0 = fed ->
    let c' := check_exec_link c0 in
    let s := if fed then 0 else c_hb_silence c + 1 in
    c_mode c' = Exec /\ c_heartbeat c' = false /\ c_hb_silence c' = s /\
    c_hb_timeout_ticks c' = c_hb_timeout_ticks c /\ c_exec c' = c_exec c /\
    c_errors c' = if s >=? c_hb_timeout_ticks c then latch (c_errors c) EC_ExecLinkLost None else c_errors c)
    as H.
  { intros c0 E1 E2 E3 E4 E5 E6. unfold check_exec_link. cbv zeta.
    rewrite (proj2 (mode_eqb_spec _ _) E1).
    set (c2 := if c_heartbeat c0 then _ else _).
    assert (c_mode c2 = Exec /\ c_heartbeat c2 = false /\
            c_hb_silence c2 = (if fed then 0 else c_hb_silence c + 1) /\
            c_hb_timeout_ticks c2 = c_hb_timeout_ticks c /\ c_exec c2 = c_exec c /\
            c_errors c2 = c_errors c) as (F1 & F2 & F3 & F4 & F5 & F6).
    { subst c2. rewrite E6. destruct fed; (split_and!; try done).
      change (saturating_add 32 (c_hb_silence c0) 1 = c_hb_silence c + 1).
      rewrite E5. unfold saturating_add. lia. }
    clearbody c2. rewrite F5, Hp, F3, F4. destruct (Z.gtb_spec (exec_samples_remaining (c_exec c)) 0); [|lia].
    cbn [andb negb]. destruct (_ >=? _); split_and!; try done.
    - by rewrite <- F6. }
  destruct fed; apply H; done.
Qed.

(** The EXEC link watchdog is exact.  While samples are queued and no stop is
    braking, the checks latch the lost link in the tick where the planner's
    silence, counted in ticks without a heartbeat, first reaches the timeout, and
    never before: a heartbeat restarts the count. *)
Lemma exec_link_watchdog_exact feeds c :
  em_wf (c_errors c) -> any_hard (c_errors c) = false ->
  c_mode c = Exec -> c_heartbeat c = false -> 0 <= c_hb_silence c < c_hb_timeout_ticks c ->
  c_hb_timeout_ticks c < 2 ^ 32 ->
  exec_samples_remaining (c_exec c) > 0 -> ex_stopping (c_exec c) = false ->
  any_hard (c_errors (feed_run feeds c)) = true <->
  exists k, (k <= length feeds)%nat /\
    c_hb_timeout_ticks c <= silence (c_hb_silence c) (take k feeds).
Proof.
  revert c. induction feeds as [|fed feeds IH]; intros c Hw Hh Hm Hb Hs Ht Hr Hp.
  { cbn [feed_run fold_left length]. split; [unfold feed_run; cbn; congruence|].
    intros (k & Hk & Hle). destruct k; cbn in Hle; lia. }
  destruct (feed_one fed c Hm Hb Hs Ht Hr Hp) as (E1 & E2 & E3 & E4 & E5 & E6).
  change (feed_run (fed :: feeds) c) with (feed_run feeds (feed_run [fed] c)).
  set (c1 := feed_run [fed] c) in *. set (s := silence (c_hb_silence c) [fed]) in *.
  assert (forall k, silence (c_hb_silence c) (take (S k) (fed :: feeds)) = silence s (take k feeds))
    as Hsil by reflexivity.
  assert (0 <= s) as Hs0 by (unfold s, silence; cbn; destruct fed; lia).
  destruct (Z.geb_spec s (c_hb_timeout_ticks c)) as [Hge|Hlt].
  - split; intros _.
    + exists 1%nat. cbn [length take]. split; [lia|]. exact Hge.
    + assert (any_hard (c_errors c1) = true) as Hc1 by (rewrite E6; by apply latch_any_hard).
      assert (forall l c0, any_hard (c_errors c0) = true -> any_hard (c_errors (feed_run l c0)) = true)
        as Hk.
      { intros l. induction l as [|f l IHl]; intros c0 H0; [done|].
        unfold feed_run in *. cbn [fold_left]. apply IHl.
        destruct (quiet_exec_link (if f then set_heartbeat true c0 else c0)) as [_ _ _ _ _ Hgr].
        apply (errors_grow_hard _ _ Hgr). by destruct f. }
      by apply Hk.
  - rewrite (IH c1).
    + rewrite E3, E4. split.
      * intros (k & Hk & Hle). exists (S k). rewrite Hsil. cbn [length]. split; [lia|done].
      * intros (k & Hk & Hle). destruct k as [|k].
        { change (take 0 (fed :: feeds)) with (@nil bool) in Hle. cbn in Hle. lia. }
        exists k. rewrite Hsil in Hle. cbn [length] in Hk. split; [lia|done].
    + by rewrite E6.
    + by rewrite E6.
    + done.
    + done.
    + lia.
    + lia.
    + by rewrite E5.
    + by rewrite E5.
Qed.
End ExecLink.

(** ** Instances *)

(** Two entries of the same motor and one of another: two bursts. *)
Definition clear_example : RtCore :=
  core_at ActiveError Disabled
    [mkErrorEntry EC_Temperature (Some 2); mkErrorEntry EC_Current (Some 2);
     mkErrorEntry EC_Estop None; mkErrorEntry EC_CanLost (Some 0)].

Lemma clear_reaches_each_node_once_witness :
  let c := clear_example in
  let nodes := first_seen [] (faulted c (em_list (c_errors c))) in
  let c' := begin_clear c in
  nodes = [2; 0] /\
  (NoDup nodes /\ (forall n, n ∈ nodes <-> n ∈ faulted c (em_list (c_errors c))) /\
  c_bus c' =
    (let b := fold_left clear_burst nodes (c_bus c) in
     if c_has_can_gripper c && negb (bool_decide (c_gripper_node c ∈ nodes))
     then bus_send_clear_error b (c_gripper_node c) CLEAR_ERROR_REPEATS else b) /\
  c_errors c' = em_begin_clear (c_errors c) /\
  Forall (fun n => ns_error_flags n = None) (c_nodes c') /\ c_not_homed_refused c' = false).
Proof.
  split; [vm_compute; reflexivity|].
  apply (clear_reaches_each_node_once clear_example).
  - split_and!; [cbn; lia|cbn; lia| |reflexivity].
    cbn. repeat (apply List.Forall_cons; [lia|]). apply List.Forall_nil.
  - unfold joints_ok. repeat (apply List.Forall_cons; [cbn; lia || exact I|]). apply List.Forall_nil.
Defined.

Lemma rescan_pings_every_node_witness :
  let c := core_at Idle Disabled [] in
  let run n := iter_core step_scan n (apply_command RC_RescanBus c) in
  c_bus (run (16 + 5)%nat) = fold_left ping (map Z.of_nat (seq 0 16)) (c_bus c) /\
  c_scan_epoch (run (16 + 5)%nat) = wrapping_add 32 (c_scan_epoch c) 1 /\
  (forall n, (16 <= n < 16 + 5)%nat -> c_scan_epoch (run n) = c_scan_epoch c) /\
  c_scan_next (run (16 + 5)%nat) = None /\ c_scan_settle (run (16 + 5)%nat) = 0.
Proof. apply (rescan_pings_every_node (core_at Idle Disabled []) 5); [reflexivity|reflexivity|lia]. Defined.

(** Nodes 1 and 4 refused their last push. *)
Definition resend_example : RtCore := set_config_resend_pending 18 (core_at Idle Enabled []).

Lemma resends_drain_witness :
  let c := resend_example in
  let ns := pending_nodes (c_config_resend_pending c) in
  let c' := iter_core drain_config_resends (length ns) c in
  c_config_resend_pending c' = 0 /\
  c_bus c' = fold_left (fun b n => fst (bus_resend_node_config b (Z.of_nat n) (c_config_repeats c)))
               ns (c_bus c).
Proof.
  apply (resends_drain resend_example); [reflexivity|cbn; lia|].
  change (pending_nodes (c_config_resend_pending resend_example)) with (pending_nodes 18).
  replace (pending_nodes 18) with [1%nat; 4%nat] by (vm_compute; reflexivity).
  vm_compute. split_and!; reflexivity || exact I.
Defined.

Lemma write_io_reaches_pin_witness :
  let c := core_at Idle Disabled [] in
  let c1 := apply_command (RC_WriteIo 2 5) c in
  let '(c2, pins) := drive_io_outputs c1 in
  let level := Z.b2z (negb (5 =? 0)) in
  (2 < Z.of_nat (c_n_io_outputs c) ->
   c_io_lines c2 = <[(c_n_io_inputs c + Z.to_nat 2)%nat := level]> (c_io_lines c) /\
   (pins = None <-> c_io_out_dirty c = false /\
      c_io_lines c !! (c_n_io_inputs c + Z.to_nat 2)%nat = Some level) /\
   (forall ps, pins = Some ps ->
      ps !! Z.to_nat 2 = Some level /\ length ps = c_n_io_outputs c)) /\
  (Z.of_nat (c_n_io_outputs c) <= 2 -> c1 = c) /\
  snd (drive_io_outputs c2) = None.
Proof. apply (write_io_reaches_pin (core_at Idle Disabled []) 2 5); [cbn; lia|lia]. Defined.

(** A closing grip, jaws reported at 90, and the software e-stop just pressed. *)
Definition grip_example : RtCore :=
  let c := core_at Exec Enabled [] in
  let c := mkRtCore (c_tick c) (c_bus c) (c_nodes c)
    (Some (mkReply 90 300 true true OD_Moving false false false true)) false 0 0 2 (c_node_of c) 6
    true (c_gravity c) (c_payload c) (c_jog c) (c_stream c) (c_stream_shaped c) (c_exec c)
    (c_io_lines c) [] 4 4 false false (c_homing c) (c_ref_check_sum c) 0 false (c_errors c)
    (c_self_heal_armed c) 0 0 0 0 0 50 Exec Enabled 0 true true false false false false false
    (c_q c) (c_tau_ext c) f64_0 10 (c_tau_env_over c) (c_q_target c) (c_scratch_tau c)
    (gate_set gate_default (mkFw 255 80 500 true true false false)) (c_gripper_settle c)
    false false false false 0 0 true 0 50 None false (c_stream_commanded c) f64_1 0 100 50 0 0 0
    0 0 (c_stream_filt c) None 0 5 0 in
  c.

Lemma estop_halts_grip_once_witness :
  let c1 := check_estop grip_example in
  c_gripper_gate c1 =
    (if holding (c_gripper_gate grip_example)
     then halted_gate (c_gripper_gate grip_example) (c_gripper_reply grip_example)
     else c_gripper_gate grip_example) /\
  (forall fw, let c2 := apply_command (RC_Gripper fw) c1 in
     c_gripper_gate (check_estop c2) = c_gripper_gate c2) /\
  c_gripper_gate (check_estop c1) = c_gripper_gate c1.
Proof. apply (estop_halts_grip_once grip_example); reflexivity. Defined.

(** Two samples queued, a heartbeat just heard, a timeout of fifty ticks. *)
Definition link_example : RtCore :=
  set_heartbeat false (upd_exec (fun e =>
    mkExec (mkRing (replicate 8 (mkSlot sample_default 0)) 0 2 1 0) (ex_hold_q e) None None false 0 0
      false 0 false false f64_0 f64_1 f64_1 f64_0 sample_default) (core_at Exec Enabled [])).

Lemma exec_link_watchdog_exact_witness :
  any_hard (c_errors (feed_run (true :: replicate 50 false) link_example)) = true /\
  (any_hard (c_errors (feed_run (replicate 49 false) link_example)) = true <->
   exists k, (k <= length (replicate 49 false))%nat /\
     c_hb_timeout_ticks link_example <= silence (c_hb_silence link_example) (take k (replicate 49 false))).
Proof.
  split; [vm_compute; reflexivity|].
  apply (exec_link_watchdog_exact (replicate 49 false) link_example); try reflexivity; try (cbn; lia).
  split_and!; cbn; try lia; constructor.
Defined.
