(* ===== verification/Convert.v ===== *)
(** * Convert: wire ticks and joint radians
    (crates/par6-bus/src/spectral/convert.rs)

    The calibration state of a joint, the choice of the boot sector, the home
    reference, and the conversions between motor ticks and radians.  The i32
    additions of the source wrap in a release build and are written so. *)
From Stdlib Require Import SpecFloat.
From S2P Require Import Prelude F64.

(** An f64 in memory, as the number it denotes. *)
Abbreviation real := spec_float.

Definition TWO_PI : real := f64_to_SF 0x401921FB54442D18.

(** [v.trunc() as i32]. *)
Definition trunc_to_wire (v : real) : Z := sf_trunc_as_sint 32 v.

Definition ticks_per_radian (encoder_max_counts : Z) (gear_ratio : real) : real :=
  sf_div (sf_mul (sf_of_int encoder_max_counts) gear_ratio) TWO_PI.

Definition radians_to_ticks (radians : real) (encoder_max_counts : Z) (gear_ratio : real) : Z :=
  sf_round_even_as_sint 32 (sf_mul radians (ticks_per_radian encoder_max_counts gear_ratio)).

Definition ticks_to_radians (ticks : real) (encoder_max_counts : Z) (gear_ratio : real) : real :=
  sf_div ticks (ticks_per_radian encoder_max_counts gear_ratio).

(** [sign * 1000 / (gear_ratio * gear_efficiency * kt)], [sign = 1 - 2 * dir]. *)
Definition torque_to_ma_factor (gear_ratio gear_efficiency kt_nm_a : real) (dir : Z) : real :=
  let sign := sf_of_int (1 - 2 * (if dir =? 1 then 1 else 0)) in
  sf_div (sf_mul sign (sf_of_int 1000)) (sf_mul (sf_mul gear_ratio gear_efficiency) kt_nm_a).

Record JointConversion := mkConv {
  cv_encoder_max_counts : Z;
  cv_gear_ratio : real;
  cv_dir : Z;
  cv_master_position_ticks : Z;
  cv_offset_ticks : Z;
  cv_sector_shift_ticks : Z;
}.

(** The angle as the encoder counts it: mirrored on an inverted joint. *)
Definition offset_ticks_for (c : JointConversion) (offset_rad : real) : Z :=
  let rad := if cv_dir c =? 0 then offset_rad else sf_sub TWO_PI offset_rad in
  radians_to_ticks rad (cv_encoder_max_counts c) (cv_gear_ratio c).

Definition set_offset_ticks (v : Z) (c : JointConversion) : JointConversion :=
  mkConv (cv_encoder_max_counts c) (cv_gear_ratio c) (cv_dir c) (cv_master_position_ticks c) v
    (cv_sector_shift_ticks c).

Definition set_sector_shift (v : Z) (c : JointConversion) : JointConversion :=
  mkConv (cv_encoder_max_counts c) (cv_gear_ratio c) (cv_dir c) (cv_master_position_ticks c)
    (cv_offset_ticks c) v.

Definition conv_new (encoder_bits : Z) (gear_ratio : real) (dir master_position_ticks : Z) (offset_rad : real)
  : JointConversion :=
  let s := mkConv (swrap 32 (Z.shiftl 1 encoder_bits)) gear_ratio dir master_position_ticks 0 0 in
  set_offset_ticks (offset_ticks_for s offset_rad) s.

Definition determine_sector (initial_motor_ticks : Z) (c : JointConversion) : JointConversion :=
  let max := cv_encoder_max_counts c in
  let resolution := max - 1 in
  let midpoint := resolution / 2 in
  let initial := initial_motor_ticks mod max in
  let master := cv_master_position_ticks c in
  set_sector_shift
    (if master - max / 2 >? 0 then (if initial <? master - max / 2 then max else 0)
     else if master - max / 2 <? 0 then (if initial >? master + midpoint then - max else 0)
     else 0) c.

Definition set_home (latched_motor_ticks : Z) (home_offset_rad : real) (c : JointConversion)
  : JointConversion :=
  mkConv (cv_encoder_max_counts c) (cv_gear_ratio c) (cv_dir c) latched_motor_ticks
    (offset_ticks_for c home_offset_rad) 0.

Definition set_home_offset (home_offset_rad : real) (c : JointConversion) : JointConversion :=
  set_offset_ticks (offset_ticks_for c home_offset_rad) c.

Definition joint_ticks (c : JointConversion) (motor_ticks : Z) : Z :=
  swrap 32 (motor_ticks - cv_master_position_ticks c + cv_sector_shift_ticks c + cv_offset_ticks c).

Definition joint_rad (c : JointConversion) (motor_ticks : Z) : real :=
  let rad := ticks_to_radians (sf_of_int (joint_ticks c motor_ticks)) (cv_encoder_max_counts c)
               (cv_gear_ratio c) in
  if cv_dir c =? 1 then sf_sub TWO_PI rad else rad.

Definition motor_ticks (c : JointConversion) (joint_rad : real) : Z :=
  let rad := if cv_dir c =? 1 then sf_sub TWO_PI joint_rad else joint_rad in
  swrap 32 (radians_to_ticks rad (cv_encoder_max_counts c) (cv_gear_ratio c)
            + cv_master_position_ticks c - cv_offset_ticks c - cv_sector_shift_ticks c).

Definition joint_speed_rad_s (c : JointConversion) (motor_ticks_s : real) : real :=
  let signed := if cv_dir c =? 1 then sf_opp motor_ticks_s else motor_ticks_s in
  sf_div (sf_mul signed (sf_div TWO_PI (sf_of_int (cv_encoder_max_counts c)))) (cv_gear_ratio c).

Definition motor_speed_ticks_s (c : JointConversion) (joint_rad_s : real) : real :=
  let signed := if cv_dir c =? 1 then sf_opp joint_rad_s else joint_rad_s in
  sf_div (sf_mul signed (cv_gear_ratio c)) (sf_div TWO_PI (sf_of_int (cv_encoder_max_counts c))).

(** ** The home reference *)

(** The direction bit of a configured joint. *)
Definition dir_ok (c : JointConversion) : Prop := cv_dir c = 0 \/ cv_dir c = 1.

(** The home reference is exact in ticks.  After [set_home], commanding the
    home angle commands the latched tick, for every angle and every calibration,
    and the latched tick reads as the stored offset with no sector correction. *)
Lemma set_home_exact c latched home :
  is_sint 32 latched = true -> dir_ok c ->
  let c' := set_home latched home c in
  motor_ticks c' home = latched /\ joint_ticks c' latched = swrap 32 (offset_ticks_for c home).
Proof.
  intros Hl Hd. cbv zeta. split.
  - unfold motor_ticks, set_home, offset_ticks_for. cbn [cv_dir cv_encoder_max_counts cv_gear_ratio
      cv_master_position_ticks cv_offset_ticks cv_sector_shift_ticks].
    replace (if cv_dir c =? 0 then home else sf_sub TWO_PI home)
      with (if cv_dir c =? 1 then sf_sub TWO_PI home else home) by (destruct Hd as [-> | ->]; done).
    set (t := radians_to_ticks _ _ _). replace (t + latched - t - 0) with latched by lia.
    rewrite <- (swrap_wrap 32 latched) at 2 by (done || lia). unfold swrap, wrap. by rewrite Zmod_mod.
  - unfold joint_ticks, set_home. cbn. f_equal. lia.
Qed.

Definition example_joint : JointConversion := conv_new 14 (f64_to_SF f64_60) 1 1000 (f64_to_SF f64_0_1).

Lemma set_home_exact_witness :
  dir_ok example_joint /\ motor_ticks (set_home (-5000) (f64_to_SF f64_1) example_joint) (f64_to_SF f64_1) = -5000.
Proof.
  split; [right; vm_compute; reflexivity|].
  apply (set_home_exact example_joint (-5000) (f64_to_SF f64_1)); [reflexivity|right; vm_compute; reflexivity].
Defined.

(** ** The boot sector *)

(** At boot the joint is placed in the revolution nearest the calibrated master
    position: the corrected reading is within half a revolution of it, whatever
    the encoder first says.  A reading exactly half a revolution above a master in
    the lower half is moved down, to half a revolution below. *)
Lemma determine_sector_nearest c initial half :
  cv_encoder_max_counts c = 2 * half -> 0 < half ->
  0 <= cv_master_position_ticks c < 2 * half ->
  let shift := cv_sector_shift_ticks (determine_sector initial c) in
  let placed := initial mod (2 * half) + shift in
  Z.abs (placed - cv_master_position_ticks c) <= half /\
  (cv_master_position_ticks c < half -> initial mod (2 * half) = cv_master_position_ticks c + half ->
   placed = cv_master_position_ticks c - half).
Proof.
  intros Hm Hh Hr. cbv zeta. unfold determine_sector. cbn [set_sector_shift cv_sector_shift_ticks]. rewrite Hm.
  replace (2 * half / 2) with half by (rewrite Z.mul_comm, Z.div_mul; lia).
  replace ((2 * half - 1) / 2) with (half - 1) by (apply (Z.div_unique _ _ _ 1); lia).
  pose proof (Z.mod_pos_bound initial (2 * half) ltac:(lia)) as Hi.
  set (i := initial mod (2 * half)) in *. set (m := cv_master_position_ticks c) in *.
  repeat match goal with
  | |- context [if ?b then _ else _] => let E := fresh in destruct b eqn:E
  end; lia.
Qed.

Lemma determine_sector_nearest_witness :
  cv_sector_shift_ticks (determine_sector 9192 example_joint) = -16384.
Proof.
  pose proof (proj2 (determine_sector_nearest example_joint 9192 8192 eq_refl ltac:(lia) ltac:(vm_compute; split; [discriminate|reflexivity]))
    ltac:(vm_compute; reflexivity) ltac:(vm_compute; reflexivity)) as H.
  vm_compute in H. vm_compute. lia.
Defined.
