(* ===== verification/HomingConfig.v ===== *)
(** * HomingConfig: the homing section of a robot file
    (crates/par6-config/src/homing.rs, [for_tool] of lib.rs)

    The schema, its validation in the order of the source with the field path
    and the reason of each refusal, the sequence stripped of gripper work, and
    the pose the sequence ends in.  An f64 in memory is the number it denotes. *)
From Stdlib Require Import SpecFloat.
From stdpp Require Import pretty.
From S2P Require Import Prelude F64 Convert.

(** ** The schema *)

Inductive HomingStrategy := Stall | Hall.

#[export] Instance HomingStrategy_eq_dec : EqDecision HomingStrategy.
Proof. solve_decision. Defined.

Record ReleaseConfig := mkReleaseConfig { rl_current_ma : real; rl_duration_s : real; rl_sample_pct : real }.
Record PostHomeConfig := mkPostHome { phc_position_rad : real; phc_speed_ticks_s : real }.

Record JointHoming := mkJointHoming {
  jh_strategy : HomingStrategy;
  jh_speed_ticks_s : real;
  jh_direction : Z;
  jh_current_ma : real;
  jh_timeout_s : real;
  jh_backoff_s : real;
  jh_two_pass : bool;
  jh_two_pass_max_diff_ticks : Z;
  jh_release : option ReleaseConfig;
  jh_post_home : option PostHomeConfig;
  jh_home_offset_rad : real;
  jh_home_offset_gripper_dependent : bool;
}.

Inductive GripperHomeMode := GHM_Motor | GHM_Firmware.

Inductive PreMove :=
| PM_Idle (joint : Z) (duration_s : real)
| PM_Nudge (joint : Z) (speed_ticks_s duration_s : real)
| PM_Position (joint : Z) (position_rad duration_s : real)
| PM_GripperMove (position speed current_ma : Z) (activate action estop release_dir : bool) (duration_s : real).

Record MoveTo := mkMoveTo { mt_joint : Z; mt_position_rad : real; mt_duration_s : real }.
Record HomeGroup := mkHomeGroup { hg_joints : list Z; hg_gripper : option GripperHomeMode }.

Record SequenceStep := mkStep {
  ss_pre_moves : list PreMove;
  ss_home : option HomeGroup;
  ss_move_to : list MoveTo;
  ss_post_moves : list PreMove;
}.

Record HomingConfig := mkHomingConfig {
  hc_joints : list JointHoming;
  hc_sequence : list SequenceStep;
  hc_post_moves : list PreMove;
  hc_reference_check_nm : list real;
}.

(** What homing reads of a joint's configuration (robot.rs, [JointConfig]). *)
Record JointConfig := mkJointConfig {
  jcf_node_id : Z;
  jcf_encoder_bits : Z;
  jcf_gear_ratio : real;
  jcf_hard_min_rad : real;
  jcf_hard_max_rad : real;
  jcf_velocity_limit_ticks_s : real;
  jcf_ilim_ma : real;
}.

Definition SEEK_MARGIN : real := f64_to_SF 0x3FF4000000000000.

(** Encoder ticks of the joint's whole range, and [JointHoming::seek_timeout_s]. *)
Definition range_ticks (joint : JointConfig) : real :=
  let ticks_per_rad :=
    sf_mul (sf_div (sf_of_int (Z.shiftl 1 (jcf_encoder_bits joint))) TWO_PI) (jcf_gear_ratio joint) in
  sf_mul (sf_sub (jcf_hard_max_rad joint) (jcf_hard_min_rad joint)) ticks_per_rad.

Definition seek_timeout_s (jh : JointHoming) (joint : JointConfig) : real :=
  sf_max (jh_timeout_s jh) (sf_mul (sf_div (range_ticks joint) (jh_speed_ticks_s jh)) SEEK_MARGIN).

(** ** Refusals *)

Record Invalid := mkInvalid { iv_field : string; iv_reason : string }.

Local Open Scope string_scope.
Local Open Scope Z_scope.

(** A check of the source: [Some] is its early return. *)
Definition check : Type := option Invalid.
Definition refuse_if (c : bool) (field reason : string) : check :=
  if c then Some (mkInvalid field reason) else None.

(** The first refusal of checks that run one after the other. *)
Fixpoint first_refusal (checks : list check) : check :=
  match checks with [] => None | Some e :: _ => Some e | None :: checks => first_refusal checks end.

Definition sf_zero : real := S754_zero false.
Definition le_zero (x : real) : bool := sf_le x sf_zero.

(** [{x:.0}]. *)
Definition show_fixed0 (x : real) : string :=
  match x with
  | S754_zero s => if s then "-0" else "0"
  | S754_infinity s => if s then "-inf" else "inf"
  | S754_nan => "NaN"
  | S754_finite s m e => (if s then "-" else "") +:+ pretty (nearest_even_at (Zpos m) e)
  end.

(** [{l:?}] of a list of numbers. *)
Definition show_list (l : list nat) : string := "[" +:+ String.concat ", " (map (fun n => pretty n) l) +:+ "]".

Definition at_index (prefix : string) (i : nat) : string := prefix +:+ "[" +:+ pretty i +:+ "]".

(** ** Validation *)

Definition backoff_travel (jh : JointHoming) : real := sf_mul (jh_speed_ticks_s jh) (jh_backoff_s jh).

Definition unit_interval (x : real) : bool := sf_le sf_zero x && sf_le x (sf_of_int 1).

(** [JointHoming::validate]. *)
Definition validate_joint_homing (field_prefix : string) (jh : JointHoming) : check :=
  let f name := field_prefix +:+ "." +:+ name in
  first_refusal
    [refuse_if (le_zero (jh_speed_ticks_s jh)) (f "speed_ticks_s") "must be > 0 (sign comes from `direction`)";
     refuse_if (jh_direction jh >? 1) (f "direction") "must be 0 (positive) or 1 (negative)";
     refuse_if (le_zero (jh_current_ma jh)) (f "current_ma") "must be > 0";
     refuse_if (le_zero (jh_timeout_s jh)) (f "timeout_s") "must be > 0";
     refuse_if (sf_lt (jh_backoff_s jh) sf_zero) (f "backoff_s") "must be >= 0";
     refuse_if
       (jh_two_pass jh && bool_decide (jh_strategy jh = Stall) &&
        sf_le (backoff_travel jh) (sf_of_int (jh_two_pass_max_diff_ticks jh)))
       (f "two_pass_max_diff_ticks")
       ("must be below the backoff re-travel, speed_ticks_s x backoff_s = " +:+ show_fixed0 (backoff_travel jh) +:+
        " ticks, or a second pass that stalls where it started still passes");
     match jh_release jh with
     | None => None
     | Some r =>
         first_refusal
           [refuse_if (bool_decide (jh_strategy jh = Hall)) (f "release")
              "hall joints have no release phase — remove the table";
            refuse_if (le_zero (rl_duration_s r)) (f "release.duration_s") "must be > 0 (omit the table to skip)";
            refuse_if (negb (unit_interval (rl_sample_pct r))) (f "release.sample_pct") "must be in [0, 1]"]
     end;
     match jh_post_home jh with
     | None => None
     | Some p => refuse_if (le_zero (phc_speed_ticks_s p)) (f "post_home.speed_ticks_s") "must be > 0"
     end].

Definition move_joint (m : PreMove) : option Z :=
  match m with PM_Idle j _ | PM_Nudge j _ _ | PM_Position j _ _ => Some j | PM_GripperMove _ _ _ _ _ _ _ _ => None end.
Definition move_duration (m : PreMove) : real :=
  match m with
  | PM_Idle _ d | PM_Nudge _ _ d | PM_Position _ _ d | PM_GripperMove _ _ _ _ _ _ _ d => d
  end.

Definition joint_out_of_range (j : Z) (num_joints : nat) : string :=
  "joint " +:+ pretty j +:+ " out of range (robot has " +:+ pretty num_joints +:+ " joints)".

(** [validate_moves]. *)
Definition validate_moves (moves : list PreMove) (num_joints : nat) (prefix : string) : check :=
  first_refusal
    (imap
       (fun k m =>
          let f := at_index prefix k in
          first_refusal
            [match move_joint m with
             | Some j => refuse_if (Z.of_nat num_joints <=? j) (f +:+ ".joint") (joint_out_of_range j num_joints)
             | None => None
             end;
             refuse_if (le_zero (move_duration m)) (f +:+ ".duration_s") "must be > 0"]) moves).

Definition is_empty {A} (l : list A) : bool := match l with [] => true | _ => false end.

Definition step_is_empty (s : SequenceStep) : bool :=
  is_empty (ss_pre_moves s) && negb (bool_decide (is_Some (ss_home s))) && is_empty (ss_move_to s) &&
  is_empty (ss_post_moves s).

Definition validate_home (prefix : string) (num_joints : nat) (home : HomeGroup) : check :=
  first_refusal
    (refuse_if (is_empty (hg_joints home) && negb (bool_decide (is_Some (hg_gripper home)))) (prefix +:+ ".home")
       "home group names no joints and no gripper" ::
     map (fun j => refuse_if (Z.of_nat num_joints <=? j) (prefix +:+ ".home.joints") (joint_out_of_range j num_joints))
       (hg_joints home)).

Definition validate_move_to (prefix : string) (num_joints : nat) (k : nat) (m : MoveTo) : check :=
  let f := at_index (prefix +:+ ".move_to") k in
  first_refusal
    [refuse_if (Z.of_nat num_joints <=? mt_joint m) (f +:+ ".joint") (joint_out_of_range (mt_joint m) num_joints);
     refuse_if (le_zero (mt_duration_s m)) (f +:+ ".duration_s") "must be > 0"].

Definition validate_step (num_joints : nat) (i : nat) (s : SequenceStep) : check :=
  let prefix := at_index "homing.sequence" i in
  first_refusal
    ([refuse_if (step_is_empty s) prefix "step has no pre_moves, home, move_to, or post_moves";
      validate_moves (ss_pre_moves s) num_joints (prefix +:+ ".pre_moves");
      validate_moves (ss_post_moves s) num_joints (prefix +:+ ".post_moves");
      match ss_home s with Some home => validate_home prefix num_joints home | None => None end] ++
     imap (validate_move_to prefix num_joints) (ss_move_to s)).

(** The joints the steps home. *)
Definition homed_joints (steps : list SequenceStep) : list Z :=
  concat (map (fun s => match ss_home s with Some h => hg_joints h | None => [] end) steps).

Definition missing_joints (num_joints : nat) (steps : list SequenceStep) : list nat :=
  List.filter (fun i => negb (existsb (Z.eqb (Z.of_nat i)) (homed_joints steps))) (seq 0 num_joints).

Definition bad_bound (v : real) : bool :=
  match v with S754_zero _ | S754_nan | S754_infinity _ => true | S754_finite s _ _ => s end.

(** [HomingConfig::validate]. *)
Definition validate_homing (num_joints : nat) (c : HomingConfig) : check :=
  first_refusal
    ([refuse_if (negb (length (hc_joints c) =? num_joints)%nat) "homing.joints"
        ("must have one entry per joint (" +:+ pretty num_joints +:+ " joints, " +:+ pretty (length (hc_joints c)) +:+
         " entries)")] ++
     imap (fun i jh => validate_joint_homing (at_index "homing.joints" i) jh) (hc_joints c) ++
     imap (validate_step num_joints) (hc_sequence c) ++
     [refuse_if (negb (is_empty (missing_joints num_joints (hc_sequence c)))) "homing.sequence"
        ("no step homes joint(s) " +:+ show_list (missing_joints num_joints (hc_sequence c)) +:+
         "; every joint must be referenced");
      validate_moves (hc_post_moves c) num_joints "homing.post_moves";
      if is_empty (hc_reference_check_nm c) then None
      else
        first_refusal
          [refuse_if (negb (length (hc_reference_check_nm c) =? num_joints)%nat) "homing.reference_check_nm"
             ("must be empty or one bound per joint (" +:+ pretty num_joints +:+ " joints, " +:+
              pretty (length (hc_reference_check_nm c)) +:+ " entries)");
           refuse_if (existsb bad_bound (hc_reference_check_nm c)) "homing.reference_check_nm"
             "every bound must be a finite torque > 0 Nm"]]).

(** ** The sequence of a tool without a driver *)

(** What homing reads of a tool's configuration and of its driver's (gripper.rs). *)
Record GripperDriver := mkGripperDriver {
  gd_velocity_limit_ticks_s : real;
  gd_ilim_ma : real;
  gd_gear_r_m : real;
}.

Record ToolConfig := mkToolConfig {
  tc_driver : option GripperDriver;
  tc_homing : option JointHoming;
  tc_arm_joint_home_offsets : list (Z * real);
}.

(** [tool.is_none_or(|g| g.driver.is_some())]. *)
Definition drives_gripper (tool : option ToolConfig) : bool :=
  match tool with None => true | Some g => bool_decide (is_Some (tc_driver g)) end.

Definition is_gripper_move (m : PreMove) : bool :=
  match m with PM_GripperMove _ _ _ _ _ _ _ _ => true | _ => false end.
Definition strip_moves (moves : list PreMove) : list PreMove := List.filter (fun m => negb (is_gripper_move m)) moves.

Definition strip_step (s : SequenceStep) : SequenceStep :=
  let home :=
    match ss_home s with
    | Some h => if is_empty (hg_joints h) then None else Some (mkHomeGroup (hg_joints h) None)
    | None => None
    end in
  mkStep (strip_moves (ss_pre_moves s)) home (ss_move_to s) (strip_moves (ss_post_moves s)).

(** [HomingConfig::for_tool]. *)
Definition for_tool (tool : option ToolConfig) (c : HomingConfig) : HomingConfig :=
  if drives_gripper tool then c
  else
    mkHomingConfig (hc_joints c)
      (List.filter (fun s => negb (step_is_empty s)) (map strip_step (hc_sequence c)))
      (strip_moves (hc_post_moves c)) (hc_reference_check_nm c).

(** [ConfigBundle::effective_home_offset], the active tool given. *)
Definition effective_home_offset (tool : option ToolConfig) (c : HomingConfig) (joint : nat) : option real :=
  match hc_joints c !! joint with
  | None => None
  | Some jh =>
      let own :=
        if jh_home_offset_gripper_dependent jh then
          match tool with
          | Some g =>
              snd <$> List.find (fun o : Z * real => fst o =? Z.of_nat joint) (tc_arm_joint_home_offsets g)
          | None => None
          end
        else None in
      Some (default (jh_home_offset_rad jh) own)
  end.

(** ** Where the sequence ends *)

Definition place (last : list (option real)) (m : MoveTo) : list (option real) :=
  <[Z.to_nat (mt_joint m) := Some (mt_position_rad m)]> last.

Definition final_positions (num_joints : nat) (c : HomingConfig) : list (option real) :=
  fold_left (fun last s => fold_left place (ss_move_to s) last) (hc_sequence c) (replicate num_joints None).

Definition unplaced (last : list (option real)) : list nat :=
  omap (fun '(j, v) => match v : option real with None => Some j | Some _ => None end)
    (combine (seq 0 (length last)) last).

(** [HomingConfig::ready_pose_rad]: the pose, or what the error says. *)
Definition ready_pose_rad (num_joints : nat) (c : HomingConfig) : list real + string :=
  let last := final_positions num_joints c in
  let missing := unplaced last in
  if is_empty missing then inl (map (fun v : option real => default sf_zero v) last)
  else inr ("homing sequence leaves joints " +:+ show_list missing +:+ " unplaced").

(** ** What validation establishes *)

Lemma first_refusal_none l : first_refusal l = None <-> Forall (fun c => c = None) l.
Proof.
  induction l as [|[e|] l IH]; cbn; [by split|..].
  - split; [done|]. by inversion 1.
  - rewrite IH, Forall_cons. intuition auto.
Qed.

Lemma refuse_none c f r : refuse_if c f r = None <-> c = false.
Proof. by destruct c. Qed.

Lemma Forall_imap {A} (f : nat -> A -> check) (P : A -> Prop) l :
  (forall i x, f i x = None <-> P x) -> Forall (fun c => c = None) (imap f l) <-> Forall P l.
Proof.
  intros Hf. rewrite !Forall_lookup. split.
  - intros H i x Hi. apply (Hf i), (H i). rewrite list_lookup_imap. by rewrite Hi.
  - intros H i c Hi. rewrite list_lookup_imap in Hi. destruct (l !! i) eqn:E; [|done]. cbn in Hi. injection Hi as <-.
    by apply Hf, (H i).
Qed.

(** A move the validation accepts, whatever its place. *)
Definition move_ok (n : nat) (m : PreMove) : Prop :=
  (forall j, move_joint m = Some j -> j < Z.of_nat n) /\ le_zero (move_duration m) = false.

Lemma validate_moves_none moves n prefix : validate_moves moves n prefix = None <-> Forall (move_ok n) moves.
Proof.
  unfold validate_moves. rewrite first_refusal_none. apply Forall_imap. intros i m. cbv zeta.
  rewrite first_refusal_none, !Forall_cons, refuse_none, Forall_nil. unfold move_ok.
  destruct (move_joint m) as [j|]; [rewrite refuse_none|]; split; intros; destruct_and?; split_and!; try done.
  - intros j0 [= <-]. lia.
  - apply Z.leb_gt. auto.
Qed.

Definition step_ok (n : nat) (s : SequenceStep) : Prop :=
  step_is_empty s = false /\ Forall (move_ok n) (ss_pre_moves s) /\ Forall (move_ok n) (ss_post_moves s) /\
  (forall h, ss_home s = Some h ->
     (hg_joints h <> [] \/ is_Some (hg_gripper h)) /\ Forall (fun j => j < Z.of_nat n) (hg_joints h)) /\
  Forall (fun m => mt_joint m < Z.of_nat n /\ le_zero (mt_duration_s m) = false) (ss_move_to s).

Lemma validate_home_none prefix n h :
  validate_home prefix n h = None <->
  (hg_joints h <> [] \/ is_Some (hg_gripper h)) /\ Forall (fun j => j < Z.of_nat n) (hg_joints h).
Proof.
  unfold validate_home. rewrite first_refusal_none, Forall_cons, refuse_none, Forall_map. f_equiv.
  - destruct (hg_joints h), (hg_gripper h); cbn; naive_solver.
  - apply Forall_proper; [|done]. intros j. cbn. rewrite refuse_none, Z.leb_gt. done.
Qed.

Lemma validate_move_to_none prefix n k m :
  validate_move_to prefix n k m = None <-> mt_joint m < Z.of_nat n /\ le_zero (mt_duration_s m) = false.
Proof.
  unfold validate_move_to. cbv zeta.
  rewrite first_refusal_none, !Forall_cons, !refuse_none, Forall_nil, Z.leb_gt. intuition auto.
Qed.

Lemma validate_step_none n i s : validate_step n i s = None <-> step_ok n s.
Proof.
  unfold validate_step, step_ok. cbv zeta. rewrite first_refusal_none, Forall_app, !Forall_cons, Forall_nil, refuse_none,
    !validate_moves_none.
  rewrite (Forall_imap _ (fun m => mt_joint m < Z.of_nat n /\ le_zero (mt_duration_s m) = false))
    by (intros; apply validate_move_to_none).
  destruct (ss_home s) as [h|]; [rewrite validate_home_none|]; naive_solver.
Qed.

Definition joint_homing_ok (jh : JointHoming) : Prop := forall prefix, validate_joint_homing prefix jh = None.

(** The checks refuse the same configurations whatever the path they report. *)
Lemma validate_joint_homing_at p q jh : validate_joint_homing p jh = None -> validate_joint_homing q jh = None.
Proof.
  unfold validate_joint_homing. cbv zeta. rewrite !first_refusal_none, !Forall_cons, !Forall_nil, !refuse_none.
  destruct (jh_release jh), (jh_post_home jh); rewrite ?first_refusal_none, ?Forall_cons, ?refuse_none; tauto.
Qed.

Lemma validate_joint_homing_none prefix jh : validate_joint_homing prefix jh = None <-> joint_homing_ok jh.
Proof. split; [intros H q; by eapply validate_joint_homing_at|auto]. Qed.

(** What [validate_homing] accepts. *)
Record homing_ok (n : nat) (c : HomingConfig) : Prop := {
  ho_joints : length (hc_joints c) = n;
  ho_each_joint : Forall joint_homing_ok (hc_joints c);
  ho_steps : Forall (step_ok n) (hc_sequence c);
  ho_homed : missing_joints n (hc_sequence c) = [];
  ho_post_moves : Forall (move_ok n) (hc_post_moves c);
  ho_bounds : hc_reference_check_nm c = [] \/
    length (hc_reference_check_nm c) = n /\ existsb bad_bound (hc_reference_check_nm c) = false;
}.

Lemma is_empty_true {A} (l : list A) : is_empty l = true <-> l = [].
Proof. by destruct l. Qed.

Lemma validate_homing_none n c : validate_homing n c = None <-> homing_ok n c.
Proof.
  unfold validate_homing. rewrite first_refusal_none, !Forall_app, !Forall_cons, !Forall_nil, !refuse_none.
  rewrite (Forall_imap _ joint_homing_ok) by (intros; apply validate_joint_homing_none).
  rewrite (Forall_imap _ (step_ok n)) by (intros; apply validate_step_none).
  rewrite validate_moves_none, !negb_false_iff, Nat.eqb_eq, is_empty_true.
  assert (Hb : (if is_empty (hc_reference_check_nm c) then None
                else first_refusal
                       [refuse_if (negb (length (hc_reference_check_nm c) =? n)%nat) "homing.reference_check_nm"
                          ("must be empty or one bound per joint (" +:+ pretty n +:+ " joints, " +:+
                           pretty (length (hc_reference_check_nm c)) +:+ " entries)");
                        refuse_if (existsb bad_bound (hc_reference_check_nm c)) "homing.reference_check_nm"
                          "every bound must be a finite torque > 0 Nm"]) = None <->
               (hc_reference_check_nm c = [] \/
                length (hc_reference_check_nm c) = n /\ existsb bad_bound (hc_reference_check_nm c) = false)).
  { destruct (hc_reference_check_nm c) as [|v l]; cbn [is_empty]; [intuition auto|].
    rewrite first_refusal_none, !Forall_cons, !refuse_none, negb_false_iff, Nat.eqb_eq, Forall_nil. intuition congruence. }
  rewrite Hb. split; [intros H; destruct_and! H; by constructor|intros []; split_and!; done].
Qed.

(** A joint of a sequence without missing ones is homed by some step. *)
Lemma homed_all n steps j : missing_joints n steps = [] -> (j < n)%nat -> Z.of_nat j ∈ homed_joints steps.
Proof.
  intros Hm Hj. destruct (existsb (Z.eqb (Z.of_nat j)) (homed_joints steps)) eqn:E.
  - apply existsb_exists in E as (z & Hz & <-%Z.eqb_eq). by apply list_elem_of_In.
  - assert (Hin : In j (missing_joints n steps)) by (apply filter_In; rewrite in_seq, E; cbn; lia). by rewrite Hm in Hin.
Qed.

(** Stripping gripper work keeps the arm-joint references. *)
Lemma strip_homed steps :
  homed_joints (List.filter (fun s => negb (step_is_empty s)) (map strip_step steps)) = homed_joints steps.
Proof.
  unfold homed_joints. induction steps as [|s steps IH]; [done|]. cbn [map List.filter].
  assert (Hs : match ss_home (strip_step s) with Some h => hg_joints h | None => [] end =
               match ss_home s with Some h => hg_joints h | None => [] end).
  { unfold strip_step. cbn. destruct (ss_home s) as [[[|j js] g]|]; done. }
  destruct (step_is_empty (strip_step s)) eqn:E; cbn [negb map concat].
  - rewrite IH, <- Hs. unfold step_is_empty in E. destruct (ss_home (strip_step s)); [|done].
    by destruct (is_empty (ss_pre_moves (strip_step s))).
  - by rewrite IH, Hs.
Qed.

Lemma strip_moves_ok n moves : Forall (move_ok n) moves -> Forall (move_ok n) (strip_moves moves).
Proof. rewrite !List.Forall_forall. intros H m [Hm _]%filter_In. auto. Qed.

Lemma strip_step_ok n s : step_is_empty (strip_step s) = false -> step_ok n s -> step_ok n (strip_step s).
Proof.
  intros He (H1 & H2 & H3 & H4 & H5). split_and!; try done; try by apply strip_moves_ok.
  cbn. destruct (ss_home s) as [[[|j js] g]|]; cbn; try done. intros h [= <-]. cbn.
  destruct (H4 _ eq_refl) as [_ Hj]. split; [by left|exact Hj].
Qed.

(** A configuration stays valid when it is fitted to a tool: the gripper work stripped from a valid sequence leaves
    no empty step or group behind, and every joint is still homed by the steps that remain. *)
Lemma for_tool_stays_valid tool n c :
  validate_homing n c = None ->
  validate_homing n (for_tool tool c) = None /\
  homed_joints (hc_sequence (for_tool tool c)) = homed_joints (hc_sequence c).
Proof.
  rewrite !validate_homing_none. intros Hc. unfold for_tool. destruct (drives_gripper tool); [done|].
  destruct Hc. cbn [hc_sequence]. rewrite strip_homed. split; [|done].
  constructor; cbn; try done.
  - rewrite List.Forall_forall in ho_steps0 |- *. intros s [Hs He]%filter_In. apply in_map_iff in Hs as (s0 & <- & Hs0).
    apply strip_step_ok; [by apply negb_true_iff|auto].
  - unfold missing_joints in *. by rewrite strip_homed.
  - by apply strip_moves_ok.
Qed.
