(* ===== verification/Homing.v ===== *)
(** * Homing: the sequence that references one joint
    (crates/par6-rt/src/homing.rs, the per-joint part)

    [Homer] with its phases, the two endstop detectors and [tick].  An f64 in
    memory is the number it denotes ([real]).  [tick] takes the node's decoded
    state and gives it back, because an approach drops the cached hall reply. *)
From Stdlib Require Import SpecFloat.
From S2P Require Import Prelude F64 BusTypes RtState Convert HomingConfig.

(** ** Constants, in seconds and fractions *)

Definition DWELL_S : real := f64_to_SF 0x3FB47AE147AE147B.
Definition PAUSE_S : real := f64_to_SF 0x3FC3333333333333.
Definition SETTLE_S : real := DWELL_S.
Definition RAMP_S : real := f64_to_SF 0x3FD0000000000000.
Definition DETECT_WINDOW_S : real := DWELL_S.
Definition STARTUP_GUARD_S : real := PAUSE_S.
Definition PRECLEAR_GUARD_S : real := f64_to_SF 0x3FE0000000000000.
Definition PRE_POST_TIMEOUT_S : real := sf_of_int 4.
Definition REHOME_SPEED_FACTOR : real := f64_to_SF 0x3FD3333333333333.
Definition CURRENT_RATIO : real := f64_to_SF 0x3FE6666666666666.
Definition CURRENT_WINDOW_FRACTION : real := f64_to_SF 0x3FE3333333333333.
Definition STALL_DISP_FACTOR : real := sf_mul DWELL_S RAMP_S.
Definition POS_TOL_TICKS : Z := 50.
Definition HALL_TRIGGER_VALUE : Z := 2.

Definition real_0 : real := S754_zero false.
Definition real_1 : real := sf_of_int 1.

(** ** Parameters in ticks *)

Record ReleasePlan := mkReleasePlan { rp_current_ma : Z; rp_dur_ticks : Z; rp_sample_tick : Z }.
Record PostPlan := mkPostPlan { pp_position_rad : real; pp_speed : real }.

Record HomerParams := mkHomerParams {
  hp_node : Z;
  hp_strategy : HomingStrategy;
  hp_speed : real;
  hp_current_ma : real;
  hp_timeout_ticks : Z;
  hp_backoff_ticks : Z;
  hp_two_pass : bool;
  hp_max_diff_ticks : Z;
  hp_release : option ReleasePlan;
  hp_post : option PostPlan;
  hp_stall_needed : Z;
  hp_startup_guard : Z;
  hp_cur_window : Z;
  hp_cur_needed : Z;
  hp_dwell_ticks : Z;
  hp_pause_ticks : Z;
  hp_ramp_ticks : Z;
  hp_settle_ticks : Z;
  hp_preclear_ticks : Z;
  hp_in_pos_streak : Z;
  hp_pre_post_timeout : Z;
  hp_post_ticks : Z;
  hp_normal_vel_limit : real;
  hp_normal_ilim : real;
  hp_dt : real;
}.

(** [(s / dt).round() as u32]. *)
Definition ticks_of (dt s : real) : Z := sf_round_as_uint 32 (sf_div s dt).

Definition is_stall (s : HomingStrategy) : bool := match s with Stall => true | Hall => false end.

Definition release_plan (dt : real) (r : ReleaseConfig) : ReleasePlan :=
  let dur := Z.max (ticks_of dt (rl_duration_s r)) 1 in
  mkReleasePlan (sf_trunc_as_sint 16 (rl_current_ma r)) dur
    (Z.max 1 (Z.min (sf_round_as_uint 32 (sf_mul (sf_of_int dur) (rl_sample_pct r))) dur)).

(** [HomerParams::from_config]. *)
Definition homer_params (node : Z) (jh : JointHoming) (seek_timeout_s normal_vel_limit normal_ilim dt : real)
  : HomerParams :=
  let ticks := ticks_of dt in
  let dir_sign := sf_of_int (if jh_direction jh =? 1 then -1 else 1) in
  let cur_window := Z.max (ticks DETECT_WINDOW_S) 2 in
  mkHomerParams node (jh_strategy jh) (sf_mul dir_sign (jh_speed_ticks_s jh)) (jh_current_ma jh)
    (Z.max (ticks seek_timeout_s) 1) (ticks (jh_backoff_s jh))
    (jh_two_pass jh && is_stall (jh_strategy jh)) (jh_two_pass_max_diff_ticks jh)
    (if is_stall (jh_strategy jh) then release_plan dt <$> jh_release jh else None)
    ((fun p => mkPostPlan (phc_position_rad p) (phc_speed_ticks_s p)) <$> jh_post_home jh)
    (Z.max (ticks DETECT_WINDOW_S) 5) (ticks STARTUP_GUARD_S) cur_window
    (Z.max (sf_ceil_as_uint 32 (sf_mul (sf_of_int cur_window) CURRENT_WINDOW_FRACTION)) 1)
    (Z.max (ticks DWELL_S) 1) (Z.max (ticks PAUSE_S) 1) (Z.max (ticks RAMP_S) 1)
    (Z.max (ticks SETTLE_S) 1) (ticks PRECLEAR_GUARD_S) (Z.max (ticks DETECT_WINDOW_S) 1)
    (Z.max (ticks PRE_POST_TIMEOUT_S) 1) 0
    (sf_to_f32 normal_vel_limit) (sf_to_f32 normal_ilim) dt.

Definition params_eta (p : HomerParams) : HomerParams :=
  mkHomerParams (hp_node p) (hp_strategy p) (hp_speed p) (hp_current_ma p) (hp_timeout_ticks p)
    (hp_backoff_ticks p) (hp_two_pass p) (hp_max_diff_ticks p) (hp_release p) (hp_post p)
    (hp_stall_needed p) (hp_startup_guard p) (hp_cur_window p) (hp_cur_needed p) (hp_dwell_ticks p)
    (hp_pause_ticks p) (hp_ramp_ticks p) (hp_settle_ticks p) (hp_preclear_ticks p) (hp_in_pos_streak p)
    (hp_pre_post_timeout p) (hp_post_ticks p) (hp_normal_vel_limit p) (hp_normal_ilim p) (hp_dt p).

(** [p.field = v]. *)
Ltac put_params getter p v :=
  let t := eval unfold params_eta in (params_eta p) in
  lazymatch t with context T [getter p] => let t' := context T [v] in exact t' end.

Definition put_post_ticks (v : Z) (p : HomerParams) : HomerParams := ltac:(put_params hp_post_ticks p v).
Definition put_normal_vel_limit (v : real) (p : HomerParams) : HomerParams := ltac:(put_params hp_normal_vel_limit p v).
Definition put_normal_limits (vel ilim : real) (p : HomerParams) : HomerParams :=
  let p := put_normal_vel_limit vel p in ltac:(put_params hp_normal_ilim p ilim).

(** ** The state *)

Inductive HPhase :=
| HP_Approach | HP_Preclear | HP_Dwell | HP_Backoff | HP_Pause | HP_Release | HP_Brake | HP_Settle
| HP_PostMove | HP_Finished | HP_Failed.

#[export] Instance HPhase_eq_dec : EqDecision HPhase.
Proof. solve_decision. Defined.

Inductive HomerEvent := HE_Reference (latched_ticks : Z) | HE_Failed.

(** The two detectors: the displacement plateau and the ring of current readings. *)
Record Detectors := mkDetectors {
  dt_ref_pos : option Z;
  dt_still : Z;
  dt_cur_ring : list bool;
  dt_cur_idx : nat;
  dt_cur_filled : Z;
  dt_cur_hits : Z;
}.

Record Homer := mkHomer {
  h_phase : HPhase;
  h_failed_in : HPhase;
  h_elapsed : Z;
  h_pass : Z;
  h_pass_hits : list Z;
  h_latched : option Z;
  h_det : Detectors;
  h_started_clear : bool;
  h_spent : Z;
  h_post_target_ticks : Z;
  h_post_streak : Z;
  h_post_start_ticks : option Z;
  h_post_dur_ticks : Z;
  h_post_elapsed : Z;
  h_hit_current : real;
}.

Definition homer_eta (h : Homer) : Homer :=
  mkHomer (h_phase h) (h_failed_in h) (h_elapsed h) (h_pass h) (h_pass_hits h) (h_latched h) (h_det h)
    (h_started_clear h) (h_spent h) (h_post_target_ticks h) (h_post_streak h) (h_post_start_ticks h)
    (h_post_dur_ticks h) (h_post_elapsed h) (h_hit_current h).

(** [self.field = v]. *)
Ltac put_homer getter h v :=
  let t := eval unfold homer_eta in (homer_eta h) in
  lazymatch t with context T [getter h] => let t' := context T [v] in exact t' end.

Definition hput_phase (v : HPhase) (h : Homer) : Homer := ltac:(put_homer h_phase h v).
Definition hput_failed_in (v : HPhase) (h : Homer) : Homer := ltac:(put_homer h_failed_in h v).
Definition hput_elapsed (v : Z) (h : Homer) : Homer := ltac:(put_homer h_elapsed h v).
Definition hput_pass (v : Z) (h : Homer) : Homer := ltac:(put_homer h_pass h v).
Definition hput_pass_hits (v : list Z) (h : Homer) : Homer := ltac:(put_homer h_pass_hits h v).
Definition hput_latched (v : option Z) (h : Homer) : Homer := ltac:(put_homer h_latched h v).
Definition hput_det (v : Detectors) (h : Homer) : Homer := ltac:(put_homer h_det h v).
Definition hput_started_clear (v : bool) (h : Homer) : Homer := ltac:(put_homer h_started_clear h v).
Definition hput_spent (v : Z) (h : Homer) : Homer := ltac:(put_homer h_spent h v).
Definition hput_post_target (v : Z) (h : Homer) : Homer := ltac:(put_homer h_post_target_ticks h v).
Definition hput_post_streak (v : Z) (h : Homer) : Homer := ltac:(put_homer h_post_streak h v).
Definition hput_post_start (v : option Z) (h : Homer) : Homer := ltac:(put_homer h_post_start_ticks h v).
Definition hput_post_dur (v : Z) (h : Homer) : Homer := ltac:(put_homer h_post_dur_ticks h v).
Definition hput_post_elapsed (v : Z) (h : Homer) : Homer := ltac:(put_homer h_post_elapsed h v).
Definition hput_hit_current (v : real) (h : Homer) : Homer := ltac:(put_homer h_hit_current h v).

Definition detectors_new (p : HomerParams) : Detectors :=
  mkDetectors None 0 (replicate (Z.to_nat (hp_cur_window p)) false) 0 0 0.

Definition homer_new (p : HomerParams) : Homer :=
  mkHomer HP_Finished HP_Finished 0 1 [0; 0] None (detectors_new p) false 0 0 0 None 0 0 real_0.

Definition reset_detectors (h : Homer) : Homer :=
  hput_det (mkDetectors None 0 (map (fun _ => false) (dt_cur_ring (h_det h))) 0 0 0) h.

(** [Homer::start]. *)
Definition homer_start (h : Homer) : Homer :=
  let h := hput_elapsed 0 (hput_phase HP_Approach h) in
  let h := hput_latched None (hput_pass_hits [0; 0] (hput_pass 1 h)) in
  let h := hput_spent 0 (hput_started_clear false h) in
  let h := hput_post_dur 0 (hput_post_start None (hput_post_streak 0 h)) in
  reset_detectors (hput_post_elapsed 0 h).

Definition running (h : Homer) : bool :=
  match h_phase h with HP_Finished | HP_Failed => false | _ => true end.

Definition phase_shown (p : HPhase) : RtHomingPhase :=
  match p with
  | HP_Approach => RHP_Approach | HP_Preclear => RHP_Backoff | HP_Dwell => RHP_Dwell
  | HP_Release => RHP_Release | HP_Backoff => RHP_Backoff | HP_Pause => RHP_Pause
  | HP_Brake | HP_Settle => RHP_Settle | HP_PostMove => RHP_PostMove
  | HP_Finished | HP_Failed => RHP_Finished
  end.

Definition public_phase (h : Homer) : RtHomingPhase :=
  match h_phase h with HP_Failed => phase_shown (h_failed_in h) | p => phase_shown p end.

(** [Homer::fail]: the state; the command is idle and the event [HE_Failed]. *)
Definition homer_fail (h : Homer) : Homer := hput_phase HP_Failed (hput_failed_in (h_phase h) h).

(** ** The profile *)

(** Cubic Hermite between two values, and its tangent. *)
Definition hermite (start target : real) (elapsed dur : Z) (dt : real) : real * real :=
  let s := sf_clamp real_0 real_1 (sf_div (sf_of_int elapsed) (sf_of_int (Z.max dur 1))) in
  let d := sf_sub target start in
  let pos :=
    sf_add start (sf_mul d (sf_sub (sf_mul (sf_mul (sf_of_int 3) s) s)
                              (sf_mul (sf_mul (sf_mul (sf_of_int 2) s) s) s))) in
  let span_s := sf_mul (sf_of_int (Z.max dur 1)) dt in
  let vel := sf_div (sf_mul d (sf_sub (sf_mul (sf_of_int 6) s) (sf_mul (sf_mul (sf_of_int 6) s) s))) span_s in
  (pos, vel).

(** ** The detectors *)

Definition approach_speed (p : HomerParams) (h : Homer) : real :=
  if h_pass h =? 2 then sf_mul (hp_speed p) REHOME_SPEED_FACTOR else hp_speed p.

(** What counts as standing still at a commanded speed. *)
Definition stall_window (speed : real) : Z :=
  sf_trunc_as_sint 64 (sf_max (sf_mul (sf_abs speed) STALL_DISP_FACTOR) (sf_of_int 10)).

Definition over_current (p : HomerParams) (node : NodeState) : bool :=
  match ns_current_ma node with
  | Some c => sf_le (sf_mul CURRENT_RATIO (hp_current_ma p)) (sf_abs (sf_of_int c))
  | None => false
  end.

(** The displacement plateau; the window starts again on movement. *)
Definition watch_still (p : HomerParams) (pos : option Z) (speed : real) (d : Detectors) : Detectors * bool :=
  match pos with
  | None => (d, false)
  | Some pos =>
      let still r := Z.abs (pos - r) <? stall_window speed in
      match dt_ref_pos d with
      | Some r =>
          if still r then
            (mkDetectors (Some r) (dt_still d + 1) (dt_cur_ring d) (dt_cur_idx d) (dt_cur_filled d) (dt_cur_hits d),
             hp_stall_needed p <=? dt_still d + 1)
          else (mkDetectors (Some pos) 0 (dt_cur_ring d) (dt_cur_idx d) (dt_cur_filled d) (dt_cur_hits d), false)
      | None => (mkDetectors (Some pos) 0 (dt_cur_ring d) (dt_cur_idx d) (dt_cur_filled d) (dt_cur_hits d), false)
      end
  end.

(** The ring of the last readings: how many were over the threshold. *)
Definition watch_current (p : HomerParams) (above : bool) (d : Detectors) : Detectors * bool :=
  let old := nth (dt_cur_idx d) (dt_cur_ring d) false in
  let ring := <[dt_cur_idx d := above]> (dt_cur_ring d) in
  let idx := ((dt_cur_idx d + 1) mod length ring)%nat in
  let full := negb (dt_cur_filled d <? hp_cur_window p) in
  let filled := if full then dt_cur_filled d else dt_cur_filled d + 1 in
  let hits := if full && old then dt_cur_hits d - 1 else dt_cur_hits d in
  let hits := if above then hits + 1 else hits in
  (mkDetectors (dt_ref_pos d) (dt_still d) ring idx filled hits,
   (hp_cur_window p <=? filled) && (hp_cur_needed p <=? hits)).

(** [Homer::detect_stall]. *)
Definition detect_stall (p : HomerParams) (node : NodeState) (speed : real) (h : Homer) : Homer * bool :=
  let '(d, stalled) := watch_still p (ns_position_ticks node) speed (h_det h) in
  let '(d, current_hit) :=
    if h_elapsed h >? hp_startup_guard p then watch_current p (over_current p node) d else (d, false) in
  (hput_det d h, stalled && current_hit).

(** ** One tick *)

(** [node.hall = None]. *)
Definition drop_hall (n : NodeState) : NodeState :=
  mkNodeState (ns_position_ticks n) (ns_position_generation n) (ns_speed_ticks_s n) (ns_current_ma n)
    (ns_temperature_c n) (ns_voltage_mv n) (ns_error_flags n) (ns_kt_nm_a n) (ns_device_info n)
    (ns_combined_telemetry n) None (ns_live_error_bit n) (ns_readback n) (ns_data_age_ticks n).

Definition failed (h : Homer) : Homer * JointCommand * option HomerEvent :=
  (homer_fail h, jc_idle, Some HE_Failed).

(** Whether [pos] is within the in-position tolerance of [target]. *)
Definition in_position (pos : option Z) (target : Z) : bool :=
  match pos with Some pos => Z.abs (pos - target) <=? POS_TOL_TICKS | None => false end.

(** How long the profile from [start] to [target] takes at the post-home speed. *)
Definition post_span (p : HomerParams) (post : PostPlan) (target start : Z) : Z :=
  let d := sf_abs (sf_of_int (swrap 32 (target - start))) in
  let speed := sf_max (sf_abs (pp_speed post)) real_1 in
  Z.max (sf_ceil_as_uint 32 (sf_div (sf_div (sf_mul (f64_to_SF 0x3FF8000000000000) d) speed) (hp_dt p))) 1.

Definition tick_brake (p : HomerParams) (h : Homer) : Homer * JointCommand * option HomerEvent :=
  let h := hput_elapsed (h_elapsed h + 1) h in
  let speed := fst (hermite (approach_speed p h) real_0 (h_elapsed h) (hp_ramp_ticks p) (hp_dt p)) in
  let h := if hp_ramp_ticks p <=? h_elapsed h then hput_phase HP_Settle (hput_elapsed 0 h) else h in
  (h, jc_velocity (trunc_to_wire speed) 0, None).

Definition tick_dwell (p : HomerParams) (h : Homer) : Homer * JointCommand * option HomerEvent :=
  let h := hput_elapsed (h_elapsed h + 1) h in
  let h := if hp_dwell_ticks p <=? h_elapsed h then hput_elapsed 0 (hput_phase HP_Backoff h) else h in
  (h, jc_idle, None).

(** The off-band reply that proves the next approach starts clear. *)
Definition reads_clear (hall : option HallState) : bool :=
  match hall with Some s => hs_trigger s && negb (hs_edge s) | None => false end.

Definition tick_preclear (p : HomerParams) (node : NodeState) (h : Homer)
  : Homer * JointCommand * option HomerEvent :=
  let h := hput_elapsed (h_elapsed h + 1) h in
  if saturating_add 32 (h_spent h) (h_elapsed h) >? hp_timeout_ticks p then failed h
  else if reads_clear (ns_hall node) then
    let h := hput_elapsed 0 (hput_spent (saturating_add 32 (h_spent h) (h_elapsed h)) h) in
    (reset_detectors (hput_phase HP_Approach (hput_started_clear true h)), jc_idle, None)
  else (h, jc_hall (trunc_to_wire (sf_opp (hp_speed p))) HALL_TRIGGER_VALUE, None).

Definition tick_backoff (p : HomerParams) (h : Homer) : Homer * JointCommand * option HomerEvent :=
  let h := hput_elapsed (h_elapsed h + 1) h in
  let ramp := Z.max (Z.min (hp_ramp_ticks p) (hp_backoff_ticks p)) 1 in
  let full := sf_opp (hp_speed p) in
  let e := h_elapsed h in
  let speed :=
    if e <=? ramp then fst (hermite real_0 full e ramp (hp_dt p))
    else if e <=? hp_backoff_ticks p then full
    else fst (hermite full real_0 (e - hp_backoff_ticks p) ramp (hp_dt p)) in
  let h := if hp_backoff_ticks p + ramp <=? e then hput_phase HP_Pause (hput_elapsed 0 h) else h in
  (h, jc_velocity (trunc_to_wire speed) 0, None).

Definition tick_pause (p : HomerParams) (h : Homer) : Homer * JointCommand * option HomerEvent :=
  let h := hput_elapsed (h_elapsed h + 1) h in
  let h :=
    if hp_pause_ticks p <=? h_elapsed h
    then reset_detectors (hput_pass 2 (hput_elapsed 0 (hput_phase HP_Approach h))) else h in
  (h, jc_idle, None).

(** Without a plan the source panics; [homer_ok] excludes it. *)
Definition tick_release (p : HomerParams) (node : NodeState) (h : Homer)
  : Homer * JointCommand * option HomerEvent :=
  let h := hput_elapsed (h_elapsed h + 1) h in
  match hp_release p with
  | None => (h, jc_idle, None)
  | Some r =>
      let ramp := hp_ramp_ticks p in
      let e := h_elapsed h in
      let target := sf_of_int (rp_current_ma r) in
      let current :=
        if e <=? ramp then fst (hermite (h_hit_current h) target e ramp (hp_dt p))
        else if e <=? ramp + rp_dur_ticks r then target
        else fst (hermite target real_0 (e - ramp - rp_dur_ticks r) ramp (hp_dt p)) in
      let h :=
        if e =? ramp + rp_sample_tick r then
          match ns_position_ticks node with Some pos => hput_latched (Some pos) h | None => h end
        else h in
      let h := if 2 * ramp + rp_dur_ticks r <=? e then hput_elapsed 0 (hput_phase HP_Settle h) else h in
      (h, jc_current (sf_round_as_sint 16 current), None)
  end.

Definition tick_settle (p : HomerParams) (node : NodeState) (h : Homer)
  : Homer * JointCommand * option HomerEvent :=
  let h := hput_elapsed (h_elapsed h + 1) h in
  let h := match h_latched h with None => hput_latched (ns_position_ticks node) h | Some _ => h end in
  if hp_settle_ticks p <=? h_elapsed h then
    match h_latched h with
    | None => if h_elapsed h <? 2 * hp_settle_ticks p then (h, jc_idle, None) else failed h
    | Some latched =>
        let diff := Z.abs (nth 1 (h_pass_hits h) 0 - nth 0 (h_pass_hits h) 0) in
        if hp_two_pass p && (diff >? hp_max_diff_ticks p) then failed h
        else
          let next := match hp_post p with Some _ => HP_PostMove | None => HP_Finished end in
          (hput_elapsed 0 (hput_phase next h), jc_idle, Some (HE_Reference latched))
    end
  else (h, jc_idle, None).

(** Without a plan the source panics; [homer_ok] excludes it. *)
Definition tick_post (p : HomerParams) (node : NodeState) (h : Homer)
  : Homer * JointCommand * option HomerEvent :=
  let h := hput_elapsed (h_elapsed h + 1) h in
  match hp_post p with
  | None => (h, jc_idle, None)
  | Some post =>
      let target := h_post_target_ticks h in
      let h :=
        match h_post_start_ticks h, ns_position_ticks node with
        | None, Some start =>
            hput_post_dur (post_span p post target start) (hput_post_start (Some start) h)
        | _, _ => h
        end in
      let '(h, cmd) :=
        match h_post_start_ticks h with
        | Some start =>
            let h := hput_post_elapsed (h_post_elapsed h + 1) h in
            let '(pos, vel) :=
              hermite (sf_of_int start) (sf_of_int target) (h_post_elapsed h) (h_post_dur_ticks h) (hp_dt p) in
            (h, jc_position (trunc_to_wire pos) (trunc_to_wire vel) 0)
        | None => (h, jc_idle)
        end in
      let h :=
        hput_post_streak (if in_position (ns_position_ticks node) target then h_post_streak h + 1 else 0) h in
      if (h_post_dur_ticks h <=? h_post_elapsed h) && (hp_in_pos_streak p <=? h_post_streak h)
      then (hput_phase HP_Finished h, cmd, None)
      else if h_elapsed h >? saturating_add 32 (h_post_dur_ticks h) (hp_pre_post_timeout p) then failed h
      else (h, cmd, None)
  end.

(** The phases after a hit. *)
Definition tick_after (p : HomerParams) (node : NodeState) (h : Homer)
  : Homer * JointCommand * option HomerEvent :=
  match h_phase h with
  | HP_Brake => tick_brake p h
  | HP_Dwell => tick_dwell p h
  | HP_Preclear => tick_preclear p node h
  | HP_Backoff => tick_backoff p h
  | HP_Pause => tick_pause p h
  | HP_Release => tick_release p node h
  | HP_Settle => tick_settle p node h
  | HP_PostMove => tick_post p node h
  | HP_Approach | HP_Finished | HP_Failed => (h, jc_idle, None)
  end.

(** The phase a hit leads to, with what it records. *)
Definition on_hit (p : HomerParams) (node : NodeState) (h : Homer) : Homer :=
  let h := hput_elapsed 0 h in
  match hp_strategy p with
  | Hall => hput_phase HP_Brake (hput_latched (ns_position_ticks node) h)
  | Stall =>
      let hit_pos := default 0 (ns_position_ticks node) in
      let h := hput_pass_hits (<[Z.to_nat (h_pass h - 1) := hit_pos]> (h_pass_hits h)) h in
      let h := hput_hit_current (sf_of_int (default 0 (ns_current_ma node))) h in
      hput_phase
        (if (h_pass h =? 1) && hp_two_pass p then HP_Dwell
         else match hp_release p with Some _ => HP_Release | None => HP_Settle end) h
  end.

(** The trigger or its edge. *)
Definition reads_hit (hall : option HallState) : bool :=
  match hall with Some s => negb (hs_trigger s) || hs_edge s | None => false end.

(** The command of an approach tick and whether the endstop was found. *)
Definition approach (p : HomerParams) (node : NodeState) (h : Homer) : Homer * JointCommand * bool :=
  let speed := approach_speed p h in
  match hp_strategy p with
  | Stall => let '(h, hit) := detect_stall p node speed h in (h, jc_velocity (trunc_to_wire speed) 0, hit)
  | Hall => (h, jc_hall (trunc_to_wire speed) HALL_TRIGGER_VALUE, reads_hit (ns_hall node))
  end.

(** [Homer::tick]: the state, the node's decoded state, the command, the event. *)
Definition homer_tick (p : HomerParams) (node : NodeState) (h : Homer)
  : Homer * NodeState * JointCommand * option HomerEvent :=
  match h_phase h with
  | HP_Approach =>
      let h := hput_elapsed (h_elapsed h + 1) h in
      if saturating_add 32 (h_spent h) (h_elapsed h) >? hp_timeout_ticks p then
        let '(h, cmd, ev) := failed h in (h, node, cmd, ev)
      else
        let node := if h_elapsed h =? 1 then drop_hall node else node in
        let '(h, cmd, hit) := approach p node h in
        if negb hit then (h, node, cmd, None)
        else if negb (is_stall (hp_strategy p)) && (h_elapsed h <=? hp_preclear_ticks p) &&
                negb (h_started_clear h) then
          let h := hput_spent (saturating_add 32 (h_spent h) (h_elapsed h)) h in
          (hput_phase HP_Preclear (hput_elapsed 0 h), drop_hall node, jc_idle, None)
        else
          let '(h, cmd, ev) := tick_after p node (on_hit p node h) in (h, node, cmd, ev)
  | _ => let '(h, cmd, ev) := tick_after p node h in (h, node, cmd, ev)
  end.
