(* ===== verification/HomingSeq.v ===== *)
(** * HomingSeq: the homing sequence
    (crates/par6-rt/src/homing.rs, [HomingSystem])

    The orchestrator: the planned steps with their moves, the group homed in
    parallel, the gripper's own homing or its firmware calibration, the trailing
    moves, the whole-sequence deadline, and the current limits that go with each.
    Driver-bus calls are listed in the order they are made; their results are
    ignored by the source.  Log lines are left out. *)
From Stdlib Require Import SpecFloat.
From S2P Require Import Prelude F64 BusTypes Ring RtState CoreState Convert HomingConfig Homing.

(** ** Constants *)

Definition GRIPPER_SLOT : nat := MAX_JOINTS.
Definition REFERENCE_CHECK_S : real := f64_to_SF 0x3FE0000000000000.
Definition SEQUENCE_SLACK_S : real := real_1.
Definition MOVE_TO_EXTRA_S : real := sf_of_int 2.
Definition CAL_TIMEOUT_S : real := sf_of_int 10.
Definition CAL_MIN_WAIT_S : real := sf_of_int 2.
Definition LIMIT_REPEATS : Z := 4.
Definition IDLE_CMD_REPEATS : Z := 2.
Definition GRIPPER_ENCODER_COUNTS : real := sf_of_int 16384.
Definition PI : real := f64_to_SF 0x400921FB54442D18.

Inductive SeqStatus := SS_Inactive | SS_Running | SS_Checking | SS_Complete | SS_Failed.

#[export] Instance SeqStatus_eq_dec : EqDecision SeqStatus.
Proof. solve_decision. Defined.

(** Calls on the driver bus. *)
Inductive BusCall :=
| BC_SendLimits (node : Z) (velocity_limit ilim : real) (repeats : Z)
| BC_ResendNodeConfig (node repeats : Z).

(** ** The plan *)

Record MoveState := mkMoveState {
  mv_spec : PreMove;
  mv_dur_ticks : Z;
  mv_elapsed : Z;
  mv_done : bool;
  mv_start_ticks : option Z;
}.

Record MoveToState := mkMoveToState {
  ms_joint : nat;
  ms_position_rad : real;
  ms_dur_ticks : Z;
  ms_timeout_ticks : Z;
  ms_elapsed : Z;
  ms_done : bool;
  ms_start_ticks : option Z;
  ms_target_ticks : Z;
  ms_streak : Z;
}.

Record StepPlan := mkStepPlan {
  sp_pre : list MoveState;
  sp_home_joints : list bool;
  sp_home_gripper : option GripperHomeMode;
  sp_move_to : list MoveToState;
  sp_post : list MoveState;
}.

Inductive Part := P_Pre | P_HomeStart | P_Home | P_MoveTo | P_Post | P_GlobalPost.

#[export] Instance Part_eq_dec : EqDecision Part.
Proof. solve_decision. Defined.

Record CalRun := mkCalRun { cal_sent : bool; cal_elapsed : Z }.

Definition plan_move (dt : real) (m : PreMove) : MoveState :=
  mkMoveState m (Z.max (ticks_of dt (move_duration m)) 1) 0 false None.

Definition plan_move_to (dt : real) (m : MoveTo) : MoveToState :=
  mkMoveToState (Z.to_nat (mt_joint m)) (mt_position_rad m) (Z.max (ticks_of dt (mt_duration_s m)) 1)
    (ticks_of dt (sf_add (mt_duration_s m) MOVE_TO_EXTRA_S)) 0 false None 0 0.

Definition home_mask (home : option HomeGroup) : list bool :=
  fold_left (fun mask j => <[Z.to_nat j := true]> mask)
    (match home with Some h => hg_joints h | None => [] end) (replicate MAX_JOINTS false).

Definition plan_step (dt : real) (s : SequenceStep) : StepPlan :=
  mkStepPlan (map (plan_move dt) (ss_pre_moves s)) (home_mask (ss_home s))
    (match ss_home s with Some h => hg_gripper h | None => None end)
    (map (plan_move_to dt) (ss_move_to s)) (map (plan_move dt) (ss_post_moves s)).

Definition plan_sequence (c : HomingConfig) (dt : real) : list StepPlan * list MoveState :=
  (map (plan_step dt) (hc_sequence c), map (plan_move dt) (hc_post_moves c)).

(** ** The state *)

Record HomingSystem := mkHoming {
  hs_dt : real;
  hs_params : list HomerParams;
  hs_gripper_homer_started : bool;
  hs_gripper_params : option HomerParams;
  hs_homers : list Homer;
  hs_steps : list StepPlan;
  hs_global_post : list MoveState;
  hs_eff_offset : list real;
  hs_node_of : list Z;
  hs_gripper_node : Z;
  hs_has_can_gripper : bool;
  hs_gripper_gear_r_m : real;
  hs_cal_timeout : Z;
  hs_cal_min_wait : Z;
  hs_active : bool;
  hs_elapsed_ticks : Z;
  hs_sequence_timeout_ticks : Z;
  hs_step_idx : nat;
  hs_part : Part;
  hs_statuses : list HomingJointStatus;
  hs_seeking_limits : list bool;
  hs_last_fw_cmd : option FirmwareGripperCommand;
  hs_cal : option CalRun;
  hs_cal_failed : bool;
  hs_endstop_ticks : option Z;
  hs_ticks_per_meter : option real;
  hs_check_ticks : Z;
  hs_check_left : Z;
}.

Definition system_eta (s : HomingSystem) : HomingSystem :=
  mkHoming (hs_dt s) (hs_params s) (hs_gripper_homer_started s) (hs_gripper_params s) (hs_homers s)
    (hs_steps s) (hs_global_post s) (hs_eff_offset s) (hs_node_of s) (hs_gripper_node s)
    (hs_has_can_gripper s) (hs_gripper_gear_r_m s) (hs_cal_timeout s) (hs_cal_min_wait s) (hs_active s)
    (hs_elapsed_ticks s) (hs_sequence_timeout_ticks s) (hs_step_idx s) (hs_part s) (hs_statuses s)
    (hs_seeking_limits s) (hs_last_fw_cmd s) (hs_cal s) (hs_cal_failed s) (hs_endstop_ticks s)
    (hs_ticks_per_meter s) (hs_check_ticks s) (hs_check_left s).

(** [self.field = v]. *)
Ltac put_system getter s v :=
  let t := eval unfold system_eta in (system_eta s) in
  lazymatch t with context T [getter s] => let t' := context T [v] in exact t' end.

Definition sput_params (v : list HomerParams) (s : HomingSystem) : HomingSystem := ltac:(put_system hs_params s v).
Definition sput_gripper_homer_started (v : bool) (s : HomingSystem) : HomingSystem := ltac:(put_system hs_gripper_homer_started s v).
Definition sput_gripper_params (v : option HomerParams) (s : HomingSystem) : HomingSystem := ltac:(put_system hs_gripper_params s v).
Definition sput_homers (v : list Homer) (s : HomingSystem) : HomingSystem := ltac:(put_system hs_homers s v).
Definition sput_steps (v : list StepPlan) (s : HomingSystem) : HomingSystem := ltac:(put_system hs_steps s v).
Definition sput_global_post (v : list MoveState) (s : HomingSystem) : HomingSystem := ltac:(put_system hs_global_post s v).
Definition sput_eff_offset (v : list real) (s : HomingSystem) : HomingSystem := ltac:(put_system hs_eff_offset s v).
Definition sput_has_can_gripper (v : bool) (s : HomingSystem) : HomingSystem := ltac:(put_system hs_has_can_gripper s v).
Definition sput_gripper_gear_r_m (v : real) (s : HomingSystem) : HomingSystem := ltac:(put_system hs_gripper_gear_r_m s v).
Definition sput_active (v : bool) (s : HomingSystem) : HomingSystem := ltac:(put_system hs_active s v).
Definition sput_elapsed_ticks (v : Z) (s : HomingSystem) : HomingSystem := ltac:(put_system hs_elapsed_ticks s v).
Definition sput_sequence_timeout_ticks (v : Z) (s : HomingSystem) : HomingSystem := ltac:(put_system hs_sequence_timeout_ticks s v).
Definition sput_step_idx (v : nat) (s : HomingSystem) : HomingSystem := ltac:(put_system hs_step_idx s v).
Definition sput_part (v : Part) (s : HomingSystem) : HomingSystem := ltac:(put_system hs_part s v).
Definition sput_statuses (v : list HomingJointStatus) (s : HomingSystem) : HomingSystem := ltac:(put_system hs_statuses s v).
Definition sput_seeking_limits (v : list bool) (s : HomingSystem) : HomingSystem := ltac:(put_system hs_seeking_limits s v).
Definition sput_last_fw_cmd (v : option FirmwareGripperCommand) (s : HomingSystem) : HomingSystem := ltac:(put_system hs_last_fw_cmd s v).
Definition sput_cal (v : option CalRun) (s : HomingSystem) : HomingSystem := ltac:(put_system hs_cal s v).
Definition sput_cal_failed (v : bool) (s : HomingSystem) : HomingSystem := ltac:(put_system hs_cal_failed s v).
Definition sput_endstop_ticks (v : option Z) (s : HomingSystem) : HomingSystem := ltac:(put_system hs_endstop_ticks s v).
Definition sput_ticks_per_meter (v : option real) (s : HomingSystem) : HomingSystem := ltac:(put_system hs_ticks_per_meter s v).
Definition sput_check_left (v : Z) (s : HomingSystem) : HomingSystem := ltac:(put_system hs_check_left s v).

(** Everything a tick works on: the sequencer, the decoded nodes and gripper reply,
    the conversions, the command array, the gripper slot, the bus calls so far. *)
Record Tick := mkTick {
  tk_sys : HomingSystem;
  tk_nodes : list NodeState;
  tk_reply : option GripperReply;
  tk_conv : list JointConversion;
  tk_cmds : list JointCommand;
  tk_gcmd : GripperCommand;
  tk_calls : list BusCall;
}.

Definition upd_sys (f : HomingSystem -> HomingSystem) (w : Tick) : Tick :=
  mkTick (f (tk_sys w)) (tk_nodes w) (tk_reply w) (tk_conv w) (tk_cmds w) (tk_gcmd w) (tk_calls w).
Definition put_node (n : Z) (v : NodeState) (w : Tick) : Tick :=
  mkTick (tk_sys w) (<[Z.to_nat n := v]> (tk_nodes w)) (tk_reply w) (tk_conv w) (tk_cmds w) (tk_gcmd w) (tk_calls w).
Definition put_conv (j : nat) (v : JointConversion) (w : Tick) : Tick :=
  mkTick (tk_sys w) (tk_nodes w) (tk_reply w) (<[j := v]> (tk_conv w)) (tk_cmds w) (tk_gcmd w) (tk_calls w).
Definition put_cmds (v : list JointCommand) (w : Tick) : Tick :=
  mkTick (tk_sys w) (tk_nodes w) (tk_reply w) (tk_conv w) v (tk_gcmd w) (tk_calls w).
Definition put_cmd (j : nat) (v : JointCommand) (w : Tick) : Tick := put_cmds (<[j := v]> (tk_cmds w)) w.
Definition put_gcmd (v : GripperCommand) (w : Tick) : Tick :=
  mkTick (tk_sys w) (tk_nodes w) (tk_reply w) (tk_conv w) (tk_cmds w) v (tk_calls w).
Definition call (c : BusCall) (w : Tick) : Tick :=
  mkTick (tk_sys w) (tk_nodes w) (tk_reply w) (tk_conv w) (tk_cmds w) (tk_gcmd w) (tk_calls w ++ [c]).

Definition node_at (w : Tick) (n : Z) : NodeState := nth (Z.to_nat n) (tk_nodes w) node_default.
Definition node_of (s : HomingSystem) (j : nat) : Z := nth j (hs_node_of s) 0.
Definition put_status (j : nat) (v : HomingJointStatus) (s : HomingSystem) : HomingSystem :=
  sput_statuses (<[j := v]> (hs_statuses s)) s.
Definition put_homer (j : nat) (v : Homer) (s : HomingSystem) : HomingSystem :=
  sput_homers (<[j := v]> (hs_homers s)) s.
Definition put_seeking (j : nat) (v : bool) (s : HomingSystem) : HomingSystem :=
  sput_seeking_limits (<[j := v]> (hs_seeking_limits s)) s.

(** ** The whole-sequence deadline *)

(** [u32::saturating_add] over a list of budgets. *)
Definition sat_add : Z -> Z -> Z := saturating_add 32.
Definition sat_sum (total : Z) (l : list Z) : Z := fold_left sat_add l total.

Definition moves_budget (dt : real) (ms : list MoveState) : Z :=
  let pre_post := ticks_of dt PRE_POST_TIMEOUT_S in
  sat_sum 0 (map (fun m => sat_add (mv_dur_ticks m) pre_post) ms).

Definition homer_budget (p : HomerParams) : Z :=
  sat_sum 0
    [hp_timeout_ticks p; hp_backoff_ticks p; Z.min (hp_ramp_ticks p * 4) (2 ^ 32 - 1); hp_dwell_ticks p;
     hp_pause_ticks p; hp_settle_ticks p; match hp_release p with Some r => rp_dur_ticks r | None => 0 end;
     hp_post_ticks p; hp_pre_post_timeout p].

(** The joints of a step's home group, with a mask of theirs. *)
Definition home_list (mask : list bool) : list nat :=
  List.filter (fun j => nth j mask false) (seq 0 MAX_JOINTS).

Definition step_budgets (s : HomingSystem) (step : StepPlan) : list Z :=
  let joints :=
    fold_left Z.max (omap (fun j => homer_budget <$> hs_params s !! j) (home_list (sp_home_joints step))) 0 in
  let gripper :=
    match sp_home_gripper step with
    | Some GHM_Motor => match hs_gripper_params s with Some p => homer_budget p | None => 0 end
    | Some GHM_Firmware => hs_cal_timeout s
    | None => 0
    end in
  [moves_budget (hs_dt s) (sp_pre step); Z.max joints gripper; sat_sum 0 (map ms_timeout_ticks (sp_move_to step));
   moves_budget (hs_dt s) (sp_post step)].

Definition sequence_budget_ticks (s : HomingSystem) : Z :=
  let total := sat_add (moves_budget (hs_dt s) (hs_global_post s)) (hs_check_ticks s) in
  let total := fold_left (fun total step => sat_sum total (step_budgets s step)) (hs_steps s) total in
  sat_add total (ticks_of (hs_dt s) SEQUENCE_SLACK_S).

(** ** Construction *)

(** What the sequencer reads of the configuration bundle. *)
Record HomingBundle := mkBundle {
  hb_dt : real;
  hb_joints : list JointConfig;
  hb_homing : HomingConfig;
  hb_gripper_node : Z;
  hb_tool : option ToolConfig;
}.

(** The post move's span is sized at its start, from at most the whole range. *)
Definition joint_params (dt : real) (joint : JointConfig) (jh : JointHoming) : HomerParams :=
  let p :=
    homer_params (jcf_node_id joint) jh (seek_timeout_s jh joint) (jcf_velocity_limit_ticks_s joint)
      (jcf_ilim_ma joint) dt in
  match jh_post_home jh with
  | None => p
  | Some post =>
      let speed := sf_max (sf_abs (phc_speed_ticks_s post)) real_1 in
      put_post_ticks
        (sf_ceil_as_uint 32 (sf_div (sf_div (sf_mul (f64_to_SF 0x3FF8000000000000) (range_ticks joint)) speed) dt)) p
  end.

Definition tool_params (gripper_node : Z) (dt : real) (tool : option ToolConfig) : option HomerParams :=
  match tool with
  | Some (mkToolConfig (Some d) (Some h) _) =>
      Some (homer_params gripper_node h (jh_timeout_s h) (gd_velocity_limit_ticks_s d) (gd_ilim_ma d) dt)
  | _ => None
  end.

Definition tool_driver (tool : option ToolConfig) : option GripperDriver :=
  match tool with Some g => tc_driver g | None => None end.

(** The placeholder for "no CAN gripper" is an arm joint's FSM. *)
Definition gripper_homer (params : list HomerParams) (gripper : option HomerParams) : list Homer :=
  match gripper, params with
  | Some p, _ => [homer_new p]
  | None, p :: _ => [homer_new p]
  | None, [] => []
  end.

(** [HomingSystem::new]. *)
Definition homing_new (b : HomingBundle) : HomingSystem :=
  let dt := hb_dt b in
  let params := map (fun '(j, jh) => joint_params dt j jh) (combine (hb_joints b) (hc_joints (hb_homing b))) in
  let gripper_params := tool_params (hb_gripper_node b) dt (hb_tool b) in
  let driver := tool_driver (hb_tool b) in
  let '(steps, global_post) := plan_sequence (for_tool (hb_tool b) (hb_homing b)) dt in
  let system :=
    mkHoming dt params false gripper_params (map homer_new params ++ gripper_homer params gripper_params)
      steps global_post
      (imap (fun i jh => default (jh_home_offset_rad jh) (effective_home_offset (hb_tool b) (hb_homing b) i))
         (hc_joints (hb_homing b)))
      (map jcf_node_id (hb_joints b)) (hb_gripper_node b) (bool_decide (is_Some driver))
      (match driver with Some d => gd_gear_r_m d | None => real_0 end)
      (Z.max (ticks_of dt CAL_TIMEOUT_S) 1) (ticks_of dt CAL_MIN_WAIT_S)
      false 0 1 0 P_Pre (replicate NUM_NODES HS_Idle) (replicate NUM_NODES false) None None false None None
      (match hc_reference_check_nm (hb_homing b) with [] => 0 | _ => Z.max (ticks_of dt REFERENCE_CHECK_S) 1 end) 0 in
  sput_sequence_timeout_ticks (sequence_budget_ticks system) system.

(** ** Operations between ticks *)

Definition hs_set_home_offset (joint : nat) (offset_rad : real) (s : HomingSystem) : HomingSystem :=
  sput_eff_offset (<[joint := offset_rad]> (hs_eff_offset s)) s.

Definition fail_reference (joint : nat) (s : HomingSystem) : HomingSystem := put_status joint HS_Failed s.

Definition retune (node : Z) (tune : DriveTune) (s : HomingSystem) : HomingSystem :=
  sput_params
    (map (fun p =>
            if hp_node p =? node
            then put_normal_limits (sf_to_f32 (f64_to_SF (dt_velocity_limit_ticks_s tune)))
                   (sf_to_f32 (f64_to_SF (dt_ilim_ma tune))) p
            else p) (hs_params s)) s.

Definition clear_faults (s : HomingSystem) : HomingSystem := sput_cal_failed false s.

Definition gripper_reference (s : HomingSystem) : option Z * option real := (hs_endstop_ticks s, hs_ticks_per_meter s).

(** The actuators with parameters: the arm, then the gripper motor. *)
Definition all_params (s : HomingSystem) : list HomerParams := hs_params s ++ option_list (hs_gripper_params s).

Definition reset_move (m : MoveState) : MoveState := mkMoveState (mv_spec m) (mv_dur_ticks m) 0 false None.
Definition reset_move_to (m : MoveToState) : MoveToState :=
  mkMoveToState (ms_joint m) (ms_position_rad m) (ms_dur_ticks m) (ms_timeout_ticks m) 0 false None (ms_target_ticks m) 0.
Definition reset_step (step : StepPlan) : StepPlan :=
  mkStepPlan (map reset_move (sp_pre step)) (sp_home_joints step) (sp_home_gripper step)
    (map reset_move_to (sp_move_to step)) (map reset_move (sp_post step)).

Definition reset_step_states (idx : nat) (s : HomingSystem) : HomingSystem :=
  sput_steps (alter reset_step idx (hs_steps s)) s.

Definition restored (p : HomerParams) : BusCall :=
  BC_SendLimits (hp_node p) (hp_normal_vel_limit p) (hp_normal_ilim p) LIMIT_REPEATS.

(** [HomingSystem::start] and the calls it makes. *)
Definition seq_start (s : HomingSystem) : HomingSystem * list BusCall :=
  let s := sput_active true s in
  let s := sput_part P_Pre (sput_step_idx 0%nat (sput_elapsed_ticks 0 s)) in
  let s := sput_statuses (replicate NUM_NODES HS_Idle) s in
  let s := sput_last_fw_cmd None (sput_cal_failed false (sput_cal None s)) in
  let s := sput_check_left (hs_check_ticks s) (sput_gripper_homer_started false s) in
  let s := sput_homers (map (hput_phase HP_Finished) (hs_homers s)) s in
  let s := sput_seeking_limits (replicate NUM_NODES false) (reset_step_states 0 s) in
  (s, map restored (all_params s)).

(** [HomingSystem::set_gripper]. *)
Definition set_gripper (homing : HomingConfig) (gripper : option ToolConfig) (dt : real) (s : HomingSystem)
  : HomingSystem :=
  let driver := tool_driver gripper in
  let s := sput_has_can_gripper (bool_decide (is_Some driver)) s in
  let s := sput_gripper_gear_r_m (match driver with Some d => gd_gear_r_m d | None => real_0 end) s in
  let s := sput_gripper_params (tool_params (hs_gripper_node s) dt gripper) s in
  let s := sput_homers (take GRIPPER_SLOT (hs_homers s) ++ gripper_homer (hs_params s) (hs_gripper_params s)) s in
  let s := sput_ticks_per_meter None (sput_endstop_ticks None s) in
  let s := put_status GRIPPER_SLOT HS_Idle s in
  let '(steps, global_post) := plan_sequence (for_tool gripper homing) dt in
  let s := sput_global_post global_post (sput_steps steps s) in
  sput_sequence_timeout_ticks (sequence_budget_ticks s) s.

Definition restore_all (s : HomingSystem) : list BusCall :=
  map (fun p => BC_ResendNodeConfig (hp_node p) 1) (hs_params s) ++
  (if hs_has_can_gripper s then [BC_ResendNodeConfig (hs_gripper_node s) 1] else []).

(** [HomingSystem::abort] and the calls it makes. *)
Definition seq_abort (s : HomingSystem) : HomingSystem * list BusCall :=
  if negb (hs_active s) then (s, [])
  else
    let s := sput_cal None (sput_statuses (replicate NUM_NODES HS_Idle) (sput_active false s)) in
    (s, restore_all s).

(** ** The published status *)

Record HomingStatus := mkHomingStatus {
  hst_active : bool;
  hst_sequence_step : Z;
  hst_per_joint : list HomingJointStatus;
  hst_phase : list RtHomingPhase;
  hst_effective_current_limit_ma : list real;
}.

Definition effective_limit (s : HomingSystem) (i : nat) (p : HomerParams) : real :=
  if hs_active s && nth i (hs_seeking_limits s) false then sf_to_f32 (hp_current_ma p) else hp_normal_ilim p.

Definition slot_phase (s : HomingSystem) (i : nat) : RtHomingPhase :=
  if (i =? GRIPPER_SLOT)%nat && negb (hs_gripper_homer_started s) then RHP_Idle
  else if bool_decide (nth i (hs_statuses s) HS_Idle = HS_Idle) then RHP_Idle
  else match hs_homers s !! i with Some h => public_phase h | None => RHP_Idle end.

(** [HomingSystem::status]. *)
Definition seq_status (s : HomingSystem) : HomingStatus :=
  mkHomingStatus (hs_active s) (Z.min (Z.of_nat (hs_step_idx s)) 255) (hs_statuses s)
    (map (slot_phase s) (seq 0 NUM_NODES))
    (map (fun i =>
            match all_params s !! i with Some p => effective_limit s i p | None => real_0 end) (seq 0 NUM_NODES)).

(** ** Current limits *)

Definition move_seeks (m : MoveState) : list nat :=
  if mv_done m then []
  else match mv_spec m with
       | PM_Nudge j _ _ | PM_Position j _ _ => [Z.to_nat j]
       | PM_Idle _ _ | PM_GripperMove _ _ _ _ _ _ _ _ => []
       end.

(** The actuators the running part seeks with. *)
Definition part_seeks (s : HomingSystem) : list nat :=
  match hs_steps s !! hs_step_idx s with
  | Some step =>
      match hs_part s with
      | P_Pre => concat (map move_seeks (sp_pre step))
      | P_Post => concat (map move_seeks (sp_post step))
      | P_GlobalPost => concat (map move_seeks (hs_global_post s))
      | P_HomeStart | P_Home =>
          home_list (sp_home_joints step) ++ (match sp_home_gripper step with Some _ => [GRIPPER_SLOT] | None => [] end)
      | P_MoveTo => concat (map (fun m => if ms_done m then [] else [ms_joint m]) (sp_move_to step))
      end
  | None => concat (map move_seeks (hs_global_post s))
  end.

(** One actuator's limit, when what it seeks with changes. *)
Definition phase_limit (seeks : list nat) (w : Tick) (ip : nat * HomerParams) : Tick :=
  let '(i, p) := ip in
  let s := tk_sys w in
  let seeking := bool_decide (i ∈ seeks) && negb (bool_decide (nth i (hs_statuses s) HS_Idle = HS_Done)) in
  if Bool.eqb seeking (nth i (hs_seeking_limits s) false) then w
  else
    let limit := if seeking then sf_to_f32 (hp_current_ma p) else hp_normal_ilim p in
    upd_sys (put_seeking i seeking) (call (BC_SendLimits (hp_node p) (hp_normal_vel_limit p) limit LIMIT_REPEATS) w).

(** [apply_phase_limits]. *)
Definition apply_phase_limits (w : Tick) : Tick :=
  let ps := all_params (tk_sys w) in
  fold_left (phase_limit (part_seeks (tk_sys w))) (combine (seq 0 (length ps)) ps) w.

(** ** The end of a sequence *)

Definition idle_gripper (s : HomingSystem) : GripperCommand :=
  if hs_has_can_gripper s then GC_Motor jc_idle else GC_NoGripper.

(** [HomingSystem::fail]: nothing but idle is commanded on the failure tick. *)
Definition seq_fail (w : Tick) : Tick * SeqStatus :=
  let w := put_cmds (map (fun _ => jc_idle) (tk_cmds w)) w in
  let w := put_gcmd (idle_gripper (tk_sys w)) w in
  let w := upd_sys (sput_active false) w in
  (fold_left (fun w c => call c w) (restore_all (tk_sys w)) w, SS_Failed).

(** ** Moves *)

Definition in_place (node : NodeState) (target : Z) : bool := in_position (ns_position_ticks node) target.

Definition mput_elapsed (v : Z) (m : MoveState) : MoveState :=
  mkMoveState (mv_spec m) (mv_dur_ticks m) v (mv_done m) (mv_start_ticks m).
Definition mput_done (v : bool) (m : MoveState) : MoveState :=
  mkMoveState (mv_spec m) (mv_dur_ticks m) (mv_elapsed m) v (mv_start_ticks m).
Definition mput_start (v : option Z) (m : MoveState) : MoveState :=
  mkMoveState (mv_spec m) (mv_dur_ticks m) (mv_elapsed m) (mv_done m) v.

(** The profile's command from where the move started. *)
Definition profile_command (start target elapsed dur : Z) (dt : real) : JointCommand :=
  let '(pos, vel) := hermite (sf_of_int start) (sf_of_int target) elapsed dur dt in
  jc_position (trunc_to_wire pos) (trunc_to_wire vel) 0.

Definition conv_at (w : Tick) (j : nat) : option JointConversion := tk_conv w !! j.
Definition target_at (w : Tick) (j : nat) (rad : real) : Z :=
  match conv_at w j with Some c => motor_ticks c rad | None => 0 end.

(** [tick_move]: the move, and whether it is done or the joint whose positioning failed. *)
Definition tick_move (m : MoveState) (w : Tick) : MoveState * Tick * (bool + nat) :=
  if mv_done m then (m, w, inl true)
  else
    let m := mput_elapsed (mv_elapsed m + 1) m in
    let late := mput_done (mv_dur_ticks m <=? mv_elapsed m) m in
    match mv_spec m with
    | PM_Idle joint _ =>
        let cmd := if mv_elapsed m <=? IDLE_CMD_REPEATS then jc_drop_to_idle else jc_encoder_poll in
        (late, put_cmd (Z.to_nat joint) cmd w, inl (mv_done late))
    | PM_Nudge joint speed _ =>
        let w :=
          if mv_elapsed m <=? mv_dur_ticks m
          then put_cmd (Z.to_nat joint) (jc_velocity (trunc_to_wire speed) 0) w else w in
        (late, w, inl (mv_done late))
    | PM_Position joint position_rad _ =>
        let j := Z.to_nat joint in
        let s := tk_sys w in
        let node := node_at w (node_of s j) in
        let m := match mv_start_ticks m with None => mput_start (ns_position_ticks node) m | Some _ => m end in
        let target := target_at w j position_rad in
        let '(m, w) :=
          match mv_start_ticks m with
          | Some start =>
              (mput_done ((mv_dur_ticks m <=? mv_elapsed m) && in_place node target) m,
               put_cmd j (profile_command start target (mv_elapsed m) (mv_dur_ticks m) (hs_dt s)) w)
          | None => (m, w)
          end in
        let pre_post := match hs_params s with p :: _ => hp_pre_post_timeout p | [] => 0 end in
        if negb (mv_done m) && (mv_elapsed m >? sat_add (mv_dur_ticks m) pre_post) then (m, w, inr j)
        else (m, w, inl (mv_done m))
    | PM_GripperMove position speed current_ma activate action estop release_dir _ =>
        let cmd := mkFw position speed current_ma activate action estop release_dir in
        let w := upd_sys (sput_last_fw_cmd (Some cmd)) (put_gcmd (GC_Firmware cmd) w) in
        (late, w, inl (mv_done late))
    end.

(** [tick_move_to]; [false] is its [Err]. *)
Definition tick_move_to (m : MoveToState) (w : Tick) : MoveToState * Tick * option bool :=
  if ms_done m then (m, w, Some true)
  else
    let s := tk_sys w in
    let j := ms_joint m in
    let node := node_at w (node_of s j) in
    let elapsed := ms_elapsed m + 1 in
    let '(start, target) :=
      match ms_start_ticks m with
      | Some start => (Some start, ms_target_ticks m)
      | None => (ns_position_ticks node, target_at w j (ms_position_rad m))
      end in
    let in_pos_streak := match hs_params s !! j with Some p => hp_in_pos_streak p | None => 0 end in
    let '(streak, done, w) :=
      match start with
      | Some from =>
          let streak := if in_place node target then ms_streak m + 1 else 0 in
          (streak, (ms_dur_ticks m <=? elapsed) && (in_pos_streak <=? streak),
           put_cmd j (profile_command from target elapsed (ms_dur_ticks m) (hs_dt s)) w)
      | None => (ms_streak m, false, w)
      end in
    let m :=
      mkMoveToState j (ms_position_rad m) (ms_dur_ticks m) (ms_timeout_ticks m) elapsed done start target streak in
    if negb done && (elapsed >? ms_timeout_ticks m) then (m, w, None) else (m, w, Some done).

(** The moves of a part, in parallel: whether all are done, whether one failed. *)
Fixpoint tick_moves (ms : list MoveState) (w : Tick) : list MoveState * Tick * bool * bool :=
  match ms with
  | [] => ([], w, true, false)
  | m :: ms =>
      let '(m, w, r) := tick_move m w in
      let '(done, w) :=
        match r with inl done => (done, w) | inr j => (true, upd_sys (put_status j HS_Failed) w) end in
      let failed := match r with inl _ => false | inr _ => true end in
      let '(ms, w, all_done, any_failed) := tick_moves ms w in
      (m :: ms, w, done && all_done, failed || any_failed)
  end.

Fixpoint tick_move_tos (ms : list MoveToState) (w : Tick) : list MoveToState * Tick * bool * bool :=
  match ms with
  | [] => ([], w, true, false)
  | m :: ms =>
      let '(m, w, r) := tick_move_to m w in
      let w := match r with Some _ => w | None => upd_sys (put_status (ms_joint m) HS_Failed) w end in
      let '(ms, w, all_done, any_failed) := tick_move_tos ms w in
      (m :: ms, w, default true r && all_done, negb (bool_decide (is_Some r)) || any_failed)
  end.

(** ** Homing a group *)

Definition homer_at (s : HomingSystem) (j : nat) : option Homer := hs_homers s !! j.
Definition homer_running (s : HomingSystem) (j : nat) : bool :=
  match homer_at s j with Some h => running h | None => false end.

(** An actuator's reference was taken: normal limits again, no longer seeking, done. *)
Definition referenced (j : nat) (p : HomerParams) (w : Tick) : Tick :=
  upd_sys (fun s => put_status j HS_Done (put_seeking j false s)) (call (restored p) w).

(** What a reference does to an arm joint. *)
Definition joint_referenced (j : nat) (p : HomerParams) (latched : Z) (w : Tick) : Tick :=
  let w :=
    match conv_at w j with
    | Some c => put_conv j (set_home latched (nth j (hs_eff_offset (tk_sys w)) real_0) c) w
    | None => w
    end in
  let w := referenced j p w in
  match hp_post p, homer_at (tk_sys w) j with
  | Some post, Some h => upd_sys (put_homer j (hput_post_target (target_at w j (pp_position_rad post)) h)) w
  | _, _ => w
  end.

(** One joint of the group: the tick and whether it failed. *)
Definition home_joint (j : nat) (w : Tick) : Tick * bool :=
  let s := tk_sys w in
  match homer_at s j, hs_params s !! j with
  | Some h, Some p =>
      if negb (running h) then (w, false)
      else
        let '(h, node, cmd, ev) := homer_tick p (node_at w (hp_node p)) h in
        let w := put_cmd j cmd (put_node (hp_node p) node (upd_sys (put_homer j h) w)) in
        match ev with
        | Some (HE_Reference latched) => (joint_referenced j p latched w, false)
        | Some HE_Failed => (upd_sys (put_status j HS_Failed) w, true)
        | None => (w, false)
        end
  | _, _ => (w, false)
  end.

Fixpoint home_joints (js : list nat) (w : Tick) : Tick * bool :=
  match js with
  | [] => (w, false)
  | j :: js =>
      let '(w, failed) := home_joint j w in
      let '(w, any_failed) := home_joints js w in (w, failed || any_failed)
  end.

(** The gripper as a motor. *)
Definition home_gripper_motor (w : Tick) : Tick * bool :=
  let s := tk_sys w in
  match homer_at s GRIPPER_SLOT, hs_gripper_params s with
  | Some h, Some gp =>
      if negb (running h) then (w, false)
      else
        let '(h, node, cmd, ev) := homer_tick gp (node_at w (hp_node gp)) h in
        let w := put_gcmd (GC_Motor cmd) (put_node (hp_node gp) node (upd_sys (put_homer GRIPPER_SLOT h) w)) in
        match ev with
        | Some (HE_Reference latched) =>
            let per_meter :=
              sf_div GRIPPER_ENCODER_COUNTS (sf_mul (sf_mul (sf_of_int 4) PI) (hs_gripper_gear_r_m (tk_sys w))) in
            let w := upd_sys (fun s => sput_ticks_per_meter (Some per_meter) (sput_endstop_ticks (Some latched) s)) w in
            (referenced GRIPPER_SLOT gp w, false)
        | Some HE_Failed => (upd_sys (put_status GRIPPER_SLOT HS_Failed) w, true)
        | None => (w, false)
        end
  | _, _ => (w, false)
  end.

(** The gripper's firmware calibration: one frame, then polls until it reports or times out. *)
Definition home_gripper_firmware (w : Tick) : Tick * bool :=
  let s := tk_sys w in
  match hs_cal s with
  | None => (w, false)
  | Some cal =>
      let elapsed := cal_elapsed cal + 1 in
      if negb (cal_sent cal) then
        (put_gcmd GC_Calibrate (upd_sys (sput_cal (Some (mkCalRun true elapsed))) w), false)
      else
        let w := put_gcmd GC_FirmwarePoll (upd_sys (sput_cal (Some (mkCalRun true elapsed))) w) in
        let calibrated := match tk_reply w with Some r => gr_calibrated r | None => false end in
        if (hs_cal_min_wait s <=? elapsed) && calibrated then
          (upd_sys (fun s => sput_cal None (put_status GRIPPER_SLOT HS_Done s)) w, false)
        else if hs_cal_timeout s <=? elapsed then
          (upd_sys (fun s => sput_cal None (sput_cal_failed true (put_status GRIPPER_SLOT HS_Failed s))) w, true)
        else (w, false)
  end.

Definition home_gripper (mode : option GripperHomeMode) (w : Tick) : Tick * bool :=
  match mode with
  | Some GHM_Motor => home_gripper_motor w
  | Some GHM_Firmware => home_gripper_firmware w
  | None => (w, false)
  end.

(** Every FSM of the group is finished. *)
Definition group_done (step : StepPlan) (s : HomingSystem) : bool :=
  forallb (fun j => negb (homer_running s j)) (home_list (sp_home_joints step)) &&
  match sp_home_gripper step with
  | Some GHM_Motor => negb (homer_running s GRIPPER_SLOT)
  | Some GHM_Firmware => negb (bool_decide (is_Some (hs_cal s)))
  | None => true
  end.

Definition tick_home (step : StepPlan) (w : Tick) : Tick * SeqStatus :=
  let '(w, failed) := home_joints (home_list (sp_home_joints step)) w in
  let '(w, gripper_failed) := home_gripper (sp_home_gripper step) w in
  if failed || gripper_failed then seq_fail w
  else if group_done step (tk_sys w) then (upd_sys (sput_part P_MoveTo) w, SS_Running)
  else (w, SS_Running).

(** The first tick of the group only starts its FSMs. *)
Definition start_homer (j : nat) (s : HomingSystem) : HomingSystem :=
  put_status j HS_Running
    (match homer_at s j with Some h => put_homer j (homer_start h) s | None => s end).

Definition start_group (step : StepPlan) (s : HomingSystem) : HomingSystem :=
  let s := fold_left (fun s j => start_homer j s) (home_list (sp_home_joints step)) s in
  let s :=
    match sp_home_gripper step with
    | Some GHM_Motor =>
        match hs_gripper_params s with
        | Some _ => sput_gripper_homer_started true (start_homer GRIPPER_SLOT s)
        | None => s
        end
    | Some GHM_Firmware => put_status GRIPPER_SLOT HS_Running (sput_cal (Some (mkCalRun false 0)) s)
    | None => s
    end in
  sput_part P_Home s.

(** ** One tick *)

Definition step_at (s : HomingSystem) : option StepPlan := hs_steps s !! hs_step_idx s.
Definition put_step (step : StepPlan) (s : HomingSystem) : HomingSystem :=
  sput_steps (<[hs_step_idx s := step]> (hs_steps s)) s.

(** The trailing moves, the hold of the reference check, the end. *)
Definition tick_global_post (w : Tick) : Tick * SeqStatus :=
  let '(ms, w, all_done, failed) := tick_moves (hs_global_post (tk_sys w)) w in
  let w := upd_sys (sput_global_post ms) w in
  if failed then seq_fail w
  else if negb all_done then (w, SS_Running)
  else
    let s := tk_sys w in
    if hs_check_left s >? 0 then (upd_sys (sput_check_left (hs_check_left s - 1)) w, SS_Checking)
    else (upd_sys (sput_active false) w, SS_Complete).

Definition tick_pre (step : StepPlan) (w : Tick) : Tick * SeqStatus :=
  let '(ms, w, all_done, failed) := tick_moves (sp_pre step) w in
  let w := upd_sys (put_step (mkStepPlan ms (sp_home_joints step) (sp_home_gripper step) (sp_move_to step) (sp_post step))) w in
  if failed then seq_fail w
  else (if all_done then upd_sys (sput_part P_HomeStart) w else w, SS_Running).

Definition tick_part_move_to (step : StepPlan) (w : Tick) : Tick * SeqStatus :=
  let '(ms, w, all_done, failed) := tick_move_tos (sp_move_to step) w in
  let w := upd_sys (put_step (mkStepPlan (sp_pre step) (sp_home_joints step) (sp_home_gripper step) ms (sp_post step))) w in
  if failed then seq_fail w
  else (if all_done then upd_sys (sput_part P_Post) w else w, SS_Running).

(** On to the next step, or to the trailing moves. *)
Definition next_step (s : HomingSystem) : HomingSystem :=
  let s := sput_step_idx (S (hs_step_idx s)) s in
  if (hs_step_idx s <? length (hs_steps s))%nat then sput_part P_Pre (reset_step_states (hs_step_idx s) s)
  else sput_part P_GlobalPost (sput_global_post (map reset_move (hs_global_post s)) s).

Definition tick_post_moves (step : StepPlan) (w : Tick) : Tick * SeqStatus :=
  let '(ms, w, all_done, failed) := tick_moves (sp_post step) w in
  let w := upd_sys (put_step (mkStepPlan (sp_pre step) (sp_home_joints step) (sp_home_gripper step) (sp_move_to step) ms)) w in
  if failed then seq_fail w
  else (if all_done then upd_sys next_step w else w, SS_Running).

(** Past the deadline every running FSM fails. *)
Definition deadline_passed (s : HomingSystem) : HomingSystem :=
  let timed_out i := bool_decide (nth i (hs_statuses s) HS_Idle = HS_Running) in
  let s' := sput_homers (imap (fun i h => if timed_out i then homer_fail h else h) (hs_homers s)) s in
  sput_statuses (imap (fun i st => if timed_out i && (i <? length (hs_homers s))%nat then HS_Failed else st) (hs_statuses s)) s'.

(** The frames of a tick before the sequence says otherwise. *)
Definition liveness_defaults (w : Tick) : Tick :=
  let s := tk_sys w in
  put_gcmd
    (if hs_has_can_gripper s then
       match hs_last_fw_cmd s with Some cmd => GC_Firmware cmd | None => GC_FirmwarePoll end
     else GC_NoGripper)
    (put_cmds (map (fun _ => jc_idle) (tk_cmds w)) w).

(** [HomingSystem::tick]. *)
Definition seq_tick (w : Tick) : Tick * SeqStatus :=
  let w := liveness_defaults w in
  if negb (hs_active (tk_sys w)) then (w, SS_Inactive)
  else
    let w := upd_sys (fun s => sput_elapsed_ticks (hs_elapsed_ticks s + 1) s) w in
    if hs_sequence_timeout_ticks (tk_sys w) <=? hs_elapsed_ticks (tk_sys w) then
      seq_fail (put_gcmd (idle_gripper (tk_sys w)) (upd_sys deadline_passed w))
    else
      let w := apply_phase_limits w in
      match step_at (tk_sys w) with
      | None => tick_global_post w
      | Some step =>
          match hs_part (tk_sys w) with
          | P_Pre => tick_pre step w
          | P_HomeStart => (upd_sys (start_group step) w, SS_Running)
          | P_Home => tick_home step w
          | P_MoveTo => tick_part_move_to step w
          | P_Post => tick_post_moves step w
          | P_GlobalPost => tick_global_post w
          end
      end.

(** ** Runs *)

(** What a tick reads of the bus. *)
Record Readings := mkReadings { rd_nodes : list NodeState; rd_reply : option GripperReply }.

(** What a tick says: its status, the commands, the bus calls. *)
Record TickOut := mkOut {
  to_status : SeqStatus;
  to_cmds : list JointCommand;
  to_gcmd : GripperCommand;
  to_calls : list BusCall;
}.

(** Ticks one after the other; the caller's arrays are refilled by each. *)
Fixpoint seq_run (s : HomingSystem) (conv : list JointConversion) (ticks : list Readings)
  : HomingSystem * list TickOut :=
  match ticks with
  | [] => (s, [])
  | r :: ticks =>
      let '(w, st) :=
        seq_tick (mkTick s (rd_nodes r) (rd_reply r) conv (replicate MAX_JOINTS jc_idle) GC_NoGripper []) in
      let '(s, out) := seq_run (tk_sys w) (tk_conv w) ticks in
      (s, mkOut st (tk_cmds w) (tk_gcmd w) (tk_calls w) :: out)
  end.

(** Bus calls leave the sequencer alone. *)
Lemma calls_sys cs w : tk_sys (fold_left (fun w c => call c w) cs w) = tk_sys w.
Proof. revert w. induction cs as [|c cs IH]; intros w; [done|]. cbn. by rewrite IH. Qed.
