(* ===== verification/HomingExample.v ===== *)
(** * HomingExample: a small arm to home

    One tenth of a second a tick: a hall joint, a stall joint homed in two passes,
    readings for each, and six-joint bundles with their runs. *)
From Stdlib Require Import SpecFloat.
From S2P Require Import Prelude F64 BusTypes Ring RtState CoreState Convert HomingConfig Homing HomingSeq.

Definition num (n : Z) : real := sf_of_int n.
Definition tenth : real := f64_to_SF 0x3FB999999999999A.

Definition hall_joint : JointHoming :=
  mkJointHoming Hall (num 1000) 0 (num 300) (num 2) (num 0) false 0 None None (num 0) false.
Definition hall_params : HomerParams := homer_params 0 hall_joint (num 2) (num 5000) (num 900) tenth.

Definition stall_joint (timeout_s : Z) : JointHoming :=
  mkJointHoming Stall (num 1000) 1 (num 300) (num timeout_s) tenth true 50
    (Some (mkReleaseConfig (num 0) tenth (num 1))) None (num 0) false.
Definition stall_params : HomerParams := homer_params 0 (stall_joint 2) (num 2) (num 5000) (num 900) tenth.

(** Readings: a node at a position, one that pushes against something, one that answers for its sensor. *)
Definition reading (x current : Z) (hall : option HallState) : NodeState :=
  mkNodeState (Some x) 0 (Some 0) (Some current) None None None None None false hall false [] 0.
Definition at_position (x : Z) : NodeState := reading x 0 None.
Definition pushing (x : Z) : NodeState := reading x 250 None.
Definition at_hall (x : Z) (on_band : bool) : NodeState := reading x 0 (Some (mkHallState (negb on_band) false false)).

(** A hall joint that reaches its sensor, a stall joint that pushes from the start. *)
Definition hall_ticks : list (Z * NodeState) :=
  map (pair 0) (replicate 7 (at_hall 10 false) ++ replicate 9 (at_hall 5 true)).
Definition stall_ticks : list (Z * NodeState) := map (pair 0) (replicate 60 (pushing 10)).

Definition small_joint (node : Z) : JointConfig :=
  mkJointConfig node 14 (num 1) (num 0) tenth (num 5000) (num 900).

(** Six joints homed by one step; the first one by [first]. *)
Definition small_homing (first : JointHoming) : HomingConfig :=
  mkHomingConfig (first :: replicate 5 hall_joint)
    [mkStep [] (Some (mkHomeGroup [0; 1; 2; 3; 4; 5] None)) [] []] [] [].
Definition small_bundle (first : JointHoming) : HomingBundle :=
  mkBundle tenth (map small_joint [0; 1; 2; 3; 4; 5]) (small_homing first) 6 None.

Definition small_conv : list JointConversion := replicate 6 (conv_new 14 (num 1) 0 0 (num 0)).

(** Every node gives the same reading. *)
Definition all_nodes (n : NodeState) : Readings := mkReadings (replicate 7 n) None.
Definition hall_run : list Readings := replicate 9 (all_nodes (at_hall 10 false)) ++ replicate 9 (all_nodes (at_hall 5 true)).

(** A gripper move and a gripper homing in the sequence, and a tool without a driver. *)
Definition gripper_homing : HomingConfig :=
  mkHomingConfig (replicate 6 hall_joint)
    [mkStep [PM_GripperMove 255 10 400 true true false false tenth] (Some (mkHomeGroup [] (Some GHM_Firmware))) [] [];
     mkStep [] (Some (mkHomeGroup [0; 1; 2; 3; 4; 5] None)) [] []] [] [].

Lemma for_tool_stays_valid_witness :
  length (hc_sequence (for_tool (Some (mkToolConfig None None [])) gripper_homing)) = 1%nat /\
  validate_homing 6 (for_tool (Some (mkToolConfig None None [])) gripper_homing) = None.
Proof.
  split; [vm_compute; reflexivity|]. apply for_tool_stays_valid. vm_compute. reflexivity.
Defined.
