(* ===== verification/HomingProps.v ===== *)
(** * HomingProps: what the referencing of one joint guarantees

    The sequence of a joint ends within a bound computed from its parameters,
    whatever the bus says; a reference is a reading taken after the endstop was
    found, and finding it takes evidence of the approach itself. *)
From Stdlib Require Import SpecFloat.
From S2P Require Import Prelude F64 BusTypes RtState Convert HomingConfig Homing HomingExample.

(** Splits every branch left in the state of a tick. *)
Ltac branches :=
  repeat match goal with
         | |- context [if ?c then _ else _] =>
             let E := fresh "E" in destruct c eqn:E; cbn -[Z.mul Z.min Z.pow]
         end.

(** ** Runs *)

(** What [HomerParams::from_config] guarantees of its result. *)
Record params_ok (p : HomerParams) : Prop := {
  po_timeout : 1 <= hp_timeout_ticks p < 2 ^ 32 - 1;
  po_backoff : 0 <= hp_backoff_ticks p;
  po_dwell : 1 <= hp_dwell_ticks p;
  po_pause : 1 <= hp_pause_ticks p;
  po_ramp : 1 <= hp_ramp_ticks p;
  po_settle : 1 <= hp_settle_ticks p;
  po_post : 0 <= hp_pre_post_timeout p;
  po_stall : 1 <= hp_stall_needed p;
  po_guard : 0 <= hp_startup_guard p;
  po_window : 2 <= hp_cur_window p;
  po_needed : 1 <= hp_cur_needed p;
  po_release : forall r, hp_release p = Some r -> 1 <= rp_sample_tick r <= rp_dur_ticks r;
  po_hall : hp_strategy p = Hall -> hp_two_pass p = false /\ hp_release p = None;
}.

Lemma round_range w x : 0 <= w -> 0 <= sf_round_as_uint w x <= 2 ^ w - 1.
Proof.
  intros. unfold sf_round_as_uint. assert (1 <= 2 ^ w) by (apply (Z.pow_le_mono_r 2 0 w); lia).
  destruct (sf_round x); [|destruct x as [|[]| |]]; lia.
Qed.

Lemma ticks_range dt s : 0 <= ticks_of dt s <= 2 ^ 32 - 1.
Proof. by apply round_range. Qed.

(** The parameters read from a configuration whose seek timeout is not absurd. *)
Lemma homer_params_ok node jh seek vel ilim dt :
  ticks_of dt seek < 2 ^ 32 - 1 -> params_ok (homer_params node jh seek vel ilim dt).
Proof.
  intros Hs. unfold homer_params.
  constructor; cbn -[Z.pow Z.max];
    repeat match goal with |- context [ticks_of ?a ?b] => pose proof (ticks_range a b); generalize dependent (ticks_of a b); intros end;
    try lia.
  - destruct (is_stall _); [|done]. destruct (jh_release jh) as [rc|]; [|done]. cbn. intros r [= <-].
    unfold release_plan. cbn -[Z.max Z.min]. lia.
  - intros ->. cbn. by rewrite andb_false_r.
Qed.

(** A tick, its post-home move aimed at [target] first (what a reference does). *)
Definition homer_step (p : HomerParams) (target : Z) (n : NodeState) (h : Homer)
  : Homer * (JointCommand * option HomerEvent) :=
  let '(h1, _, cmd, ev) := homer_tick p n (hput_post_target target h) in (h1, (cmd, ev)).

(** Ticks one after the other, each on what the bus decoded by then. *)
Fixpoint homer_run (p : HomerParams) (h : Homer) (ticks : list (Z * NodeState))
  : Homer * list (JointCommand * option HomerEvent) :=
  match ticks with
  | [] => (h, [])
  | (target, n) :: ticks =>
      let '(h1, o) := homer_step p target n h in
      let '(h2, out) := homer_run p h1 ticks in (h2, o :: out)
  end.

(** ** Termination *)

(** No profile of the post-home move is longer than [b] ticks on these readings. *)
Definition post_bounded (p : HomerParams) (target b : Z) (n : NodeState) : Prop :=
  forall post start, hp_post p = Some post -> ns_position_ticks n = Some start -> post_span p post target start <= b.

Definition release_ticks (p : HomerParams) : Z :=
  match hp_release p with Some r => rp_dur_ticks r | None => 0 end.

(** Ticks left to a phase and to all that can follow it. *)
Section measure.
Context (p : HomerParams) (b : Z).

Definition post_budget : Z := b + hp_pre_post_timeout p + 2.
Definition settle_budget : Z := post_budget + 2 * hp_settle_ticks p + 1.
Definition final_budget : Z := settle_budget + 2 * hp_ramp_ticks p + release_ticks p + 1.
Definition approach_budget : Z := final_budget + hp_timeout_ticks p + 2.
Definition pause_budget : Z := approach_budget + hp_pause_ticks p + 1.
Definition backoff_budget : Z := pause_budget + hp_backoff_ticks p + hp_ramp_ticks p + 1.
Definition dwell_budget : Z := backoff_budget + hp_dwell_ticks p + 1.

(** The whole attempt: the second approach has a timeout of its own. *)
Definition attempt_budget : Z :=
  (if hp_two_pass p then dwell_budget else final_budget) + hp_timeout_ticks p + 2.

Definition ticks_left (h : Homer) : Z :=
  match h_phase h with
  | HP_Finished | HP_Failed => 0
  | HP_PostMove => post_budget - h_elapsed h
  | HP_Settle => settle_budget - h_elapsed h
  | HP_Brake => settle_budget + hp_ramp_ticks p + 1 - h_elapsed h
  | HP_Release => final_budget - h_elapsed h
  | HP_Approach | HP_Preclear =>
      (if (h_pass h =? 1) && hp_two_pass p then dwell_budget else final_budget)
      + hp_timeout_ticks p + 2 - (h_spent h + h_elapsed h)
  | HP_Pause => pause_budget - h_elapsed h
  | HP_Backoff => backoff_budget - h_elapsed h
  | HP_Dwell => dwell_budget - h_elapsed h
  end.

(** What the phases keep between ticks. *)
Record homer_ok (h : Homer) : Prop := {
  ho_pass : h_pass h = 1 \/ h_pass h = 2;
  ho_spent : 0 <= h_spent h <= hp_timeout_ticks p;
  ho_elapsed : 0 <= h_elapsed h;
  ho_hits : length (h_pass_hits h) = 2%nat;
  ho_post_dur : 0 <= h_post_dur_ticks h <= b;
  ho_phase :
    match h_phase h with
    | HP_Approach | HP_Preclear => h_spent h + h_elapsed h <= hp_timeout_ticks p
    | HP_Dwell => h_elapsed h < hp_dwell_ticks p
    | HP_Backoff => h_elapsed h < hp_backoff_ticks p + hp_ramp_ticks p
    | HP_Pause => h_elapsed h < hp_pause_ticks p
    | HP_Release => h_elapsed h < 2 * hp_ramp_ticks p + release_ticks p /\ is_Some (hp_release p)
    | HP_Brake => h_elapsed h < hp_ramp_ticks p
    | HP_Settle => h_elapsed h < 2 * hp_settle_ticks p
    | HP_PostMove => h_elapsed h <= b + hp_pre_post_timeout p /\ is_Some (hp_post p)
    | HP_Finished | HP_Failed => True
    end;
}.

Context (Hp : params_ok p) (Hb : 0 <= b).

Lemma release_nonneg : 0 <= release_ticks p.
Proof. unfold release_ticks. destruct (hp_release p) as [r|] eqn:E; [|done]. pose proof (po_release _ Hp _ E). lia. Qed.

Ltac budgets :=
  unfold attempt_budget, dwell_budget, backoff_budget, pause_budget, approach_budget, final_budget,
    settle_budget, post_budget in *.

Lemma left_running h : homer_ok h -> running h = true -> 0 < ticks_left h.
Proof.
  intros [Hpa Hsp Hel _ _ Hph] Hr. pose proof release_nonneg. destruct Hp. unfold ticks_left, running in *.
  budgets. destruct (h_phase h); try done; try lia. all: destruct (_ && _); lia.
Qed.

(** A tick of a phase after the hit. *)
Definition progresses (l : Z) (h : Homer) : Prop := homer_ok h /\ ticks_left h < l.

Ltac close_phase :=
  budgets; split; [constructor; cbn; try lia; auto | unfold ticks_left; cbn; budgets; try lia].
Ltac open_phase h :=
  intros [Hpa Hsp Hel Hh Hd Hph] Eph; pose proof release_nonneg as Hrel; pose proof Hp as [];
  destruct h as [ph fi el pa hits la det sc sp ptg pst psr pdu pel hc]; cbn in *; subst ph; cbn [h_phase] in *.

Lemma brake_progresses h :
  homer_ok h -> h_phase h = HP_Brake -> progresses (ticks_left h) (fst (fst (tick_brake p h))).
Proof. open_phase h. unfold progresses, tick_brake, ticks_left. cbn. branches; close_phase. Qed.

Lemma dwell_progresses h :
  homer_ok h -> h_phase h = HP_Dwell -> progresses (ticks_left h) (fst (fst (tick_dwell p h))).
Proof. open_phase h. unfold progresses, tick_dwell, ticks_left. cbn. branches; close_phase. Qed.

Lemma backoff_progresses h :
  homer_ok h -> h_phase h = HP_Backoff -> progresses (ticks_left h) (fst (fst (tick_backoff p h))).
Proof. open_phase h. unfold progresses, tick_backoff, ticks_left. cbn. branches; close_phase. Qed.

Lemma pause_progresses h :
  homer_ok h -> h_phase h = HP_Pause -> progresses (ticks_left h) (fst (fst (tick_pause p h))).
Proof. open_phase h. unfold progresses, tick_pause, ticks_left. cbn. branches; close_phase. Qed.

Lemma failed_progresses h e l :
  homer_ok h -> 0 <= e -> 0 < l -> progresses l (homer_fail (hput_elapsed e h)).
Proof. intros [] He Hl. split; [constructor; cbn; auto | done]. Qed.

Lemma preclear_progresses node h :
  homer_ok h -> h_phase h = HP_Preclear -> progresses (ticks_left h) (fst (fst (tick_preclear p node h))).
Proof.
  open_phase h. unfold progresses, tick_preclear, failed, saturating_add, ticks_left. cbn -[Z.min Z.pow].
  assert (Hs : Z.min (sp + (el + 1)) (2 ^ 32 - 1) > hp_timeout_ticks p \/ Z.min (sp + (el + 1)) (2 ^ 32 - 1) = sp + (el + 1)) by lia.
  branches; close_phase.
Qed.

Lemma release_progresses node h :
  homer_ok h -> h_phase h = HP_Release -> progresses (ticks_left h) (fst (fst (tick_release p node h))).
Proof.
  open_phase h. destruct Hph as [Hph [r Er]]. unfold progresses, tick_release, ticks_left, release_ticks in *.
  rewrite Er in *. cbn -[Z.mul] in *.
  destruct (ns_position_ticks node); branches; close_phase;
    unfold release_ticks; rewrite ?Er; try split; try lia; eauto.
Qed.

Lemma settle_progresses node h :
  homer_ok h -> h_phase h = HP_Settle -> progresses (ticks_left h) (fst (fst (tick_settle p node h))).
Proof.
  open_phase h. unfold progresses, tick_settle, failed, ticks_left. cbn -[Z.mul].
  destruct la, (ns_position_ticks node), (hp_post p) eqn:Ep; cbn -[Z.mul]; branches; close_phase;
    (split; [lia | rewrite Ep; by eexists]).
Qed.

Lemma post_progresses node h :
  homer_ok h -> h_phase h = HP_PostMove -> post_bounded p (h_post_target_ticks h) b node ->
  progresses (ticks_left h) (fst (fst (tick_post p node h))).
Proof.
  open_phase h. intros Hpost. destruct Hph as [Hph [post Epost]].
  unfold progresses, tick_post, failed, ticks_left, saturating_add. rewrite Epost. cbn -[Z.min Z.pow post_span hermite].
  assert (Hspan : forall start, ns_position_ticks node = Some start -> 1 <= post_span p post ptg start <= b)
    by (intros start Es; split; [unfold post_span; lia | by apply (Hpost post)]).
  set (next := hermite). clearbody next.
  destruct psr as [start0|], (ns_position_ticks node) as [start|] eqn:Epos; cbn -[Z.min Z.pow post_span];
    try specialize (Hspan _ eq_refl);
    repeat match goal with |- context [next ?s ?t ?e ?d ?dt] => destruct (next s t e d dt) end;
    cbn -[Z.min Z.pow post_span]; branches; close_phase; try (split; [lia|by eexists]).
Qed.

Lemma after_progresses node h :
  homer_ok h -> running h = true -> h_phase h <> HP_Approach ->
  post_bounded p (h_post_target_ticks h) b node ->
  progresses (ticks_left h) (fst (fst (tick_after p node h))).
Proof.
  intros Hok Hr Hna Hpost. unfold running in Hr. unfold tick_after. destruct (h_phase h) eqn:E; try done;
    eauto using brake_progresses, dwell_progresses, backoff_progresses, pause_progresses,
      preclear_progresses, release_progresses, settle_progresses, post_progresses.
Qed.

(** What an approach leaves alone. *)
Lemma approach_frame node h :
  exists d, fst (fst (approach p node h)) = hput_det d h.
Proof.
  unfold approach. destruct (hp_strategy p).
  - unfold detect_stall. destruct (watch_still _ _ _ _) as [d ?]. destruct (h_elapsed h >? _).
    + destruct (watch_current _ _ _) as [d' ?]. by exists d'.
    + by exists d.
  - exists (h_det h). by destruct h.
Qed.

(** A hit leaves the approach with ticks to spare. *)
Lemma hit_progresses node d h :
  homer_ok h -> h_phase h = HP_Approach -> h_spent h + (h_elapsed h + 1) <= hp_timeout_ticks p ->
  let h' := on_hit p node (hput_det d (hput_elapsed (h_elapsed h + 1) h)) in
  progresses (ticks_left h) h' /\ running h' = true /\ h_phase h' <> HP_Approach.
Proof.
  open_phase h. intros Hin. unfold progresses, on_hit, running, ticks_left in *. cbn -[Z.mul].
  destruct (hp_strategy p); cbn -[Z.mul].
  - destruct (hp_release p) eqn:Er; branches; (split; [close_phase|done]).
    all: try (rewrite length_insert; done). all: rewrite ?Er; try lia.
    all: split; [lia|by eexists].
  - destruct po_hall0 as [-> _]; [done|]. split; [rewrite andb_false_r; close_phase|done].
Qed.

(** An approach that goes on, and one that has to clear the sensor first. *)
Lemma approach_progresses d h :
  homer_ok h -> h_phase h = HP_Approach -> h_spent h + (h_elapsed h + 1) <= hp_timeout_ticks p ->
  progresses (ticks_left h) (hput_det d (hput_elapsed (h_elapsed h + 1) h)).
Proof. open_phase h. intros Hin. unfold progresses, ticks_left. cbn. branches; close_phase. Qed.

Lemma to_preclear_progresses d s h :
  homer_ok h -> h_phase h = HP_Approach -> h_spent h + (h_elapsed h + 1) <= hp_timeout_ticks p ->
  s = h_spent h + (h_elapsed h + 1) ->
  progresses (ticks_left h)
    (hput_phase HP_Preclear (hput_elapsed 0 (hput_spent s (hput_det d (hput_elapsed (h_elapsed h + 1) h))))).
Proof. open_phase h. intros Hin ->. unfold progresses, ticks_left. cbn. branches; close_phase. Qed.

Lemma on_hit_target node d e h : h_post_target_ticks (on_hit p node (hput_det d (hput_elapsed e h))) = h_post_target_ticks h.
Proof. unfold on_hit. destruct (hp_strategy p), h; [|done]. by destruct (_ && _), (hp_release p). Qed.

Lemma tick_progresses node h :
  homer_ok h -> running h = true -> post_bounded p (h_post_target_ticks h) b node ->
  progresses (ticks_left h) (fst (fst (fst (homer_tick p node h)))).
Proof.
  intros Hok Hr Hpost. unfold homer_tick. destruct (h_phase h) eqn:E.
  2-11: pose proof (after_progresses node h Hok Hr ltac:(congruence) Hpost) as Hgo;
        destruct (tick_after p node h) as [[h1 c1] e1]; exact Hgo.
  pose proof (ho_phase _ Hok) as Hin. rewrite E in Hin. pose proof (ho_elapsed _ Hok). pose proof (ho_spent _ Hok).
  pose proof (po_timeout _ Hp). pose proof (left_running h Hok Hr).
  set (h1 := hput_elapsed (h_elapsed h + 1) h). cbn [h_elapsed h_spent h1 hput_elapsed].
  destruct (_ >? hp_timeout_ticks p) eqn:Et.
  { apply failed_progresses; [done|lia|done]. }
  match goal with |- context [if ?c then drop_hall node else node] => set (node1 := if c then drop_hall node else node) end.
  destruct (approach_frame node1 h1) as [d Hd].
  destruct (approach p node1 h1) as [[h2 cmd] hit]. cbn in Hd. subst h2.
  assert (Hfit : h_spent h + (h_elapsed h + 1) <= hp_timeout_ticks p) by (unfold saturating_add in Et; lia).
  destruct hit; cbn [negb].
  2: by apply approach_progresses.
  destruct (_ && _).
  { apply (to_preclear_progresses d _ h Hok E Hfit). cbn. unfold saturating_add in *. lia. }
  destruct (hit_progresses node1 d h Hok E Hfit) as [[Hhit Hless] [Hrun Hph]]. fold h1 in Hhit, Hless, Hrun, Hph.
  pose proof (after_progresses node1 _ Hhit Hrun Hph) as Hgo.
  destruct (tick_after p node1 _) as [[h3 c3] e3].
  destruct Hgo as [Hok3 Hless3]; [|split; [exact Hok3|cbn in Hless3 |- *; lia]].
  unfold h1. rewrite on_hit_target. intros post start Hpo Hst. apply (Hpost post); [done|].
  unfold node1 in Hst. by destruct (h_elapsed h + 1 =? 1).
Qed.

(** Aiming the post-home move does not matter to any phase. *)
Lemma aim_ok t h : homer_ok h -> homer_ok (hput_post_target t h).
Proof. intros []. by constructor. Qed.

Lemma step_progresses target node h :
  homer_ok h -> running h = true -> post_bounded p target b node ->
  progresses (ticks_left h) (fst (homer_step p target node h)).
Proof.
  intros Hok Hr Hpost. pose proof (tick_progresses node (hput_post_target target h) (aim_ok _ _ Hok) Hr Hpost) as Hgo.
  unfold homer_step. destruct (homer_tick p node _) as [[[h1 n1] c1] e1]. exact Hgo.
Qed.

(** A joint that is not running stays as it is. *)
Lemma stopped_step target node h :
  running h = false -> running (fst (homer_step p target node h)) = false.
Proof.
  intros Hr. unfold homer_step, homer_tick, tick_after, running in *. by destruct h as [[]]; cbn in *.
Qed.

Lemma stopped_run ticks h : running h = false -> running (fst (homer_run p h ticks)) = false.
Proof.
  revert h. induction ticks as [|[t n] ticks IH]; intros h Hr; [done|]. cbn [homer_run].
  pose proof (stopped_step t n h Hr) as Hs. destruct (homer_step p t n h) as [h1 o]. cbn in Hs.
  specialize (IH h1 Hs). by destruct (homer_run p h1 ticks).
Qed.

Lemma run_ends ticks h :
  homer_ok h -> (forall t n, (t, n) ∈ ticks -> post_bounded p t b n) -> ticks_left h <= Z.of_nat (length ticks) ->
  running (fst (homer_run p h ticks)) = false.
Proof.
  revert h. induction ticks as [|[t n] ticks IH]; intros h Hok Hpost Hlen; cbn [homer_run].
  - cbn in Hlen |- *. destruct (running h) eqn:E; [|done]. pose proof (left_running h Hok E). lia.
  - destruct (running h) eqn:E.
    2: { pose proof (stopped_run ((t, n) :: ticks) h E) as Hs. exact Hs. }
    pose proof (step_progresses t n h Hok E (Hpost t n ltac:(left))) as [Hok1 Hless].
    destruct (homer_step p t n h) as [h1 o]. cbn [fst] in Hok1, Hless.
    specialize (IH h1 Hok1 (fun t n Hin => Hpost t n ltac:(by right))).
    destruct (homer_run p h1 ticks). apply IH. cbn [length] in Hlen. lia.
Qed.

Lemma start_ok h : homer_ok (homer_start h) /\ ticks_left (homer_start h) = attempt_budget.
Proof.
  pose proof Hp as []. split; [constructor; cbn; try lia; auto|]. unfold ticks_left, attempt_budget. cbn. lia.
Qed.
End measure.

(** C25: referencing a joint always ends: within [attempt_budget] ticks of [start] the sequence is over, with a
    reference or a failure, whatever the bus said and whatever the post-home move is aimed at. *)
Theorem homing_always_ends p b h ticks :
  params_ok p -> 0 <= b -> (forall t n, (t, n) ∈ ticks -> post_bounded p t b n) ->
  attempt_budget p b <= Z.of_nat (length ticks) ->
  running (fst (homer_run p (homer_start h) ticks)) = false.
Proof.
  intros Hp Hb Hpost Hlen. destruct (start_ok p b Hp Hb h) as [Hok Hleft]. apply (run_ends p b); try done. by rewrite Hleft.
Qed.

Lemma small_params_ok : params_ok hall_params /\ params_ok stall_params.
Proof. split; by apply homer_params_ok. Qed.

(** A second approach gets a timeout of its own: seeking for longer than [hp_timeout_ticks] altogether need not
    fail the joint. *)
Example second_approach_restarts_the_timeout :
  let moving k := map (fun i => (0, at_position (100000 - 100 * Z.of_nat i))) (seq 0 k) in
  let ticks := moving 12%nat ++ replicate 8 (0, pushing 5) ++ moving 20%nat in
  let seeking := jc_velocity (trunc_to_wire (hp_speed stall_params)) 0 in
  let again := jc_velocity (trunc_to_wire (sf_mul (hp_speed stall_params) REHOME_SPEED_FACTOR)) 0 in
  let '(h, out) := homer_run stall_params (homer_start (homer_new stall_params)) ticks in
  running h = true /\ h_phase h = HP_Approach /\ hp_timeout_ticks stall_params = 20 /\
  length (List.filter (fun o => bool_decide (fst o = seeking \/ fst o = again)) out) = 36%nat.
Proof. vm_compute. split_and!; reflexivity. Qed.

Lemma homing_always_ends_witness :
  attempt_budget stall_params 0 = 106 /\
  running (fst (homer_run stall_params (homer_start (homer_new stall_params)) (replicate 106 (0, pushing 10)))) = false.
Proof.
  split; [reflexivity|]. apply (homing_always_ends stall_params 0).
  - apply small_params_ok.
  - lia.
  - intros t n _ post start Hpost. discriminate Hpost.
  - vm_compute. discriminate.
Defined.

(** ** Evidence *)

Section evidence.
Context (p : HomerParams).

(** What the bus said on the tick that found the endstop. *)
Definition found (n : NodeState) : Prop :=
  match hp_strategy p with
  | Hall => reads_hit (ns_hall n) = true
  | Stall => is_Some (ns_position_ticks n)
  end.

(** The readings since the endstop was found contain [l]; a second pass agrees with the first. *)
Definition reference_backed (past : list NodeState) (l : Z) : Prop :=
  exists before hit since,
    past = before ++ hit :: since /\ found hit /\ (exists n, n ∈ hit :: since /\ ns_position_ticks n = Some l) /\
    (hp_two_pass p = true ->
       exists n1 z1 z2, n1 ∈ before /\ ns_position_ticks n1 = Some z1 /\ ns_position_ticks hit = Some z2 /\
         Z.abs (z2 - z1) <= hp_max_diff_ticks p).

(** The first hit of a two-pass attempt is on record. *)
Definition first_hit (past : list NodeState) (h : Homer) : Prop :=
  exists n, n ∈ past /\ ns_position_ticks n = Some (nth 0 (h_pass_hits h) 0).

(** The hit of the last pass, and what was latched since. *)
Definition last_hit (past : list NodeState) (h : Homer) : Prop :=
  exists before hit since,
    past = before ++ hit :: since /\ found hit /\
    (forall l, h_latched h = Some l -> exists n, n ∈ hit :: since /\ ns_position_ticks n = Some l) /\
    (hp_two_pass p = true -> first_hit before h /\ ns_position_ticks hit = Some (nth 1 (h_pass_hits h) 0)).

(** What the phases know of the readings so far. *)
Definition backed (past : list NodeState) (h : Homer) : Prop :=
  length (h_pass_hits h) = 2%nat /\
  match h_phase h with
  | HP_Approach | HP_Preclear =>
      h_latched h = None /\ (h_pass h = 1 \/ h_pass h = 2 /\ first_hit past h)
  | HP_Dwell | HP_Backoff | HP_Pause => h_latched h = None /\ first_hit past h
  | HP_Release | HP_Brake | HP_Settle => last_hit past h
  | HP_PostMove | HP_Finished | HP_Failed => True
  end.

Lemma first_hit_later past n h : first_hit past h -> first_hit (past ++ [n]) h.
Proof. intros (m & Hm & Hl). exists m. split; [apply elem_of_app; by left|done]. Qed.

Lemma last_hit_later past n h : last_hit past h -> last_hit (past ++ [n]) h.
Proof.
  intros (before & hit & since & -> & Hf & Hl & Htwo).
  exists before, hit, (since ++ [n]). split_and!; [by rewrite <- app_assoc|done| |done].
  intros l El. destruct (Hl l El) as (m & Hm & Hlm). exists m. split; [|done].
  rewrite app_comm_cons, elem_of_app. by left.
Qed.

(** What a tick latches is its own reading. *)
Lemma last_hit_latch past n h h' :
  last_hit past h -> last past = Some n -> h_pass_hits h' = h_pass_hits h ->
  (h_latched h' = h_latched h \/ h_latched h' = ns_position_ticks n) -> last_hit past h'.
Proof.
  intros (before & hit & since & -> & Hf & Hl & Htwo) Hn Hhits Hlatch.
  exists before, hit, since. split_and!; [done|done| |].
  - intros l El. destruct Hlatch as [E|E]; rewrite E in El; [by apply Hl|]. exists n. split; [|done].
    rewrite last_app_cons in Hn. by apply last_Some_elem_of.
  - intros Ht. destruct (Htwo Ht). unfold first_hit. by rewrite Hhits.
Qed.

Lemma backed_later past n h : backed past h -> backed (past ++ [n]) h.
Proof.
  intros [Hlen Hb]. split; [done|]. destruct (h_phase h); intuition auto using first_hit_later, last_hit_later.
Qed.

Ltac open_backed h :=
  intros [Hlen Hb] Eph;
  destruct h as [ph fi el pa hits la det sc sp ptg pst psr pdu pel hc]; cbn in *; subst ph; cbn [h_phase] in *.

Lemma after_backed n past h :
  backed past h -> last past = Some n -> h_phase h <> HP_Approach -> backed past (fst (fst (tick_after p n h))).
Proof.
  intros Hb Hn Hna. unfold tick_after. destruct (h_phase h) eqn:E; try done; revert Hb E; open_backed h.
  - unfold tick_preclear, failed. cbn -[Z.pow]. branches; split; cbn; auto.
    all: destruct Hb as [-> [->|[-> ?]]]; auto.
  - unfold tick_dwell. branches; (split; [done|]); cbn; (split; [apply Hb|apply Hb]).
  - unfold tick_backoff. branches; (split; [done|]); cbn; (split; [apply Hb|apply Hb]).
  - unfold tick_pause. cbn -[Z.pow]. destruct Hb as [-> Hf].
    branches; (split; [done|]); cbn; auto.
  - unfold tick_release. destruct (hp_release p); [|split; [done|eapply last_hit_latch; eauto]].
    cbn. destruct (ns_position_ticks n) eqn:En; branches; (split; [done|]); cbn; (eapply last_hit_latch; [exact Hb|exact Hn|..]); cbn; auto.
  - unfold tick_brake. cbn. branches; (split; [done|]); cbn; (eapply last_hit_latch; [exact Hb|exact Hn|..]); cbn; auto.
  - unfold tick_settle, failed. destruct la as [la|]; cbn -[Z.mul]; [|destruct (ns_position_ticks n) eqn:En; cbn -[Z.mul]];
    branches; try destruct (hp_post p); (split; [done|]); cbn; auto; (eapply last_hit_latch; [exact Hb|exact Hn|..]); cbn; auto.
  - unfold tick_post, failed. destruct (hp_post p) as [post|]; [|by split]. cbn -[post_span hermite Z.pow Z.min].
    set (next := hermite). clearbody next.
    destruct psr, (ns_position_ticks n); cbn -[post_span Z.pow Z.min];
      repeat match goal with |- context [next ?s ?t ?e ?d ?dt] => destruct (next s t e d dt) end;
      branches; by split.
Qed.

(** Only settling references a joint, with what is latched by then. *)
Lemma after_reference n past h l :
  backed past h -> last past = Some n -> h_phase h <> HP_Approach -> snd (tick_after p n h) = Some (HE_Reference l) ->
  reference_backed past l.
Proof.
  intros Hb Hn Hna. unfold tick_after. destruct (h_phase h) eqn:E; try done; revert Hb E; open_backed h.
  - unfold tick_preclear, failed. cbn -[Z.pow]. by branches.
  - unfold tick_release. destruct (hp_release p); by branches.
  - unfold tick_settle, failed. cbn -[Z.mul]. intros Hev.
    assert (Hnow : last_hit past
              (mkHomer HP_Settle fi (el + 1) pa hits
                 (match la with None => ns_position_ticks n | _ => la end) det sc sp ptg pst psr pdu pel hc)).
    { eapply last_hit_latch; [exact Hb|exact Hn|done|]. destruct la; cbn; auto. }
    assert (Hlat : match la with None => ns_position_ticks n | _ => la end = Some l /\
              hp_two_pass p && (Z.abs (nth 1 hits 0 - nth 0 hits 0) >? hp_max_diff_ticks p) = false).
    { destruct la as [la|], (ns_position_ticks n) eqn:En; cbn -[Z.mul] in Hev; revert Hev; branches; try done;
        intros [= ->]; done. }
    destruct Hlat as [Hlat Hdiff], Hnow as (before & hit & since & Epast & Hf & Hl & Htwo). cbn in Hl, Htwo.
    exists before, hit, since. split_and!; [done|done|by apply Hl|].
    intros Ht. destruct (Htwo Ht) as [(n1 & Hn1 & Hz1) Hz2]. rewrite Ht in Hdiff. cbn in Hz1, Hdiff.
    exists n1, (nth 0 hits 0), (nth 1 hits 0). split_and!; try done. lia.
  - unfold tick_post, failed. destruct (hp_post p) as [post|]; [|done]. cbn -[post_span hermite Z.pow Z.min].
    set (next := hermite). clearbody next.
    destruct psr, (ns_position_ticks n); cbn -[post_span Z.pow Z.min];
      repeat match goal with |- context [next ?s ?t ?e ?d ?dt] => destruct (next s t e d dt) end; by branches.
Qed.

(** The tick that finds the endstop puts it on record. *)
Lemma hit_backed n past d h :
  params_ok p -> backed past h -> h_phase h = HP_Approach -> found n ->
  let h' := on_hit p n (hput_det d (hput_elapsed (h_elapsed h + 1) h)) in
  backed (past ++ [n]) h' /\ h_phase h' <> HP_Approach.
Proof.
  intros Hp. open_backed h. unfold found, on_hit. destruct hits as [|z0 [|z1 [|]]]; try done.
  destruct Hb as [-> Hpass].
  assert (Hend : n ∈ past ++ [n]) by (apply elem_of_app; right; left).
  destruct (hp_strategy p) eqn:Es; intros Hf.
  - destruct Hf as [z Hz]. rewrite Hz. cbn.
    destruct Hpass as [->|[-> Hfirst]]; cbn.
    + destruct (hp_two_pass p) eqn:Et; cbn.
      * split; [|done]. split; [done|]. cbn. split; [done|]. by exists n.
      * destruct (hp_release p); (split; [|done]); (split; [done|]); cbn;
          exists past, n, []; split_and!; try done; unfold found; rewrite ?Es; try (by eexists); intros; congruence.
    + destruct (hp_release p); (split; [|done]); (split; [done|]); cbn;
        exists past, n, []; split_and!; try done; unfold found; rewrite ?Es; try (by eexists); by intros.
  - destruct (po_hall _ Hp Es) as [Ht _]. cbn. split; [|done]. split; [done|]. cbn.
    exists past, n, []. split_and!; try done; unfold found; rewrite ?Es, ?Ht; try done.
    intros l Hl. exists n. split; [left|done].
Qed.

(** The approach finds the endstop on what the bus said, the cached reply dropped. *)
Lemma approach_found n h : snd (approach p n h) = true -> found n.
Proof.
  unfold approach, found. destruct (hp_strategy p); [|done].
  unfold detect_stall, watch_still. destruct (ns_position_ticks n); [by eexists|].
  destruct (h_elapsed h >? _); [|done]. by destruct (watch_current _ _ _).
Qed.

Lemma drop_hall_hit n d h :
  found (drop_hall n) ->
  found n /\ tick_after p (drop_hall n) (on_hit p (drop_hall n) (hput_det d h)) = tick_after p n (on_hit p n (hput_det d h)).
Proof.
  unfold found, on_hit, tick_after. destruct (hp_strategy p); [|done]. intros Hf. split; [done|]. cbn.
  by destruct (_ && _), (hp_release p).
Qed.

Lemma tick_backed n past h :
  params_ok p -> backed past h ->
  backed (past ++ [n]) (fst (fst (fst (homer_tick p n h)))) /\
  (forall l, snd (homer_tick p n h) = Some (HE_Reference l) -> reference_backed (past ++ [n]) l).
Proof.
  intros Hp Hb. unfold homer_tick. destruct (h_phase h) eqn:E.
  2-11: apply (backed_later _ n) in Hb; assert (Hn : last (past ++ [n]) = Some n) by apply last_snoc;
        assert (Hna : h_phase h <> HP_Approach) by congruence;
        pose proof (after_backed n _ h Hb Hn Hna); pose proof (fun l => after_reference n _ h l Hb Hn Hna);
        by destruct (tick_after p n h) as [[h1 c1] e1].
  set (h1 := hput_elapsed (h_elapsed h + 1) h). destruct (_ >? hp_timeout_ticks p).
  { split; [|done]. by destruct Hb. }
  match goal with |- context [if ?c then drop_hall n else n] => set (n1 := if c then drop_hall n else n) end.
  pose proof (approach_found n1 h1) as Hfound. destruct (approach_frame p n1 h1) as [d Hd].
  destruct (approach p n1 h1) as [[h2 cmd] hit]. cbn in Hd, Hfound. subst h2.
  assert (Hlater : backed (past ++ [n]) (hput_det d h1)).
  { apply (backed_later _ n) in Hb. destruct Hb as [? Hb]. split; [done|]. cbn. by rewrite E in *. }
  destruct hit; cbn [negb]; [|by split].
  destruct (_ && _).
  { split; [|done]. destruct Hlater as [? Hb1]. split; [done|]. cbn in Hb1 |- *. by rewrite E in Hb1. }
  specialize (Hfound eq_refl).
  assert (found n /\ tick_after p n1 (on_hit p n1 (hput_det d h1)) = tick_after p n (on_hit p n (hput_det d h1)))
    as [Hf ->] by (unfold n1 in *; destruct (h_elapsed h1 =? 1); [by apply drop_hall_hit|done]).
  destruct (hit_backed n past d h Hp Hb E Hf) as [Hbh Hna]. fold h1 in Hbh, Hna.
  assert (Hn : last (past ++ [n]) = Some n) by apply last_snoc.
  pose proof (after_backed n _ _ Hbh Hn Hna); pose proof (fun l => after_reference n _ _ l Hbh Hn Hna).
  by destruct (tick_after p n _) as [[h3 c3] e3].
Qed.

Lemma run_backed ticks past h i cmd l :
  params_ok p -> backed past h -> snd (homer_run p h ticks) !! i = Some (cmd, Some (HE_Reference l)) ->
  reference_backed (past ++ take (S i) ticks.*2) l.
Proof.
  intros Hp. revert past h i. induction ticks as [|[t n] ticks IH]; intros past h i Hb; [done|]. cbn [homer_run].
  assert (Hbt : backed past (hput_post_target t h)) by exact Hb.
  destruct (tick_backed n past _ Hp Hbt) as [Hb1 Hr1]. unfold homer_step.
  destruct (homer_tick p n _) as [[[h1 n1] c1] e1]. cbn [fst snd] in Hb1, Hr1.
  specialize (IH (past ++ [n]) h1). destruct (homer_run p h1 ticks) as [h2 out]. cbn [snd fmap list_fmap take].
  destruct i as [|i]; cbn [lookup list_lookup].
  - intros [= -> ->]. replace (past ++ _) with (past ++ [n]) by (by cbn). auto.
  - intros Hi. replace (past ++ _) with ((past ++ [n]) ++ take (S i) ticks.*2) by (by rewrite <- app_assoc).
    by apply IH.
Qed.
End evidence.



(** ** The cached hall reply *)

Definition with_hall (hall : option HallState) (n : NodeState) : NodeState :=
  mkNodeState (ns_position_ticks n) (ns_position_generation n) (ns_speed_ticks_s n) (ns_current_ma n)
    (ns_temperature_c n) (ns_voltage_mv n) (ns_error_flags n) (ns_kt_nm_a n) (ns_device_info n)
    (ns_combined_telemetry n) hall (ns_live_error_bit n) (ns_readback n) (ns_data_age_ticks n).

(** Ticks during which the bus decodes no hall reply: each sees the one the last tick left. *)
Fixpoint cached_run (p : HomerParams) (h : Homer) (hall : option HallState) (nodes : list NodeState)
  : Homer * list (JointCommand * option HomerEvent) :=
  match nodes with
  | [] => (h, [])
  | n :: nodes =>
      let '(h1, n1, cmd, ev) := homer_tick p (with_hall hall n) h in
      let '(h2, out) := cached_run p h1 (ns_hall n1) nodes in (h2, (cmd, ev) :: out)
  end.

(** Without a reply the approach goes on until it times out. *)
Lemma unanswered_tick p n h hall :
  hp_strategy p = Hall -> h_phase h = HP_Approach /\ (h_elapsed h = 0 \/ hall = None) \/ h_phase h = HP_Failed ->
  let '(h1, n1, _, ev) := homer_tick p (with_hall hall n) h in
  (h_phase h1 = HP_Approach /\ ns_hall n1 = None \/ h_phase h1 = HP_Failed) /\
  (ev = None \/ ev = Some HE_Failed).
Proof.
  intros Es Hph. unfold homer_tick. destruct Hph as [[Eph Hhall]|Eph]; rewrite Eph.
  2: { unfold tick_after. rewrite Eph. auto. }
  destruct (_ >? hp_timeout_ticks p); [by cbn; auto|].
  match goal with |- context [if ?c then drop_hall ?m else ?m] => set (n1 := if c then drop_hall m else m) end.
  assert (Hn : ns_hall n1 = None).
  { unfold n1. cbn. destruct (h_elapsed h + 1 =? 1) eqn:E; [done|]. destruct Hhall; [lia|done]. }
  unfold approach. rewrite Es, Hn. cbn. auto.
Qed.

Lemma unanswered_run p nodes h hall :
  hp_strategy p = Hall -> h_phase h = HP_Approach /\ (h_elapsed h = 0 \/ hall = None) \/ h_phase h = HP_Failed ->
  forall i o, snd (cached_run p h hall nodes) !! i = Some o -> snd o = None \/ snd o = Some HE_Failed.
Proof.
  intros Es. revert h hall. induction nodes as [|n nodes IH]; intros h hall Hph i o; [done|]. cbn [cached_run].
  pose proof (unanswered_tick p n h hall Es Hph) as Ht.
  destruct (homer_tick p _ h) as [[[h1 n1] c1] e1]. destruct Ht as [Hph1 He].
  specialize (IH h1 (ns_hall n1)). destruct (cached_run p h1 _ nodes) as [h2 out].
  destruct i as [|i]; cbn; [by intros [= <-]|]. apply IH. intuition auto.
Qed.

(** A hall reply cached before the sequence started, or none at all, never references a joint: while the bus
    decodes no reply, the only thing a hall attempt can report is its failure. *)
Lemma cached_reply_is_no_evidence p h hall nodes i cmd ev :
  hp_strategy p = Hall -> snd (cached_run p (homer_start h) hall nodes) !! i = Some (cmd, ev) ->
  ev = None \/ ev = Some HE_Failed.
Proof. intros Es Hi. apply (unanswered_run p nodes (homer_start h) hall Es) in Hi; [done|]. left. cbn. auto. Qed.

Lemma cached_reply_is_no_evidence_witness :
  let nodes := replicate 30 (at_position 5) in
  let cached := Some (mkHallState false false true) in
  snd <$> snd (cached_run hall_params (homer_start (homer_new hall_params)) cached nodes) !! 20%nat = Some (Some HE_Failed) /\
  (Some HE_Failed = None \/ Some HE_Failed = Some HE_Failed).
Proof.
  split; [vm_compute; reflexivity|].
  apply (cached_reply_is_no_evidence hall_params (homer_new hall_params) (Some (mkHallState false false true))
           (replicate 30 (at_position 5)) 20 jc_idle); vm_compute; reflexivity.
Defined.

(** ** The stall detectors *)

Section detectors.
Context (p : HomerParams) (Hp : params_ok p).

Let W : nat := Z.to_nat (hp_cur_window p).
Definition count_true (l : list bool) : Z := Z.of_nat (length (List.filter (fun b => b) l)).

(** The ring after the readings [r], newest first. *)
Record ring_holds (r : list bool) (d : Detectors) : Prop := {
  rh_length : length (dt_cur_ring d) = W;
  rh_idx : dt_cur_idx d = (length r mod W)%nat;
  rh_filled : dt_cur_filled d = Z.of_nat (length r `min` W);
  rh_hits : dt_cur_hits d = count_true (take W r);
  rh_slots : forall i x, (i < W)%nat -> r !! i = Some x -> dt_cur_ring d !! ((length r - 1 - i) mod W)%nat = Some x;
}.

Lemma count_cons b l : count_true (b :: l) = (if b then 1 else 0) + count_true l.
Proof. unfold count_true. destruct b; cbn [List.filter length]; lia. Qed.

Lemma count_snoc l b : count_true (l ++ [b]) = count_true l + (if b then 1 else 0).
Proof. unfold count_true. rewrite List.filter_app, length_app. cbn. destruct b; cbn; lia. Qed.

Lemma window_Z : hp_cur_window p = Z.of_nat W.
Proof. unfold W. pose proof (po_window _ Hp). lia. Qed.

Lemma window_pos : (2 <= W)%nat.
Proof. unfold W. pose proof (po_window _ Hp). lia. Qed.

Lemma ring_step r a d : ring_holds r d -> ring_holds (a :: r) (fst (watch_current p a d)).
Proof.
  intros [Hl Hi Hf Hh Hs]. pose proof window_pos as HW. pose proof window_Z as HWz. unfold watch_current.
  clearbody W.  constructor; cbn [fst dt_cur_ring dt_cur_idx dt_cur_filled dt_cur_hits].
  - by rewrite length_insert.
  - rewrite length_insert, Hl, Hi. cbn [length]. rewrite Nat.Div0.add_mod_idemp_l. f_equal. lia.
  - rewrite Hf. cbn [length]. rewrite HWz. clear Hs. destruct (Z.ltb_spec (Z.of_nat (length r `min` W)) (Z.of_nat W)); cbn [negb]; lia.
  - assert (Hold : (W <= length r)%nat -> nth (dt_cur_idx d) (dt_cur_ring d) false = nth (W - 1) r false).
    { intros HWr. destruct (lookup_lt_is_Some_2 r (W - 1)) as [x Hx]; [lia|].
      rewrite (nth_lookup_Some _ _ _ _ Hx). apply nth_lookup_Some. rewrite Hi.
      rewrite <- (Hs (W - 1)%nat x); [|lia|done]. f_equal.
      replace (length r - 1 - (W - 1))%nat with (length r - W)%nat by lia.
      rewrite <- (Nat.Div0.mod_add (length r - W) 1). f_equal. lia. }
    assert (Hcons : take W (a :: r) = a :: take (W - 1) r) by (destruct W; [lia|]; cbn; by rewrite Nat.sub_0_r).
    rewrite Hf, Hh, HWz, Hcons, count_cons. clear Hs Hi.
    destruct (Z.ltb_spec (Z.of_nat (length r `min` W)) (Z.of_nat W)); cbn [negb andb].
    + rewrite !firstn_all2 by lia. destruct a; lia.
    + rewrite Hold by lia. replace (take W r) with (take (W - 1) r ++ [nth (W - 1) r false]).
      2: { destruct (lookup_lt_is_Some_2 r (W - 1)) as [x Hx]; [lia|]. rewrite (nth_lookup_Some _ _ _ _ Hx).
           rewrite <- take_S_r by done. f_equal. lia. }
      rewrite count_snoc. destruct a, (nth (W - 1) r false); lia.
  - intros i x Hi1 Hx. rewrite Hi. destruct i as [|i]; cbn in Hx.
    + injection Hx as ->. cbn [length]. rewrite Nat.sub_0_r, Nat.sub_succ, Nat.sub_0_r.
      apply list_lookup_insert_eq. rewrite Hl. apply Nat.mod_upper_bound. lia.
    + pose proof (lookup_lt_Some _ _ _ Hx). cbn [length].
      replace (S (length r) - 1 - S i)%nat with (length r - 1 - i)%nat by lia.
      rewrite list_lookup_insert_ne; [apply Hs; [lia|done]|].
      replace (length r) with (length r - 1 - i + S i)%nat at 1 by lia.
      assert (Hmod := Nat.div_mod_eq (length r - 1 - i) W).
      set (m := ((length r - 1 - i) mod W)%nat) in *. 
      assert (Hm : (m < W)%nat) by (apply Nat.mod_upper_bound; lia).
      rewrite <- Nat.Div0.add_mod_idemp_l. fold m. intros Heq.
      destruct (Nat.lt_ge_cases (m + S i) W) as [Hlt|Hge].
      * rewrite Nat.mod_small in Heq; lia.
      * replace (m + S i)%nat with ((m + S i - W) + 1 * W)%nat in Heq by lia.
        rewrite Nat.Div0.mod_add, Nat.mod_small in Heq; lia.
Qed.

(** The readings since the displacement window opened stay close to its first. *)
Definition plateau (speed : real) (ps : list Z) (k : Z) : Prop :=
  exists pre r rest, ps = pre ++ r :: rest /\ k = Z.of_nat (length rest) /\
    Forall (fun x => Z.abs (x - r) < stall_window speed) rest.

Definition still_holds (speed : real) (ps : list Z) (d : Detectors) : Prop :=
  match dt_ref_pos d with
  | None => ps = [] /\ dt_still d = 0
  | Some r => exists pre rest, ps = pre ++ r :: rest /\ dt_still d = Z.of_nat (length rest) /\
                Forall (fun x => Z.abs (x - r) < stall_window speed) rest
  end.

Lemma still_step speed ps pos d :
  still_holds speed ps d -> still_holds speed (ps ++ option_list pos) (fst (watch_still p pos speed d)).
Proof.
  unfold still_holds, watch_still. destruct pos as [x|]; [|by rewrite app_nil_r]. cbn [option_list].
  destruct (dt_ref_pos d) as [r|] eqn:Er.
  - intros (pre & rest & -> & Hk & Hrest). destruct (_ <? _) eqn:E; cbn.
    + exists pre, (rest ++ [x]). rewrite <- app_assoc, length_app, Forall_app. cbn. split_and!; [done|lia|done|].
      constructor; [lia|done].
    + exists (pre ++ r :: rest), []. by rewrite <- app_assoc.
  - intros [-> _]. cbn. by exists [], [].
Qed.

Lemma still_flag speed ps pos d :
  still_holds speed ps d -> snd (watch_still p pos speed d) = true ->
  exists k, plateau speed (ps ++ option_list pos) k /\ hp_stall_needed p <= k.
Proof.
  intros Hd Hs. pose proof (still_step speed ps pos d Hd) as Hn. revert Hs Hn. unfold still_holds, watch_still.
  destruct pos as [x|]; [|done]. destruct (dt_ref_pos d) as [r|]; [|done]. destruct (_ <? _); [|done]. cbn.
  intros Hneed (pre & rest & E & Hk & Hrest). exists (dt_still d + 1). split; [|lia]. by exists pre, r, rest.
Qed.

Lemma watch_still_ring speed pos d r : ring_holds r d -> ring_holds r (fst (watch_still p pos speed d)).
Proof.
  intros []. unfold watch_still. destruct pos as [x|]; [|done]. destruct (dt_ref_pos d); [destruct (_ <? _)|]; by constructor.
Qed.

Lemma watch_current_still speed ps a d : still_holds speed ps d -> still_holds speed ps (fst (watch_current p a d)).
Proof. done. Qed.

(** The current detector is a count over the last readings. *)
Lemma current_flag r a d :
  ring_holds r d -> snd (watch_current p a d) = true ->
  hp_cur_window p <= Z.of_nat (length (a :: r)) /\ hp_cur_needed p <= count_true (take W (a :: r)).
Proof.
  intros Hr. pose proof (ring_step r a d Hr) as [_ _ Hf Hh _]. rewrite window_Z. unfold watch_current in *. cbn [fst snd] in *.
  cbn [dt_cur_filled] in Hf. cbn [dt_cur_hits] in Hh. rewrite Hf, Hh. rewrite andb_true_iff, !Z.leb_le. rewrite window_Z. lia.
Qed.

(** The stall detector on the ticks of one approach. *)
Fixpoint detect_run (speed : real) (nodes : list NodeState) (h : Homer) : Homer * bool :=
  match nodes with
  | [] => (h, false)
  | [n] => detect_stall p n speed (hput_elapsed (h_elapsed h + 1) h)
  | n :: nodes => detect_run speed nodes (fst (detect_stall p n speed (hput_elapsed (h_elapsed h + 1) h)))
  end.

Definition watched (nodes : list NodeState) : list bool :=
  over_current p <$> drop (Z.to_nat (hp_startup_guard p)) nodes.

Record detected (speed : real) (past : list NodeState) (h : Homer) : Prop := {
  de_elapsed : h_elapsed h = Z.of_nat (length past);
  de_still : still_holds speed (omap ns_position_ticks past) (h_det h);
  de_ring : ring_holds (reverse (watched past)) (h_det h);
}.

Lemma omap_snoc past (n : NodeState) :
  omap ns_position_ticks (past ++ [n]) = omap ns_position_ticks past ++ option_list (ns_position_ticks n).
Proof. rewrite omap_app. cbn. by destruct (ns_position_ticks n). Qed.

Lemma watched_snoc past n :
  reverse (watched (past ++ [n])) =
  if Z.of_nat (length past) + 1 >? hp_startup_guard p then over_current p n :: reverse (watched past)
  else reverse (watched past).
Proof.
  pose proof (po_guard _ Hp). unfold watched. rewrite drop_app, fmap_app, reverse_app.
  destruct (_ >? _) eqn:E.
  - by replace (Z.to_nat (hp_startup_guard p) - length past)%nat with 0%nat by lia.
  - by rewrite (drop_ge [n]) by (cbn; lia).
Qed.

Lemma detect_step speed past n h :
  detected speed past h -> detected speed (past ++ [n]) (fst (detect_stall p n speed (hput_elapsed (h_elapsed h + 1) h))).
Proof.
  intros [He Hs Hr]. unfold detect_stall. cbn [h_det hput_elapsed h_elapsed].
  pose proof (still_step speed _ (ns_position_ticks n) _ Hs) as Hs1. rewrite <- omap_snoc in Hs1.
  pose proof (watch_still_ring speed (ns_position_ticks n) _ _ Hr) as Hr1.
  destruct (watch_still _ _ _ _) as [d1 s1]. cbn [fst] in Hs1, Hr1.
  pose proof (watched_snoc past n) as Hw. rewrite <- He in Hw.
  destruct (h_elapsed h + 1 >? hp_startup_guard p).
  - pose proof (ring_step _ (over_current p n) _ Hr1) as Hr2. rewrite <- Hw in Hr2.
    pose proof (watch_current_still speed _ (over_current p n) _ Hs1) as Hs2.
    destruct (watch_current _ _ _) as [d2 s2]. constructor; cbn; [rewrite length_app; cbn; lia|done|done].
  - constructor; cbn; [rewrite length_app; cbn; lia|done|by rewrite Hw].
Qed.

Lemma detect_flag speed past n h :
  detected speed past h -> snd (detect_stall p n speed (hput_elapsed (h_elapsed h + 1) h)) = true ->
  (exists k, plateau speed (omap ns_position_ticks (past ++ [n])) k /\ hp_stall_needed p <= k) /\
  hp_cur_window p <= Z.of_nat (length (watched (past ++ [n]))) /\
  hp_cur_needed p <= count_true (take W (reverse (watched (past ++ [n])))).
Proof.
  intros [He Hs Hr]. unfold detect_stall. cbn [h_det hput_elapsed h_elapsed].
  pose proof (still_flag speed _ (ns_position_ticks n) _ Hs) as Hs1. rewrite <- omap_snoc in Hs1.
  pose proof (watch_still_ring speed (ns_position_ticks n) _ _ Hr) as Hr1.
  destruct (watch_still _ _ _ _) as [d1 s1]. cbn [fst snd] in Hs1, Hr1.
  pose proof (watched_snoc past n) as Hw. rewrite <- He in Hw.
  destruct (h_elapsed h + 1 >? hp_startup_guard p).
  - pose proof (current_flag _ (over_current p n) _ Hr1) as Hc. rewrite <- Hw in Hc. rewrite length_reverse in Hc.
    destruct (watch_current _ _ _) as [d2 s2]. cbn [snd] in *. intros [H1 H2]%andb_true_iff. auto.
  - cbn. by rewrite andb_false_r.
Qed.

Lemma run_detected speed nodes past h :
  detected speed past h -> snd (detect_run speed nodes h) = true ->
  exists before n h1, past ++ nodes = before ++ [n] /\ detected speed before h1 /\
    snd (detect_stall p n speed (hput_elapsed (h_elapsed h1 + 1) h1)) = true.
Proof.
  revert past h. induction nodes as [|n nodes IH]; intros past h Hd; [done|]. cbn [detect_run].
  destruct nodes as [|n2 nodes]; [by exists past, n, h|]. intros Hhit.
  destruct (IH (past ++ [n]) _ (detect_step _ _ _ _ Hd) Hhit) as (before & m & h1 & E & H1 & H2).
  exists before, m, h1. by rewrite <- app_assoc in E.
Qed.

Lemma fresh_detected speed h : h_elapsed h = 0 -> h_det h = detectors_new p -> detected speed [] h.
Proof.
  intros He Hd. pose proof window_pos. constructor; rewrite ?Hd; [done|done|].
  unfold watched. rewrite drop_nil. constructor; [by cbn; rewrite length_replicate| | | |done].
  - symmetry. apply Nat.Div0.mod_0_l.
  - done.
  - by destruct W.
Qed.
End detectors.

(** The detectors restarted by an approach are new ones. *)
Lemma restarted_detectors p h :
  length (dt_cur_ring (h_det h)) = Z.to_nat (hp_cur_window p) -> h_det (reset_detectors h) = detectors_new p.
Proof.
  unfold detectors_new. intros <-. unfold reset_detectors. cbn [h_det hput_det]. f_equal.
  induction (dt_cur_ring _); cbn; by f_equal.
Qed.

(** A stall is called only on the evidence of both detectors over this approach: the last readings, at least
    [hp_stall_needed] of them, stayed inside the displacement window of the one that opened it, and of the last
    [hp_cur_window] readings after the startup guard at least [hp_cur_needed] were over the current threshold. *)
Lemma stall_needs_both_detectors p speed h nodes :
  params_ok p -> h_elapsed h = 0 -> h_det h = detectors_new p -> snd (detect_run p speed nodes h) = true ->
  let over := watched p nodes in
  (exists k, plateau speed (omap ns_position_ticks nodes) k /\ hp_stall_needed p <= k) /\
  hp_cur_window p <= Z.of_nat (length over) /\
  hp_cur_needed p <= count_true (drop (length over - Z.to_nat (hp_cur_window p)) over).
Proof.
  intros Hp He Hd Hhit over.
  destruct (run_detected p Hp speed nodes [] h (fresh_detected p Hp speed h He Hd) Hhit) as (before & n & h1 & E & H1 & H2).
  destruct (detect_flag p Hp speed before n h1 H1 H2) as [Hs [Hw Hc]]. cbn in E. rewrite <- E in *. fold over in Hw, Hc.
  split_and!; [done|done|]. unfold reverse in Hc. rewrite <- rev_alt, firstn_rev in Hc. revert Hc. unfold count_true.
  rewrite filter_rev, length_rev. done.
Qed.

Lemma stall_needs_both_detectors_witness :
  let speed := hp_speed stall_params in
  let over := watched stall_params (replicate 6 (pushing 10)) in
  hp_cur_needed stall_params <= count_true (drop (length over - Z.to_nat (hp_cur_window stall_params)) over).
Proof.
  apply (stall_needs_both_detectors stall_params (hp_speed stall_params) (homer_new stall_params)
           (replicate 6 (pushing 10)) (proj2 small_params_ok)); vm_compute; reflexivity.
Defined.
