(* ===== verification/HomingSeqProps.v ===== *)
(** * HomingSeqProps: what the homing sequence guarantees

    The sequence ends by its deadline; a failing tick leaves the bus idle and
    restored; and a sequence that completes has referenced every joint the steps
    name, which for a validated configuration is every joint of the arm. *)
From Stdlib Require Import SpecFloat.
From S2P Require Import Prelude F64 BusTypes Ring RtState CoreState Convert HomingConfig Homing HomingSeq HomingExample HomingProps.

(** ** What a part that does not fail leaves alone *)

Definition masks (s : HomingSystem) : list (list bool) := map sp_home_joints (hs_steps s).

(** The progress of the sequence apart from the moves' own. *)
Record same_progress (s s' : HomingSystem) : Prop := {
  sm_masks : masks s' = masks s;
  sm_idx : hs_step_idx s' = hs_step_idx s;
  sm_part : hs_part s' = hs_part s;
  sm_statuses : hs_statuses s' = hs_statuses s;
  sm_homers : hs_homers s' = hs_homers s;
  sm_params : hs_params s' = hs_params s;
  sm_active : hs_active s' = hs_active s;
  sm_elapsed : hs_elapsed_ticks s' = hs_elapsed_ticks s;
  sm_timeout : hs_sequence_timeout_ticks s' = hs_sequence_timeout_ticks s;
}.

#[export] Instance same_progress_refl : Reflexive same_progress.
Proof. by constructor. Qed.
#[export] Instance same_progress_trans : Transitive same_progress.
Proof. intros a b c [] []. constructor; congruence. Qed.

Lemma phase_limit_same seeks w ip : same_progress (tk_sys w) (tk_sys (phase_limit seeks w ip)).
Proof. destruct ip as [i p]. unfold phase_limit. cbv zeta. destruct (Bool.eqb _ _); by constructor. Qed.

Lemma apply_limits_same w : same_progress (tk_sys w) (tk_sys (apply_phase_limits w)).
Proof.
  unfold apply_phase_limits. set (ps := combine _ _). set (seeks := part_seeks _). clearbody ps seeks.
  revert w. induction ps as [|ip ps IH]; intros w; cbn [fold_left]; [done|].
  etransitivity; [apply phase_limit_same|apply IH].
Qed.

Lemma tick_move_same m w : same_progress (tk_sys w) (tk_sys (snd (fst (tick_move m w)))).
Proof. unfold tick_move. cbv zeta. repeat case_match; simplify_eq; by constructor. Qed.

Lemma tick_move_to_same m w : same_progress (tk_sys w) (tk_sys (snd (fst (tick_move_to m w)))).
Proof. unfold tick_move_to. cbv zeta. repeat case_match; simplify_eq; by constructor. Qed.

(** Moves that do not fail leave the progress alone. *)
Lemma tick_moves_same ms w : snd (tick_moves ms w) = false -> same_progress (tk_sys w) (tk_sys (snd (fst (fst (tick_moves ms w))))).
Proof.
  revert w. induction ms as [|m ms IH]; intros w; cbn [tick_moves]; [done|].
  pose proof (tick_move_same m w) as H1. destruct (tick_move m w) as [[m1 w1] r]. cbn [fst snd] in H1.
  destruct r as [done|j].
  - specialize (IH w1). destruct (tick_moves ms w1) as [[[ms1 w2] ad] af]. cbn. intros Hf. etransitivity; [exact H1|by apply IH].
  - destruct (tick_moves ms _) as [[[ms1 w2] ad] af]. by cbn.
Qed.

Lemma tick_move_tos_same ms w :
  snd (tick_move_tos ms w) = false -> same_progress (tk_sys w) (tk_sys (snd (fst (fst (tick_move_tos ms w))))).
Proof.
  revert w. induction ms as [|m ms IH]; intros w; cbn [tick_move_tos]; [done|].
  pose proof (tick_move_to_same m w) as H1. destruct (tick_move_to m w) as [[m1 w1] r]. cbn [fst snd] in H1.
  destruct r as [done|].
  - specialize (IH w1). destruct (tick_move_tos ms w1) as [[[ms1 w2] ad] af]. cbn. intros Hf. etransitivity; [exact H1|by apply IH].
  - destruct (tick_move_tos ms _) as [[[ms1 w2] ad] af]. by cbn.
Qed.

(** Putting a step back with its moves advanced. *)
Lemma put_step_same step step' s s1 :
  step_at s = Some step -> same_progress s s1 -> sp_home_joints step' = sp_home_joints step ->
  same_progress s (put_step step' s1).
Proof.
  intros Hs Hsame Hm. etransitivity; [exact Hsame|]. constructor; try done.
  assert (E : masks s1 !! hs_step_idx s1 = Some (sp_home_joints step)).
  { rewrite (sm_masks _ _ Hsame), (sm_idx _ _ Hsame). unfold masks, step_at in *. by rewrite list_lookup_fmap, Hs. }
  unfold masks, put_step. cbn. rewrite list_fmap_insert, Hm. by apply list_insert_id.
Qed.

(** ** The state of a group while it is homed *)

Definition is_done (s : HomingSystem) (j : nat) : Prop := hs_statuses s !! j = Some HS_Done.

(** The joint is referenced, or its FSM runs and can still reference it. *)
Definition underway (s : HomingSystem) (j : nat) : Prop :=
  is_done s j \/
  hs_statuses s !! j = Some HS_Running /\
  exists h, hs_homers s !! j = Some h /\ running h = true /\ h_phase h <> HP_PostMove.

(** What homing a group changes of the progress: nothing it has is lost. *)
Record advances (s s' : HomingSystem) : Prop := {
  ad_masks : masks s' = masks s;
  ad_idx : hs_step_idx s' = hs_step_idx s;
  ad_part : hs_part s' = hs_part s;
  ad_active : hs_active s' = hs_active s;
  ad_elapsed : hs_elapsed_ticks s' = hs_elapsed_ticks s;
  ad_timeout : hs_sequence_timeout_ticks s' = hs_sequence_timeout_ticks s;
  ad_statuses : length (hs_statuses s') = length (hs_statuses s);
  ad_homers : length (hs_homers s') = length (hs_homers s);
  ad_done : forall j, (j < MAX_JOINTS)%nat -> is_done s j -> is_done s' j;
  ad_underway : forall j, (j < MAX_JOINTS)%nat -> underway s j -> underway s' j;
}.

#[export] Instance advances_refl : Reflexive advances.
Proof. by constructor. Qed.
#[export] Instance advances_trans : Transitive advances.
Proof. intros a b c [] []. constructor; try congruence; auto. Qed.

Lemma same_advances s s' : same_progress s s' -> advances s s'.
Proof. intros []. constructor; try congruence; unfold underway, is_done; intros j; by rewrite ?sm_statuses0, ?sm_homers0. Qed.

(** A tick without an event keeps looking for the reference. *)
Lemma silent_after p n h :
  running h = true -> h_phase h <> HP_PostMove -> h_phase h <> HP_Approach ->
  let '(h', _, ev) := tick_after p n h in
  ev = None -> running h' = true /\ h_phase h' <> HP_PostMove.
Proof.
  destruct h as [ph fi el pa hits la det sc sp ptg pst psr pdu pel hc]. unfold running, tick_after. cbn [h_phase].
  intros Hr Hnp Hna. destruct ph; try done.
  - unfold tick_preclear, failed. cbn -[Z.pow]. by branches.
  - unfold tick_dwell. cbn. by branches.
  - unfold tick_backoff. cbn. by branches.
  - unfold tick_pause. cbn. by branches.
  - unfold tick_release. destruct (hp_release p); cbn; [|done]. destruct (ns_position_ticks n); by branches.
  - unfold tick_brake. cbn. by branches.
  - unfold tick_settle, failed. cbn -[Z.mul]. destruct la, (ns_position_ticks n); cbn -[Z.mul]; by branches.
Qed.

Lemma silent_tick p n h :
  running h = true -> h_phase h <> HP_PostMove ->
  let '(h', _, _, ev) := homer_tick p n h in
  ev = None -> running h' = true /\ h_phase h' <> HP_PostMove.
Proof.
  intros Hr Hp. unfold homer_tick. destruct (h_phase h) eqn:E.
  2-11: pose proof (silent_after p n h Hr) as Hs; rewrite E in Hs; specialize (Hs Hp ltac:(done));
        by destruct (tick_after p n h) as [[h1 c1] e1].
  set (h1 := hput_elapsed (h_elapsed h + 1) h). destruct (_ >? _); [done|].
  match goal with |- context [if ?c then drop_hall n else n] => set (n1 := if c then drop_hall n else n) end.
  destruct (approach_frame p n1 h1) as [d Hd]. destruct (approach p n1 h1) as [[h2 cmd] hit]. cbn in Hd. subst h2.
  destruct hit; cbn [negb].
  2: { intros _. unfold running. cbn. by rewrite E. }
  destruct (_ && _); [done|].
  assert (Hhit : running (on_hit p n1 (hput_det d h1)) = true /\ h_phase (on_hit p n1 (hput_det d h1)) <> HP_PostMove /\
                 h_phase (on_hit p n1 (hput_det d h1)) <> HP_Approach).
  { unfold on_hit, running. destruct (hp_strategy p); cbn; [|done]. by destruct (_ && _), (hp_release p). }
  destruct Hhit as (H1 & H2 & H3). pose proof (silent_after p n1 _ H1 H2 H3) as Hs.
  by destruct (tick_after p n1 _) as [[h3 c3] e3].
Qed.

(** A change of one actuator's status and FSM. *)
Record only_at (j : nat) (s s' : HomingSystem) : Prop := {
  oa_masks : masks s' = masks s;
  oa_idx : hs_step_idx s' = hs_step_idx s;
  oa_part : hs_part s' = hs_part s;
  oa_active : hs_active s' = hs_active s;
  oa_elapsed : hs_elapsed_ticks s' = hs_elapsed_ticks s;
  oa_timeout : hs_sequence_timeout_ticks s' = hs_sequence_timeout_ticks s;
  oa_statuses : length (hs_statuses s') = length (hs_statuses s);
  oa_homers : length (hs_homers s') = length (hs_homers s);
  oa_other_status : forall i, i <> j -> hs_statuses s' !! i = hs_statuses s !! i;
  oa_other_homer : forall i, i <> j -> hs_homers s' !! i = hs_homers s !! i;
}.

Ltac at_slot j :=
  constructor; cbn; rewrite ?length_insert; try done; intros i Hi; rewrite ?list_lookup_insert_ne by done; done.

Lemma only_at_advances j s s' :
  only_at j s s' -> ((j < MAX_JOINTS)%nat -> is_done s j -> is_done s' j) ->
  ((j < MAX_JOINTS)%nat -> underway s j -> underway s' j) -> advances s s'.
Proof.
  intros [] Hd Hu. constructor; try done; intros i Hi; (destruct (decide (i = j)) as [->|Hne]; [auto|]);
    unfold underway, is_done; by rewrite oa_other_status0, ?oa_other_homer0.
Qed.

Lemma done_advances j s s' :
  only_at j s s' -> (is_Some (hs_statuses s !! j) -> is_done s' j) -> advances s s'.
Proof.
  intros Ho Hd. apply (only_at_advances j); [done|..].
  - intros _ H. apply Hd. by rewrite H.
  - intros _ [H|[H _]]; left; apply Hd; by rewrite H.
Qed.

Lemma homer_advances j h h' s :
  hs_homers s !! j = Some h ->
  (running h = true -> h_phase h <> HP_PostMove -> running h' = true /\ h_phase h' <> HP_PostMove) ->
  advances s (put_homer j h' s).
Proof.
  intros Hh Hgo. apply (only_at_advances j); [at_slot j|done|]. intros _ [H|(H & h0 & H1 & H2 & H3)]; [by left|].
  rewrite Hh in H1. injection H1 as <-. right. split; [done|]. exists h'. destruct (Hgo H2 H3). split; [|done].
  cbn. apply list_lookup_insert_eq. by eapply lookup_lt_Some.
Qed.

Lemma joint_referenced_at j p l w : only_at j (tk_sys w) (tk_sys (joint_referenced j p l w)).
Proof.
  unfold joint_referenced. cbv zeta. repeat case_match; simplify_eq; at_slot j.
Qed.

Lemma joint_referenced_done j p l w :
  is_Some (hs_statuses (tk_sys w) !! j) -> is_done (tk_sys (joint_referenced j p l w)) j.
Proof.
  intros Hj. apply lookup_lt_is_Some in Hj. unfold joint_referenced, is_done. cbv zeta.
  repeat case_match; simplify_eq; cbn; by apply list_lookup_insert_eq.
Qed.

Lemma home_joint_advances j w : snd (home_joint j w) = false -> advances (tk_sys w) (tk_sys (fst (home_joint j w))).
Proof.
  unfold home_joint. cbv zeta. destruct (homer_at (tk_sys w) j) as [h|] eqn:Eh; [|done].
  destruct (hs_params (tk_sys w) !! j) as [p|]; [|done]. destruct (running h) eqn:Er; [|done]. cbn [negb].
  pose proof (silent_tick p (node_at w (hp_node p)) h Er) as Hs.
  destruct (homer_tick p _ h) as [[[h1 n1] c1] [[l|]|]]; [|done|].
  - intros _. cbn [fst]. set (w1 := put_cmd _ _ _).
    assert (H1 : only_at j (tk_sys w) (tk_sys w1)) by at_slot j.
    pose proof (joint_referenced_at j p l w1) as H2. apply (done_advances j).
    + destruct H1, H2. constructor; try congruence; intros i Hi.
      * by rewrite oa_other_status1, oa_other_status0.
      * by rewrite oa_other_homer1, oa_other_homer0.
    + intros Hj. by apply joint_referenced_done.
  - intros _. apply (homer_advances j h); [done|]. intros _ Hp. by apply Hs.
Qed.

Lemma home_joints_advances js w : snd (home_joints js w) = false -> advances (tk_sys w) (tk_sys (fst (home_joints js w))).
Proof.
  revert w. induction js as [|j js IH]; intros w; cbn [home_joints]; [done|].
  pose proof (home_joint_advances j w) as H1. destruct (home_joint j w) as [w1 f1].
  specialize (IH w1). destruct (home_joints js w1) as [w2 f2]. cbn in *. intros [-> ->]%orb_false_iff.
  etransitivity; [by apply H1|by apply IH].
Qed.

(** The gripper's slot is none of the arm's. *)
Lemma gripper_advances s s' : only_at GRIPPER_SLOT s s' -> advances s s'.
Proof. intros Ho. apply (only_at_advances GRIPPER_SLOT); [done|..]; unfold GRIPPER_SLOT; lia. Qed.

Lemma home_gripper_advances mode w : advances (tk_sys w) (tk_sys (fst (home_gripper mode w))).
Proof.
  apply gripper_advances. unfold home_gripper. destruct mode as [[|]|]; [| |by constructor].
  - unfold home_gripper_motor. cbv zeta. repeat case_match; simplify_eq; at_slot GRIPPER_SLOT.
  - unfold home_gripper_firmware. cbv zeta. repeat case_match; simplify_eq; at_slot GRIPPER_SLOT.
Qed.

(** ** Progress: what has been homed is referenced *)

(** The group of a step, by the masks of the steps. *)
Definition group (ms : list (list bool)) (k : nat) : list nat :=
  match ms !! k with Some m => home_list m | None => [] end.

Definition homing_now (s : HomingSystem) : list nat :=
  match hs_part s with P_Home => group (masks s) (hs_step_idx s) | _ => [] end.

(** The steps whose group is behind. *)
Definition steps_homed (s : HomingSystem) : nat :=
  match hs_part s with P_MoveTo | P_Post => S (hs_step_idx s) | _ => hs_step_idx s end.

Definition homed_before (s : HomingSystem) : list nat := concat (map home_list (take (steps_homed s) (masks s))).

Record progress_ok (s : HomingSystem) : Prop := {
  pk_statuses : length (hs_statuses s) = NUM_NODES;
  pk_homers : length (hs_homers s) = NUM_NODES;
  pk_before : forall j, j ∈ homed_before s -> j ∉ homing_now s -> is_done s j;
  pk_now : forall j, j ∈ homing_now s -> underway s j;
  pk_end : hs_part s = P_GlobalPost -> (length (masks s) <= hs_step_idx s)%nat;
}.

Lemma home_list_bound m j : j ∈ home_list m -> (j < MAX_JOINTS)%nat.
Proof. unfold home_list. rewrite list_elem_of_In, filter_In, in_seq. lia. Qed.

Lemma group_bound ms k j : j ∈ group ms k -> (j < MAX_JOINTS)%nat.
Proof. unfold group. destruct (ms !! k); [apply home_list_bound|by intros ?%not_elem_of_nil]. Qed.

Lemma homed_bound s j : j ∈ homed_before s -> (j < MAX_JOINTS)%nat.
Proof.
  unfold homed_before. rewrite list_elem_of_In, in_concat. intros (l & Hl & Hj).
  apply in_map_iff in Hl as (m & <- & _). by apply (home_list_bound m), list_elem_of_In.
Qed.

Lemma progress_advances s s' : advances s s' -> progress_ok s -> progress_ok s'.
Proof.
  intros [] [].
  assert (Hn : homing_now s' = homing_now s) by (unfold homing_now; by rewrite ad_part0, ad_masks0, ad_idx0).
  assert (Hb : homed_before s' = homed_before s) by (unfold homed_before, steps_homed; by rewrite ad_part0, ad_masks0, ad_idx0).
  constructor; rewrite ?Hn, ?Hb; try congruence.
  - intros j Hj Hnot. apply ad_done0; [by apply (homed_bound s)|auto].
  - intros j Hj. apply ad_underway0; [|auto]. unfold homing_now in Hj. destruct (hs_part s); try by apply not_elem_of_nil in Hj.
    by apply (group_bound _ _ _ Hj).
  - rewrite ad_part0, ad_idx0, ad_masks0. done.
Qed.

(** On to a part that is not homing, with as many groups behind. *)
Lemma progress_part s s' :
  progress_ok s -> masks s' = masks s -> hs_statuses s' = hs_statuses s -> length (hs_homers s') = length (hs_homers s) ->
  homing_now s = [] -> homing_now s' = [] -> steps_homed s' = steps_homed s ->
  (hs_part s' = P_GlobalPost -> (length (masks s') <= hs_step_idx s')%nat) -> progress_ok s'.
Proof.
  intros [] Hm Hs Hh Hn Hn' Hk He. constructor; rewrite ?Hn', ?Hs, ?Hh; try done.
  - intros j Hj _. unfold is_done. rewrite Hs. apply pk_before0; [|rewrite Hn; apply not_elem_of_nil].
    unfold homed_before in *. by rewrite Hm, Hk in Hj.
  - by intros j ?%not_elem_of_nil.
Qed.

Lemma step_mask step s : step_at s = Some step -> masks s !! hs_step_idx s = Some (sp_home_joints step).
Proof. unfold step_at, masks. intros Hs. by rewrite list_lookup_fmap, Hs. Qed.

(** A group whose FSMs have all stopped without failing is referenced. *)
Lemma group_finished step s :
  progress_ok s -> hs_part s = P_Home -> masks s !! hs_step_idx s = Some (sp_home_joints step) ->
  group_done step s = true ->
  progress_ok (sput_part P_MoveTo s).
Proof.
  intros [] Hpart Hstep [Hdone _]%andb_true_iff.
  assert (Hg : homing_now s = home_list (sp_home_joints step)).
  { unfold homing_now, group. by rewrite Hpart, Hstep. }
  assert (Hall : forall j, j ∈ homing_now s -> is_done s j).
  { intros j Hj. destruct (pk_now0 j Hj) as [H|(_ & h & Hh & Hr & _)]; [done|].
    rewrite forallb_forall in Hdone. rewrite Hg in Hj. specialize (Hdone j (proj1 (list_elem_of_In _ _) Hj)).
    unfold homer_running, homer_at in Hdone. by rewrite Hh, Hr in Hdone. }
  constructor; try done.
  - intros j Hj _. destruct (decide (j ∈ homing_now s)) as [Hin|n]; [by apply Hall|]. refine (pk_before0 j _ n).
    unfold homed_before, steps_homed in *. rewrite Hpart. cbn in Hj.
    change (map sp_home_joints (hs_steps s)) with (masks s) in Hj.
    destruct (masks s !! hs_step_idx s) as [m|] eqn:Em.
    + erewrite take_S_r in Hj by done. rewrite map_app, concat_app, elem_of_app in Hj. destruct Hj as [Hj|Hj]; [done|].
      cbn in Hj. rewrite app_nil_r in Hj. exfalso. unfold homing_now, group in n. rewrite Hpart, Em in n. by apply n.
    + apply lookup_ge_None in Em. rewrite firstn_all2 in Hj |- * by lia. done.
  - intros j Hj. by apply not_elem_of_nil in Hj.
Qed.

(** The FSM was started: its actuator is running. *)
Definition started (s : HomingSystem) (j : nat) : Prop :=
  hs_statuses s !! j = Some HS_Running /\
  exists h, hs_homers s !! j = Some h /\ running h = true /\ h_phase h <> HP_PostMove.

Record starts (l : list nat) (s s' : HomingSystem) : Prop := {
  st_masks : masks s' = masks s;
  st_idx : hs_step_idx s' = hs_step_idx s;
  st_part : hs_part s' = hs_part s;
  st_active : hs_active s' = hs_active s;
  st_elapsed : hs_elapsed_ticks s' = hs_elapsed_ticks s;
  st_timeout : hs_sequence_timeout_ticks s' = hs_sequence_timeout_ticks s;
  st_statuses : length (hs_statuses s') = length (hs_statuses s);
  st_homers : length (hs_homers s') = length (hs_homers s);
  st_in : forall j, j ∈ l -> started s' j;
  st_out : forall j, j ∉ l -> hs_statuses s' !! j = hs_statuses s !! j /\ hs_homers s' !! j = hs_homers s !! j;
}.

Lemma start_homer_starts j s :
  (j < length (hs_statuses s))%nat -> (j < length (hs_homers s))%nat -> starts [j] s (start_homer j s).
Proof.
  intros Hs Hh. destruct (lookup_lt_is_Some_2 _ _ Hh) as [h Eh]. unfold start_homer, homer_at. rewrite Eh.
  constructor; cbn; rewrite ?length_insert; try done.
  - intros i ->%list_elem_of_singleton. split; cbn; [by apply list_lookup_insert_eq|].
    exists (homer_start h). split; [by apply list_lookup_insert_eq|done].
  - intros i Hi%not_elem_of_cons. destruct Hi. by rewrite !list_lookup_insert_ne.
Qed.

Lemma start_homers l s :
  (forall j, j ∈ l -> (j < length (hs_statuses s) /\ j < length (hs_homers s))%nat) ->
  starts l s (fold_left (fun s j => start_homer j s) l s).
Proof.
  revert s. induction l as [|j l IH]; intros s Hb; cbn [fold_left].
  - constructor; try done. by intros j ?%not_elem_of_nil.
  - destruct (Hb j ltac:(left)) as [Hs Hh]. pose proof (start_homer_starts j s Hs Hh) as [].
    assert (IHs := IH (start_homer j s)). rewrite st_statuses0, st_homers0 in IHs.
    destruct IHs as []; [intros i Hi; apply Hb; by right|].
    constructor; try congruence.
    + intros i Hi. destruct (decide (i ∈ l)) as [|Hn]; [auto|].
      apply elem_of_cons in Hi as [->|]; [|done]. destruct (st_out1 j Hn) as [H1 H2], (st_in0 j ltac:(left)) as [H3 H4].
      split; [by rewrite H1|by rewrite H2].
    + intros i [Hne Hni]%not_elem_of_cons. destruct (st_out1 i Hni) as [-> ->].
      apply st_out0. by intros ->%list_elem_of_singleton.
Qed.

(** Starting a group: its joints run, the others are as they were. *)
Lemma start_group_progress step s :
  progress_ok s -> hs_part s = P_HomeStart -> step_at s = Some step ->
  let s' := start_group step s in
  progress_ok s' /\ masks s' = masks s /\ hs_sequence_timeout_ticks s' = hs_sequence_timeout_ticks s /\
  hs_elapsed_ticks s' = hs_elapsed_ticks s /\ hs_active s' = hs_active s.
Proof.
  intros [] Hpart Hstep s'. subst s'.
  set (l := home_list (sp_home_joints step)). set (s1 := fold_left (fun s j => start_homer j s) l s).
  assert (Hst : starts l s s1).
  { apply start_homers. intros j Hj%home_list_bound. rewrite pk_statuses0, pk_homers0. unfold MAX_JOINTS, NUM_NODES in *. lia. }
  set (s2 := match sp_home_gripper step with
             | Some GHM_Motor =>
                 match hs_gripper_params s1 with
                 | Some _ => sput_gripper_homer_started true (start_homer GRIPPER_SLOT s1)
                 | None => s1
                 end
             | Some GHM_Firmware => put_status GRIPPER_SLOT HS_Running (sput_cal (Some (mkCalRun false 0)) s1)
             | None => s1
             end).
  assert (Hg : only_at GRIPPER_SLOT s1 s2).
  { unfold s2, start_homer. repeat case_match; at_slot GRIPPER_SLOT. }
  change (start_group step s) with (sput_part P_Home s2). clearbody s1 s2. destruct Hst, Hg.
  assert (Hnow : homing_now (sput_part P_Home s2) = l).
  { transitivity (group (masks s2) (hs_step_idx s2)); [done|]. rewrite oa_masks0, oa_idx0, st_masks0, st_idx0.
    unfold group, masks. unfold step_at in Hstep. by rewrite list_lookup_fmap, Hstep. }
  assert (Hne : forall j, (j < MAX_JOINTS)%nat -> j <> GRIPPER_SLOT) by (unfold GRIPPER_SLOT; lia).
  assert (Hbef : homed_before (sput_part P_Home s2) = homed_before s).
  { transitivity (concat (map home_list (take (hs_step_idx s2) (masks s2)))); [done|].
    rewrite oa_masks0, oa_idx0, st_masks0, st_idx0. unfold homed_before, steps_homed. by rewrite Hpart. }
  split.
  2: { change (masks (sput_part P_Home s2)) with (masks s2). cbn. split_and!; congruence. }
  constructor; rewrite ?Hnow, ?Hbef; [cbn; congruence|cbn; congruence| | |done].
  - intros j Hj Hni. assert (Hd : is_done s j).
    { apply pk_before0; [done|]. unfold homing_now. rewrite Hpart. apply not_elem_of_nil. }
    unfold is_done in *. change (hs_statuses (sput_part P_Home s2)) with (hs_statuses s2).
    rewrite oa_other_status0 by (by apply Hne, (homed_bound s)). destruct (st_out0 j Hni) as [-> _]. done.
  - intros j Hj. right. destruct (st_in0 j Hj) as [H1 H2]. apply home_list_bound in Hj.
    change (hs_statuses (sput_part P_Home s2)) with (hs_statuses s2).
    change (hs_homers (sput_part P_Home s2)) with (hs_homers s2).
    by rewrite oa_other_status0, oa_other_homer0 by auto.
Qed.

(** ** One tick *)

Definition all_groups (s : HomingSystem) : list nat := concat (map home_list (masks s)).

(** What a part makes of the tick: it fails, or keeps the progress. *)
Definition outcome (s : HomingSystem) (r : Tick * SeqStatus) : Prop :=
  let s' := tk_sys (fst r) in
  snd r = SS_Failed /\ hs_active s' = false \/
  (progress_ok s' /\ masks s' = masks s /\ hs_sequence_timeout_ticks s' = hs_sequence_timeout_ticks s /\
   hs_elapsed_ticks s' = hs_elapsed_ticks s) /\
  ((snd r = SS_Running \/ snd r = SS_Checking) /\ hs_active s' = true \/
   snd r = SS_Complete /\ hs_active s' = false /\ forall j, j ∈ all_groups s' -> is_done s' j).

Lemma fail_outcome s w : outcome s (seq_fail w).
Proof. left. split; [done|]. unfold seq_fail. cbn [fst]. by rewrite calls_sys. Qed.

Lemma running_outcome s w s' :
  hs_active s = true -> same_progress s (tk_sys w) -> progress_ok s' -> s' = tk_sys w ->
  outcome s (w, SS_Running).
Proof. intros Ha [] Hp ->. right. cbn. split; [split_and!; congruence|]. left. split; [auto|congruence]. Qed.

(** A part that goes on to another one with as many groups behind. *)
Lemma onward_outcome s w f :
  hs_active s = true -> same_progress s (tk_sys w) -> progress_ok (f (tk_sys w)) ->
  masks (f (tk_sys w)) = masks (tk_sys w) -> hs_sequence_timeout_ticks (f (tk_sys w)) = hs_sequence_timeout_ticks (tk_sys w) ->
  hs_elapsed_ticks (f (tk_sys w)) = hs_elapsed_ticks (tk_sys w) -> hs_active (f (tk_sys w)) = hs_active (tk_sys w) ->
  outcome s (upd_sys f w, SS_Running).
Proof. intros Ha [] Hp H1 H2 H3 H4. right. cbn. split; [split_and!; congruence|]. left. split; [auto|congruence]. Qed.

Lemma same_progress_ok s s' : same_progress s s' -> progress_ok s -> progress_ok s'.
Proof. intros H. by apply progress_advances, same_advances. Qed.

Lemma alter_masks k l : map sp_home_joints (alter reset_step k l) = map sp_home_joints l.
Proof.
  apply list_eq. intros i. rewrite !list_lookup_fmap. destruct (decide (k = i)) as [->|Hne].
  - rewrite list_lookup_alter_eq. by destruct (l !! i).
  - by rewrite list_lookup_alter_ne.
Qed.

Lemma reset_masks k s : masks (reset_step_states k s) = masks s.
Proof. apply alter_masks. Qed.

Section parts.
Context (w : Tick) (step : StepPlan).
Context (Hok : progress_ok (tk_sys w)) (Ha : hs_active (tk_sys w) = true) (Hstep : step_at (tk_sys w) = Some step).

(** The step's moves advanced: on to the next part when all are done. *)
Lemma moves_outcome (ad : bool) step' w1 f :
  same_progress (tk_sys w) (tk_sys w1) -> sp_home_joints step' = sp_home_joints step ->
  (forall s, progress_ok s -> hs_part s = hs_part (tk_sys w) ->
     progress_ok (f s) /\ masks (f s) = masks s /\ hs_sequence_timeout_ticks (f s) = hs_sequence_timeout_ticks s /\
     hs_elapsed_ticks (f s) = hs_elapsed_ticks s /\ hs_active (f s) = hs_active s) ->
  let w2 := upd_sys (put_step step') w1 in
  outcome (tk_sys w) (if ad then upd_sys f w2 else w2, SS_Running).
Proof.
  intros Hs Hm Hf w2.
  assert (Hs2 : same_progress (tk_sys w) (tk_sys w2)) by (cbn; by eapply put_step_same).
  clearbody w2. pose proof (same_progress_ok _ _ Hs2 Hok) as Hok2.
  destruct ad; [|by eapply running_outcome].
  destruct (Hf _ Hok2 (sm_part _ _ Hs2)) as (H1 & H2 & H3 & H4 & H5). by apply onward_outcome.
Qed.

Lemma pre_outcome : hs_part (tk_sys w) = P_Pre -> outcome (tk_sys w) (tick_pre step w).
Proof.
  intros Hpart. unfold tick_pre. pose proof (tick_moves_same (sp_pre step) w) as Hs.
  destruct (tick_moves _ _) as [[[ms w1] ad] f]. cbn [fst snd] in Hs. destruct f; [apply fail_outcome|].
  apply moves_outcome; [by apply Hs|done|]. intros s Hs1 Hp1. rewrite Hpart in Hp1. split; [|done].
  apply (progress_part s); try done; unfold homing_now, steps_homed; by rewrite Hp1.
Qed.

Lemma move_to_outcome : hs_part (tk_sys w) = P_MoveTo -> outcome (tk_sys w) (tick_part_move_to step w).
Proof.
  intros Hpart. unfold tick_part_move_to. pose proof (tick_move_tos_same (sp_move_to step) w) as Hs.
  destruct (tick_move_tos _ _) as [[[ms w1] ad] f]. cbn [fst snd] in Hs. destruct f; [apply fail_outcome|].
  apply moves_outcome; [by apply Hs|done|]. intros s Hs1 Hp1. rewrite Hpart in Hp1. split; [|done].
  apply (progress_part s); try done; unfold homing_now, steps_homed; by rewrite Hp1.
Qed.

Lemma post_outcome : hs_part (tk_sys w) = P_Post -> outcome (tk_sys w) (tick_post_moves step w).
Proof.
  intros Hpart. unfold tick_post_moves. pose proof (tick_moves_same (sp_post step) w) as Hs.
  destruct (tick_moves _ _) as [[[ms w1] ad] f]. cbn [fst snd] in Hs. destruct f; [apply fail_outcome|].
  apply moves_outcome; [by apply Hs|done|]. intros s Hs1 Hp1. rewrite Hpart in Hp1.
  unfold next_step. cbv zeta. destruct (_ <? _)%nat eqn:E.
  - assert (Hm : masks (sput_part P_Pre (reset_step_states (S (hs_step_idx s)) (sput_step_idx (S (hs_step_idx s)) s))) = masks s)
      by exact (reset_masks _ (sput_step_idx (S (hs_step_idx s)) s)).
    split; [|done]. apply (progress_part s); try done; unfold homing_now, steps_homed; by rewrite Hp1.
  - split; [|done]. apply (progress_part s); try done; try (unfold homing_now, steps_homed; by rewrite Hp1).
    intros _. unfold masks. rewrite length_map. apply Nat.ltb_ge in E. exact E.
Qed.

Lemma start_outcome : hs_part (tk_sys w) = P_HomeStart -> outcome (tk_sys w) (upd_sys (start_group step) w, SS_Running).
Proof.
  intros Hpart. destruct (start_group_progress step _ Hok Hpart Hstep) as (Hp & H1 & H2 & H3 & H4).
  by apply onward_outcome.
Qed.

Lemma home_outcome : hs_part (tk_sys w) = P_Home -> outcome (tk_sys w) (tick_home step w).
Proof.
  intros Hpart. unfold tick_home. pose proof (home_joints_advances (home_list (sp_home_joints step)) w) as H1.
  destruct (home_joints _ w) as [w1 f1]. cbn [fst snd] in H1.
  pose proof (home_gripper_advances (sp_home_gripper step) w1) as H2.
  destruct (home_gripper _ w1) as [w2 f2]. cbn [fst snd] in H2.
  destruct f1; [apply fail_outcome|]. destruct f2; [apply fail_outcome|]. cbn [orb].
  assert (Had : advances (tk_sys w) (tk_sys w2)) by (etransitivity; [by apply H1|done]).
  pose proof (progress_advances _ _ Had Hok) as Hok2.
  pose proof (step_mask _ _ Hstep) as Hmask. destruct Had.
  destruct (group_done _ _) eqn:Ed.
  - assert (Hdone : progress_ok (sput_part P_MoveTo (tk_sys w2))).
    { apply (group_finished step); try done; congruence. }
    right. split; [split_and!; try done; cbn; congruence|]. left. split; [by left|cbn; congruence].
  - right. split; [split_and!; try done; cbn; congruence|]. left. split; [by left|cbn; congruence].
Qed.
End parts.

(** The trailing moves: at their end every group of the sequence is referenced. *)
Lemma global_outcome w :
  progress_ok (tk_sys w) -> hs_active (tk_sys w) = true ->
  (length (masks (tk_sys w)) <= hs_step_idx (tk_sys w))%nat -> outcome (tk_sys w) (tick_global_post w).
Proof.
  intros Hok Ha Hend. unfold tick_global_post. pose proof (tick_moves_same (hs_global_post (tk_sys w)) w) as Hs.
  destruct (tick_moves _ w) as [[[ms w1] ad] f]. cbn [fst snd] in Hs. destruct f; [apply fail_outcome|].
  assert (Hs2 : same_progress (tk_sys w) (tk_sys (upd_sys (sput_global_post ms) w1)))
    by (etransitivity; [by apply Hs|by constructor]).
  set (w2 := upd_sys _ w1) in *. clearbody w2. pose proof (same_progress_ok _ _ Hs2 Hok) as Hok2.
  destruct ad; cbn [negb]; [|by eapply running_outcome]. destruct Hs2.
  destruct (hs_check_left (tk_sys w2) >? 0).
  - right. cbn [fst snd upd_sys tk_sys]. split; [|left; split; [by right|cbn; congruence]].
    split_and!; [destruct Hok2; by constructor|done|done|done].
  - right. cbn [fst snd upd_sys tk_sys]. set (s' := sput_active false (tk_sys w2)).
    assert (Hok' : progress_ok s') by (destruct Hok2; by constructor).
    split; [split_and!; try done; cbn; congruence|]. right. split_and!; try done.
    intros j Hj. apply (pk_before _ Hok').
    + unfold homed_before. rewrite firstn_all2; [done|].
      change (masks s') with (masks (tk_sys w2)). assert (hs_step_idx s' <= steps_homed s')%nat by (unfold steps_homed; destruct (hs_part s'); lia).
      etransitivity; [|done]. cbn. by rewrite sm_masks0, sm_idx0.
    + unfold homing_now, group. destruct (hs_part s'); try apply not_elem_of_nil.
      rewrite (proj2 (lookup_ge_None _ _)); [apply not_elem_of_nil|].
      change (masks s') with (masks (tk_sys w2)). cbn. by rewrite sm_masks0, sm_idx0.
Qed.

(** A tick of a running sequence: past the deadline, or a part of it with one more tick on the clock. *)
Lemma tick_outcome w :
  progress_ok (tk_sys w) -> hs_active (tk_sys w) = true ->
  let s := tk_sys w in
  let s1 := sput_elapsed_ticks (hs_elapsed_ticks s + 1) s in
  outcome s1 (seq_tick w) /\
  (hs_sequence_timeout_ticks s <= hs_elapsed_ticks s + 1 -> snd (seq_tick w) = SS_Failed).
Proof.
  intros Hok Ha s s1. unfold seq_tick. cbn [tk_sys liveness_defaults put_gcmd put_cmds]. rewrite Ha. cbn [negb upd_sys tk_sys].
  cbn [hs_sequence_timeout_ticks hs_elapsed_ticks sput_elapsed_ticks].
  destruct (_ <=? _) eqn:E; [split; [apply fail_outcome|done]|]. 
  change (tk_sys (liveness_defaults w)) with s in E. split; [|lia].
  set (w0 := upd_sys _ (liveness_defaults w)). pose proof (apply_limits_same w0) as Hs.
  assert (Hok1 : progress_ok s1) by (destruct Hok; by constructor).
  change s1 with (tk_sys w0) in Hok1 |- *.
  pose proof (same_progress_ok _ _ Hs Hok1) as Hok2.
  assert (Ha2 : hs_active (tk_sys (apply_phase_limits w0)) = true) by (rewrite (sm_active _ _ Hs); exact Ha).
  cut (outcome (tk_sys (apply_phase_limits w0))
         (match step_at (tk_sys (apply_phase_limits w0)) with
          | None => tick_global_post (apply_phase_limits w0)
          | Some step =>
              match hs_part (tk_sys (apply_phase_limits w0)) with
              | P_Pre => tick_pre step (apply_phase_limits w0)
              | P_HomeStart => (upd_sys (start_group step) (apply_phase_limits w0), SS_Running)
              | P_Home => tick_home step (apply_phase_limits w0)
              | P_MoveTo => tick_part_move_to step (apply_phase_limits w0)
              | P_Post => tick_post_moves step (apply_phase_limits w0)
              | P_GlobalPost => tick_global_post (apply_phase_limits w0)
              end
          end)).
  { destruct Hs. intros [Hf|[(H1 & H2 & H3 & H4) H5]]; [by left|]. right. split; [split_and!; congruence|done]. }
  set (w2 := apply_phase_limits w0) in *. clearbody w2.
  destruct (step_at (tk_sys w2)) as [step|] eqn:Estep.
  - destruct (hs_part (tk_sys w2)) eqn:Ep.
    + by apply pre_outcome.
    + by apply start_outcome.
    + by apply home_outcome.
    + by apply move_to_outcome.
    + by apply post_outcome.
    + apply global_outcome; [done|done|]. by apply (pk_end _ Hok2).
  - apply global_outcome; [done|done|]. unfold masks. rewrite length_map. by apply lookup_ge_None.
Qed.

(** ** Runs *)

Lemma inactive_tick w : hs_active (tk_sys w) = false -> tk_sys (fst (seq_tick w)) = tk_sys w /\ snd (seq_tick w) = SS_Inactive.
Proof. intros Ha. unfold seq_tick. cbn [tk_sys liveness_defaults put_gcmd put_cmds]. by rewrite Ha. Qed.

Lemma inactive_run ticks s conv :
  hs_active s = false -> fst (seq_run s conv ticks) = s /\ Forall (fun o => to_status o = SS_Inactive) (snd (seq_run s conv ticks)).
Proof.
  revert s conv. induction ticks as [|r ticks IH]; intros s conv Ha; [by split|]. cbn [seq_run].
  set (w := mkTick s _ _ _ _ _ _). destruct (inactive_tick w Ha) as [Hs Hst]. destruct (seq_tick w) as [w1 st]. cbn in Hs, Hst.
  rewrite Hs. destruct (IH s (tk_conv w1) Ha) as [H1 H2]. destruct (seq_run _ _ ticks). by split; [|constructor].
Qed.

(** A running sequence has its deadline ahead. *)
Lemma run_outcome ticks s conv :
  progress_ok s -> hs_active s = true ->
  let '(s', out) := seq_run s conv ticks in
  (hs_active s' = true ->
     masks s' = masks s /\ hs_elapsed_ticks s' = hs_elapsed_ticks s + Z.of_nat (length ticks) /\
     (ticks <> [] -> hs_elapsed_ticks s' < hs_sequence_timeout_ticks s)) /\
  (SS_Complete ∈ map to_status out -> hs_active s' = false /\ forall j, j ∈ all_groups s -> is_done s' j).
Proof.
  revert s conv. induction ticks as [|r ticks IH]; intros s conv Hok Ha; cbn [seq_run].
  - split; [intros _; split_and!; [done|cbn; lia|done]|by intros ?%not_elem_of_nil].
  - set (w := mkTick s _ _ _ _ _ _). pose proof (tick_outcome w Hok Ha) as [Ho Hd].
    destruct (seq_tick w) as [w1 st]. cbn [tk_sys w] in Hd. cbn [snd] in Hd.
    unfold outcome in Ho. cbn [fst snd] in Ho. destruct Ho as [[-> Hf]|[(H1 & H2 & H3 & H4) H5]]; cbn [fst snd] in *.
    + destruct (inactive_run ticks _ (tk_conv w1) Hf) as [E1 E2].
      destruct (seq_run (tk_sys w1) _ ticks) as [s' out]. cbn in E1, E2. subst s'. split; [by rewrite Hf|].
      intros Hin. exfalso. cbn in Hin. apply elem_of_cons in Hin as [?|Hin]; [done|].
      apply list_elem_of_fmap in Hin as (o & Eo & Hin). rewrite Forall_forall in E2. by rewrite (E2 o Hin) in Eo.
    + change (masks (tk_sys w1) = masks s) in H2. cbn in H3, H4. destruct H5 as [[Hst Hact]|(-> & Hact & Hall)].
      * specialize (IH (tk_sys w1) (tk_conv w1) H1 Hact). destruct (seq_run (tk_sys w1) _ ticks) as [s' out].
        destruct IH as [IH1 IH2]. split.
        -- intros Hs'. destruct (IH1 Hs') as (E1 & E2 & E3). split_and!; [rewrite E1; exact H2|cbn [length]; lia|].
           intros _. destruct (decide (ticks = [])) as [->|Hne]; [|rewrite <- H3; auto].
           cbn in E2. destruct (Z_lt_le_dec (hs_elapsed_ticks s + 1) (hs_sequence_timeout_ticks s)) as [|Hge]; [lia|].
           specialize (Hd Hge). destruct Hst; congruence.
        -- intros Hin. cbn in Hin. apply elem_of_cons in Hin as [E|Hin]; [destruct Hst; congruence|].
           unfold all_groups in *. rewrite H2 in IH2. auto.
      * destruct (inactive_run ticks _ (tk_conv w1) Hact) as [E1 E2].
        destruct (seq_run (tk_sys w1) _ ticks) as [s' out]. cbn in E1. subst s'. split; [by rewrite Hact|].
        intros _. split; [done|]. unfold all_groups in *. by rewrite H2 in Hall.
Qed.

(** ** The sequence from its start *)

Lemma start_masks s : masks (fst (seq_start s)) = masks s.
Proof. exact (alter_masks 0 (hs_steps s)). Qed.

Lemma start_progress s : length (hs_homers s) = NUM_NODES -> progress_ok (fst (seq_start s)).
Proof.
  intros Hh. assert (Hb : homed_before (fst (seq_start s)) = []) by done.
  assert (Hn : homing_now (fst (seq_start s)) = []) by done.
  constructor; rewrite ?Hb, ?Hn; [done| |by intros j ?%not_elem_of_nil|by intros j ?%not_elem_of_nil|done].
  change (length (map (hput_phase HP_Finished) (hs_homers s)) = NUM_NODES). by rewrite length_map.
Qed.

(** The sequence always ends by its deadline: [start] followed by [sequence_timeout_ticks] ticks leaves nothing
    running, whatever the bus reads and whatever was planned. *)
Lemma sequence_ends_by_deadline s conv ticks :
  length (hs_homers s) = NUM_NODES -> ticks <> [] -> hs_sequence_timeout_ticks s <= Z.of_nat (length ticks) ->
  hs_active (fst (seq_run (fst (seq_start s)) conv ticks)) = false.
Proof.
  intros Hh Hne Hlen. pose proof (run_outcome ticks (fst (seq_start s)) conv (start_progress s Hh) eq_refl) as Hr.
  destruct (seq_run _ conv ticks) as [s' out]. destruct Hr as [Hr _]. cbn [fst].
  destruct (hs_active s') eqn:Ea; [|done]. destruct (Hr eq_refl) as (_ & E & Hlt). specialize (Hlt Hne).
  cbn in E, Hlt. lia.
Qed.

Lemma sequence_ends_by_deadline_witness :
  hs_active (fst (seq_run (fst (seq_start (homing_new (small_bundle hall_joint)))) small_conv
                    (replicate 85 (all_nodes (at_hall 10 false))))) = false.
Proof.
  apply sequence_ends_by_deadline; [vm_compute; reflexivity|discriminate|vm_compute; discriminate].
Defined.

(** Every failing tick fails the way [fail] does. *)
Lemma failing_parts w step :
  (snd (tick_pre step w) = SS_Failed -> exists w0, tick_pre step w = seq_fail w0) /\
  (snd (tick_home step w) = SS_Failed -> exists w0, tick_home step w = seq_fail w0) /\
  (snd (tick_part_move_to step w) = SS_Failed -> exists w0, tick_part_move_to step w = seq_fail w0) /\
  (snd (tick_post_moves step w) = SS_Failed -> exists w0, tick_post_moves step w = seq_fail w0).
Proof.
  unfold tick_pre, tick_home, tick_part_move_to, tick_post_moves.
  split_and!; repeat case_match; try done; intros _; by eexists.
Qed.

Lemma failing_global w : snd (tick_global_post w) = SS_Failed -> exists w0, tick_global_post w = seq_fail w0.
Proof. unfold tick_global_post. repeat case_match; try done; intros _; by eexists. Qed.

Lemma failing_ticks w : snd (seq_tick w) = SS_Failed -> exists w0, seq_tick w = seq_fail w0.
Proof.
  unfold seq_tick. destruct (negb _); [done|]. destruct (_ <=? _); [by eexists|].
  set (w1 := apply_phase_limits _). destruct (step_at _) as [step|]; [|apply failing_global].
  destruct (failing_parts w1 step) as (H1 & H2 & H3 & H4). destruct (hs_part _); auto using failing_global. done.
Qed.

Lemma calls_added cs w : 
  let w' := fold_left (fun w c => call c w) cs w in
  tk_calls w' = tk_calls w ++ cs /\ tk_cmds w' = tk_cmds w /\ tk_gcmd w' = tk_gcmd w.
Proof.
  revert w. induction cs as [|c cs IH]; intros w; cbn; [by rewrite app_nil_r|].
  destruct (IH (call c w)) as (-> & -> & ->). cbn. by rewrite <- app_assoc.
Qed.

Lemma fail_shape w :
  let w' := fst (seq_fail w) in
  Forall (fun c => c = jc_idle) (tk_cmds w') /\
  (tk_gcmd w' = GC_Motor jc_idle \/ tk_gcmd w' = GC_NoGripper) /\
  hs_active (tk_sys w') = false /\
  exists calls, tk_calls w' = calls ++ restore_all (tk_sys w').
Proof.
  unfold seq_fail. cbv zeta. cbn [fst]. set (w0 := upd_sys _ _).
  destruct (calls_added (restore_all (tk_sys w0)) w0) as (E1 & E2 & E3). rewrite E1, E2, E3, calls_sys. split_and!.
  - cbn. apply Forall_map, Forall_true. done.
  - cbn. unfold idle_gripper. case_match; auto.
  - done.
  - by eexists.
Qed.

(** A tick that fails the sequence commands nothing but idle on every joint and on the gripper, ends the sequence, and
    ends by asking every node's stored configuration again. *)
Lemma failing_tick_is_idle w :
  snd (seq_tick w) = SS_Failed ->
  let w' := fst (seq_tick w) in
  Forall (fun c => c = jc_idle) (tk_cmds w') /\
  (tk_gcmd w' = GC_Motor jc_idle \/ tk_gcmd w' = GC_NoGripper) /\
  hs_active (tk_sys w') = false /\
  exists calls, tk_calls w' = calls ++ restore_all (tk_sys w').
Proof.
  intros Hf. destruct (failing_ticks w Hf) as [w0 E]. rewrite E. cbv zeta. apply fail_shape.
Qed.

Lemma failing_tick_is_idle_witness :
  let s := fst (seq_run (fst (seq_start (homing_new (small_bundle hall_joint)))) small_conv
                  (replicate 22 (all_nodes (at_hall 10 false)))) in
  let w := mkTick s (replicate 7 (at_hall 10 false)) None small_conv (replicate 6 jc_idle) GC_NoGripper [] in
  hs_active s = true /\ exists calls, tk_calls (fst (seq_tick w)) = calls ++ restore_all (tk_sys (fst (seq_tick w))).
Proof.
  split; [vm_compute; reflexivity|]. apply failing_tick_is_idle. vm_compute. reflexivity.
Defined.

(** ** A validated configuration *)

Lemma home_list_in m j : (j < MAX_JOINTS)%nat -> nth j m false = true -> j ∈ home_list m.
Proof. intros Hj Hm. apply list_elem_of_In, filter_In. rewrite in_seq. split; [lia|done]. Qed.

Lemma mask_in js j mask :
  length mask = MAX_JOINTS -> (j < MAX_JOINTS)%nat -> Z.of_nat j ∈ js \/ nth j mask false = true ->
  nth j (fold_left (fun mask j => <[Z.to_nat j := true]> mask) js mask) false = true.
Proof.
  revert mask. induction js as [|z js IH]; intros mask Hl Hj Hin; cbn [fold_left].
  - destruct Hin as [?%not_elem_of_nil|]; done.
  - apply IH; [by rewrite length_insert|done|].
    destruct (decide (Z.to_nat z = j)) as [Ez|Hne].
    + right. subst j. apply nth_lookup_Some, list_lookup_insert_eq. lia.
    + destruct Hin as [[Ez|Hin]%elem_of_cons|Hin]; [lia|by left|right].
      rewrite nth_lookup in Hin |- *. by rewrite list_lookup_insert_ne.
Qed.

(** The planned groups are the joints the configured steps home. *)
Lemma planned_groups dt steps j :
  (j < MAX_JOINTS)%nat -> Z.of_nat j ∈ homed_joints steps ->
  j ∈ concat (map home_list (map sp_home_joints (map (plan_step dt) steps))).
Proof.
  intros Hj. unfold homed_joints. induction steps as [|s steps IH]; [by intros ?%not_elem_of_nil|]. cbn [map concat].
  rewrite !elem_of_app. intros [Hin|Hin]; [left|auto].
  apply home_list_in; [done|]. cbn [plan_step sp_home_joints]. unfold home_mask. apply mask_in; [done|done|by left].
Qed.

(** An arm: one joint configuration per joint, the homing section validated. *)
Record bundle_ok (b : HomingBundle) : Prop := {
  bo_joints : length (hb_joints b) = MAX_JOINTS;
  bo_homing : validate_homing MAX_JOINTS (hb_homing b) = None;
}.

Lemma new_homers b : bundle_ok b -> length (hs_homers (homing_new b)) = NUM_NODES.
Proof.
  intros [Hj Hv]. apply validate_homing_none in Hv as [Hc _ _ _ _ _].
  unfold homing_new. cbv zeta. destruct (plan_sequence _ _) as [steps gp]. cbn [hs_homers sput_sequence_timeout_ticks].
  destruct (hb_joints b) as [|j0 js]; [done|]. destruct (hc_joints (hb_homing b)) as [|c0 cs]; [done|].
  cbn [combine map]. rewrite length_app. cbn [length]. rewrite !length_map, length_combine.
  cbn [length] in Hj, Hc. unfold gripper_homer. destruct (tool_params _ _ _); cbn [length]; unfold MAX_JOINTS, NUM_NODES in *; lia.
Qed.

Lemma new_groups b j :
  bundle_ok b -> (j < MAX_JOINTS)%nat -> j ∈ all_groups (homing_new b).
Proof.
  intros [_ Hv] Hj. destruct (for_tool_stays_valid (hb_tool b) _ _ Hv) as [Hv' _].
  apply validate_homing_none in Hv' as [_ _ _ Hm _ _].
  apply (planned_groups (hb_dt b) _ _ Hj), (homed_all MAX_JOINTS); done.
Qed.

(** C22: finished means referenced: when the sequence of a validated configuration reports completion, every joint of the
    arm has been referenced, whichever tool is fitted and whatever the bus read on the way. *)
Theorem complete_means_every_joint_referenced b conv ticks j :
  bundle_ok b ->
  let run := seq_run (fst (seq_start (homing_new b))) conv ticks in
  SS_Complete ∈ map to_status (snd run) -> (j < MAX_JOINTS)%nat -> hs_statuses (fst run) !! j = Some HS_Done.
Proof.
  intros Hb run Hc Hj.
  pose proof (run_outcome ticks (fst (seq_start (homing_new b))) conv (start_progress _ (new_homers b Hb)) eq_refl) as Hr.
  fold run in Hr. destruct run as [s out]. destruct Hr as [_ Hr]. apply (Hr Hc).
  unfold all_groups. rewrite start_masks. by apply new_groups.
Qed.

Lemma complete_means_every_joint_referenced_witness :
  hs_statuses (fst (seq_run (fst (seq_start (homing_new (small_bundle hall_joint)))) small_conv hall_run)) !! 5%nat
  = Some HS_Done.
Proof.
  apply complete_means_every_joint_referenced; [by split; vm_compute| |unfold MAX_JOINTS; lia].
  apply list_elem_of_In. vm_compute. tauto.
Defined.
