(* ===== verification/HomingLimits.v ===== *)
(** * HomingLimits: the published current limit is the one the drive was told

    The sequencer sends limits when what an actuator seeks with changes and
    publishes the effective one every tick.  Over every run the published limit of
    an active sequence is the last one sent to that node. *)
From Stdlib Require Import SpecFloat.
From S2P Require Import Prelude F64 BusTypes Ring RtState CoreState Convert HomingConfig Homing HomingSeq HomingExample.

(** The current limit last sent to [node]. *)
Definition told_by (node : Z) (c : BusCall) (last : option real) : option real :=
  match c with
  | BC_SendLimits n _ ilim _ => if n =? node then Some ilim else last
  | BC_ResendNodeConfig _ _ => last
  end.
Definition last_limit (node : Z) (calls : list BusCall) : option real :=
  fold_left (fun last c => told_by node c last) calls None.

Lemma last_limit_snoc node calls c : last_limit node (calls ++ [c]) = told_by node c (last_limit node calls).
Proof. unfold last_limit. by rewrite fold_left_app. Qed.

(** Six arm joints, each actuator on a node of its own. *)
Record limits_wf (s : HomingSystem) : Prop := {
  lw_params : length (hs_params s) = MAX_JOINTS;
  lw_seeking : length (hs_seeking_limits s) = NUM_NODES;
  lw_nodes : NoDup (map hp_node (all_params s));
}.

Definition limit_now (s : HomingSystem) (i : nat) (p : HomerParams) : real :=
  if nth i (hs_seeking_limits s) false then sf_to_f32 (hp_current_ma p) else hp_normal_ilim p.

(** Every node was last told the limit that goes with what its actuator does. *)
Definition told (pre : list BusCall) (w : Tick) : Prop :=
  limits_wf (tk_sys w) /\
  forall i p, all_params (tk_sys w) !! i = Some p ->
    last_limit (hp_node p) (pre ++ tk_calls w) = Some (limit_now (tk_sys w) i p).

(** What a step that sends no limits leaves alone. *)
Record same_limits (w w' : Tick) : Prop := {
  sl_params : hs_params (tk_sys w') = hs_params (tk_sys w);
  sl_gripper : hs_gripper_params (tk_sys w') = hs_gripper_params (tk_sys w);
  sl_seeking : hs_seeking_limits (tk_sys w') = hs_seeking_limits (tk_sys w);
  sl_calls : tk_calls w' = tk_calls w;
}.

#[export] Instance same_limits_refl : Reflexive same_limits.
Proof. by constructor. Qed.
#[export] Instance same_limits_trans : Transitive same_limits.
Proof. intros a b c [] []. constructor; congruence. Qed.

Lemma told_same pre w w' : same_limits w w' -> told pre w -> told pre w'.
Proof.
  intros [H1 H2 H3 H4] [[W1 W2 W3] Ht]. unfold told, all_params, limit_now in *. rewrite H3, H4.
  split; [constructor; unfold all_params in *|]; by rewrite ?H1, ?H2, ?H3.
Qed.

(** Sending actuator [i] the limit that goes with [seeking]. *)
Lemma told_send pre w i p seeking vel limit reps f :
  told pre w -> all_params (tk_sys w) !! i = Some p ->
  limit = (if seeking : bool then sf_to_f32 (hp_current_ma p) else hp_normal_ilim p) ->
  (forall s, hs_params (f s) = hs_params s /\ hs_gripper_params (f s) = hs_gripper_params s /\
     hs_seeking_limits (f s) = <[i := seeking]> (hs_seeking_limits s)) ->
  told pre (upd_sys f (call (BC_SendLimits (hp_node p) vel limit reps) w)).
Proof.
  intros [[W1 W2 W3] Ht] Hi -> Hf. destruct (Hf (tk_sys w)) as (F1 & F2 & F3).
  assert (Hall : all_params (f (tk_sys w)) = all_params (tk_sys w)) by (unfold all_params; by rewrite F1, F2).
  split; [constructor; cbn; [by rewrite F1|by rewrite F3, length_insert|by rewrite Hall]|].
  cbn. rewrite Hall. intros k q Hq. rewrite app_assoc, last_limit_snoc. cbn. unfold limit_now. cbn. rewrite F3.
  destruct (decide (k = i)) as [->|Hne].
  - rewrite Hi in Hq. injection Hq as ->. rewrite Z.eqb_refl. f_equal. rewrite nth_lookup, list_lookup_insert_eq; [done|].
    apply lookup_lt_Some in Hi. unfold all_params in Hi. rewrite length_app, W1 in Hi. rewrite W2.
    destruct (hs_gripper_params _); cbn in Hi; unfold MAX_JOINTS, NUM_NODES in *; lia.
  - assert (Hnode : hp_node p <> hp_node q).
    { intros E. apply Hne. eapply NoDup_lookup; [exact W3|..]; by rewrite list_lookup_fmap, ?Hq, ?Hi; cbn; f_equal. }
    destruct (Z.eqb_spec (hp_node p) (hp_node q)); [done|]. rewrite (Ht k q Hq). unfold limit_now.
    rewrite !nth_lookup, list_lookup_insert_ne by done. done.
Qed.

Lemma phase_limit_told pre seeks w i p :
  told pre w -> all_params (tk_sys w) !! i = Some p ->
  told pre (phase_limit seeks w (i, p)) /\ all_params (tk_sys (phase_limit seeks w (i, p))) = all_params (tk_sys w).
Proof.
  intros Ht Hi. unfold phase_limit. cbv zeta. destruct (Bool.eqb _ _); [done|]. split; [|done].
  match goal with |- told _ (upd_sys (put_seeking _ ?b) _) => by apply (told_send _ _ i p b _ _ _ (put_seeking i b)) end.
Qed.

Lemma combine_seq {A} (l : list A) m k i x :
  combine (seq m (length l)) l !! k = Some (i, x) -> i = (m + k)%nat /\ l !! k = Some x.
Proof.
  revert m k. induction l as [|y l IH]; intros m k; cbn; [done|]. destruct k as [|k]; cbn.
  - intros [= <- <-]. split; [lia|done].
  - intros H%IH. split; [lia|apply H].
Qed.

Lemma apply_limits_told pre w : told pre w -> told pre (apply_phase_limits w).
Proof.
  unfold apply_phase_limits. set (seeks := part_seeks _). clearbody seeks. intros Ht.
  assert (Hin : Forall (fun ip => all_params (tk_sys w) !! (ip : nat * HomerParams).1 = Some ip.2)
                  (combine (seq 0 (length (all_params (tk_sys w)))) (all_params (tk_sys w)))).
  { apply Forall_lookup. intros k [i p] Hk. cbn. by apply combine_seq in Hk as [-> Hk]. }
  revert Hin. generalize (combine (seq 0 (length (all_params (tk_sys w)))) (all_params (tk_sys w))).
  intros ps. revert w Ht. induction ps as [|[i p] ps IH]; intros w Ht Hin; cbn [fold_left]; [done|].
  inversion Hin as [|? ? Hi Hps]; subst. destruct (phase_limit_told pre seeks w i p Ht Hi) as [Ht1 Hall].
  apply IH; [done|]. by rewrite Hall.
Qed.

(** ** The parts *)

Lemma tick_move_limits m w : same_limits w (snd (fst (tick_move m w))).
Proof. unfold tick_move. cbv zeta. repeat case_match; simplify_eq; by constructor. Qed.

Lemma tick_move_to_limits m w : same_limits w (snd (fst (tick_move_to m w))).
Proof. unfold tick_move_to. cbv zeta. repeat case_match; simplify_eq; by constructor. Qed.

Lemma tick_moves_limits ms w : same_limits w (snd (fst (fst (tick_moves ms w)))).
Proof.
  revert w. induction ms as [|m ms IH]; intros w; cbn [tick_moves]; [done|].
  pose proof (tick_move_limits m w) as H1. destruct (tick_move m w) as [[m1 w1] r]. cbn [fst snd] in H1.
  set (dw := match r with inl done => (done, w1) | inr j => _ end).
  assert (H2 : same_limits w1 (snd dw)) by (unfold dw; destruct r; by constructor).
  destruct dw as [d w2]. specialize (IH w2). destruct (tick_moves ms w2) as [[[ms1 w3] ad] af]. cbn in *.
  etransitivity; [exact H1|]. by etransitivity.
Qed.

Lemma tick_move_tos_limits ms w : same_limits w (snd (fst (fst (tick_move_tos ms w)))).
Proof.
  revert w. induction ms as [|m ms IH]; intros w; cbn [tick_move_tos]; [done|].
  pose proof (tick_move_to_limits m w) as H1. destruct (tick_move_to m w) as [[m1 w1] r]. cbn [fst snd] in H1.
  set (w2 := match r with Some _ => w1 | None => _ end).
  assert (H2 : same_limits w1 w2) by (unfold w2; destruct r; by constructor).
  specialize (IH w2). destruct (tick_move_tos ms w2) as [[[ms1 w3] ad] af]. cbn in *.
  etransitivity; [exact H1|]. by etransitivity.
Qed.

Lemma referenced_told pre j p w : told pre w -> all_params (tk_sys w) !! j = Some p -> told pre (referenced j p w).
Proof.
  intros Ht Hj. unfold referenced. by apply (told_send _ _ j p false _ _ _ (fun s => put_status j HS_Done (put_seeking j false s))).
Qed.

Lemma joint_referenced_told pre j p l w :
  told pre w -> all_params (tk_sys w) !! j = Some p -> told pre (joint_referenced j p l w).
Proof.
  intros Ht Hj. unfold joint_referenced. cbv zeta.
  set (w1 := match conv_at w j with Some c => _ | None => w end).
  assert (H1 : same_limits w w1) by (unfold w1; destruct (conv_at w j); by constructor).
  assert (Hj1 : all_params (tk_sys w1) !! j = Some p) by (destruct H1 as [E1 E2 _ _]; unfold all_params in *; by rewrite E1, E2).
  pose proof (referenced_told pre j p w1 (told_same _ _ _ H1 Ht) Hj1) as H2.
  destruct (hp_post p); [|done]. destruct (homer_at _ _); [|done]. eapply told_same; [|exact H2]. by constructor.
Qed.

Lemma home_joint_told pre j w : told pre w -> told pre (fst (home_joint j w)).
Proof.
  intros Ht. unfold home_joint. cbv zeta. destruct (homer_at _ _) as [h|]; [|done].
  destruct (hs_params (tk_sys w) !! j) as [p|] eqn:Ej; [|done]. destruct (negb _); [done|].
  destruct (homer_tick p _ h) as [[[h1 n1] c1] ev]. set (w1 := put_cmd j c1 _).
  assert (H1 : told pre w1) by (eapply told_same; [|exact Ht]; by constructor).
  destruct ev as [[l|]|]; cbn [fst].
  - apply joint_referenced_told; [done|]. unfold all_params. by apply lookup_app_l_Some.
  - eapply told_same; [|exact H1]. by constructor.
  - done.
Qed.

Lemma home_joints_told pre js w : told pre w -> told pre (fst (home_joints js w)).
Proof.
  revert w. induction js as [|j js IH]; intros w Ht; cbn [home_joints]; [done|].
  pose proof (home_joint_told pre j w Ht) as H1. destruct (home_joint j w) as [w1 f1].
  specialize (IH w1 H1). by destruct (home_joints js w1).
Qed.

Lemma home_gripper_told pre mode w : told pre w -> told pre (fst (home_gripper mode w)).
Proof.
  intros Ht. unfold home_gripper. destruct mode as [[|]|]; [| |done].
  - unfold home_gripper_motor. cbv zeta. destruct (homer_at _ _) as [h|]; [|done].
    destruct (hs_gripper_params (tk_sys w)) as [p|] eqn:Ep; [|done]. destruct (negb _); [done|].
    destruct (homer_tick p _ h) as [[[h1 n1] c1] ev]. set (w1 := put_gcmd _ _).
    assert (H1 : told pre w1) by (eapply told_same; [|exact Ht]; by constructor).
    destruct ev as [[l|]|]; cbn [fst].
    + set (w2 := upd_sys _ w1). assert (H2 : told pre w2) by (eapply told_same; [|exact H1]; by constructor).
      apply referenced_told; [done|]. destruct H2 as [[W1 _ _] _]. unfold GRIPPER_SLOT, all_params. rewrite <- W1.
      rewrite lookup_app_r by done. rewrite Nat.sub_diag. cbn. by rewrite Ep.
    + eapply told_same; [|exact H1]. by constructor.
    + done.
  - eapply told_same; [|exact Ht]. unfold home_gripper_firmware. cbv zeta. repeat case_match; simplify_eq; by constructor.
Qed.


Lemma start_group_limits step w : same_limits w (upd_sys (start_group step) w).
Proof.
  assert (H : forall js s, let s' := fold_left (fun s j => start_homer j s) js s in
     hs_params s' = hs_params s /\ hs_gripper_params s' = hs_gripper_params s /\ hs_seeking_limits s' = hs_seeking_limits s).
  { intros js. induction js as [|j js IH]; intros s; cbn [fold_left]; [done|].
    destruct (IH (start_homer j s)) as (-> & -> & ->). unfold start_homer. by destruct (homer_at s j). }
  assert (Hsys : forall s, let s' := start_group step s in
     hs_params s' = hs_params s /\ hs_gripper_params s' = hs_gripper_params s /\ hs_seeking_limits s' = hs_seeking_limits s).
  { intros s. cbv zeta. unfold start_group. cbv zeta.
    destruct (H (home_list (sp_home_joints step)) s) as (<- & <- & <-). set (s1 := fold_left _ _ s). clearbody s1.
    unfold start_homer. destruct (sp_home_gripper step) as [[|]|]; repeat case_match; done. }
  destruct (Hsys (tk_sys w)) as (H1 & H2 & H3). by constructor.
Qed.

Lemma next_step_limits w : same_limits w (upd_sys next_step w).
Proof.
  assert (H : forall s, let s' := next_step s in
     hs_params s' = hs_params s /\ hs_gripper_params s' = hs_gripper_params s /\ hs_seeking_limits s' = hs_seeking_limits s)
    by (intros s; unfold next_step; cbv zeta; by destruct (_ <? _)%nat).
  destruct (H (tk_sys w)) as (H1 & H2 & H3). by constructor.
Qed.

(** A tick that leaves the sequence active leaves every node told. *)
Lemma tick_told pre w : told pre w -> hs_active (tk_sys (fst (seq_tick w))) = true -> told pre (fst (seq_tick w)).
Proof.
  intros Ht. unfold seq_tick. set (w0 := liveness_defaults w).
  assert (H0 : told pre w0) by (eapply told_same; [|exact Ht]; by constructor).
  destruct (negb _); [done|]. set (w1 := upd_sys _ w0).
  assert (H1 : told pre w1) by (eapply told_same; [|exact H0]; by constructor).
  assert (Hfail : forall w, hs_active (tk_sys (fst (seq_fail w))) = true -> told pre (fst (seq_fail w))).
  { intros w2. unfold seq_fail. cbn [fst]. by rewrite calls_sys. }
  destruct (_ <=? _); [apply Hfail|]. pose proof (apply_limits_told pre w1 H1) as H2.
  set (w2 := apply_phase_limits w1) in *. clearbody w2.
  assert (Hglob : hs_active (tk_sys (fst (tick_global_post w2))) = true -> told pre (fst (tick_global_post w2))).
  { unfold tick_global_post. pose proof (tick_moves_limits (hs_global_post (tk_sys w2)) w2) as H3.
    destruct (tick_moves _ w2) as [[[ms w3] ad] f]. cbn in H3. destruct f; [apply Hfail|]. intros _.
    eapply told_same; [|exact H2]. etransitivity; [exact H3|]. repeat case_match; by constructor. }
  destruct (step_at _) as [step|]; [|done]. destruct (hs_part _).
  - unfold tick_pre. pose proof (tick_moves_limits (sp_pre step) w2) as H3.
    destruct (tick_moves _ w2) as [[[ms w3] ad] f]. cbn in H3. destruct f; [apply Hfail|]. intros _.
    eapply told_same; [|exact H2]. etransitivity; [exact H3|]. destruct ad; by constructor.
  - intros _. eapply told_same; [apply start_group_limits|done].
  - unfold tick_home. pose proof (home_joints_told pre (home_list (sp_home_joints step)) w2 H2) as H3.
    destruct (home_joints _ w2) as [w3 f3]. pose proof (home_gripper_told pre (sp_home_gripper step) w3 H3) as H4.
    destruct (home_gripper _ w3) as [w4 f4]. cbn in H3, H4. destruct (f3 || f4); [apply Hfail|]. intros _.
    eapply told_same; [|exact H4]. case_match; by constructor.
  - unfold tick_part_move_to. pose proof (tick_move_tos_limits (sp_move_to step) w2) as H3.
    destruct (tick_move_tos _ w2) as [[[ms w3] ad] f]. cbn in H3. destruct f; [apply Hfail|]. intros _.
    eapply told_same; [|exact H2]. etransitivity; [exact H3|]. destruct ad; by constructor.
  - unfold tick_post_moves. pose proof (tick_moves_limits (sp_post step) w2) as H3.
    destruct (tick_moves _ w2) as [[[ms w3] ad] f]. cbn in H3. destruct f; [apply Hfail|]. intros _.
    eapply told_same; [|exact H2]. etransitivity; [exact H3|]. etransitivity; [|destruct ad; [apply next_step_limits|reflexivity]].
    by constructor.
  - done.
Qed.

(** ** Runs *)

Definition told_state (pre : list BusCall) (s : HomingSystem) : Prop :=
  told pre (mkTick s [] None [] [] GC_NoGripper []).

Lemma run_told ticks pre s conv :
  (hs_active s = true -> told_state pre s) ->
  let run := seq_run s conv ticks in
  hs_active (fst run) = true -> told_state (pre ++ concat (map to_calls (snd run))) (fst run).
Proof.
  revert pre s conv. induction ticks as [|r ticks IH]; intros pre s conv Hs; cbn [seq_run].
  - cbn. rewrite app_nil_r. done.
  - set (w := mkTick s _ _ _ _ _ _). destruct (seq_tick w) as [w1 st] eqn:E. 
    assert (Hw1 : hs_active (tk_sys w1) = true -> told pre w1).
    { intros Ha. assert (Hact : hs_active s = true).
      { destruct (hs_active s) eqn:Es; [done|]. unfold seq_tick in E. cbn [tk_sys liveness_defaults put_gcmd put_cmds w] in E.
        rewrite Es in E. injection E as <- _. cbn in Ha. congruence. }
      pose proof (tick_told pre w) as Ht. rewrite E in Ht. apply Ht; [exact (Hs Hact)|done]. }
    specialize (IH (pre ++ tk_calls w1) (tk_sys w1) (tk_conv w1)).
    destruct (seq_run (tk_sys w1) _ ticks) as [s' out]. cbn in IH |- *. rewrite app_assoc. apply IH.
    intros Ha. destruct (Hw1 Ha) as [W Ht]. split; [exact W|]. intros i p Hi. rewrite app_nil_r. by apply Ht.
Qed.

(** The arm's nodes and the gripper's are distinct, and there is an FSM per joint. *)
Record nodes_wf (s : HomingSystem) : Prop := {
  nw_params : length (hs_params s) = MAX_JOINTS;
  nw_nodes : NoDup (map hp_node (all_params s));
}.

Lemma restored_calls ps pre i p :
  NoDup (map hp_node ps) -> ps !! i = Some p -> last_limit (hp_node p) (pre ++ map restored ps) = Some (hp_normal_ilim p).
Proof.
  intros Hnd. revert i. induction ps as [|q ps IH] using rev_ind; intros i Hi; [done|].
  rewrite map_app, app_assoc. cbn [map]. rewrite last_limit_snoc. cbn.
  rewrite map_app in Hnd. apply NoDup_app in Hnd as (Hnd & Hdis & _).
  destruct (Z.eqb_spec (hp_node q) (hp_node p)) as [E|Hne].
  - apply lookup_app_Some in Hi as [Hi|[_ Hi]].
    + exfalso. apply (Hdis (hp_node p)); [apply list_elem_of_fmap; exists p; split; [done|by eapply list_elem_of_lookup_2]|].
      rewrite <- E. cbn. left.
    + by apply list_lookup_singleton_Some in Hi as [_ ->].
  - apply lookup_app_Some in Hi as [Hi|[_ Hi]]; [by eapply IH|].
    by apply list_lookup_singleton_Some in Hi as [_ ->].
Qed.

Lemma no_seeking n k : nth k (replicate n false) false = false.
Proof. rewrite nth_lookup. destruct (_ !! k) eqn:Ek; [by apply lookup_replicate in Ek as [-> _]|done]. Qed.

Lemma start_limits s :
  hs_params (fst (seq_start s)) = hs_params s /\ hs_gripper_params (fst (seq_start s)) = hs_gripper_params s /\
  hs_seeking_limits (fst (seq_start s)) = replicate NUM_NODES false /\ snd (seq_start s) = map restored (all_params s).
Proof. by split_and!. Qed.

Lemma start_told s : nodes_wf s -> told_state (snd (seq_start s)) (fst (seq_start s)).
Proof.
  intros [W1 W2]. destruct (start_limits s) as (E1 & E2 & E3 & E4). rewrite E4. generalize dependent (fst (seq_start s)).
  intros s0 E1 E2 E3. assert (Ep : all_params s0 = all_params s) by (unfold all_params; by rewrite E1, E2).
  split; cbn [tk_sys tk_calls].
  - constructor; [by rewrite E1|by rewrite E3|by rewrite Ep].
  - rewrite Ep. intros k q Hk. rewrite app_nil_r. unfold limit_now. rewrite E3, no_seeking.
    by apply (restored_calls _ [] k).
Qed.

Lemma published_limit s i p :
  hs_active s = true -> (i < NUM_NODES)%nat -> all_params s !! i = Some p ->
  nth i (hst_effective_current_limit_ma (seq_status s)) real_0 = limit_now s i p.
Proof.
  intros Ha Hi Hp. unfold seq_status. cbn [hst_effective_current_limit_ma]. apply nth_lookup_Some.
  change (map ?f (seq 0 NUM_NODES)) with (f <$> seq 0 NUM_NODES).
  rewrite list_lookup_fmap, lookup_seq_lt by done. cbn [fmap option_fmap option_map plus]. rewrite Hp.
  unfold effective_limit. by rewrite Ha.
Qed.

(** While a sequence runs, the effective current limit published for an actuator is the one its drive was last sent:
    the seeking current while it seeks, the normal limit otherwise. *)
Lemma published_limit_is_the_last_sent s conv ticks i p :
  nodes_wf s ->
  let run := seq_run (fst (seq_start s)) conv ticks in
  hs_active (fst run) = true -> all_params (fst run) !! i = Some p ->
  last_limit (hp_node p) (snd (seq_start s) ++ concat (map to_calls (snd run))) =
    Some (nth i (hst_effective_current_limit_ma (seq_status (fst run))) real_0).
Proof.
  intros Hwf run Ha Hi. pose proof (start_told s Hwf) as H0.
  destruct (run_told ticks (snd (seq_start s)) (fst (seq_start s)) conv (fun _ => H0) Ha) as [[V1 V2 V3] Ht].
  fold run in V1, V2, V3, Ht. specialize (Ht i p Hi). rewrite app_nil_r in Ht. rewrite Ht. f_equal. symmetry.
  apply published_limit; [done| |done].
  apply lookup_lt_Some in Hi. unfold all_params in Hi. cbn [tk_sys] in V1. rewrite length_app, V1 in Hi.
  destruct (hs_gripper_params _); cbn in Hi; unfold MAX_JOINTS, NUM_NODES in *; lia.
Qed.

Lemma published_limit_is_the_last_sent_witness :
  let s := homing_new (small_bundle hall_joint) in
  let run := seq_run (fst (seq_start s)) small_conv (take 5 hall_run) in
  last_limit 3 (snd (seq_start s) ++ concat (map to_calls (snd run))) =
    Some (nth 3 (hst_effective_current_limit_ma (seq_status (fst run))) real_0).
Proof.
  set (p := nth 3 (hs_params (homing_new (small_bundle hall_joint))) hall_params).
  apply (published_limit_is_the_last_sent (homing_new (small_bundle hall_joint)) small_conv (take 5 hall_run) 3 p).
  - split; [vm_compute; reflexivity|]. apply (bool_decide_unpack _). vm_compute. exact I.
  - vm_compute. reflexivity.
  - vm_compute. reflexivity.
Defined.
