(* ===== verification/HomingCore.v ===== *)
(** * HomingCore: the homing sequence as the core's sequencer

    The collaborators of the core with [HomingSystem] in the sequencer's place and
    its bus calls played on the bus: what the core relies on of a sequencer holds of
    this one, so the core's theorems hold with it, and a sequence that completes
    homes the arm. *)
From Stdlib Require Import SpecFloat.
From S2P Require Import Prelude F64 BusTypes Ring RtState Gripper Gpio CoreState Core CoreExample CoreSafety.
From S2P Require Import Convert HomingConfig Homing HomingSeq HomingExample HomingSeqProps.

Section sequenced.
Context (D : CoreDeps) (bus_send_limits : bus_t -> Z -> real -> real -> Z -> bus_t).

(** One call of the sequencer on the bus; its result is ignored. *)
Definition play (b : bus_t) (c : BusCall) : bus_t :=
  match c with
  | BC_SendLimits node vel ilim repeats => bus_send_limits b node vel ilim repeats
  | BC_ResendNodeConfig node repeats => fst (bus_resend_node_config b node repeats)
  end.

Definition sequenced : CoreDeps := {|
  bus_t := @bus_t D;
  bus_is_silent := bus_is_silent;
  bus_set_silent := bus_set_silent;
  bus_rebase_freshness := bus_rebase_freshness;
  bus_send_clear_error := bus_send_clear_error;
  bus_clear_lost_latch := bus_clear_lost_latch;
  bus_resend_node_config := bus_resend_node_config;
  bus_queue_poll_override := bus_queue_poll_override;
  bus_link_health := bus_link_health;
  bus_freshness := bus_freshness;
  bus_set_can_id := bus_set_can_id;
  bus_save_config := bus_save_config;
  bus_set_tool_id := bus_set_tool_id;
  bus_retune_node := bus_retune_node;
  homing_t := HomingSystem;
  homing_start h b := (fst (seq_start h), fold_left play (snd (seq_start h)) b);
  homing_abort h b := (fst (seq_abort h), fold_left play (snd (seq_abort h)) b);
  homing_active := hs_active;
  homing_last_fw_cmd := hs_last_fw_cmd;
  homing_clear_faults := clear_faults;
  homing_calibration_failed := hs_cal_failed;
  homing_statuses := hs_statuses;
  homing_retune h node tune := retune node tune h;
  jog_t := @jog_t D;
  jog_activate := jog_activate;
  jog_command := jog_command;
  jog_set_accel_scale := jog_set_accel_scale;
  jog_release := jog_release;
  track_t := @track_t D;
  track_activate := track_activate;
  track_release := track_release;
  grav_t := @grav_t D;
  grav_set_payload := grav_set_payload;
|}.

(** Sending limits neither silences the bus nor ends its silence. *)
Context (L : @BusSilenceLaws D)
  (silent_limits : forall b node vel ilim repeats, bus_is_silent (bus_send_limits b node vel ilim repeats) = bus_is_silent b).

Lemma play_silent calls b : bus_is_silent (fold_left play calls b) = bus_is_silent b.
Proof.
  revert b. induction calls as [|c calls IH]; intros b; [done|]. cbn. rewrite IH. destruct c; cbn.
  - apply silent_limits.
  - apply silent_resend.
Qed.

Lemma sequenced_laws : @BusSilenceLaws sequenced.
Proof. destruct L. constructor; cbn; auto using play_silent. Qed.

(** ** A sequence that completes homes the arm *)

#[local] Instance the_sequencer : CoreDeps := sequenced.
#[local] Instance the_laws : BusSilenceLaws := sequenced_laws.
#[local] Abbreviation core := (@RtCore the_sequencer).

Lemma resend_homing n (c : core) : c_homing (resend_config n c) = c_homing c.
Proof. unfold resend_config. by destruct (bus_resend_node_config _ _ _) as [b []]. Qed.

Lemma repush_homing (c : core) : c_homing (config_repush c) = c_homing c.
Proof.
  unfold config_repush.
  assert (H : forall ns (c : core), c_homing (fold_left (fun c n => resend_config n c) ns c) = c_homing c).
  { intros ns. induction ns as [|n ns IH]; intros c0; [done|]. cbn [fold_left]. by rewrite IH, resend_homing. }
  destruct (c_has_can_gripper _); [rewrite resend_homing|]; apply H.
Qed.

Lemma enter_idle_homed (c : core) : c_mode c = Homing -> hs_active (c_homing c) = false -> c_homed (enter_mode Idle c) = c_homed c.
Proof. intros Hm Ha. unfold enter_mode, leave_mode. rewrite Hm. cbn [homing_active sequenced the_sequencer]. by rewrite Ha. Qed.

Lemma all_referenced (c : core) :
  (forall j, (j < MAX_JOINTS)%nat -> hs_statuses (c_homing c) !! j = Some HS_Done) -> unreferenced c = [].
Proof.
  intros H. unfold unreferenced.
  assert (Hin : forall l, (forall j, In j l -> (j < MAX_JOINTS)%nat) ->
    List.filter (fun i => match @homing_statuses the_sequencer (c_homing c) !! i with
                          | Some s => negb (bool_decide (s = HS_Done)) | None => true end) l = []).
  { intros l. induction l as [|j l IH]; intros Hl; [done|]. cbn [List.filter]. cbn [homing_statuses the_sequencer sequenced].
    rewrite (H j) by (apply Hl; by left). rewrite bool_decide_true by done. cbn [negb]. apply IH. intros k Hk. apply Hl. by right. }
  apply Hin. intros j Hj%in_seq. lia.
Qed.

(** C23: with the homing sequence as the core's sequencer, completing it homes the arm: when the sequence of a validated
    configuration has completed, the core leaves HOMING for IDLE with the arm homed, never with the homed flag refused
    for a joint left unreferenced. *)
Theorem completed_sequence_homes_the_arm b conv ticks (c : core) :
  bundle_ok b -> c_mode c = Homing ->
  c_homing c = fst (seq_run (fst (seq_start (homing_new b))) conv ticks) ->
  SS_Complete ∈ map to_status (snd (seq_run (fst (seq_start (homing_new b))) conv ticks)) ->
  c_homed (homing_complete c) = true /\ c_mode (homing_complete c) = Idle.
Proof.
  intros Hb Hm Hh Hc.
  pose proof (run_outcome ticks (fst (seq_start (homing_new b))) conv (start_progress _ (new_homers b Hb)) eq_refl) as Hr.
  destruct (seq_run _ conv ticks) as [s out]. cbn [fst snd] in *. destruct Hr as [_ Hr]. destruct (Hr Hc) as [Ha Hdone].
  assert (Hu : unreferenced c = []).
  { apply all_referenced. intros j Hj. rewrite Hh. apply Hdone. unfold all_groups. rewrite start_masks. by apply new_groups. }
  unfold homing_complete. rewrite Hu. cbv zeta. set (c1 := set_not_homed_refused false (set_homed true c)).
  assert (H1 : c_homing (homing_handback (config_repush c1)) = s).
  { transitivity (c_homing (config_repush c1)); [|by rewrite repush_homing].
    unfold homing_handback. by destruct (c_has_can_gripper _). }
  destruct (repush_keeps c1) as (R1 & _ & _ & R4 & _).
  destruct (handback_keeps (config_repush c1)) as (K1 & _ & _ & K4 & _).
  split; [|done]. rewrite enter_idle_homed; [by rewrite K4, R4|by rewrite K1, R1|by rewrite H1].
Qed.
End sequenced.

(** An idle arm about to finish the small bundle's sequence. *)
Definition limits_logged (b : TraceBus) (node : Z) (vel ilim : real) (repeats : Z) : TraceBus := b.

#[local] Instance traced_sequencer : CoreDeps := sequenced trace_deps limits_logged.

Definition homing_core : @RtCore traced_sequencer :=
  mkRtCore 100 (mkTraceBus false [] [] []) (replicate 16 node_default)
    None false 0 0 2 [0; 1; 2; 3; 4; 5] 6 false tt (f64_0, replicate 3 f64_0, None) tt tt tt
    exec_example (replicate 8 0) [] 4 4 false false
    (fst (seq_run (fst (seq_start (homing_new (small_bundle hall_joint)))) small_conv hall_run))
    (replicate MAX_JOINTS f64_0) 0 false
    (mkErrorManager [] 38 0) (replicate 7 true) 0 0 0 0 0 50 Homing Enabled 0 false
    false false false false false false (replicate MAX_JOINTS f64_0) (replicate MAX_JOINTS f64_0)
    f64_0 10 (replicate MAX_JOINTS 0) (replicate MAX_JOINTS f64_0) (replicate MAX_JOINTS f64_0)
    gate_default
    (mkSettle (mkSettleTicks 2 1 500 3000 100) None 0 false 0 (mkToolStatus Unarmed 0)) false false false false 0 0 true 0 50 None false
    (replicate MAX_JOINTS f64_0) f64_1 0 100 50 0 0 0 0 0 (replicate MAX_JOINTS f64_0)
    None 0 5 0.

Lemma completed_sequence_homes_the_arm_witness :
  c_homed homing_core = false /\ c_homed (homing_complete homing_core) = true /\ c_mode (homing_complete homing_core) = Idle.
Proof.
  split; [vm_compute; reflexivity|].
  apply (completed_sequence_homes_the_arm trace_deps limits_logged trace_laws (fun _ _ _ _ _ => eq_refl)
           (small_bundle hall_joint) small_conv hall_run homing_core).
  - by split; vm_compute.
  - reflexivity.
  - reflexivity.
  - apply list_elem_of_In. vm_compute. tauto.
Defined.
