(* ===== verification/Joints.v ===== *)
(** * Joints: one value per joint

    The fixed arrays [[T; MAX_JOINTS]] of the real-time core as lists, filled by the
    loop [for i in 0..MAX_JOINTS]. *)
From S2P Require Import Prelude Ring.

(** [for i in 0..MAX_JOINTS { out[i] = f(i) }]. *)
Definition per_joint {A} (f : nat -> A) : list A := map f (seq 0 MAX_JOINTS).

Section Joints.
Context {A : Type}.
Implicit Types (l : list A) (f : nat -> A).

Lemma per_joint_length f : length (per_joint f) = MAX_JOINTS.
Proof. done. Qed.

Lemma per_joint_lookup f i : (i < MAX_JOINTS)%nat -> per_joint f !! i = Some (f i).
Proof. intros Hi. unfold per_joint. by rewrite (list_lookup_fmap f), lookup_seq_lt. Qed.

Lemma per_joint_total `{Inhabited A} f i : (i < MAX_JOINTS)%nat -> per_joint f !!! i = f i.
Proof. intros Hi. by rewrite list_lookup_total_alt, per_joint_lookup. Qed.

Lemma per_joint_const (x : A) : per_joint (fun _ => x) = replicate MAX_JOINTS x.
Proof. done. Qed.

(** A list of joints is its entries. *)
Lemma joints_ext l f :
  length l = MAX_JOINTS -> (forall i, (i < MAX_JOINTS)%nat -> l !! i = Some (f i)) -> l = per_joint f.
Proof.
  intros Hl H. apply list_eq. intros i. destruct (decide (i < MAX_JOINTS)%nat) as [Hi|Hi].
  - by rewrite H, per_joint_lookup.
  - rewrite !lookup_ge_None_2; [done|rewrite per_joint_length; lia|lia].
Qed.
End Joints.
