(* ===== verification/Dispatch.v ===== *)
(** * Dispatch: the output law of each mode and the commit to the drives
    (crates/par6-rt/src/dispatch.rs)

    A law computes one [JointSetpoint] per joint; [commit] turns setpoints into
    motor-space commands, rate-limits the torque against the last one commanded
    ([TorqueSlew]) and records what was sent ([CommandMirror]).  The theorems: a
    joint's command depends on its own setpoint only; the two protective laws put
    zero on the wire whatever the calibration and the last command; a limited
    torque moves by a clamped step, from zero after a protective tick. *)
From Stdlib Require Import SpecFloat.
From stdpp Require Import sets.
From S2P Require Import Prelude F64 BusTypes Ring Joints Convert.

(** ** Setpoints and laws *)

Record JointSetpoint := mkJointSetpoint {
  js_pos_rad : option f64;
  js_vel_rad_s : option f64;
  js_torque_nm : option f64;
  js_pack : Pack;
}.

Definition zero_velocity : JointSetpoint := mkJointSetpoint None (Some f64_0) (Some f64_0) Pk_Pid.
Definition torque_only (nm : f64) : JointSetpoint := mkJointSetpoint None None (Some nm) Pk_Pid.

#[export] Instance JointSetpoint_inhabited : Inhabited JointSetpoint := populate zero_velocity.

Definition law_booting : list JointSetpoint := replicate MAX_JOINTS zero_velocity.

Definition law_idle (gravity_hold : bool) (g : list f64) : list JointSetpoint :=
  if gravity_hold then per_joint (fun i => torque_only (g !!! i))
  else replicate MAX_JOINTS zero_velocity.

Definition law_active_error : list JointSetpoint := replicate MAX_JOINTS zero_velocity.

Definition law_safety_stop : list JointSetpoint := replicate MAX_JOINTS (torque_only f64_0).

Definition law_jog (q_target qd_target : list f64) (gravity_applied : bool) (g : list f64) (pack : Pack)
  : list JointSetpoint :=
  per_joint (fun i =>
    mkJointSetpoint (Some (q_target !!! i)) (Some (qd_target !!! i))
      (Some (if gravity_applied then g !!! i else f64_0)) pack).

Definition law_exec (q qd tau_ff : list f64) (gravity_applied : bool) (g : list f64) : list JointSetpoint :=
  per_joint (fun i =>
    let grav := if gravity_applied then g !!! i else f64_0 in
    mkJointSetpoint (Some (q !!! i)) (Some (qd !!! i)) (Some (tau_ff !!! i +! grav)) Pk_Pid).

Definition law_stream (q qd : list f64) (gravity_applied : bool) (g : list f64) : list JointSetpoint :=
  per_joint (fun i =>
    mkJointSetpoint (Some (q !!! i)) (Some (qd !!! i))
      (Some (if gravity_applied then g !!! i else f64_0)) Pk_Pid).

(** ** What was sent, and the torque slew *)

Record CommandMirror := mkMirror { mi_q : list f64; mi_qd : list f64; mi_tau : list f64 }.

Definition mirror_default : CommandMirror :=
  mkMirror (replicate MAX_JOINTS f64_nan) (replicate MAX_JOINTS f64_nan) (replicate MAX_JOINTS f64_0).

Record TorqueSlew := mkSlew { ts_applied : list f64; ts_max_step : list f64 }.

Definition slew_new (max_step : list f64) : TorqueSlew := mkSlew (replicate MAX_JOINTS f64_0) max_step.
Definition slew_reset (s : TorqueSlew) : TorqueSlew := mkSlew (replicate MAX_JOINTS f64_0) (ts_max_step s).
Definition slew_seed (applied : list f64) (s : TorqueSlew) : TorqueSlew := mkSlew applied (ts_max_step s).

Definition slew_set (i : nat) (v : f64) (s : TorqueSlew) : TorqueSlew :=
  mkSlew (<[i := v]> (ts_applied s)) (ts_max_step s).

(** The torque a rate-limited joint gets: the step toward [want], clamped. *)
Definition slew_toward (s : TorqueSlew) (i : nat) (want : f64) : f64 :=
  let prev := ts_applied s !!! i in
  let max := ts_max_step s !!! i in
  f64_clamp (f64_neg max) max (want -! prev) +! prev.

Definition slew_step (i : nat) (want : f64) (s : TorqueSlew) : TorqueSlew * f64 :=
  let out := slew_toward s i want in (slew_set i out s, out).

Definition slew_snap (i : nat) (want : f64) (s : TorqueSlew) : TorqueSlew * f64 :=
  (slew_set i want s, want).

(** ** The commit *)

Record Commit := mkCommit { ct_slew : TorqueSlew; ct_cmds : list JointCommand; ct_mirror : CommandMirror }.

#[export] Instance conv_inhabited : Inhabited JointConversion := populate (mkConv 0 (S754_zero false) 0 0 0 0).

Definition I16_MIN : Z := -32768.
Definition I16_MAX : Z := 32767.

(** [trunc_to_wire(t * factor).clamp(i16::MIN, i16::MAX) as i16]. *)
Definition current_ma (factor t : f64) : Z :=
  Z.max I16_MIN (Z.min (trunc_to_wire (f64_to_SF (t *! factor))) I16_MAX).

(** The torque of a joint this tick, and the slew after it. *)
Definition commit_torque (rate_limit : bool) (i : nat) (sp : JointSetpoint) (s : TorqueSlew)
  : TorqueSlew * option f64 :=
  match js_torque_nm sp with
  | Some t =>
      if rate_limit then let '(s, out) := slew_step i t s in (s, Some out)
      else let '(s, out) := slew_snap i t s in (s, Some out)
  | None => (fst (slew_snap i f64_0 s), None)
  end.

Definition commit_cmd (conv : JointConversion) (factor : f64) (sp : JointSetpoint) (torque : option f64)
  : JointCommand :=
  mkJointCommand
    ((fun r => motor_ticks conv (f64_to_SF r)) <$> js_pos_rad sp)
    ((fun v => trunc_to_wire (motor_speed_ticks_s conv (f64_to_SF v))) <$> js_vel_rad_s sp)
    (current_ma factor <$> torque) (js_pack sp).

Definition commit_joint (setpoints : list JointSetpoint) (conv : list JointConversion)
    (torque_ma_factor : list f64) (rate_limit : bool) (c : Commit) (i : nat) : Commit :=
  let sp := setpoints !!! i in
  let '(slew, torque) := commit_torque rate_limit i sp (ct_slew c) in
  mkCommit slew
    (<[i := commit_cmd (conv !!! i) (torque_ma_factor !!! i) sp torque]> (ct_cmds c))
    (mkMirror (<[i := default f64_nan (js_pos_rad sp)]> (mi_q (ct_mirror c)))
       (<[i := default f64_nan (js_vel_rad_s sp)]> (mi_qd (ct_mirror c)))
       (<[i := default f64_nan torque]> (mi_tau (ct_mirror c)))).

Definition commit (setpoints : list JointSetpoint) (conv : list JointConversion)
    (torque_ma_factor : list f64) (rate_limit : bool) (c : Commit) : Commit :=
  fold_left (commit_joint setpoints conv torque_ma_factor rate_limit) (seq 0 MAX_JOINTS) c.

(** ** A joint's command is its own *)

Definition commit_wf (c : Commit) : Prop :=
  length (ts_applied (ct_slew c)) = MAX_JOINTS /\ length (ct_cmds c) = MAX_JOINTS /\
  length (mi_q (ct_mirror c)) = MAX_JOINTS /\ length (mi_qd (ct_mirror c)) = MAX_JOINTS /\
  length (mi_tau (ct_mirror c)) = MAX_JOINTS.

(** Row [i] of the commit. *)
Definition row (i : nat) (c : Commit) : option f64 * option JointCommand * (option f64 * option f64 * option f64) :=
  (ts_applied (ct_slew c) !! i, ct_cmds c !! i,
   (mi_q (ct_mirror c) !! i, mi_qd (ct_mirror c) !! i, mi_tau (ct_mirror c) !! i)).

Lemma commit_torque_slew rl i sp s :
  fst (commit_torque rl i sp s) = slew_set i (default f64_0 (snd (commit_torque rl i sp s))) s.
Proof. unfold commit_torque, slew_step, slew_snap. destruct (js_torque_nm sp), rl; cbn [fst snd default from_option id]; reflexivity. Qed.

(** The torque depends on the slew state of the joint itself. *)
Lemma slew_toward_local s s' i want :
  ts_applied s !! i = ts_applied s' !! i -> ts_max_step s = ts_max_step s' ->
  slew_toward s i want = slew_toward s' i want.
Proof.
  intros Ha Hm. unfold slew_toward. cbv zeta.
  assert (E : ts_applied s !!! i = ts_applied s' !!! i) by (rewrite !list_lookup_total_alt; by rewrite Ha).
  rewrite E, Hm. reflexivity.
Qed.

Lemma commit_torque_local rl i sp s s' :
  ts_applied s !! i = ts_applied s' !! i -> ts_max_step s = ts_max_step s' ->
  snd (commit_torque rl i sp s) = snd (commit_torque rl i sp s').
Proof.
  intros Ha Hm. unfold commit_torque, slew_step, slew_snap. destruct (js_torque_nm sp) as [t|], rl; cbn [snd fst]; try reflexivity.
  f_equal. exact (slew_toward_local s s' i t Ha Hm).
Qed.

Section Commit.
Context (sps : list JointSetpoint) (conv : list JointConversion) (factor : list f64) (rl : bool).

Let step := commit_joint sps conv factor rl.

Lemma step_other c i j : i <> j -> row i (step c j) = row i c.
Proof.
  intros H. unfold step, commit_joint, row. cbv zeta.
  pose proof (commit_torque_slew rl j (sps !!! j) (ct_slew c)) as E.
  destruct (commit_torque rl _ _ _) as [s t]. cbn in E |- *; subst s. cbn.
  by rewrite !list_lookup_insert_ne.
Qed.

Lemma step_row c i : commit_wf c -> (i < MAX_JOINTS)%nat ->
  let t := snd (commit_torque rl i (sps !!! i) (ct_slew c)) in
  row i (step c i) =
    (Some (default f64_0 t), Some (commit_cmd (conv !!! i) (factor !!! i) (sps !!! i) t),
     (Some (default f64_nan (js_pos_rad (sps !!! i))), Some (default f64_nan (js_vel_rad_s (sps !!! i))),
      Some (default f64_nan t))).
Proof.
  intros (H1 & H2 & H3 & H4 & H5) Hi. cbv zeta. unfold step, commit_joint, row. cbv zeta.
  pose proof (commit_torque_slew rl i (sps !!! i) (ct_slew c)) as E.
  destruct (commit_torque rl _ _ _) as [s t]. cbn in E |- *; subst s. cbn.
  rewrite !list_lookup_insert_eq by (congruence || lia). done.
Qed.

Lemma step_wf c i : commit_wf c -> commit_wf (step c i) /\ ts_max_step (ct_slew (step c i)) = ts_max_step (ct_slew c).
Proof.
  intros (H1 & H2 & H3 & H4 & H5). unfold step, commit_joint, commit_wf. cbv zeta.
  pose proof (commit_torque_slew rl i (sps !!! i) (ct_slew c)) as E.
  destruct (commit_torque rl _ _ _) as [s t]. cbn in E |- *; subst s. cbn. by rewrite !length_insert.
Qed.

Lemma fold_row l : forall c i, NoDup l -> commit_wf c -> (i < MAX_JOINTS)%nat ->
  commit_wf (fold_left step l c) /\ ts_max_step (ct_slew (fold_left step l c)) = ts_max_step (ct_slew c) /\
  row i (fold_left step l c) = if decide (i ∈ l) then row i (step c i) else row i c.
Proof.
  induction l as [|j l IH]; intros c i Hn Hw Hi; cbn [fold_left]; [by rewrite decide_False by set_solver|].
  apply NoDup_cons in Hn as [Hj Hn]. destruct (step_wf c j Hw) as [Hw' Hm].
  destruct (IH (step c j) i Hn Hw' Hi) as (K1 & K2 & K3). split; [done|]. split; [congruence|]. rewrite K3.
  destruct (decide (i = j)) as [->|Hne].
  - rewrite (decide_False (P := j ∈ l)) by done. by rewrite decide_True by set_solver.
  - destruct (decide (i ∈ l)).
    + rewrite decide_True by set_solver. rewrite !step_row by done. cbv zeta.
      pose proof (step_other c i j Hne) as E. unfold row in E. injection E as E1 _ _ _ _.
      by rewrite (commit_torque_local rl i (sps !!! i) (ct_slew (step c j)) (ct_slew c)).
    + rewrite decide_False by set_solver. by apply step_other.
Qed.

(** What a commit leaves at joint [i], as a function of the joint's own setpoint,
    calibration and slew state. *)
Lemma commit_row c i : commit_wf c -> (i < MAX_JOINTS)%nat ->
  let t := snd (commit_torque rl i (sps !!! i) (ct_slew c)) in
  row i (commit sps conv factor rl c) =
    (Some (default f64_0 t), Some (commit_cmd (conv !!! i) (factor !!! i) (sps !!! i) t),
     (Some (default f64_nan (js_pos_rad (sps !!! i))), Some (default f64_nan (js_vel_rad_s (sps !!! i))),
      Some (default f64_nan t))).
Proof.
  intros Hw Hi. cbv zeta. unfold commit. fold step.
  destruct (fold_row (seq 0 MAX_JOINTS) c i) as (_ & _ & ->); try done; [apply NoDup_seq|].
  rewrite decide_True; [by apply step_row|]. apply list_elem_of_In, in_seq. lia.
Qed.

Lemma commit_keeps_wf c : commit_wf c ->
  commit_wf (commit sps conv factor rl c) /\
  ts_max_step (ct_slew (commit sps conv factor rl c)) = ts_max_step (ct_slew c).
Proof.
  intros Hw. destruct (fold_row (seq 0 MAX_JOINTS) c 0) as (K1 & K2 & _); try done; [apply NoDup_seq|].
  unfold MAX_JOINTS. lia.
Qed.
End Commit.

(** Every joint of a uniform setpoint list. *)
Lemma commit_uniform sp conv factor rl c : commit_wf c ->
  let t i := snd (commit_torque rl i sp (ct_slew c)) in
  ct_cmds (commit (replicate MAX_JOINTS sp) conv factor rl c) =
    per_joint (fun i => commit_cmd (conv !!! i) (factor !!! i) sp (t i)) /\
  ts_applied (ct_slew (commit (replicate MAX_JOINTS sp) conv factor rl c)) = per_joint (fun i => default f64_0 (t i)).
Proof.
  intros Hw. cbv zeta. destruct (commit_keeps_wf (replicate MAX_JOINTS sp) conv factor rl c Hw) as ((H1 & H2 & _) & _).
  assert (Hs : forall i, (i < MAX_JOINTS)%nat -> replicate MAX_JOINTS sp !!! i = sp).
  { intros i Hi. by apply lookup_total_replicate_2. }
  split; apply joints_ext; try done; intros i Hi;
    pose proof (commit_row (replicate MAX_JOINTS sp) conv factor rl c i Hw Hi) as E;
    cbv zeta in E; rewrite Hs in E by done.
  - exact (f_equal (fun r => snd (fst r)) E).
  - exact (f_equal (fun r => fst (fst r)) E).
Qed.

(** ** Zero on the wire *)

Lemma zero_speed conv : trunc_to_wire (motor_speed_ticks_s conv (f64_to_SF f64_0)) = 0.
Proof.
  unfold trunc_to_wire, motor_speed_ticks_s. cbv zeta. apply sf_trunc_zero, sf_div_zero, sf_mul_zero.
  by destruct (cv_dir conv =? 1).
Qed.

Lemma zero_current factor : current_ma factor f64_0 = 0.
Proof.
  unfold current_ma, trunc_to_wire. rewrite sf_trunc_zero; [done|]. by apply zero_of_SF, sf_mul_zero.
Qed.

(** The protective laws put zero velocity and zero current, or zero current alone,
    on every joint, whatever the calibration (a factor of zero, infinite or NaN
    included) and whatever was commanded before; the slew state ends at zero. *)
Lemma protective_commit conv factor c : commit_wf c ->
  let hold := commit law_active_error conv factor false c in
  let limp := commit law_safety_stop conv factor false c in
  ct_cmds hold = replicate MAX_JOINTS (jc_velocity 0 0) /\
  ct_cmds limp = replicate MAX_JOINTS (jc_current 0) /\
  ts_applied (ct_slew hold) = replicate MAX_JOINTS f64_0 /\
  ts_applied (ct_slew limp) = replicate MAX_JOINTS f64_0.
Proof.
  intros Hw. cbv zeta. unfold law_active_error, law_safety_stop.
  destruct (commit_uniform zero_velocity conv factor false c Hw) as [-> ->].
  destruct (commit_uniform (torque_only f64_0) conv factor false c Hw) as [-> ->].
  split_and!; rewrite <- per_joint_const; unfold per_joint; apply map_ext; intros i;
    cbn [commit_torque zero_velocity torque_only js_torque_nm slew_snap snd fst default]; try done.
  - unfold commit_cmd. cbn. by rewrite zero_speed, zero_current.
  - unfold commit_cmd. cbn. by rewrite zero_current.
Qed.

(** ** Limited torque *)

(** The torque of a limited joint is the previous one plus a step within the joint's
    budget: the number [prev + d] rounded, with [-max <= d <= max]. *)
Lemma limited_step s i want :
  f64_le (f64_neg (ts_max_step s !!! i)) (ts_max_step s !!! i) = true ->
  f64_to_SF (want -! ts_applied s !!! i) <> S754_nan ->
  exists d, slew_toward s i want = d +! ts_applied s !!! i /\ f64_le (f64_neg (ts_max_step s !!! i)) d = true /\ f64_le d (ts_max_step s !!! i) = true.
Proof.
  intros Hm Hw. destruct (f64_clamp_bounds _ _ _ Hm Hw) as [H1 H2]. by eexists.
Qed.

(** From zero the step is the whole torque: it is within the budget itself. *)
Lemma limited_from_zero s i want :
  f64_le (f64_neg (ts_max_step s !!! i)) (ts_max_step s !!! i) = true ->
  f64_is_nan want = false -> ts_applied s !!! i = f64_0 ->
  f64_le (f64_neg (ts_max_step s !!! i)) (slew_toward s i want) = true /\ f64_le (slew_toward s i want) (ts_max_step s !!! i) = true.
Proof.
  intros Hm Hw H0. unfold slew_toward. cbv zeta. rewrite H0.
  set (max := ts_max_step s !!! i) in *.
  assert (Hd : f64_to_SF (want -! f64_0) = f64_to_SF want).
  { unfold f64_sub. change (f64_to_SF f64_0) with (S754_zero false). rewrite sf_sub_zero. apply f64_of_SF_inv, f64_to_SF_valid. }
  destruct (f64_clamp_bounds (f64_neg max) max (want -! f64_0) Hm) as [H1 H2].
  { rewrite Hd. intros E. by rewrite (f64_nan_spec want), E in Hw. }
  set (d := f64_clamp _ _ _) in *.
  assert (Hz : same_number (f64_to_SF (d +! f64_0)) (f64_to_SF d)).
  { unfold f64_add. change (f64_to_SF f64_0) with (S754_zero false). rewrite sf_add_zero.
    destruct (f64_to_SF d) as [sg|sg| |sg m e] eqn:Ed; [right|left..]; try done; rewrite <- Ed; apply f64_of_SF_inv, f64_to_SF_valid. }
  split; unfold f64_le; [rewrite (proj1 (same_number_le _ _ _ Hz))|rewrite (proj2 (same_number_le _ _ _ Hz))]; done.
Qed.

(** A torque that is not a number is not made one. *)
Lemma nan_stays_nan s i want : f64_is_nan want = true -> f64_is_nan (slew_toward s i want) = true.
Proof.
  assert (Hn : forall a, f64_is_nan a = true <-> f64_to_SF a = S754_nan).
  { intros a. rewrite f64_nan_spec. by destruct (f64_to_SF a). }
  rewrite !Hn. intros Hw. unfold slew_toward. cbv zeta.
  set (prev := ts_applied s !!! i). set (max := ts_max_step s !!! i).
  assert (Hd : f64_to_SF (want -! prev) = S754_nan).
  { unfold f64_sub. rewrite Hw. cbn [sf_sub SFsub]. by apply f64_of_SF_inv. }
  assert (Hc : f64_clamp (f64_neg max) max (want -! prev) = want -! prev).
  { destruct (f64_clamp_cases (f64_neg max) max (want -! prev)) as [[H _]|[(_ & H & _)|(_ & _ & H)]]; [| |exact H].
    - unfold f64_lt, sf_lt in H. by rewrite Hd in H.
    - unfold f64_gt, f64_lt, sf_lt in H. rewrite Hd in H. by destruct (f64_to_SF max) as [[]|[]| |[] m e]. }
  rewrite Hc. unfold f64_add. rewrite Hd. cbn [sf_add SFadd]. by apply f64_of_SF_inv.
Qed.
