(* ===== verification/SettlePolicy.v ===== *)
(** * SettlePolicy: when a command counts as finished, and the clamping tracker
    (crates/par6-rt/src/hooks.rs)

    The trait [SettlePolicy] as a class, its implementation [SpecSettle]
    (commanded, settled or strict), and [ClampStream], the stream tracker that
    clamps its targets to the soft limits and does nothing else.  The theorems: a
    joint that does not close in on its target ends the settle within its window,
    with an error exactly under the strict policy; what the clamp puts out lies
    within the bounds. *)
From Stdlib Require Import SpecFloat.
From S2P Require Import Prelude F64 Ring Joints.

(** ** Completion policies *)

Inductive SettleVerdict :=
| SV_Settling
| SV_Complete
| SV_Fault (joint : Z) (residual_rad : f64).

Class SettleOps (P : Type) := {
  policy_arm : P -> P * bool;
  policy_tick : P -> list f64 -> list f64 -> P * SettleVerdict;
}.

Inductive CompletionPolicy := CP_Commanded | CP_Settled | CP_Strict.

#[export] Instance CompletionPolicy_eq_dec : EqDecision CompletionPolicy.
Proof. solve_decision. Defined.

Record SpecSettle := mkSpecSettle {
  ss_policy : CompletionPolicy;
  ss_tolerance_rad : f64;
  ss_timeout_ticks : Z;
  ss_elapsed : Z;
  ss_best_err : f64;
}.

Definition spec_settle_new (policy : CompletionPolicy) (dt tolerance_rad timeout_s : f64) : SpecSettle :=
  mkSpecSettle policy tolerance_rad
    (Z.max (sf_round_as_uint 32 (sf_div (f64_to_SF timeout_s) (f64_to_SF dt))) 1) 0 f64_inf.

Definition settle_put (elapsed : Z) (best : f64) (s : SpecSettle) : SpecSettle :=
  mkSpecSettle (ss_policy s) (ss_tolerance_rad s) (ss_timeout_ticks s) elapsed best.

Definition spec_arm (s : SpecSettle) : SpecSettle * bool :=
  (settle_put 0 f64_inf s, bool_decide (ss_policy s = CP_Commanded)).

(** The joint furthest from its target, the first on a tie, and its error. *)
Definition worst_joint (q_meas q_target : list f64) : Z * f64 :=
  fold_left (fun acc '(j, e) => if f64_gt e (snd acc) then (Z.of_nat j, e) else acc)
    (combine (seq 0 (length q_meas)) (zip_with (fun m t => f64_abs (f64_sub m t)) q_meas q_target)) (0, f64_0).

Definition spec_tick (s : SpecSettle) (q_meas q_target : list f64) : SpecSettle * SettleVerdict :=
  let '(worst, max_err) := worst_joint q_meas q_target in
  if f64_le max_err (ss_tolerance_rad s) then (s, SV_Complete)
  else
    let s :=
      if f64_le (max_err +! (ss_tolerance_rad s *! f64_0_1)) (ss_best_err s)
      then settle_put 0 max_err s else s in
    let s := settle_put (ss_elapsed s + 1) (ss_best_err s) s in
    if ss_elapsed s >=? ss_timeout_ticks s then
      (s, match ss_policy s with
          | CP_Strict => SV_Fault (worst mod 256) max_err
          | _ => SV_Complete
          end)
    else (s, SV_Settling).

#[export] Instance spec_settle_ops : SettleOps SpecSettle :=
  {| policy_arm := spec_arm; policy_tick := spec_tick |}.

(** A settle from its arming, over the readings of consecutive ticks: the verdict of
    the last tick, the ticks taken. *)
Fixpoint settle_ticks (s : SpecSettle) (q_target : list f64) (readings : list (list f64)) : SpecSettle * list SettleVerdict :=
  match readings with
  | [] => (s, [])
  | q :: rest =>
      let '(s, v) := spec_tick s q q_target in
      match v with
      | SV_Settling => let '(s, vs) := settle_ticks s q_target rest in (s, v :: vs)
      | _ => (s, [v])
      end
  end.

(** The error of a reading, and that it makes no progress on the best so far. *)
Definition err_of (q_target q : list f64) : f64 := snd (worst_joint q q_target).
Definition no_progress (s : SpecSettle) (q_target q : list f64) : bool :=
  negb (f64_le (err_of q_target q) (ss_tolerance_rad s)) &&
  negb (f64_le (err_of q_target q +! (ss_tolerance_rad s *! f64_0_1)) (ss_best_err s)).

Lemma stuck_tick s q_target q : no_progress s q_target q = true ->
  spec_tick s q q_target =
    (settle_put (ss_elapsed s + 1) (ss_best_err s) s,
     if ss_elapsed s + 1 >=? ss_timeout_ticks s then
       match ss_policy s with
       | CP_Strict => SV_Fault (fst (worst_joint q q_target) mod 256) (err_of q_target q)
       | _ => SV_Complete
       end
     else SV_Settling).
Proof.
  unfold no_progress, err_of, spec_tick. destruct (worst_joint q q_target) as [w e]. cbn [fst snd].
  intros [H1 H2]%andb_true_iff. apply negb_true_iff in H1, H2. rewrite H1, H2. cbv zeta. cbn. by case_match.
Qed.

(** Readings that make no progress end the settle when the window closes, and not a tick
    earlier: the verdict is the policy's. *)
Lemma stuck_ticks q_target readings : forall s,
  0 <= ss_elapsed s < ss_timeout_ticks s ->
  Forall (fun q => no_progress s q_target q = true) readings ->
  Z.of_nat (length readings) >= ss_timeout_ticks s - ss_elapsed s ->
  let vs := snd (settle_ticks s q_target readings) in
  Z.of_nat (length vs) = ss_timeout_ticks s - ss_elapsed s /\
  exists q, q ∈ readings /\
    list.last vs = Some match ss_policy s with
                   | CP_Strict => SV_Fault (fst (worst_joint q q_target) mod 256) (err_of q_target q)
                   | _ => SV_Complete
                   end.
Proof.
  induction readings as [|q readings IH]; intros s Hw Hn Hl; cbn [length] in Hl; [lia|].
  apply Forall_cons in Hn as [Hq Hn]. cbn [settle_ticks]. rewrite stuck_tick by done. cbv zeta.
  destruct (Z.geb_spec (ss_elapsed s + 1) (ss_timeout_ticks s)) as [Hg|Hg].
  - destruct (ss_policy s); cbn; (split; [lia|]); exists q; (split; [by left|done]).
  - set (s1 := settle_put (ss_elapsed s + 1) (ss_best_err s) s).
    destruct (IH s1) as (E1 & r & Hr & E2); [cbn; lia|done|cbn; lia|].
    destruct (settle_ticks s1 q_target readings) as [s2 vs]. cbn [snd] in *. split; [cbn [length]; cbn in E1; lia|].
    exists r. split; [by right|]. destruct vs; [done|]. exact E2.
Qed.

(** ** The clamping tracker *)

Record ClampStream := mkClamp {
  cl_dt : f64;
  cl_soft_min : list f64;
  cl_soft_max : list f64;
  cl_current : list f64;
  cl_target : list f64;
}.

Definition clamp_new (dt : f64) (soft_min soft_max : list f64) : ClampStream :=
  mkClamp dt soft_min soft_max (replicate MAX_JOINTS f64_0) (replicate MAX_JOINTS f64_0).

Definition clamp_activate (q_meas : list f64) (c : ClampStream) : ClampStream :=
  mkClamp (cl_dt c) (cl_soft_min c) (cl_soft_max c) q_meas q_meas.
Definition clamp_set_target (q_target : list f64) (c : ClampStream) : ClampStream :=
  mkClamp (cl_dt c) (cl_soft_min c) (cl_soft_max c) (cl_current c) q_target.
Definition clamp_release (c : ClampStream) : ClampStream :=
  mkClamp (cl_dt c) (cl_soft_min c) (cl_soft_max c) (cl_current c) (cl_current c).
Definition clamp_set_bounds (min max : list f64) (c : ClampStream) : ClampStream :=
  mkClamp (cl_dt c) min max (cl_current c) (cl_target c).

(** The clamped target of each joint, and the speed that reaches it in one tick. *)
Definition clamp_step (c : ClampStream) : ClampStream * list f64 * list f64 :=
  let q := per_joint (fun i => f64_clamp (cl_soft_min c !!! i) (cl_soft_max c !!! i) (cl_target c !!! i)) in
  let qd := per_joint (fun i => (q !!! i -! cl_current c !!! i) /! cl_dt c) in
  (mkClamp (cl_dt c) (cl_soft_min c) (cl_soft_max c) q (cl_target c), q, qd).

(** Whatever the target, what the tracker commands lies within its bounds. *)
Lemma clamp_step_bounds c i :
  (i < MAX_JOINTS)%nat -> f64_le (cl_soft_min c !!! i) (cl_soft_max c !!! i) = true ->
  f64_is_nan (cl_target c !!! i) = false ->
  exists q, snd (fst (clamp_step c)) !! i = Some q /\
    f64_le (cl_soft_min c !!! i) q = true /\ f64_le q (cl_soft_max c !!! i) = true.
Proof.
  intros Hi Hb Hn. eexists. split; [by apply per_joint_lookup|]. cbn beta.
  apply f64_clamp_bounds; [done|]. intros E. by rewrite f64_nan_spec, E in Hn.
Qed.
