(* ===== verification/ExecTick.v ===== *)
(** * ExecTick: one tick of sample playback (crates/par6-rt/src/exec.rs)

    The cubic interpolation between two samples ([SampleInterval]), the playback
    clock with its scale, its acceleration admissibility and its bisection, the
    command boundaries with their settle policy, and [exec_tick], which puts them
    together.  The state is [ExecPlayback] of CoreState; what it leaves out (the
    policy, the command being settled, the limits) is [ExecClock]. *)
From Stdlib Require Import SpecFloat.
From stdpp Require Import sorting.
From S2P Require Import Prelude F64 BusTypes Ring Joints RtState Gripper Gpio CoreState SettlePolicy.

Definition f64_2 : f64 := 0x4000000000000000.
Definition f64_m2 : f64 := 0xC000000000000000.
Definition f64_3 : f64 := 0x4008000000000000.
Definition f64_4 : f64 := 0x4010000000000000.
Definition f64_6 : f64 := 0x4018000000000000.
Definition f64_8 : f64 := 0x4020000000000000.
Definition f64_mhalf : f64 := 0xBFE0000000000000.
Definition f64_1e_12 : f64 := 0x3D719799812DEA11.
Definition f64_1e_6 : f64 := 0x3EB0C6F7A0B5ED8D.

(** [f64::from(f32)]. *)
Definition f64_of_f32 (b : f32) : f64 := f64_of_SF (f32_to_SF b).

Definition joint_zeros : list f64 := replicate MAX_JOINTS f64_0.

(** ** Interpolation *)

Record SampleInterval := mkInterval {
  iv_origin : list f64;
  iv_c1 : list f64;
  iv_c2 : list f64;
  iv_c3 : list f64;
  iv_dt : f64;
}.

Definition interval_new (lft rgt : Sample) (dt : f64) : SampleInterval :=
  let delta i := s_q rgt !!! i -! s_q lft !!! i in
  mkInterval (s_q lft)
    (per_joint (fun i => s_qd lft !!! i *! dt))
    (per_joint (fun i => f64_3 *! delta i -! (f64_2 *! s_qd lft !!! i +! s_qd rgt !!! i) *! dt))
    (per_joint (fun i => f64_m2 *! delta i +! (s_qd lft !!! i +! s_qd rgt !!! i) *! dt)) dt.

(** Position and the nominal time derivatives. *)
Definition interval_sample (iv : SampleInterval) (phase : f64) : list f64 * list f64 * list f64 :=
  let b i := iv_c1 iv !!! i in
  let c i := iv_c2 iv !!! i in
  let d i := iv_c3 iv !!! i in
  let dt := iv_dt iv in
  (per_joint (fun i => iv_origin iv !!! i +! phase *! (b i +! phase *! (c i +! phase *! d i))),
   per_joint (fun i => (b i +! phase *! (f64_2 *! c i +! f64_3 *! phase *! d i)) /! dt),
   per_joint (fun i => (f64_2 *! c i +! f64_6 *! phase *! d i) /! (dt *! dt))).

Definition interpolate (lft rgt : Sample) (phase dt : f64) : list f64 * list f64 * list f64 :=
  interval_sample (interval_new lft rgt dt) phase.

(** The interior extrema of joint [i]: the roots of the derivative. *)
Definition extremum_roots (iv : SampleInterval) (i : nat) : list f64 :=
  let a := f64_3 *! iv_c3 iv !!! i in
  let b := f64_2 *! iv_c2 iv !!! i in
  let c := iv_c1 iv !!! i in
  if f64_eqb a f64_0 then [f64_neg c /! b; f64_nan]
  else
    let discriminant := b *! b -! f64_4 *! a *! c in
    let q := f64_mhalf *! (b +! f64_copysign (f64_sqrt discriminant) b) in
    [q /! a; c /! q].

Definition interior (phase : f64) : bool := f64_gt phase f64_0 && f64_lt phase f64_1.

Definition total_le (a b : f64) : Prop := f64_total_key a <= f64_total_key b.
#[export] Instance total_le_dec a b : Decision (total_le a b).
Proof. unfold total_le. apply _. Defined.

(** The filled part of the array, in phase order. *)
Definition position_extrema (iv : SampleInterval) : list f64 :=
  merge_sort total_le
    ([f64_0; f64_1] ++ List.filter interior (flat_map (extremum_roots iv) (seq 0 MAX_JOINTS))).

Definition travel_bound (iv : SampleInterval) : f64 :=
  fold_left (fun bound i =>
      let b := iv_c1 iv !!! i in
      let c := iv_c2 iv !!! i in
      let d := iv_c3 iv !!! i in
      let bound := f64_max (f64_max bound (f64_abs b)) (f64_abs (b +! f64_2 *! c +! f64_3 *! d)) in
      let phase := f64_neg c /! (f64_3 *! d) in
      if interior phase then f64_max bound (f64_abs (b +! phase *! (f64_2 *! c +! f64_3 *! phase *! d)))
      else bound)
    (seq 0 MAX_JOINTS) f64_0.

(** ** The state *)

Inductive ExecTick := ET_Ok | ET_Fault (joint : Z) (residual_rad : f64).

Record ExecOut := mkExecOut { eo_q : list f64; eo_qd : list f64; eo_tau_ff : list f64 }.

(** The playback rebuilt from its fields: what a setter replaces one field of. *)
Definition exec_eta (e : ExecPlayback) : ExecPlayback :=
  mkExec (ex_consumer e) (ex_hold_q e) (ex_last_meta e) (ex_owe_boundary e) (ex_settling e)
    (ex_active_cmd e) (ex_completed e) (ex_paused e) (ex_paused_ticks e) (ex_stopping e)
    (ex_faulted e) (ex_scale_rate e) (ex_requested_scale e) (ex_applied_scale e) (ex_phase e) (ex_left e).

Ltac replace_exec getter e v :=
  let t := eval unfold exec_eta in (exec_eta e) in
  lazymatch t with context T [getter e] => let t' := context T [v] in exact t' end.

Definition xput_consumer (v : RingShared) (e : ExecPlayback) : ExecPlayback := ltac:(replace_exec ex_consumer e v).
Definition xput_hold_q (v : list f64) (e : ExecPlayback) : ExecPlayback := ltac:(replace_exec ex_hold_q e v).
Definition xput_last_meta (v : option SampleMeta) (e : ExecPlayback) : ExecPlayback := ltac:(replace_exec ex_last_meta e v).
Definition xput_owe (v : option SampleMeta) (e : ExecPlayback) : ExecPlayback := ltac:(replace_exec ex_owe_boundary e v).
Definition xput_settling (v : bool) (e : ExecPlayback) : ExecPlayback := ltac:(replace_exec ex_settling e v).
Definition xput_active (v : Z) (e : ExecPlayback) : ExecPlayback := ltac:(replace_exec ex_active_cmd e v).
Definition xput_completed (v : Z) (e : ExecPlayback) : ExecPlayback := ltac:(replace_exec ex_completed e v).
Definition xput_faulted (v : bool) (e : ExecPlayback) : ExecPlayback := ltac:(replace_exec ex_faulted e v).
Definition xput_scale_rate (v : f64) (e : ExecPlayback) : ExecPlayback := ltac:(replace_exec ex_scale_rate e v).
Definition xput_applied (v : f64) (e : ExecPlayback) : ExecPlayback := ltac:(replace_exec ex_applied_scale e v).
Definition xput_phase (v : f64) (e : ExecPlayback) : ExecPlayback := ltac:(replace_exec ex_phase e v).
Definition xput_left (v : Sample) (e : ExecPlayback) : ExecPlayback := ltac:(replace_exec ex_left e v).

Record ExecClock (P : Type) := mkClock {
  xc_policy : P;
  xc_armed_cmd : Z;
  xc_dt : f64;
  xc_scale_rate_limit : f64;
  xc_scale_acceleration_limit : f64;
  xc_acceleration_limits : list f64;
}.
Arguments mkClock {P}.
Arguments xc_policy {P}.
Arguments xc_armed_cmd {P}.
Arguments xc_dt {P}.
Arguments xc_scale_rate_limit {P}.
Arguments xc_scale_acceleration_limit {P}.
Arguments xc_acceleration_limits {P}.

(** The constructor's asserts on the tick and the transition are its callers' concern. *)
Definition clock_new {P} (policy : P) (dt transition_s : f64) (acceleration_limits : list f64) : ExecClock P :=
  mkClock policy 0 dt (f64_1 /! transition_s) (f64_4 /! (transition_s *! transition_s)) acceleration_limits.

Definition exec_new (consumer : RingShared) : ExecPlayback :=
  mkExec consumer joint_zeros None None false 0 0 false 0 false false f64_0 f64_1 f64_1 f64_0 sample_default.

(** [set_policy]. *)
Definition clock_set_policy {P} (policy : P) (x : ExecClock P) : ExecClock P :=
  mkClock policy (xc_armed_cmd x) (xc_dt x) (xc_scale_rate_limit x) (xc_scale_acceleration_limit x)
    (xc_acceleration_limits x).
Definition clock_arm {P} (cmd : Z) (x : ExecClock P) : ExecClock P :=
  mkClock (xc_policy x) cmd (xc_dt x) (xc_scale_rate_limit x) (xc_scale_acceleration_limit x)
    (xc_acceleration_limits x).

Section Playback.
Context {P : Type} {ops : SettleOps P}.
Implicit Types (x : ExecClock P) (e : ExecPlayback).

(** ** The clock *)

(** Whether going from [old_scale] to [scale] this tick keeps every joint within its
    acceleration limit, sampled and instantaneous, at the setpoint it leads to. *)
Definition rate_is_admissible x e (old_scale scale : f64) (old_velocity : list f64) (next : Sample)
    (following : option Sample) : bool :=
  let dt := xc_dt x in
  let phase := ex_phase e +! f64_half *! (old_scale +! scale) in
  let '(lft, rgt, phase) :=
    if f64_ge phase f64_1 then
      match following with
      | Some rgt =>
          if negb (sm_is_last (s_meta next)) &&
             (sm_command_index (s_meta rgt) =? sm_command_index (s_meta next))
          then (next, rgt, phase -! f64_1)
          else (next, next, f64_0)
      | None => (next, next, f64_0)
      end
    else (ex_left e, next, phase) in
  let '(_, velocity, acceleration) := interpolate lft rgt phase dt in
  let rate := (scale -! old_scale) /! dt in
  forallb (fun i =>
      let limit := xc_acceleration_limits x !!! i in
      let sampled := (scale *! velocity !!! i -! old_scale *! old_velocity !!! i) /! dt in
      let instantaneous := scale *! scale *! acceleration !!! i +! rate *! velocity !!! i in
      f64_le (f64_abs sampled) limit && f64_le (f64_abs instantaneous) limit)
    (seq 0 MAX_JOINTS).

(** The rates of the clock the joints' acceleration limits leave. *)
Definition rate_bounds x (old_scale rate_limit : f64) (velocity acceleration : list f64) : f64 * f64 :=
  fold_left (fun '(low, high) i =>
      let v := velocity !!! i in
      if f64_gt (f64_abs v) f64_1e_12 then
        let limit := xc_acceleration_limits x !!! i in
        let base := old_scale *! old_scale *! acceleration !!! i in
        let a := (f64_neg limit -! base) /! v in
        let b := (limit -! base) /! v in
        (f64_max low (f64_min a b), f64_min high (f64_max a b))
      else (low, high))
    (seq 0 MAX_JOINTS) (f64_neg rate_limit, rate_limit).

(** The rate the second-order clock asks for, within the bounds, never past a reversal. *)
Definition clock_rate x e (old_scale target rate_limit acceleration_limit low high : f64) : f64 :=
  let dt := xc_dt x in
  let frequency := f64_min (f64_8 *! rate_limit) (f64_half /! dt) in
  let clock_acceleration :=
    f64_clamp (f64_neg acceleration_limit) acceleration_limit
      (frequency *! frequency *! (target -! old_scale) -! f64_2 *! frequency *! ex_scale_rate e) in
  let requested_rate := ex_scale_rate e +! clock_acceleration *! dt in
  let rate :=
    if f64_eqb requested_rate f64_0 then f64_0
    else if f64_le low high then f64_clamp low high requested_rate else f64_0 in
  if f64_lt (rate *! requested_rate) f64_0 then f64_0 else rate.

(** Sixteen halvings of the change of scale. *)
Fixpoint bisect (n : nat) (admissible : f64 -> bool) (allowed refused : f64) : f64 :=
  match n with
  | O => allowed
  | S n' =>
      let fraction := f64_half *! (allowed +! refused) in
      if admissible fraction then bisect n' admissible fraction refused
      else bisect n' admissible allowed fraction
  end.

(** The candidate scale, or as much of the way to it as is admissible. *)
Definition reach_scale (admissible : f64 -> bool) (old_scale candidate : f64) : f64 :=
  let toward fraction := old_scale +! fraction *! (candidate -! old_scale) in
  if negb (f64_eqb candidate old_scale) && negb (admissible candidate)
  then toward (bisect 16 (fun fraction => admissible (toward fraction)) f64_0 f64_1)
  else candidate.

(** A stop ends the moment stopping outright is admissible. *)
Definition stop_scale (stopping : bool) (admissible : f64 -> bool) (applied : f64) : f64 :=
  if stopping && negb (f64_eqb applied f64_0) && admissible f64_0 then f64_0 else applied.

(** The filter's tail lands on the target. *)
Definition land_scale (admissible : f64 -> bool) (old_scale target slack applied : f64) : f64 :=
  if f64_lt (f64_abs (applied -! target)) f64_1e_6 &&
     f64_le (f64_abs (target -! old_scale)) slack && admissible target
  then target else applied.

(** The scale of this tick. *)
Definition next_scale x e (velocity acceleration : list f64) (next : Sample) : f64 :=
  let dt := xc_dt x in
  let target := target_scale e in
  let old_scale := ex_applied_scale e in
  let '(rate_limit, acceleration_limit) :=
    if ex_stopping e then (f64_inf, f64_inf)
    else (xc_scale_rate_limit x, xc_scale_acceleration_limit x) in
  let '(low, high) := rate_bounds x old_scale rate_limit velocity acceleration in
  let rate := clock_rate x e old_scale target rate_limit acceleration_limit low high in
  let candidate := f64_clamp f64_0 f64_1 (old_scale +! rate *! dt) in
  let following := peek_offset (ex_consumer e) 1 in
  let admissible scale := rate_is_admissible x e old_scale scale velocity next following in
  land_scale admissible old_scale target (rate_limit *! dt)
    (stop_scale (ex_stopping e) admissible (reach_scale admissible old_scale candidate)).

(** ** Samples *)

(** A command's first sample starts from the pose it was planned at. *)
Definition rebase (next : Sample) e : ExecPlayback :=
  if sm_command_index (s_meta next) =? sm_command_index (s_meta (ex_left e)) then e
  else
    let lft :=
      match s_start next with
      | Some start =>
          mkSample (ss_q start) (s_qd sample_default) (ss_tau_ff start) (s_inertia_velocity sample_default)
            (s_start sample_default) (s_meta next)
      | None => next
      end in
    xput_phase f64_0 (xput_left lft e).

(** The clock has passed a sample: take it off the ring and note a command's end.
    [pop] gives what [peek] showed; the source expects it. *)
Definition advance e : ExecPlayback :=
  match pop (ex_consumer e) with
  | (consumer, Some lft) =>
      let meta := s_meta lft in
      let e := xput_active (sm_command_index meta) (xput_left lft
                 (xput_consumer consumer (xput_phase (ex_phase e -! f64_1) e))) in
      if sm_is_last meta then xput_phase f64_0 (xput_last_meta None (xput_owe (Some meta) e))
      else
        match peek consumer with
        | Some next =>
            if sm_command_index (s_meta next) =? sm_command_index meta then xput_last_meta (Some meta) e
            else xput_phase f64_0 (xput_owe (Some meta) (xput_last_meta None e))
        | None => xput_last_meta (Some meta) e
        end
  | (_, None) => e
  end.

Definition still (l : list f64) : bool := forallb (fun v => f64_lt (f64_abs v) f64_1e_12) l.

(** The setpoint between the sample passed and the next one. *)
Definition playback_out x e (rgt : Sample) (rate : f64) : ExecOut :=
  let phase := ex_phase e in
  let '(position, velocity, _) := interpolate (ex_left e) rgt phase (xc_dt x) in
  let square := ex_applied_scale e *! ex_applied_scale e in
  let blend (a b : f32) := f64_of_f32 a *! (f64_1 -! phase) +! f64_of_f32 b *! phase in
  mkExecOut position
    (per_joint (fun i => velocity !!! i *! ex_applied_scale e))
    (per_joint (fun i =>
      square *! blend (s_tau_ff (ex_left e) !!! i) (s_tau_ff rgt !!! i) +!
      rate *! blend (s_inertia_velocity (ex_left e) !!! i) (s_inertia_velocity rgt !!! i))).

(** The clock's advance by the mean of the old and the new scale. *)
Definition advance_clock x (next : Sample) e : ExecPlayback * f64 :=
  let '(_, velocity, acceleration) := interpolate (ex_left e) next (ex_phase e) (xc_dt x) in
  let e := if still velocity && still acceleration then exec_at_rest e else e in
  let old_scale := ex_applied_scale e in
  let scale := next_scale x e velocity acceleration next in
  let rate := (scale -! old_scale) /! xc_dt x in
  (xput_phase (ex_phase e +! f64_half *! (old_scale +! scale)) (xput_scale_rate rate (xput_applied scale e)), rate).

Definition play x (next : Sample) e : ExecPlayback * ExecOut :=
  let '(e, rate) := advance_clock x next (rebase next e) in
  let e := if f64_ge (ex_phase e) f64_1 then advance e else e in
  let '(e, rgt) :=
    match peek (ex_consumer e) with
    | Some rgt => (e, rgt)
    | None => (xput_phase f64_0 e, ex_left e)
    end in
  let out := playback_out x e rgt rate in
  (xput_hold_q (eo_q out) e, out).

(** ** Boundaries *)

(** Nothing left to brake. *)
Definition stop_over e : bool :=
  ex_stopping e &&
  (f64_eqb (ex_applied_scale e) f64_0 || ex_faulted e || ex_settling e ||
   (bool_decide (ex_owe_boundary e = None) && bool_decide (peek (ex_consumer e) = None))).

(** The settle of a boundary; [Some] ends the tick. *)
Definition settle_phase x e (q_meas : list f64) : ExecClock P * ExecPlayback * option ExecTick :=
  if ex_settling e then
    let '(p, v) := policy_tick (xc_policy x) q_meas (ex_hold_q e) in
    let x := clock_set_policy p x in
    match v with
    | SV_Settling => (x, exec_at_rest e, Some ET_Ok)
    | SV_Complete => (x, xput_completed (xc_armed_cmd x) (xput_settling false e), None)
    | SV_Fault joint residual => (x, xput_settling false (xput_faulted true e), Some (ET_Fault joint residual))
    end
  else (x, e, None).

(** A boundary discovered late: the next command's first sample is visible. *)
Definition owe_late e : ExecPlayback :=
  match ex_owe_boundary e, ex_last_meta e, peek (ex_consumer e) with
  | None, Some last, Some next =>
      if sm_command_index (s_meta next) =? sm_command_index last then e else xput_owe (Some last) e
  | _, _, _ => e
  end.

(** Hand an owed boundary to the policy; [true] ends the tick. *)
Definition boundary_phase x e : ExecClock P * ExecPlayback * bool :=
  match ex_owe_boundary e with
  | None => (x, e, false)
  | Some boundary =>
      let e := xput_last_meta None (xput_owe None e) in
      let '(p, done) := policy_arm (xc_policy x) in
      let x := clock_set_policy p x in
      if done : bool then (x, xput_completed (sm_command_index boundary) e, false)
      else (clock_arm (sm_command_index boundary) x, xput_settling true e, true)
  end.

Definition hold_out e : ExecOut := mkExecOut (ex_hold_q e) joint_zeros joint_zeros.

Definition exec_tick x e (q_meas : list f64) : ExecClock P * ExecPlayback * ExecOut * ExecTick :=
  let out := hold_out e in
  let e := if stop_over e then exec_finish_stop e else e in
  if ex_faulted e then (x, e, out, ET_Ok)
  else if ex_paused e && f64_eqb (ex_applied_scale e) f64_0 then (x, e, out, ET_Ok)
  else
    match settle_phase x e q_meas with
    | (x, e, Some r) => (x, e, out, r)
    | (x, e, None) =>
        match boundary_phase x (owe_late e) with
        | (x, e, true) => (x, e, out, ET_Ok)
        | (x, e, false) =>
            match peek (ex_consumer e) with
            | None => (x, exec_at_rest e, out, ET_Ok)
            | Some next => let '(e, out) := play x next e in (x, e, out, ET_Ok)
            end
        end
    end.

(** [ExecStatus] as published. *)
Record ExecStatus := mkExecStatus {
  es_samples_remaining : Z;
  es_active_command_index : Z;
  es_completed_index : Z;
  es_settling : bool;
  es_paused : bool;
  es_target_scale : f64;
  es_stopping : bool;
  es_applied_scale : f64;
  es_resume_scale : f64;
  es_paused_ticks : Z;
}.

Definition exec_status e : ExecStatus :=
  mkExecStatus (exec_samples_remaining e) (ex_active_cmd e) (ex_completed e) (ex_settling e)
    (ex_paused e && f64_eqb (ex_applied_scale e) f64_0) (requested_target e) (ex_stopping e)
    (ex_applied_scale e) (ex_requested_scale e) (ex_paused_ticks e).

End Playback.
