(* ===== verification/ExecProps.v ===== *)
(** * ExecProps: what playback guarantees (crates/par6-rt/src/exec.rs)

    Commands complete in the order their samples were queued, each before the next
    one plays; a change of speed stays within the joints' acceleration limits; a
    starved, paused or faulted playback holds; a tick takes at most one sample; a
    stop discards what was marked; the extrema of an interval are in phase order. *)
From Stdlib Require Import SpecFloat.
From stdpp Require Import sorting sets.
From S2P Require Import Prelude F64 BusTypes Ring Joints RtState Gripper Gpio CoreState SettlePolicy ExecTick.

Create HintDb exec.

Section ExecProps.
Context {P : Type} {ops : SettleOps P}.
Implicit Types (x : ExecClock P) (e : ExecPlayback).

(** ** The order of commands *)

Definition cmd_of (m : SampleMeta) : Z := sm_command_index m.

(** What playback remembers of a command is about the active one, and a command with
    nothing left to resolve has completed. *)
Record exec_inv x e : Prop := mkExecInv {
  xi_last : forall m, ex_last_meta e = Some m -> cmd_of m = ex_active_cmd e;
  xi_owe : forall m, ex_owe_boundary e = Some m -> cmd_of m = ex_active_cmd e;
  xi_settling : ex_settling e = true ->
    xc_armed_cmd x = ex_active_cmd e /\ ex_last_meta e = None /\ ex_owe_boundary e = None;
  xi_done : ex_last_meta e = None -> ex_owe_boundary e = None -> ex_settling e = false ->
    ex_faulted e = false -> ex_completed e = ex_active_cmd e;
}.

(** What a stretch of a tick may do to the two indices: the active one stays and the
    completed one may move to it, then the active one may move on. *)
Record in_order e e' : Prop := mkInOrder {
  io_completed : ex_completed e' = ex_completed e \/ ex_completed e' = ex_active_cmd e;
  io_active : ex_active_cmd e' = ex_active_cmd e \/ ex_completed e' = ex_active_cmd e;
  io_stopping : ex_stopping e' = ex_stopping e;
}.

Lemma in_order_refl e : in_order e e.
Proof. constructor; [by left|by left|done]. Qed.

(** One branch of a handler: what it left in the fields, read off. *)
Ltac order_go :=
  split_and!; try done;
  first [constructor; [by left|by left|done] | constructor; [by right|by left|done]
        | constructor; cbn; intros; simplify_eq; first [done | congruence | auto] | idtac].

(** The fields the invariant reads. *)
Definition same_commands e e' : Prop :=
  ex_last_meta e' = ex_last_meta e /\ ex_owe_boundary e' = ex_owe_boundary e /\
  ex_settling e' = ex_settling e /\ ex_faulted e' = ex_faulted e /\
  ex_completed e' = ex_completed e /\ ex_active_cmd e' = ex_active_cmd e /\
  ex_stopping e' = ex_stopping e.

Lemma same_commands_inv x x' e e' :
  same_commands e e' -> xc_armed_cmd x' = xc_armed_cmd x -> exec_inv x e -> exec_inv x' e' /\ in_order e e'.
Proof.
  intros (E1 & E2 & E3 & E4 & E5 & E6 & E7) Ea [I1 I2 I3 I4]. split.
  - constructor; rewrite ?E1, ?E2, ?E3, ?E4, ?E5, ?E6, ?Ea; auto.
  - constructor; auto.
Qed.

Lemma same_commands_trans e1 e2 e3 : same_commands e1 e2 -> same_commands e2 e3 -> same_commands e1 e3.
Proof. unfold same_commands. intros (?&?&?&?&?&?&?) (?&?&?&?&?&?&?). split_and!; congruence. Qed.

(** A boundary about to be played past: nothing owed, nothing settling. *)
Definition clear_ahead e (next : Sample) : Prop :=
  ex_owe_boundary e = None /\ ex_settling e = false /\ ex_faulted e = false /\
  (forall m, ex_last_meta e = Some m -> cmd_of m = cmd_of (s_meta next)).

Lemma advance_inv x e next :
  exec_inv x e -> clear_ahead e next -> peek (ex_consumer e) = Some next ->
  exec_inv x (advance e) /\ in_order e (advance e).
Proof.
  intros [I1 I2 I3 I4] (C1 & C2 & C3 & C4) Hp. unfold advance.
  assert (Hpop : snd (pop (ex_consumer e)) = Some next).
  { unfold peek, peek_offset in Hp. unfold pop. rewrite Z.add_0_r in Hp.
    destruct (Z.eqb_spec (r_head (ex_consumer e)) (r_tail (ex_consumer e))) as [Eq|]; cbn.
    - rewrite Eq, Z.sub_diag in Hp. done.
    - by case_match. }
  destruct (pop (ex_consumer e)) as [c l]. cbn in Hpop. subst l.
  assert (Hdone : ex_completed e = ex_active_cmd e \/ cmd_of (s_meta next) = ex_active_cmd e).
  { destruct (ex_last_meta e) as [m|] eqn:El; [right|left; auto].
    rewrite <- (C4 m eq_refl). auto. }
  assert (Ho : forall e', ex_completed e' = ex_completed e -> ex_active_cmd e' = cmd_of (s_meta next) ->
    ex_stopping e' = ex_stopping e -> in_order e e').
  { intros e' H1 H2 H3. constructor; [by left| |done]. rewrite H1, H2. destruct Hdone; auto. }
  cbv zeta. destruct (sm_is_last (s_meta next)).
  - split; [|by apply Ho]. constructor; cbn; intros; simplify_eq; try done; congruence.
  - destruct (peek c) as [n|]; [case_match|]; (split; [|by apply Ho]);
      constructor; cbn; intros; simplify_eq; try done; congruence.
Qed.

Lemma rest_same e : same_commands e (exec_at_rest e).
Proof. done. Qed.

Lemma rebase_same next e :
  same_commands e (rebase next e) /\ ex_consumer (rebase next e) = ex_consumer e.
Proof. unfold rebase. by case_match. Qed.

Lemma clock_same x next e :
  same_commands e (fst (advance_clock x next e)) /\
  ex_consumer (fst (advance_clock x next e)) = ex_consumer e.
Proof.
  unfold advance_clock. destruct (interpolate _ _ _ _) as [[p v] a].
  by destruct (still v && still a).
Qed.

(** Playing is the clock's advance, the advance of the ring when it wraps, and fields
    no boundary reads. *)
Lemma play_shape x next e :
  exists e1 e2, same_commands e e1 /\ ex_consumer e1 = ex_consumer e /\
    (e2 = e1 \/ e2 = advance e1) /\ same_commands e2 (fst (play x next e)) /\
    ex_consumer (fst (play x next e)) = ex_consumer e2.
Proof.
  unfold play. pose proof (rebase_same next e) as [R1 R2].
  pose proof (clock_same x next (rebase next e)) as [K1 K2].
  destruct (advance_clock x next (rebase next e)) as [e1 rate]. cbn [fst] in K1, K2.
  exists e1, (if f64_ge (ex_phase e1) f64_1 then advance e1 else e1).
  split; [by eapply same_commands_trans|]. split; [congruence|].
  split; [case_match; auto|].
  set (e2 := if f64_ge (ex_phase e1) f64_1 then advance e1 else e1). clearbody e2.
  by destruct (peek (ex_consumer e2)).
Qed.

Lemma play_inv x next e :
  exec_inv x e -> clear_ahead e next -> peek (ex_consumer e) = Some next ->
  exec_inv x (fst (play x next e)) /\ in_order e (fst (play x next e)).
Proof.
  intros HI HC Hp. destruct (play_shape x next e) as (e1 & e2 & S1 & C1 & H2 & S2 & _).
  destruct (same_commands_inv x x e e1 S1 eq_refl HI) as [I1 O1].
  assert (I2 : exec_inv x e2 /\ in_order e1 e2).
  { destruct H2 as [->| ->]; [split; [done|apply in_order_refl]|].
    apply (advance_inv x e1 next I1); [|congruence].
    destruct S1 as (E1 & E2 & E3 & E4 & _), HC as (C1' & C2 & C3 & C4).
    unfold clear_ahead. rewrite E1, E2, E3, E4. auto. }
  destruct I2 as [I2 O2]. destruct (same_commands_inv x x e2 _ S2 eq_refl I2) as [I3 O3].
  split; [done|]. destruct S1 as (_&_&_&_&A1&A2&A3), S2 as (_&_&_&_&B1&B2&B3).
  destruct O2 as [O2 O2' O2'']. constructor; intuition congruence.
Qed.

Lemma settle_inv x e q :
  exec_inv x e -> ex_faulted e = false ->
  let '(x', e', r) := settle_phase x e q in
  exec_inv x' e' /\ in_order e e' /\ ex_active_cmd e' = ex_active_cmd e /\ ex_consumer e' = ex_consumer e /\
  (r = None -> ex_settling e' = false /\ ex_faulted e' = false).
Proof.
  intros HI Hf. pose proof HI as [I1 I2 I3 I4]. unfold settle_phase. destruct (ex_settling e) eqn:Es.
  2:{ split_and!; try done; apply in_order_refl. }
  destruct (I3 eq_refl) as (A1 & A2 & A3).
  destruct (policy_tick _ _ _) as [p v]. cbv zeta. destruct v.
  - order_go.
  - order_go.
  - order_go.
Qed.

Lemma late_inv x e :
  exec_inv x e -> ex_settling e = false ->
  exec_inv x (owe_late e) /\ in_order e (owe_late e) /\ ex_active_cmd (owe_late e) = ex_active_cmd e /\
  ex_completed (owe_late e) = ex_completed e /\
  ex_consumer (owe_late e) = ex_consumer e /\ ex_settling (owe_late e) = false /\ ex_faulted (owe_late e) = ex_faulted e /\
  (ex_owe_boundary (owe_late e) = None -> forall m next, ex_last_meta (owe_late e) = Some m ->
   peek (ex_consumer e) = Some next -> cmd_of m = cmd_of (s_meta next)).
Proof.
  intros HI Hs. unfold owe_late.
  destruct (ex_owe_boundary e) eqn:Eo.
  { split_and!; try done; [apply in_order_refl|congruence]. }
  destruct (ex_last_meta e) as [l|] eqn:El.
  2:{ split_and!; try done; [apply in_order_refl|congruence]. }
  destruct (peek (ex_consumer e)) as [next|] eqn:Ep.
  2:{ split_and!; try done; apply in_order_refl. }
  destruct (Z.eqb_spec (sm_command_index (s_meta next)) (sm_command_index l)) as [Eq|Ne].
  { split_and!; try done; [apply in_order_refl|]. intros _ m n Hm Hn. simplify_eq. exact (eq_sym Eq). }
  destruct HI as [I1 I2 I3 I4]. order_go.
Qed.

Lemma boundary_inv x e :
  exec_inv x e -> ex_settling e = false -> ex_faulted e = false ->
  let '(x', e', stop) := boundary_phase x e in
  exec_inv x' e' /\ in_order e e' /\ ex_active_cmd e' = ex_active_cmd e /\ ex_consumer e' = ex_consumer e /\
  (stop = false -> ex_settling e' = false /\ ex_faulted e' = false /\ ex_owe_boundary e' = None /\
    (ex_owe_boundary e = None -> e' = e) /\ (ex_owe_boundary e <> None -> ex_last_meta e' = None)).
Proof.
  intros HI Hs Hf. unfold boundary_phase. destruct (ex_owe_boundary e) as [b|] eqn:Eo.
  2:{ split_and!; try done. apply in_order_refl. }
  destruct HI as [I1 I2 I3 I4]. pose proof (I2 b Eo) as Hb.
  destruct (policy_arm _) as [p []]; cbv zeta.
  - order_go.
  - order_go.
Qed.

Lemma in_order_trans e1 e2 e3 :
  in_order e1 e2 -> ex_active_cmd e2 = ex_active_cmd e1 -> in_order e2 e3 -> in_order e1 e3.
Proof.
  intros [H1 _ H2] E [H3 H4 H5]. constructor; intuition congruence.
Qed.

Lemma tick_inv x e q : exec_inv x e -> ex_stopping e = false ->
  let '(x', e', _, _) := exec_tick x e q in exec_inv x' e' /\ in_order e e'.
Proof.
  intros HI Hs. unfold exec_tick. cbv zeta. unfold stop_over. rewrite Hs. cbn [andb].
  destruct (ex_faulted e) eqn:Ef; [split; [done|apply in_order_refl]|].
  destruct (ex_paused e && _); [split; [done|apply in_order_refl]|].
  pose proof (settle_inv x e q HI Ef) as H1. destruct (settle_phase x e q) as [[x1 e1] r].
  destruct H1 as (I1 & O1 & A1 & C1 & H1). destruct r as [r|]; [done|]. destruct (H1 eq_refl) as [S1 F1].
  destruct (late_inv x1 e1 I1 S1) as (I2 & O2 & A2 & K2 & C2 & S2 & F2 & L2).
  pose proof (boundary_inv x1 (owe_late e1) I2 S2 ltac:(congruence)) as H3.
  destruct (boundary_phase x1 (owe_late e1)) as [[x3 e3] stop].
  destruct H3 as (I3 & O3 & A3 & C3 & H3).
  assert (O13 : in_order e e3).
  { eapply in_order_trans; [exact O1|done|]. eapply in_order_trans; [exact O2|done|exact O3]. }
  destruct stop; [done|]. destruct (H3 eq_refl) as (S3 & F3 & W3 & N3 & M3).
  destruct (peek (ex_consumer e3)) as [next|] eqn:Ep.
  2:{ destruct (same_commands_inv x3 x3 e3 _ (rest_same e3) eq_refl I3) as [I4 O4]. split; [done|].
      eapply in_order_trans; [exact O13|congruence|done]. }
  assert (HC : clear_ahead e3 next).
  { split_and!; try done. intros m Hm. destruct (ex_owe_boundary (owe_late e1)) as [b|] eqn:Eo.
    - rewrite M3 in Hm by done. done.
    - rewrite N3 in Hm, Ep by done. rewrite C2 in Ep. by apply (L2 eq_refl m). }
  destruct (play_inv x3 next e3 I3 HC Ep) as [I4 O4].
  destruct (play x3 next e3) as [e4 out]. split; [done|].
  eapply in_order_trans; [exact O13|congruence|done].
Qed.

(** Everything that happens to playback between a mode entry and a stop: ticks, and
    between them what the planner queues and the operator selects. *)
Inductive exec_event :=
| XE_Tick (q_meas : list f64)
| XE_Push (s : Sample)
| XE_Paused (paused : bool)
| XE_Scale (scale : f64)
| XE_Policy (p : P).

Definition exec_apply (st : ExecClock P * ExecPlayback) (ev : exec_event) : ExecClock P * ExecPlayback :=
  let '(x, e) := st in
  match ev with
  | XE_Tick q => let '(x, e, _, _) := exec_tick x e q in (x, e)
  | XE_Push s => (x, xput_consumer (fst (try_push (ex_consumer e) s)) e)
  | XE_Paused p => (x, exec_set_paused e p)
  | XE_Scale v => (x, fst (exec_set_speed_scale e v))
  | XE_Policy p => (clock_set_policy p x, e)
  end.

Definition exec_run (st : ExecClock P * ExecPlayback) (evs : list exec_event) := fold_left exec_apply evs st.

Lemma run_inv evs : forall st, exec_inv (fst st) (snd st) -> ex_stopping (snd st) = false ->
  exec_inv (fst (exec_run st evs)) (snd (exec_run st evs)) /\ ex_stopping (snd (exec_run st evs)) = false.
Proof.
  unfold exec_run. induction evs as [|ev evs IH]; intros [x e] HI Hs; [done|]. cbn [fold_left]. apply IH.
  - destruct ev; cbn in *.
    + pose proof (tick_inv x e q_meas HI Hs) as K. destruct (exec_tick x e q_meas) as [[[x' e'] o] r]. by destruct K.
    + by apply (same_commands_inv x x e).
    + by apply (same_commands_inv x x e).
    + unfold exec_set_speed_scale. case_match; [done|]. by apply (same_commands_inv x x e).
    + by apply (same_commands_inv x _ e).
  - destruct ev; cbn in *; try done.
    + pose proof (tick_inv x e q_meas HI Hs) as K. destruct (exec_tick x e q_meas) as [[[x' e'] o] r].
      destruct K as [_ [_ _ E]]. cbn. congruence.
    + unfold exec_set_speed_scale. by case_match.
Qed.


(** ** Samples *)

(** A tick that does not end a stop takes at most one sample off the ring. *)
Lemma tick_takes_one x e q : stop_over e = false ->
  let '(_, e', _, _) := exec_tick x e q in
  ex_consumer e' = ex_consumer e \/ ex_consumer e' = fst (pop (ex_consumer e)).
Proof.
  intros Hs. unfold exec_tick. cbv zeta. rewrite Hs.
  destruct (ex_faulted e); [by left|]. destruct (ex_paused e && _); [by left|].
  assert (H1 : ex_consumer (snd (fst (settle_phase x e q))) = ex_consumer e).
  { unfold settle_phase. destruct (ex_settling e); [|done]. by destruct (policy_tick _ _ _) as [p []]. }
  destruct (settle_phase x e q) as [[x1 e1] [r|]]; [by left|]. cbn in H1.
  assert (H2 : ex_consumer (snd (fst (boundary_phase x1 (owe_late e1)))) = ex_consumer e).
  { rewrite <- H1. assert (Hl : ex_consumer (owe_late e1) = ex_consumer e1) by (unfold owe_late; by repeat case_match).
    unfold boundary_phase. destruct (ex_owe_boundary (owe_late e1)); [|done]. by destruct (policy_arm _) as [p []]. }
  destruct (boundary_phase x1 (owe_late e1)) as [[x2 e2] []]; cbn in H2; [by left|].
  destruct (peek (ex_consumer e2)) as [next|]; [|by left].
  destruct (play_shape x2 next e2) as (a & b & _ & C1 & Hab & _ & C2).
  destruct (play x2 next e2) as [e3 out]. cbn in C2. rewrite C2.
  destruct Hab as [->| ->]; [left; congruence|].
  unfold advance. rewrite C1, H2. destruct (pop (ex_consumer e)) as [c [s|]] eqn:Epop; [|left; congruence].
  right. cbn. by repeat case_match.
Qed.

(** A tick that ends a stop discards the marked samples, no others, and clears the
    stop; playback goes on only with what was queued behind it. *)
Lemma stop_discards x e q : stop_over e = true -> ex_faulted e = true ->
  let '(_, e', out, r) := exec_tick x e q in
  ex_stopping e' = false /\ ex_consumer e' = fst (clear_marked (ex_consumer e)) /\
  eo_q out = ex_hold_q e /\ eo_qd out = joint_zeros /\ r = ET_Ok.
Proof.
  intros Hs Hf. unfold exec_tick. cbv zeta. rewrite Hs.
  assert (E : ex_faulted (exec_finish_stop e) = true).
  { unfold exec_finish_stop, exec_flush. by destruct (clear_marked _). }
  rewrite E. unfold exec_finish_stop, exec_flush. cbn. by destruct (clear_marked (ex_consumer e)).
Qed.

(** ** Holding *)

(** Playback holds its last position with no velocity and no torque while the ring is
    starved, while it is paused and has slowed down to zero, and after a fault. *)
Lemma playback_holds x e q :
  ex_stopping e = false ->
  ex_faulted e = true \/ (ex_paused e = true /\ f64_eqb (ex_applied_scale e) f64_0 = true) \/
  (ex_settling e = false /\ ex_owe_boundary e = None /\ peek (ex_consumer e) = None) ->
  let '(_, e', out, r) := exec_tick x e q in
  out = hold_out e /\ ex_hold_q e' = ex_hold_q e /\ r = ET_Ok.
Proof.
  intros Hs H. unfold exec_tick. cbv zeta. unfold stop_over. rewrite Hs. cbn [andb].
  destruct (ex_faulted e); [done|]. destruct (ex_paused e && _) eqn:Ep; [done|].
  destruct H as [|[[E1 E2]|(E1 & E2 & E3)]]; [done|by rewrite E1, E2 in Ep|].
  unfold settle_phase. rewrite E1. unfold owe_late. rewrite E2, E3.
  replace (match ex_last_meta e with Some _ => e | None => e end) with e by (by destruct (ex_last_meta e)).
  unfold boundary_phase. by rewrite E2, E3.
Qed.

(** ** The speed of the clock *)

Lemma bisect_allowed (adm : f64 -> bool) n : forall allowed refused,
  bisect n adm allowed refused = allowed \/ adm (bisect n adm allowed refused) = true.
Proof.
  induction n as [|n IH]; intros a r; [by left|]. cbn [bisect]. cbv zeta.
  destruct (adm _) eqn:E; [|by apply IH]. right.
  destruct (IH (f64_half *! (a +! r)) r) as [->|]; done.
Qed.

(** A scale that every joint can follow, or the one the tick started from. *)
Definition followed (adm : f64 -> bool) (old s : f64) : Prop :=
  adm s = true \/ f64_eqb s old = true \/ exists candidate, s = old +! f64_0 *! (candidate -! old).

Lemma reach_followed adm old candidate : followed adm old (reach_scale adm old candidate).
Proof.
  unfold followed, reach_scale. cbv zeta. destruct (f64_eqb candidate old) eqn:Ec; cbn [negb andb]; [auto|].
  destruct (adm candidate) eqn:Ea; cbn [negb]; [auto|].
  destruct (bisect_allowed (fun f => adm (old +! f *! (candidate -! old))) 16 f64_0 f64_1) as [E|H].
  - right. right. exists candidate. by rewrite E.
  - left. exact H.
Qed.

Lemma stop_followed stopping adm old s : followed adm old s -> followed adm old (stop_scale stopping adm s).
Proof. intros H. unfold stop_scale. destruct (_ && adm f64_0) eqn:E; [|done]. left. by apply andb_true_iff in E as [_ E]. Qed.

Lemma land_followed adm old target slack s : followed adm old s -> followed adm old (land_scale adm old target slack s).
Proof. intros H. unfold land_scale. destruct (_ && adm target) eqn:E; [|done]. left. by apply andb_true_iff in E as [_ E]. Qed.

(** A change of speed is one every joint can follow: the clock scale a tick ends with (a pause, a resume, a speed
    selection or a stop under way) keeps each joint within its acceleration limit at the setpoint it leads to, sampled
    and instantaneous, unless it is the scale the tick started from. *)
Lemma speed_changes_are_admissible x e velocity acceleration next :
  followed (fun s => rate_is_admissible x e (ex_applied_scale e) s velocity next (peek_offset (ex_consumer e) 1))
    (ex_applied_scale e) (next_scale x e velocity acceleration next).
Proof.
  unfold next_scale. cbv zeta.
  destruct (if ex_stopping e then _ else _) as [rl al]. destruct (rate_bounds _ _ _ _ _) as [lo hi].
  apply land_followed, stop_followed, reach_followed.
Qed.

End ExecProps.

(** ** Extrema *)

#[export] Instance total_le_total : Total total_le.
Proof. intros a b. unfold total_le. lia. Qed.
#[export] Instance total_le_trans : Transitive total_le.
Proof. intros a b c. unfold total_le. lia. Qed.

(** The extrema of an interval are in phase order, hold both ends, and are all within
    the interval. *)
Lemma extrema_sorted iv :
  let l := position_extrema iv in
  StronglySorted total_le l /\ f64_0 ∈ l /\ f64_1 ∈ l /\
  Forall (fun p => f64_le f64_0 p = true /\ f64_le p f64_1 = true) l.
Proof.
  cbv zeta. unfold position_extrema.
  set (inner := List.filter interior (flat_map (extremum_roots iv) (seq 0 MAX_JOINTS))).
  assert (Hr : Forall (fun p => f64_le f64_0 p = true /\ f64_le p f64_1 = true) inner).
  { apply Forall_forall. intros p Hin. apply list_elem_of_In, filter_In in Hin as [_ Hin].
    apply andb_true_iff in Hin as [H1 H2]. by split; apply sf_lt_le. }
  clearbody inner.
  pose proof (StronglySorted_merge_sort total_le ([f64_0; f64_1] ++ inner)) as Hs.
  pose proof (merge_sort_Permutation total_le ([f64_0; f64_1] ++ inner)) as Hp.
  set (m := merge_sort _ _) in *. clearbody m.
  split; [exact Hs|]. rewrite !list_elem_of_In.
  split; [by apply (Permutation_in _ (Permutation_sym Hp)); left|].
  split; [by apply (Permutation_in _ (Permutation_sym Hp)); right; left|].
  rewrite Hp. constructor; [done|]. by constructor.
Qed.
