(* ===== verification/LoopTiming.v ===== *)
(** * LoopTiming: loop-period statistics and the degradation bands
    (crates/par6-rt/src/timing.rs)

    The rolling window of measured periods, the percentiles recomputed from it, and
    the verdict of each tick.  The theorems: the window holds the last [WINDOW]
    periods, in the order of a ring; the percentiles are readings of it; nothing is
    judged during the warmup, and a critical verdict is exactly a p99 beyond the
    band for the sustain time. *)
From Stdlib Require Import SpecFloat.
From stdpp Require Import sorting.
From S2P Require Import Prelude F64 BusTypes Ring RtState Gripper Gpio CoreState.

Definition WINDOW : nat := 500.
Definition RECOMPUTE_EVERY : Z := 50.
Definition WARMUP_TICKS : Z := 850.
Definition EMA_ALPHA : f64 := 0x3FA999999999999A.

Definition sustain_resolution_s (dt : f64) : f64 := f64_of_int RECOMPUTE_EVERY *! dt.

(** What the tracker itself measures; the caller fills the rest of [LoopStats]. *)
Record PeriodStats := mkPeriodStats {
  ps_period_ema_s : f64;
  ps_std_s : f64;
  ps_min_s : f64;
  ps_p50_s : f64;
  ps_p90_s : f64;
  ps_p95_s : f64;
  ps_p99_s : f64;
  ps_max_s : f64;
  ps_overruns : Z;
}.

Definition stats_default : PeriodStats :=
  mkPeriodStats f64_0 f64_0 f64_0 f64_0 f64_0 f64_0 f64_0 f64_0 0.

Record LoopTiming := mkTiming {
  lt_degraded_period_s : f64;
  lt_critical_period_s : f64;
  lt_window : list f64;
  lt_next : nat;
  lt_filled : bool;
  lt_ticks : Z;
  lt_critical_streak : Z;
  lt_critical_sustain_ticks : Z;
  lt_stats : PeriodStats;
}.

Record TimingBands := mkBands {
  tb_degraded_factor : f64;
  tb_critical_factor : f64;
  tb_critical_sustain_s : f64;
}.

Definition timing_new (dt : f64) (bands : TimingBands) : LoopTiming :=
  mkTiming (tb_degraded_factor bands *! dt) (tb_critical_factor bands *! dt) [] 0 false 0 0
    (Z.max (sf_round_as_uint 32 (sf_div (f64_to_SF (tb_critical_sustain_s bands)) (f64_to_SF dt))) 1) stats_default.

Definition timing_reset (t : LoopTiming) : LoopTiming :=
  mkTiming (lt_degraded_period_s t) (lt_critical_period_s t) [] 0 false 0 0 (lt_critical_sustain_ticks t) stats_default.

(** [partial_cmp(..).unwrap_or(Equal)] is not [Greater]. *)
Definition period_le (a b : f64) : Prop := f64_gt a b = false.
#[export] Instance period_le_dec a b : Decision (period_le a b).
Proof. unfold period_le. apply _. Defined.

(** [s[((n * p).ceil() as usize).clamp(1, n) - 1]]; [n] is at least one here. *)
Definition rank (s : list f64) (p : f64) : f64 :=
  let n := Z.of_nat (length s) in
  let k := sf_ceil_as_uint 64 (sf_mul (sf_of_int n) (f64_to_SF p)) in
  s !!! Z.to_nat (Z.max 1 (Z.min k n) - 1).

Definition f64_sum (l : list f64) : f64 := fold_left f64_add l f64_0.

Definition f64_0_5 : f64 := f64_half.
Definition f64_0_9 : f64 := 0x3FECCCCCCCCCCCCD.
Definition f64_0_95 : f64 := 0x3FEE666666666666.
Definition f64_0_99 : f64 := 0x3FEFAE147AE147AE.

Definition recompute (window : list f64) (st : PeriodStats) : PeriodStats :=
  let s := merge_sort period_le window in
  let n := length s in
  let count := f64_of_int (Z.of_nat n) in
  let mean := f64_sum s /! count in
  let var := f64_sum (map (fun v => (v -! mean) *! (v -! mean)) s) /! count in
  mkPeriodStats (ps_period_ema_s st) (f64_sqrt var) (s !!! 0%nat)
    (rank s f64_0_5) (rank s f64_0_9) (rank s f64_0_95) (rank s f64_0_99) (s !!! (n - 1)%nat) (ps_overruns st).

(** The statistics of one more period, percentiles apart. *)
Definition count_period (period : f64) (overrun : bool) (st : PeriodStats) : PeriodStats :=
  let ema := ps_period_ema_s st in
  mkPeriodStats
    (if f64_eqb ema f64_0 then period else ema +! EMA_ALPHA *! (period -! ema))
    (ps_std_s st) (ps_min_s st) (ps_p50_s st) (ps_p90_s st) (ps_p95_s st) (ps_p99_s st) (ps_max_s st)
    (if overrun then saturating_add 32 (ps_overruns st) 1 else ps_overruns st).

(** The window with one more period: appended until it is full, then in the place of
    the oldest. *)
Definition push_period (period : f64) (t : LoopTiming) : list f64 :=
  if (length (lt_window t) <? WINDOW)%nat then lt_window t ++ [period] else <[lt_next t := period]> (lt_window t).

Definition judge (t : LoopTiming) : LoopTiming * LoopHealth :=
  let put streak :=
    mkTiming (lt_degraded_period_s t) (lt_critical_period_s t) (lt_window t) (lt_next t) (lt_filled t)
      (lt_ticks t) streak (lt_critical_sustain_ticks t) (lt_stats t) in
  if (lt_ticks t <? WARMUP_TICKS) || negb (lt_filled t) then (put 0, LH_Ok)
  else
    let p99 := ps_p99_s (lt_stats t) in
    let streak := if f64_gt p99 (lt_critical_period_s t) then saturating_add 32 (lt_critical_streak t) 1 else 0 in
    (put streak,
     if streak >=? lt_critical_sustain_ticks t then LH_Critical
     else if f64_gt p99 (lt_degraded_period_s t) then LH_Degraded else LH_Ok).

Definition record_period (period_s : f64) (overrun : bool) (t : LoopTiming) : LoopTiming :=
  let ticks := lt_ticks t + 1 in
  let stats := count_period period_s overrun (lt_stats t) in
  let window := push_period period_s t in
  let filled := lt_filled t || (length window =? WINDOW)%nat in
  let stats :=
    if (ticks mod RECOMPUTE_EVERY =? 0) && negb (length window =? 0)%nat then recompute window stats else stats in
  mkTiming (lt_degraded_period_s t) (lt_critical_period_s t) window ((lt_next t + 1) mod WINDOW) filled
    ticks (lt_critical_streak t) (lt_critical_sustain_ticks t) stats.

(** [LoopTiming::record]. *)
Definition timing_record (period_s : f64) (overrun : bool) (t : LoopTiming) : LoopTiming * LoopHealth :=
  judge (record_period period_s overrun t).

(** ** The window *)

(** The tracker after the periods of a run. *)
Definition timing_run (t : LoopTiming) (periods : list (f64 * bool)) : LoopTiming :=
  fold_left (fun t '(p, o) => fst (timing_record p o t)) periods t.

(** The last [n] of a list. *)
Definition last_n {A} (n : nat) (l : list A) : list A := drop (length l - n) l.

(** The window holds the last periods: all of them until it is full, then the last
    [WINDOW], the oldest at [lt_next]. *)
Definition window_inv (periods : list f64) (t : LoopTiming) : Prop :=
  drop (lt_next t mod length (lt_window t)) (lt_window t) ++ take (lt_next t mod length (lt_window t)) (lt_window t)
    = last_n WINDOW periods /\
  lt_next t = (length periods mod WINDOW)%nat /\ (lt_filled t = true <-> (WINDOW <= length periods)%nat) /\
  lt_ticks t = Z.of_nat (length periods).

Lemma last_n_all {A} n (l : list A) : (length l <= n)%nat -> last_n n l = l.
Proof. intros H. unfold last_n. by replace (length l - n)%nat with 0%nat by lia. Qed.

Lemma last_n_length {A} n (l : list A) : length (last_n n l) = Nat.min n (length l).
Proof. unfold last_n. rewrite length_drop. lia. Qed.

Lemma last_n_snoc {A} n (l : list A) x : (n <= length l)%nat -> (0 < n)%nat -> last_n n (l ++ [x]) = drop 1 (last_n n l) ++ [x].
Proof.
  intros H Hn. unfold last_n. rewrite length_app, drop_drop, drop_app_le by (cbn; lia). do 2 f_equal. cbn. lia.
Qed.

Lemma judge_keeps t : let t' := fst (judge t) in
  lt_window t' = lt_window t /\ lt_next t' = lt_next t /\ lt_filled t' = lt_filled t /\ lt_ticks t' = lt_ticks t /\
  lt_stats t' = lt_stats t /\ lt_critical_period_s t' = lt_critical_period_s t /\
  lt_critical_sustain_ticks t' = lt_critical_sustain_ticks t.
Proof. unfold judge. cbv zeta. by destruct (_ || _). Qed.

Lemma window_positive : (0 < WINDOW)%nat.
Proof. unfold WINDOW. lia. Qed.

#[global] Opaque WINDOW.

(** Rotating a full window past the slot just written. *)
Lemma rotate_insert {A} (w : list A) k x : (k < length w)%nat ->
  drop (S k) (<[k := x]> w) ++ take (S k) (<[k := x]> w) = drop 1 (drop k w ++ take k w) ++ [x].
Proof.
  intros Hk. rewrite drop_insert_lt by lia.
  assert (Ht : take (S k) (<[k := x]> w) = take k w ++ [x]).
  { rewrite (take_S_r _ _ x) by (by rewrite list_lookup_insert_eq). by rewrite take_insert_ge by lia. }
  rewrite Ht. destruct (drop k w) as [|y r] eqn:Ed.
  { apply (f_equal length) in Ed. rewrite length_drop in Ed. cbn in Ed. lia. }
  cbn. rewrite drop_0. assert (Hr : drop (S k) w = r) by (rewrite <- Nat.add_1_r, <- drop_drop, Ed; done).
  by rewrite Hr, app_assoc.
Qed.

Lemma rotate_wrap {A} (w : list A) : drop (length w) w ++ take (length w) w = drop 0 w ++ take 0 w.
Proof. by rewrite drop_all, firstn_all, drop_0, take_0, app_nil_r. Qed.

Lemma window_length periods t : window_inv periods t -> length (lt_window t) = Nat.min WINDOW (length periods).
Proof.
  intros (H & _). apply (f_equal length) in H. rewrite last_n_length, length_app, length_drop, length_take in H.
  pose proof (Nat.Div0.mod_le (lt_next t) (length (lt_window t))).
  destruct (decide (length (lt_window t) = 0)%nat) as [E|E]; [rewrite E in *; cbn in *; lia|].
  pose proof (Nat.mod_upper_bound (lt_next t) (length (lt_window t)) E). lia.
Qed.

Lemma window_step periods t p o : window_inv periods t -> window_inv (periods ++ [p]) (fst (timing_record p o t)).
Proof.
  intros HI. pose proof (window_length _ _ HI) as Hl. destruct HI as (H1 & H2 & H3 & H4).
  pose proof window_positive as Hw. unfold timing_record, window_inv.
  destruct (judge_keeps (record_period p o t)) as (-> & -> & -> & -> & _). unfold record_period. cbn [lt_window lt_next lt_filled lt_ticks].
  rewrite length_app. cbn [length].
  assert (Hn : ((lt_next t + 1) mod WINDOW = (length periods + 1) mod WINDOW)%nat).
  { rewrite H2. by rewrite Nat.Div0.add_mod_idemp_l. }
  rewrite Hn. split; [|split; [done|split; [|lia]]].
  - unfold push_period. destruct (Nat.ltb_spec (length (lt_window t)) WINDOW) as [Hlt|Hge].
    + assert (Hp : (length periods < WINDOW)%nat) by lia.
      assert (Hw0 : lt_window t = periods).
      { rewrite last_n_all in H1 by lia. rewrite <- H1. rewrite H2, (Nat.mod_small (length periods)) by lia.
        replace (length (lt_window t)) with (length periods) by lia. destruct (decide (length periods = 0)%nat) as [E|E].
        - rewrite E. cbn. by rewrite take_0, app_nil_r.
        - rewrite Nat.Div0.mod_same. by rewrite take_0, app_nil_r. }
      rewrite Hw0, length_app, (last_n_all _ (periods ++ [p])) by (rewrite length_app; cbn; lia). cbn [length].
      replace (((length periods + 1) mod WINDOW) mod (length periods + 1))%nat with 0%nat; [by rewrite take_0, app_nil_r|].
      destruct (decide (length periods + 1 = WINDOW)%nat) as [E|E].
      * rewrite E, Nat.Div0.mod_same. symmetry. apply Nat.Div0.mod_0_l.
      * rewrite (Nat.mod_small _ WINDOW) by lia. symmetry. apply Nat.Div0.mod_same.
    + assert (Hfull : length (lt_window t) = WINDOW) by lia. assert (Hp : (WINDOW <= length periods)%nat) by lia.
      rewrite length_insert, Hfull in *. rewrite last_n_snoc, <- H1 by lia.
      pose proof (Nat.mod_upper_bound (length periods) WINDOW ltac:(lia)) as Hb.
      rewrite (Nat.mod_small (lt_next t) WINDOW) in * by lia. rewrite Nat.Div0.mod_mod.
      rewrite <- (rotate_insert (lt_window t) (lt_next t) p) by lia.
      rewrite <- Hn. rewrite Nat.add_1_r. destruct (decide (S (lt_next t) = WINDOW)%nat) as [E|E].
      * rewrite E, Nat.Div0.mod_same. symmetry.
        pose proof (rotate_wrap (<[lt_next t := p]> (lt_window t))) as Hr. by rewrite length_insert, Hfull in Hr.
      * by rewrite Nat.mod_small by lia.
  - rewrite orb_true_iff, H3, Nat.eqb_eq. unfold push_period.
    destruct (Nat.ltb_spec (length (lt_window t)) WINDOW); rewrite ?length_app, ?length_insert; cbn [length]; lia.
Qed.

Lemma window_run periods : forall t h, window_inv h t -> window_inv (h ++ map fst periods) (timing_run t periods).
Proof.
  unfold timing_run. induction periods as [|[p o] periods IH]; intros t h H; cbn [fold_left map]; [by rewrite app_nil_r|].
  change (fst (p, o) :: map fst periods) with ([p] ++ map fst periods). rewrite app_assoc. apply IH. by apply window_step.
Qed.

(** After any run of ticks the window holds exactly the last [WINDOW] measured periods
    (all of them before that), the oldest first once turned to [lt_next]. *)
Lemma window_is_the_last_periods dt bands periods :
  let t := timing_run (timing_new dt bands) periods in
  Permutation (lt_window t) (last_n WINDOW (map fst periods)) /\
  length (lt_window t) = Nat.min WINDOW (length periods).
Proof.
  cbv zeta. assert (H0 : window_inv [] (timing_new dt bands)).
  { pose proof window_positive. unfold window_inv, timing_new.
    cbn [lt_window lt_next lt_filled lt_ticks]. rewrite last_n_all by (cbn; lia).
    split; [done|]. split; [by rewrite Nat.Div0.mod_0_l|]. split; [split; [done|cbn [length]; lia]|done]. }
  pose proof (window_run periods _ _ H0) as H. cbn [app] in H. pose proof (window_length _ _ H) as Hl.
  rewrite length_map in Hl. split; [|done]. destruct H as [H _]. rewrite <- H.
  rewrite Permutation_app_comm, take_drop. reflexivity.
Qed.

(** A percentile is one of the periods of the window. *)
Lemma rank_in s p : s <> [] -> rank s p ∈ s.
Proof.
  intros Hs. unfold rank. cbv zeta.
  destruct (lookup_lt_is_Some_2 s (Z.to_nat (Z.max 1 (Z.min (sf_ceil_as_uint 64 (sf_mul (sf_of_int (Z.of_nat (length s))) (f64_to_SF p))) (Z.of_nat (length s))) - 1))) as [v Hv].
  { destruct s; [done|]. cbn [length]. lia. }
  rewrite (list_lookup_total_correct _ _ v Hv). by eapply list_elem_of_lookup_2.
Qed.

(** ** The verdict *)

(** Whether the bands are judged at all, and whether the p99 of the tick is beyond. *)
Definition judged (t : LoopTiming) : bool := negb ((lt_ticks t <? WARMUP_TICKS) || negb (lt_filled t)).
Definition beyond (t : LoopTiming) : bool := judged t && f64_gt (ps_p99_s (lt_stats t)) (lt_critical_period_s t).

(** The trackers after each tick of a run. *)
Fixpoint timing_trace (t : LoopTiming) (periods : list (f64 * bool)) : list LoopTiming :=
  match periods with
  | [] => []
  | (p, o) :: rest => let t' := fst (timing_record p o t) in t' :: timing_trace t' rest
  end.

(** The number of ticks at the end of a run whose p99 was beyond the band. *)
Definition trailing (ts : list LoopTiming) : nat :=
  fold_left (fun n t => if beyond t then S n else 0%nat) ts 0%nat.

Lemma judge_streak t :
  lt_critical_streak (fst (judge t)) = (if beyond t then saturating_add 32 (lt_critical_streak t) 1 else 0) /\
  beyond (fst (judge t)) = beyond t /\
  (snd (judge t) = LH_Critical <->
   judged t = true /\ lt_critical_sustain_ticks t <= lt_critical_streak (fst (judge t))).
Proof.
  unfold judge, beyond, judged. cbv zeta. destruct ((lt_ticks t <? WARMUP_TICKS) || negb (lt_filled t)) eqn:E; cbn [negb andb fst snd].
  - split; [done|]. cbn. rewrite E. cbn. split; [done|]. split; [done|]. by intros [? _].
  - cbn. rewrite E. cbn. split; [by case_match|]. split; [done|].
    destruct (Z.geb_spec (if f64_gt (ps_p99_s (lt_stats t)) (lt_critical_period_s t) then saturating_add 32 (lt_critical_streak t) 1 else 0) (lt_critical_sustain_ticks t)) as [H|H].
    + split; [intros _; split; [done|lia]|done].
    + split; [intros Hc; by destruct (f64_gt _ (lt_degraded_period_s t))|]. intros [_ H']. lia.
Qed.

Lemma trace_streak periods : forall t n,
  lt_critical_streak t = Z.min (Z.of_nat n) (2 ^ 32 - 1) ->
  lt_critical_streak (timing_run t periods) =
    Z.min (Z.of_nat (fold_left (fun n t => if beyond t then S n else 0%nat) (timing_trace t periods) n)) (2 ^ 32 - 1).
Proof.
  unfold timing_run. induction periods as [|[p o] periods IH]; intros t n H; [done|]. cbn [fold_left timing_trace]. apply IH.
  unfold timing_record. destruct (judge_streak (record_period p o t)) as (E1 & E2 & _). rewrite E1, E2.
  cbn [record_period lt_critical_streak]. change (lt_critical_streak (record_period p o t)) with (lt_critical_streak t).
  destruct (beyond _); [|done]. rewrite H. unfold saturating_add. lia.
Qed.

(** The hard loop error is exactly a p99 beyond the critical band for the sustain time: the verdict of a tick is
    critical if and only if the warmup is over and the last ticks, as many as the configured sustain, all ended with a
    p99 beyond the band; the count saturates at 32 bits. *)
Lemma critical_takes_a_sustained_p99 dt bands periods p o :
  let t := timing_run (timing_new dt bands) periods in
  let after := fst (timing_record p o t) in
  snd (timing_record p o t) = LH_Critical <->
  judged after = true /\
  lt_critical_sustain_ticks after <=
    Z.min (Z.of_nat (trailing (timing_trace (timing_new dt bands) (periods ++ [(p, o)])))) (2 ^ 32 - 1).
Proof.
  cbv zeta. set (t := timing_run _ periods).
  assert (E : timing_run (timing_new dt bands) (periods ++ [(p, o)]) = fst (timing_record p o t)).
  { unfold timing_run. by rewrite fold_left_app. }
  unfold trailing. rewrite <- (trace_streak (periods ++ [(p, o)]) (timing_new dt bands) 0) by done. rewrite E.
  unfold timing_record. destruct (judge_streak (record_period p o t)) as (_ & _ & ->).
  destruct (judge_keeps (record_period p o t)) as (_ & _ & K1 & K2 & _ & _ & K3). rewrite K3.
  unfold judged. by rewrite K1, K2.
Qed.
