(* ===== verification/RtLoop.v ===== *)
(** * RtLoop: the whole state of the real-time loop (crates/par6-rt/src/core.rs)

    [RtCore] of CoreState holds the fields the mode machine works on; [RtLoop] adds
    the rest of the Rust struct: the wire conversions, the measured and commanded
    arrays, the filters, the torque slew, the rest window, the statistics, the boot
    schedule and the shutdown retreat.  [TickDeps] is what a tick calls of the bus,
    the sequencer, the engines and the policy beyond [CoreDeps].  The frames a tick
    hands to the bus are also appended to [l_tx], newest last.  The phase profiler,
    the log throttles and the published copy are left out. *)
From Stdlib Require Import SpecFloat.
From S2P Require Import Prelude F64 BusTypes Ring Joints RtState Gripper Gpio CoreState.
From S2P Require Import Convert Homing HomingSeq Dispatch SettlePolicy ExecTick LoopTiming.

(** ** Collaborators *)

(** What a tick of the sequencer leaves. *)
Record HomingTicked (bus homing : Type) := mkTicked {
  ht_homing : homing;
  ht_bus : bus;
  ht_state : BusState;
  ht_conv : list JointConversion;
  ht_cmds : list JointCommand;
  ht_gcmd : GripperCommand;
  ht_status : SeqStatus;
}.
Arguments mkTicked {bus homing}.
Arguments ht_homing {bus homing}.
Arguments ht_bus {bus homing}.
Arguments ht_state {bus homing}.
Arguments ht_conv {bus homing}.
Arguments ht_cmds {bus homing}.
Arguments ht_gcmd {bus homing}.
Arguments ht_status {bus homing}.

Class TickDeps `{D : CoreDeps} := {
  bus_begin_tick : bus_t -> Z -> bus_t;
  bus_drain_rx : bus_t -> BusState -> bus_t * BusState * bool;
  bus_connected_nodes : bus_t -> Z;
  bus_simulated : bus_t -> bool;
  bus_recover_link : bus_t -> bus_t * bool;
  bus_boot_configure : bus_t -> Z -> bus_t;
  bus_send_joint_commands : bus_t -> list JointCommand -> bus_t * bool;
  bus_send_gripper : bus_t -> GripperCommand -> bus_t * bool;
  bus_poll_step : bus_t -> bus_t;
  homing_tick : homing_t -> bus_t -> BusState -> list JointConversion -> list JointCommand -> GripperCommand ->
    HomingTicked bus_t homing_t;
  homing_fail_reference : homing_t -> nat -> homing_t;
  jog_tick : jog_t -> list f64 -> jog_t * list f64 * list f64 * Z;
  track_set_target : track_t -> list f64 -> track_t;
  track_set_scale : track_t -> f64 -> f64 -> track_t;
  track_set_scale_per_joint : track_t -> list f64 -> f64 -> track_t;
  track_set_bounds : track_t -> list f64 -> list f64 -> track_t;
  track_step : track_t -> track_t * list f64 * list f64;
  track_faulted : track_t -> bool;
  grav_gravity : grav_t -> list f64 -> grav_t * list f64;
  grav_describes_arm : grav_t -> bool;
  policy_t : Type;
  tick_policy :: SettleOps policy_t;
}.

(** What the core relies on of them: none makes the bus silent or ends its silence. *)
Class TickSilenceLaws `{D : CoreDeps} {T : TickDeps} := {
  silent_begin : forall b n, bus_is_silent (bus_begin_tick b n) = bus_is_silent b;
  silent_drain : forall b s, bus_is_silent (fst (fst (bus_drain_rx b s))) = bus_is_silent b;
  silent_recover : forall b, bus_is_silent (fst (bus_recover_link b)) = bus_is_silent b;
  silent_boot : forall b k, bus_is_silent (bus_boot_configure b k) = bus_is_silent b;
  silent_joints : forall b c, bus_is_silent (fst (bus_send_joint_commands b c)) = bus_is_silent b;
  silent_gripper : forall b c, bus_is_silent (fst (bus_send_gripper b c)) = bus_is_silent b;
  silent_poll_step : forall b, bus_is_silent (bus_poll_step b) = bus_is_silent b;
  silent_homing : forall h b s v c g, bus_is_silent (ht_bus (homing_tick h b s v c g)) = bus_is_silent b;
}.

(** The command array is [&mut [JointCommand; MAX_JOINTS]]: the sequencer keeps its length. *)
Class TickShapeLaws `{D : CoreDeps} {T : TickDeps} := {
  homing_cmds_shape : forall h b s v c g, length c = MAX_JOINTS -> length (ht_cmds (homing_tick h b s v c g)) = MAX_JOINTS;
}.

(** ** Parts of the state *)

Record TorqueCal := mkTorqueCal {
  tc_gear_ratio : f64;
  tc_gear_efficiency : f64;
  tc_kt_nm_a : f64;
  tc_dir : Z;
}.

Definition cal_factor (cal : TorqueCal) (kt_nm_a : f64) : f64 :=
  f64_of_SF (torque_to_ma_factor (f64_to_SF (tc_gear_ratio cal)) (f64_to_SF (tc_gear_efficiency cal))
               (f64_to_SF kt_nm_a) (tc_dir cal)).

Record ShutdownPark := mkPark {
  pk_enabled : bool;
  pk_tolerance_rad : f64;
  pk_timeout_ticks : Z;
  pk_target : list f64;
  pk_speed_fractions : list f64;
  pk_saved_scale : f64 * f64;
  pk_running : bool;
  pk_soft_bounds : list f64 * list f64;
  pk_hard_bounds : list f64 * list f64;
}.

Definition park_put (saved : f64 * f64) (running : bool) (p : ShutdownPark) : ShutdownPark :=
  mkPark (pk_enabled p) (pk_tolerance_rad p) (pk_timeout_ticks p) (pk_target p) (pk_speed_fractions p)
    saved running (pk_soft_bounds p) (pk_hard_bounds p).

(** What a tick puts out, in order. *)
Inductive TxEvent :=
| TX_Outputs (levels : list Z)
| TX_Joints (cmds : list JointCommand)
| TX_Gripper (cmd : GripperCommand)
| TX_Poll.

(** ** The state *)

Section RtLoop.
Context `{T : TickDeps}.

Record RtLoop := mkLoop {
  l_core : RtCore;
  l_dt : f64;
  l_gripper_age : Z;
  l_frames_last_drain : Z;
  l_frame_age_max_ticks : Z;
  l_frame_age_min_ticks : Z;
  l_conv : list JointConversion;
  l_sector_done : list bool;
  l_bus_booted_at : Z;
  l_tool_id : option Z;
  l_lost_ticks : Z;
  l_link_settle_ticks : Z;
  l_torque_ma_factor : list f64;
  l_torque_slew : TorqueSlew;
  l_torque_cal : list TorqueCal;
  l_kt_auto : bool;
  l_jog_pack : Pack;
  l_gravity_scale : list f64;
  l_clock : ExecClock policy_t;
  l_estop : Debouncer;
  l_ref_check_nm : list f64;
  l_link_recovered : bool;
  l_tool_hold_until : Z;
  l_timing : LoopTiming;
  l_bus_tx_failures : Z;
  l_bus_rx_failures : Z;
  l_settle_residual_rad : f64;
  l_config_resend_ticks : list Z;
  l_qd : list f64;
  l_tau : list f64;
  l_q_filt : list f64;
  l_qd_filt : list f64;
  l_tau_filt : list f64;
  l_filters_seeded : bool;
  l_g : list f64;
  l_setpoints : list JointSetpoint;
  l_cmds : list JointCommand;
  l_mirror : CommandMirror;
  l_qd_target : list f64;
  l_scratch_q : list f64;
  l_scratch_qd : list f64;
  l_homing_gcmd : GripperCommand;
  l_release_rest_ref : option (list f64);
  l_release_rest_streak : Z;
  l_release_rest_generation : list Z;
  l_release_rest_needed : Z;
  l_stream_scale : f64 * f64;
  l_stream_window_ticks : Z;
  l_stream_lp_alpha : f64;
  l_park : ShutdownPark;
  l_boot_selfcheck_tick : Z;
  l_rescan_at : option Z;
  l_rescan_configured : bool;
  l_tx : list TxEvent;
}.

(** The loop state rebuilt from its fields: what a setter replaces one field of. *)
Definition loop_eta (l : RtLoop) : RtLoop :=
  mkLoop
    (l_core l) (l_dt l) (l_gripper_age l) (l_frames_last_drain l) (l_frame_age_max_ticks l)
    (l_frame_age_min_ticks l) (l_conv l) (l_sector_done l) (l_bus_booted_at l) (l_tool_id l)
    (l_lost_ticks l) (l_link_settle_ticks l) (l_torque_ma_factor l) (l_torque_slew l)
    (l_torque_cal l) (l_kt_auto l) (l_jog_pack l) (l_gravity_scale l) (l_clock l) (l_estop l)
    (l_ref_check_nm l) (l_link_recovered l) (l_tool_hold_until l) (l_timing l) (l_bus_tx_failures l)
    (l_bus_rx_failures l) (l_settle_residual_rad l) (l_config_resend_ticks l) (l_qd l) (l_tau l)
    (l_q_filt l) (l_qd_filt l) (l_tau_filt l) (l_filters_seeded l) (l_g l) (l_setpoints l)
    (l_cmds l) (l_mirror l) (l_qd_target l) (l_scratch_q l) (l_scratch_qd l) (l_homing_gcmd l)
    (l_release_rest_ref l) (l_release_rest_streak l) (l_release_rest_generation l)
    (l_release_rest_needed l) (l_stream_scale l) (l_stream_window_ticks l) (l_stream_lp_alpha l)
    (l_park l) (l_boot_selfcheck_tick l) (l_rescan_at l) (l_rescan_configured l) (l_tx l).

Ltac replace_loop getter l v :=
  let t := eval unfold loop_eta in (loop_eta l) in
  lazymatch t with context T [getter l] => let t' := context T [v] in exact t' end.

Definition lput_core (v : RtCore) (l : RtLoop) : RtLoop := ltac:(replace_loop l_core l v).
Definition lput_gripper_age (v : Z) (l : RtLoop) : RtLoop := ltac:(replace_loop l_gripper_age l v).
Definition lput_frames_last_drain (v : Z) (l : RtLoop) : RtLoop := ltac:(replace_loop l_frames_last_drain l v).
Definition lput_frame_age_max_ticks (v : Z) (l : RtLoop) : RtLoop := ltac:(replace_loop l_frame_age_max_ticks l v).
Definition lput_frame_age_min_ticks (v : Z) (l : RtLoop) : RtLoop := ltac:(replace_loop l_frame_age_min_ticks l v).
Definition lput_conv (v : list JointConversion) (l : RtLoop) : RtLoop := ltac:(replace_loop l_conv l v).
Definition lput_sector_done (v : list bool) (l : RtLoop) : RtLoop := ltac:(replace_loop l_sector_done l v).
Definition lput_bus_booted_at (v : Z) (l : RtLoop) : RtLoop := ltac:(replace_loop l_bus_booted_at l v).
Definition lput_torque_ma_factor (v : list f64) (l : RtLoop) : RtLoop := ltac:(replace_loop l_torque_ma_factor l v).
Definition lput_torque_slew (v : TorqueSlew) (l : RtLoop) : RtLoop := ltac:(replace_loop l_torque_slew l v).
Definition lput_clock (v : ExecClock policy_t) (l : RtLoop) : RtLoop := ltac:(replace_loop l_clock l v).
Definition lput_estop (v : Debouncer) (l : RtLoop) : RtLoop := ltac:(replace_loop l_estop l v).
Definition lput_link_recovered (v : bool) (l : RtLoop) : RtLoop := ltac:(replace_loop l_link_recovered l v).
Definition lput_tool_hold_until (v : Z) (l : RtLoop) : RtLoop := ltac:(replace_loop l_tool_hold_until l v).
Definition lput_timing (v : LoopTiming) (l : RtLoop) : RtLoop := ltac:(replace_loop l_timing l v).
Definition lput_bus_tx_failures (v : Z) (l : RtLoop) : RtLoop := ltac:(replace_loop l_bus_tx_failures l v).
Definition lput_bus_rx_failures (v : Z) (l : RtLoop) : RtLoop := ltac:(replace_loop l_bus_rx_failures l v).
Definition lput_settle_residual_rad (v : f64) (l : RtLoop) : RtLoop := ltac:(replace_loop l_settle_residual_rad l v).
Definition lput_qd (v : list f64) (l : RtLoop) : RtLoop := ltac:(replace_loop l_qd l v).
Definition lput_tau (v : list f64) (l : RtLoop) : RtLoop := ltac:(replace_loop l_tau l v).
Definition lput_q_filt (v : list f64) (l : RtLoop) : RtLoop := ltac:(replace_loop l_q_filt l v).
Definition lput_qd_filt (v : list f64) (l : RtLoop) : RtLoop := ltac:(replace_loop l_qd_filt l v).
Definition lput_tau_filt (v : list f64) (l : RtLoop) : RtLoop := ltac:(replace_loop l_tau_filt l v).
Definition lput_filters_seeded (v : bool) (l : RtLoop) : RtLoop := ltac:(replace_loop l_filters_seeded l v).
Definition lput_g (v : list f64) (l : RtLoop) : RtLoop := ltac:(replace_loop l_g l v).
Definition lput_setpoints (v : list JointSetpoint) (l : RtLoop) : RtLoop := ltac:(replace_loop l_setpoints l v).
Definition lput_cmds (v : list JointCommand) (l : RtLoop) : RtLoop := ltac:(replace_loop l_cmds l v).
Definition lput_mirror (v : CommandMirror) (l : RtLoop) : RtLoop := ltac:(replace_loop l_mirror l v).
Definition lput_qd_target (v : list f64) (l : RtLoop) : RtLoop := ltac:(replace_loop l_qd_target l v).
Definition lput_scratch_q (v : list f64) (l : RtLoop) : RtLoop := ltac:(replace_loop l_scratch_q l v).
Definition lput_scratch_qd (v : list f64) (l : RtLoop) : RtLoop := ltac:(replace_loop l_scratch_qd l v).
Definition lput_homing_gcmd (v : GripperCommand) (l : RtLoop) : RtLoop := ltac:(replace_loop l_homing_gcmd l v).
Definition lput_release_rest_ref (v : option (list f64)) (l : RtLoop) : RtLoop := ltac:(replace_loop l_release_rest_ref l v).
Definition lput_release_rest_streak (v : Z) (l : RtLoop) : RtLoop := ltac:(replace_loop l_release_rest_streak l v).
Definition lput_release_rest_generation (v : list Z) (l : RtLoop) : RtLoop := ltac:(replace_loop l_release_rest_generation l v).
Definition lput_stream_scale (v : f64 * f64) (l : RtLoop) : RtLoop := ltac:(replace_loop l_stream_scale l v).
Definition lput_park (v : ShutdownPark) (l : RtLoop) : RtLoop := ltac:(replace_loop l_park l v).
Definition lput_rescan_at (v : option Z) (l : RtLoop) : RtLoop := ltac:(replace_loop l_rescan_at l v).
Definition lput_rescan_configured (v : bool) (l : RtLoop) : RtLoop := ltac:(replace_loop l_rescan_configured l v).
Definition lput_tx (v : list TxEvent) (l : RtLoop) : RtLoop := ltac:(replace_loop l_tx l v).

End RtLoop.
