(* ===== verification/RtTick.v ===== *)
(** * RtTick: one tick of the real-time core (crates/par6-rt/src/core.rs)

    The phases of [RtCore::tick] in their order: inputs, loop timing, boot one-shots,
    one command, outputs, the drain and what is derived from it, gravity, the error
    checks of Core, the mode dispatch with its sends, the clear countdown.  Then the
    off-tick operations that work on the same state: the bus swap, the teleport, the
    shutdown retreat.  What a tick reads from outside is [TickInput]. *)
From Stdlib Require Import SpecFloat.
From S2P Require Import Prelude F64 BusTypes Ring Joints RtState Gripper Gpio CoreState Core.
From S2P Require Import Convert Homing HomingSeq Dispatch SettlePolicy ExecTick LoopTiming RtLoop.

Definition STREAM_REST_RAD_S : f64 := 0x3E112E0BE826D695.
Definition RELEASE_REST_BAND_RAD : f64 := 0x3FA999999999999A.
Definition MEAS_FILTER_ALPHA : f64 := 0x3FC999999999999A.
Definition SHUTDOWN_REST_RAD_S : f64 := 0x3F947AE147AE147B.
Definition KT_FAMILY_FACTOR : f64 := f64_3.

Record TickInput := mkTickInput {
  ti_estop_line : bool;
  ti_io_raw : list Z;
  ti_period_s : f64;
  ti_overrun : bool;
  ti_command : option RtCommand;
}.

Section RtTick.
Context `{T : TickDeps}.
Implicit Types (l : RtLoop).

Definition upd_core (f : RtCore -> RtCore) l : RtLoop := lput_core (f (l_core l)) l.
Definition sent_all (evs : list TxEvent) l : RtLoop := lput_tx (l_tx l ++ evs) l.
Definition sent (ev : TxEvent) : RtLoop -> RtLoop := sent_all [ev].

Definition loop_node l (n : Z) : NodeState := nth (Z.to_nat n) (c_nodes (l_core l)) node_default.
Definition joint_node l (i : nat) : NodeState := loop_node l (c_node_of (l_core l) !!! i).

(** The [BusState] the backend fills, put together from where its parts live. *)
Definition bus_state l : BusState :=
  mkBusState (c_nodes (l_core l))
    (mkGripperState (c_gripper_reply (l_core l)) (c_gripper_live_bit (l_core l)) (l_gripper_age l))
    (l_frames_last_drain l) (l_frame_age_max_ticks l) (l_frame_age_min_ticks l) (c_reconnected_mask (l_core l)).

Definition put_bus_state (s : BusState) l : RtLoop :=
  let l := upd_core (fun c => set_nodes (bs_nodes s) (set_gripper_reply (gs_reply (bs_gripper s))
             (set_gripper_live_bit (gs_live_error_bit (bs_gripper s)) (set_reconnected_mask (bs_reconnected_mask s) c)))) l in
  lput_gripper_age (gs_data_age_ticks (bs_gripper s)) (lput_frames_last_drain (bs_frames_last_drain s)
    (lput_frame_age_max_ticks (bs_frame_age_max_ticks s) (lput_frame_age_min_ticks (bs_frame_age_min_ticks s) l))).

(** ** Boot one-shots *)

Definition gripper_present l : bool :=
  Z.testbit (bus_connected_nodes (c_bus (l_core l))) (c_gripper_node (l_core l)).

Definition unfitted_drive_tool l : option Z :=
  if bus_simulated (c_bus (l_core l)) then None
  else
    match ns_device_info (loop_node l (c_gripper_node (l_core l))) with
    | Some d =>
        let reported := di_tool_id d in
        if reported =? 0 then None
        else if bool_decide (l_tool_id l = Some reported) then None else Some reported
    | None => None
    end.

Definition release_tool_hold l : RtLoop :=
  let c := l_core l in
  if negb (mode_eqb (c_mode c) Booting) then upd_core (set_tool_hold false) l
  else
    let unheard := negb (bus_simulated (c_bus c)) && gripper_present l &&
                   bool_decide (ns_device_info (loop_node l (c_gripper_node c)) = None) in
    if unheard && (c_tick c <? l_tool_hold_until l) then l
    else
      match unfitted_drive_tool l with
      | Some _ => l
      | None => upd_core (fun c => fst (request_mode Idle (set_tool_hold false c))) l
      end.

(** The driver's own torque constant, when it is usable. *)
Definition usable_kt (cal : TorqueCal) (kt : option f32) : option f64 :=
  match kt with
  | Some b =>
      let kt := f64_of_f32 b in
      if f64_is_finite kt && f64_gt kt f64_0 &&
         (f64_le kt (tc_kt_nm_a cal *! KT_FAMILY_FACTOR) && f64_ge kt (tc_kt_nm_a cal /! KT_FAMILY_FACTOR))
      then Some kt else None
  | None => None
  end.

#[local] Instance cal_inhabited : Inhabited TorqueCal := populate (mkTorqueCal f64_0 f64_0 f64_0 0).

Definition adopt_driver_kt l : RtLoop :=
  fold_left (fun l i =>
      let cal := l_torque_cal l !!! i in
      match usable_kt cal (ns_kt_nm_a (joint_node l i)) with
      | Some kt => lput_torque_ma_factor (<[i := cal_factor cal kt]> (l_torque_ma_factor l)) l
      | None => l
      end) (seq 0 MAX_JOINTS) l.

Definition arm_mask (c : RtCore) : Z := fold_left (fun m node => Z.lor m (Z.shiftl 1 node)) (c_node_of c) 0.

Definition latch_unheard (connected : Z) (c : RtCore) : RtCore :=
  let c :=
    fold_left (fun c i =>
        if Z.testbit connected (c_node_of c !!! i) then c else core_latch EC_CanLost (Some (Z.of_nat i)) c)
      (seq 0 MAX_JOINTS) c in
  if c_has_can_gripper c && negb (Z.testbit connected (c_gripper_node c))
  then core_latch EC_CanLost (Some GRIPPER_ERR_IDX) c else c.

(** The selfcheck has judged the bus: the tool hold starts. *)
Definition begin_tool_hold l : RtLoop :=
  let c := l_core l in
  if mode_eqb (c_mode c) Booting then
    let l := upd_core (set_tool_hold true) l in
    let l := lput_tool_hold_until (c_tick c + Z.max (l_lost_ticks l) 1) l in
    if negb (bus_simulated (c_bus c)) && gripper_present l then
      upd_core (upd_bus (fun b => bus_queue_poll_override b (PA_Poll (c_gripper_node c) PK_DeviceInfo) 1)) l
    else l
  else l.

(** The bus scan of the selfcheck tick; [true] when the link was cycled instead. *)
Definition selfcheck l : RtLoop * bool :=
  let l := lput_rescan_at None l in
  let c := l_core l in
  let connected := bus_connected_nodes (c_bus c) in
  let silence := (Z.land connected (arm_mask c) =? 0) && negb (l_link_recovered l) in
  let '(b, cycled) := if silence then bus_recover_link (c_bus c) else (c_bus c, false) in
  let l := upd_core (set_bus b) l in
  if cycled : bool then
    (lput_rescan_at (Some (c_tick c + Z.max (l_link_settle_ticks l) 1))
       (upd_core (set_config_repush_armed_at (c_tick c)) (lput_link_recovered true l)), true)
  else
    let l := upd_core (latch_unheard connected) l in
    let l := if l_kt_auto l then adopt_driver_kt l else l in
    (begin_tool_hold l, false).

Definition config_shots l : RtLoop :=
  let c := l_core l in
  let since_armed := c_tick c - c_config_repush_armed_at c in
  let l :=
    if bool_decide (since_armed ∈ l_config_resend_ticks l) && negb (bus_is_silent (c_bus c))
    then upd_core config_repush l else l in
  upd_core drain_config_resends l.

Definition boot_oneshots l : RtLoop :=
  let c := l_core l in
  let since_boot := c_tick c - l_bus_booted_at l in
  let rescan := bool_decide (l_rescan_at l = Some (c_tick c)) in
  if rescan && negb (l_rescan_configured l) then
    lput_rescan_at (Some (c_tick c + 1)) (lput_rescan_configured true
      (upd_core (upd_bus (fun b => bus_boot_configure b (c_config_repeats c))) l))
  else
    let '(l, cycled) :=
      if (since_boot =? l_boot_selfcheck_tick l) || rescan then selfcheck l else (l, false) in
    if cycled : bool then l
    else config_shots (if c_tool_hold (l_core l) then release_tool_hold l else l).

(** ** The drain and what is derived from it *)

Definition drain_rx l : RtLoop :=
  let '(b, s, ok) := bus_drain_rx (c_bus (l_core l)) (bus_state l) in
  let l := put_bus_state s (upd_core (set_bus b) l) in
  if ok : bool then l else lput_bus_rx_failures (saturating_add 32 (l_bus_rx_failures l) 1) l.

(** A node cleared but for which tool it says it is. *)
Definition blank_node (n : NodeState) : NodeState :=
  mkNodeState (ns_position_ticks node_default) (ns_position_generation node_default) (ns_speed_ticks_s node_default)
    (ns_current_ma node_default) (ns_temperature_c node_default) (ns_voltage_mv node_default) (ns_error_flags node_default)
    (ns_kt_nm_a node_default) (ns_device_info n) (ns_combined_telemetry node_default) (ns_hall node_default)
    (ns_live_error_bit node_default) (ns_readback node_default) (ns_data_age_ticks node_default).

(** Without a driven tool whatever answers on its node reads nothing on the arm. *)
Definition blank_gripper l : RtLoop :=
  if c_has_can_gripper (l_core l) then l
  else
    let n := Z.to_nat (c_gripper_node (l_core l)) in
    lput_gripper_age U64_MAX (upd_core (fun c =>
      set_gripper_reply None (set_gripper_live_bit false
        (set_nodes (<[n := blank_node (nth n (c_nodes c) node_default)]> (c_nodes c)) c))) l).

Definition derive_position l (i : nat) (pos : Z) : RtLoop :=
  let l :=
    if l_sector_done l !!! i : bool then l
    else lput_sector_done (<[i := true]> (l_sector_done l))
           (lput_conv (<[i := determine_sector pos (l_conv l !!! i)]> (l_conv l)) l) in
  upd_core (fun c => set_q (<[i := f64_of_SF (joint_rad (l_conv l !!! i) pos)]> (c_q c)) c) l.

Definition derive_joint l (i : nat) : RtLoop :=
  let node := joint_node l i in
  let l := match ns_position_ticks node with Some pos => derive_position l i pos | None => l end in
  let l :=
    match ns_speed_ticks_s node with
    | Some spd => lput_qd (<[i := f64_of_SF (joint_speed_rad_s (l_conv l !!! i) (sf_of_int spd))]> (l_qd l)) l
    | None => l
    end in
  match ns_current_ma node with
  | Some cur => lput_tau (<[i := f64_of_int cur /! (l_torque_ma_factor l !!! i)]> (l_tau l)) l
  | None => l
  end.

Definition ema (y x : f64) : f64 := y +! MEAS_FILTER_ALPHA *! (x -! y).

Definition filter_measured l : RtLoop :=
  if negb (l_filters_seeded l) then
    if forallb id (l_sector_done l) then
      lput_filters_seeded true (lput_tau_filt (l_tau l) (lput_qd_filt (l_qd l) (lput_q_filt (c_q (l_core l)) l)))
    else l
  else
    lput_tau_filt (per_joint (fun i => ema (l_tau_filt l !!! i) (l_tau l !!! i)))
      (lput_qd_filt (per_joint (fun i => ema (l_qd_filt l !!! i) (l_qd l !!! i)))
        (lput_q_filt (per_joint (fun i => ema (l_q_filt l !!! i) (c_q (l_core l) !!! i))) l)).

(** Every joint inside the band of where the rest window started. *)
Definition rest_held l : bool :=
  match l_release_rest_ref l with
  | Some reference =>
      forallb (fun '(q, r) => f64_le (f64_abs (f64_sub q r)) RELEASE_REST_BAND_RAD) (combine (c_q (l_core l)) reference)
  | None => false
  end.

(** Every joint has a position it did not have at the last check. *)
Definition rest_fresh l : bool :=
  forallb (fun i => bool_decide (is_Some (ns_position_ticks (joint_node l i))) &&
                    negb (ns_position_generation (joint_node l i) =? l_release_rest_generation l !!! i))
    (seq 0 MAX_JOINTS).

Definition rest_window l : RtLoop :=
  let held := rest_held l in
  let fresh := rest_fresh l in
  let l := lput_release_rest_generation (per_joint (fun i => ns_position_generation (joint_node l i))) l in
  if held && fresh then lput_release_rest_streak (saturating_add 32 (l_release_rest_streak l) 1) l
  else if held then lput_release_rest_streak 0 l
  else lput_release_rest_streak 0 (lput_release_rest_ref (Some (c_q (l_core l))) l).

(** The drain, the joints' values and their filters; then the rest window. *)
Definition measure l : RtLoop :=
  filter_measured (fold_left derive_joint (seq 0 MAX_JOINTS) (blank_gripper (drain_rx l))).

Definition drain_and_derive l : RtLoop := rest_window (measure l).

Definition at_measured_rest l : bool := l_release_rest_needed l <=? l_release_rest_streak l.

Definition refresh_gravity l : RtLoop :=
  let '(model, g) := grav_gravity (c_gravity (l_core l)) (c_q (l_core l)) in
  lput_g (zip_with f64_mul g (l_gravity_scale l)) (upd_core (set_gravity model) l).

Definition external_torque l : RtLoop :=
  upd_core (set_tau_ext (per_joint (fun i => l_tau_filt l !!! i -! l_g l !!! i))) l.

(** ** Sends *)

Definition send_joints l : RtLoop :=
  let '(b, ok) := bus_send_joint_commands (c_bus (l_core l)) (l_cmds l) in
  let l := sent (TX_Joints (l_cmds l)) (upd_core (set_bus b) l) in
  if ok : bool then upd_core (set_tx_fail_streak 0) l
  else upd_core (fun c => set_tx_fail_streak (saturating_add 32 (c_tx_fail_streak c) 1) c)
         (lput_bus_tx_failures (saturating_add 32 (l_bus_tx_failures l) 1) l).

Definition send_gripper (cmd : GripperCommand) l : RtLoop :=
  let '(b, ok) := bus_send_gripper (c_bus (l_core l)) cmd in
  let l := sent (TX_Gripper cmd) (upd_core (set_bus b) l) in
  if ok : bool then upd_core (set_gripper_tx_fail_streak 0) l
  else upd_core (fun c => set_gripper_tx_fail_streak (saturating_add 32 (c_gripper_tx_fail_streak c) 1) c)
         (lput_bus_tx_failures (saturating_add 32 (l_bus_tx_failures l) 1) l).

Definition poll_slot l : RtLoop :=
  sent TX_Poll (upd_core (fun c => upd_bus bus_poll_step (step_scan c)) l).

(** ** Homing *)

(** The reference check: a mean residual beyond a joint's bound refuses its reference. *)
Definition check_reference l : RtLoop * bool :=
  let c := l_core l in
  if bool_decide (l_ref_check_nm l = []) || (c_ref_check_n c =? 0) || negb (grav_describes_arm (c_gravity c))
  then (l, false)
  else
    let n := f64_of_int (c_ref_check_n c) in
    fold_left (fun '(l, refused) '(j, bound) =>
        if f64_gt (f64_abs (c_ref_check_sum c !!! j /! n)) bound
        then (upd_core (fun c => set_homing (homing_fail_reference (c_homing c) j) c) l, true)
        else (l, refused))
      (combine (seq 0 MAX_JOINTS) (l_ref_check_nm l)) (l, false).

(** The sequencer's tick and the frames it filled in. *)
Definition homing_fill l : RtLoop * SeqStatus :=
  let c := l_core l in
  let t := homing_tick (c_homing c) (c_bus c) (bus_state l) (l_conv l) (l_cmds l) (l_homing_gcmd l) in
  let l := put_bus_state (ht_state t) (upd_core (fun c => set_bus (ht_bus t) (set_homing (ht_homing t) c)) l) in
  let l := lput_conv (ht_conv t) (lput_cmds (ht_cmds t) (lput_homing_gcmd (ht_gcmd t) l)) in
  (lput_mirror mirror_default (lput_torque_slew (slew_reset (l_torque_slew l)) l), ht_status t).

Definition homing_send l : RtLoop * SeqStatus :=
  let '(l, status) := homing_fill l in
  (poll_slot (send_gripper (l_homing_gcmd l) (send_joints l)), status).

Definition homing_outcome (status : SeqStatus) l : RtLoop :=
  match status with
  | SS_Checking =>
      upd_core (fun c => set_ref_check_n (c_ref_check_n c + 1)
        (set_ref_check_sum (zip_with f64_add (c_ref_check_sum c) (c_tau_ext c)) c)) l
  | SS_Complete => upd_core homing_complete (fst (check_reference l))
  | SS_Failed => upd_core homing_failed l
  | SS_Running | SS_Inactive => l
  end.

Definition homing_slot l : RtLoop :=
  let '(l, status) := homing_send l in homing_outcome status l.

(** ** The mode laws *)

(** A released mode hands over once its ramp and the arm are at rest. *)
Definition rest_release (released still : bool) (q : list f64) l : RtLoop :=
  if released && still && at_measured_rest l then upd_core (rest_into_hold q) l else l.

(** One step of the jog engine. *)
Definition jog_drive l : RtLoop * list f64 * list f64 :=
  let c := l_core l in
  let '(engine, q, qd, blocked) := jog_tick (c_jog c) (c_q c) in
  let l := upd_core (fun c => set_q_target q (set_jog_blocked blocked (set_jog engine c))) l in
  (lput_qd_target qd (lput_scratch_qd qd (lput_scratch_q q l)), q, qd).

Definition jog_law l : RtLoop :=
  let '(l, q, qd) := jog_drive l in
  let l := lput_setpoints (law_jog q qd (gravity_applied (l_core l)) (l_g l) (l_jog_pack l)) l in
  rest_release (c_jog_released (l_core l)) (forallb (fun v => f64_eqb v f64_0) qd) q l.

(** One tick of playback. *)
Definition exec_play l : RtLoop * ExecOut * ExecTick :=
  let c := l_core l in
  let '(clock, e, out, outcome) := exec_tick (l_clock l) (c_exec c) (c_q c) in
  let l := lput_clock clock (upd_core (fun c => set_scratch_tau (eo_tau_ff out) (set_q_target (eo_q out) (set_exec e c))) l) in
  (lput_qd_target (eo_qd out) (lput_scratch_qd (eo_qd out) (lput_scratch_q (eo_q out) l)), out, outcome).

(** A strict settle that timed out is a hard error on the joint that missed. *)
Definition exec_fault (outcome : ExecTick) l : RtLoop :=
  match outcome with
  | ET_Fault joint residual => upd_core (core_latch EC_ExecSettleTimeout (Some joint)) (lput_settle_residual_rad residual l)
  | ET_Ok => l
  end.

Definition exec_law l : RtLoop :=
  let '(l, out, outcome) := exec_play l in
  let l := exec_fault outcome l in
  lput_setpoints (law_exec (eo_q out) (eo_qd out) (eo_tau_ff out) (gravity_applied (l_core l)) (l_g l)) l.

(** The tracker that is live. *)
Definition live_tracker (c : RtCore) : track_t := if c_stream_is_shaped c then c_stream_shaped c else c_stream c.
Definition put_live (t : track_t) (c : RtCore) : RtCore :=
  if c_stream_is_shaped c then set_stream_shaped t c else set_stream t c.
Definition upd_live (f : track_t -> track_t) (c : RtCore) : RtCore := put_live (f (live_tracker c)) c.

(** [filtered_target]. *)
Definition filtered_target (q : list f64) l : RtLoop * list f64 :=
  if f64_eqb (l_stream_lp_alpha l) f64_0 then (l, q)
  else
    let filt := zip_with (fun y x => y +! l_stream_lp_alpha l *! (x -! y)) (c_stream_filt (l_core l)) q in
    (upd_core (set_stream_filt filt) l, filt).

Definition stream_handover (sp : StreamSetpoint) l : RtLoop :=
  let c := l_core l in
  if Bool.eqb (sp_shaped sp) (c_stream_is_shaped c) then l
  else
    let from := c_stream_commanded c in
    let c :=
      if sp_shaped sp then set_stream_shaped (track_activate (c_stream_shaped c) from) c
      else set_stream (track_activate (c_stream c) from) c in
    lput_stream_scale (f64_nan, f64_nan) (lput_core (set_stream_is_shaped (sp_shaped sp) c) l).

(** [(f64, f64)] compared with [!=]. *)
Definition scale_differs (a b : f64 * f64) : bool := negb (f64_eqb (fst a) (fst b) && f64_eqb (snd a) (snd b)).

Definition stream_apply (sp : StreamSetpoint) l : RtLoop :=
  let l := stream_handover sp l in
  let l :=
    if scale_differs (l_stream_scale l) (sp_speed sp, sp_accel sp) then
      lput_stream_scale (sp_speed sp, sp_accel sp)
        (upd_core (upd_live (fun t => track_set_scale t (sp_speed sp) (sp_accel sp))) l)
    else l in
  let l := upd_core (set_q_target (sp_q sp)) l in
  let '(l, target) := if sp_shaped sp then (l, sp_q sp) else filtered_target (sp_q sp) l in
  upd_core (fun c => set_stream_last_rx_tick (c_tick c) (upd_live (fun t => track_set_target t target) c)) l.

(** What this tick makes of the setpoint slot; [true] when a setpoint was applied. *)
Definition stream_intake l : RtLoop * bool :=
  let c := l_core l in
  let slot := c_stream_rx c in
  let l := upd_core (set_stream_rx None) l in
  if c_stream_released c then (l, false)
  else
    match slot with
    | Some sp => (stream_apply sp l, true)
    | None =>
        if negb (f64_eqb (l_stream_lp_alpha l) f64_0) && negb (c_stream_is_shaped c) then
          let '(l, target) := filtered_target (c_q_target c) l in
          (upd_core (fun c => set_stream (track_set_target (c_stream c) target) c) l, false)
        else (l, false)
    end.

(** [a as f32 / b as f32] of two u32. *)
Definition f32_ratio (a b : Z) : f32 :=
  let f32 n := binary_normalize 24 128 n 0 false in
  sf_to_f32_bits (SFdiv 24 128 (f32 a) (f32 b)).

Definition f64_100 : f64 := 0x4059000000000000.

Definition stream_window (applied : bool) l : RtLoop :=
  let l := upd_core (fun c =>
    set_stream_window_applied (c_stream_window_applied c + Z.b2z applied)
      (set_stream_window_pos (c_stream_window_pos c + 1) c)) l in
  let c := l_core l in
  if c_stream_window_pos c >=? l_stream_window_ticks l then
    let sent := saturating_sub (c_stream_sent c) (c_stream_sent_base c) in
    let applied_n := c_stream_window_applied c in
    let discard :=
      if sent >? 0 then
        sf_to_f32_bits (f64_to_SF (f64_100 *! f64_of_int (saturating_sub sent applied_n) /! f64_of_int sent))
      else 0 in
    upd_core (fun c =>
      set_stream_window_applied 0 (set_stream_window_pos 0 (set_stream_sent_base (c_stream_sent c)
        (set_stream_discard discard (set_stream_success (f32_ratio applied_n (l_stream_window_ticks l)) c))))) l
  else l.

(** One step of the live tracker, its fault included. *)
Definition stream_track l : RtLoop * list f64 * list f64 :=
  let '(t, q, qd) := track_step (live_tracker (l_core l)) in
  let l := upd_core (fun c => set_stream_commanded q (put_live t c)) (lput_scratch_qd qd (lput_scratch_q q l)) in
  (if track_faulted (live_tracker (l_core l)) then upd_core (core_latch EC_StreamFault None) l else l, q, qd).

Definition stream_law l : RtLoop :=
  let '(l, applied) := stream_intake l in
  let '(l, q, qd) := stream_track (stream_window applied l) in
  let l := lput_setpoints (law_stream q qd (gravity_applied (l_core l)) (l_g l)) l in
  rest_release (c_stream_released (l_core l)) (forallb (fun v => f64_le (f64_abs v) STREAM_REST_RAD_S) qd) q l.

Definition mode_law l : RtLoop :=
  match c_mode (l_core l) with
  | Idle => lput_setpoints (law_idle (gravity_applied (l_core l)) (l_g l)) l
  | ActiveError => lput_setpoints law_active_error l
  | SafetyStop => lput_setpoints law_safety_stop l
  | Jog => jog_law l
  | Exec => exec_law l
  | Stream => stream_law l
  | _ => lput_setpoints law_booting l
  end.

Definition commit_tick l : RtLoop :=
  let rate_limit := negb (mode_in (c_mode (l_core l)) [ActiveError; SafetyStop]) in
  let ct := commit (l_setpoints l) (l_conv l) (l_torque_ma_factor l) rate_limit
              (mkCommit (l_torque_slew l) (l_cmds l) (l_mirror l)) in
  lput_torque_slew (ct_slew ct) (lput_cmds (ct_cmds ct) (lput_mirror (ct_mirror ct) l)).

(** The gripper slot: the calibration frame goes out once, then the gate's frames. *)
Definition gripper_frame l : RtLoop * GripperCommand :=
  let c := l_core l in
  if negb (c_has_can_gripper c) then (l, GC_NoGripper)
  else if c_calibrate_pending c then
    (upd_core (fun c => upd_gate reset_to_poll (set_calibrate_pending false c)) l, GC_Calibrate)
  else
    let calibrated := match c_gripper_reply c with Some r => gr_calibrated r | None => false end in
    let '(g, cmd) := gate_tick (c_gripper_gate c) calibrated in
    (upd_core (set_gripper_gate g) l, cmd).

Definition gripper_slot l : RtLoop :=
  let '(l, cmd) := gripper_frame l in
  let c := l_core l in
  let l :=
    if c_has_can_gripper c then
      upd_core (upd_settle (fun m => settle_tick m (c_tick c) (c_gripper_reply c) (c_gripper_live_bit c))) l
    else l in
  send_gripper cmd l.

(** Outside EXEC the playback's clock rests. *)
Definition exec_idle l : RtLoop :=
  if mode_eqb (c_mode (l_core l)) Exec then l else upd_core (upd_exec exec_at_rest) l.

Definition dispatch_and_send l : RtLoop :=
  let l := exec_idle l in
  if mode_eqb (c_mode (l_core l)) Flashing then
    lput_torque_slew (slew_reset (l_torque_slew l)) (lput_mirror mirror_default l)
  else if mode_eqb (c_mode (l_core l)) Homing then homing_slot l
  else poll_slot (gripper_slot (send_joints (commit_tick (mode_law l)))).

(** ** The tick *)

Definition read_inputs (i : TickInput) l : RtLoop :=
  let '(d, pressed) := estop_pressed (l_estop l) (ti_estop_line i) in
  let l := lput_estop d (upd_core (set_hw_estop pressed) l) in
  upd_core (read_io_inputs (ti_io_raw i)) l.

Definition write_outputs l : RtLoop :=
  let '(c, levels) := drive_io_outputs (l_core l) in
  let l := lput_core c l in
  match levels with Some levels => sent (TX_Outputs levels) l | None => l end.

(** The phases before the drain, and the verdict of the loop's timing. *)
Definition tick_intake (i : TickInput) l : RtLoop * LoopHealth :=
  let l := upd_core (fun c => set_tick (c_tick c + 1) c) l in
  let l := upd_core (fun c => upd_bus (fun b => bus_begin_tick b (c_tick c)) c) l in
  let l := read_inputs i l in
  let '(timing, health) := timing_record (ti_period_s i) (ti_overrun i) (l_timing l) in
  let l := boot_oneshots (lput_timing timing l) in
  let l := match ti_command i with Some cmd => upd_core (apply_command cmd) l | None => l end in
  (write_outputs (upd_core (upd_exec exec_clock_tick) l), health).

(** The drain and what is computed from it. *)
Definition tick_state l : RtLoop := external_torque (refresh_gravity (drain_and_derive l)).

(** A tick up to its error checks. *)
Definition tick_checked (i : TickInput) l : RtLoop :=
  let '(l, health) := tick_intake i l in
  upd_core (check_errors health) (tick_state l).

(** The clear countdown, last. *)
Definition clear_tick l : RtLoop := upd_core (upd_errors (fun m => fst (em_tick m))) l.

Definition tick (i : TickInput) l : RtLoop := clear_tick (dispatch_and_send (tick_checked i l)).

(** The loop: a tick per period. *)
Definition loop_run (ins : list TickInput) l : RtLoop := fold_left (fun l i => tick i l) ins l.

(** ** Off the tick *)

(** [replace_bus] once the new bus has taken its boot configuration. *)
Definition replace_bus (bus : bus_t) l : RtLoop :=
  let s := bus_state_new in
  let tick := c_tick (l_core l) in
  let l := put_bus_state s (upd_core (set_bus bus) l) in
  let l := upd_core (fun c =>
    set_bus_off_events_seen (lh_bus_off_events (bus_link_health bus)) (set_config_repush_armed_at tick
      (set_tool_hold false (set_homed false (set_not_homed_refused false (set_mode Booting (set_state Disabled c))))))) l in
  lput_sector_done (replicate MAX_JOINTS false) (lput_filters_seeded false (lput_bus_booted_at tick
    (lput_link_recovered false (lput_rescan_at None (lput_rescan_configured false l))))).

Definition set_joint_reference (joint : nat) (motor_ticks : Z) (joint_rad : f64) l : RtLoop :=
  if (MAX_JOINTS <=? joint)%nat then l
  else
    let l := lput_sector_done (<[joint := true]> (l_sector_done l))
      (lput_conv (<[joint := set_home motor_ticks (f64_to_SF joint_rad) (l_conv l !!! joint)]> (l_conv l)) l) in
    let n := Z.to_nat (c_node_of (l_core l) !!! joint) in
    let forget (s : NodeState) :=
      mkNodeState None (ns_position_generation s) None (ns_current_ma s) (ns_temperature_c s) (ns_voltage_mv s)
        (ns_error_flags s) (ns_kt_nm_a s) (ns_device_info s) (ns_combined_telemetry s) (ns_hall s)
        (ns_live_error_bit s) (ns_readback s) (ns_data_age_ticks s) in
    let l := upd_core (fun c => set_q (<[joint := joint_rad]> (c_q c))
      (set_nodes (<[n := forget (nth n (c_nodes c) node_default)]> (c_nodes c)) c)) l in
    lput_qd (<[joint := f64_0]> (l_qd l)) (lput_q_filt (<[joint := joint_rad]> (l_q_filt l))
      (lput_qd_filt (<[joint := f64_0]> (l_qd_filt l)) l)).

Definition reseed_motion_targets l : RtLoop :=
  upd_core (fun c =>
    let q := c_q c in
    set_q_target q (set_jog (jog_activate (c_jog c) q) (set_stream_commanded q
      (set_stream_shaped (track_activate (c_stream_shaped c) q) (set_stream (track_activate (c_stream c) q)
        (upd_exec (fun e => exec_reseed_hold e q) (set_stream_rx None c))))))) l.

(** [adopt_landed_pose], given the conversions the configuration makes. *)
Definition adopt_landed_pose (fresh : list JointConversion) (q : list f64) l : RtLoop :=
  let l :=
    fold_left (fun l '(i, conv) =>
        let true0 := motor_ticks conv (f64_to_SF (q !!! i)) in
        set_joint_reference i (true0 mod cv_encoder_max_counts conv) (q !!! i) l)
      (combine (seq 0 (length fresh)) fresh) l in
  let l := reseed_motion_targets (upd_core (core_set_homed true) l) in
  let l := refresh_gravity l in
  let applied := if gravity_applied (l_core l) then l_g l else joint_zeros in
  lput_torque_slew (slew_seed applied (l_torque_slew l)) l.

(** ** The shutdown retreat *)

Definition shutdown_park_begin l : RtLoop * bool :=
  let c := l_core l in
  if negb (pk_enabled (l_park l)) || mode_eqb (c_mode c) Flashing then (l, false)
  else if negb (c_homed c) || negb (bool_decide (c_state c = Enabled)) || any_hard (c_errors c) then (l, false)
  else
    let l := if c_has_can_gripper c then upd_core (apply_command RC_GripperStop) l else l in
    let '(c, r) :=
      match request_mode Idle (l_core l) with
      | (c, Ok _) => request_mode Stream c
      | (c, Err e) => (c, Err e)
      end in
    let l := lput_core c l in
    match r with
    | Err _ => (l, false)
    | Ok _ =>
        let f := pk_speed_fractions (l_park l) in
        let l := lput_park (park_put (l_stream_scale l) true (l_park l)) l in
        let '(min, max) := pk_hard_bounds (l_park l) in
        let l := upd_core (fun c =>
          set_stream (track_set_bounds (track_set_scale_per_joint (c_stream c) f f64_1) min max) c) l in
        (lput_stream_scale (fold_left f64_min f f64_1, f64_1) l, true)
    end.

Definition farthest l : f64 :=
  fold_left f64_max (zip_with (fun q t => f64_abs (f64_sub q t)) (c_q (l_core l)) (pk_target (l_park l))) f64_0.

Definition shutdown_park_feed l : RtLoop * bool :=
  if negb (pk_running (l_park l)) || negb (mode_eqb (c_mode (l_core l)) Stream) then (l, true)
  else if f64_lt (farthest l) (pk_tolerance_rad (l_park l)) then (l, true)
  else
    (upd_core (fun c => set_stream_last_rx_tick (c_tick c)
       (set_stream (track_set_target (c_stream c) (pk_target (l_park l))) (set_q_target (pk_target (l_park l)) c))) l, false).

Definition shutdown_park_end l : RtLoop :=
  if negb (pk_running (l_park l)) then l
  else
    let '(v, a) := pk_saved_scale (l_park l) in
    let '(min, max) := pk_soft_bounds (l_park l) in
    let l := lput_park (park_put (v, a) false (l_park l)) l in
    lput_stream_scale (v, a)
      (upd_core (fun c => set_stream (track_set_bounds (track_set_scale (c_stream c) v a) min max) c) l).

(** [at_rest]. *)
Definition shutdown_at_rest l : bool := forallb (fun v => f64_lt (f64_abs v) SHUTDOWN_REST_RAD_S) (l_qd_filt l).

End RtTick.
