(* ===== verification/RtTickSteps.v ===== *)
(** * RtTickSteps: a tick is a sequence of the core's steps
    (crates/par6-rt/src/core.rs)

    Phase by phase, what a tick does to the mode machine is a sequence of
    [core_step]s: what is measured or sent moves no control state, and the boot,
    the command, the checks, the laws and the clear are the steps the relation
    names.  Hence every state the loop reaches satisfies the core's invariant. *)
From Stdlib Require Import SpecFloat.
From stdpp Require Import relations.
From S2P Require Import Prelude F64 BusTypes Ring Joints RtState Gripper Gpio CoreState Core CoreSafety.
From S2P Require Import Convert Homing HomingSeq Dispatch SettlePolicy ExecTick LoopTiming RtLoop RtTick.

Section Steps.
Context `{T : TickDeps} {BL : BusSilenceLaws} {L : TickSilenceLaws}.
Implicit Types (l : RtLoop) (c : RtCore).

(** ** Steps that measure or send *)

#[export] Instance measured_preorder : PreOrder measured.
Proof.
  split.
  - intros c. by constructor.
  - intros a b c [] []. constructor; congruence.
Qed.

Lemma measured_bus b c : bus_is_silent b = bus_is_silent (c_bus c) -> measured c (set_bus b c).
Proof. intros H. by constructor. Qed.

Lemma measured_fold {A} (f : RtLoop -> A -> RtLoop) l xs :
  (forall l x, measured (l_core l) (l_core (f l x))) -> measured (l_core l) (l_core (fold_left f xs l)).
Proof.
  intros H. revert l. induction xs as [|x xs IH]; intros l; [reflexivity|]. cbn [fold_left].
  etransitivity; [apply H|apply IH].
Qed.

Lemma put_bus_state_measured s l : measured (l_core l) (l_core (put_bus_state s l)).
Proof. by constructor. Qed.

Lemma resend_park n c : c_park_asserted (resend_config n c) = c_park_asserted c.
Proof. unfold resend_config. by destruct (bus_resend_node_config _ _ _) as [b []]. Qed.

Lemma resend_measured n c : measured c (resend_config n c).
Proof. destruct (resend_keeps n c) as (?&?&?&?&?&?&?). constructor; auto using resend_park. Qed.

Lemma repush_park c : c_park_asserted (config_repush c) = c_park_asserted c.
Proof.
  unfold config_repush.
  assert (H : forall ns c, c_park_asserted (fold_left (fun c n => resend_config n c) ns c) = c_park_asserted c).
  { intros ns. induction ns as [|n ns IH]; intros c0; [done|]. cbn [fold_left]. by rewrite IH, resend_park. }
  destruct (c_has_can_gripper _); rewrite ?resend_park; apply H.
Qed.

Lemma repush_measured c : measured c (config_repush c).
Proof. destruct (repush_keeps c) as (?&?&?&?&?&?&?). constructor; auto using repush_park. Qed.

Lemma drain_resends_measured c : measured c (drain_config_resends c).
Proof. unfold drain_config_resends. destruct (_ || _); [reflexivity|apply resend_measured]. Qed.

Lemma drain_rx_measured l : measured (l_core l) (l_core (drain_rx l)).
Proof.
  unfold drain_rx. pose proof (silent_drain (c_bus (l_core l)) (bus_state l)) as H.
  destruct (bus_drain_rx _ _) as [[b s] ok]. cbn in H.
  transitivity (set_bus b (l_core l)); [by apply measured_bus|]. by destruct ok; constructor.
Qed.

Lemma derive_joint_measured l i : measured (l_core l) (l_core (derive_joint l i)).
Proof.
  unfold derive_joint, derive_position. cbv zeta.
  destruct (ns_position_ticks _); [destruct (l_sector_done l !!! i)|]; destruct (ns_speed_ticks_s _); destruct (ns_current_ma _); by constructor.
Qed.

Lemma drain_and_derive_measured l : measured (l_core l) (l_core (drain_and_derive l)).
Proof.
  unfold drain_and_derive, measure.
  transitivity (l_core (drain_rx l)); [apply drain_rx_measured|].
  transitivity (l_core (blank_gripper (drain_rx l))); [unfold blank_gripper; case_match; by constructor|].
  set (l1 := blank_gripper (drain_rx l)). clearbody l1.
  transitivity (l_core (fold_left derive_joint (seq 0 MAX_JOINTS) l1)); [apply measured_fold, derive_joint_measured|].
  set (l2 := fold_left _ _ l1). clearbody l2.
  unfold filter_measured, rest_window. cbv zeta. repeat case_match; by constructor.
Qed.

Lemma refresh_gravity_measured l : measured (l_core l) (l_core (refresh_gravity l)).
Proof. unfold refresh_gravity. destruct (grav_gravity _ _). by constructor. Qed.

Lemma send_joints_measured l : measured (l_core l) (l_core (send_joints l)).
Proof.
  unfold send_joints. pose proof (silent_joints (c_bus (l_core l)) (l_cmds l)) as H.
  destruct (bus_send_joint_commands _ _) as [b ok]. cbn in H.
  transitivity (set_bus b (l_core l)); [by apply measured_bus|]. by destruct ok; constructor.
Qed.

Lemma send_gripper_measured cmd l : measured (l_core l) (l_core (send_gripper cmd l)).
Proof.
  unfold send_gripper. pose proof (silent_gripper (c_bus (l_core l)) cmd) as H.
  destruct (bus_send_gripper _ _) as [b ok]. cbn in H.
  transitivity (set_bus b (l_core l)); [by apply measured_bus|]. by destruct ok; constructor.
Qed.

Lemma step_scan_measured c : measured c (step_scan c).
Proof.
  unfold step_scan. cbv zeta. destruct (c_scan_next c).
  - transitivity (upd_bus (fun b => bus_queue_poll_override b (PA_Poll z PK_Ping) 1) c);
      [apply measured_bus, silent_poll|]. by case_match; constructor.
  - repeat case_match; by constructor.
Qed.

Lemma poll_slot_measured l : measured (l_core l) (l_core (poll_slot l)).
Proof.
  unfold poll_slot. cbn [sent upd_core lput_tx lput_core l_core].
  transitivity (step_scan (l_core l)); [apply step_scan_measured|]. apply measured_bus, silent_poll_step.
Qed.

Lemma gripper_slot_measured l : measured (l_core l) (l_core (gripper_slot l)).
Proof.
  unfold gripper_slot, gripper_frame. cbv zeta.
  repeat case_match; simplify_eq; (etransitivity; [|apply send_gripper_measured]); by constructor.
Qed.

Lemma commit_measured l : measured (l_core l) (l_core (commit_tick l)).
Proof. by constructor. Qed.

Lemma put_live_measured t c : measured c (put_live t c).
Proof. unfold put_live. by case_match; constructor. Qed.

Lemma filtered_measured q l : measured (l_core l) (l_core (fst (filtered_target q l))).
Proof. unfold filtered_target. by case_match; constructor. Qed.

Lemma stream_apply_measured sp l : measured (l_core l) (l_core (stream_apply sp l)).
Proof.
  unfold stream_apply. cbv zeta. set (l1 := stream_handover sp l).
  transitivity (l_core l1); [subst l1; unfold stream_handover; cbv zeta; repeat case_match; by constructor|]. clearbody l1.
  set (l2 := if scale_differs _ _ then _ else l1).
  transitivity (l_core l2); [subst l2; case_match; [apply put_live_measured|reflexivity]|]. clearbody l2.
  set (l3 := upd_core (set_q_target (sp_q sp)) l2). transitivity (l_core l3); [by constructor|]. clearbody l3.
  destruct (sp_shaped sp).
  - etransitivity; [apply put_live_measured|]. by constructor.
  - pose proof (filtered_measured (sp_q sp) l3) as H. destruct (filtered_target _ _) as [l4 target]. cbn in H.
    transitivity (l_core l4); [done|]. etransitivity; [apply put_live_measured|]. by constructor.
Qed.

Lemma stream_intake_measured l : measured (l_core l) (l_core (fst (stream_intake l))).
Proof.
  unfold stream_intake. cbv zeta. set (l1 := upd_core (set_stream_rx None) l).
  transitivity (l_core l1); [by constructor|]. destruct (c_stream_released (l_core l)); [reflexivity|].
  destruct (c_stream_rx (l_core l)) as [sp|]; [apply stream_apply_measured|]. destruct (negb _ && _); [|reflexivity].
  pose proof (filtered_measured (c_q_target (l_core l)) l1) as H. destruct (filtered_target _ _) as [l2 target]. cbn in H.
  transitivity (l_core l2); [done|]. by constructor.
Qed.

Lemma stream_window_measured b l : measured (l_core l) (l_core (stream_window b l)).
Proof. unfold stream_window. cbv zeta. case_match; by constructor. Qed.

(** ** Sequences of steps *)

#[local] Abbreviation steps := (rtc core_step).

Lemma steps_measured c c' : measured c c' -> steps c c'.
Proof. intros H. by apply rtc_once, cs_measured. Qed.

Lemma steps_fold {A} (f : RtCore -> A -> RtCore) xs :
  (forall c x, steps c (f c x)) -> forall c, steps c (fold_left f xs c).
Proof.
  intros H. induction xs as [|x xs IH]; intros c; [reflexivity|]. cbn [fold_left]. etransitivity; [apply H|apply IH].
Qed.

Lemma latch_steps code joint c : is_warning code = false -> steps c (core_latch code joint c).
Proof. intros H. by apply rtc_once, cs_law_latch. Qed.

Lemma latch_unheard_steps connected c : steps c (latch_unheard connected c).
Proof.
  unfold latch_unheard. cbv zeta.
  etransitivity; [apply (steps_fold (fun c i => if Z.testbit connected (c_node_of c !!! i) then c else core_latch EC_CanLost (Some (Z.of_nat i)) c))|].
  - intros c1 i. case_match; [reflexivity|by apply latch_steps].
  - case_match; [by apply latch_steps|reflexivity].
Qed.

Lemma begin_hold_measured l : measured (l_core l) (l_core (begin_tool_hold l)).
Proof.
  unfold begin_tool_hold. cbv zeta. case_match; [|reflexivity].
  set (l1 := lput_tool_hold_until _ _). transitivity (l_core l1); [by constructor|]. clearbody l1.
  case_match; [|reflexivity]. apply measured_bus, silent_poll.
Qed.

Lemma adopt_kt_measured l : measured (l_core l) (l_core (adopt_driver_kt l)).
Proof. unfold adopt_driver_kt. apply measured_fold. intros l1 i. cbv zeta. case_match; by constructor. Qed.

Lemma selfcheck_steps l : steps (l_core l) (l_core (fst (selfcheck l))).
Proof.
  unfold selfcheck. cbv zeta. set (l0 := lput_rescan_at None l). change (l_core l) with (l_core l0). clearbody l0.
  destruct (if _ && _ then _ else _) as [b cycled] eqn:Eb.
  assert (Hb : bus_is_silent b = bus_is_silent (c_bus (l_core l0))).
  { destruct (_ && _); [|by simplify_eq]. pose proof (silent_recover (c_bus (l_core l0))) as H. by rewrite Eb in H. }
  clear Eb. set (l1 := upd_core (set_bus b) l0).
  transitivity (l_core l1); [by apply steps_measured, measured_bus|]. clearbody l1.
  destruct cycled; [by apply steps_measured; constructor|]. cbn [fst].
  set (l2 := upd_core (latch_unheard _) l1). transitivity (l_core l2); [apply latch_unheard_steps|]. clearbody l2.
  apply steps_measured. etransitivity; [|apply begin_hold_measured]. case_match; [apply adopt_kt_measured|reflexivity].
Qed.

Lemma release_hold_steps l : steps (l_core l) (l_core (release_tool_hold l)).
Proof.
  unfold release_tool_hold. cbv zeta. repeat case_match; try reflexivity; [by apply steps_measured; constructor|].
  transitivity (set_tool_hold false (l_core l)); [by apply steps_measured; constructor|].
  apply rtc_once, cs_boot_idle.
Qed.

Lemma boot_steps l : steps (l_core l) (l_core (boot_oneshots l)).
Proof.
  unfold boot_oneshots. cbv zeta. destruct (_ && negb _); [apply steps_measured, measured_bus, silent_boot|].
  destruct (if _ || _ then selfcheck l else (l, false)) as [l1 cycled] eqn:E1.
  assert (Hs : steps (l_core l) (l_core l1)).
  { destruct (_ || _); [|by simplify_eq]. pose proof (selfcheck_steps l) as H. by rewrite E1 in H. }
  etransitivity; [exact Hs|]. destruct cycled; [reflexivity|].
  set (l2 := if c_tool_hold (l_core l1) then _ else l1).
  transitivity (l_core l2); [subst l2; destruct (c_tool_hold _); [apply release_hold_steps|reflexivity]|].
  unfold config_shots. cbv zeta. apply steps_measured. etransitivity; [|apply drain_resends_measured].
  destruct (bool_decide _ && _); [apply repush_measured|reflexivity].
Qed.

Lemma intake_steps i l : steps (l_core l) (l_core (fst (tick_intake i l))).
Proof.
  unfold tick_intake. cbv zeta.
  set (l1 := upd_core (fun c => set_tick (c_tick c + 1) c) l).
  transitivity (l_core l1); [by apply steps_measured; constructor|]. clearbody l1.
  set (l2 := upd_core (fun c => upd_bus (fun b => bus_begin_tick b (c_tick c)) c) l1).
  transitivity (l_core l2); [apply steps_measured, measured_bus, silent_begin|]. clearbody l2.
  set (l3 := read_inputs i l2).
  transitivity (l_core l3).
  { subst l3. unfold read_inputs. destruct (estop_pressed _ _) as [d p]. apply steps_measured.
    transitivity (set_hw_estop p (l_core l2)); [by constructor|].
    change (measured (set_hw_estop p (l_core l2)) (read_io_inputs (ti_io_raw i) (set_hw_estop p (l_core l2)))).
    unfold read_io_inputs. repeat case_match; by constructor. }
  clearbody l3. destruct (timing_record _ _ _) as [timing health].
  set (l4 := boot_oneshots (lput_timing timing l3)).
  transitivity (l_core l4); [apply (boot_steps (lput_timing timing l3))|]. clearbody l4.
  set (l5 := match ti_command i with Some cmd => upd_core (apply_command cmd) l4 | None => l4 end).
  transitivity (l_core l5); [subst l5; destruct (ti_command i); [apply rtc_once, cs_command|reflexivity]|]. clearbody l5.
  set (l6 := upd_core (upd_exec exec_clock_tick) l5). transitivity (l_core l6); [by apply steps_measured; constructor|]. clearbody l6.
  cbn [fst]. apply steps_measured. unfold write_outputs, drive_io_outputs. repeat case_match; simplify_eq; by constructor.
Qed.

Lemma tick_state_measured l : measured (l_core l) (l_core (tick_state l)).
Proof.
  unfold tick_state. etransitivity; [apply drain_and_derive_measured|]. etransitivity; [apply refresh_gravity_measured|].
  by constructor.
Qed.

Lemma checked_steps i l : steps (l_core l) (l_core (tick_checked i l)).
Proof.
  unfold tick_checked. pose proof (intake_steps i l) as Hi. destruct (tick_intake i l) as [l1 health]. cbn [fst] in Hi.
  etransitivity; [exact Hi|]. etransitivity; [apply steps_measured, tick_state_measured|]. apply rtc_once, (cs_check_errors _ health).
Qed.

Lemma homing_fill_measured l : measured (l_core l) (l_core (fst (homing_fill l))).
Proof.
  unfold homing_fill. cbv zeta. set (t := homing_tick _ _ _ _ _ _). cbn [fst].
  transitivity (set_bus (ht_bus t) (l_core l)); [apply measured_bus, silent_homing|]. by constructor.
Qed.

Lemma homing_send_measured l : measured (l_core l) (l_core (fst (homing_send l))).
Proof.
  unfold homing_send. pose proof (homing_fill_measured l) as Hf. destruct (homing_fill l) as [l1 status]. cbn [fst] in Hf |- *.
  transitivity (l_core l1); [done|]. etransitivity; [|apply poll_slot_measured]. etransitivity; [|apply send_gripper_measured].
  apply send_joints_measured.
Qed.

Lemma check_reference_measured l : measured (l_core l) (l_core (fst (check_reference l))).
Proof.
  unfold check_reference. cbv zeta. destruct (_ || negb _); [reflexivity|].
  assert (H : forall bounds acc, measured (l_core (fst acc)) (l_core (fst
    (fold_left (fun '(l0, refused) '(j, bound) =>
        if f64_gt (f64_abs (c_ref_check_sum (l_core l) !!! j /! f64_of_int (c_ref_check_n (l_core l)))) bound
        then (upd_core (fun c => set_homing (homing_fail_reference (c_homing c) j) c) l0, true)
        else (l0, refused)) bounds acc)))).
  { intros bounds. induction bounds as [|[j bound] bounds IH]; intros [l0 r]; [reflexivity|]. cbn [fold_left].
    etransitivity; [|apply IH]. case_match; by constructor. }
  exact (H _ (l, false)).
Qed.

Lemma homing_slot_steps l : c_mode (l_core l) = Homing -> steps (l_core l) (l_core (homing_slot l)).
Proof.
  intros Hm. unfold homing_slot. pose proof (homing_send_measured l) as Hs. destruct (homing_send l) as [l1 status]. cbn [fst] in Hs.
  etransitivity; [by apply steps_measured|].
  assert (Hm1 : c_mode (l_core l1) = Homing) by (destruct Hs; congruence). clear Hs Hm.
  unfold homing_outcome. destruct status; try reflexivity.
  - apply steps_measured. by constructor.
  - pose proof (check_reference_measured l1) as Hr. set (l2 := fst (check_reference l1)) in *. clearbody l2.
    etransitivity; [by apply steps_measured|]. apply rtc_once, cs_homing_complete. destruct Hr; congruence.
  - by apply rtc_once, cs_homing_failed.
Qed.

Lemma rest_release_steps released still q l :
  mode_in (c_mode (l_core l)) [Jog; Stream] = true -> steps (l_core l) (l_core (rest_release released still q l)).
Proof. intros Hm. unfold rest_release. destruct (_ && _); [|reflexivity]. by apply rtc_once, (cs_rest (l_core l) q). Qed.

Lemma jog_drive_measured l : let '(l', _, _) := jog_drive l in measured (l_core l) (l_core l').
Proof. unfold jog_drive. cbv zeta. destruct (jog_tick _ _) as [[[engine q] qd] blocked]. by constructor. Qed.

Lemma setpoints_core v l : l_core (lput_setpoints v l) = l_core l.
Proof. reflexivity. Qed.

Lemma jog_law_steps l : c_mode (l_core l) = Jog -> steps (l_core l) (l_core (jog_law l)).
Proof.
  intros Hm. unfold jog_law. pose proof (jog_drive_measured l) as H1. destruct (jog_drive l) as [[l1 q] qd]. cbv zeta.
  etransitivity; [by apply steps_measured|]. set (l2 := lput_setpoints _ _).
  assert (E2 : l_core l2 = l_core l1) by apply setpoints_core. clearbody l2. rewrite <- E2.
  apply rest_release_steps. rewrite E2. destruct H1 as [-> _ _ _ _ _]. by rewrite Hm.
Qed.

Lemma exec_play_measured l : let '(l', _, _) := exec_play l in measured (l_core l) (l_core l').
Proof. unfold exec_play. cbv zeta. destruct (exec_tick _ _ _) as [[[clock e] out] outcome]. by constructor. Qed.

Lemma exec_fault_steps outcome l : steps (l_core l) (l_core (exec_fault outcome l)).
Proof. destruct outcome; [reflexivity|]. by apply (latch_steps EC_ExecSettleTimeout (Some joint) (l_core l)). Qed.

Lemma exec_law_steps l : steps (l_core l) (l_core (exec_law l)).
Proof.
  unfold exec_law. pose proof (exec_play_measured l) as H1. destruct (exec_play l) as [[l1 out] outcome]. cbv zeta.
  etransitivity; [by apply steps_measured|]. rewrite setpoints_core. apply exec_fault_steps.
Qed.

Lemma stream_track_steps l :
  let '(l', _, _) := stream_track l in steps (l_core l) (l_core l') /\ c_mode (l_core l') = c_mode (l_core l).
Proof.
  unfold stream_track. destruct (track_step _) as [[t q] qd]. cbv zeta.
  set (l3 := upd_core _ _).
  assert (H3 : measured (l_core l) (l_core l3)).
  { etransitivity; [apply (put_live_measured t)|]. by constructor. }
  clearbody l3. destruct (track_faulted _).
  - split; [|by destruct H3]. etransitivity; [by apply steps_measured|]. by apply (latch_steps EC_StreamFault None (l_core l3)).
  - split; [by apply steps_measured|by destruct H3].
Qed.

Lemma stream_law_steps l : c_mode (l_core l) = Stream -> steps (l_core l) (l_core (stream_law l)).
Proof.
  intros Hm. unfold stream_law. pose proof (stream_intake_measured l) as Hi.
  destruct (stream_intake l) as [l1 applied]. cbn [fst] in Hi.
  pose proof (stream_window_measured applied l1) as Hw. set (l2 := stream_window applied l1) in *. clearbody l2.
  pose proof (stream_track_steps l2) as Ht. destruct (stream_track l2) as [[l3 q] qd]. destruct Ht as [Ht Em]. cbv zeta.
  assert (Hm3 : c_mode (l_core l3) = Stream) by (destruct Hi, Hw; congruence).
  etransitivity; [apply steps_measured; etransitivity; [exact Hi|exact Hw]|]. etransitivity; [exact Ht|].
  set (l4 := lput_setpoints _ _). assert (E4 : l_core l4 = l_core l3) by apply setpoints_core. clearbody l4. rewrite <- E4.
  apply rest_release_steps. by rewrite E4, Hm3.
Qed.

Lemma mode_law_steps l : steps (l_core l) (l_core (mode_law l)).
Proof.
  unfold mode_law. destruct (c_mode (l_core l)) eqn:Em; try reflexivity.
  - by apply jog_law_steps.
  - by apply stream_law_steps.
  - apply exec_law_steps.
Qed.

Lemma dispatch_steps l : steps (l_core l) (l_core (dispatch_and_send l)).
Proof.
  unfold dispatch_and_send. cbv zeta.
  assert (H1 : measured (l_core l) (l_core (exec_idle l))) by (unfold exec_idle; case_match; by constructor).
  set (l1 := exec_idle l) in *. clearbody l1.
  etransitivity; [by apply steps_measured|].
  destruct (mode_eqb (c_mode (l_core l1)) Flashing); [reflexivity|].
  destruct (mode_eqb (c_mode (l_core l1)) Homing) eqn:Eh; [apply homing_slot_steps; by apply mode_eqb_spec|].
  etransitivity; [apply mode_law_steps|]. apply steps_measured.
  etransitivity; [apply commit_measured|]. etransitivity; [apply send_joints_measured|].
  etransitivity; [apply gripper_slot_measured|]. apply poll_slot_measured.
Qed.

(** C3: a whole tick of the loop (inputs, boot one-shots, a command, the drain, the error checks, the mode law with its
    sends, the clear countdown) refines the step relation of the core: whatever the bus, the engines and the policy
    answer, the mode machine moves from where it was to where the tick leaves it by the steps of [core_step]. *)
Theorem tick_refines_the_core i l : rtc core_step (l_core l) (l_core (tick i l)).
Proof.
  unfold tick. etransitivity; [apply checked_steps|].
  etransitivity; [apply (dispatch_steps (tick_checked i l))|]. apply rtc_once, cs_clear_tick.
Qed.
End Steps.
