(* ===== verification/RtTickFrames.v ===== *)
(** * RtTickFrames: what each phase of a tick leaves alone
    (crates/par6-rt/src/core.rs)

    The history of what was sent, the command arrays, the torque slew and the rest
    window change in the phases that own them and nowhere else; the debounced e-stop
    reaches the error checks of its own tick. *)
From Stdlib Require Import SpecFloat.
From stdpp Require Import relations.
From S2P Require Import Prelude F64 BusTypes Ring Joints RtState Gripper Gpio CoreState Core CoreSafety.
From S2P Require Import Convert Homing HomingSeq Dispatch SettlePolicy ExecTick LoopTiming RtLoop RtTick.

Section Frames.
Context `{T : TickDeps}.
Implicit Types (l : RtLoop) (c : RtCore).

(** ** The command arrays, the history and the rest window *)

Record keeps l l' : Prop := mkKeeps {
  kp_tx : l_tx l' = l_tx l;
  kp_slew : l_torque_slew l' = l_torque_slew l;
  kp_cmds : l_cmds l' = l_cmds l;
  kp_mirror : l_mirror l' = l_mirror l;
  kp_ref : l_release_rest_ref l' = l_release_rest_ref l;
  kp_streak : l_release_rest_streak l' = l_release_rest_streak l;
  kp_generation : l_release_rest_generation l' = l_release_rest_generation l;
  kp_needed : l_release_rest_needed l' = l_release_rest_needed l;
  kp_estop : l_estop l' = l_estop l;
}.

#[export] Instance keeps_preorder : PreOrder keeps.
Proof.
  split.
  - intros l. by constructor.
  - intros a b c [] []. constructor; congruence.
Qed.

Lemma keeps_core f l : keeps l (upd_core f l).
Proof. by constructor. Qed.

Lemma keeps_put_core c l : keeps l (lput_core c l).
Proof. by constructor. Qed.

Lemma keeps_bus_state s l : keeps l (put_bus_state s l).
Proof. by constructor. Qed.

Lemma keeps_fold {A} (f : RtLoop -> A -> RtLoop) xs :
  (forall l x, keeps l (f l x)) -> forall l, keeps l (fold_left f xs l).
Proof.
  intros H. induction xs as [|x xs IH]; intros l; [reflexivity|]. cbn [fold_left].
  etransitivity; [apply H|apply IH].
Qed.

Lemma keeps_drain l : keeps l (drain_rx l).
Proof. unfold drain_rx. destruct (bus_drain_rx _ _) as [[b s] ok]. by destruct ok; constructor. Qed.

Lemma keeps_derive l i : keeps l (derive_joint l i).
Proof.
  unfold derive_joint, derive_position. cbv zeta.
  destruct (ns_position_ticks _); [destruct (l_sector_done l !!! i)|]; destruct (ns_speed_ticks_s _);
    destruct (ns_current_ma _); by constructor.
Qed.

Lemma keeps_filter l : keeps l (filter_measured l).
Proof. unfold filter_measured. destruct (negb _); [destruct (forallb _ _)|]; by constructor. Qed.

Lemma keeps_measure l : keeps l (measure l).
Proof.
  unfold measure. transitivity (drain_rx l); [apply keeps_drain|].
  transitivity (blank_gripper (drain_rx l)); [unfold blank_gripper; destruct (c_has_can_gripper _); by constructor|].
  set (l1 := blank_gripper (drain_rx l)). clearbody l1.
  transitivity (fold_left derive_joint (seq 0 MAX_JOINTS) l1); [apply (keeps_fold derive_joint), keeps_derive|].
  apply keeps_filter.
Qed.

Lemma keeps_selfcheck l : keeps l (fst (selfcheck l)).
Proof.
  unfold selfcheck. cbv zeta. destruct (if _ && _ then _ else _) as [b cycled].
  set (l1 := upd_core (set_bus b) _). assert (H1 : keeps l l1) by by constructor. etransitivity; [exact H1|]. clearbody l1.
  destruct cycled; [by constructor|]. cbn [fst].
  set (l2 := upd_core (latch_unheard _) l1). assert (H2 : keeps l1 l2) by by constructor. etransitivity; [exact H2|]. clearbody l2.
  set (l3 := if l_kt_auto l2 then _ else l2).
  assert (H3 : keeps l2 l3).
  { subst l3. destruct (l_kt_auto l2); [|reflexivity]. apply keeps_fold. intros l4 i. cbv zeta. case_match; by constructor. }
  etransitivity; [exact H3|]. clearbody l3. unfold begin_tool_hold. cbv zeta. repeat case_match; by constructor.
Qed.

Lemma keeps_boot l : keeps l (boot_oneshots l).
Proof.
  unfold boot_oneshots. cbv zeta. destruct (_ && negb _); [by constructor|].
  destruct (if _ || _ then selfcheck l else (l, false)) as [l1 cycled] eqn:E1.
  assert (H : keeps l l1).
  { destruct (_ || _); [|by simplify_eq]. pose proof (keeps_selfcheck l) as H. by rewrite E1 in H. }
  etransitivity; [exact H|]. destruct cycled; [reflexivity|].
  set (l2 := if c_tool_hold (l_core l1) then _ else l1).
  assert (H2 : keeps l1 l2).
  { subst l2. destruct (c_tool_hold _); [|reflexivity]. unfold release_tool_hold. cbv zeta. repeat case_match; by constructor. }
  etransitivity; [exact H2|]. clearbody l2. unfold config_shots. cbv zeta.
  etransitivity; [|apply keeps_core]. destruct (bool_decide _ && _); by constructor.
Qed.

(** What the phases before the drain send: the outputs, when one is due. *)
Definition outputs_only (evs : list TxEvent) : Prop := evs = [] \/ exists levels, evs = [TX_Outputs levels].

(** The debouncer of the e-stop line, fed once a tick. *)
Definition fed_estop (i : TickInput) l : RtLoop := lput_estop (fst (estop_pressed (l_estop l) (ti_estop_line i))) l.

Lemma keeps_inputs i l : keeps (fed_estop i l) (read_inputs i l).
Proof. unfold fed_estop, read_inputs. destruct (estop_pressed _ _). by constructor. Qed.

Lemma fed_keeps i l l' : keeps l l' -> keeps (fed_estop i l) (fed_estop i l').
Proof. intros []. constructor; cbn; congruence. Qed.

Lemma intake_frames i l : exists outs, outputs_only outs /\
  keeps (sent_all outs (fed_estop i l)) (fst (tick_intake i l)).
Proof.
  unfold tick_intake. cbv zeta.
  set (l0 := upd_core (fun c => upd_bus _ c) _). assert (H0 : keeps l l0) by by constructor. clearbody l0.
  set (l1 := read_inputs i l0).
  assert (H1 : keeps (fed_estop i l) l1).
  { transitivity (fed_estop i l0); [by apply fed_keeps|apply keeps_inputs]. }
  clearbody l1. clear H0. destruct (timing_record _ _ _) as [timing health].
  set (l2 := boot_oneshots _). assert (H2 : keeps (fed_estop i l) l2).
  { etransitivity; [exact H1|]. etransitivity; [|apply keeps_boot]. by constructor. }
  clearbody l2. clear H1.
  set (l3 := upd_core (upd_exec exec_clock_tick) _). assert (H3 : keeps (fed_estop i l) l3).
  { etransitivity; [exact H2|]. subst l3. destruct (ti_command i); by constructor. }
  clearbody l3. clear H2. cbn [fst]. set (l4 := fed_estop i l) in *. clearbody l4.
  unfold write_outputs. destruct (drive_io_outputs (l_core l3)) as [c [levels|]].
  - exists [TX_Outputs levels]. split; [right; by eexists|]. destruct H3. constructor; cbn; congruence.
  - exists []. split; [by left|]. destruct H3. constructor; cbn; try congruence. by rewrite app_nil_r.
Qed.

(** ** The phases up to the error checks *)

(** What went out, the arrays it is made of, and the e-stop's debouncer. *)
Record sends_kept l l' : Prop := mkSendsKept {
  sk_tx : l_tx l' = l_tx l;
  sk_slew : l_torque_slew l' = l_torque_slew l;
  sk_cmds : l_cmds l' = l_cmds l;
  sk_mirror : l_mirror l' = l_mirror l;
  sk_estop : l_estop l' = l_estop l;
}.

#[export] Instance sends_kept_preorder : PreOrder sends_kept.
Proof.
  split.
  - intros l. by constructor.
  - intros a b c [] []. constructor; congruence.
Qed.

Lemma keeps_sends l l' : keeps l l' -> sends_kept l l'.
Proof. intros []. by constructor. Qed.

Lemma rest_window_sends l : sends_kept l (rest_window l).
Proof. unfold rest_window. cbv zeta. destruct (_ && _); [|destruct (rest_held l)]; by constructor. Qed.

Lemma gravity_keeps l : keeps l (refresh_gravity l).
Proof. unfold refresh_gravity. destruct (grav_gravity _ _). by constructor. Qed.

Lemma checked_sends i l : exists outs, outputs_only outs /\ sends_kept (sent_all outs (fed_estop i l)) (tick_checked i l).
Proof.
  destruct (intake_frames i l) as (outs & Ho & Hk). exists outs. split; [done|].
  unfold tick_checked. destruct (tick_intake i l) as [l1 health]. cbn [fst] in Hk.
  transitivity l1; [by apply keeps_sends|]. clear Hk.
  transitivity (tick_state l1); [|by constructor]. unfold tick_state, drain_and_derive.
  transitivity (measure l1); [apply keeps_sends, keeps_measure|].
  set (l2 := measure l1). clearbody l2.
  transitivity (rest_window l2); [apply rest_window_sends|].
  set (l3 := rest_window l2). clearbody l3.
  transitivity (refresh_gravity l3); [apply keeps_sends, gravity_keeps|]. by constructor.
Qed.

(** ** The laws *)

Lemma keeps_live f l : keeps l (upd_core (upd_live f) l).
Proof. by constructor. Qed.

Lemma keeps_filtered q l : keeps l (fst (filtered_target q l)).
Proof. unfold filtered_target. destruct (f64_eqb _ _); by constructor. Qed.

Lemma keeps_handover sp l : keeps l (stream_handover sp l).
Proof. unfold stream_handover. cbv zeta. destruct (Bool.eqb _ _); [|destruct (sp_shaped sp)]; by constructor. Qed.

Lemma keeps_apply sp l : keeps l (stream_apply sp l).
Proof.
  unfold stream_apply. cbv zeta. set (l1 := stream_handover sp l).
  transitivity l1; [apply keeps_handover|]. clearbody l1.
  set (l2 := if scale_differs _ _ then _ else l1).
  transitivity l2; [subst l2; destruct (scale_differs _ _); by constructor|]. clearbody l2.
  set (l3 := upd_core (set_q_target (sp_q sp)) l2). transitivity l3; [by constructor|]. clearbody l3.
  destruct (sp_shaped sp); [by constructor|].
  pose proof (keeps_filtered (sp_q sp) l3) as H. destruct (filtered_target _ _) as [l4 target]. cbn [fst] in H.
  transitivity l4; [done|]. by constructor.
Qed.

Lemma keeps_intake l : keeps l (fst (stream_intake l)).
Proof.
  unfold stream_intake. cbv zeta. set (l1 := upd_core (set_stream_rx None) l).
  transitivity l1; [by constructor|]. destruct (c_stream_released (l_core l)); [reflexivity|].
  destruct (c_stream_rx (l_core l)) as [sp|]; [apply keeps_apply|]. destruct (negb _ && _); [|reflexivity].
  pose proof (keeps_filtered (c_q_target (l_core l)) l1) as H. destruct (filtered_target _ _) as [l2 target]. cbn [fst] in H.
  transitivity l2; [done|]. by constructor.
Qed.

Lemma keeps_window b l : keeps l (stream_window b l).
Proof. unfold stream_window. cbv zeta. destruct (_ >=? _); by constructor. Qed.

Lemma keeps_track l : let '(l', _, _) := stream_track l in keeps l l'.
Proof. unfold stream_track. destruct (track_step _) as [[t q] qd]. cbv zeta. destruct (track_faulted _); by constructor. Qed.

Lemma keeps_setpoints v l : keeps l (lput_setpoints v l).
Proof. by constructor. Qed.

Lemma keeps_release released still q l : keeps l (rest_release released still q l).
Proof. unfold rest_release. destruct (_ && _); by constructor. Qed.

Lemma keeps_stream l : keeps l (stream_law l).
Proof.
  unfold stream_law. pose proof (keeps_intake l) as Hi. destruct (stream_intake l) as [l1 applied]. cbn [fst] in Hi.
  transitivity l1; [done|]. pose proof (keeps_window applied l1) as Hw. set (l2 := stream_window applied l1) in *. clearbody l2.
  transitivity l2; [done|]. pose proof (keeps_track l2) as Ht. destruct (stream_track l2) as [[l3 q] qd]. cbv zeta.
  transitivity l3; [done|]. set (l4 := lput_setpoints _ l3). transitivity l4; [apply keeps_setpoints|]. clearbody l4.
  apply keeps_release.
Qed.

Lemma keeps_jog l : keeps l (jog_law l).
Proof.
  unfold jog_law. assert (H : let '(l', _, _) := jog_drive l in keeps l l').
  { unfold jog_drive. destruct (jog_tick _ _) as [[[engine q] qd] blocked]. by constructor. }
  destruct (jog_drive l) as [[l1 q] qd]. cbv zeta. transitivity l1; [done|].
  set (l2 := lput_setpoints _ l1). transitivity l2; [apply keeps_setpoints|]. clearbody l2. apply keeps_release.
Qed.

Lemma keeps_exec l : keeps l (exec_law l).
Proof.
  unfold exec_law. assert (H : let '(l', _, _) := exec_play l in keeps l l').
  { unfold exec_play. cbv zeta. destruct (exec_tick _ _ _) as [[[clock e] out] outcome]. by constructor. }
  destruct (exec_play l) as [[l1 out] outcome]. cbv zeta. transitivity l1; [done|].
  transitivity (exec_fault outcome l1); [destruct outcome; by constructor|]. apply keeps_setpoints.
Qed.

Lemma keeps_law l : keeps l (mode_law l).
Proof.
  unfold mode_law. destruct (c_mode (l_core l));
    first [apply keeps_setpoints | apply keeps_jog | apply keeps_stream | apply keeps_exec].
Qed.

(** ** The frames of a dispatch *)

Lemma send_joints_frames l : keeps (sent (TX_Joints (l_cmds l)) l) (send_joints l).
Proof. unfold send_joints. destruct (bus_send_joint_commands _ _) as [b []]; by constructor. Qed.

Lemma send_gripper_frames g l : keeps (sent (TX_Gripper g) l) (send_gripper g l).
Proof. unfold send_gripper. destruct (bus_send_gripper _ _) as [b []]; by constructor. Qed.

Lemma poll_frames l : keeps (sent TX_Poll l) (poll_slot l).
Proof. by constructor. Qed.

Lemma gripper_slot_frames l : exists g, keeps (sent (TX_Gripper g) l) (gripper_slot l).
Proof.
  unfold gripper_slot. assert (H : let '(l', _) := gripper_frame l in keeps l l').
  { unfold gripper_frame. cbv zeta. destruct (negb _); [reflexivity|]. destruct (c_calibrate_pending _); [by constructor|].
    destruct (gate_tick _ _). by constructor. }
  destruct (gripper_frame l) as [l1 g]. cbv zeta. exists g.
  set (l2 := if c_has_can_gripper (l_core l1) then _ else l1).
  assert (H2 : keeps l l2) by (transitivity l1; [done|]; subst l2; destruct (c_has_can_gripper _); by constructor).
  clearbody l2. transitivity (sent (TX_Gripper g) l2); [|apply send_gripper_frames]. destruct H2. constructor; cbn; congruence.
Qed.

(** The joint commands, a gripper slot and a poll: one of each, in this order. *)
Definition tick_frames (cmds : list JointCommand) (g : GripperCommand) : list TxEvent := [TX_Joints cmds; TX_Gripper g; TX_Poll].

Lemma slots_frames (gripper : RtLoop -> RtLoop) l :
  (forall l, exists g, keeps (sent (TX_Gripper g) l) (gripper l)) ->
  exists g, keeps (sent_all (tick_frames (l_cmds l) g) l) (poll_slot (gripper (send_joints l))).
Proof.
  intros Hg. pose proof (send_joints_frames l) as H1. set (l1 := send_joints l) in *. clearbody l1.
  destruct (Hg l1) as [g H2]. set (l2 := gripper l1) in *. clearbody l2. exists g.
  pose proof (poll_frames l2) as H3. set (l3 := poll_slot l2) in *. clearbody l3. destruct H1, H2, H3.
  cbn in *. constructor; cbn; try congruence.
  rewrite kp_tx2, kp_tx1, kp_tx0. unfold tick_frames. rewrite <- !app_assoc. reflexivity.
Qed.

Lemma exec_idle_keeps l : keeps l (exec_idle l) /\ c_mode (l_core (exec_idle l)) = c_mode (l_core l).
Proof. unfold exec_idle. destruct (mode_eqb _ _); by split; [constructor|]. Qed.

(** What a dispatch sends and what it leaves of the arrays, by mode. *)
Lemma flashing_frames l : c_mode (l_core l) = Flashing ->
  l_tx (dispatch_and_send l) = l_tx l /\ l_torque_slew (dispatch_and_send l) = slew_reset (l_torque_slew l) /\
  l_estop (dispatch_and_send l) = l_estop l /\ l_cmds (dispatch_and_send l) = l_cmds l /\ l_mirror (dispatch_and_send l) = mirror_default.
Proof.
  intros Hm. destruct (exec_idle_keeps l) as [E1 Em]. unfold dispatch_and_send. cbv zeta.
  set (l1 := exec_idle l) in *. clearbody l1. rewrite Em, Hm. change (mode_eqb Flashing Flashing) with true. cbv iota.
  destruct E1. cbn. split_and!; congruence.
Qed.

(** What the sequencer's tick leaves of them, and the frames that follow. *)
Lemma fill_fields l : let l1 := fst (homing_fill l) in
  l_tx l1 = l_tx l /\ l_torque_slew l1 = slew_reset (l_torque_slew l) /\ l_mirror l1 = mirror_default /\ l_estop l1 = l_estop l /\
  (exists h b s v gc, l_cmds l1 = ht_cmds (homing_tick h b s v (l_cmds l) gc)) /\
  l_release_rest_ref l1 = l_release_rest_ref l /\ l_release_rest_streak l1 = l_release_rest_streak l /\
  l_release_rest_generation l1 = l_release_rest_generation l /\ l_release_rest_needed l1 = l_release_rest_needed l.
Proof. cbv zeta. unfold homing_fill. cbv zeta. cbn [fst]. split_and!; try reflexivity. by do 5 eexists. Qed.

Lemma keeps_check_reference l : keeps l (fst (check_reference l)).
Proof.
  unfold check_reference. cbv zeta. destruct (_ || negb _); [reflexivity|].
  assert (Hf : forall bounds acc, keeps (fst acc) (fst
    (fold_left (fun '(l0, refused) '(j, bound) =>
      if f64_gt (f64_abs (c_ref_check_sum (l_core l) !!! j /! f64_of_int (c_ref_check_n (l_core l)))) bound
      then (upd_core (fun c => set_homing (homing_fail_reference (c_homing c) j) c) l0, true)
      else (l0, refused)) bounds acc))).
  { intros bounds. induction bounds as [|[j bound] bounds IH]; intros [l0 r]; [reflexivity|]. cbn [fold_left].
    etransitivity; [|apply IH]. destruct (f64_gt _ _); by constructor. }
  exact (Hf _ (l, false)).
Qed.

Lemma keeps_outcome status l : keeps l (homing_outcome status l).
Proof.
  unfold homing_outcome. destruct status; try by constructor.
  transitivity (fst (check_reference l)); [apply keeps_check_reference|by constructor].
Qed.

Lemma homing_frames l : c_mode (l_core l) = Homing ->
  let l1 := fst (homing_fill (exec_idle l)) in
  exists g, keeps (sent_all (tick_frames (l_cmds l1) g) l1) (dispatch_and_send l).
Proof.
  intros Hm. cbv zeta. unfold dispatch_and_send. cbv zeta. destruct (exec_idle_keeps l) as [_ Em].
  set (l1 := exec_idle l) in *. clearbody l1. rewrite Em, Hm. change (mode_eqb Homing Flashing) with false.
  change (mode_eqb Homing Homing) with true. cbv iota. unfold homing_slot, homing_send.
  destruct (homing_fill l1) as [l2 status]. cbn [fst].
  destruct (slots_frames (send_gripper (l_homing_gcmd l2)) l2) as [g H].
  { intros l3. eexists. apply send_gripper_frames. }
  exists g. set (l3 := poll_slot _) in *. clearbody l3. transitivity l3; [exact H|apply keeps_outcome].
Qed.

Lemma law_frames l : c_mode (l_core l) <> Flashing -> c_mode (l_core l) <> Homing ->
  let l1 := commit_tick (mode_law (exec_idle l)) in
  exists g, keeps (sent_all (tick_frames (l_cmds l1) g) l1) (dispatch_and_send l) /\ l_tx l1 = l_tx l.
Proof.
  intros Hf Hh. cbv zeta. destruct (exec_idle_keeps l) as [E1 Em]. unfold dispatch_and_send. cbv zeta.
  set (l1 := exec_idle l) in *. clearbody l1.
  destruct (mode_eqb (c_mode (l_core l1)) Flashing) eqn:Ef; [apply mode_eqb_spec in Ef; congruence|].
  destruct (mode_eqb (c_mode (l_core l1)) Homing) eqn:Eh; [apply mode_eqb_spec in Eh; congruence|].
  pose proof (keeps_law l1) as Hk. set (l2 := mode_law l1) in *. clearbody l2.
  destruct (slots_frames gripper_slot (commit_tick l2)) as [g H]; [apply gripper_slot_frames|].
  exists g. split; [exact H|]. destruct Hk, E1. change (l_tx l2 = l_tx l). congruence.
Qed.

End Frames.
