(* ===== verification/RtTickProps.v ===== *)
(** * RtTickProps: what a tick guarantees (crates/par6-rt/src/core.rs)

    A tick sends one frame set; with a hard error latched the frames it sends command
    nothing; an e-stop line held for the debounce window stops the arm by its fifth
    tick whatever else happens; torque starts from zero after every stop; a released
    motion mode is left only once the measured arm has stayed put. *)
From Stdlib Require Import SpecFloat.
From stdpp Require Import relations.
From S2P Require Import Prelude F64 BusTypes Ring Joints RtState Gripper Gpio CoreState Core CoreSafety.
From S2P Require Import Convert Homing HomingSeq Dispatch SettlePolicy ExecTick LoopTiming RtLoop RtTick RtTickSteps RtTickFrames.

(** ** The invariant of the loop *)

Section Inv.
Context `{T : TickDeps} {BL : BusSilenceLaws} {L : TickSilenceLaws}.
Implicit Types (l : RtLoop) (c : RtCore).

Lemma steps_inv c c' : rtc core_step c c' -> core_inv c -> core_inv c'.
Proof.
  intros Hr. induction Hr as [c|c1 c2 c3 H12 _ IH]; intros Hi; [done|]. apply IH.
  eapply change_inv; [by apply step_change|done|]. eapply step_errors; [done|]. apply Hi.
Qed.

Lemma checked_inv i l : core_inv (l_core l) -> core_inv (l_core (tick_checked i l)).
Proof. apply steps_inv, checked_steps. Qed.

Lemma loop_inv i l : core_inv (l_core l) -> core_inv (l_core (tick i l)).
Proof.
  intros Hi. eapply steps_inv; [|exact (checked_inv i l Hi)].
  etransitivity; [apply (dispatch_steps (tick_checked i l))|]. apply rtc_once, cs_clear_tick.
Qed.

(** The verdict of the checks stands from the checks to the dispatch. *)
Lemma checked_reacts i l :
  core_inv (l_core l) -> any_hard (c_errors (l_core (tick_checked i l))) = true ->
  c_state (l_core (tick_checked i l)) = Disabled /\
  mode_in (c_mode (l_core (tick_checked i l))) [ActiveError; SafetyStop; Flashing] = true.
Proof.
  intros Hi. unfold tick_checked. pose proof (intake_steps i l) as Hs. destruct (tick_intake i l) as [l1 health]. cbn [fst] in Hs.
  assert (Hc : core_inv (l_core (tick_state l1))).
  { eapply steps_inv; [|exact Hi]. etransitivity; [exact Hs|]. apply steps_measured, tick_state_measured. }
  set (l2 := tick_state l1) in *. clearbody l2. clear Hs.
  change (l_core (upd_core (check_errors health) l2)) with (check_errors health (l_core l2)).
  destruct (check_errors_split health (l_core l2)) as (c1 & [Q1 Q2 _ _ _ _] & _ & ->).
  destruct (react_spec c1) as (E1 & E2 & E3 & _). intros Ha. rewrite E1 in Ha. rewrite E2, E3, Ha. cbn [andb].
  split; [|by destruct (c_mode c1)]. destruct (mode_eqb (c_mode c1) Booting) eqn:Em; [|done]. cbn [negb].
  apply mode_eqb_spec in Em. rewrite Q2. apply (ci_boot _ Hc). congruence.
Qed.

(** ** The arrays *)

Definition arrays_of l : Commit := mkCommit (l_torque_slew l) (l_cmds l) (l_mirror l).

(** The fixed arrays have their length. *)
Definition arrays_wf l : Prop := commit_wf (arrays_of l).

Lemma kept_arrays l l' : sends_kept l l' -> arrays_of l' = arrays_of l.
Proof. intros []. unfold arrays_of. congruence. Qed.

Lemma checked_arrays i l : arrays_of (tick_checked i l) = arrays_of l.
Proof. destruct (checked_sends i l) as (outs & _ & Hk). by rewrite (kept_arrays _ _ Hk). Qed.

(** ** Protective ticks *)

(** No joint is commanded a speed or a current. *)
Definition commands_nothing (cmds : list JointCommand) : Prop :=
  cmds = replicate MAX_JOINTS (jc_velocity 0 0) \/ cmds = replicate MAX_JOINTS (jc_current 0).

Lemma exec_idle_measured l : measured (l_core l) (l_core (exec_idle l)).
Proof. unfold exec_idle. destruct (mode_eqb _ _); by constructor. Qed.

Lemma protective_law l : mode_in (c_mode (l_core l)) [ActiveError; SafetyStop] = true ->
  l_core (mode_law l) = l_core l /\ (l_setpoints (mode_law l) = law_active_error \/ l_setpoints (mode_law l) = law_safety_stop).
Proof. unfold mode_law. destruct (c_mode (l_core l)); try discriminate; intros _; (split; [reflexivity|]); [by left|by right]. Qed.

Lemma protective_dispatch l : arrays_wf l -> mode_in (c_mode (l_core l)) [ActiveError; SafetyStop] = true ->
  ts_applied (l_torque_slew (dispatch_and_send l)) = joint_zeros /\
  exists cmds g, commands_nothing cmds /\ l_cmds (dispatch_and_send l) = cmds /\
    l_tx (dispatch_and_send l) = l_tx l ++ tick_frames cmds g.
Proof.
  intros Hw Hm. destruct (law_frames l) as (g & [Ktx Ks Kc _ _ _ _ _ _] & Etx); [intros E; by rewrite E in Hm..|].
  rewrite Ktx, Ks. change (l_tx (sent_all ?e ?l)) with (l_tx l ++ e). rewrite Etx. rewrite Kc.
  set (l1 := exec_idle l) in *. pose proof (exec_idle_keeps l) as [K1 Em]. fold l1 in K1, Em.
  assert (Hm1 : mode_in (c_mode (l_core l1)) [ActiveError; SafetyStop] = true) by by rewrite Em.
  assert (Hw1 : arrays_wf l1) by (unfold arrays_wf; rewrite (kept_arrays l l1); [done|by apply keeps_sends]).
  clearbody l1. clear Ktx Ks Kc Etx K1 Em Hm Hw. destruct (protective_law l1 Hm1) as [Ec El].
  pose proof (keeps_law l1) as Hk. set (l2 := mode_law l1) in *. clearbody l2.
  assert (Hw2 : arrays_wf l2) by (unfold arrays_wf; rewrite (kept_arrays l1 l2); [done|by apply keeps_sends]).
  destruct (protective_commit (l_conv l2) (l_torque_ma_factor l2) (arrays_of l2) Hw2) as (P1 & P2 & P3 & P4).
  unfold commit_tick. rewrite Ec, Hm1. cbn [negb]. fold (arrays_of l2).
  destruct El as [-> | ->]; cbn [sent_all lput_tx l_cmds l_torque_slew lput_torque_slew lput_cmds lput_mirror].
  - split; [exact P3|]. exists (replicate MAX_JOINTS (jc_velocity 0 0)), g. split; [by left|]. split; [exact P1|]. by rewrite P1.
  - split; [exact P4|]. exists (replicate MAX_JOINTS (jc_current 0)), g. split; [by right|]. split; [exact P2|]. by rewrite P2.
Qed.

Lemma protective_measured l : mode_in (c_mode (l_core l)) [ActiveError; SafetyStop; Flashing] = true ->
  measured (l_core l) (l_core (dispatch_and_send l)).
Proof.
  intros Hm. unfold dispatch_and_send. cbv zeta. pose proof (exec_idle_measured l) as H1. set (l1 := exec_idle l) in *. clearbody l1.
  transitivity (l_core l1); [done|]. destruct H1 as [Em _ _ _ _ _]. rewrite <- Em in Hm. clear Em.
  destruct (mode_eqb (c_mode (l_core l1)) Flashing) eqn:Ef; [by constructor|].
  assert (Hm1 : mode_in (c_mode (l_core l1)) [ActiveError; SafetyStop] = true) by (by destruct (c_mode (l_core l1))).
  assert (Eh : mode_eqb (c_mode (l_core l1)) Homing = false) by (by destruct (c_mode (l_core l1))). rewrite Eh.
  destruct (protective_law l1 Hm1) as [Ec _]. set (l2 := mode_law l1) in *. clearbody l2. rewrite <- Ec.
  etransitivity; [apply commit_measured|]. etransitivity; [apply send_joints_measured|].
  etransitivity; [apply gripper_slot_measured|]. apply poll_slot_measured.
Qed.

(** What a tick that commands nothing looks like: the frames it sends, the torque the
    slew starts from next, the arming. *)
Definition stopped_tick (before after : RtLoop) : Prop :=
  ts_applied (l_torque_slew after) = joint_zeros /\ c_state (l_core after) = Disabled /\
  exists outs, outputs_only outs /\
    (l_tx after = l_tx before ++ outs \/
     exists cmds g, commands_nothing cmds /\ l_tx after = l_tx before ++ outs ++ tick_frames cmds g).

(** The clear countdown touches the latch alone. *)
Lemma clear_fields l :
  l_tx (clear_tick l) = l_tx l /\ l_torque_slew (clear_tick l) = l_torque_slew l /\ l_cmds (clear_tick l) = l_cmds l /\
  l_estop (clear_tick l) = l_estop l /\
  c_mode (l_core (clear_tick l)) = c_mode (l_core l) /\ c_state (l_core (clear_tick l)) = c_state (l_core l).
Proof. by split_and!. Qed.

Lemma hard_error_stops i l :
  core_inv (l_core l) -> arrays_wf l -> any_hard (c_errors (l_core (tick_checked i l))) = true ->
  stopped_tick l (tick i l).
Proof.
  intros Hi Hw Ha. destruct (checked_reacts i l Hi Ha) as [Hs Hm]. destruct (checked_sends i l) as (outs & Ho & Hk).
  pose proof (checked_arrays i l) as Earr. unfold tick, stopped_tick.
  destruct (clear_fields (dispatch_and_send (tick_checked i l))) as (Etx & Esl & _ & _ & _ & Est). rewrite Etx, Esl, Est. set (l1 := tick_checked i l) in *.
  clearbody l1.
  pose proof (protective_measured l1 Hm) as [_ Es _ _ _ _].
  assert (Hw1 : arrays_wf l1) by (unfold arrays_wf; by rewrite Earr).
  assert (Htx : l_tx l1 = l_tx l ++ outs) by (by destruct Hk). clear Hk Etx Esl Est.
  destruct (mode_eqb (c_mode (l_core l1)) Flashing) eqn:Ef.
  - apply mode_eqb_spec in Ef. destruct (flashing_frames l1 Ef) as (E1 & E2 & _).
    split; [by rewrite E2|]. split; [congruence|]. exists outs. split; [done|]. left. congruence.
  - assert (Hm1 : mode_in (c_mode (l_core l1)) [ActiveError; SafetyStop] = true) by (by destruct (c_mode (l_core l1))).
    destruct (protective_dispatch l1 Hw1 Hm1) as (E1 & cmds & g & Hc & _ & E2).
    split; [exact E1|]. split; [congruence|]. exists outs. split; [done|]. right. exists cmds, g. split; [done|].
    by rewrite E2, Htx, app_assoc.
Qed.

(** ** Through whole runs *)

Lemma commit_arrays l : arrays_wf l -> arrays_wf (commit_tick l).
Proof. intros Hw. apply (commit_keeps_wf (l_setpoints l) (l_conv l) (l_torque_ma_factor l) _ _ Hw). Qed.

Lemma clear_arrays l : arrays_of (clear_tick l) = arrays_of l.
Proof. reflexivity. Qed.

Lemma sent_fields evs l : arrays_of (sent_all evs l) = arrays_of l /\ l_estop (sent_all evs l) = l_estop l.
Proof. by split. Qed.

Lemma sent_tx evs l : l_tx (sent_all evs l) = l_tx l ++ evs.
Proof. reflexivity. Qed.

Lemma sent_slew evs l : l_torque_slew (sent_all evs l) = l_torque_slew l.
Proof. reflexivity. Qed.

Lemma sent_cmds evs l : l_cmds (sent_all evs l) = l_cmds l.
Proof. reflexivity. Qed.

Lemma commit_estop l : l_estop (commit_tick l) = l_estop l.
Proof. reflexivity. Qed.

Lemma fed_line i l : l_estop (fed_estop i l) = fst (estop_pressed (l_estop l) (ti_estop_line i)).
Proof. reflexivity. Qed.

Lemma fed_tx i l : l_tx (fed_estop i l) = l_tx l.
Proof. reflexivity. Qed.

Lemma tick_estop i l : l_estop (tick i l) = fst (estop_pressed (l_estop l) (ti_estop_line i)).
Proof.
  unfold tick. destruct (checked_sends i l) as (outs & _ & [_ _ _ _ He]). set (l1 := tick_checked i l) in *. clearbody l1.
  rewrite <- fed_line, <- (proj2 (sent_fields outs (fed_estop i l))), <- He. clear He.
  destruct (clear_fields (dispatch_and_send l1)) as (_ & _ & _ & E & _). rewrite E. clear E.
  destruct (decide (c_mode (l_core l1) = Flashing)) as [Hf|Hf]; [by apply flashing_frames|].
  destruct (decide (c_mode (l_core l1) = Homing)) as [Hh|Hh].
  { destruct (homing_frames l1 Hh) as (g & [_ _ _ _ _ _ _ _ Ke]). rewrite Ke, (proj2 (sent_fields _ _)).
    destruct (fill_fields (exec_idle l1)) as (_ & _ & _ & E & _). rewrite E. apply (exec_idle_keeps l1). }
  destruct (law_frames l1 Hf Hh) as (g & [_ _ _ _ _ _ _ _ Ke] & _). rewrite Ke.
  rewrite (proj2 (sent_fields _ _)), commit_estop, (kp_estop _ _ (keeps_law _)). apply (exec_idle_keeps l1).
Qed.

Lemma dispatch_arrays {S : TickShapeLaws} l : arrays_wf l -> arrays_wf (dispatch_and_send l).
Proof.
  intros Hw. destruct (decide (c_mode (l_core l) = Flashing)) as [Hf|Hf].
  { destruct (flashing_frames l Hf) as (_ & E1 & _ & E2 & E3). destruct Hw as (_ & Hc & _).
    unfold arrays_wf, arrays_of. rewrite E1, E2, E3. unfold commit_wf. cbn. by split_and!. }
  destruct (decide (c_mode (l_core l) = Homing)) as [Hh|Hh].
  { destruct (homing_frames l Hh) as (g & K). unfold arrays_wf. rewrite (kept_arrays _ _ (keeps_sends _ _ K)), (proj1 (sent_fields _ _)).
    destruct (fill_fields (exec_idle l)) as (_ & E1 & E2 & _ & (h & b & s & v & gc & E3) & _). destruct Hw as (_ & Hc & _).
    unfold arrays_of. rewrite E1, E2, E3. unfold commit_wf. cbn. split_and!; try done. apply homing_cmds_shape.
    by rewrite (kp_cmds _ _ (proj1 (exec_idle_keeps l))). }
  destruct (law_frames l Hf Hh) as (g & K & _). unfold arrays_wf.
  rewrite (kept_arrays _ _ (keeps_sends _ _ K)), (proj1 (sent_fields _ _)). clear K.
  assert (Hw2 : arrays_wf (mode_law (exec_idle l))).
  { unfold arrays_wf. rewrite (kept_arrays l (mode_law (exec_idle l))); [done|]. apply keeps_sends.
    transitivity (exec_idle l); [apply exec_idle_keeps|apply keeps_law]. }
  by apply commit_arrays.
Qed.

Lemma tick_arrays {S : TickShapeLaws} i l : arrays_wf l -> arrays_wf (tick i l).
Proof.
  intros Hw. unfold tick, arrays_wf. rewrite clear_arrays. apply dispatch_arrays.
  unfold arrays_wf. by rewrite checked_arrays.
Qed.

(** What every run of the loop keeps: the core's invariant, the arrays' lengths. *)
Lemma run_wf {S : TickShapeLaws} ins : forall l, core_inv (l_core l) -> arrays_wf l ->
  core_inv (l_core (loop_run ins l)) /\ arrays_wf (loop_run ins l).
Proof.
  induction ins as [|i ins IH]; intros l Hi Hw; [done|]. apply IH; [by apply loop_inv|by apply tick_arrays].
Qed.

(** Whatever happens, the debouncer has seen the line's reads. *)
Lemma run_estop ins : forall l,
  l_estop (loop_run ins l) = debounce_run (l_estop l) (map ti_estop_line ins).
Proof.
  induction ins as [|i ins IH]; intros l; [done|]. change (loop_run (i :: ins) l) with (loop_run ins (tick i l)).
  rewrite IH, tick_estop. unfold estop_pressed. by destruct (debounce_update _ _) eqn:E; cbn; rewrite E.
Qed.

End Inv.
