(* ===== verification/RtTickLine.v ===== *)
(** * RtTickLine: the e-stop line, from the pin to the frames
    (crates/par6-rt/src/core.rs, gpio.rs)

    What the tick reads of the e-stop line at its start reaches the error checks of
    the same tick: no boot one-shot, command or measurement in between rewrites it.
    With the debouncer's bound, a line held down stops the arm by its fifth tick. *)
From Stdlib Require Import SpecFloat.
From stdpp Require Import relations.
From S2P Require Import Prelude F64 BusTypes Ring Joints RtState Gripper Gpio CoreState Core CoreSafety.
From S2P Require Import Convert Homing HomingSeq Dispatch SettlePolicy ExecTick LoopTiming RtLoop RtTick RtTickSteps RtTickFrames RtTickProps.

Section Line.
Context `{T : TickDeps}.
Implicit Types (l : RtLoop) (c : RtCore).

(** ** The line's level is read once a tick *)

(** The e-stop line as last read is the same in both states. *)
Record same_line c c' : Prop := mkSameLine { sl_hw : c_hw_estop c' = c_hw_estop c }.

#[export] Instance same_line_preorder : PreOrder same_line.
Proof.
  split.
  - intros c. by constructor.
  - intros a b c [] []. constructor; congruence.
Qed.

Lemma line_fold {A} (f : RtCore -> A -> RtCore) xs :
  (forall c x, same_line c (f c x)) -> forall c, same_line c (fold_left f xs c).
Proof.
  intros H. induction xs as [|x xs IH]; intros c; [reflexivity|]. cbn [fold_left]. etransitivity; [apply H|apply IH].
Qed.

Lemma line_loop_fold {A} (f : RtLoop -> A -> RtLoop) xs :
  (forall l x, same_line (l_core l) (l_core (f l x))) -> forall l, same_line (l_core l) (l_core (fold_left f xs l)).
Proof.
  intros H. induction xs as [|x xs IH]; intros l; [reflexivity|]. cbn [fold_left]. etransitivity; [apply H|apply IH].
Qed.

Lemma line_resend n c : same_line c (resend_config n c).
Proof. unfold resend_config. by destruct (bus_resend_node_config _ _ _) as [b []]. Qed.

Lemma line_repush c : same_line c (config_repush c).
Proof.
  unfold config_repush. cbv zeta. set (c1 := fold_left _ _ c).
  transitivity c1; [apply line_fold; intros; apply line_resend|]. clearbody c1.
  destruct (c_has_can_gripper c1); [apply line_resend|reflexivity].
Qed.

Lemma line_leave t c : same_line c (leave_mode t c).
Proof.
  unfold leave_mode. cbv zeta. set (c1 := match c_mode c with Homing => _ | _ => _ end).
  transitivity c1; [|by constructor]. subst c1. destruct (c_mode c); try by constructor.
  - destruct (homing_active _); [|reflexivity]. destruct (homing_abort _ _) as [h b]. destruct (c_has_can_gripper _); by constructor.
  - destruct (ex_stopping _); by constructor.
  - set (c2 := upd_bus bus_rebase_freshness _). transitivity c2; [by constructor|]. clearbody c2.
    transitivity (config_repush c2); [apply line_repush|]. set (c3 := config_repush c2). clearbody c3.
    destruct (c_flashed _); destruct (c_has_can_gripper _); by constructor.
Qed.

Lemma line_enter t c : same_line c (enter_mode t c).
Proof.
  unfold enter_mode. cbv zeta. transitivity (leave_mode t c); [apply line_leave|].
  set (c1 := leave_mode t c). clearbody c1. destruct t; try by constructor.
  unfold enter_homing. cbv zeta. destruct (homing_start _ _). by constructor.
Qed.

Lemma line_request t c : same_line c (fst (request_mode t c)).
Proof.
  unfold request_mode. destruct (mode_eqb t _); [cbn [fst]; destruct (_ && _); by constructor|].
  destruct (mode_in t _); [reflexivity|]. destruct (mode_in t _); [reflexivity|].
  destruct (negb _); [reflexivity|]. destruct (target_gate t c) as [c1 r] eqn:Eg.
  assert (H : r = Ok tt /\ c1 = c \/ (exists e, r = Err e) /\ (c1 = c \/ c1 = set_not_homed_refused true c)).
  { unfold target_gate in Eg. repeat case_match; simplify_eq; eauto. }
  destruct H as [[-> ->] | [[e ->] [-> | ->]]]; cbn [fst]; [apply line_enter|reflexivity|by constructor].
Qed.

Lemma line_rest q c : same_line c (rest_into_hold q c).
Proof.
  unfold rest_into_hold. cbv zeta. destruct (negb _); [apply line_enter|].
  transitivity (leave_mode Exec c); [apply line_leave|by constructor].
Qed.

Lemma line_begin_clear c : same_line c (begin_clear c).
Proof.
  unfold begin_clear.
  assert (H : forall es acc, same_line (fst acc) (fst (fold_left clear_entry es acc))).
  { intros es. induction es as [|e es IH]; intros [c0 k]; [reflexivity|]. cbn [fold_left]. etransitivity; [|apply IH].
    unfold clear_entry. destruct (ee_joint e); [|reflexivity]. cbv zeta. destruct (_ =? 0); by constructor. }
  specialize (H (em_list (c_errors c)) (c, 0)). destruct (fold_left clear_entry _ _) as [c1 m]. cbn [fst] in H.
  transitivity c1; [exact H|]. cbv zeta. destruct (c_has_can_gripper c1 && _); by constructor.
Qed.

Lemma line_command cmd c : same_line c (apply_command cmd c).
Proof.
  destruct cmd; cbn [apply_command]; try by constructor.
  - destruct (_ && _); [reflexivity|apply line_request].
  - unfold apply_enable. repeat case_match; by constructor.
  - apply line_begin_clear.
  - unfold apply_jog. cbv zeta. repeat case_match; by constructor.
  - unfold apply_stream_release. cbv zeta. repeat case_match; by constructor.
  - unfold apply_exec_stop. destruct (c_mode c); try by constructor.
    transitivity (fst (request_mode Idle c)); [apply line_request|by constructor].
  - unfold apply_hold. destruct (c_mode c); first [reflexivity|apply line_rest].
  - unfold apply_gripper. cbv zeta. case_match; by constructor.
  - unfold apply_gripper_calibrate. case_match; by constructor.
  - unfold gripper_halt_in_place. repeat case_match; by constructor.
  - case_match; by constructor.
  - unfold apply_gravity_comp. cbv zeta. case_match; [|by constructor].
    transitivity (set_gravity_comp on c); [by constructor|apply line_request].
  - unfold set_io_output. cbv zeta. destruct (_ >=? _); [reflexivity|]. destruct (negb _); by constructor.
  - unfold apply_retune. destruct (bus_retune_node _ _ _ _) as [b []]; by constructor.
  - unfold apply_set_tool_id. destruct (bus_set_tool_id _ _ _) as [b []]; by constructor.
  - destruct (bus_is_silent _); by constructor.
Qed.

Lemma line_selfcheck l : same_line (l_core l) (l_core (fst (selfcheck l))).
Proof.
  unfold selfcheck. cbv zeta. destruct (if _ && _ then _ else _) as [b cycled].
  set (l1 := upd_core (set_bus b) _). transitivity (l_core l1); [by constructor|]. clearbody l1.
  destruct cycled; [by constructor|]. cbn [fst].
  set (l2 := upd_core (latch_unheard _) l1). transitivity (l_core l2).
  { subst l2. change (same_line (l_core l1) (latch_unheard (bus_connected_nodes (c_bus (l_core l))) (l_core l1))).
    unfold latch_unheard. cbv zeta. set (c1 := fold_left _ _ (l_core l1)).
    transitivity c1; [apply line_fold; intros c i; destruct (Z.testbit _ _); by constructor|].
    clearbody c1. destruct (_ && _); by constructor. }
  clearbody l2. set (l3 := if l_kt_auto l2 then _ else l2). transitivity (l_core l3).
  { subst l3. destruct (l_kt_auto l2); [|reflexivity]. apply line_loop_fold. intros l4 i. cbv zeta. destruct (usable_kt _ _); by constructor. }
  clearbody l3. unfold begin_tool_hold. cbv zeta. repeat case_match; by constructor.
Qed.

Lemma line_boot l : same_line (l_core l) (l_core (boot_oneshots l)).
Proof.
  unfold boot_oneshots. cbv zeta. destruct (_ && negb _); [by constructor|].
  destruct (if _ || _ then selfcheck l else (l, false)) as [l1 cycled] eqn:E1.
  assert (H : same_line (l_core l) (l_core l1)).
  { destruct (_ || _); [|by simplify_eq]. pose proof (line_selfcheck l) as H. by rewrite E1 in H. }
  transitivity (l_core l1); [exact H|]. clear E1 H. destruct cycled; [reflexivity|].
  set (l2 := if c_tool_hold (l_core l1) then _ else l1).
  transitivity (l_core l2).
  { subst l2. destruct (c_tool_hold _); [|reflexivity]. unfold release_tool_hold. cbv zeta.
    repeat case_match; first [by constructor | transitivity (set_tool_hold false (l_core l1)); [by constructor|apply line_request]]. }
  clearbody l2. unfold config_shots. cbv zeta. set (l3 := if bool_decide _ && _ then _ else l2).
  transitivity (l_core l3); [subst l3; destruct (bool_decide _ && _); [apply line_repush|reflexivity]|]. clearbody l3.
  change (same_line (l_core l3) (drain_config_resends (l_core l3))). unfold drain_config_resends.
  destruct (_ || _); [reflexivity|apply line_resend].
Qed.

Lemma line_io raw c : same_line c (read_io_inputs raw c).
Proof. unfold read_io_inputs. repeat case_match; by constructor. Qed.

Lemma line_inputs i l : c_hw_estop (l_core (read_inputs i l)) = snd (estop_pressed (l_estop l) (ti_estop_line i)).
Proof.
  unfold read_inputs. destruct (estop_pressed _ _) as [d p]. cbn [snd].
  destruct (line_io (ti_io_raw i) (set_hw_estop p (l_core l))) as [H]. exact H.
Qed.

Lemma line_outputs l : same_line (l_core l) (l_core (write_outputs l)).
Proof. unfold write_outputs, drive_io_outputs. repeat case_match; simplify_eq; by constructor. Qed.

(** The command of a tick, and the clock of the playback. *)
Lemma line_intake_command i l :
  same_line (l_core l) (l_core (match ti_command i with Some cmd => upd_core (apply_command cmd) l | None => l end)).
Proof. destruct (ti_command i); [apply line_command|reflexivity]. Qed.

Lemma line_clock l : same_line (l_core l) (l_core (upd_core (upd_exec exec_clock_tick) l)).
Proof. by constructor. Qed.

Lemma line_boot_timed timing l : same_line (l_core l) (l_core (boot_oneshots (lput_timing timing l))).
Proof. exact (line_boot (lput_timing timing l)). Qed.

Lemma line_begin i l : let l0 := upd_core (fun c => upd_bus (fun b => bus_begin_tick b (c_tick c)) c) (upd_core (fun c => set_tick (c_tick c + 1) c) l) in
  c_hw_estop (l_core (read_inputs i l0)) = snd (estop_pressed (l_estop l) (ti_estop_line i)).
Proof. intros l0. rewrite line_inputs. reflexivity. Qed.

Lemma line_intake i l :
  c_hw_estop (l_core (fst (tick_intake i l))) = snd (estop_pressed (l_estop l) (ti_estop_line i)).
Proof.
  rewrite <- (line_begin i l). unfold tick_intake. cbv zeta. set (l1 := read_inputs i _). clearbody l1.
  destruct (timing_record _ _ _) as [timing health]. cbn [fst].
  destruct (line_boot_timed timing l1) as [H1]. set (l2 := boot_oneshots _) in *. clearbody l2. rewrite <- H1. clear H1.
  destruct (line_intake_command i l2) as [H2]. set (l3 := match ti_command i with Some _ => _ | None => _ end) in *. clearbody l3.
  rewrite <- H2. clear H2. destruct (line_clock l3) as [H3]. rewrite <- H3. clear H3.
  set (l4 := upd_core _ l3). clearbody l4. apply (sl_hw _ _ (line_outputs l4)).
Qed.

Lemma line_drain l : same_line (l_core l) (l_core (drain_rx l)).
Proof. unfold drain_rx. destruct (bus_drain_rx _ _) as [[b s] []]; by constructor. Qed.

Lemma line_blank l : same_line (l_core l) (l_core (blank_gripper l)).
Proof. unfold blank_gripper. case_match; by constructor. Qed.

Lemma line_derive l i : same_line (l_core l) (l_core (derive_joint l i)).
Proof.
  unfold derive_joint, derive_position. cbv zeta.
  destruct (ns_position_ticks _); [destruct (l_sector_done l !!! i)|]; destruct (ns_speed_ticks_s _);
    destruct (ns_current_ma _); by constructor.
Qed.

Lemma line_filter l : same_line (l_core l) (l_core (filter_measured l)).
Proof. unfold filter_measured. repeat case_match; by constructor. Qed.

Lemma line_rest_window l : same_line (l_core l) (l_core (rest_window l)).
Proof. unfold rest_window. cbv zeta. repeat case_match; by constructor. Qed.

Lemma line_gravity l : same_line (l_core l) (l_core (refresh_gravity l)).
Proof. unfold refresh_gravity. destruct (grav_gravity _ _). by constructor. Qed.

Lemma line_external l : same_line (l_core l) (l_core (external_torque l)).
Proof. by constructor. Qed.

Lemma line_state l : same_line (l_core l) (l_core (tick_state l)).
Proof.
  unfold tick_state, drain_and_derive, measure.
  etransitivity; [apply (line_drain l)|]. generalize (drain_rx l). clear l. intros l.
  etransitivity; [apply (line_blank l)|]. generalize (blank_gripper l). clear l. intros l.
  etransitivity; [apply (line_loop_fold derive_joint (seq 0 MAX_JOINTS) line_derive l)|].
  generalize (fold_left derive_joint (seq 0 MAX_JOINTS) l). clear l. intros l.
  etransitivity; [apply (line_filter l)|]. generalize (filter_measured l). clear l. intros l.
  etransitivity; [apply (line_rest_window l)|]. generalize (rest_window l). clear l. intros l.
  etransitivity; [apply (line_gravity l)|]. apply line_external.
Qed.

End Line.

(** ** Held down, it stops the arm *)

Section Held.
Context `{T : TickDeps} {BL : BusSilenceLaws} {L : TickSilenceLaws}.
Implicit Types (l : RtLoop).

Lemma pressed_latches i l :
  core_inv (l_core l) -> snd (estop_pressed (l_estop l) (ti_estop_line i)) = true ->
  any_hard (c_errors (l_core (tick_checked i l))) = true.
Proof.
  intros Hi Hp. unfold tick_checked. pose proof (intake_steps i l) as Hs. pose proof (line_intake i l) as Hl.
  destruct (tick_intake i l) as [l1 health]. cbn [fst] in Hs, Hl.
  assert (Hc : core_inv (l_core (tick_state l1))).
  { eapply steps_inv; [|exact Hi]. etransitivity; [exact Hs|]. apply steps_measured, tick_state_measured. }
  pose proof (line_state l1) as [Hw]. set (l2 := tick_state l1) in *. clearbody l2.
  change (l_core (upd_core (check_errors health) l2)) with (check_errors health (l_core l2)).
  destruct (check_errors_split health (l_core l2)) as (c1 & _ & [_ _ _ _ _ Q] & ->).
  destruct (react_spec c1) as (-> & _). apply (errors_grow_hard _ _ Q).
  apply estop_latches; [apply Hc|]. unfold estop_condition. by rewrite Hw, Hl, Hp.
Qed.

(** The level reported is the stable one. *)
Lemma reported_is_stable d r : db_stable (fst (debounce_update d r)) = Some (snd (debounce_update d r)).
Proof. unfold debounce_update. destruct (db_stable d) as [s|]; [|done]. destruct (Bool.eqb r (db_candidate d)); destruct (_ && _); done. Qed.

(** The loop as it is built: the core in BOOTING, the arrays at their length, the
    e-stop line never read. *)
Record loop_fresh l : Prop := mkFresh {
  lf_core : core_fresh (l_core l);
  lf_arrays : arrays_wf l;
  lf_line : l_estop l = debouncer_new;
}.

Lemma run_seeded raws : forall d, seeded d -> seeded (debounce_run d raws).
Proof. induction raws as [|r raws IH]; intros d Hd; [done|]. apply IH. by apply seeded_step. Qed.

Lemma run_app d a b : debounce_run d (a ++ b) = debounce_run (debounce_run d a) b.
Proof. apply fold_left_app. Qed.

(** Five low reads at the end of a history are believed, from the first on. *)
Lemma five_low raws : db_stable (debounce_run debouncer_new (raws ++ replicate 5 false)) = Some false.
Proof.
  destruct raws as [|r raws]; [vm_compute; reflexivity|]. rewrite run_app. apply debounce_never_late.
  assert (E : debounce_run debouncer_new (r :: raws) = debounce_run (mkDebouncer (Some r) r DEBOUNCE_READS) raws) by reflexivity.
  rewrite E. apply run_seeded. by exists r.
Qed.

Lemma all_low ins n : Forall (fun i => ti_estop_line i = false) ins -> length ins = n -> map ti_estop_line ins = replicate n false.
Proof.
  intros Hf <-. induction Hf as [|i ins Hi _ IH]; [done|]. cbn. by rewrite Hi, IH.
Qed.

Lemma low_window pre held r :
  held ++ [r] = replicate 5 false -> snd (estop_pressed (debounce_run debouncer_new (pre ++ held)) r) = true.
Proof.
  intros Hh. pose proof (five_low pre) as Hn. rewrite <- Hh, app_assoc in Hn. unfold debounce_run in Hn at 1.
  rewrite fold_left_app in Hn. cbn [fold_left] in Hn. rewrite reported_is_stable in Hn. injection Hn as Hn.
  unfold estop_pressed. fold (debounce_run debouncer_new (pre ++ held)) in Hn.
  destruct (debounce_update (debounce_run debouncer_new (pre ++ held)) r) as [d' level]. cbn [snd] in Hn |- *. by rewrite Hn.
Qed.

(** C2: from the pin to the frames: whatever the loop did before, an e-stop line held down for the debounce window (five
    ticks) stops the arm in the fifth of them.  That tick sends either no motor frame (the firmware bootloader's bus is
    silent) or one joint frame that commands every joint no speed and no current, or no current; the arm is disarmed and
    the torque slew starts again from zero.  Neither the commands that arrive in those ticks, nor what the bus delivers,
    nor the mode the loop is in can delay it. *)
Theorem held_estop_line_stops_the_arm {S : TickShapeLaws} pre held i l :
  loop_fresh l ->
  Forall (fun i => ti_estop_line i = false) (held ++ [i]) -> length held = 4%nat ->
  stopped_tick (loop_run (pre ++ held) l) (tick i (loop_run (pre ++ held) l)).
Proof.
  intros [Hf Hw Hd] Hline Hlen. destruct (run_wf (pre ++ held) l (fresh_inv _ Hf) Hw) as [Hi Hw'].
  apply hard_error_stops; [done|done|]. apply pressed_latches; [done|].
  rewrite run_estop, Hd, map_app. apply low_window. rewrite <- (all_low _ 5 Hline) by (rewrite length_app, Hlen; done).
  by rewrite map_app.
Qed.

(** C4: a tick with a hard error commands nothing: in any run of the loop, from any start and under any input, if the error
    checks of a tick leave a hard error latched (whichever of the drives, the link, the loop timing, a command or a box
    line it came from), that very tick sends either no motor frame (FLASHING) or one joint frame that commands every joint
    no speed and no current, or no current; it leaves the arm disarmed and the torque slew at zero. *)
Theorem hard_error_commands_nothing {S : TickShapeLaws} ins i l :
  loop_fresh l -> any_hard (c_errors (l_core (tick_checked i (loop_run ins l)))) = true ->
  stopped_tick (loop_run ins l) (tick i (loop_run ins l)).
Proof.
  intros [Hf Hw _] Ha. destruct (run_wf ins l (fresh_inv _ Hf) Hw) as [Hi Hw']. by apply hard_error_stops.
Qed.

End Held.
