(* ===== verification/RtTickMotion.v ===== *)
(** * RtTickMotion: what a tick sends and when it lets go
    (crates/par6-rt/src/core.rs)

    Every tick puts one frame set on the bus; the torque a joint is sent starts from
    zero after a stop; a released jog or stream is left for a hold only on evidence
    that the measured arm has stayed put, and is left once that evidence is there. *)
From Stdlib Require Import SpecFloat.
From stdpp Require Import relations.
From S2P Require Import Prelude F64 BusTypes Ring Joints RtState Gripper Gpio CoreState Core CoreSafety.
From S2P Require Import Convert Homing HomingSeq Dispatch SettlePolicy ExecTick LoopTiming RtLoop RtTick RtTickSteps RtTickFrames RtTickProps.

Section Motion.
Context `{T : TickDeps}.
Implicit Types (l : RtLoop) (c : RtCore).

(** ** One frame set a tick *)


(** ** Torque starts from zero *)

Definition stopped_mode (m : Mode) : bool := mode_in m [Flashing; Homing; ActiveError; SafetyStop].

(** The slew's budgets: a step is a range around zero on every joint. *)
Definition budgets_wf l : Prop :=
  forall j, (j < MAX_JOINTS)%nat ->
  f64_le (f64_neg (ts_max_step (l_torque_slew l) !!! j)) (ts_max_step (l_torque_slew l) !!! j) = true.

Lemma homing_slew l : c_mode (l_core l) = Homing -> l_torque_slew (dispatch_and_send l) = slew_reset (l_torque_slew l).
Proof.
  intros Hh. destruct (homing_frames l Hh) as (g & [_ K1 _ _ _ _ _ _ _]). destruct (fill_fields (exec_idle l)) as (_ & E & _).
  by rewrite K1, sent_slew, E, (kp_slew _ _ (proj1 (exec_idle_keeps l))).
Qed.

Lemma stopped_slew l : arrays_wf l -> stopped_mode (c_mode (l_core l)) = true ->
  ts_applied (l_torque_slew (dispatch_and_send l)) = joint_zeros.
Proof.
  intros Hw Hm. destruct (decide (c_mode (l_core l) = Flashing)) as [Hf|Hf]; [by destruct (flashing_frames l Hf) as (_ & -> & _)|].
  destruct (decide (c_mode (l_core l) = Homing)) as [Hh|Hh]; [by rewrite homing_slew|].
  apply protective_dispatch; [done|]. by destruct (c_mode (l_core l)).
Qed.

Lemma commit_slew l : arrays_wf l -> ts_max_step (l_torque_slew (commit_tick l)) = ts_max_step (l_torque_slew l).
Proof. intros Hw. apply (commit_keeps_wf (l_setpoints l) (l_conv l) (l_torque_ma_factor l) _ _ Hw). Qed.

(** The joint's law before the commit. *)
Lemma law_arrays l : arrays_wf l -> arrays_wf (mode_law (exec_idle l)) /\ l_torque_slew (mode_law (exec_idle l)) = l_torque_slew l.
Proof.
  intros Hw. assert (K : keeps l (mode_law (exec_idle l))) by (transitivity (exec_idle l); [apply exec_idle_keeps|apply keeps_law]).
  split; [|apply K]. unfold arrays_wf. by rewrite (kept_arrays _ _ (keeps_sends _ _ K)).
Qed.

Lemma dispatch_budget l : arrays_wf l -> ts_max_step (l_torque_slew (dispatch_and_send l)) = ts_max_step (l_torque_slew l).
Proof.
  intros Hw. destruct (decide (c_mode (l_core l) = Flashing)) as [Hf|Hf]; [by destruct (flashing_frames l Hf) as (_ & -> & _)|].
  destruct (decide (c_mode (l_core l) = Homing)) as [Hh|Hh]; [by rewrite homing_slew|].
  destruct (law_frames l Hf Hh) as (g & [_ K _ _ _ _ _ _ _] & _). rewrite K. destruct (law_arrays l Hw) as [Hw2 Es]. rewrite <- Es.
  rewrite sent_slew. by apply commit_slew.
Qed.

Lemma tick_slew i l : l_torque_slew (tick i l) = l_torque_slew (dispatch_and_send (tick_checked i l)) /\
  l_torque_slew (tick_checked i l) = l_torque_slew l.
Proof.
  split; [apply clear_fields|]. pose proof (checked_arrays i l) as E. unfold arrays_of in E. by injection E.
Qed.

Lemma rest_mode q c : c_mode (rest_into_hold q c) = Idle \/ c_mode (rest_into_hold q c) = Exec.
Proof. unfold rest_into_hold. cbv zeta. destruct (negb _); [by left|by right]. Qed.

(** A law never turns into a protective one. *)
Lemma release_mode released still q l :
  c_mode (l_core (rest_release released still q l)) = c_mode (l_core l) \/
  (released && still && at_measured_rest l = true /\
   (c_mode (l_core (rest_release released still q l)) = Idle \/ c_mode (l_core (rest_release released still q l)) = Exec)).
Proof.
  unfold rest_release. destruct (_ && at_measured_rest l); [|by left]. right. split; [done|].
  exact (rest_mode q (l_core l)).
Qed.

(** What the stream's law reads and leaves of the mode and the release flag. *)
Record stream_kept c c' : Prop := mkStreamKept {
  st_mode : c_mode c' = c_mode c;
  st_released : c_stream_released c' = c_stream_released c;
}.

#[export] Instance stream_kept_preorder : PreOrder stream_kept.
Proof.
  split.
  - intros c. by constructor.
  - intros a b c [] []. constructor; congruence.
Qed.

Lemma stream_kept_live t c : stream_kept c (put_live t c).
Proof. unfold put_live. destruct (c_stream_is_shaped c); by constructor. Qed.

Lemma stream_kept_filtered q l : stream_kept (l_core l) (l_core (fst (filtered_target q l))).
Proof. unfold filtered_target. destruct (f64_eqb _ _); by constructor. Qed.

Lemma stream_kept_handover sp l : stream_kept (l_core l) (l_core (stream_handover sp l)).
Proof. unfold stream_handover. cbv zeta. destruct (Bool.eqb _ _); [|destruct (sp_shaped sp)]; by constructor. Qed.

Lemma stream_kept_apply sp l : stream_kept (l_core l) (l_core (stream_apply sp l)).
Proof.
  unfold stream_apply. cbv zeta. etransitivity; [apply (stream_kept_handover sp l)|]. generalize (stream_handover sp l). clear l. intros l.
  set (l2 := if scale_differs _ _ then _ else l).
  transitivity (l_core l2); [subst l2; destruct (scale_differs _ _); [apply stream_kept_live|reflexivity]|]. clearbody l2.
  set (l3 := upd_core (set_q_target (sp_q sp)) l2). transitivity (l_core l3); [by constructor|]. clearbody l3.
  destruct (sp_shaped sp).
  - etransitivity; [apply (stream_kept_live (track_set_target (live_tracker (l_core l3)) (sp_q sp)))|]. by constructor.
  - pose proof (stream_kept_filtered (sp_q sp) l3) as H. destruct (filtered_target _ _) as [l4 target]. cbn [fst] in H.
    transitivity (l_core l4); [done|].
    etransitivity; [apply (stream_kept_live (track_set_target (live_tracker (l_core l4)) target))|]. by constructor.
Qed.

Lemma stream_kept_intake l : stream_kept (l_core l) (l_core (fst (stream_intake l))).
Proof.
  unfold stream_intake. cbv zeta. set (l1 := upd_core (set_stream_rx None) l).
  transitivity (l_core l1); [by constructor|]. destruct (c_stream_released (l_core l)); [reflexivity|].
  destruct (c_stream_rx (l_core l)) as [sp|]; [apply stream_kept_apply|]. destruct (negb _ && _); [|reflexivity].
  pose proof (stream_kept_filtered (c_q_target (l_core l)) l1) as H. destruct (filtered_target _ _) as [l2 target]. cbn [fst] in H.
  transitivity (l_core l2); [done|]. by constructor.
Qed.

Lemma stream_kept_window b l : stream_kept (l_core l) (l_core (stream_window b l)).
Proof. unfold stream_window. cbv zeta. destruct (_ >=? _); by constructor. Qed.

Lemma stream_kept_track l : let '(l', _, _) := stream_track l in stream_kept (l_core l) (l_core l').
Proof.
  unfold stream_track. destruct (track_step _) as [[t q] qd]. cbv zeta. set (l3 := upd_core _ _).
  assert (H3 : stream_kept (l_core l) (l_core l3)).
  { etransitivity; [apply (stream_kept_live t)|]. by constructor. }
  clearbody l3. transitivity (l_core l3); [done|]. destruct (track_faulted _); by constructor.
Qed.

Lemma rest_kept_measured l l' : keeps l l' -> at_measured_rest l' = at_measured_rest l.
Proof. intros []. unfold at_measured_rest. congruence. Qed.

(** A law leaves its mode only from a released JOG or STREAM whose arm is measured at
    rest, and only for a hold or IDLE. *)
Definition hands_over l l' : Prop :=
  mode_in (c_mode (l_core l')) [Idle; Exec] = true /\ at_measured_rest l = true /\
  match c_mode (l_core l) with
  | Jog => c_jog_released (l_core l) = true
  | Stream => c_stream_released (l_core l) = true
  | _ => False
  end.

Lemma release_hands_over released still q l l0 :
  keeps l0 l -> c_mode (l_core l) = c_mode (l_core l0) ->
  (released = true -> match c_mode (l_core l0) with
   | Jog => c_jog_released (l_core l0) = true | Stream => c_stream_released (l_core l0) = true | _ => False end) ->
  c_mode (l_core (rest_release released still q l)) = c_mode (l_core l0) \/ hands_over l0 (rest_release released still q l).
Proof.
  intros Hk Hm Hr. destruct (release_mode released still q l) as [E|(E & E')]; [left; congruence|right].
  apply andb_true_iff in E as [E E3]. apply andb_true_iff in E as [E1 E2].
  split; [by destruct E' as [-> | ->]|]. split; [by rewrite <- (rest_kept_measured _ _ Hk)|by apply Hr].
Qed.

Lemma jog_mode l : c_mode (l_core l) = Jog -> c_mode (l_core (jog_law l)) = Jog \/ hands_over l (jog_law l).
Proof.
  intros Hm. unfold jog_law. rewrite <- Hm.
  assert (H : let '(l', _, _) := jog_drive l in keeps l l' /\ c_mode (l_core l') = c_mode (l_core l) /\ c_jog_released (l_core l') = c_jog_released (l_core l)).
  { unfold jog_drive. destruct (jog_tick _ _) as [[[engine q] qd] blocked]. split; [by constructor|by split]. }
  destruct (jog_drive l) as [[l1 q] qd]. destruct H as (K & M & R). cbv zeta.
  set (l2 := lput_setpoints _ l1). assert (K2 : keeps l1 l2 /\ c_mode (l_core l2) = c_mode (l_core l1) /\ c_jog_released (l_core l2) = c_jog_released (l_core l1)).
  { split; [apply keeps_setpoints|by split]. }
  clearbody l2. destruct K2 as (K2 & M2 & R2). apply release_hands_over; [by transitivity l1|congruence|].
  rewrite Hm. intros Hr. congruence.
Qed.

Lemma stream_mode l : c_mode (l_core l) = Stream -> c_mode (l_core (stream_law l)) = Stream \/ hands_over l (stream_law l).
Proof.
  intros Hm. unfold stream_law. rewrite <- Hm. pose proof (keeps_intake l) as K1. pose proof (stream_kept_intake l) as [M1 R1].
  destruct (stream_intake l) as [l1 applied]. cbn [fst] in *.
  pose proof (keeps_window applied l1) as K2. pose proof (stream_kept_window applied l1) as [M2 R2].
  set (l2 := stream_window applied l1) in *. clearbody l2.
  pose proof (keeps_track l2) as K3. pose proof (stream_kept_track l2) as H3. destruct (stream_track l2) as [[l3 q] qd].
  destruct H3 as [M3 R3]. cbv zeta. set (l4 := lput_setpoints _ l3).
  assert (K4 : keeps l3 l4 /\ c_mode (l_core l4) = c_mode (l_core l3) /\ c_stream_released (l_core l4) = c_stream_released (l_core l3)).
  { split; [apply keeps_setpoints|by split]. }
  clearbody l4. destruct K4 as (K4 & M4 & R4). apply release_hands_over; [by transitivity l3; [transitivity l2; [transitivity l1|]|]|congruence|].
  rewrite Hm. intros Hr. congruence.
Qed.

Lemma exec_mode l : c_mode (l_core (exec_law l)) = c_mode (l_core l).
Proof.
  unfold exec_law. pose proof (exec_play_measured l) as H1. destruct (exec_play l) as [[l1 out] outcome]. cbv zeta.
  rewrite setpoints_core. destruct H1 as [M _ _ _ _ _]. rewrite <- M. by destruct outcome.
Qed.

Lemma law_mode l : c_mode (l_core (mode_law l)) = c_mode (l_core l) \/ hands_over l (mode_law l).
Proof.
  unfold mode_law. destruct (c_mode (l_core l)) eqn:Em; try (left; rewrite setpoints_core; exact Em).
  - rewrite <- Em. destruct (jog_mode l Em); [left; congruence|by right].
  - destruct (stream_mode l Em); [by left|by right].
  - left. by rewrite exec_mode.
Qed.

(** The torque a joint's slew holds: none, not a number, or one step from zero. *)
Definition one_step l (j : nat) : Prop :=
  let a := ts_applied (l_torque_slew l) !!! j in
  let max := ts_max_step (l_torque_slew l) !!! j in
  a = f64_0 \/ f64_is_nan a = true \/ (f64_le (f64_neg max) a = true /\ f64_le a max = true).

Lemma committed_step l j :
  arrays_wf l -> budgets_wf l -> ts_applied (l_torque_slew l) = joint_zeros ->
  mode_in (c_mode (l_core l)) [ActiveError; SafetyStop] = false -> (j < MAX_JOINTS)%nat -> one_step (commit_tick l) j.
Proof.
  intros Hw Hb Hz Hm Hj. pose proof (commit_row (l_setpoints l) (l_conv l) (l_torque_ma_factor l) true (arrays_of l) j Hw Hj) as E.
  unfold one_step. rewrite (commit_slew l Hw). unfold commit_tick. rewrite Hm. cbn [negb]. fold (arrays_of l).
  cbn [l_torque_slew lput_torque_slew]. cbv zeta in E. apply (f_equal (fun r => fst (fst r))) in E. unfold row in E. cbn [fst] in E.
  set (ct := commit _ _ _ _ _) in *. clearbody ct.
  assert (Ha : forall x, ts_applied (ct_slew ct) !! j = Some x -> ts_applied (ct_slew ct) !!! j = x) by (intros x; apply list_lookup_total_correct).
  apply Ha in E. rewrite E. clear Ha E. unfold commit_torque. destruct (js_torque_nm _) as [want|]; [|by left].
  cbn [slew_step snd fst default from_option id]. right.
  assert (H0 : ts_applied (l_torque_slew l) !!! j = f64_0) by (rewrite Hz; by apply lookup_total_replicate_2).
  destruct (f64_is_nan want) eqn:En; [left; by apply nan_stays_nan|right]. by apply limited_from_zero; [apply Hb| |].
Qed.

(** ** The rest window through a tick *)

Record rest_kept l l' : Prop := mkRestKept {
  rk_ref : l_release_rest_ref l' = l_release_rest_ref l;
  rk_streak : l_release_rest_streak l' = l_release_rest_streak l;
  rk_generation : l_release_rest_generation l' = l_release_rest_generation l;
  rk_needed : l_release_rest_needed l' = l_release_rest_needed l;
}.

#[export] Instance rest_kept_preorder : PreOrder rest_kept.
Proof.
  split.
  - intros l. by constructor.
  - intros a b c [] []. constructor; congruence.
Qed.

Lemma keeps_rest l l' : keeps l l' -> rest_kept l l'.
Proof. intros []. by constructor. Qed.

Lemma sent_rest evs l : rest_kept l (sent_all evs l).
Proof. by constructor. Qed.

Lemma commit_rest l : rest_kept l (commit_tick l).
Proof. by constructor. Qed.

Lemma clear_rest l : rest_kept l (clear_tick l).
Proof. by constructor. Qed.

Lemma checks_rest health l : rest_kept l (upd_core (check_errors health) l).
Proof. by constructor. Qed.

Lemma fed_rest i l : rest_kept l (fed_estop i l).
Proof. by constructor. Qed.

Lemma flashing_rest l : rest_kept l (lput_torque_slew (slew_reset (l_torque_slew l)) (lput_mirror mirror_default l)).
Proof. by constructor. Qed.

Lemma external_rest l : rest_kept l (external_torque l).
Proof. by constructor. Qed.

Lemma dispatch_rest l : rest_kept l (dispatch_and_send l).
Proof.
  destruct (decide (c_mode (l_core l) = Flashing)) as [Hf|Hf].
  { unfold dispatch_and_send. cbv zeta. destruct (exec_idle_keeps l) as [K E]. rewrite E, Hf.
    change (mode_eqb Flashing Flashing) with true. cbv iota. transitivity (exec_idle l); [by apply keeps_rest|apply flashing_rest]. }
  destruct (decide (c_mode (l_core l) = Homing)) as [Hh|Hh].
  { destruct (homing_frames l Hh) as [g K]. etransitivity; [|apply (keeps_rest _ _ K)]. etransitivity; [|apply sent_rest].
    transitivity (exec_idle l); [apply keeps_rest, exec_idle_keeps|].
    destruct (fill_fields (exec_idle l)) as (_ & _ & _ & _ & _ & ? & ? & ? & ?). by constructor. }
  destruct (law_frames l Hf Hh) as (g & K & _). etransitivity; [|apply (keeps_rest _ _ K)]. etransitivity; [|apply sent_rest].
  etransitivity; [|apply commit_rest]. apply keeps_rest. transitivity (exec_idle l); [apply exec_idle_keeps|apply keeps_law].
Qed.

(** What the arm reads in a tick, before the rest window judges it. *)
Definition measured_in (i : TickInput) l : RtLoop := measure (fst (tick_intake i l)).

Lemma measured_rest i l : rest_kept l (measured_in i l).
Proof.
  unfold measured_in. destruct (intake_frames i l) as (outs & _ & K). etransitivity; [|apply keeps_rest, keeps_measure].
  etransitivity; [|apply (keeps_rest _ _ K)]. etransitivity; [|apply sent_rest]. apply fed_rest.
Qed.

Lemma checked_rest i l : rest_kept (rest_window (measured_in i l)) (tick_checked i l).
Proof.
  unfold tick_checked, measured_in. destruct (tick_intake i l) as [l1 health]. cbn [fst].
  etransitivity; [|apply checks_rest]. unfold tick_state, drain_and_derive. etransitivity; [|apply external_rest].
  apply keeps_rest, gravity_keeps.
Qed.

Lemma tick_rest i l : rest_kept (rest_window (measured_in i l)) (tick i l).
Proof.
  unfold tick. transitivity (tick_checked i l); [apply checked_rest|]. etransitivity; [|apply clear_rest]. apply dispatch_rest.
Qed.

(** A reading on which the window counts: inside the band of where it started, and new
    on every joint. *)
Definition still m : bool := rest_held m && rest_fresh m.

Lemma window_streak m : l_release_rest_needed (rest_window m) = l_release_rest_needed m /\
  if still m then l_release_rest_ref (rest_window m) = l_release_rest_ref m /\
                  l_release_rest_streak (rest_window m) = saturating_add 32 (l_release_rest_streak m) 1
  else l_release_rest_streak (rest_window m) = 0.
Proof.
  unfold rest_window, still. cbv zeta. destruct (rest_held m), (rest_fresh m); by split.
Qed.

(** The readings of a run, one a tick. *)
Fixpoint readings (ins : list TickInput) l : list RtLoop :=
  match ins with
  | [] => []
  | i :: ins => measured_in i l :: readings ins (tick i l)
  end.

Lemma readings_snoc ins i : forall l, readings (ins ++ [i]) l = readings ins l ++ [measured_in i (loop_run ins l)].
Proof.
  induction ins as [|x ins IH]; intros l; [done|]. cbn [readings app]. rewrite IH. reflexivity.
Qed.

Lemma run_snoc ins i l : loop_run (ins ++ [i]) l = tick i (loop_run ins l).
Proof. unfold loop_run. by rewrite fold_left_app. Qed.

(** The arm stayed still for the last [n] readings: each new on every joint and inside
    the band of one pose. *)
Definition stood_still (n : Z) (ms : list RtLoop) : Prop :=
  exists moved held pose, ms = moved ++ held /\ n <= Z.of_nat (length held) /\
    Forall (fun m => l_release_rest_ref m = pose /\ still m = true) held.

Definition streak_ok l (ms : list RtLoop) : Prop :=
  exists moved held, ms = moved ++ held /\ 0 <= l_release_rest_streak l <= Z.of_nat (length held) /\
    Forall (fun m => l_release_rest_ref m = l_release_rest_ref l /\ still m = true) held.

Lemma window_ok m ms : streak_ok m ms -> streak_ok (rest_window m) (ms ++ [m]).
Proof.
  intros (moved & held & -> & Hs & Hh). destruct (window_streak m) as [_ W]. destruct (still m) eqn:E.
  - destruct W as [Wr Ws]. exists moved, (held ++ [m]). rewrite Ws, Wr. split; [by rewrite <- app_assoc|].
    unfold saturating_add. rewrite length_app. cbn [length]. split; [lia|]. apply Forall_app. split; [done|]. by constructor.
  - exists (moved ++ held ++ [m]), []. rewrite W, app_nil_r. split; [by rewrite <- app_assoc|]. cbn. split; [lia|constructor].
Qed.

Lemma streak_kept l l' ms : rest_kept l l' -> streak_ok l ms -> streak_ok l' ms.
Proof. intros [E1 E2 _ _] (moved & held & H & Hs & Hh). exists moved, held. rewrite E1, E2. split; [exact H|]. split; [exact Hs|exact Hh]. Qed.

Lemma run_streak ins l : l_release_rest_streak l = 0 -> streak_ok (loop_run ins l) (readings ins l) /\
  l_release_rest_needed (loop_run ins l) = l_release_rest_needed l.
Proof.
  intros H0. induction ins as [|i ins IH] using rev_ind.
  { split; [|done]. exists [], []. split; [done|]. cbn. rewrite H0. split; [lia|constructor]. }
  rewrite run_snoc, readings_snoc. destruct IH as [IH En]. pose proof (measured_rest i (loop_run ins l)) as Hm.
  pose proof (tick_rest i (loop_run ins l)) as Ht. split.
  - apply (streak_kept _ _ _ Ht), window_ok, (streak_kept _ _ _ Hm), IH.
  - rewrite (rk_needed _ _ Ht), (proj1 (window_streak _)), (rk_needed _ _ Hm). exact En.
Qed.

End Motion.

(** ** The guarantees *)

Section Guarantees.
Context `{T : TickDeps} {BL : BusSilenceLaws} {L : TickSilenceLaws}.
Implicit Types (l : RtLoop) (c : RtCore).

(** After the law nothing of a dispatch moves the mode. *)
Lemma dispatch_mode l : c_mode (l_core l) <> Flashing -> c_mode (l_core l) <> Homing ->
  c_mode (l_core (dispatch_and_send l)) = c_mode (l_core (mode_law (exec_idle l))).
Proof.
  intros Hf Hh. unfold dispatch_and_send. cbv zeta. destruct (exec_idle_keeps l) as [_ Em].
  set (l1 := exec_idle l) in *. clearbody l1.
  destruct (mode_eqb (c_mode (l_core l1)) Flashing) eqn:Ef; [apply mode_eqb_spec in Ef; congruence|].
  destruct (mode_eqb (c_mode (l_core l1)) Homing) eqn:Eh; [apply mode_eqb_spec in Eh; congruence|].
  set (l2 := mode_law l1). clearbody l2.
  apply (ms_mode (l_core l2)). etransitivity; [apply commit_measured|]. etransitivity; [apply send_joints_measured|].
  etransitivity; [apply gripper_slot_measured|]. apply poll_slot_measured.
Qed.

Lemma idle_rest l : hands_over (exec_idle l) (mode_law (exec_idle l)) -> hands_over l (mode_law (exec_idle l)).
Proof.
  unfold hands_over. intros (H1 & H2 & H3). split; [exact H1|].
  rewrite <- (rest_kept_measured l (exec_idle l)) by apply exec_idle_keeps. split; [exact H2|]. clear H1 H2.
  revert H3. rewrite (proj2 (exec_idle_keeps l)). unfold exec_idle. destruct (mode_eqb _ _); exact (fun x => x).
Qed.

(** Torque starts from zero: after a tick whose mode commands none (FLASHING, HOMING, ACTIVE_ERROR, SAFETY_STOP), the
    torque the next tick sends a joint is none, one slew step from zero at most, or not a number (which goes out as no
    current), whatever mode that tick is in, whatever torque its law wants and whatever was sent before the stop: a cleared
    error or a finished homing never restores a standing torque at once. *)
Lemma torque_starts_from_zero {S : TickShapeLaws} i1 i2 l j :
  arrays_wf l -> budgets_wf l -> stopped_mode (c_mode (l_core (tick_checked i1 l))) = true -> (j < MAX_JOINTS)%nat ->
  one_step (tick i2 (tick i1 l)) j.
Proof.
  intros Hw Hb Hm Hj. destruct (tick_slew i1 l) as [E1 E1']. set (l1 := tick_checked i1 l) in *.
  assert (Hw1 : arrays_wf l1) by (unfold arrays_wf, l1; by rewrite checked_arrays).
  pose proof (stopped_slew l1 Hw1 Hm) as Hz. pose proof (dispatch_budget l1 Hw1) as Hmax.
  rewrite <- E1 in Hz, Hmax. rewrite E1' in Hmax. clear Hm E1 E1' Hw1. clearbody l1.
  pose proof (tick_arrays i1 l Hw) as Hw2. set (l2 := tick i1 l) in *. clearbody l2.
  destruct (tick_slew i2 l2) as [E2 E2']. set (l3 := tick_checked i2 l2) in *.
  assert (Hw3 : arrays_wf l3) by (unfold arrays_wf, l3; by rewrite checked_arrays). clearbody l3.
  unfold one_step. rewrite E2. clear E2.
  destruct (stopped_mode (c_mode (l_core l3))) eqn:Hm3.
  { left. rewrite stopped_slew by done. by apply lookup_total_replicate_2. }
  assert (Hf : c_mode (l_core l3) <> Flashing) by (intros E; by rewrite E in Hm3).
  assert (Hh : c_mode (l_core l3) <> Homing) by (intros E; by rewrite E in Hm3).
  destruct (law_frames l3 Hf Hh) as (g & [_ K _ _ _ _ _ _ _] & _). rewrite K, sent_slew. clear K.
  destruct (law_arrays l3 Hw3) as [Hw4 E4]. apply committed_step; [done| | | |done].
  - intros k Hk. rewrite E4, E2', Hmax. by apply Hb.
  - by rewrite E4, E2'.
  - destruct (law_mode (exec_idle l3)) as [E|(E & _ & _)].
    + rewrite E, (proj2 (exec_idle_keeps l3)). by destruct (c_mode (l_core l3)).
    + by destruct (c_mode (l_core (mode_law (exec_idle l3)))).
Qed.


(** The streak counts up through readings on which the arm is still. *)
Lemma streak_counts ins : forall l, 0 <= l_release_rest_streak l < 2 ^ 32 -> Forall (fun m => still m = true) (readings ins l) ->
  l_release_rest_streak (loop_run ins l) = Z.min (l_release_rest_streak l + Z.of_nat (length ins)) (2 ^ 32 - 1).
Proof.
  induction ins as [|i ins IH]; intros l Hr Hs; [cbn; lia|]. cbn [readings] in Hs. apply Forall_cons in Hs as [Hm Hs].
  assert (E : l_release_rest_streak (tick i l) = Z.min (l_release_rest_streak l + 1) (2 ^ 32 - 1)).
  { rewrite (rk_streak _ _ (tick_rest i l)). destruct (window_streak (measured_in i l)) as [_ W]. rewrite Hm in W.
    destruct W as [_ ->]. by rewrite (rk_streak _ _ (measured_rest i l)). }
  change (loop_run (i :: ins) l) with (loop_run ins (tick i l)). rewrite IH; [|rewrite E; lia|exact Hs].
  rewrite E. cbn [length]. lia.
Qed.

Lemma check_clean i l : c_mode (l_core (tick_checked i l)) = Jog -> any_hard (c_errors (l_core (tick_checked i l))) = false.
Proof.
  unfold tick_checked. destruct (tick_intake i l) as [l1 health]. set (l2 := tick_state l1). clearbody l2.
  change (l_core (upd_core (check_errors health) l2)) with (check_errors health (l_core l2)).
  destruct (check_errors_split health (l_core l2)) as (c1 & _ & _ & ->). destruct (react_spec c1) as (-> & -> & _).
  destruct (any_hard (c_errors c1)); [|done]. destruct (mode_in _ _) eqn:E; [|done]. intros Em. by rewrite Em in E.
Qed.

(** A released jog whose engine has stopped, on an arm at rest, ends. *)
Definition jog_stopped c : Prop :=
  let '(_, _, qd, _) := jog_tick (c_jog c) (c_q c) in forallb (fun v => f64_eqb v f64_0) qd = true.

Lemma rest_hold_mode q c : any_hard (c_errors c) = false ->
  c_mode (rest_into_hold q c) = if c_homed c && bool_decide (c_state c = Enabled) then Exec else Idle.
Proof.
  intros Ha. unfold rest_into_hold. cbv zeta. rewrite Ha, andb_true_r. by destruct (c_homed c && _).
Qed.

Lemma jog_drive_kept l : let '(l1, _, qd) := jog_drive l in
  at_measured_rest l1 = at_measured_rest l /\ c_jog_released (l_core l1) = c_jog_released (l_core l) /\
  c_homed (l_core l1) = c_homed (l_core l) /\ c_state (l_core l1) = c_state (l_core l) /\ c_errors (l_core l1) = c_errors (l_core l) /\
  (jog_stopped (l_core l) -> forallb (fun v => f64_eqb v f64_0) qd = true).
Proof. unfold jog_drive, jog_stopped. destruct (jog_tick _ _) as [[[engine q] qd] blocked]. cbv zeta. by split_and!. Qed.

Lemma jog_hands_over l : c_jog_released (l_core l) = true -> jog_stopped (l_core l) -> at_measured_rest l = true ->
  any_hard (c_errors (l_core l)) = false ->
  c_mode (l_core (jog_law l)) = if c_homed (l_core l) && bool_decide (c_state (l_core l) = Enabled) then Exec else Idle.
Proof.
  intros Hr Hj Hs Ha. unfold jog_law. pose proof (jog_drive_kept l) as H. destruct (jog_drive l) as [[l1 q] qd].
  destruct H as (E1 & E2 & E3 & E4 & E5 & Hq). specialize (Hq Hj). cbv zeta.
  set (l2 := lput_setpoints _ l1). assert (E : at_measured_rest l2 = at_measured_rest l1 /\ l_core l2 = l_core l1) by by split.
  destruct E as [F1 F2]. clearbody l2. unfold rest_release. rewrite F2, E2, Hr, Hq, F1, E1, Hs. cbn [andb].
  change (l_core (upd_core (rest_into_hold q) l2)) with (rest_into_hold q (l_core l2)). rewrite F2, <- E3, <- E4. clear F2.
  apply rest_hold_mode. congruence.
Qed.

Lemma idle_jog l : c_mode (l_core l) = Jog ->
  let l1 := exec_idle l in
  c_jog_released (l_core l1) = c_jog_released (l_core l) /\ (jog_stopped (l_core l) -> jog_stopped (l_core l1)) /\
  at_measured_rest l1 = at_measured_rest l /\ c_errors (l_core l1) = c_errors (l_core l) /\ c_homed (l_core l1) = c_homed (l_core l) /\
  c_state (l_core l1) = c_state (l_core l).
Proof. intros Hm. cbv zeta. unfold exec_idle. destruct (mode_eqb _ _); by split_and!. Qed.

Lemma jog_dispatch_ends l : c_mode (l_core l) = Jog -> c_jog_released (l_core l) = true -> jog_stopped (l_core l) ->
  at_measured_rest l = true -> any_hard (c_errors (l_core l)) = false ->
  c_mode (l_core (dispatch_and_send l)) = if c_homed (l_core l) && bool_decide (c_state (l_core l) = Enabled) then Exec else Idle.
Proof.
  intros Hm Hr Hj Hs Ha. rewrite dispatch_mode by (by rewrite Hm).
  destruct (idle_jog l Hm) as (E1 & E2 & E3 & E4 & E5 & E6). pose proof (proj2 (exec_idle_keeps l)) as Em.
  set (l1 := exec_idle l) in *. clearbody l1. rewrite <- E5, <- E6. unfold mode_law. rewrite Em, Hm.
  apply jog_hands_over; [congruence|by apply E2|congruence|congruence].
Qed.

Lemma run_needed ins : forall l, l_release_rest_needed (loop_run ins l) = l_release_rest_needed l.
Proof.
  induction ins as [|i ins IH]; intros l; [done|]. change (loop_run (i :: ins) l) with (loop_run ins (tick i l)). rewrite IH.
  by rewrite (rk_needed _ _ (tick_rest i l)), (proj1 (window_streak _)), (rk_needed _ _ (measured_rest i l)).
Qed.

(** And it is let go: once the arm has stood still for [release_rest_needed] readings, a released JOG whose ramp has run
    down to zero on every joint ends in that very tick: in a hold (EXEC) when the arm is homed and armed, in IDLE otherwise. *)
Lemma released_jog_comes_to_rest ins i l :
  let checked := tick_checked i (loop_run ins l) in
  0 <= l_release_rest_streak l < 2 ^ 32 -> l_release_rest_needed l < 2 ^ 32 ->
  l_release_rest_needed l <= Z.of_nat (length (ins ++ [i])) -> Forall (fun m => still m = true) (readings (ins ++ [i]) l) ->
  c_mode (l_core checked) = Jog -> c_jog_released (l_core checked) = true -> jog_stopped (l_core checked) ->
  c_mode (l_core (tick i (loop_run ins l))) =
    if c_homed (l_core checked) && bool_decide (c_state (l_core checked) = Enabled) then Exec else Idle.
Proof.
  cbv zeta. intros Hr Hn Hlen Hs Hm Hrel Hqd. pose proof (streak_counts (ins ++ [i]) l Hr Hs) as Ek.
  pose proof (run_needed (ins ++ [i]) l) as En. rewrite run_snoc in Ek, En.
  pose proof (check_clean i (loop_run ins l) Hm) as Ha.
  pose proof (tick_rest i (loop_run ins l)) as Ht. pose proof (checked_rest i (loop_run ins l)) as Hc.
  unfold tick at 1. destruct (clear_fields (dispatch_and_send (tick_checked i (loop_run ins l)))) as (_ & _ & _ & _ & -> & _).
  apply jog_dispatch_ends; [done|done|done| |done]. unfold at_measured_rest.
  rewrite (rk_needed _ _ Hc), <- (rk_needed _ _ Ht), En, (rk_streak _ _ Hc), <- (rk_streak _ _ Ht), Ek. lia.
Qed.

End Guarantees.
