(* ===== verification/RtThread.v ===== *)
(** * RtThread: the thread around the tick (crates/par6-rt/src/rt.rs)

    The absolute-deadline pacing of [RtCore::run], the deliberate exit
    [shutdown_stop_paced] and the priority to ask for.  The clock is a list of
    readings; what the ticks of the exit read from outside is a function of their
    number.  The theorems: a loop in time never drifts and a late one never bursts;
    the exit takes a bounded number of ticks and its last frame idles the drives. *)
From Stdlib Require Import SpecFloat.
From stdpp Require Import relations.
From S2P Require Import Prelude F64 BusTypes Ring Joints RtState Gripper Gpio CoreState Core CoreSafety.
From S2P Require Import Convert Homing HomingSeq Dispatch SettlePolicy ExecTick LoopTiming RtLoop RtTick RtTickSteps RtTickFrames RtTickProps.

Definition permitted_priority (asked : Z) (ceiling : option Z) : Z :=
  match ceiling with
  | Some ceiling => if ceiling <? asked then ceiling else asked
  | None => asked
  end.

(** ** Pacing *)

Definition f64_1e9 : f64 := 0x41CDCD6500000000.
Definition f64_1e_9_s : f64 := 0x3E112E0BE826D695.

(** [(dt * 1e9).round() as u64]. *)
Definition period_ns (dt : f64) : Z := sf_round_as_uint 64 (f64_to_SF (dt *! f64_1e9)).

Record Pace := mkPace { pc_deadline : Z; pc_last_wake : Z; pc_overrun : bool }.

(** The schedule anchored at the first reading of the clock. *)
Definition pace_new (now : Z) : Pace := mkPace now 0 false.

(** The period fed to the tick. *)
Definition pace_period (dt : f64) (wake : Z) (p : Pace) : f64 :=
  if pc_last_wake p =? 0 then dt else f64_of_int (saturating_sub wake (pc_last_wake p)) *! f64_1e_9_s.

(** One turn: the clock at the wake and after the tick; [Some] is the deadline slept to. *)
Definition pace_turn (dt_ns wake now : Z) (p : Pace) : Pace * option Z :=
  let deadline := pc_deadline p + dt_ns in
  if now >=? deadline then (mkPace now wake true, None) else (mkPace deadline wake false, Some deadline).

Fixpoint pace_run (dt_ns : Z) (clock : list (Z * Z)) (p : Pace) : Pace * list (option Z) :=
  match clock with
  | [] => (p, [])
  | (wake, now) :: clock =>
      let '(p, slept) := pace_turn dt_ns wake now p in
      let '(p, rest) := pace_run dt_ns clock p in (p, slept :: rest)
  end.

(** The clock of a turn is read in order, and a sleep does not end early. *)
Definition turn_ok (from : option Z) (turn : Z * Z) : Prop :=
  fst turn <= snd turn /\ match from with Some deadline => deadline <= fst turn | None => True end.

Fixpoint pace_clock_ok (dt_ns : Z) (clock : list (Z * Z)) (p : Pace) (from : option Z) : Prop :=
  match clock with
  | [] => True
  | turn :: clock =>
      turn_ok from turn /\ let '(p, slept) := pace_turn dt_ns (fst turn) (snd turn) p in pace_clock_ok dt_ns clock p slept
  end.

(** Deadlines are a period apart at least: after a late turn the schedule starts again
    from the clock, so lost time is never made up by a burst of ticks. *)
Lemma deadlines_apart dt_ns wake now p : 0 <= dt_ns ->
  let p' := fst (pace_turn dt_ns wake now p) in
  pc_deadline p + dt_ns <= pc_deadline p' /\ (pc_overrun p' = true -> pc_deadline p' = now) /\
  (pc_overrun p' = false -> now < pc_deadline p').
Proof.
  intros Hdt. cbv zeta. unfold pace_turn. destruct (Z.geb_spec now (pc_deadline p + dt_ns)); cbn; split_and!; try done; lia.
Qed.

(** A loop whose ticks end before their deadlines wakes at exact multiples of the
    period from its start. *)
Lemma in_time_never_drifts dt_ns clock : forall start k,
  (forall i wake now, clock !! i = Some (wake, now) -> now < start + (Z.of_nat (k + i) + 1) * dt_ns) ->
  snd (pace_run dt_ns clock (mkPace (start + Z.of_nat k * dt_ns) 0 false)) =
    map (fun i => Some (start + (Z.of_nat (k + i) + 1) * dt_ns)) (seq 0 (length clock)) /\
  pc_overrun (fst (pace_run dt_ns clock (mkPace (start + Z.of_nat k * dt_ns) 0 false))) = false.
Proof.
  assert (Hw : forall dt_ns clock d w w' o, pace_run dt_ns clock (mkPace d w o) = pace_run dt_ns clock (mkPace d w' o) \/ clock = []).
  { intros dt c d w w' o. destruct c as [|[a b] c]; [by right|left]. reflexivity. }
  induction clock as [|[wake now] clock IH]; intros start k H; [by split|].
  cbn [pace_run]. unfold pace_turn. cbn [pc_deadline].
  pose proof (H 0%nat wake now eq_refl) as H0. rewrite Nat.add_0_r in H0.
  assert (E : (now >=? start + Z.of_nat k * dt_ns + dt_ns) = false).
  { destruct (Z.geb_spec now (start + Z.of_nat k * dt_ns + dt_ns)); [lia|done]. }
  rewrite E. clear E. replace (start + Z.of_nat k * dt_ns + dt_ns) with (start + Z.of_nat (S k) * dt_ns) by lia.
  destruct (IH start (S k)) as [I1 I2].
  { intros i w n Hi. pose proof (H (S i) w n Hi) as Hn. replace (S k + i)%nat with (k + S i)%nat by lia. exact Hn. }
  destruct (Hw dt_ns clock (start + Z.of_nat (S k) * dt_ns) wake 0 false) as [E| ->].
  - rewrite E. destruct (pace_run dt_ns clock _) as [p rest]. cbn [fst snd] in *. split; [|exact I2].
    cbn [length seq map]. rewrite I1. f_equal; [f_equal; rewrite Nat.add_0_r; lia|].
    rewrite <- seq_shift, map_map. apply map_ext. intros i. do 3 f_equal. lia.
  - cbn. split; [|done]. do 2 f_equal. lia.
Qed.

(** ** The deliberate exit *)

Definition SHUTDOWN_SETTLE_BUDGET_S : f64 := 0x4000000000000000.

Section Exit.
Context `{T : TickDeps}.
Implicit Types (l : RtLoop).

Variable env : nat -> TickInput.

(** The ticks of the exit are fed the nominal period and no overrun. *)
Definition exit_input (n : nat) l : TickInput :=
  mkTickInput (ti_estop_line (env n)) (ti_io_raw (env n)) (l_dt l) false (ti_command (env n)).

Definition exit_tick (st : nat * RtLoop) : nat * RtLoop :=
  let '(n, l) := st in (S n, tick (exit_input n l) l).

Fixpoint park_loop (fuel : nat) (st : nat * RtLoop) : nat * RtLoop :=
  match fuel with
  | O => st
  | S fuel =>
      let '(n, l) := st in
      let '(l, reached) := shutdown_park_feed l in
      if reached : bool then (n, l) else park_loop fuel (exit_tick (n, l))
  end.

Fixpoint settle_loop (fuel : nat) (st : nat * RtLoop) : nat * RtLoop :=
  match fuel with
  | O => st
  | S fuel =>
      let st := exit_tick st in
      if shutdown_at_rest (snd st) then st else settle_loop fuel st
  end.

Definition park_phase l : nat * RtLoop :=
  let '(l, running) := shutdown_park_begin l in
  if running : bool then
    let '(n, l) := park_loop (Z.to_nat (pk_timeout_ticks (l_park l))) (0%nat, l) in (n, shutdown_park_end l)
  else (0%nat, l).

Definition exit_settle_budget l : Z := sf_ceil_as_uint 32 (sf_div (f64_to_SF SHUTDOWN_SETTLE_BUDGET_S) (f64_to_SF (l_dt l))).

(** Everything before the terminal limp. *)
Definition exit_halted l : nat * RtLoop :=
  let '(n, l') := park_phase l in
  settle_loop (Z.to_nat (exit_settle_budget l)) (n, upd_core shutdown_halt l').

Definition shutdown_stop l : nat * RtLoop :=
  if mode_eqb (c_mode (l_core l)) Flashing then (0%nat, l)
  else
    let '(n, l) := exit_halted l in
    exit_tick (n, upd_core shutdown_limp l).

(** ** It ends *)

Lemma exit_tick_count st : fst (exit_tick st) = S (fst st).
Proof. by destruct st. Qed.

Lemma park_loop_ticks fuel : forall st, (fst st <= fst (park_loop fuel st) <= fst st + fuel)%nat.
Proof.
  induction fuel as [|fuel IH]; intros [n l]; cbn [park_loop fst]; [lia|].
  destruct (shutdown_park_feed l) as [l1 []]; cbn [fst]; [lia|].
  specialize (IH (exit_tick (n, l1))). rewrite exit_tick_count in IH. cbn [fst] in IH. lia.
Qed.

Lemma settle_step fuel st : settle_loop (S fuel) st =
  if shutdown_at_rest (snd (exit_tick st)) then exit_tick st else settle_loop fuel (exit_tick st).
Proof. reflexivity. Qed.

Lemma settle_loop_ticks fuel : forall st, (fst st <= fst (settle_loop fuel st) <= fst st + fuel)%nat.
Proof.
  induction fuel as [|fuel IH]; intros st; [cbn; lia|]. rewrite settle_step.
  specialize (IH (exit_tick st)). rewrite exit_tick_count in IH.
  destruct (shutdown_at_rest _); [rewrite exit_tick_count; lia|]. lia.
Qed.

(** The wait ends at rest, or with its budget spent. *)
Lemma settle_loop_outcome fuel : forall st,
  shutdown_at_rest (snd (settle_loop fuel st)) = true \/ fst (settle_loop fuel st) = (fst st + fuel)%nat.
Proof.
  induction fuel as [|fuel IH]; intros st; [right; cbn; lia|]. rewrite settle_step.
  destruct (shutdown_at_rest (snd (exit_tick st))) eqn:E; [by left|].
  destruct (IH (exit_tick st)) as [H|H]; [by left|right]. rewrite H, exit_tick_count. lia.
Qed.

(** ** It ends with the drives idled *)

Lemma exit_ticks l : (fst (shutdown_stop l) <= Z.to_nat (pk_timeout_ticks (l_park l)) + Z.to_nat (exit_settle_budget l) + 1)%nat.
Proof.
  unfold shutdown_stop. destruct (mode_eqb _ _); [cbn; lia|]. unfold exit_halted.
  assert (Hp : (fst (park_phase l) <= Z.to_nat (pk_timeout_ticks (l_park l)))%nat).
  { unfold park_phase. assert (Ht : pk_timeout_ticks (l_park (fst (shutdown_park_begin l))) = pk_timeout_ticks (l_park l)).
    { unfold shutdown_park_begin. cbv zeta. destruct (negb (pk_enabled _) || _); [reflexivity|]. destruct (_ || _ || _); [reflexivity|].
      destruct (match request_mode Idle _ with (_, Ok _) => _ | (_, Err _) => _ end) as [c []];
        destruct (c_has_can_gripper _); try destruct (pk_hard_bounds _); reflexivity. }
    destruct (shutdown_park_begin l) as [l1 []]; [|cbn; lia]. cbn [fst] in Ht.
    pose proof (park_loop_ticks (Z.to_nat (pk_timeout_ticks (l_park l1))) (0%nat, l1)) as Hl. cbn [fst] in Hl.
    destruct (park_loop _ _) as [n l2]. cbn [fst] in *. rewrite <- Ht. lia. }
  destruct (park_phase l) as [n l1]. cbn [fst] in Hp.
  pose proof (settle_loop_ticks (Z.to_nat (exit_settle_budget l)) (n, upd_core shutdown_halt l1)) as Hs. cbn [fst] in Hs.
  destruct (settle_loop _ _) as [n2 l2]. cbn [fst] in *. rewrite exit_tick_count. cbn [fst]. lia.
Qed.

End Exit.

(** ** What a tick in SAFETY_STOP sends *)

Section Limp.
Context `{T : TickDeps} {BL : BusSilenceLaws} {L : TickSilenceLaws}.
Implicit Types (l : RtLoop) (c : RtCore).

Lemma latches_mode {A} (f : RtCore -> A -> RtCore) xs : (forall c x, c_mode (f c x) = c_mode c) ->
  forall c, c_mode (fold_left f xs c) = c_mode c.
Proof. intros H. induction xs as [|x xs IH]; intros c; [done|]. cbn [fold_left]. by rewrite IH, H. Qed.

Lemma unheard_mode connected c : c_mode (latch_unheard connected c) = c_mode c.
Proof.
  unfold latch_unheard. cbv zeta. set (c1 := fold_left _ _ c).
  assert (E : c_mode c1 = c_mode c) by (apply latches_mode; intros c2 i; by destruct (Z.testbit _ _)).
  clearbody c1. by destruct (_ && _).
Qed.

Lemma hold_mode l : c_mode (l_core (begin_tool_hold l)) = c_mode (l_core l).
Proof. apply (ms_mode _ _ (begin_hold_measured l)). Qed.

Lemma kt_mode l : c_mode (l_core (adopt_driver_kt l)) = c_mode (l_core l).
Proof. apply (ms_mode _ _ (adopt_kt_measured l)). Qed.

Lemma selfcheck_mode l : c_mode (l_core (fst (selfcheck l))) = c_mode (l_core l).
Proof.
  unfold selfcheck. cbv zeta. set (l0 := lput_rescan_at None l). change (l_core l) with (l_core l0). clearbody l0.
  destruct (if _ && _ then _ else _) as [b cycled]. destruct cycled; [reflexivity|]. cbn [fst]. rewrite hold_mode.
  set (l2 := upd_core (latch_unheard _) _). assert (E : c_mode (l_core l2) = c_mode (l_core l0)) by (exact (unheard_mode _ (set_bus b (l_core l0)))).
  clearbody l2. destruct (l_kt_auto l2); [by rewrite kt_mode|done].
Qed.

Lemma release_hold_mode l : c_mode (l_core l) <> Booting -> c_mode (l_core (release_tool_hold l)) = c_mode (l_core l).
Proof.
  intros Hm. unfold release_tool_hold. cbv zeta. destruct (mode_eqb (c_mode (l_core l)) Booting) eqn:E; [by apply mode_eqb_spec in E|reflexivity].
Qed.

Lemma shots_mode l : c_mode (l_core (config_shots l)) = c_mode (l_core l).
Proof.
  unfold config_shots. cbv zeta. set (l1 := if bool_decide _ && _ then _ else l).
  assert (E : c_mode (l_core l1) = c_mode (l_core l)).
  { subst l1. destruct (bool_decide _ && _); [|done]. apply (ms_mode _ _ (repush_measured (l_core l))). }
  clearbody l1. rewrite <- E. apply (ms_mode _ _ (drain_resends_measured (l_core l1))).
Qed.

Lemma boot_mode l : c_mode (l_core l) <> Booting -> c_mode (l_core (boot_oneshots l)) = c_mode (l_core l).
Proof.
  intros Hm. unfold boot_oneshots. cbv zeta. destruct (_ && negb _); [reflexivity|].
  destruct (if _ || _ then selfcheck l else (l, false)) as [l1 cycled] eqn:E1.
  assert (H : c_mode (l_core l1) = c_mode (l_core l)).
  { destruct (_ || _); [|by simplify_eq]. pose proof (selfcheck_mode l) as H. by rewrite E1 in H. }
  clear E1. destruct cycled; [done|]. rewrite shots_mode. destruct (c_tool_hold (l_core l1)); [|done].
  rewrite release_hold_mode; congruence.
Qed.

Lemma inputs_mode i l : c_mode (l_core (read_inputs i l)) = c_mode (l_core l).
Proof.
  unfold read_inputs. destruct (estop_pressed _ _) as [d p]. set (c1 := set_hw_estop p (l_core l)).
  transitivity (c_mode c1); [|reflexivity]. change (c_mode (read_io_inputs (ti_io_raw i) c1) = c_mode c1). clearbody c1.
  unfold read_io_inputs. by repeat case_match.
Qed.

Lemma outputs_mode l : c_mode (l_core (write_outputs l)) = c_mode (l_core l).
Proof. unfold write_outputs, drive_io_outputs. by repeat case_match; simplify_eq. Qed.

Lemma clock_mode l : c_mode (l_core (upd_core (upd_exec exec_clock_tick) l)) = c_mode (l_core l).
Proof. reflexivity. Qed.

Lemma begun_mode l : c_mode (l_core (upd_core (fun c => upd_bus (fun b => bus_begin_tick b (c_tick c)) c)
  (upd_core (fun c => set_tick (c_tick c + 1) c) l))) = c_mode (l_core l).
Proof. reflexivity. Qed.

Lemma timed_mode t l : c_mode (l_core (lput_timing t l)) = c_mode (l_core l).
Proof. reflexivity. Qed.

(** Outside BOOTING only a command moves the mode before the checks. *)
Lemma intake_mode i l : c_mode (l_core l) <> Booting -> ti_command i = None ->
  c_mode (l_core (fst (tick_intake i l))) = c_mode (l_core l).
Proof.
  intros Hm Hc. unfold tick_intake. cbv zeta. rewrite Hc. destruct (timing_record _ _ _) as [timing health]. cbn [fst].
  rewrite outputs_mode, clock_mode. pose proof (begun_mode l) as E. set (l0 := upd_core (fun c => upd_bus _ c) _) in *. clearbody l0.
  rewrite boot_mode; rewrite timed_mode, inputs_mode; congruence.
Qed.

Lemma outranking_checked i l : mode_in (c_mode (l_core l)) [SafetyStop; Flashing] = true -> ti_command i = None ->
  c_mode (l_core (tick_checked i l)) = c_mode (l_core l).
Proof.
  intros Hm Hc. unfold tick_checked.
  assert (E : c_mode (l_core (fst (tick_intake i l))) = c_mode (l_core l)) by (apply intake_mode; [intros E; by rewrite E in Hm|done]).
  destruct (tick_intake i l) as [l1 health]. cbn [fst] in E. rewrite <- (ms_mode _ _ (tick_state_measured l1)) in E.
  set (l2 := tick_state l1) in *. clearbody l2. change (c_mode (check_errors health (l_core l2)) = c_mode (l_core l)).
  destruct (check_errors_split health (l_core l2)) as (c1 & [Q1 _ _ _ _ _] & _ & ->).
  destruct (react_spec c1) as (_ & -> & _). rewrite Q1, E. by destruct (any_hard _), (c_mode (l_core l)).
Qed.

Lemma safety_stop_dispatch l : arrays_wf l -> c_mode (l_core l) = SafetyStop ->
  exists g, l_tx (dispatch_and_send l) = l_tx l ++ tick_frames (replicate MAX_JOINTS (jc_current 0)) g /\
    c_mode (l_core (dispatch_and_send l)) = SafetyStop.
Proof.
  intros Hw Hm. destruct (law_frames l) as (g & [Ktx _ _ _ _ _ _ _ _] & Etx); [by rewrite Hm..|].
  exists g. split; [|rewrite <- Hm; apply ms_mode, protective_measured; by rewrite Hm].
  rewrite Ktx, sent_tx, Etx. do 2 f_equal.
  pose proof (exec_idle_keeps l) as [K1 Em]. set (l1 := exec_idle l) in *.
  assert (Hw1 : arrays_wf l1) by (unfold arrays_wf; rewrite (kept_arrays l l1); [done|by apply keeps_sends]).
  assert (Em1 : c_mode (l_core l1) = SafetyStop) by congruence. clearbody l1. clear K1 Em Ktx Etx.
  assert (El : mode_law l1 = lput_setpoints law_safety_stop l1) by (unfold mode_law; by rewrite Em1). rewrite El.
  set (l2 := lput_setpoints law_safety_stop l1).
  assert (E2 : l_setpoints l2 = law_safety_stop /\ arrays_of l2 = arrays_of l1 /\ c_mode (l_core l2) = c_mode (l_core l1)) by by split_and!.
  clearbody l2. destruct E2 as (Es & Ea & Ec). unfold arrays_wf in Hw1. rewrite <- Ea in Hw1.
  destruct (protective_commit (l_conv l2) (l_torque_ma_factor l2) (arrays_of l2) Hw1) as (_ & P & _).
  unfold commit_tick. rewrite Ec, Em1, Es. cbn [mode_in existsb mode_eqb negb]. exact P.
Qed.

(** A tick that idles the drives: the mode stays, one frame commands no current. *)
Lemma limp_tick i l : arrays_wf l -> c_mode (l_core l) = SafetyStop -> ti_command i = None ->
  c_mode (l_core (tick i l)) = SafetyStop /\
  exists outs g, outputs_only outs /\ l_tx (tick i l) = l_tx l ++ outs ++ tick_frames (replicate MAX_JOINTS (jc_current 0)) g.
Proof.
  intros Hw Hm Hc. destruct (checked_sends i l) as (outs & Ho & [Htx _ _ _ _]). rewrite sent_tx, fed_tx in Htx.
  assert (Hw1 : arrays_wf (tick_checked i l)) by (unfold arrays_wf; by rewrite checked_arrays).
  destruct (safety_stop_dispatch _ Hw1 (eq_trans (outranking_checked i l ltac:(by rewrite Hm) Hc) Hm)) as (g & E1 & E2).
  unfold tick. destruct (clear_fields (dispatch_and_send (tick_checked i l))) as (-> & _ & _ & _ & -> & _).
  split; [exact E2|]. exists outs, g. split; [done|]. by rewrite E1, Htx, <- app_assoc.
Qed.

Lemma flashing_tick i l : c_mode (l_core l) = Flashing -> ti_command i = None ->
  exists outs, outputs_only outs /\ l_tx (tick i l) = l_tx l ++ outs.
Proof.
  intros Hm Hc. destruct (checked_sends i l) as (outs & Ho & [Htx _ _ _ _]). rewrite sent_tx, fed_tx in Htx.
  exists outs. split; [done|]. unfold tick. destruct (clear_fields (dispatch_and_send (tick_checked i l))) as (-> & _).
  destruct (flashing_frames (tick_checked i l)) as [-> _]; [|done]. rewrite outranking_checked; by rewrite ?Hm.
Qed.

(** ** The exit keeps the loop sound *)

Record loop_ok l : Prop := mkLoopOk { lo_core : core_inv (l_core l); lo_arrays : arrays_wf l }.

Lemma ok_step l l' : rtc core_step (l_core l) (l_core l') -> arrays_of l' = arrays_of l -> loop_ok l -> loop_ok l'.
Proof. intros Hs Ha [Hc Hw]. split; [by apply (steps_inv _ _ Hs)|]. unfold arrays_wf. by rewrite Ha. Qed.

Lemma ok_measured l l' : measured (l_core l) (l_core l') -> arrays_of l' = arrays_of l -> loop_ok l -> loop_ok l'.
Proof. intros Hm. apply ok_step. by apply steps_measured. Qed.

Lemma ok_tick {S : TickShapeLaws} i l : loop_ok l -> loop_ok (tick i l).
Proof. intros [Hc Hw]. split; [by apply loop_inv|by apply tick_arrays]. Qed.

Lemma ok_core c l : rtc core_step (l_core l) c -> loop_ok l -> loop_ok (lput_core c l).
Proof. intros Hs. by apply ok_step. Qed.

Lemma ok_begin l : loop_ok l -> loop_ok (fst (shutdown_park_begin l)).
Proof.
  intros Hok. unfold shutdown_park_begin. cbv zeta. destruct (_ || _); [done|]. destruct (_ || _ || _); [done|].
  set (l1 := if c_has_can_gripper (l_core l) then _ else l).
  assert (H1 : loop_ok l1) by (subst l1; destruct (c_has_can_gripper _); [apply ok_core; [apply rtc_once, (cs_command _ RC_GripperStop)|done]|done]).
  clearbody l1. clear Hok l. pose proof (cs_boot_idle (l_core l1)) as Hi.
  destruct (request_mode Idle (l_core l1)) as [c1 [e1|u1]]; cbn [fst] in Hi.
  - pose proof (cs_shutdown_park c1) as Hp. destruct (request_mode Stream c1) as [c2 r2]. cbn [fst] in Hp.
    assert (H2 : loop_ok (lput_core c2 l1)) by (apply ok_core; [by eapply rtc_l, rtc_once|done]).
    set (l2 := lput_core c2 l1) in *. clearbody l2. destruct r2; [|done]. destruct (pk_hard_bounds _). by apply (ok_measured l2).
  - apply ok_core; [by apply rtc_once|done].
Qed.

Lemma ok_feed l : loop_ok l -> loop_ok (fst (shutdown_park_feed l)).
Proof. intros Hok. unfold shutdown_park_feed. destruct (_ || _); [done|]. destruct (f64_lt _ _); [done|]. by apply (ok_measured l). Qed.

Lemma ok_end l : loop_ok l -> loop_ok (shutdown_park_end l).
Proof.
  intros Hok. unfold shutdown_park_end. destruct (negb _); [done|]. destruct (pk_saved_scale _), (pk_soft_bounds _). by apply (ok_measured l).
Qed.

Section Exit2.
Context {S : TickShapeLaws} (env : nat -> TickInput).

Lemma ok_exit_tick st : loop_ok (snd st) -> loop_ok (snd (exit_tick env st)).
Proof. destruct st as [n l]. cbn [snd exit_tick]. apply ok_tick. Qed.

Lemma ok_park_loop fuel : forall st, loop_ok (snd st) -> loop_ok (snd (park_loop env fuel st)).
Proof.
  induction fuel as [|fuel IH]; intros [n l] Hok; [done|]. cbn [park_loop]. cbn [snd] in Hok. pose proof (ok_feed l Hok) as Hf.
  destruct (shutdown_park_feed l) as [l1 []]; [done|]. cbn [fst] in Hf. apply IH, (ok_exit_tick (n, l1)), Hf.
Qed.

Lemma ok_settle_loop fuel : forall st, loop_ok (snd st) -> loop_ok (snd (settle_loop env fuel st)).
Proof.
  induction fuel as [|fuel IH]; intros st Hok; [done|]. rewrite settle_step. pose proof (ok_exit_tick st Hok) as Ht.
  destruct (shutdown_at_rest _); [done|by apply IH].
Qed.

Lemma ok_park_phase l : loop_ok l -> loop_ok (snd (park_phase env l)).
Proof.
  intros Hok. unfold park_phase. pose proof (ok_begin l Hok) as Hb. destruct (shutdown_park_begin l) as [l1 []]; [|done]. cbn [fst] in Hb.
  pose proof (ok_park_loop (Z.to_nat (pk_timeout_ticks (l_park l1))) (0%nat, l1) Hb) as Hl. destruct (park_loop _ _ _) as [n l2].
  cbn [snd] in *. by apply ok_end.
Qed.

Lemma ok_halted l : loop_ok l -> loop_ok (snd (exit_halted env l)).
Proof.
  intros Hok. unfold exit_halted. pose proof (ok_park_phase l Hok) as Hp. destruct (park_phase env l) as [n l1]. cbn [snd] in Hp.
  apply ok_settle_loop. cbn [snd]. apply (ok_core (shutdown_halt (l_core l1))); [apply rtc_once, cs_shutdown_halt|done].
Qed.

End Exit2.

Lemma limp_mode c : c_mode (shutdown_limp c) = if mode_eqb (c_mode c) Flashing then Flashing else SafetyStop.
Proof.
  unfold shutdown_limp. destruct (mode_eqb (c_mode c) Flashing) eqn:Ef; [by apply mode_eqb_spec|].
  unfold request_mode. destruct (c_mode c) eqn:Em; try discriminate; try reflexivity. exact Em.
Qed.


End Limp.
