(* ===== verification/TickExample.v ===== *)
(** * TickExample: a loop to run ticks on

    The recording bus of CoreExample with what a tick calls beyond it: a drain that
    hears every joint at its zero position, engines that ask for no motion, an arm
    without weight.  The laws the tick relies on hold of it. *)
From Stdlib Require Import SpecFloat.
From stdpp Require Import relations.
From S2P Require Import Prelude F64 BusTypes Ring Joints RtState Gripper Gpio CoreState Core CoreExample CoreSafety.
From S2P Require Import Convert Homing HomingSeq Dispatch SettlePolicy ExecTick LoopTiming RtLoop RtTick RtTickSteps RtTickFrames RtTickProps RtTickLine RtTickMotion RtThread.

(** A node that has answered once more. *)
Definition heard (n : NodeState) : NodeState :=
  mkNodeState (Some 0) (ns_position_generation n + 1) (Some 0) (Some 0) (ns_temperature_c n) (ns_voltage_mv n)
    (ns_error_flags n) (ns_kt_nm_a n) (ns_device_info n) (ns_combined_telemetry n) (ns_hall n) (ns_live_error_bit n)
    (ns_readback n) 0.

Definition all_heard (s : BusState) : BusState :=
  mkBusState (map heard (bs_nodes s)) (bs_gripper s) (bs_frames_last_drain s) (bs_frame_age_max_ticks s)
    (bs_frame_age_min_ticks s) 0.

#[export] Instance trace_tick : TickDeps (D := trace_deps) := {|
  bus_begin_tick b n := b;
  bus_drain_rx b s := (b, all_heard s, true);
  bus_connected_nodes b := 127;
  bus_simulated b := true;
  bus_recover_link b := (b, true);
  bus_boot_configure b k := b;
  bus_send_joint_commands b c := (b, true);
  bus_send_gripper b c := (b, true);
  bus_poll_step b := b;
  homing_tick h b s v c g := mkTicked h b s v c g SS_Inactive;
  homing_fail_reference h j := h;
  jog_tick j q := (j, q, joint_zeros, 0);
  track_set_target t q := t;
  track_set_scale t v a := t;
  track_set_scale_per_joint t f a := t;
  track_set_bounds t lo hi := t;
  track_step t := (t, joint_zeros, joint_zeros);
  track_faulted t := false;
  grav_gravity g q := (g, joint_zeros);
  grav_describes_arm g := true;
  policy_t := SpecSettle;
|}.

#[export] Instance trace_silence : TickSilenceLaws (T := trace_tick).
Proof. split; reflexivity. Qed.

#[export] Instance trace_shape : TickShapeLaws (T := trace_tick).
Proof. split. intros h b s v c g H. exact H. Qed.

Definition f64_2ms : f64 := 0x3F60624DD2F1A9FC.

Definition tick_conv : JointConversion := mkConv 16384 (f64_to_SF f64_1) 1 0 0 0.

(** A loop around a core, every drive heard, the slew's budget one Nm a tick. *)
Definition loop_at (c : RtCore (D := trace_deps)) : RtLoop (T := trace_tick) :=
  mkLoop c f64_2ms 0 0 0 0 (replicate MAX_JOINTS tick_conv) (replicate MAX_JOINTS true) 0 None 50 50
    (replicate MAX_JOINTS f64_1) (slew_new (replicate MAX_JOINTS f64_1)) [] false Pk_Pid joint_zeros
    (mkClock (spec_settle_new CP_Commanded f64_2ms f64_1 f64_1) 0 f64_2ms f64_1 f64_1 (replicate MAX_JOINTS f64_1))
    debouncer_new [] false 0 (timing_new f64_2ms (mkBands f64_3 f64_3 f64_1)) 0 0 f64_0 [] joint_zeros joint_zeros joint_zeros joint_zeros joint_zeros
    true joint_zeros (replicate MAX_JOINTS zero_velocity) (replicate MAX_JOINTS jc_idle) mirror_default joint_zeros joint_zeros joint_zeros
    GC_NoGripper None 0 (replicate MAX_JOINTS 0) 3 (f64_1, f64_1) 100 f64_0
    (mkPark false f64_0 0 joint_zeros joint_zeros (f64_1, f64_1) false (joint_zeros, joint_zeros) (joint_zeros, joint_zeros))
    10 None false [].

Definition quiet_tick : TickInput := mkTickInput true [] f64_2ms false None.
Definition pressed_tick : TickInput := mkTickInput false [] f64_2ms false None.
Definition command_tick (cmd : RtCommand) : TickInput := mkTickInput true [] f64_2ms false (Some cmd).

(** ** The theorems at concrete loops *)

Definition boot_loop : RtLoop := loop_at (core_at Booting Disabled []).

(** An armed and homed arm in a released JOG. *)
Definition jog_loop : RtLoop := loop_at (set_jog_released true (core_at Jog Enabled [])).

Lemma boot_loop_fresh : loop_fresh boot_loop.
Proof. split; [|repeat split|reflexivity]. split_and!; [reflexivity|reflexivity|reflexivity|]. exists 0x3F70624DD2F1A9FC. vm_compute. reflexivity. Qed.

Lemma held_estop_line_stops_the_arm_witness :
  let pre := [quiet_tick; command_tick (RC_SetMode Idle); command_tick (RC_Enable 1); command_tick (RC_SetMode Jog)] in
  let held := replicate 4 pressed_tick in
  c_mode (l_core (loop_run pre boot_loop)) = Jog /\
  stopped_tick (loop_run (pre ++ held) boot_loop) (tick pressed_tick (loop_run (pre ++ held) boot_loop)).
Proof.
  cbv zeta. split; [vm_compute; reflexivity|].
  apply held_estop_line_stops_the_arm; [exact boot_loop_fresh|repeat constructor|reflexivity].
Defined.

Lemma hard_error_commands_nothing_witness :
  let before := [quiet_tick; command_tick (RC_SetMode Idle); command_tick (RC_Enable 1)] in
  c_state (l_core (loop_run before boot_loop)) = Enabled /\
  stopped_tick (loop_run before boot_loop) (tick (command_tick (RC_SetSoftEstop true)) (loop_run before boot_loop)).
Proof.
  cbv zeta. split; [vm_compute; reflexivity|].
  apply hard_error_commands_nothing; [exact boot_loop_fresh|vm_compute; reflexivity].
Defined.

Lemma torque_starts_from_zero_witness :
  one_step (tick quiet_tick (tick quiet_tick (loop_at (core_at ActiveError Disabled [mkErrorEntry EC_BusOff None])))) 2.
Proof.
  apply torque_starts_from_zero; [repeat split| |vm_compute; reflexivity|vm_compute; lia].
  intros j Hj. unfold MAX_JOINTS in Hj. do 6 (destruct j as [|j]; [vm_compute; reflexivity|]). lia.
Defined.


(** The loop after its first reading, from where the arm stands still. *)
Definition resting_loop : RtLoop := tick quiet_tick jog_loop.

Lemma released_jog_comes_to_rest_witness :
  c_mode (l_core (tick quiet_tick (loop_run (replicate 2 quiet_tick) resting_loop))) = Exec.
Proof.
  rewrite (released_jog_comes_to_rest (replicate 2 quiet_tick) quiet_tick resting_loop);
    [vm_compute; reflexivity|vm_compute; split; [discriminate|reflexivity]|vm_compute; reflexivity|vm_compute; discriminate| |vm_compute; reflexivity..].
  cbn [readings replicate app].
  repeat (apply Forall_cons; split; [vm_compute; reflexivity|]). apply Forall_nil. exact I.
Defined.

Lemma tick_refines_the_core_witness :
  c_mode (l_core (tick (command_tick (RC_SetMode Jog)) (loop_at (core_at Idle Enabled [])))) = Jog /\
  rtc core_step (l_core (loop_at (core_at Idle Enabled [])))
    (l_core (tick (command_tick (RC_SetMode Jog)) (loop_at (core_at Idle Enabled [])))).
Proof. split; [vm_compute; reflexivity|apply tick_refines_the_core]. Defined.

