(* ===== verification/CanCodec.v ===== *)
(** * CanCodec: the frames of the CAN bus

    [crates/par6-bus/src/spectral/codec.rs]: arbitration ids, the big-endian
    payload primitives, the encoder of every host frame, the decoder of every
    driver reply with its refusals.  Bytes are integers of 8 bits, an [f32] its
    bit pattern; a payload array is the list of its bytes. *)
From stdpp Require Import list.
From S2P Require Import Prelude F64 BusTypes.

(** ** Frames *)

Definition CAN_MAX_DATA : nat := 8.

(** [id]: u16; [dlc]: u8; [data]: eight bytes. *)
Record CanFrame := mkFrame {
  fr_id : Z;
  fr_rtr : bool;
  fr_dlc : Z;
  fr_data : bytes;
}.

#[export] Instance CanFrame_eq_dec : EqDecision CanFrame.
Proof. solve_decision. Defined.

Definition data_frame (id : Z) (payload : bytes) : CanFrame :=
  mkFrame id false (wrap 8 (Z.of_nat (length payload)))
    (payload ++ replicate (CAN_MAX_DATA - length payload) 0).

Definition rtr_frame (id : Z) : CanFrame := mkFrame id true 0 (replicate CAN_MAX_DATA 0).

Definition frame_payload (f : CanFrame) : bytes :=
  take (Z.to_nat (Z.min (fr_dlc f) (Z.of_nat CAN_MAX_DATA))) (fr_data f).

(** ** The command table *)

Inductive CommandId :=
| Cmd_Estop | Cmd_ClearError | Cmd_DataPack1 | Cmd_RespondDataPack1 | Cmd_DataPackPd
| Cmd_RespondDataPack2 | Cmd_RespondDataPack3 | Cmd_RespondHeartbeat | Cmd_Ping | Cmd_SetCanId
| Cmd_Idle | Cmd_SaveConfig | Cmd_Reset | Cmd_Watchdog | Cmd_PdGains | Cmd_CurrentGains
| Cmd_VelocityGains | Cmd_PositionGains | Cmd_Limits | Cmd_Kt | Cmd_Temperature | Cmd_Voltage
| Cmd_DeviceInfo | Cmd_StateOfErrors | Cmd_IqData | Cmd_EncoderData | Cmd_HeartbeatSetup
| Cmd_DataPackHall | Cmd_RespondDataHall | Cmd_RespondKt | Cmd_VoltageLimit | Cmd_SetGripperId
| Cmd_Telemetry | Cmd_Capture | Cmd_CaptureRead | Cmd_Ripple | Cmd_VelocityWindow
| Cmd_CaptureStream | Cmd_CaptureStreamData | Cmd_RespondGripperData | Cmd_GripperDataPack
| Cmd_GripperCalibrate.

#[export] Instance CommandId_eq_dec : EqDecision CommandId.
Proof. solve_decision. Defined.

Definition raw (c : CommandId) : Z :=
  match c with
  | Cmd_Estop => 0 | Cmd_ClearError => 1 | Cmd_DataPack1 => 2 | Cmd_RespondDataPack1 => 3
  | Cmd_DataPackPd => 4 | Cmd_RespondDataPack2 => 5 | Cmd_RespondDataPack3 => 7
  | Cmd_RespondHeartbeat => 9 | Cmd_Ping => 10 | Cmd_SetCanId => 11 | Cmd_Idle => 12
  | Cmd_SaveConfig => 13 | Cmd_Reset => 14 | Cmd_Watchdog => 15 | Cmd_PdGains => 16
  | Cmd_CurrentGains => 17 | Cmd_VelocityGains => 18 | Cmd_PositionGains => 19 | Cmd_Limits => 20
  | Cmd_Kt => 22 | Cmd_Temperature => 23 | Cmd_Voltage => 24 | Cmd_DeviceInfo => 25
  | Cmd_StateOfErrors => 26 | Cmd_IqData => 27 | Cmd_EncoderData => 28 | Cmd_HeartbeatSetup => 30
  | Cmd_DataPackHall => 31 | Cmd_RespondDataHall => 32 | Cmd_RespondKt => 33
  | Cmd_VoltageLimit => 34 | Cmd_SetGripperId => 36 | Cmd_Telemetry => 37 | Cmd_Capture => 38
  | Cmd_CaptureRead => 39 | Cmd_Ripple => 40 | Cmd_VelocityWindow => 41 | Cmd_CaptureStream => 42
  | Cmd_CaptureStreamData => 43 | Cmd_RespondGripperData => 60 | Cmd_GripperDataPack => 61
  | Cmd_GripperCalibrate => 62
  end.

Definition from_raw (cmd : Z) : option CommandId :=
  match cmd with
  | 0 => Some Cmd_Estop | 1 => Some Cmd_ClearError | 2 => Some Cmd_DataPack1
  | 3 => Some Cmd_RespondDataPack1 | 4 => Some Cmd_DataPackPd | 5 => Some Cmd_RespondDataPack2
  | 7 => Some Cmd_RespondDataPack3 | 9 => Some Cmd_RespondHeartbeat | 10 => Some Cmd_Ping
  | 11 => Some Cmd_SetCanId | 12 => Some Cmd_Idle | 13 => Some Cmd_SaveConfig
  | 14 => Some Cmd_Reset | 15 => Some Cmd_Watchdog | 16 => Some Cmd_PdGains
  | 17 => Some Cmd_CurrentGains | 18 => Some Cmd_VelocityGains | 19 => Some Cmd_PositionGains
  | 20 => Some Cmd_Limits | 22 => Some Cmd_Kt | 23 => Some Cmd_Temperature
  | 24 => Some Cmd_Voltage | 25 => Some Cmd_DeviceInfo | 26 => Some Cmd_StateOfErrors
  | 27 => Some Cmd_IqData | 28 => Some Cmd_EncoderData | 30 => Some Cmd_HeartbeatSetup
  | 31 => Some Cmd_DataPackHall | 32 => Some Cmd_RespondDataHall | 33 => Some Cmd_RespondKt
  | 34 => Some Cmd_VoltageLimit | 36 => Some Cmd_SetGripperId | 37 => Some Cmd_Telemetry
  | 38 => Some Cmd_Capture | 39 => Some Cmd_CaptureRead | 40 => Some Cmd_Ripple
  | 41 => Some Cmd_VelocityWindow | 42 => Some Cmd_CaptureStream
  | 43 => Some Cmd_CaptureStreamData | 60 => Some Cmd_RespondGripperData
  | 61 => Some Cmd_GripperDataPack | 62 => Some Cmd_GripperCalibrate
  | _ => None
  end.

(** [u16::from(b)] and [u8::from(b)]. *)
Definition b2z (b : bool) : Z := if b then 1 else 0.

Definition pack_can_id (node : Z) (cmd : CommandId) (err_bit : bool) : Z :=
  Z.lor (Z.lor (Z.shiftl (Z.land node 0xF) 7) (Z.shiftl (Z.land (raw cmd) 0x3F) 1)) (b2z err_bit).

Definition unpack_can_id (id : Z) : Z * Z * bool :=
  (Z.land (Z.shiftr id 7) 0xF, Z.land (Z.shiftr id 1) 0x3F, Z.land id 1 =? 1).

(** ** Payload primitives *)

Definition pack_i24 (v : Z) : bytes :=
  let u := Z.land (wrap 32 v) 0x00FFFFFF in
  [wrap 8 (Z.shiftr u 16); wrap 8 (Z.shiftr u 8); wrap 8 u].

Definition unpack_i24 (b0 b1 b2 : Z) : Z :=
  let u := Z.lor (Z.lor (Z.shiftl b0 16) (Z.shiftl b1 8)) b2 in
  if Z.shiftl 1 23 <=? u then u - Z.shiftl 1 24 else u.

Definition pack_i16 (v : Z) : bytes := be_bytes 2 v.
Definition unpack_i16 (b0 b1 : Z) : Z := swrap 16 (from_be [b0; b1]).
Definition pack_i32 (v : Z) : bytes := be_bytes 4 v.
Definition unpack_i32 (b0 b1 b2 b3 : Z) : Z := swrap 32 (from_be [b0; b1; b2; b3]).
Definition pack_u32 (v : Z) : bytes := be_bytes 4 v.
Definition unpack_u32 (b0 b1 b2 b3 : Z) : Z := from_be [b0; b1; b2; b3].
Definition pack_f32 (v : f32) : bytes := be_bytes 4 v.
Definition unpack_f32 (b0 b1 b2 b3 : Z) : f32 := from_be [b0; b1; b2; b3].

Definition fold_bits_msb_first (bits : list bool) : Z :=
  fold_left (fun n b => Z.lor (wrap 8 (Z.shiftl n 1)) (b2z b)) bits 0.

Definition unfold_bits_msb_first (byte : Z) : list bool :=
  map (fun i => Z.land (Z.shiftr byte (7 - i)) 1 =? 1) [0; 1; 2; 3; 4; 5; 6; 7].

(** Array accesses: the decoder reads positions it has checked. *)
Definition bit (bits : list bool) (i : nat) : bool := nth i bits false.
Definition byte (d : bytes) (i : nat) : Z := nth i d 0.

Definition unpack_error_flags (b0 b1 : Z) : ErrorFlags :=
  let b0 := unfold_bits_msb_first b0 in
  let b1 := unfold_bits_msb_first b1 in
  mkErrorFlags (bit b0 0) (bit b0 1) (bit b0 2) (bit b0 3) (bit b0 4) (bit b0 5) (bit b0 6) (bit b0 7)
    (bit b1 0) (bit b1 1) (bit b1 2).

(** ** Encoding: host to driver *)

Inductive EncodeError := EE_PositionWithoutVelocity.

Definition data_cmd (node : Z) (cmd : CommandId) (payload : bytes) : CanFrame :=
  data_frame (pack_can_id node cmd false) payload.

Definition encode_estop (node : Z) : CanFrame := data_cmd node Cmd_Estop [].
Definition encode_clear_error (node : Z) : CanFrame := data_cmd node Cmd_ClearError [].
Definition encode_idle (node : Z) : CanFrame := data_cmd node Cmd_Idle [].
Definition encode_save_config (node : Z) : CanFrame := data_cmd node Cmd_SaveConfig [].
Definition encode_reset (node : Z) : CanFrame := data_cmd node Cmd_Reset [].

(** [Ok None]: the command puts no frame on the wire. *)
Definition encode_joint_command (node : Z) (c : JointCommand) : result EncodeError (option CanFrame) :=
  match jc_pack c with
  | Pk_Pid =>
      let cur := pack_i16 (default 0 (jc_cur_ma c)) in
      match jc_pos c, jc_vel c with
      | Some pos, Some vel =>
          Ok (Some (data_cmd node Cmd_DataPack1 (pack_i24 pos ++ pack_i24 vel ++ cur)))
      | None, Some vel => Ok (Some (data_cmd node Cmd_DataPack1 (pack_i24 vel ++ cur)))
      | None, None =>
          match jc_cur_ma c with
          | None => Ok None
          | Some _ => Ok (Some (data_cmd node Cmd_DataPack1 cur))
          end
      | Some _, None => Err EE_PositionWithoutVelocity
      end
  | Pk_Pd =>
      Ok (Some (data_cmd node Cmd_DataPackPd
        (pack_i24 (default 0 (jc_pos c)) ++ pack_i24 (default 0 (jc_vel c))
         ++ pack_i16 (default 0 (jc_cur_ma c)))))
  | Pk_Hall trigger_value =>
      Ok (Some (data_cmd node Cmd_DataPackHall (pack_i24 (default 0 (jc_vel c)) ++ [trigger_value])))
  | Pk_Idle => Ok (Some (encode_idle node))
  | Pk_EncoderPoll => Ok (Some (rtr_frame (pack_can_id node Cmd_EncoderData false)))
  end.

Definition encode_firmware_gripper (node : Z) (f : FirmwareGripperCommand) : CanFrame :=
  data_cmd node Cmd_GripperDataPack
    ([fw_position f; fw_speed f] ++ pack_i16 (fw_current_ma f)
     ++ [fold_bits_msb_first
           [fw_activate f; fw_action f; fw_estop f; fw_release_dir f; false; false; false; false]]).

Definition encode_gripper_command (gripper_node timing_dummy_node : Z) (c : GripperCommand)
  : result EncodeError (option CanFrame) :=
  match c with
  | GC_NoGripper => Ok (Some (rtr_frame (pack_can_id timing_dummy_node Cmd_Ping false)))
  | GC_Motor jc => encode_joint_command gripper_node jc
  | GC_Firmware f => Ok (Some (encode_firmware_gripper gripper_node f))
  | GC_FirmwarePoll => Ok (Some (data_cmd gripper_node Cmd_GripperDataPack []))
  | GC_Calibrate => Ok (Some (data_cmd gripper_node Cmd_GripperCalibrate []))
  end.

(** [par6_config::WatchdogAction]. *)
Inductive WatchdogAction := WA_Idle.

Definition encode_watchdog (node timeout_ms : Z) (action : WatchdogAction) : CanFrame :=
  let action_byte := match action with WA_Idle => 0 end in
  data_cmd node Cmd_Watchdog (pack_u32 timeout_ms ++ [action_byte]).

Definition two_f32_frame (node : Z) (cmd : CommandId) (a b : f32) : CanFrame :=
  data_cmd node cmd (pack_f32 a ++ pack_f32 b).

Definition encode_limits (node : Z) (velocity_limit_ticks_s current_limit_ma : f32) : CanFrame :=
  two_f32_frame node Cmd_Limits velocity_limit_ticks_s current_limit_ma.
Definition encode_voltage_limit (node limit_mv : Z) : CanFrame :=
  data_cmd node Cmd_VoltageLimit (pack_u32 limit_mv).
Definition encode_gripper_id (node tool_id : Z) : CanFrame := data_cmd node Cmd_SetGripperId [tool_id].

(** [Readback::kind]. *)
Definition readback_kind (r : Readback) : ConfigKind :=
  match r with
  | Rb_Watchdog _ _ => CK_Watchdog
  | Rb_Limits _ _ => CK_Limits
  | Rb_VoltageLimit _ => CK_VoltageLimit
  | Rb_PdGains _ _ => CK_PdGains
  | Rb_CurrentGains _ _ => CK_CurrentGains
  | Rb_VelocityGains _ _ => CK_VelocityGains
  | Rb_PositionGains _ => CK_PositionGains
  end.

Definition readback_command (kind : ConfigKind) : CommandId :=
  match kind with
  | CK_Watchdog => Cmd_Watchdog
  | CK_Limits => Cmd_Limits
  | CK_VoltageLimit => Cmd_VoltageLimit
  | CK_PdGains => Cmd_PdGains
  | CK_CurrentGains => Cmd_CurrentGains
  | CK_VelocityGains => Cmd_VelocityGains
  | CK_PositionGains => Cmd_PositionGains
  end.

Definition encode_readback_request (node : Z) (kind : ConfigKind) : CanFrame :=
  rtr_frame (pack_can_id node (readback_command kind) false).

(** [codec::CAPTURE_LEN], as the u16 of the wire. *)
Definition CAPTURE_LEN_U16 : Z := 1024.
Definition CAPTURE_STATUS_CHANNEL : Z := 0xFF.
Definition RIPPLE_SLOTS : nat := 8.

Definition encode_capture (node divisor wanted : Z) : CanFrame :=
  data_cmd node Cmd_Capture (Z.max divisor 1 :: be_bytes 2 (Z.min wanted CAPTURE_LEN_U16)).
Definition encode_capture_read (node channel chunk : Z) : CanFrame :=
  data_cmd node Cmd_CaptureRead (channel :: be_bytes 2 chunk).
Definition encode_capture_stream (node : Z) : CanFrame := data_cmd node Cmd_CaptureStream [].
Definition encode_ripple (node slot harmonic a_ma b_ma : Z) : CanFrame :=
  data_cmd node Cmd_Ripple ([slot; harmonic] ++ be_bytes 2 a_ma ++ be_bytes 2 b_ma).
Definition encode_velocity_window (node window : Z) : CanFrame :=
  data_cmd node Cmd_VelocityWindow [window].
Definition encode_pd_gains (node : Z) (kp kd : f32) : CanFrame := two_f32_frame node Cmd_PdGains kp kd.
Definition encode_current_gains (node : Z) (kpiq kiiq : f32) : CanFrame :=
  two_f32_frame node Cmd_CurrentGains kpiq kiiq.
Definition encode_velocity_gains (node : Z) (kpv kiv : f32) : CanFrame :=
  two_f32_frame node Cmd_VelocityGains kpv kiv.
Definition encode_position_gains (node : Z) (kpp : f32) : CanFrame :=
  data_cmd node Cmd_PositionGains (pack_f32 kpp).
Definition encode_kt (node : Z) (kt_nm_a : f32) : CanFrame := data_cmd node Cmd_Kt (pack_f32 kt_nm_a).
Definition encode_heartbeat_setup (node period_ms : Z) : CanFrame :=
  data_cmd node Cmd_HeartbeatSetup (pack_u32 period_ms).
Definition encode_set_can_id (node new_id : Z) : CanFrame := data_cmd node Cmd_SetCanId [new_id].

Definition poll_command (kind : PollKind) : CommandId :=
  match kind with
  | PK_Telemetry => Cmd_Telemetry
  | PK_Temperature => Cmd_Temperature
  | PK_Voltage => Cmd_Voltage
  | PK_Errors => Cmd_StateOfErrors
  | PK_DeviceInfo => Cmd_DeviceInfo
  | PK_Encoder => Cmd_EncoderData
  | PK_Kt => Cmd_RespondKt
  | PK_Ping => Cmd_Ping
  end.

Definition encode_poll (node : Z) (kind : PollKind) : CanFrame :=
  rtr_frame (pack_can_id node (poll_command kind) false).

(** ** Decoding: driver to host *)

(** Every refusal carries the node, the raw command and the err bit. *)
Inductive DecodeError :=
| DE_Reserved (node cmd : Z) (err_bit : bool)
| DE_NotAReply (node cmd : Z) (err_bit : bool)
| DE_UnknownCommand (node cmd : Z) (err_bit : bool)
| DE_WrongDlc (node cmd : Z) (err_bit : bool) (dlc expected : Z).

Definition de_node (e : DecodeError) : Z :=
  match e with
  | DE_Reserved n _ _ | DE_NotAReply n _ _ | DE_UnknownCommand n _ _ | DE_WrongDlc n _ _ _ _ => n
  end.

Definition de_err_bit (e : DecodeError) : bool :=
  match e with
  | DE_Reserved _ _ b | DE_NotAReply _ _ b | DE_UnknownCommand _ _ b | DE_WrongDlc _ _ b _ _ => b
  end.

Inductive Payload :=
| Pl_Motion (position_ticks speed_ticks_s current_ma : Z)
| Pl_Encoder (position_ticks speed_ticks_s : Z)
| Pl_Hall (position_ticks : Z) (state : HallState)
| Pl_Temperature (deg_c : Z)
| Pl_Voltage (mv : Z)
| Pl_IqCurrent (ma : Z)
| Pl_Errors (flags : ErrorFlags)
| Pl_Readback (r : Readback)
| Pl_Capture (channel chunk : Z) (samples : Z * Z)
| Pl_CaptureStatus (recorded wanted divisor : Z)
| Pl_Telemetry (deg_c mv : Z) (flags : ErrorFlags) (ma : Z)
| Pl_DeviceInfo (info : DeviceInfo)
| Pl_Kt (nm_per_a : f32)
| Pl_Gripper (reply : GripperReply)
| Pl_Ping
| Pl_Heartbeat.

Record DecodedFrame := mkDecoded {
  df_node : Z;
  df_err_bit : bool;
  df_payload : Payload;
}.

Definition expect_dlc (f : CanFrame) (node cmd : Z) (err_bit : bool) (expected : Z)
  : result DecodeError unit :=
  if negb (fr_dlc f =? expected) then Err (DE_WrongDlc node cmd err_bit (fr_dlc f) expected) else Ok tt.

Definition object_detection_from_bits (msb lsb : bool) : ObjectDetection :=
  match msb, lsb with
  | false, false => OD_Moving
  | false, true => OD_DetectedClosing
  | true, false => OD_DetectedOpening
  | true, true => OD_ReachedNoObject
  end.

(** Multi-byte reads at a position of the payload. *)
Definition i24_at (d : bytes) (i : nat) : Z := unpack_i24 (byte d i) (byte d (i + 1)) (byte d (i + 2)).
Definition i16_at (d : bytes) (i : nat) : Z := unpack_i16 (byte d i) (byte d (i + 1)).
Definition i32_at (d : bytes) (i : nat) : Z :=
  unpack_i32 (byte d i) (byte d (i + 1)) (byte d (i + 2)) (byte d (i + 3)).
Definition u32_at (d : bytes) (i : nat) : Z :=
  unpack_u32 (byte d i) (byte d (i + 1)) (byte d (i + 2)) (byte d (i + 3)).
Definition f32_at (d : bytes) (i : nat) : f32 :=
  unpack_f32 (byte d i) (byte d (i + 1)) (byte d (i + 2)) (byte d (i + 3)).

(** The arms of [decode_frame], after the id and the remote bit. *)
Definition decode_payload (f : CanFrame) (node raw_cmd : Z) (err_bit : bool) (cmd : CommandId)
  : result DecodeError Payload :=
  let d := frame_payload f in
  let expect := expect_dlc f node raw_cmd err_bit in
  match cmd with
  | Cmd_RespondDataPack1 =>
      expect 8 ;;? Ok (Pl_Motion (i24_at d 0) (i24_at d 3) (i16_at d 6))
  | Cmd_EncoderData => expect 8 ;;? Ok (Pl_Encoder (i32_at d 0) (i32_at d 4))
  | Cmd_RespondDataHall =>
      expect 4 ;;?
      let bits := unfold_bits_msb_first (byte d 3) in
      Ok (Pl_Hall (i24_at d 0) (mkHallState (bit bits 0) (bit bits 1) (bit bits 2)))
  | Cmd_Temperature => expect 2 ;;? Ok (Pl_Temperature (i16_at d 0))
  | Cmd_Voltage => expect 2 ;;? Ok (Pl_Voltage (i16_at d 0))
  | Cmd_IqData => expect 2 ;;? Ok (Pl_IqCurrent (i16_at d 0))
  | Cmd_StateOfErrors => expect 2 ;;? Ok (Pl_Errors (unpack_error_flags (byte d 0) (byte d 1)))
  | Cmd_Telemetry =>
      expect 8 ;;?
      Ok (Pl_Telemetry (i16_at d 0) (i16_at d 2) (unpack_error_flags (byte d 4) (byte d 5)) (i16_at d 6))
  | Cmd_CaptureRead | Cmd_CaptureStreamData =>
      expect 7 ;;?
      let word := fun i => from_be [byte d i; byte d (i + 1)] in
      if byte d 0 =? CAPTURE_STATUS_CHANNEL then Ok (Pl_CaptureStatus (word 1%nat) (word 3%nat) (word 5%nat))
      else Ok (Pl_Capture (byte d 0) (word 1%nat) (i16_at d 3, i16_at d 5))
  | Cmd_DeviceInfo =>
      (if negb (fr_dlc f =? 7) then expect 8 else Ok tt) ;;?
      Ok (Pl_DeviceInfo (mkDeviceInfo (byte d 0) (byte d 1) (byte d 2) (i32_at d 3)
        (if fr_dlc f =? 8 then byte d 7 else 0)))
  | Cmd_RespondKt => expect 4 ;;? Ok (Pl_Kt (f32_at d 0))
  | Cmd_RespondGripperData =>
      expect 4 ;;?
      let bits := unfold_bits_msb_first (byte d 3) in
      Ok (Pl_Gripper (mkReply (byte d 0) (i16_at d 1) (bit bits 0) (bit bits 1)
        (object_detection_from_bits (bit bits 3) (bit bits 2))
        (bit bits 4) (bit bits 5) (bit bits 6) (bit bits 7)))
  | Cmd_Ping => Ok Pl_Ping
  | Cmd_RespondHeartbeat => Ok Pl_Heartbeat
  | Cmd_RespondDataPack2 | Cmd_RespondDataPack3 => Err (DE_Reserved node raw_cmd err_bit)
  | Cmd_Watchdog => expect 5 ;;? Ok (Pl_Readback (Rb_Watchdog (u32_at d 0) (byte d 4)))
  | Cmd_Limits => expect 8 ;;? Ok (Pl_Readback (Rb_Limits (f32_at d 0) (f32_at d 4)))
  | Cmd_VoltageLimit => expect 4 ;;? Ok (Pl_Readback (Rb_VoltageLimit (u32_at d 0)))
  | Cmd_PdGains => expect 8 ;;? Ok (Pl_Readback (Rb_PdGains (f32_at d 0) (f32_at d 4)))
  | Cmd_CurrentGains => expect 8 ;;? Ok (Pl_Readback (Rb_CurrentGains (f32_at d 0) (f32_at d 4)))
  | Cmd_VelocityGains => expect 8 ;;? Ok (Pl_Readback (Rb_VelocityGains (f32_at d 0) (f32_at d 4)))
  | Cmd_PositionGains => expect 4 ;;? Ok (Pl_Readback (Rb_PositionGains (f32_at d 0)))
  | Cmd_Estop | Cmd_ClearError | Cmd_DataPack1 | Cmd_DataPackPd | Cmd_SetCanId | Cmd_Idle
  | Cmd_SaveConfig | Cmd_Reset | Cmd_Kt | Cmd_HeartbeatSetup | Cmd_DataPackHall | Cmd_SetGripperId
  | Cmd_Capture | Cmd_Ripple | Cmd_VelocityWindow | Cmd_CaptureStream | Cmd_GripperDataPack
  | Cmd_GripperCalibrate => Err (DE_NotAReply node raw_cmd err_bit)
  end.

Definition decode_frame (f : CanFrame) : result DecodeError DecodedFrame :=
  let '(node, raw_cmd, err_bit) := unpack_can_id (fr_id f) in
  match from_raw raw_cmd with
  | None => Err (DE_UnknownCommand node raw_cmd err_bit)
  | Some cmd =>
      if fr_rtr f then Err (DE_NotAReply node raw_cmd err_bit)
      else
        let? payload := decode_payload f node raw_cmd err_bit cmd in
        Ok (mkDecoded node err_bit payload)
  end.
