(* ===== verification/CanLemmas.v ===== *)
(** * CanLemmas: the arithmetic of ids and payloads

    Shifts and masks of the CAN codec as divisions and remainders, the round
    trips of the payload primitives, and the reads of a payload that was laid out
    from them: what the theorems about frames rest on. *)
From stdpp Require Import list.
From S2P Require Import Prelude F64 BusTypes CanCodec.

(** ** The command table *)

Lemma raw_range c : 0 <= raw c < 64.
Proof. destruct c; cbn; lia. Qed.

Lemma from_raw_raw c : from_raw (raw c) = Some c.
Proof. by destruct c. Qed.

Lemma raw_inj c1 c2 : raw c1 = raw c2 -> c1 = c2.
Proof. intros H. pose proof (from_raw_raw c1) as E. rewrite H, from_raw_raw in E. by simplify_eq. Qed.

(** The table is a partial bijection: a raw value names at most one command. *)
Lemma from_raw_spec r c : from_raw r = Some c <-> raw c = r.
Proof.
  split; [|intros <-; apply from_raw_raw]. intros H.
  destruct r as [|p|p]; [by destruct c| |done].
  destruct (decide (Zpos p < 64)) as [Hp|Hp].
  - assert (In (Zpos p) (seqZ 0 64)) as Hin by (apply list_elem_of_In, elem_of_seqZ; lia).
    revert H. repeat (destruct Hin as [<-|Hin]; [by destruct c|]). done.
  - exfalso. revert H. do 6 (destruct p as [p|p|]; try done; try lia).
Qed.

(** ** Arbitration ids *)

Lemma b2z_range b : 0 <= b2z b < 2.
Proof. destruct b; cbn; lia. Qed.

Lemma land_mod v k : 0 <= k -> Z.land v (2 ^ k - 1) = v mod 2 ^ k.
Proof. intros. rewrite <- (Z.land_ones v k) by done. f_equal. rewrite Z.ones_equiv. lia. Qed.

Lemma pack_can_id_value node cmd err :
  0 <= node < 16 -> pack_can_id node cmd err = node * 128 + raw cmd * 2 + b2z err.
Proof.
  intros Hn. pose proof (raw_range cmd). pose proof (b2z_range err). unfold pack_can_id.
  change 0xF with (2 ^ 4 - 1). change 0x3F with (2 ^ 6 - 1). rewrite !land_mod by lia.
  rewrite !Z.mod_small by (cbn; lia). rewrite !Z.shiftl_mul_pow2 by lia.
  rewrite (lor_marker node 7) by (cbn; lia).
  replace (node * 2 ^ 7 + raw cmd * 2 ^ 1) with ((node * 64 + raw cmd) * 2 ^ 1) by (cbn; lia).
  rewrite lor_marker by (cbn; lia). cbn. lia.
Qed.

Lemma unpack_can_id_value id :
  unpack_can_id id = ((id / 128) mod 16, (id / 2) mod 64, id mod 2 =? 1).
Proof.
  unfold unpack_can_id. rewrite !Z.shiftr_div_pow2 by lia.
  change 0xF with (2 ^ 4 - 1). change 0x3F with (2 ^ 6 - 1).
  replace (Z.land id 1) with (Z.land id (2 ^ 1 - 1)) by done. rewrite !land_mod by lia. done.
Qed.

Lemma unpack_pack_can_id node cmd err :
  0 <= node < 16 -> unpack_can_id (pack_can_id node cmd err) = (node, raw cmd, err).
Proof.
  intros Hn. rewrite pack_can_id_value, unpack_can_id_value by done.
  pose proof (raw_range cmd). pose proof (b2z_range err).
  set (v := node * 128 + raw cmd * 2 + b2z err).
  assert (v / 128 = node) as -> by (unfold v; symmetry; apply Z.div_unique with (raw cmd * 2 + b2z err); lia).
  assert (v / 2 = node * 64 + raw cmd) as ->
    by (unfold v; symmetry; apply Z.div_unique with (b2z err); lia).
  assert (v mod 2 = b2z err) as ->
    by (unfold v; symmetry; apply Z.mod_unique with (node * 64 + raw cmd); lia).
  rewrite (Z.mod_small node) by lia.
  replace ((node * 64 + raw cmd) mod 64) with (raw cmd)
    by (apply Z.mod_unique with node; lia).
  by destruct err.
Qed.

(** ** Payload primitives *)

Lemma wrap8_byte v : is_uint 8 (wrap 8 v) = true.
Proof. by apply wrap_range. Qed.

Lemma shiftl_lor b k n : 0 <= k -> 0 <= n < 2 ^ k -> Z.lor (Z.shiftl b k) n = b * 2 ^ k + n.
Proof. intros. rewrite Z.shiftl_mul_pow2 by done. by apply lor_marker. Qed.

(** Any value packs to the 24 bits the reader sign-extends. *)
Lemma unpack_pack_i24 v :
  unpack_i24 (byte (pack_i24 v) 0) (byte (pack_i24 v) 1) (byte (pack_i24 v) 2) = swrap 24 v.
Proof.
  unfold pack_i24, byte. cbn [nth]. unfold unpack_i24, swrap.
  replace (Z.land (wrap 32 v) 0x00FFFFFF) with (wrap 24 v).
  2:{ change 0x00FFFFFF with (2 ^ 24 - 1). rewrite land_mod by lia. unfold wrap.
      symmetry. apply Z.mod_mod_divide. by exists (2 ^ 8). }
  pose proof (wrap_range 24 v ltac:(lia)) as H. rewrite is_uint_spec in H.
  set (u := wrap 24 v) in *. clearbody u.
  rewrite !Z.shiftr_div_pow2 by lia. unfold wrap. rewrite !Z.shiftl_mul_pow2 by lia.
  assert (Z.lor (Z.lor ((u / 2 ^ 16) mod 2 ^ 8 * 2 ^ 16) ((u / 2 ^ 8) mod 2 ^ 8 * 2 ^ 8)) (u mod 2 ^ 8) = u)
    as ->.
  2:{ change (1 * 2 ^ 23) with 8388608. change (2 ^ (24 - 1)) with 8388608.
      destruct (Z.leb_spec 8388608 u), (Z.ltb_spec u 8388608); lia. }
  change (2 ^ 24) with 16777216 in H. change (2 ^ 16) with 65536. change (2 ^ 8) with 256.
  pose proof (Z.div_mod u 256 ltac:(lia)). pose proof (Z.mod_pos_bound u 256 ltac:(lia)).
  pose proof (Z.mod_pos_bound (u / 256) 256 ltac:(lia)).
  assert (u / 65536 = u / 256 / 256) as E by (rewrite Z.div_div by lia; done).
  pose proof (Z.div_mod (u / 256) 256 ltac:(lia)).
  assert (0 <= u / 65536 < 256) by (split; [apply Z.div_pos; lia | apply Z.div_lt_upper_bound; lia]).
  rewrite (Z.mod_small (u / 65536)) by lia.
  change 65536 with (2 ^ 16). rewrite (lor_marker (u / 2 ^ 16) 16) by (cbn; lia).
  replace (u / 2 ^ 16 * 2 ^ 16 + (u / 256) mod 256 * 256)
    with ((u / 2 ^ 16 * 256 + (u / 256) mod 256) * 2 ^ 8) by (cbn; lia).
  rewrite lor_marker by (cbn; lia). change (2 ^ 16) with 65536. change (2 ^ 8) with 256. lia.
Qed.

Lemma swrap_bounds w v : 1 <= w -> is_sint w (swrap w v) = true.
Proof.
  intros Hw. rewrite is_sint_spec. unfold swrap.
  pose proof (wrap_range w v ltac:(lia)) as H. rewrite is_uint_spec in H.
  assert (2 ^ w = 2 * 2 ^ (w - 1)) by (rewrite <- Z.pow_succ_r by lia; f_equal; lia).
  destruct (Z.ltb_spec (wrap w v) (2 ^ (w - 1))); lia.
Qed.

Lemma swrap_small w v : 1 <= w -> is_sint w v = true -> swrap w v = v.
Proof.
  intros Hw Hv. rewrite <- (swrap_wrap w v) at 2 by done. unfold swrap, wrap. by rewrite Zmod_mod.
Qed.

Lemma swrap_swrap w v : 1 <= w -> swrap w (swrap w v) = swrap w v.
Proof. intros. apply swrap_small; [done|]. by apply swrap_bounds. Qed.

Lemma from_be_mod n v : from_be (be_bytes n v) = v mod 2 ^ (8 * Z.of_nat n).
Proof. unfold from_be. rewrite from_be_acc_be_bytes. lia. Qed.

Lemma unpack_pack_i16 v : unpack_i16 (byte (pack_i16 v) 0) (byte (pack_i16 v) 1) = swrap 16 v.
Proof.
  unfold unpack_i16, pack_i16. change [byte (be_bytes 2 v) 0; byte (be_bytes 2 v) 1] with (be_bytes 2 v).
  rewrite from_be_mod. unfold swrap, wrap. change (8 * Z.of_nat 2) with 16. by rewrite Zmod_mod.
Qed.

Lemma unpack_pack_i32 v :
  let p := pack_i32 v in unpack_i32 (byte p 0) (byte p 1) (byte p 2) (byte p 3) = swrap 32 v.
Proof.
  cbv zeta. unfold unpack_i32, pack_i32.
  change [byte (be_bytes 4 v) 0; byte (be_bytes 4 v) 1; byte (be_bytes 4 v) 2; byte (be_bytes 4 v) 3]
    with (be_bytes 4 v).
  rewrite from_be_mod. unfold swrap, wrap. change (8 * Z.of_nat 4) with 32. by rewrite Zmod_mod.
Qed.

Lemma unpack_pack_u32 v :
  is_uint 32 v = true ->
  let p := pack_u32 v in unpack_u32 (byte p 0) (byte p 1) (byte p 2) (byte p 3) = v.
Proof.
  intros Hv. cbv zeta. unfold unpack_u32, pack_u32.
  change [byte (be_bytes 4 v) 0; byte (be_bytes 4 v) 1; byte (be_bytes 4 v) 2; byte (be_bytes 4 v) 3]
    with (be_bytes 4 v).
  by apply from_be_be_bytes.
Qed.

Lemma word_of_be v : is_uint 16 v = true -> from_be (be_bytes 2 v) = v.
Proof. apply (from_be_be_bytes 2). Qed.

Lemma length_pack_i24 v : length (pack_i24 v) = 3%nat. Proof. done. Qed.
Lemma length_pack_i16 v : length (pack_i16 v) = 2%nat. Proof. done. Qed.
Lemma length_pack_f32 v : length (pack_f32 v) = 4%nat. Proof. done. Qed.

(** ** Bit lists *)

Lemma unfold_fold_bits a b c d e f g h :
  unfold_bits_msb_first (fold_bits_msb_first [a; b; c; d; e; f; g; h]) = [a; b; c; d; e; f; g; h].
Proof. by destruct a, b, c, d, e, f, g, h. Qed.

Lemma fold_bits_byte a b c d e f g h :
  is_uint 8 (fold_bits_msb_first [a; b; c; d; e; f; g; h]) = true.
Proof. by destruct a, b, c, d, e, f, g, h. Qed.

(** ** Payloads *)

Lemma payload_data_frame id p : (length p <= CAN_MAX_DATA)%nat -> frame_payload (data_frame id p) = p.
Proof.
  intros H. unfold frame_payload, data_frame. cbn [fr_dlc fr_data].
  unfold CAN_MAX_DATA in *. unfold wrap. change (2 ^ 8) with 256.
  rewrite Z.mod_small by lia. rewrite Z.min_l, Nat2Z.id by lia.
  by rewrite take_app_length'.
Qed.

Lemma dlc_data_frame id p :
  (length p <= CAN_MAX_DATA)%nat -> fr_dlc (data_frame id p) = Z.of_nat (length p).
Proof.
  intros H. cbn. unfold CAN_MAX_DATA in *. unfold wrap. change (2 ^ 8) with 256.
  by rewrite Z.mod_small by lia.
Qed.

Lemma frame_payload_length f :
  length (fr_data f) = CAN_MAX_DATA -> 0 <= fr_dlc f ->
  length (frame_payload f) = Z.to_nat (Z.min (fr_dlc f) (Z.of_nat CAN_MAX_DATA)).
Proof.
  intros Hd Hl. unfold frame_payload. rewrite length_take, Hd. unfold CAN_MAX_DATA. lia.
Qed.
