(* ===== verification/CanSched.v ===== *)
(** * CanSched: what goes on the CAN bus, and when

    [crates/par6-bus/src/hw/sched.rs] and [node_config.rs]: the round-robin poll
    scheduler with its override slot, the freshness clock, the configuration
    frames of a node and the paced boot load; and the frame budget of
    [budget.rs].  Node ids are the four bits of an arbitration id, so an index is
    always within the sixteen entries. *)
From Stdlib Require Import SpecFloat.
From stdpp Require Import list.
From S2P Require Import Prelude F64 BusTypes CanCodec.

Definition DEVICE_INFO_PERIOD_SLOTS : Z := 1006.

(** ** The poll scheduler *)

Inductive PollStep :=
| PS_Override (action : PollAction)
| PS_Poll (target : nat) (kind : PollKind).

(** The counters are u64; they grow by one a tick. *)
Record PollScheduler := mkPoll {
  ps_targets : nat;
  ps_legacy : list bool;
  ps_cycle : list (nat * PollKind);
  ps_cursor : Z;
  ps_slot : Z;
  ps_device_info_remaining : nat;
  ps_override : option (PollAction * Z);
}.

Definition poll_default : PollScheduler := mkPoll 0 [] [] 0 0 0 None.

(** The polls of one target in a cycle. *)
Definition target_polls (target : nat) (legacy : bool) : list (nat * PollKind) :=
  if legacy then [(target, PK_Temperature); (target, PK_Voltage); (target, PK_Errors)]
  else [(target, PK_Telemetry)].

Definition rebuild_cycle (s : PollScheduler) : PollScheduler :=
  mkPoll (ps_targets s) (ps_legacy s) (concat (imap target_polls (ps_legacy s)))
    (ps_cursor s) (ps_slot s) (ps_device_info_remaining s) (ps_override s).

Definition poll_configure (targets : nat) (s : PollScheduler) : PollScheduler :=
  rebuild_cycle (mkPoll targets (replicate targets false) [] 0 0 0 None).

Definition set_legacy (target : nat) (legacy : bool) (s : PollScheduler) : PollScheduler :=
  if (target <? ps_targets s)%nat && negb (Bool.eqb (nth target (ps_legacy s) false) legacy) then
    rebuild_cycle (mkPoll (ps_targets s) (<[target := legacy]> (ps_legacy s)) (ps_cycle s)
      (ps_cursor s) (ps_slot s) (ps_device_info_remaining s) (ps_override s))
  else s.

Definition queue_override (action : PollAction) (repeats : Z) (s : PollScheduler) : PollScheduler :=
  if repeats =? 0 then s
  else mkPoll (ps_targets s) (ps_legacy s) (ps_cycle s) (ps_cursor s) (ps_slot s)
         (ps_device_info_remaining s) (Some (action, repeats)).

Definition set_override (o : option (PollAction * Z)) (s : PollScheduler) : PollScheduler :=
  mkPoll (ps_targets s) (ps_legacy s) (ps_cycle s) (ps_cursor s) (ps_slot s)
    (ps_device_info_remaining s) o.

(** [PollScheduler::step]. *)
Definition sched_step (s : PollScheduler) : option PollStep * PollScheduler :=
  if (ps_targets s =? 0)%nat then (None, s)
  else
    match ps_override s with
    | Some (action, repeats) =>
        (Some (PS_Override action),
         set_override (if 1 <? repeats then Some (action, repeats - 1) else None) s)
    | None =>
        let slot := ps_slot s + 1 in
        if (0 <? ps_device_info_remaining s)%nat then
          let target := (ps_targets s - ps_device_info_remaining s)%nat in
          (Some (PS_Poll target PK_DeviceInfo),
           mkPoll (ps_targets s) (ps_legacy s) (ps_cycle s) (ps_cursor s) slot
             (ps_device_info_remaining s - 1) None)
        else
          let remaining :=
            if slot mod DEVICE_INFO_PERIOD_SLOTS =? 0 then ps_targets s else ps_device_info_remaining s in
          let '(target, kind) :=
            nth (Z.to_nat (ps_cursor s mod Z.of_nat (length (ps_cycle s)))) (ps_cycle s) (0%nat, PK_Telemetry) in
          (Some (PS_Poll target kind),
           mkPoll (ps_targets s) (ps_legacy s) (ps_cycle s) (ps_cursor s + 1) slot remaining None)
    end.

(** ** The freshness clock *)

(** Ticks are u64; [None]: never seen. *)
Record FreshnessClock := mkFresh {
  fc_stale_warn_ticks : Z;
  fc_lost_ticks : Z;
  fc_last_rx_tick : list (option Z);
  fc_lost_latched : list bool;
  fc_last_gripper_rx_tick : option Z;
}.

Definition fresh_default : FreshnessClock :=
  mkFresh U64_MAX U64_MAX (replicate MAX_NODES None) (replicate MAX_NODES false) None.

Definition fresh_configure (stale_warn_ticks lost_ticks : Z) (f : FreshnessClock) : FreshnessClock :=
  mkFresh (Z.max stale_warn_ticks 1) (Z.max lost_ticks 1) (replicate MAX_NODES None)
    (replicate MAX_NODES false) None.

Definition last_rx (f : FreshnessClock) (node : Z) : option Z :=
  nth (Z.to_nat node) (fc_last_rx_tick f) None.
Definition latched (f : FreshnessClock) (node : Z) : bool :=
  nth (Z.to_nat node) (fc_lost_latched f) false.

Definition latch_lost (tick : Z) (f : FreshnessClock) : FreshnessClock :=
  let latch_node last latched :=
    match last with
    | Some last => if fc_lost_ticks f <=? saturating_sub tick last then true else latched
    | None => latched
    end in
  mkFresh (fc_stale_warn_ticks f) (fc_lost_ticks f) (fc_last_rx_tick f)
    (zip_with latch_node (fc_last_rx_tick f) (fc_lost_latched f)) (fc_last_gripper_rx_tick f).

(** The flag: a reconnect. *)
Definition mark (node tick : Z) (booted : bool) (f : FreshnessClock) : bool * FreshnessClock :=
  let reconnected :=
    match last_rx f node with
    | None => negb booted
    | Some last => fc_stale_warn_ticks f <=? saturating_sub tick last
    end in
  (reconnected,
   mkFresh (fc_stale_warn_ticks f) (fc_lost_ticks f) (<[Z.to_nat node := Some tick]> (fc_last_rx_tick f))
     (fc_lost_latched f) (fc_last_gripper_rx_tick f)).

Definition mark_gripper (tick : Z) (f : FreshnessClock) : FreshnessClock :=
  mkFresh (fc_stale_warn_ticks f) (fc_lost_ticks f) (fc_last_rx_tick f) (fc_lost_latched f) (Some tick).

Definition age (f : FreshnessClock) (node tick : Z) : Z :=
  match last_rx f node with Some last => saturating_sub tick last | None => U64_MAX end.

Definition gripper_age (f : FreshnessClock) (tick : Z) : Z :=
  match fc_last_gripper_rx_tick f with Some last => saturating_sub tick last | None => U64_MAX end.

Definition classify (f : FreshnessClock) (node tick : Z) : Freshness :=
  if latched f node then Fr_Lost
  else
    match last_rx f node with
    | None => Fr_Unknown
    | Some last =>
        let age := saturating_sub tick last in
        if fc_lost_ticks f <=? age then Fr_Lost
        else if fc_stale_warn_ticks f <=? age then Fr_Stale
        else Fr_Fresh
    end.

Definition clear_latch (node tick : Z) (f : FreshnessClock) : FreshnessClock :=
  mkFresh (fc_stale_warn_ticks f) (fc_lost_ticks f) (<[Z.to_nat node := Some tick]> (fc_last_rx_tick f))
    (<[Z.to_nat node := false]> (fc_lost_latched f)) (fc_last_gripper_rx_tick f).

Definition refit_gripper (node tick : Z) (f : FreshnessClock) : FreshnessClock :=
  mark_gripper tick (clear_latch node tick f).

Definition rebase (tick : Z) (f : FreshnessClock) : FreshnessClock :=
  mkFresh (fc_stale_warn_ticks f) (fc_lost_ticks f) (replicate MAX_NODES (Some tick))
    (replicate MAX_NODES false) (Some tick).

(** ** The configuration of a node *)

Definition CONFIG_ORDER : list ConfigKind :=
  [CK_Watchdog; CK_Limits; CK_VoltageLimit; CK_PdGains; CK_CurrentGains; CK_VelocityGains; CK_PositionGains].

(** [ConfigKind::index]. *)
Definition config_index (kind : ConfigKind) : nat :=
  match list_find (fun k => k = kind) CONFIG_ORDER with Some (i, _) => i | None => 0%nat end.

(** A ripple slot: harmonic, cosine and sine amplitude [mA]. *)
Definition RippleSlots : Type := list (Z * Z * Z).

Record NodeConfig := mkNodeConfig {
  nc_node : Z;
  nc_watchdog_ms : Z;
  nc_watchdog_action : WatchdogAction;
  nc_velocity_limit_ticks_s : f64;
  nc_ilim_ma : f64;
  nc_voltage_limit_mv : Z;
  nc_gains : Gains;
  nc_ripple : RippleSlots;
  nc_velocity_window : option Z;
}.

(** Harmonics into slots; a harmonic past the last slot is dropped. *)
Definition ripple_slots (harmonics : list (Z * Z * Z)) : RippleSlots :=
  take RIPPLE_SLOTS harmonics ++ replicate (RIPPLE_SLOTS - length harmonics) (0, 0, 0).

Definition apply_tune (tune : DriveTune) (c : NodeConfig) : NodeConfig :=
  mkNodeConfig (nc_node c) (nc_watchdog_ms c) (nc_watchdog_action c) (dt_velocity_limit_ticks_s tune)
    (dt_ilim_ma tune) (dt_voltage_limit_mv tune) (dt_gains tune) (nc_ripple c) (nc_velocity_window c).

Definition set_ripple (slots : RippleSlots) (c : NodeConfig) : NodeConfig :=
  mkNodeConfig (nc_node c) (nc_watchdog_ms c) (nc_watchdog_action c) (nc_velocity_limit_ticks_s c)
    (nc_ilim_ma c) (nc_voltage_limit_mv c) (nc_gains c) slots (nc_velocity_window c).

Definition set_window (window : Z) (c : NodeConfig) : NodeConfig :=
  mkNodeConfig (nc_node c) (nc_watchdog_ms c) (nc_watchdog_action c) (nc_velocity_limit_ticks_s c)
    (nc_ilim_ma c) (nc_voltage_limit_mv c) (nc_gains c) (nc_ripple c) (Some window).

Definition has_ripple (c : NodeConfig) : bool :=
  existsb (fun s => negb (fst (fst s) =? 0)) (nc_ripple c).

Definition ripple_frames (node : Z) (slots : RippleSlots) : list CanFrame :=
  imap (fun slot s => encode_ripple node (Z.of_nat slot) (fst (fst s)) (snd (fst s)) (snd s)) slots.

Definition extra_frames (c : NodeConfig) : list CanFrame :=
  (if has_ripple c then ripple_frames (nc_node c) (nc_ripple c) else [])
  ++ match nc_velocity_window c with Some w => [encode_velocity_window (nc_node c) w] | None => [] end.

(** [x as f32] of a configured number. *)
Definition as_f32 (x : f64) : f32 := sf_to_f32_bits (f64_to_SF x).

Definition config_frame (kind : ConfigKind) (c : NodeConfig) : CanFrame :=
  let node := nc_node c in
  let g := nc_gains c in
  match kind with
  | CK_Watchdog => encode_watchdog node (nc_watchdog_ms c) (nc_watchdog_action c)
  | CK_Limits => encode_limits node (as_f32 (nc_velocity_limit_ticks_s c)) (as_f32 (nc_ilim_ma c))
  | CK_VoltageLimit => encode_voltage_limit node (nc_voltage_limit_mv c)
  | CK_PdGains => encode_pd_gains node (as_f32 (g_kp g)) (as_f32 (g_kd g))
  | CK_CurrentGains => encode_current_gains node (as_f32 (g_kpiq g)) (as_f32 (g_kiiq g))
  | CK_VelocityGains => encode_velocity_gains node (as_f32 (g_kpv g)) (as_f32 (g_kiv g))
  | CK_PositionGains => encode_position_gains node (as_f32 (g_kpp g))
  end.

(** ** The boot load *)

Inductive BootStep :=
| BS_Frame (f : CanFrame)
| BS_Pace.

(** One pass. *)
Definition boot_pass (configs : list NodeConfig) : list BootStep :=
  let batch kind := map (fun c => BS_Frame (config_frame kind c)) configs ++ [BS_Pace] in
  let extra := concat (map extra_frames configs) in
  concat (map batch CONFIG_ORDER)
  ++ match extra with [] => [] | _ => map BS_Frame extra ++ [BS_Pace] end.

Definition boot_config_plan (configs : list NodeConfig) (repeats : nat) : list BootStep :=
  match configs with
  | [] => []
  | _ => concat (replicate repeats (boot_pass configs))
  end.

(** ** The frame budget (budget.rs) *)

Definition FRAME_BITS : Z := 135.
Definition MAX_UTILISATION : spec_float := f64_to_SF 0x3FE999999999999A.

Record BusBudget := mkBudget {
  bb_frames_per_tick : Z;
  bb_wire_time_s : spec_float;
  bb_utilisation : spec_float;
  bb_max_tick_rate_hz : spec_float;
}.

Definition budget_fits (b : BusBudget) : bool := sf_le (bb_utilisation b) MAX_UTILISATION.

Definition bus_budget (joints : Z) (has_can_gripper : bool) (bitrate : Z) (tick_dt_s : f64) : BusBudget :=
  let tx := joints + b2z has_can_gripper + 1 in
  let frames_per_tick := tx * 2 in
  let wire_time_s := sf_div (sf_of_int (frames_per_tick * FRAME_BITS)) (sf_of_int (Z.max bitrate 1)) in
  mkBudget frames_per_tick wire_time_s (sf_div wire_time_s (f64_to_SF tick_dt_s))
    (sf_div MAX_UTILISATION wire_time_s).
