(* ===== verification/CanBus.v ===== *)
(** * CanBus: the SocketCAN backend

    [SocketCanBus] of [crates/par6-bus/src/hw/mod.rs]: its state, the boot
    sequence, the drain of received frames with the bookkeeping of each, the
    transmissions and the operations of [DriverBus].  The socket is the class
    [CanSocket]: what a write answers and what arrives during a wait, each given
    the writes so far; the receive queue is part of the state.  Sleeps, logging
    and the link monitor are left out. *)
From Stdlib Require Import SpecFloat.
From stdpp Require Import list.
From S2P Require Import Prelude F64 BusTypes CanCodec CanSched.

Definition SILENT_RX_CAP : nat := 64.
Definition TELEMETRY_FALLBACK_POLLS : Z := 3.

(** ** The socket *)

(** What [write_frame] answers; [NoBufs] and [NetDown] are errno 105 and 100. *)
Inductive WriteOutcome := WO_Ok | WO_WouldBlock | WO_NoBufs | WO_NotConnected | WO_BrokenPipe | WO_NetDown | WO_Other.

(** A frame as the kernel delivers it; [data] holds at most eight bytes. *)
Record RawFrame := mkRaw {
  rf_extended : bool;
  rf_error : bool;
  rf_remote : bool;
  rf_raw_id : Z;
  rf_data : bytes;
}.

(** An entry of the receive queue: a frame with its kernel arrival time [ns], an
    interrupted read, a failed one. *)
Inductive RxItem :=
| Rx_Frame (raw : RawFrame) (ts : option Z)
| Rx_Interrupted
| Rx_Broken.

Class CanSocket := {
  write_outcome : list CanFrame -> CanFrame -> WriteOutcome;
  arrivals : list CanFrame -> list RxItem;
}.

(** ** State *)

Record Bus := mkBus {
  b_writes : list CanFrame;
  b_wire : list CanFrame;
  b_rx : list RxItem;
  b_joint_nodes : list Z;
  b_gripper_node : Z;
  b_captures : list CaptureBuffer;
  b_timing_dummy_node : Z;
  b_node_configs : list NodeConfig;
  b_poll_nodes : list Z;
  b_boot_state : BusState;
  b_boot_state_pending : bool;
  b_tick : Z;
  b_dt : f64;
  b_tick_start : Z;
  b_fresh : FreshnessClock;
  b_poll : PollScheduler;
  b_telemetry_unanswered : list Z;
  b_rx_cap : nat;
  b_silent : bool;
  b_configured : bool;
  b_joints_sent_this_tick : bool;
  b_tx_frames_this_tick : Z;
  b_connected : Z;
  b_tx_errors : Z;
  b_rx_frames : Z;
}.

Definition bus_eta (b : Bus) : Bus :=
  mkBus (b_writes b) (b_wire b) (b_rx b) (b_joint_nodes b) (b_gripper_node b) (b_captures b)
    (b_timing_dummy_node b) (b_node_configs b) (b_poll_nodes b) (b_boot_state b)
    (b_boot_state_pending b) (b_tick b) (b_dt b) (b_tick_start b) (b_fresh b) (b_poll b)
    (b_telemetry_unanswered b) (b_rx_cap b) (b_silent b) (b_configured b)
    (b_joints_sent_this_tick b) (b_tx_frames_this_tick b) (b_connected b) (b_tx_errors b)
    (b_rx_frames b).

(** [self.field = v]. *)
Ltac put_field getter b v :=
  let t := eval unfold bus_eta in (bus_eta b) in
  lazymatch t with context T [getter b] => let t' := context T [v] in exact t' end.

Definition put_writes (v : list CanFrame) (b : Bus) : Bus := ltac:(put_field b_writes b v).
Definition put_wire (v : list CanFrame) (b : Bus) : Bus := ltac:(put_field b_wire b v).
Definition put_rx (v : list RxItem) (b : Bus) : Bus := ltac:(put_field b_rx b v).
Definition put_joint_nodes (v : list Z) (b : Bus) : Bus := ltac:(put_field b_joint_nodes b v).
Definition put_gripper_node (v : Z) (b : Bus) : Bus := ltac:(put_field b_gripper_node b v).
Definition put_captures (v : list CaptureBuffer) (b : Bus) : Bus := ltac:(put_field b_captures b v).
Definition put_timing_dummy_node (v : Z) (b : Bus) : Bus := ltac:(put_field b_timing_dummy_node b v).
Definition put_node_configs (v : list NodeConfig) (b : Bus) : Bus := ltac:(put_field b_node_configs b v).
Definition put_poll_nodes (v : list Z) (b : Bus) : Bus := ltac:(put_field b_poll_nodes b v).
Definition put_boot_state (v : BusState) (b : Bus) : Bus := ltac:(put_field b_boot_state b v).
Definition put_boot_state_pending (v : bool) (b : Bus) : Bus := ltac:(put_field b_boot_state_pending b v).
Definition put_tick (v : Z) (b : Bus) : Bus := ltac:(put_field b_tick b v).
Definition put_dt (v : f64) (b : Bus) : Bus := ltac:(put_field b_dt b v).
Definition put_tick_start (v : Z) (b : Bus) : Bus := ltac:(put_field b_tick_start b v).
Definition put_fresh (v : FreshnessClock) (b : Bus) : Bus := ltac:(put_field b_fresh b v).
Definition put_poll (v : PollScheduler) (b : Bus) : Bus := ltac:(put_field b_poll b v).
Definition put_unanswered (v : list Z) (b : Bus) : Bus := ltac:(put_field b_telemetry_unanswered b v).
Definition put_rx_cap (v : nat) (b : Bus) : Bus := ltac:(put_field b_rx_cap b v).
Definition put_silent (v : bool) (b : Bus) : Bus := ltac:(put_field b_silent b v).
Definition put_configured (v : bool) (b : Bus) : Bus := ltac:(put_field b_configured b v).
Definition put_joints_sent (v : bool) (b : Bus) : Bus := ltac:(put_field b_joints_sent_this_tick b v).
Definition put_tx_frames (v : Z) (b : Bus) : Bus := ltac:(put_field b_tx_frames_this_tick b v).
Definition put_connected (v : Z) (b : Bus) : Bus := ltac:(put_field b_connected b v).
Definition put_tx_errors (v : Z) (b : Bus) : Bus := ltac:(put_field b_tx_errors b v).
Definition put_rx_frames (v : Z) (b : Bus) : Bus := ltac:(put_field b_rx_frames b v).

(** [SocketCanBus::open], once the socket is there. *)
Definition bus_open (now : Z) : Bus :=
  mkBus [] [] [] [] 0 (replicate MAX_NODES capture_new) 0 [] [] bus_state_new false 0
    0x3F70624DD2F1A9FC now fresh_default poll_default (replicate MAX_NODES 0) 32 false false false
    0 0 0 0.

(** ** Fallible operations *)

Definition BusM (A : Type) : Type := Bus -> result BusError A * Bus.

Definition bus_ret {A} (a : A) : BusM A := fun b => (Ok a, b).
Definition bus_err {A} (e : BusError) : BusM A := fun b => (Err e, b).
Definition bus_bind {A B} (m : BusM A) (k : A -> BusM B) : BusM B := fun b =>
  match m b with
  | (Ok a, b') => k a b'
  | (Err e, b') => (Err e, b')
  end.
Definition bus_mod (f : Bus -> Bus) : BusM unit := fun b => (Ok tt, f b).

Notation "m1 ;;! m2" := (bus_bind m1 (fun _ => m2)) (at level 100, right associativity) : par6_scope.

(** [for x in l { f(x)?; }]. *)
Fixpoint bus_each {A} (f : A -> BusM unit) (l : list A) : BusM unit :=
  match l with
  | [] => bus_ret tt
  | x :: l' => f x ;;! bus_each f l'
  end.

Section socket.
Context {socket : CanSocket}.

(** [SocketCanBus::send]; the codec's frames always fit a classic CAN frame. *)
Definition send (f : CanFrame) : BusM unit := fun b =>
  let '(node, _, _) := unpack_can_id (fr_id f) in
  let outcome := write_outcome (b_writes b) f in
  let b := put_writes (b_writes b ++ [f]) b in
  match outcome with
  | WO_Ok => (Ok tt, put_tx_frames (b_tx_frames_this_tick b + 1) (put_wire (b_wire b ++ [f]) b))
  | _ =>
      (Err match outcome with
           | WO_WouldBlock | WO_NoBufs => BErr_TxQueueFull
           | WO_NotConnected | WO_BrokenPipe | WO_NetDown => BErr_LinkDown
           | _ => BErr_Tx node
           end,
       put_tx_errors (b_tx_errors b + 1) b)
  end.

Definition send_all (fs : list CanFrame) : BusM unit := bus_each send fs.

(** The frame the decoder is given. *)
Definition frame_of_raw (raw : RawFrame) : CanFrame :=
  let n := Nat.min (length (rf_data raw)) CAN_MAX_DATA in
  mkFrame (wrap 16 (Z.land (rf_raw_id raw) 0x7FF)) (rf_remote raw) (Z.of_nat n)
    (take n (rf_data raw) ++ replicate (CAN_MAX_DATA - n) 0).

(** [SocketCanBus::recv]: one item at a time until a frame, an empty queue or a
    failure. *)
Fixpoint recv_from (queue : list RxItem) (b : Bus)
  : result BusError (option (CanFrame * option Z)) * Bus :=
  match queue with
  | [] => (Ok None, put_rx [] b)
  | Rx_Interrupted :: queue => recv_from queue b
  | Rx_Broken :: queue => (Err BErr_LinkDown, put_rx queue b)
  | Rx_Frame raw ts :: queue =>
      let b := put_rx_frames (b_rx_frames b + 1) b in
      if rf_extended raw || rf_error raw then recv_from queue b
      else (Ok (Some (frame_of_raw raw, ts)), put_rx queue b)
  end.
Definition recv : BusM (option (CanFrame * option Z)) := fun b => recv_from (b_rx b) b.

(** [Duration::as_secs_f64] of a number of nanoseconds. *)
Definition secs_f64 (ns : Z) : spec_float :=
  sf_add (sf_of_int (ns / 1000000000)) (sf_div (sf_of_int (ns mod 1000000000)) (sf_of_int 1000000000)).

Definition age_ticks (b : Bus) (ts : option Z) : Z :=
  match ts with
  | None => 0
  | Some ts =>
      if ts <=? b_tick_start b then
        sf_trunc_as_uint 64 (sf_div (secs_f64 (b_tick_start b - ts)) (f64_to_SF (b_dt b)))
      else 0
  end.

(** ** Bookkeeping of a received frame *)

(** [f] on one node's state. *)
Definition on_node (n : Z) (f : NodeState -> NodeState) (st : BusState) : BusState :=
  mkBusState (alter f (Z.to_nat n) (bs_nodes st)) (bs_gripper st) (bs_frames_last_drain st)
    (bs_frame_age_max_ticks st) (bs_frame_age_min_ticks st) (bs_reconnected_mask st).

Definition node_eta (s : NodeState) : NodeState :=
  mkNodeState (ns_position_ticks s) (ns_position_generation s) (ns_speed_ticks_s s) (ns_current_ma s)
    (ns_temperature_c s) (ns_voltage_mv s) (ns_error_flags s) (ns_kt_nm_a s) (ns_device_info s)
    (ns_combined_telemetry s) (ns_hall s) (ns_live_error_bit s) (ns_readback s) (ns_data_age_ticks s).

Ltac node_field getter s v :=
  let t := eval unfold node_eta in (node_eta s) in
  lazymatch t with context T [getter s] => let t' := context T [v] in exact t' end.

Definition ns_speed (v : option Z) (s : NodeState) : NodeState := ltac:(node_field ns_speed_ticks_s s v).
Definition ns_current (v : option Z) (s : NodeState) : NodeState := ltac:(node_field ns_current_ma s v).
Definition ns_temperature (v : option Z) (s : NodeState) : NodeState := ltac:(node_field ns_temperature_c s v).
Definition ns_voltage (v : option Z) (s : NodeState) : NodeState := ltac:(node_field ns_voltage_mv s v).
Definition ns_flags (v : option ErrorFlags) (s : NodeState) : NodeState := ltac:(node_field ns_error_flags s v).
Definition ns_kt (v : option f32) (s : NodeState) : NodeState := ltac:(node_field ns_kt_nm_a s v).
Definition ns_info (v : option DeviceInfo) (s : NodeState) : NodeState := ltac:(node_field ns_device_info s v).
Definition ns_combined (v : bool) (s : NodeState) : NodeState := ltac:(node_field ns_combined_telemetry s v).
Definition ns_hall_state (v : option HallState) (s : NodeState) : NodeState := ltac:(node_field ns_hall s v).
Definition ns_live (v : bool) (s : NodeState) : NodeState := ltac:(node_field ns_live_error_bit s v).
Definition ns_read (v : list (option Readback)) (s : NodeState) : NodeState := ltac:(node_field ns_readback s v).
Definition ns_age (v : Z) (s : NodeState) : NodeState := ltac:(node_field ns_data_age_ticks s v).

(** What a reply writes into its node. *)
Definition payload_on_node (p : Payload) (s : NodeState) : NodeState :=
  match p with
  | Pl_Motion pos speed cur => ns_current (Some cur) (ns_speed (Some speed) (record_position s pos))
  | Pl_Encoder pos speed => ns_speed (Some speed) (record_position s pos)
  | Pl_Hall pos hall => ns_hall_state (Some hall) (record_position s pos)
  | Pl_Temperature deg => ns_temperature (Some deg) s
  | Pl_Voltage mv => ns_voltage (Some mv) s
  | Pl_IqCurrent ma => ns_current (Some ma) s
  | Pl_Errors flags => ns_flags (Some flags) s
  | Pl_Telemetry deg mv flags ma =>
      ns_combined true (ns_current (Some ma) (ns_flags (Some flags) (ns_voltage (Some mv)
        (ns_temperature (Some deg) s))))
  | Pl_Readback r => ns_read (<[config_index (readback_kind r) := Some r]> (ns_readback s)) s
  | Pl_DeviceInfo info => ns_info (Some info) s
  | Pl_Kt kt => ns_kt (Some kt) s
  | Pl_Capture _ _ _ | Pl_CaptureStatus _ _ _ | Pl_Gripper _ | Pl_Ping | Pl_Heartbeat => s
  end.

(** [apply_payload]. *)
Definition apply_payload (d : DecodedFrame) (st : BusState) : BusState :=
  let st := on_node (df_node d) (payload_on_node (df_payload d)) st in
  let st :=
    match df_payload d with
    | Pl_Gripper reply =>
        mkBusState (bs_nodes st)
          (mkGripperState (Some reply) (df_err_bit d) (gs_data_age_ticks (bs_gripper st)))
          (bs_frames_last_drain st) (bs_frame_age_max_ticks st) (bs_frame_age_min_ticks st)
          (bs_reconnected_mask st)
    | _ => st
    end in
  on_node (df_node d) (ns_live (df_err_bit d)) st.

Definition set_reconnected (n : Z) (st : BusState) : BusState :=
  mkBusState (bs_nodes st) (bs_gripper st) (bs_frames_last_drain st) (bs_frame_age_max_ticks st)
    (bs_frame_age_min_ticks st) (Z.lor (bs_reconnected_mask st) (Z.shiftl 1 n)).

(** Position of a node among the poll targets. *)
Definition target_of (node : Z) (b : Bus) : option nat :=
  fst <$> list_find (fun p => p = node) (b_poll_nodes b).

(** What decoding [f] writes, before freshness is looked at. *)
Definition apply_decoded (f : CanFrame) (b : Bus) (st : BusState) : Z * (Bus * BusState) :=
  match decode_frame f with
  | Ok d =>
      let n := Z.to_nat (df_node d) in
      let st := on_node (df_node d) (ns_live (df_err_bit d)) st in
      let b :=
        match df_payload d with
        | Pl_Telemetry _ _ _ _ => put_unanswered (<[n := 0]> (b_telemetry_unanswered b)) b
        | _ => b
        end in
      (df_node d,
       match df_payload d with
       | Pl_Capture channel chunk samples =>
           (put_captures (alter (fun c => capture_store c channel (Z.to_nat chunk) samples) n (b_captures b)) b, st)
       | Pl_CaptureStatus recorded wanted divisor =>
           (put_captures (alter (fun c => capture_status c recorded wanted divisor) n (b_captures b)) b, st)
       | _ => (b, apply_payload d st)
       end)
  | Err e => (de_node e, (b, on_node (de_node e) (ns_live (de_err_bit e)) st))
  end.

(** [SocketCanBus::apply_rx]. *)
Definition apply_rx (f : CanFrame) (b : Bus) (st : BusState) : Bus * BusState :=
  let '(node, (b, st)) := apply_decoded f b st in
  let booted := Z.testbit (b_connected b) node in
  let b := put_connected (Z.lor (b_connected b) (Z.shiftl 1 node)) b in
  let '(reconnected, fresh) := mark node (b_tick b) booted (b_fresh b) in
  let b := put_fresh fresh b in
  let '(b, st) :=
    if reconnected then
      (match target_of node b with
       | Some target =>
           put_unanswered (<[Z.to_nat node := 0]> (b_telemetry_unanswered b))
             (put_poll (set_legacy target false (b_poll b)) b)
       | None => b
       end, set_reconnected node st)
    else (b, st) in
  let '(_, raw_cmd, _) := unpack_can_id (fr_id f) in
  (if raw_cmd =? raw Cmd_RespondGripperData then put_fresh (mark_gripper (b_tick b) (b_fresh b)) b else b, st).

(** ** Publication *)

Definition publish_ages (b : Bus) (st : BusState) : BusState :=
  let g := bs_gripper st in
  mkBusState (imap (fun n s => ns_age (age (b_fresh b) (Z.of_nat n) (b_tick b)) s) (bs_nodes st))
    (mkGripperState (gs_reply g) (gs_live_error_bit g) (gripper_age (b_fresh b) (b_tick b)))
    (bs_frames_last_drain st) (bs_frame_age_max_ticks st) (bs_frame_age_min_ticks st)
    (bs_reconnected_mask st).

(** [Option::or]. *)
Definition opt_or {A} (a b : option A) : option A := match a with Some _ => a | None => b end.

(** One node of [publish_boot_state]: everything but the flags. *)
Definition merge_boot (b s : NodeState) : NodeState :=
  let s := match ns_position_ticks b with Some p => record_position s p | None => s end in
  let s := ns_speed (opt_or (ns_speed_ticks_s b) (ns_speed_ticks_s s)) s in
  let s := ns_current (opt_or (ns_current_ma b) (ns_current_ma s)) s in
  let s := ns_temperature (opt_or (ns_temperature_c b) (ns_temperature_c s)) s in
  let s := ns_voltage (opt_or (ns_voltage_mv b) (ns_voltage_mv s)) s in
  let s := ns_combined (ns_combined_telemetry s || ns_combined_telemetry b) s in
  let s := ns_kt (opt_or (ns_kt_nm_a b) (ns_kt_nm_a s)) s in
  ns_info (opt_or (ns_device_info b) (ns_device_info s)) s.

Definition publish_boot_state (b : Bus) (st : BusState) : Bus * BusState :=
  let boot := b_boot_state b in
  let g := bs_gripper st in
  (put_boot_state_pending false b,
   mkBusState (zip_with merge_boot (bs_nodes boot) (bs_nodes st))
     (match gs_reply (bs_gripper boot) with
      | Some r => mkGripperState (Some r) (gs_live_error_bit g) (gs_data_age_ticks g)
      | None => g
      end)
     (bs_frames_last_drain st) (bs_frame_age_max_ticks st) (bs_frame_age_min_ticks st)
     (bs_reconnected_mask st)).

(** ** The boot sequence *)

(** A frame of the boot collector. *)
Definition collect_frame (f : CanFrame) (b : Bus) : Bus :=
  let '(node, _, _) := unpack_can_id (fr_id f) in
  let b := put_connected (Z.lor (b_connected b) (Z.shiftl 1 node)) b in
  let b := put_fresh (snd (mark node (b_tick b) true (b_fresh b))) b in
  match decode_frame f with
  | Ok d => put_boot_state_pending true (put_boot_state (apply_payload d (b_boot_state b)) b)
  | Err _ => b
  end.

Fixpoint collect (fuel : nat) (b : Bus) : Bus :=
  match fuel with
  | O => b
  | S fuel =>
      match recv b with
      | (Ok (Some (f, _)), b) => collect fuel (collect_frame f b)
      | (_, b) => b
      end
  end.

(** [collect_for]: every frame that is there or arrives until the deadline. *)
Definition collect_for (b : Bus) : Bus :=
  let b := put_rx (b_rx b ++ arrivals (b_writes b)) b in
  collect (length (b_rx b)) b.

(** What the boot sequence has of a node. *)
Definition boot_node (node : Z) (b : Bus) : NodeState :=
  nth (Z.to_nat node) (bs_nodes (b_boot_state b)) node_default.

(** Ask until answered, at most [retries] times, giving up at a failed send. *)
Fixpoint ask (answered : NodeState -> bool) (node : Z) (kind : PollKind) (retries : nat) (b : Bus) : Bus :=
  match retries with
  | O => b
  | S retries =>
      match send (encode_poll node kind) b with
      | (Err _, b) => b
      | (Ok _, b) =>
          let b := collect_for b in
          if answered (boot_node node b) then b else ask answered node kind retries b
      end
  end.

Definition has_kt (s : NodeState) : bool := bool_decide (is_Some (ns_kt_nm_a s)).

Definition fetch_kt (rounds retries : nat) (b : Bus) : Bus :=
  let nodes := map nc_node (b_node_configs b) in
  let one b node := if has_kt (boot_node node b) then b else ask has_kt node PK_Kt retries b in
  Nat.iter rounds (fun b => fold_left one nodes b) b.

(** [probe_targets]. *)
Definition probe_answered (kind : PollKind) (s : NodeState) : bool :=
  match kind with
  | PK_Telemetry => ns_combined_telemetry s
  | PK_DeviceInfo => bool_decide (is_Some (ns_device_info s))
  | _ => true
  end.

Definition probe_targets (kind : PollKind) (retries : nat) (settle : Z -> nat -> Bus -> Bus) (b : Bus) : Bus :=
  fold_left (fun b tn => settle (snd tn) (fst tn) (ask (probe_answered kind) (snd tn) kind retries b))
    (imap pair (b_poll_nodes b)) b.

Definition probe_telemetry (retries : nat) (b : Bus) : Bus :=
  probe_targets PK_Telemetry retries
    (fun node target b =>
       put_poll (set_legacy target (negb (ns_combined_telemetry (boot_node node b))) (b_poll b)) b) b.

Definition probe_tool_id (node : Z) (retries : nat) (b : Bus) : option Z * Bus :=
  let b := put_poll_nodes [node] b in
  let b := probe_targets PK_DeviceInfo retries (fun _ _ b => b) b in
  let b := put_poll_nodes [] b in
  (match ns_device_info (boot_node node b) with
   | Some d => if di_tool_id d =? 0 then None else Some (di_tool_id d)
   | None => None
   end, b).

(** One request, then the replies of a wait; a failed send skips the wait. *)
Definition request (kind : PollKind) (b : Bus) (node : Z) : Bus :=
  match send (encode_poll node kind) b with
  | (Err _, b) => b
  | (Ok _, b) => collect_for b
  end.

Definition bus_scan (rounds : nat) (b : Bus) : Bus :=
  Nat.iter rounds (fun b => fold_left (request PK_Ping) (seqZ 0 (Z.of_nat MAX_NODES)) b) b.

Definition seed_encoders (b : Bus) : Bus :=
  fold_left (request PK_Encoder) (map nc_node (b_node_configs b)) b.

(** ** The operations of a tick *)

Definition ensure_ready : BusM unit := fun b =>
  if negb (b_configured b) then (Err BErr_NotConfigured, b)
  else if b_silent b then (Err (BErr_InvalidCommand "TX while bus-silent (FLASHING)"), b)
  else (Ok tt, b).

Definition node_config (node : Z) (b : Bus) : option NodeConfig :=
  snd <$> list_find (fun c => nc_node c = node) (b_node_configs b).

(** [f] on the first configuration stored for [node]. *)
Definition edit_config (node : Z) (f : NodeConfig -> NodeConfig) (b : Bus) : Bus :=
  match list_find (fun c => nc_node c = node) (b_node_configs b) with
  | Some (i, _) => put_node_configs (alter f i (b_node_configs b)) b
  | None => b
  end.

Definition begin_tick (tick now : Z) (b : Bus) : Bus :=
  let b := put_tick_start now (put_tick tick b) in
  let b := put_tx_frames 0 (put_joints_sent false b) in
  if negb (b_silent b) then put_fresh (latch_lost tick (b_fresh b)) b else b.

(** The loop of [drain_rx]: the frames left of the cap, the count, the ages. *)
Fixpoint drain (room count : nat) (age_min age_max : Z) (b : Bus) (st : BusState)
  : result BusError (nat * Z * Z) * (Bus * BusState) :=
  match room with
  | O => (Ok (count, age_min, age_max), (b, st))
  | S room =>
      match recv b with
      | (Err e, b) => (Err e, (b, st))
      | (Ok None, b) => (Ok (count, age_min, age_max), (b, st))
      | (Ok (Some (f, ts)), b) =>
          if b_silent b then drain room (S count) age_min age_max b st
          else
            let age := age_ticks b ts in
            let '(b, st) := apply_rx f b st in
            drain room (S count) (Z.min age_min age) (Z.max age_max age) b st
      end
  end.

Definition drain_rx (b : Bus) (st : BusState) : result BusError nat * (Bus * BusState) :=
  if negb (b_configured b) then (Err BErr_NotConfigured, (b, st))
  else
    let '(b, st) := if b_boot_state_pending b then publish_boot_state b st else (b, st) in
    let st := mkBusState (bs_nodes st) (bs_gripper st) 0 0 0 0 in
    let cap := if b_silent b then SILENT_RX_CAP else b_rx_cap b in
    match drain cap 0 U64_MAX 0 b st with
    | (Err e, bs) => (Err e, bs)
    | (Ok (count, age_min, age_max), (b, st)) =>
        let aged := (0 <? count)%nat && negb (b_silent b) in
        let st := mkBusState (bs_nodes st) (bs_gripper st) (Z.of_nat count)
          (if aged then age_max else bs_frame_age_max_ticks st)
          (if aged then age_min else bs_frame_age_min_ticks st) (bs_reconnected_mask st) in
        (Ok count, (b, publish_ages b st))
    end.

Definition no_wire_form : BusError :=
  BErr_InvalidCommand "cmd 2 has no wire form for position without velocity".

(** A command's frame, if it has one. *)
Definition send_encoded (r : result EncodeError (option CanFrame)) : BusM unit :=
  match r with
  | Err _ => bus_err no_wire_form
  | Ok None => bus_ret tt
  | Ok (Some f) => send f
  end.

Definition send_joint_commands (commands : list JointCommand) : BusM unit :=
  ensure_ready ;;! (fun b =>
    if negb (length commands =? length (b_joint_nodes b))%nat then
      (Err (BErr_InvalidCommand "command slice length != configured joint count"), b)
    else if b_joints_sent_this_tick b then
      (Err (BErr_InvalidCommand "second joint send in one tick (single-send invariant)"), b)
    else
      bus_each (fun nc => send_encoded (encode_joint_command (fst nc) (snd nc)))
        (zip (b_joint_nodes b) commands) (put_joints_sent true b)).

Definition send_gripper (command : GripperCommand) : BusM unit :=
  ensure_ready ;;! (fun b =>
    send_encoded (encode_gripper_command (b_gripper_node b) (b_timing_dummy_node b) command) b).

(** [for _ in 0..repeats { f()?; }]. *)
Definition bus_repeat (repeats : Z) (m : BusM unit) : BusM unit :=
  bus_each (fun _ : unit => m) (replicate (Z.to_nat repeats) tt).

Definition resend_node_config (node repeats : Z) : BusM unit :=
  ensure_ready ;;! (fun b =>
    match node_config node b with
    | None => (Err (BErr_InvalidCommand "resend_node_config for a node with no stored configuration"), b)
    | Some c =>
        bus_repeat repeats (send_all (map (fun k => config_frame k c) CONFIG_ORDER) ;;! send_all (extra_frames c)) b
    end).

(** A combined poll of [target] counts as unanswered until its reply is decoded. *)
Definition count_unanswered (target : nat) (b : Bus) : Bus :=
  let node := nth target (b_poll_nodes b) 0 in
  let n := Z.to_nat node in
  let missed := saturating_add 8 (nth n (b_telemetry_unanswered b) 0) 1 in
  if TELEMETRY_FALLBACK_POLLS <? missed then
    put_poll (set_legacy target true (b_poll b)) (put_unanswered (<[n := 0]> (b_telemetry_unanswered b)) b)
  else put_unanswered (<[n := missed]> (b_telemetry_unanswered b)) b.

Definition poll_step : BusM unit := fun b =>
  if negb (b_configured b) then (Err BErr_NotConfigured, b)
  else if b_silent b then (Ok tt, b)
  else
    let '(step, sched) := sched_step (b_poll b) in
    let b := put_poll sched b in
    match step with
    | None => (Ok tt, b)
    | Some (PS_Override (PA_Poll node kind)) => send (encode_poll node kind) b
    | Some (PS_Override (PA_ClearError node)) => send (encode_clear_error node) b
    | Some (PS_Override (PA_ResendConfig node)) => resend_node_config node 1 b
    | Some (PS_Override (PA_ConfigFrame node kind)) =>
        match node_config node b with
        | None => (Err (BErr_InvalidCommand "configuration poll for a node with no stored configuration"), b)
        | Some c => send (config_frame kind c) b
        end
    | Some (PS_Override (PA_ConfigRead node kind)) => send (encode_readback_request node kind) b
    | Some (PS_Override (PA_CaptureRead node channel chunk)) => send (encode_capture_read node channel chunk) b
    | Some (PS_Poll target kind) =>
        let b := match kind with PK_Telemetry => count_unanswered target b | _ => b end in
        send (encode_poll (nth target (b_poll_nodes b) 0) kind) b
    end.

Definition queue_poll_override (action : PollAction) (repeats : Z) (b : Bus) : Bus :=
  put_poll (queue_override action repeats (b_poll b)) b.

(** ** Boot configuration *)

(** What the bus reads of a joint's, a gripper drive's and the robot's configuration. *)
Record BusJoint := mkBusJoint {
  bj_node_id : Z;
  bj_watchdog_timeout_ms : Z;
  bj_velocity_limit_ticks_s : f64;
  bj_ilim_ma : f64;
  bj_voltage_limit_mv : Z;
  bj_gains : Gains;
  bj_ripple : list (Z * Z * Z);
  bj_velocity_window : option Z;
}.

Record GripperDriver := mkGripperDriver {
  gd_watchdog_timeout_ms : Z;
  gd_velocity_limit_ticks_s : f64;
  gd_ilim_ma : f64;
  gd_voltage_limit_mv : Z;
  gd_gains : Gains;
}.

Record BusRobot := mkBusRobot {
  br_tick_dt_s : f64;
  br_joints : list BusJoint;
  br_gripper_node : Z;
  br_timing_dummy_node : Z;
  br_watchdog_action : WatchdogAction;
  br_rx_frames_per_tick_cap : Z;
  br_stale_warn_s : f64;
  br_lost_s : f64;
  br_kt_auto : bool;
  br_kt_rounds : Z;
  br_kt_retries : Z;
  br_scan_rounds : Z;
}.

(** [RobotConfig::ticks]. *)
Definition ticks (r : BusRobot) (seconds : f64) : Z :=
  sf_round_as_uint 32 (sf_div (f64_to_SF seconds) (f64_to_SF (br_tick_dt_s r))).

(** [NodeConfig::arm] and [NodeConfig::gripper]. *)
Definition config_arm (j : BusJoint) (action : WatchdogAction) : NodeConfig :=
  mkNodeConfig (bj_node_id j) (bj_watchdog_timeout_ms j) action (bj_velocity_limit_ticks_s j)
    (bj_ilim_ma j) (bj_voltage_limit_mv j) (bj_gains j) (ripple_slots (bj_ripple j)) (bj_velocity_window j).

Definition config_gripper (node : Z) (d : GripperDriver) (action : WatchdogAction) : NodeConfig :=
  mkNodeConfig node (gd_watchdog_timeout_ms d) action (gd_velocity_limit_ticks_s d)
    (gd_ilim_ma d) (gd_voltage_limit_mv d) (gd_gains d) (replicate RIPPLE_SLOTS (0, 0, 0)) None.

(** What [boot_configure] installs before it touches the wire; [gripper]: the
    drive of the fitted tool. *)
Definition boot_install (robot : BusRobot) (gripper : option GripperDriver) (b : Bus) : Bus :=
  let b := put_dt (br_tick_dt_s robot) b in
  let b := put_joint_nodes (map bj_node_id (br_joints robot)) b in
  let b := put_gripper_node (br_gripper_node robot) b in
  let b := put_timing_dummy_node (br_timing_dummy_node robot) b in
  let b := put_rx_cap (Z.to_nat (br_rx_frames_per_tick_cap robot)) b in
  let b := put_fresh (fresh_configure (ticks robot (br_stale_warn_s robot)) (ticks robot (br_lost_s robot)) (b_fresh b)) b in
  let b := put_poll_nodes (b_joint_nodes b ++ [b_gripper_node b]) b in
  let b := put_poll (poll_configure (length (b_poll_nodes b)) (b_poll b)) b in
  let b := put_boot_state_pending false (put_boot_state bus_state_new b) in
  let b := put_connected 0 b in
  let b := put_node_configs
    (map (fun j => config_arm j (br_watchdog_action robot)) (br_joints robot)
     ++ match gripper with
        | Some d => [config_gripper (b_gripper_node b) d (br_watchdog_action robot)]
        | None => []
        end) b in
  put_configured true b.

(** A step of the plan; the pace is a sleep. *)
Definition boot_step (s : BootStep) : BusM unit :=
  match s with BS_Frame f => send f | BS_Pace => bus_ret tt end.

Definition boot_configure (robot : BusRobot) (gripper : option GripperDriver) (repeats : Z) : BusM unit := fun b =>
  let b := boot_install robot gripper b in
  match bus_each boot_step (boot_config_plan (b_node_configs b) (Z.to_nat repeats)) b with
  | (Err e, b) => (Err e, b)
  | (Ok _, b) =>
      let retries := Z.to_nat (br_kt_retries robot) in
      let b := if br_kt_auto robot then fetch_kt (Z.to_nat (br_kt_rounds robot)) retries b else b in
      let b := probe_telemetry retries b in
      let b := bus_scan (Z.to_nat (br_scan_rounds robot)) b in
      (Ok tt, seed_encoders b)
  end.

(** ** The other operations *)

Definition fit_tool (robot : BusRobot) (tool : option GripperDriver) (b : Bus) : Bus :=
  let node := b_gripper_node b in
  let b := put_fresh (refit_gripper node (b_tick b) (b_fresh b)) b in
  let b := put_node_configs (filter (fun c => nc_node c <> node) (b_node_configs b)) b in
  match tool with
  | Some d => put_node_configs (b_node_configs b ++ [config_gripper node d (br_watchdog_action robot)]) b
  | None => b
  end.

Definition retune_node (node : Z) (tune : DriveTune) (repeats : Z) : BusM unit :=
  ensure_ready ;;! (fun b =>
    match node_config node b with
    | None => (Err (BErr_InvalidCommand "retune_node for a node with no stored configuration"), b)
    | Some _ => resend_node_config node repeats (edit_config node (apply_tune tune) b)
    end).

Definition set_can_id (node new_id : Z) : BusM unit := ensure_ready ;;! send (encode_set_can_id node new_id).
Definition save_config (node : Z) : BusM unit := ensure_ready ;;! send (encode_save_config node).
Definition set_tool_id (node tool_id : Z) : BusM unit := ensure_ready ;;! send (encode_gripper_id node tool_id).

Definition set_node_ripple (node : Z) (ripple : list (Z * Z * Z)) : BusM unit :=
  ensure_ready ;;!
  (if (RIPPLE_SLOTS <? length ripple)%nat then
     bus_err (BErr_InvalidCommand "more ripple harmonics than a drive has slots")
   else
     let slots := ripple_slots ripple in
     bus_mod (edit_config node (set_ripple slots)) ;;! send_all (ripple_frames node slots)).

Definition set_velocity_window (node window : Z) : BusM unit :=
  ensure_ready ;;! bus_mod (edit_config node (set_window window)) ;;! send (encode_velocity_window node window).

Definition capture_stream (node : Z) : BusM unit := ensure_ready ;;! send (encode_capture_stream node).

Definition capture_start (node divisor wanted : Z) : BusM unit :=
  ensure_ready ;;! bus_mod (fun b => put_captures (alter capture_clear (Z.to_nat node) (b_captures b)) b)
  ;;! send (encode_capture node divisor wanted).

Definition capture (node : Z) (b : Bus) : option CaptureBuffer := b_captures b !! Z.to_nat node.

Definition send_limits (node : Z) (velocity_limit_ticks_s current_limit_ma : f32) (repeats : Z) : BusM unit :=
  ensure_ready ;;! bus_repeat repeats (send (encode_limits node velocity_limit_ticks_s current_limit_ma)).

Definition send_clear_error (node repeats : Z) : BusM unit :=
  ensure_ready ;;! bus_repeat repeats (send (encode_clear_error node)).

Definition freshness (node : Z) (b : Bus) : Freshness := classify (b_fresh b) node (b_tick b).
Definition clear_lost_latch (node : Z) (b : Bus) : Bus := put_fresh (clear_latch node (b_tick b) (b_fresh b)) b.
Definition rebase_freshness (b : Bus) : Bus := put_fresh (rebase (b_tick b) (b_fresh b)) b.

(** [link_health]: the monitor's sample with the counters of this end. *)
Definition link_health (monitor : LinkHealth) (b : Bus) : LinkHealth :=
  mkLinkHealth (lh_state monitor) (lh_restarts monitor) (lh_bus_off_events monitor) (b_tx_errors b) (b_rx_frames b).

End socket.
