(* ===== verification/Drive.v ===== *)
(** * Drive: a motor drive on the other end of the bus

    [VirtualDriver] of [crates/par6-bus/src/sim/driver.rs]: the drive the simulator
    runs per node, with the firmware's command parser, control loops, watchdog,
    fault flags, hall sensor and loop-rate capture; and the replies [SimBus]
    ([sim/mod.rs]) builds for it, given the motor state of the plant.  A float is
    the number it denotes; [cos] and [sin] are the class [Trig]. *)
From Stdlib Require Import SpecFloat.
From stdpp Require Import list.
From S2P Require Import Prelude F64 BusTypes CanCodec CanSched Convert.

(** ** Numbers *)

Class Trig := { sf_cos : real -> real; sf_sin : real -> real }.

Definition zero : real := S754_zero false.
Definition one : real := sf_of_int 1.

(** [x.round()] and [x.trunc()] as floats; the sign of a zero is kept. *)
Definition sf_integral (near : Z -> Z -> Z) (x : real) : real :=
  match x with
  | S754_finite s m e =>
      let v := near (Zpos m) e in
      if v =? 0 then S754_zero s else sf_of_int (if s then - v else v)
  | _ => x
  end.
Definition sf_trunc : real -> real := sf_integral floor_at.
Definition sf_round_f : real -> real :=
  sf_integral (fun m e => if 0 <=? e then m * 2 ^ e else (2 * m + 2 ^ (- e)) / (2 * 2 ^ (- e))).

(** [(x.rem_euclid(n)) as u32] of an integral [x]; a NaN casts to 0. *)
Definition rem_euclid_u32 (x : real) (n : Z) : Z :=
  match sf_round x with Some v => v mod n | None => 0 end.

(** [iter().sum()]. *)
Definition sf_sum (l : list real) : real := fold_left sf_add l (S754_zero true).

Definition FW_LOOP_HZ : real := sf_of_int 6250.
Definition ENCODER_COUNTS : Z := 16384.
Definition POLE_PAIRS : Z := 50.
Definition FW_LOOP_DT : real := sf_div one FW_LOOP_HZ.
Definition VELOCITY_WINDOW : nat := 20.
Definition VELOCITY_WINDOW_MAX : nat := 64.
Definition RDSON_OHM : real := f64_to_SF 0x3FC999999999999A.
Definition SENSE_OHM : real := f64_to_SF 0x3F9999999999999A.
Definition KE_PER_KT : real := sf_div (f64_to_SF 0x4023193DD97F62B7) (f64_to_SF 0x40208CA57A786C22).
Definition VBUS_V : real := sf_of_int 24.
Definition CAPTURE_VEL_SCALE : Z := 16.
Definition milli : real := f64_to_SF 0x3F50624DD2F1A9FC.
Definition thousand : real := sf_of_int 1000.

(** ** State *)

Record Electrical := mkElectrical { e_r_ohm : real; e_l_h : real; e_ke_v_s_rad : real; e_ticks_per_rev : real }.

Definition electrical_new (phase_r_ohm phase_l_mh kt_nm_a : real) (encoder_bits : Z) : Electrical :=
  mkElectrical (sf_add (sf_add phase_r_ohm (sf_mul (sf_of_int 2) RDSON_OHM)) SENSE_OHM)
    (sf_mul phase_l_mh milli) (sf_mul kt_nm_a KE_PER_KT) (sf_of_int (wrap 32 (Z.shiftl 1 encoder_bits))).

Inductive FaultKind :=
| FK_Temperature | FK_Encoder | FK_Vbus | FK_Driver | FK_Velocity | FK_Current | FK_Estop.

Record PlantCmd := mkPlantCmd { pc_current_ma : real; pc_ff_ma : real; pc_vel_limit : real; pc_idle : bool }.

(** [driver::Mode]. *)
Inductive DriveMode :=
| DM_Idle
| DM_Position (pos speed cur_ff : real)
| DM_Velocity (vel cur_ff : real)
| DM_Current (cur : real)
| DM_Pd (pos vel cur_ff : real)
| DM_Hall (vel : real) (trigger_value : Z).

Definition is_cascade (m : DriveMode) : bool :=
  match m with DM_Position _ _ _ | DM_Velocity _ _ => true | _ => false end.
Definition is_hall (m : DriveMode) : bool := match m with DM_Hall _ _ => true | _ => false end.

Inductive ReplyKind := RK_None | RK_Motion | RK_Hall.

(** Ticks and the silence counter are u64, the capture counters u16. *)
Record VirtualDriver := mkDrive {
  v_dt : real;
  v_kpp : real;
  v_kpv : real;
  v_kiv : real;
  v_kp_pd : real;
  v_kd_pd : real;
  v_kpiq : real;
  v_kiiq : real;
  v_v_limit_v : real;
  v_vel_limit : real;
  v_ilim_ma : real;
  v_watchdog_ticks : Z;
  v_kt_nm_a : f32;
  v_mode : DriveMode;
  v_integral_ma : real;
  v_loop_phase : real;
  v_last_drive : PlantCmd;
  v_velocity_history : list real;
  v_velocity_window : nat;
  v_velocity_samples : nat;
  v_previous_encoder : option real;
  v_measured_velocity : real;
  v_electrical : option Electrical;
  v_iq_ma : real;
  v_iq_err_sum : real;
  v_armed : bool;
  v_ticks_since_data : Z;
  v_cur_out_ma : real;
  v_capture_wanted : Z;
  v_capture_div : Z;
  v_capture_tick : Z;
  v_capture_pos : Z;
  v_capture_vel : list Z;
  v_capture_iq : list Z;
  v_capture_phase : list Z;
  v_ripple : RippleSlots;
  v_phase : Z;
  v_written : list (option bytes);
  v_flags : ErrorFlags;
  v_hall_in_band : bool;
  v_hall_trigger : bool;
  v_hall_edge : bool;
  v_hall_needs_initial_sample : bool;
  v_hall_latched_ticks : option Z;
  v_temperature_c : Z;
  v_voltage_mv : Z;
  v_device : DeviceInfo;
}.

Definition drive_eta (d : VirtualDriver) : VirtualDriver :=
  mkDrive (v_dt d) (v_kpp d) (v_kpv d) (v_kiv d) (v_kp_pd d) (v_kd_pd d) (v_kpiq d) (v_kiiq d)
    (v_v_limit_v d) (v_vel_limit d) (v_ilim_ma d) (v_watchdog_ticks d) (v_kt_nm_a d) (v_mode d)
    (v_integral_ma d) (v_loop_phase d) (v_last_drive d) (v_velocity_history d)
    (v_velocity_window d) (v_velocity_samples d) (v_previous_encoder d) (v_measured_velocity d)
    (v_electrical d) (v_iq_ma d) (v_iq_err_sum d) (v_armed d) (v_ticks_since_data d)
    (v_cur_out_ma d) (v_capture_wanted d) (v_capture_div d) (v_capture_tick d) (v_capture_pos d)
    (v_capture_vel d) (v_capture_iq d) (v_capture_phase d) (v_ripple d) (v_phase d) (v_written d)
    (v_flags d) (v_hall_in_band d) (v_hall_trigger d) (v_hall_edge d)
    (v_hall_needs_initial_sample d) (v_hall_latched_ticks d) (v_temperature_c d) (v_voltage_mv d)
    (v_device d).

(** [self.field = v]. *)
Ltac drive_field getter d v :=
  let t := eval unfold drive_eta in (drive_eta d) in
  lazymatch t with context T [getter d] => let t' := context T [v] in exact t' end.

Definition w_kpp (v : real) (d : VirtualDriver) : VirtualDriver := ltac:(drive_field v_kpp d v).
Definition w_kpv (v : real) (d : VirtualDriver) : VirtualDriver := ltac:(drive_field v_kpv d v).
Definition w_kiv (v : real) (d : VirtualDriver) : VirtualDriver := ltac:(drive_field v_kiv d v).
Definition w_kp_pd (v : real) (d : VirtualDriver) : VirtualDriver := ltac:(drive_field v_kp_pd d v).
Definition w_kd_pd (v : real) (d : VirtualDriver) : VirtualDriver := ltac:(drive_field v_kd_pd d v).
Definition w_kpiq (v : real) (d : VirtualDriver) : VirtualDriver := ltac:(drive_field v_kpiq d v).
Definition w_kiiq (v : real) (d : VirtualDriver) : VirtualDriver := ltac:(drive_field v_kiiq d v).
Definition w_v_limit_v (v : real) (d : VirtualDriver) : VirtualDriver := ltac:(drive_field v_v_limit_v d v).
Definition w_vel_limit (v : real) (d : VirtualDriver) : VirtualDriver := ltac:(drive_field v_vel_limit d v).
Definition w_ilim_ma (v : real) (d : VirtualDriver) : VirtualDriver := ltac:(drive_field v_ilim_ma d v).
Definition w_watchdog_ticks (v : Z) (d : VirtualDriver) : VirtualDriver := ltac:(drive_field v_watchdog_ticks d v).
Definition w_kt_nm_a (v : f32) (d : VirtualDriver) : VirtualDriver := ltac:(drive_field v_kt_nm_a d v).
Definition w_mode (v : DriveMode) (d : VirtualDriver) : VirtualDriver := ltac:(drive_field v_mode d v).
Definition w_integral_ma (v : real) (d : VirtualDriver) : VirtualDriver := ltac:(drive_field v_integral_ma d v).
Definition w_loop_phase (v : real) (d : VirtualDriver) : VirtualDriver := ltac:(drive_field v_loop_phase d v).
Definition w_last_drive (v : PlantCmd) (d : VirtualDriver) : VirtualDriver := ltac:(drive_field v_last_drive d v).
Definition w_velocity_history (v : list real) (d : VirtualDriver) : VirtualDriver := ltac:(drive_field v_velocity_history d v).
Definition w_velocity_window (v : nat) (d : VirtualDriver) : VirtualDriver := ltac:(drive_field v_velocity_window d v).
Definition w_velocity_samples (v : nat) (d : VirtualDriver) : VirtualDriver := ltac:(drive_field v_velocity_samples d v).
Definition w_previous_encoder (v : option real) (d : VirtualDriver) : VirtualDriver := ltac:(drive_field v_previous_encoder d v).
Definition w_measured_velocity (v : real) (d : VirtualDriver) : VirtualDriver := ltac:(drive_field v_measured_velocity d v).
Definition w_iq_ma (v : real) (d : VirtualDriver) : VirtualDriver := ltac:(drive_field v_iq_ma d v).
Definition w_iq_err_sum (v : real) (d : VirtualDriver) : VirtualDriver := ltac:(drive_field v_iq_err_sum d v).
Definition w_armed (v : bool) (d : VirtualDriver) : VirtualDriver := ltac:(drive_field v_armed d v).
Definition w_ticks_since_data (v : Z) (d : VirtualDriver) : VirtualDriver := ltac:(drive_field v_ticks_since_data d v).
Definition w_cur_out_ma (v : real) (d : VirtualDriver) : VirtualDriver := ltac:(drive_field v_cur_out_ma d v).
Definition w_capture_wanted (v : Z) (d : VirtualDriver) : VirtualDriver := ltac:(drive_field v_capture_wanted d v).
Definition w_capture_div (v : Z) (d : VirtualDriver) : VirtualDriver := ltac:(drive_field v_capture_div d v).
Definition w_capture_tick (v : Z) (d : VirtualDriver) : VirtualDriver := ltac:(drive_field v_capture_tick d v).
Definition w_capture_pos (v : Z) (d : VirtualDriver) : VirtualDriver := ltac:(drive_field v_capture_pos d v).
Definition w_capture_vel (v : list Z) (d : VirtualDriver) : VirtualDriver := ltac:(drive_field v_capture_vel d v).
Definition w_capture_iq (v : list Z) (d : VirtualDriver) : VirtualDriver := ltac:(drive_field v_capture_iq d v).
Definition w_capture_phase (v : list Z) (d : VirtualDriver) : VirtualDriver := ltac:(drive_field v_capture_phase d v).
Definition w_ripple (v : RippleSlots) (d : VirtualDriver) : VirtualDriver := ltac:(drive_field v_ripple d v).
Definition w_phase (v : Z) (d : VirtualDriver) : VirtualDriver := ltac:(drive_field v_phase d v).
Definition w_written (v : list (option bytes)) (d : VirtualDriver) : VirtualDriver := ltac:(drive_field v_written d v).
Definition w_flags (v : ErrorFlags) (d : VirtualDriver) : VirtualDriver := ltac:(drive_field v_flags d v).
Definition w_hall_in_band (v : bool) (d : VirtualDriver) : VirtualDriver := ltac:(drive_field v_hall_in_band d v).
Definition w_hall_trigger (v : bool) (d : VirtualDriver) : VirtualDriver := ltac:(drive_field v_hall_trigger d v).
Definition w_hall_edge (v : bool) (d : VirtualDriver) : VirtualDriver := ltac:(drive_field v_hall_edge d v).
Definition w_hall_needs_initial_sample (v : bool) (d : VirtualDriver) : VirtualDriver := ltac:(drive_field v_hall_needs_initial_sample d v).
Definition w_hall_latched_ticks (v : option Z) (d : VirtualDriver) : VirtualDriver := ltac:(drive_field v_hall_latched_ticks d v).
Definition w_device (v : DeviceInfo) (d : VirtualDriver) : VirtualDriver := ltac:(drive_field v_device d v).

Definition flags_default : ErrorFlags :=
  mkErrorFlags false false false false false false false false false false false.

(** [ErrorFlags] with the activation bits of [f] and no fault. *)
Definition no_faults (f : ErrorFlags) : ErrorFlags :=
  mkErrorFlags false false false false false false false false (ef_calibrated f) (ef_activated f) false.

Definition drive_new (dt : real) (node : Z) (vel_limit ilim_ma kt_nm_a : real)
    (electrical : option Electrical) : VirtualDriver :=
  mkDrive dt zero zero zero zero zero zero zero zero vel_limit ilim_ma U64_MAX (sf_to_f32_bits kt_nm_a)
    DM_Idle zero zero (mkPlantCmd zero zero vel_limit true) (replicate VELOCITY_WINDOW_MAX zero)
    VELOCITY_WINDOW 0 None zero electrical zero zero false 0 zero 0 1 0 0
    (replicate CAPTURE_LEN 0) (replicate CAPTURE_LEN 0) (replicate CAPTURE_LEN 0)
    (replicate RIPPLE_SLOTS (0, 0, 0)) 0 (replicate 7 None)
    (mkErrorFlags false false false false false false false false true true false)
    false true false true None (32 + node) 24000 (mkDeviceInfo 1 1 3 (1000 + node) 0).

(** ** Faults and the watchdog *)

Definition set_fault (kind : FaultKind) (d : VirtualDriver) : VirtualDriver :=
  let f := v_flags d in
  let on k b := match kind, k with
                | FK_Temperature, FK_Temperature | FK_Encoder, FK_Encoder | FK_Vbus, FK_Vbus
                | FK_Driver, FK_Driver | FK_Velocity, FK_Velocity | FK_Current, FK_Current
                | FK_Estop, FK_Estop => true
                | _, _ => b
                end in
  w_flags (mkErrorFlags true (on FK_Temperature (ef_temperature f)) (on FK_Encoder (ef_encoder f))
    (on FK_Vbus (ef_vbus f)) (on FK_Driver (ef_driver f)) (on FK_Velocity (ef_velocity f))
    (on FK_Current (ef_current f)) (on FK_Estop (ef_estop f)) (ef_calibrated f) (ef_activated f)
    (ef_watchdog f)) d.

Definition clear_faults (d : VirtualDriver) : VirtualDriver :=
  w_flags (no_faults (v_flags d)) (w_mode DM_Idle d).

(** [VirtualDriver::err_bit]. *)
Definition drive_err_bit (d : VirtualDriver) : bool :=
  let f := v_flags d in
  ef_error f || ef_temperature f || ef_encoder f || ef_vbus f || ef_driver f || ef_velocity f
  || ef_current f || ef_estop f || ef_watchdog f.

(** The aggregate flag with the e-stop or the watchdog flag. *)
Definition flag_estop (f : ErrorFlags) : ErrorFlags :=
  mkErrorFlags true (ef_temperature f) (ef_encoder f) (ef_vbus f) (ef_driver f) (ef_velocity f)
    (ef_current f) true (ef_calibrated f) (ef_activated f) (ef_watchdog f).
Definition flag_watchdog (f : ErrorFlags) : ErrorFlags :=
  mkErrorFlags true (ef_temperature f) (ef_encoder f) (ef_vbus f) (ef_driver f) (ef_velocity f)
    (ef_current f) (ef_estop f) (ef_calibrated f) (ef_activated f) true.

Definition feed_watchdog_poll (d : VirtualDriver) : VirtualDriver := w_ticks_since_data 0 d.
Definition feed_watchdog (d : VirtualDriver) : VirtualDriver := w_ticks_since_data 0 (w_armed true d).

Definition age_watchdog (d : VirtualDriver) : VirtualDriver :=
  if negb (v_armed d) then d
  else
    let d := w_ticks_since_data (saturating_add 64 (v_ticks_since_data d) 1) d in
    if v_ticks_since_data d =? v_watchdog_ticks d then
      w_flags (flag_watchdog (v_flags d)) (w_mode DM_Idle d)
    else d.

Definition watchdog_fired (d : VirtualDriver) : bool :=
  v_armed d && (v_watchdog_ticks d <=? v_ticks_since_data d).

(** ** Capture and read-back *)

Definition drive_capture_start (divisor wanted : Z) (d : VirtualDriver) : VirtualDriver :=
  w_capture_pos 0 (w_capture_tick 0 (w_capture_div (Z.max divisor 1)
    (w_capture_wanted (Z.min wanted CAPTURE_LEN_U16) d))).

Definition config_readback (kind : ConfigKind) (d : VirtualDriver) : option bytes :=
  nth (config_index kind) (v_written d) None.

Definition capture_pairs (d : VirtualDriver) : Z := (v_capture_pos d + 1) / 2.

(** The rows the drive keeps of a channel. *)
Definition drive_rows (channel : Z) (d : VirtualDriver) : list Z :=
  match channel with 0 => v_capture_vel d | 1 => v_capture_iq d | _ => v_capture_phase d end.

Definition capture_reply (channel chunk : Z) (d : VirtualDriver) : bytes :=
  let at_ := chunk * 2 in
  let sample k :=
    let i := at_ + k in
    if i <? v_capture_pos d then nth (Z.to_nat i) (drive_rows channel d) 0 else 0 in
  let words :=
    if channel =? CAPTURE_STATUS_CHANNEL then
      [swrap 16 (v_capture_pos d); swrap 16 (v_capture_wanted d); swrap 16 (v_capture_div d)]
    else [swrap 16 chunk; sample 0; sample 1] in
  channel :: concat (map (be_bytes 2) words).

(** [record_capture]. *)
Definition record_capture (vel_ticks_s driven : real) (d : VirtualDriver) : VirtualDriver :=
  if v_capture_wanted d <=? v_capture_pos d then d
  else
    let d := w_capture_tick (v_capture_tick d + 1) d in
    if Z.max (v_capture_div d) 1 <=? v_capture_tick d then
      let i := Z.to_nat (v_capture_pos d) in
      let d := w_capture_tick 0 d in
      let d := w_capture_vel (<[i := sf_trunc_as_sint 16 (sf_div vel_ticks_s (sf_of_int CAPTURE_VEL_SCALE))]> (v_capture_vel d)) d in
      let d := w_capture_iq (<[i := sf_trunc_as_sint 16 driven]> (v_capture_iq d)) d in
      let d := w_capture_phase (<[i := swrap 16 (v_phase d)]> (v_capture_phase d)) d in
      w_capture_pos (v_capture_pos d + 1) d
    else d.

(** ** Frames *)

Definition config_kind (cmd : CommandId) : option ConfigKind :=
  match cmd with
  | Cmd_Watchdog => Some CK_Watchdog
  | Cmd_Limits => Some CK_Limits
  | Cmd_VoltageLimit => Some CK_VoltageLimit
  | Cmd_PdGains => Some CK_PdGains
  | Cmd_CurrentGains => Some CK_CurrentGains
  | Cmd_VelocityGains => Some CK_VelocityGains
  | Cmd_PositionGains => Some CK_PositionGains
  | _ => None
  end.

Definition config_dlc (kind : ConfigKind) : nat :=
  match kind with
  | CK_Watchdog => 5
  | CK_VoltageLimit | CK_PositionGains => 4
  | CK_Limits | CK_PdGains | CK_CurrentGains | CK_VelocityGains => 8
  end.

Definition fed (cmd : CommandId) (len : nat) : bool :=
  match cmd, len with
  | Cmd_DataPack1, 8%nat | Cmd_DataPack1, 5%nat | Cmd_DataPack1, 2%nat => true
  | Cmd_DataPackPd, 8%nat => true
  | Cmd_DataPackHall, 4%nat => true
  | _, _ => false
  end.

Definition i24_f (d : bytes) (i : nat) : real := sf_of_int (i24_at d i).
Definition i16_f (d : bytes) (i : nat) : real := sf_of_int (i16_at d i).
Definition f32_f (d : bytes) (i : nat) : real := f32_to_SF (f32_at d i).

(** Entering hall mode starts the edge detector afresh. *)
Definition hall_restart (v : VirtualDriver) : VirtualDriver :=
  if is_hall (v_mode v) then v
  else w_hall_needs_initial_sample true (w_hall_latched_ticks None (w_hall_edge false (w_hall_trigger true v))).

Definition drive_in (m : DriveMode) (v : VirtualDriver) : VirtualDriver := w_armed true (w_mode m v).

(** The arms of the match; [None]: not a drive's command. *)
Definition drive_arm (cmd : CommandId) (d : bytes) (v : VirtualDriver) : option (ReplyKind * VirtualDriver) :=
  match cmd, length d with
  | Cmd_SetGripperId, 1%nat =>
      let i := v_device v in
      Some (RK_None, w_device (mkDeviceInfo (di_hw_ver i) (di_batch i) (di_sw_ver i) (di_serial i) (byte d 0)) v)
  | Cmd_VelocityWindow, 1%nat =>
      let window := Nat.max 4 (Nat.min (Z.to_nat (byte d 0)) VELOCITY_WINDOW_MAX) in
      Some (RK_None,
        if (window =? v_velocity_window v)%nat then v
        else w_velocity_samples 0 (w_velocity_window window v))
  | Cmd_Ripple, 6%nat =>
      if byte d 0 <? Z.of_nat RIPPLE_SLOTS then
        Some (RK_None, w_ripple (<[Z.to_nat (byte d 0) := (byte d 1, i16_at d 2, i16_at d 4)]> (v_ripple v)) v)
      else None
  | Cmd_DataPack1, 8%nat => Some (RK_Motion, drive_in (DM_Position (i24_f d 0) (i24_f d 3) (i16_f d 6)) v)
  | Cmd_DataPack1, 5%nat => Some (RK_Motion, drive_in (DM_Velocity (i24_f d 0) (i16_f d 3)) v)
  | Cmd_DataPack1, 2%nat => Some (RK_Motion, drive_in (DM_Current (i16_f d 0)) v)
  | Cmd_DataPackPd, 8%nat => Some (RK_Motion, drive_in (DM_Pd (i24_f d 0) (i24_f d 3) (i16_f d 6)) v)
  | Cmd_DataPackHall, 4%nat =>
      Some (RK_Hall, drive_in (DM_Hall (i24_f d 0) (byte d 3)) (hall_restart v))
  | Cmd_Watchdog, 5%nat =>
      Some (RK_None, w_watchdog_ticks
        (sf_round_as_uint 64 (sf_div (sf_div (sf_of_int (u32_at d 0)) thousand) (v_dt v))) v)
  | Cmd_Limits, 8%nat => Some (RK_None, w_ilim_ma (f32_f d 4) (w_vel_limit (f32_f d 0) v))
  | Cmd_PdGains, 8%nat => Some (RK_None, w_kd_pd (f32_f d 4) (w_kp_pd (f32_f d 0) v))
  | Cmd_VelocityGains, 8%nat => Some (RK_None, w_kiv (f32_f d 4) (w_kpv (f32_f d 0) v))
  | Cmd_PositionGains, 4%nat => Some (RK_None, w_kpp (f32_f d 0) v)
  | Cmd_CurrentGains, 8%nat => Some (RK_None, w_kiiq (f32_f d 4) (w_kpiq (f32_f d 0) v))
  | Cmd_VoltageLimit, 4%nat => Some (RK_None, w_v_limit_v (sf_mul (sf_of_int (u32_at d 0)) milli) v)
  | Cmd_HeartbeatSetup, 4%nat | Cmd_SaveConfig, 0%nat => Some (RK_None, v)
  | Cmd_Kt, 4%nat => Some (RK_None, w_kt_nm_a (f32_at d 0) v)
  | Cmd_ClearError, 0%nat => Some (RK_None, clear_faults v)
  | Cmd_Idle, 0%nat => Some (RK_None, w_mode DM_Idle v)
  | Cmd_Estop, 0%nat => Some (RK_None, w_flags (flag_estop (v_flags v)) (w_mode DM_Idle v))
  | Cmd_DataPack1, _ | Cmd_DataPackPd, _ => Some (RK_Motion, v)
  | Cmd_DataPackHall, _ => Some (RK_Hall, v)
  | _, _ => None
  end.

(** A configuration frame of the right length is kept for read requests. *)
Definition note_written (cmd : CommandId) (d : bytes) (v : VirtualDriver) : VirtualDriver :=
  match config_kind cmd with
  | Some kind =>
      if (length d =? config_dlc kind)%nat then w_written (<[config_index kind := Some d]> (v_written v)) v else v
  | None => v
  end.

Definition on_data_frame (cmd : CommandId) (d : bytes) (v : VirtualDriver) : ReplyKind * VirtualDriver :=
  let v := note_written cmd d v in
  let was_cascade := is_cascade (v_mode v) in
  match drive_arm cmd d v with
  | None => (RK_None, v)
  | Some (reply, v) =>
      let v := if fed cmd (length d) then w_ticks_since_data 0 v else v in
      let v := if negb was_cascade && is_cascade (v_mode v) then w_integral_ma zero v else v in
      (reply, v)
  end.

(** [sample_hall]. *)
Definition sample_hall (in_band : bool) (position_ticks : Z) (v : VirtualDriver) : VirtualDriver :=
  let changed := negb (Bool.eqb (v_hall_in_band v) in_band) in
  let v := w_hall_in_band in_band v in
  match v_mode v with
  | DM_Hall _ trigger_value =>
      let first := v_hall_needs_initial_sample v in
      let v := if first then w_hall_needs_initial_sample false v else v in
      if first && (trigger_value =? 2) then v
      else
        let hit := if trigger_value =? 2 then changed else b2z in_band =? trigger_value in
        if hit && v_hall_trigger v then
          w_hall_edge true (w_hall_trigger false (w_hall_latched_ticks (Some position_ticks) v))
        else if negb hit && negb (trigger_value =? 2) then w_hall_trigger true v
        else v
  | _ => v
  end.

(** ** The control loops *)

Section loops.
Context {trig : Trig}.

(** [ripple_ff]. *)
Definition ripple_ff (v : VirtualDriver) : real :=
  let phase := sf_div (sf_mul TWO_PI (sf_of_int (v_phase v))) (sf_of_int ENCODER_COUNTS) in
  sf_sum (map (fun s : Z * Z * Z =>
                let '(h, a, b) := s in
                let x := sf_mul (sf_of_int h) phase in
                sf_add (sf_mul (sf_of_int a) (sf_cos x)) (sf_mul (sf_of_int b) (sf_sin x)))
    (List.filter (fun s : Z * Z * Z => negb (fst (fst s) =? 0)) (v_ripple v))).

Definition velocity_pi (vel_target vel_meas cur_ff fw_steps : real) (v : VirtualDriver) : real * VirtualDriver :=
  let err := sf_sub vel_target vel_meas in
  let integral := sf_clamp (sf_opp (v_ilim_ma v)) (v_ilim_ma v)
    (sf_add (v_integral_ma v) (sf_mul (sf_mul (v_kiv v) err) fw_steps)) in
  let v := w_integral_ma integral v in
  (sf_add (sf_add (sf_add (sf_mul (v_kpv v) err) integral) cur_ff) (ripple_ff v), v).

(** One iteration of the current loop; the pair is (integral [V], current [mA]). *)
Definition current_iteration (v : VirtualDriver) (e : Electrical) (ceiling bemf dt_e iq_set_ma : real)
    (st : real * real) : real * real :=
  let '(err_sum, iq_ma) := st in
  let err_a := sf_mul (sf_sub iq_set_ma iq_ma) milli in
  let err_sum := sf_clamp (sf_opp ceiling) ceiling (sf_add err_sum (sf_mul (v_kiiq v) err_a)) in
  let uq := sf_clamp (sf_opp ceiling) ceiling (sf_add (sf_mul (v_kpiq v) err_a) err_sum) in
  let di_a_s :=
    sf_div (sf_sub (sf_sub uq (sf_mul (sf_mul (e_r_ohm e) iq_ma) milli)) bemf) (e_l_h e) in
  (err_sum, sf_add iq_ma (sf_mul (sf_mul di_a_s dt_e) thousand)).

Definition current_loop (iq_set_ma vel_ticks_s fw_steps : real) (v : VirtualDriver) : real * VirtualDriver :=
  match v_electrical v with
  | None => (iq_set_ma, v)
  | Some e =>
      let ceiling := if sf_lt zero (v_v_limit_v v) then sf_min (v_v_limit_v v) VBUS_V else VBUS_V in
      let omega := sf_mul (sf_div vel_ticks_s (e_ticks_per_rev e)) TWO_PI in
      let bemf := sf_mul (e_ke_v_s_rad e) omega in
      let n := sf_max (sf_round_f fw_steps) one in
      let dt_e := sf_div (sf_mul fw_steps FW_LOOP_DT) n in
      let '(err_sum, iq_ma) :=
        Nat.iter (Z.to_nat (sf_trunc_as_uint 32 n)) (current_iteration v e ceiling bemf dt_e iq_set_ma)
          (v_iq_err_sum v, v_iq_ma v) in
      (iq_ma, w_iq_ma iq_ma (w_iq_err_sum err_sum v))
  end.

Definition mode_ff (m : DriveMode) : real :=
  match m with DM_Position _ _ ff | DM_Velocity _ ff | DM_Pd _ _ ff => ff | _ => zero end.

Definition limited (v : VirtualDriver) (x : real) : real := sf_clamp (sf_opp (v_vel_limit v)) (v_vel_limit v) x.

(** Idle output: no current through the winding. *)
Definition drive_idle (v : VirtualDriver) : PlantCmd * VirtualDriver :=
  (mkPlantCmd zero zero (v_vel_limit v) true, w_cur_out_ma zero (w_iq_err_sum zero (w_iq_ma zero v))).

(** The current the mode asks for. *)
Definition mode_current (pos_ticks vel_ticks_s : real) (v : VirtualDriver) : real * VirtualDriver :=
  match v_mode v with
  | DM_Idle => (zero, v)
  | DM_Position pos speed cur_ff =>
      velocity_pi (limited v (sf_add (sf_mul (v_kpp v) (sf_sub pos pos_ticks)) speed)) vel_ticks_s cur_ff one v
  | DM_Velocity vel cur_ff => velocity_pi (limited v vel) vel_ticks_s cur_ff one v
  | DM_Hall vel _ =>
      let target :=
        if v_hall_trigger v then vel
        else sf_mul (v_kpp v)
               (sf_sub (sf_of_int (default (sf_trunc_as_sint 32 pos_ticks) (v_hall_latched_ticks v))) pos_ticks) in
      velocity_pi (limited v target) vel_ticks_s zero one v
  | DM_Current cur => (cur, v)
  | DM_Pd pos vel cur_ff =>
      (sf_add (sf_add (sf_mul (v_kp_pd v) (sf_sub pos pos_ticks)) (sf_mul (v_kd_pd v) (sf_sub vel vel_ticks_s)))
         cur_ff, v)
  end.

Definition control_law (pos_ticks vel_ticks_s shaft_ticks_s : real) (v : VirtualDriver) : PlantCmd * VirtualDriver :=
  if ef_error (v_flags v) then drive_idle (w_integral_ma zero (w_mode DM_Idle v))
  else
    let ilim := v_ilim_ma v in
    let ff := mode_ff (v_mode v) in
    match v_mode v with
    | DM_Idle => drive_idle v
    | _ =>
        let '(cur, v) := mode_current pos_ticks vel_ticks_s v in
        let setpoint := sf_clamp (sf_opp ilim) ilim cur in
        let '(out, v) := current_loop setpoint shaft_ticks_s one v in
        let v := w_cur_out_ma out v in
        (mkPlantCmd out (sf_clamp (sf_opp ilim) ilim ff) (v_vel_limit v) false, v)
    end.

Definition control_iteration (pos_ticks vel_ticks_s : real) (v : VirtualDriver) : PlantCmd * VirtualDriver :=
  let shaft_ticks_s := vel_ticks_s in
  let pos_ticks := sf_round_f pos_ticks in
  let v := w_phase (Z.land (rem_euclid_u32 pos_ticks ENCODER_COUNTS * POLE_PAIRS) 16383) v in
  let vel := sf_trunc
    match v_previous_encoder v with
    | Some previous => sf_mul (sf_sub pos_ticks previous) FW_LOOP_HZ
    | None => vel_ticks_s
    end in
  let v := w_previous_encoder (Some pos_ticks) v in
  let history := tail (v_velocity_history v) ++ [vel] in
  let v := w_velocity_history history v in
  let v := w_velocity_samples (Nat.min (v_velocity_samples v + 1) (v_velocity_window v)) v in
  let mean := sf_trunc (sf_div (sf_sum (drop (VELOCITY_WINDOW_MAX - v_velocity_samples v) history))
                               (sf_of_int (Z.of_nat (v_velocity_samples v)))) in
  let v := w_measured_velocity mean v in
  let driven := v_cur_out_ma v in
  let '(out, v) := control_law pos_ticks mean shaft_ticks_s v in
  (out, record_capture mean driven v).

(** [1.0 - 1e-10], the phase that runs an iteration. *)
Definition LOOP_PHASE : real := sf_sub one (f64_to_SF 0x3DDB7CDFD9D7BDBB).

Definition loop_step (pos_ticks vel_ticks_s fw_steps : real) (v : VirtualDriver) : PlantCmd * VirtualDriver :=
  let v := w_loop_phase (sf_add (v_loop_phase v) fw_steps) v in
  let v :=
    if sf_le LOOP_PHASE (v_loop_phase v) then
      let v := w_loop_phase (sf_max (sf_sub (v_loop_phase v) one) zero) v in
      let '(out, v) := control_iteration pos_ticks vel_ticks_s v in
      w_last_drive out v
    else v in
  (v_last_drive v, v).

End loops.

Definition reset_velocity_filter (v : VirtualDriver) : VirtualDriver :=
  w_previous_encoder None (w_velocity_samples 0 (w_velocity_history (map (fun _ => zero) (v_velocity_history v)) v)).

Definition reseed_hold (pos_ticks hold_ma : real) (v : VirtualDriver) : VirtualDriver :=
  let v := w_loop_phase zero v in
  let v := w_last_drive (mkPlantCmd hold_ma hold_ma (v_vel_limit v) false) v in
  let v := w_measured_velocity zero (reset_velocity_filter v) in
  let v := w_iq_err_sum zero (w_iq_ma hold_ma (w_integral_ma zero v)) in
  let v := w_cur_out_ma hold_ma (reset_velocity_filter v) in
  w_mode (DM_Position pos_ticks zero hold_ma) v.

(** ** Replies (sim/mod.rs) *)

Definition motion_reply (node : Z) (err : bool) (pos spd cur : Z) : CanFrame :=
  data_frame (pack_can_id node Cmd_RespondDataPack1 err) (pack_i24 pos ++ pack_i24 spd ++ pack_i16 cur).

Definition hall_reply (node : Z) (err : bool) (pos : Z) (state : HallState) : CanFrame :=
  data_frame (pack_can_id node Cmd_RespondDataHall err)
    (pack_i24 pos ++ [fold_bits_msb_first [hs_trigger state; hs_pin2 state; hs_edge state;
                                           false; false; false; false; false]]).

Definition errors_payload (f : ErrorFlags) : bytes :=
  [fold_bits_msb_first [ef_error f; ef_temperature f; ef_encoder f; ef_vbus f; ef_driver f; ef_velocity f;
                        ef_current f; ef_estop f];
   fold_bits_msb_first [ef_calibrated f; ef_activated f; ef_watchdog f; false; false; false; false; false]].

(** What the drive answers a telemetry poll; [motion]: the position, speed and
    current the plant reports of its motor. *)
Definition poll_reply (node : Z) (kind : PollKind) (motion : Z * Z * Z) (d : VirtualDriver) : CanFrame :=
  let '(pos, spd, cur) := motion in
  let reply cmd p := data_frame (pack_can_id node cmd (drive_err_bit d)) p in
  match kind with
  | PK_Telemetry =>
      reply Cmd_Telemetry (pack_i16 (v_temperature_c d) ++ pack_i16 (v_voltage_mv d)
        ++ errors_payload (v_flags d) ++ pack_i16 cur)
  | PK_Temperature => reply Cmd_Temperature (pack_i16 (v_temperature_c d))
  | PK_Voltage => reply Cmd_Voltage (pack_i16 (v_voltage_mv d))
  | PK_Errors => reply Cmd_StateOfErrors (errors_payload (v_flags d))
  | PK_DeviceInfo =>
      let i := v_device d in
      reply Cmd_DeviceInfo ([di_hw_ver i; di_batch i; di_sw_ver i] ++ pack_i32 (di_serial i) ++ [di_tool_id i])
  | PK_Kt => reply Cmd_RespondKt (pack_f32 (v_kt_nm_a d))
  | PK_Ping => reply Cmd_Ping []
  | PK_Encoder => reply Cmd_EncoderData (pack_i32 pos ++ pack_i32 spd)
  end.

(** [SimBus::deliver_frame] at a node that has a drive: the frame it answers with,
    if any.  [stream]: the drive was asked for its whole capture. *)
Definition rtr_poll_kind (cmd : CommandId) : option PollKind :=
  match cmd with
  | Cmd_EncoderData => Some PK_Encoder
  | Cmd_Telemetry => Some PK_Telemetry
  | Cmd_Temperature => Some PK_Temperature
  | Cmd_Voltage => Some PK_Voltage
  | Cmd_StateOfErrors => Some PK_Errors
  | Cmd_DeviceInfo => Some PK_DeviceInfo
  | Cmd_RespondKt => Some PK_Kt
  | Cmd_Ping => Some PK_Ping
  | _ => None
  end.

Definition deliver_rtr (node : Z) (cmd : CommandId) (motion : Z * Z * Z) (d : VirtualDriver)
  : option CanFrame * VirtualDriver :=
  match config_kind cmd with
  | Some kind =>
      (match config_readback kind d with
       | Some p => Some (data_frame (pack_can_id node cmd (drive_err_bit d)) p)
       | None => None
       end, d)
  | None =>
      match rtr_poll_kind cmd with
      | Some kind => let d := feed_watchdog_poll d in (Some (poll_reply node kind motion d), d)
      | None => (None, d)
      end
  end.

Definition hall_state (d : VirtualDriver) : HallState :=
  mkHallState (v_hall_trigger d) (v_hall_in_band d) (v_hall_edge d).

Definition deliver_data (node : Z) (cmd : CommandId) (f : CanFrame) (motion : Z * Z * Z) (d : VirtualDriver)
  : option CanFrame * VirtualDriver :=
  let p := frame_payload f in
  let '(pos, spd, cur) := motion in
  match cmd, length p with
  | Cmd_Capture, 3%nat => (None, drive_capture_start (byte p 0) (from_be [byte p 1; byte p 2]) d)
  | Cmd_CaptureStream, 0%nat => (None, d)
  | Cmd_CaptureRead, 3%nat =>
      (Some (data_frame (pack_can_id node Cmd_CaptureRead (drive_err_bit d))
               (capture_reply (byte p 0) (from_be [byte p 1; byte p 2]) d)), d)
  | _, _ =>
      let '(reply, d) := on_data_frame cmd p d in
      (match reply with
       | RK_None => None
       | RK_Motion => Some (motion_reply node (drive_err_bit d) pos spd cur)
       | RK_Hall => Some (hall_reply node (drive_err_bit d) pos (hall_state d))
       end, d)
  end.

Definition deliver_frame (f : CanFrame) (motion : Z * Z * Z) (d : VirtualDriver) : option CanFrame * VirtualDriver :=
  let '(node, raw_cmd, _) := unpack_can_id (fr_id f) in
  match from_raw raw_cmd with
  | None => (None, d)
  | Some cmd => if fr_rtr f then deliver_rtr node cmd motion d else deliver_data node cmd f motion d
  end.

(** ** The capture stream (sim/mod.rs) *)

(** Past the last pair of a channel, the next one; a channel past 2: the end. *)
Fixpoint seek_pair (fuel : nat) (pairs channel chunk : Z) : Z * Z :=
  match fuel with
  | O => (channel, chunk)
  | S fuel =>
      if pairs <=? chunk then
        if 2 <? channel + 1 then (channel + 1, 0) else seek_pair fuel pairs (channel + 1) 0
      else (channel, chunk)
  end.

(** [SimBus::pump_streams] at one node: at most [budget] frames from the stream's
    position, and where it stands after them. *)
Fixpoint pump_stream (budget : nat) (node channel chunk : Z) (d : VirtualDriver)
  : list CanFrame * option (Z * Z) :=
  match budget with
  | O => ([], if channel <=? 2 then Some (channel, chunk) else None)
  | S budget =>
      let '(channel, chunk) := seek_pair 3 (capture_pairs d) channel chunk in
      if 2 <? channel then ([], None)
      else
        let f := data_frame (pack_can_id node Cmd_CaptureStreamData (drive_err_bit d))
                   (capture_reply channel chunk d) in
        let '(fs, rest) := pump_stream budget node channel (chunk + 1) d in
        (f :: fs, rest)
  end.
