(* ===== verification/CanExample.v ===== *)
(** * CanExample: a small bus for witnesses

    A drive with a watchdog of five ticks, a stored configuration, a recording of
    three samples, and a socket that accepts every write.  The cosine and the sine
    are constants: nothing the witnesses evaluate looks at them. *)
From Stdlib Require Import SpecFloat.
From stdpp Require Import list.
From S2P Require Import Prelude F64 BusTypes CanCodec CanSched Convert Drive CanBus.

#[export] Instance flat_trig : Trig := {| sf_cos _ := one; sf_sin _ := zero |}.

Definition four_ms : real := f64_to_SF 0x3F70624DD2F1A9FC.

Definition fresh_drive : VirtualDriver := drive_new four_ms 3 (sf_of_int 1000) (sf_of_int 800) one None.

(** Commanded once, five ticks to the watchdog, three samples recorded. *)
Definition live_drive : VirtualDriver :=
  w_capture_vel ([-7; 9; 11] ++ replicate (CAPTURE_LEN - 3) 0) (w_capture_pos 3 (w_capture_wanted 8
    (w_watchdog_ticks 5 (drive_in (DM_Velocity (sf_of_int 10) zero) fresh_drive)))).

Definition faulted_drive : VirtualDriver := set_fault FK_Vbus live_drive.

Definition example_gains : Gains := mkGains f64_1 f64_1 f64_0 f64_1 f64_0 f64_1 f64_1.

Definition example_config : NodeConfig :=
  mkNodeConfig 3 20 WA_Idle 0x40F86A0000000000 0x4089000000000000 24000 example_gains
    (replicate RIPPLE_SLOTS (0, 0, 0)) (Some 20).

Definition example_command : JointCommand := jc_position (-150) 12345 (-7).

(** ** A bus *)

#[export] Instance open_socket : CanSocket := {| write_outcome _ _ := WO_Ok; arrivals _ := [] |}.

Definition example_joint (node : Z) : BusJoint :=
  mkBusJoint node 20 0x40F86A0000000000 0x4089000000000000 24000 example_gains [] None.

Definition example_robot : BusRobot :=
  mkBusRobot 0x3F70624DD2F1A9FC [example_joint 0; example_joint 1] 6 7 WA_Idle 32
    0x3FA47AE147AE147B 0x3FC999999999999A true 1 1 1.

(** Two joints and a passive gripper, configured. *)
Definition example_bus : Bus := snd (boot_configure example_robot None 1 (bus_open 0)).

Definition example_state : BusState := bus_state_new.

(** A voltage reply of a node. *)
Definition example_reply (node : Z) : RxItem :=
  Rx_Frame (mkRaw false false false (pack_can_id node Cmd_Voltage false) [0; 24]) None.
