(* ===== verification/CanProps.v ===== *)
(** * CanProps: what the host and a drive make of each other's frames

    Theorems about the codec on its own, and about the codec between the two ends
    of the bus: the drive runs what the host encoded, the host reads what the drive
    holds. *)
From Stdlib Require Import SpecFloat.
From stdpp Require Import list.
From S2P Require Import Prelude F64 BusTypes CanCodec CanLemmas CanSched Convert Drive CanBus CanExample.

(** ** Frames with a table id *)

Lemma decode_data_frame node cmd err p :
  0 <= node < 16 ->
  decode_frame (data_frame (pack_can_id node cmd err) p) =
    let? payload := decode_payload (data_frame (pack_can_id node cmd err) p) node (raw cmd) err cmd in
    Ok (mkDecoded node err payload).
Proof.
  intros Hn. unfold decode_frame. cbn [fr_id fr_rtr data_frame].
  by rewrite unpack_pack_can_id, from_raw_raw by done.
Qed.

Lemma expect_data_frame id p node cmd err n :
  (length p <= CAN_MAX_DATA)%nat -> Z.of_nat (length p) = n ->
  expect_dlc (data_frame id p) node cmd err n = Ok tt.
Proof. intros Hl <-. unfold expect_dlc. by rewrite dlc_data_frame, Z.eqb_refl. Qed.

Lemma unpack_pack_f32 v : is_uint 32 v = true -> let p := pack_f32 v in
  unpack_f32 (byte p 0) (byte p 1) (byte p 2) (byte p 3) = v.
Proof. apply unpack_pack_u32. Qed.

(** A refusal names the frame's own id. *)
Lemma decode_payload_err f node r b cmd e :
  decode_payload f node r b cmd = Err e -> de_node e = node /\ de_err_bit e = b.
Proof.
  unfold decode_payload, expect_dlc. cbv zeta.
  destruct cmd; repeat case_match; cbn [rbind]; intros; simplify_eq; done.
Qed.

(** Whatever comes of a frame, its node and its fault bit are those of the id. *)
Lemma decode_names_id f :
  let '(node, _, b) := unpack_can_id (fr_id f) in
  match decode_frame f with
  | Ok d => df_node d = node /\ df_err_bit d = b
  | Err e => de_node e = node /\ de_err_bit e = b
  end.
Proof.
  unfold decode_frame. destruct (unpack_can_id (fr_id f)) as [[node r] b].
  destruct (from_raw r) as [cmd|]; [|done]. destruct (fr_rtr f); [done|].
  destruct (decode_payload _ _ _ _ _) as [p|e] eqn:Ep; cbn [rbind]; [done|]. by apply decode_payload_err in Ep.
Qed.

(** Reads of a payload laid out from the writers, at any offset. *)

Lemma byte_app p q i : byte (p ++ q) (length p + i) = byte q i.
Proof. unfold byte. by rewrite app_nth2_plus. Qed.

Lemma byte_app_0 p q : byte (p ++ q) (length p) = byte q 0.
Proof. rewrite <- (Nat.add_0_r (length p)). apply byte_app. Qed.

Lemma i24_at_app p v r : i24_at (p ++ pack_i24 v ++ r) (length p) = swrap 24 v.
Proof. unfold i24_at. rewrite !byte_app, byte_app_0. apply unpack_pack_i24. Qed.

Lemma i16_at_app p v r : i16_at (p ++ pack_i16 v ++ r) (length p) = swrap 16 v.
Proof. unfold i16_at. rewrite byte_app, byte_app_0. apply unpack_pack_i16. Qed.

Lemma i32_at_app p v r : i32_at (p ++ pack_i32 v ++ r) (length p) = swrap 32 v.
Proof. unfold i32_at. rewrite !byte_app, byte_app_0. apply unpack_pack_i32. Qed.

Lemma u32_at_app p v r : is_uint 32 v = true -> u32_at (p ++ pack_u32 v ++ r) (length p) = v.
Proof. intros. unfold u32_at. rewrite !byte_app, byte_app_0. by apply unpack_pack_u32. Qed.

Lemma f32_at_app p v r : is_uint 32 v = true -> f32_at (p ++ pack_f32 v ++ r) (length p) = v.
Proof. intros. unfold f32_at. rewrite !byte_app, byte_app_0. by apply unpack_pack_f32. Qed.

(** The three layouts of a motion frame. *)
Lemma reads_8 pos vel cur :
  let d := pack_i24 pos ++ pack_i24 vel ++ pack_i16 cur in
  length d = 8%nat /\ i24_at d 0 = swrap 24 pos /\ i24_at d 3 = swrap 24 vel /\ i16_at d 6 = swrap 16 cur.
Proof.
  cbv zeta. split_and!; [done | | | ].
  - apply (i24_at_app [] pos).
  - apply (i24_at_app (pack_i24 pos) vel).
  - apply (i16_at_app (pack_i24 pos ++ pack_i24 vel) cur []).
Qed.

Lemma reads_5 vel cur :
  let d := pack_i24 vel ++ pack_i16 cur in
  length d = 5%nat /\ i24_at d 0 = swrap 24 vel /\ i16_at d 3 = swrap 16 cur.
Proof.
  cbv zeta. split_and!; [done | | ].
  - apply (i24_at_app [] vel).
  - apply (i16_at_app (pack_i24 vel) cur []).
Qed.

Lemma reads_4 vel b :
  let d := pack_i24 vel ++ [b] in length d = 4%nat /\ i24_at d 0 = swrap 24 vel /\ byte d 3 = b.
Proof. cbv zeta. split_and!; [done| |done]. apply (i24_at_app [] vel). Qed.

Lemma reads_2 cur : let d := pack_i16 cur in length d = 2%nat /\ i16_at d 0 = swrap 16 cur.
Proof. cbv zeta. split; [done|]. apply (i16_at_app [] cur []). Qed.

(** Two floats, one float, the watchdog. *)
Lemma reads_ff a b :
  is_uint 32 a = true -> is_uint 32 b = true ->
  let d := pack_f32 a ++ pack_f32 b in length d = 8%nat /\ f32_at d 0 = a /\ f32_at d 4 = b.
Proof.
  intros Ha Hb. cbv zeta. split_and!; [done | | ].
  - by apply (f32_at_app [] a).
  - by apply (f32_at_app (pack_f32 a) b []).
Qed.

Lemma reads_w ms a :
  is_uint 32 ms = true ->
  let d := pack_u32 ms ++ [a] in length d = 5%nat /\ u32_at d 0 = ms /\ byte d 4 = a.
Proof. intros Hm. cbv zeta. split_and!; [done| |done]. by apply (u32_at_app [] ms). Qed.

Lemma reads_u v : is_uint 32 v = true -> u32_at (pack_u32 v) 0 = v.
Proof. intros Hv. by apply (u32_at_app [] v []). Qed.

Lemma reads_f v : is_uint 32 v = true -> f32_at (pack_f32 v) 0 = v.
Proof. intros Hv. by apply (f32_at_app [] v []). Qed.

(** ** One exchange *)

Lemma deliver_data_cmd node cmd p motion v :
  0 <= node < 16 -> deliver_frame (data_cmd node cmd p) motion v = deliver_data node cmd (data_cmd node cmd p) motion v.
Proof.
  intros Hn. unfold deliver_frame, data_cmd. cbn [fr_id data_frame].
  by rewrite unpack_pack_can_id, from_raw_raw by done.
Qed.

Lemma deliver_rtr_cmd node cmd motion v :
  0 <= node < 16 -> deliver_frame (rtr_frame (pack_can_id node cmd false)) motion v = deliver_rtr node cmd motion v.
Proof.
  intros Hn. unfold deliver_frame. cbn [fr_id fr_rtr rtr_frame].
  by rewrite unpack_pack_can_id, from_raw_raw by done.
Qed.

(** A motion reply carries what the plant reports, cut to the wire's widths. *)
Lemma decode_motion_reply node err pos spd cur :
  0 <= node < 16 ->
  decode_frame (motion_reply node err pos spd cur) =
    Ok (mkDecoded node err (Pl_Motion (swrap 24 pos) (swrap 24 spd) (swrap 16 cur))).
Proof.
  intros Hn. unfold motion_reply. rewrite decode_data_frame by done.
  destruct (reads_8 pos spd cur) as (L & R1 & R2 & R3). cbv zeta in *.
  unfold decode_payload. rewrite payload_data_frame by (rewrite L; unfold CAN_MAX_DATA; lia).
  cbv zeta. rewrite expect_data_frame by (rewrite L; unfold CAN_MAX_DATA; lia). cbn [rbind].
  by rewrite R1, R2, R3.
Qed.

Lemma decode_hall_reply node err pos state :
  0 <= node < 16 ->
  decode_frame (hall_reply node err pos state) = Ok (mkDecoded node err (Pl_Hall (swrap 24 pos) state)).
Proof.
  intros Hn. unfold hall_reply. rewrite decode_data_frame by done.
  set (b := fold_bits_msb_first _). destruct (reads_4 pos b) as (L & R1 & R2). cbv zeta in *.
  unfold decode_payload. rewrite payload_data_frame by (rewrite L; unfold CAN_MAX_DATA; lia).
  cbv zeta. rewrite expect_data_frame by (rewrite L; unfold CAN_MAX_DATA; lia). cbn [rbind].
  rewrite R1, R2. unfold b. rewrite unfold_fold_bits. by destruct state.
Qed.

Lemma decode_encoder_reply node kindless pos spd :
  0 <= node < 16 ->
  decode_frame (data_frame (pack_can_id node Cmd_EncoderData kindless) (pack_i32 pos ++ pack_i32 spd)) =
    Ok (mkDecoded node kindless (Pl_Encoder (swrap 32 pos) (swrap 32 spd))).
Proof.
  intros Hn. rewrite decode_data_frame by done.
  assert (L : length (pack_i32 pos ++ pack_i32 spd) = 8%nat) by done.
  unfold decode_payload. rewrite payload_data_frame by (rewrite L; unfold CAN_MAX_DATA; lia).
  cbv zeta. rewrite expect_data_frame by (rewrite L; unfold CAN_MAX_DATA; lia). cbn [rbind].
  rewrite (i32_at_app (pack_i32 pos) spd [] : i32_at (pack_i32 pos ++ pack_i32 spd) 4 = _).
  by rewrite (i32_at_app [] pos (pack_i32 spd) : i32_at (pack_i32 pos ++ pack_i32 spd) 0 = _).
Qed.

(** ** The drive obeys the host *)

Definition on_24 (v : Z) : real := sf_of_int (swrap 24 v).
Definition on_16 (v : Z) : real := sf_of_int (swrap 16 v).

(** The mode a command stands for; [EncoderPoll] asks and commands nothing. *)
Definition commanded (c : JointCommand) (before : DriveMode) : DriveMode :=
  let cur := on_16 (default 0 (jc_cur_ma c)) in
  let vel := on_24 (default 0 (jc_vel c)) in
  match jc_pack c with
  | Pk_Pid =>
      match jc_pos c, jc_vel c with
      | Some pos, _ => DM_Position (on_24 pos) vel cur
      | None, Some _ => DM_Velocity vel cur
      | None, None => DM_Current cur
      end
  | Pk_Pd => DM_Pd (on_24 (default 0 (jc_pos c))) vel cur
  | Pk_Hall trigger_value => DM_Hall vel trigger_value
  | Pk_Idle => DM_Idle
  | Pk_EncoderPoll => before
  end.

(** What the host decodes of the drive's answer to it. *)
Definition answered (c : JointCommand) (motion : Z * Z * Z) (v : VirtualDriver) : option Payload :=
  let '(pos, spd, cur) := motion in
  match jc_pack c with
  | Pk_Pid | Pk_Pd => Some (Pl_Motion (swrap 24 pos) (swrap 24 spd) (swrap 16 cur))
  | Pk_Hall _ => Some (Pl_Hall (swrap 24 pos) (hall_state v))
  | Pk_Idle => None
  | Pk_EncoderPoll => Some (Pl_Encoder (swrap 32 pos) (swrap 32 spd))
  end.

(** The exchange of a command: [r] is the answer and [v'] the drive after it. *)
Definition exchanged (node : Z) (c : JointCommand) (motion : Z * Z * Z) (v : VirtualDriver)
    (r : option CanFrame) (v' : VirtualDriver) : Prop :=
  v_mode v' = commanded c (v_mode v) /\
  v_flags v' = v_flags v /\
  decode_frame <$> r = (fun p => Ok (mkDecoded node (drive_err_bit v) p)) <$> answered c motion v'.

(** A frame the drive drives on: the arm taken, the mode, the flags and the answer. *)
Lemma deliver_drive node cmd p motion v reply v1 :
  (length p <= CAN_MAX_DATA)%nat -> config_kind cmd = None ->
  cmd <> Cmd_Capture -> cmd <> Cmd_CaptureStream -> cmd <> Cmd_CaptureRead ->
  drive_arm cmd p v = Some (reply, v1) ->
  exists v',
    deliver_data node cmd (data_cmd node cmd p) motion v =
      (let '(pos, spd, cur) := motion in
       match reply with
       | RK_None => None
       | RK_Motion => Some (motion_reply node (drive_err_bit v') pos spd cur)
       | RK_Hall => Some (hall_reply node (drive_err_bit v') pos (hall_state v'))
       end, v') /\
    v_mode v' = v_mode v1 /\ v_flags v' = v_flags v1 /\ hall_state v' = hall_state v1 /\
    v_ticks_since_data v' = (if fed cmd (length p) then 0 else v_ticks_since_data v1).
Proof.
  intros Hl Hk H1 H2 H3 Ha. destruct motion as [[pos spd] cur].
  set (v2 := if fed cmd (length p) then w_ticks_since_data 0 v1 else v1).
  set (v' := if negb (is_cascade (v_mode v)) && is_cascade (v_mode v2) then w_integral_ma zero v2 else v2).
  assert (E : on_data_frame cmd p v = (reply, v')).
  { unfold on_data_frame, note_written. rewrite Hk. cbv zeta. by rewrite Ha. }
  exists v'. split_and!.
  - unfold deliver_data, data_cmd. rewrite payload_data_frame by done. rewrite E.
    destruct cmd; try congruence; destruct reply; reflexivity.
  - unfold v', v2. by destruct (_ && _), (fed _ _).
  - unfold v', v2. by destruct (_ && _), (fed _ _).
  - unfold v', v2. by destruct (_ && _), (fed _ _).
  - unfold v', v2. by destruct (_ && _), (fed _ _).
Qed.

Lemma exchange_of node cmd p c motion v reply v1 :
  0 <= node < 16 -> (length p <= CAN_MAX_DATA)%nat -> config_kind cmd = None ->
  cmd <> Cmd_Capture -> cmd <> Cmd_CaptureStream -> cmd <> Cmd_CaptureRead ->
  drive_arm cmd p v = Some (reply, v1) ->
  v_mode v1 = commanded c (v_mode v) -> v_flags v1 = v_flags v ->
  reply = match jc_pack c with Pk_Pid | Pk_Pd => RK_Motion | Pk_Hall _ => RK_Hall | _ => RK_None end ->
  jc_pack c <> Pk_EncoderPoll ->
  exists r v', deliver_frame (data_cmd node cmd p) motion v = (r, v') /\ exchanged node c motion v r v' /\
    v_ticks_since_data v' = (if fed cmd (length p) then 0 else v_ticks_since_data v1).
Proof.
  intros Hn Hl Hk H1 H2 H3 Ha Hm Hf Hr Hp. rewrite deliver_data_cmd by done.
  destruct (deliver_drive node cmd p motion v reply v1) as (v' & E & M & F & Hh & T); try done.
  rewrite E. eexists _, v'. split; [done|]. split; [|done].
  assert (Eb : drive_err_bit v' = drive_err_bit v) by (unfold drive_err_bit; by rewrite F, Hf).
  rewrite Eb. split_and!; [by rewrite M|by rewrite F|].
  destruct motion as [[pos spd] cur]. unfold answered. rewrite Hr.
  destruct (jc_pack c); cbn [fmap option_fmap option_map]; rewrite ?decode_motion_reply, ?decode_hall_reply by done; done.
Qed.

Lemma ok_some_inj {E A} (a b : A) : @Ok E (option A) (Some a) = Ok (Some b) -> a = b.
Proof. congruence. Qed.


(** ** What was written reads back *)

(** The values a configuration frame carries. *)
Definition config_values (kind : ConfigKind) (c : NodeConfig) : Readback :=
  let g := nc_gains c in
  match kind with
  | CK_Watchdog => Rb_Watchdog (nc_watchdog_ms c) 0
  | CK_Limits => Rb_Limits (as_f32 (nc_velocity_limit_ticks_s c)) (as_f32 (nc_ilim_ma c))
  | CK_VoltageLimit => Rb_VoltageLimit (nc_voltage_limit_mv c)
  | CK_PdGains => Rb_PdGains (as_f32 (g_kp g)) (as_f32 (g_kd g))
  | CK_CurrentGains => Rb_CurrentGains (as_f32 (g_kpiq g)) (as_f32 (g_kiiq g))
  | CK_VelocityGains => Rb_VelocityGains (as_f32 (g_kpv g)) (as_f32 (g_kiv g))
  | CK_PositionGains => Rb_PositionGains (as_f32 (g_kpp g))
  end.

Definition config_ok (c : NodeConfig) : Prop :=
  0 <= nc_node c < 16 /\ is_uint 32 (nc_watchdog_ms c) = true /\ is_uint 32 (nc_voltage_limit_mv c) = true.

Lemma as_f32_range x : is_uint 32 (as_f32 x) = true.
Proof. unfold as_f32, sf_to_f32_bits. by apply wrap_range. Qed.

Definition config_payload (kind : ConfigKind) (c : NodeConfig) : bytes :=
  match kind with
  | CK_Watchdog => pack_u32 (nc_watchdog_ms c) ++ [0]
  | CK_Limits => pack_f32 (as_f32 (nc_velocity_limit_ticks_s c)) ++ pack_f32 (as_f32 (nc_ilim_ma c))
  | CK_VoltageLimit => pack_u32 (nc_voltage_limit_mv c)
  | CK_PdGains => pack_f32 (as_f32 (g_kp (nc_gains c))) ++ pack_f32 (as_f32 (g_kd (nc_gains c)))
  | CK_CurrentGains => pack_f32 (as_f32 (g_kpiq (nc_gains c))) ++ pack_f32 (as_f32 (g_kiiq (nc_gains c)))
  | CK_VelocityGains => pack_f32 (as_f32 (g_kpv (nc_gains c))) ++ pack_f32 (as_f32 (g_kiv (nc_gains c)))
  | CK_PositionGains => pack_f32 (as_f32 (g_kpp (nc_gains c)))
  end.

Lemma config_frame_payload kind c :
  config_frame kind c = data_cmd (nc_node c) (readback_command kind) (config_payload kind c).
Proof. unfold config_frame, encode_watchdog. by destruct kind, (nc_watchdog_action c). Qed.

Lemma config_payload_length kind c : length (config_payload kind c) = config_dlc kind.
Proof. by destruct kind. Qed.

Lemma config_kind_command kind : config_kind (readback_command kind) = Some kind.
Proof. by destruct kind. Qed.

(** A frame with a configuration's payload decodes to its values. *)
Lemma decode_config kind c err :
  config_ok c ->
  decode_frame (data_frame (pack_can_id (nc_node c) (readback_command kind) err) (config_payload kind c)) =
    Ok (mkDecoded (nc_node c) err (Pl_Readback (config_values kind c))).
Proof.
  intros (Hn & Hw & Hv). rewrite decode_data_frame by done.
  assert (Hl : (length (config_payload kind c) <= CAN_MAX_DATA)%nat)
    by (rewrite config_payload_length; destruct kind; cbn; unfold CAN_MAX_DATA; lia).
  set (p := config_payload kind c) in *.
  assert (He : forall n, Z.of_nat (config_dlc kind) = n ->
    expect_dlc (data_frame (pack_can_id (nc_node c) (readback_command kind) err) p) (nc_node c)
      (raw (readback_command kind)) err n = Ok tt).
  { intros n Hk. apply expect_data_frame; [done|]. unfold p. by rewrite config_payload_length. }
  unfold decode_payload. rewrite payload_data_frame by done. cbv zeta.
  pose proof as_f32_range as Hf.
  destruct kind; cbn [readback_command] in *; rewrite He by done; cbn [rbind];
    unfold p; cbn [config_payload config_values].
  - by destruct (reads_w (nc_watchdog_ms c) 0 Hw) as (_ & -> & ->).
  - by destruct (reads_ff _ _ (Hf (nc_velocity_limit_ticks_s c)) (Hf (nc_ilim_ma c))) as (_ & -> & ->).
  - by rewrite reads_u.
  - by destruct (reads_ff _ _ (Hf (g_kp (nc_gains c))) (Hf (g_kd (nc_gains c)))) as (_ & -> & ->).
  - by destruct (reads_ff _ _ (Hf (g_kpiq (nc_gains c))) (Hf (g_kiiq (nc_gains c)))) as (_ & -> & ->).
  - by destruct (reads_ff _ _ (Hf (g_kpv (nc_gains c))) (Hf (g_kiv (nc_gains c)))) as (_ & -> & ->).
  - by rewrite reads_f.
Qed.

(** Nothing but a configuration frame touches what read requests answer. *)
Lemma drive_arm_written cmd d v r v' : drive_arm cmd d v = Some (r, v') -> v_written v' = v_written v.
Proof.
  unfold drive_arm, drive_in, hall_restart, clear_faults.
  destruct cmd; try discriminate; repeat case_match; intros; simplify_eq; reflexivity.
Qed.

Lemma on_data_frame_written cmd d v : v_written (snd (on_data_frame cmd d v)) = v_written (note_written cmd d v).
Proof.
  unfold on_data_frame. destruct (drive_arm _ _ _) as [[r v']|] eqn:E; [|done].
  apply drive_arm_written in E. cbn [snd]. rewrite <- E. by destruct (fed _ _), (_ && _).
Qed.

Lemma note_written_at cmd d kind v :
  v_written (note_written cmd d v) !! config_index kind =
    (if bool_decide (config_kind cmd = Some kind) && (length d =? config_dlc kind)%nat
     then (fun _ => Some d) <$> v_written v !! config_index kind else v_written v !! config_index kind).
Proof.
  unfold note_written. destruct (config_kind cmd) as [k|] eqn:E; [|by rewrite bool_decide_false].
  destruct (decide (k = kind)) as [->|Hne].
  - rewrite bool_decide_true by done. cbn. destruct (length d =? _)%nat; [|done]. cbn.
    destruct (v_written v !! config_index kind) eqn:El; cbn.
    + apply list_lookup_insert_eq. by eapply lookup_lt_Some.
    + rewrite list_insert_ge by (by apply lookup_ge_None). done.
  - rewrite bool_decide_false by congruence. cbn. destruct (length d =? _)%nat; [|done]. cbn.
    apply list_lookup_insert_ne. destruct k, kind; try done.
Qed.

(** [f] is a data frame of the configuration command [kind]. *)
Definition is_write_of (kind : ConfigKind) (f : CanFrame) : bool :=
  let '(_, raw_cmd, _) := unpack_can_id (fr_id f) in
  negb (fr_rtr f) && bool_decide (from_raw raw_cmd ≫= config_kind = Some kind).

Lemma deliver_frame_written f motion v kind :
  is_write_of kind f = false ->
  v_written (snd (deliver_frame f motion v)) !! config_index kind = v_written v !! config_index kind.
Proof.
  unfold is_write_of, deliver_frame. destruct (unpack_can_id (fr_id f)) as [[node r] e].
  destruct (from_raw r) as [cmd|]; [|done]. destruct (fr_rtr f); cbn [negb andb].
  - intros _. unfold deliver_rtr. by repeat case_match.
  - intros Hk%bool_decide_eq_false. cbn in Hk.
    assert (H : v_written (snd (on_data_frame cmd (frame_payload f) v)) !! config_index kind = v_written v !! config_index kind).
    { rewrite on_data_frame_written, note_written_at, bool_decide_false by done. done. }
    unfold deliver_data. destruct (on_data_frame _ _ _) as [reply v'] eqn:E. cbn [snd] in H.
    destruct motion as [[pos spd] cur]. repeat case_match; done.
Qed.

(** The drive after a list of frames, with the motion the plant reports at each. *)
Definition after (fs : list (CanFrame * (Z * Z * Z))) (v : VirtualDriver) : VirtualDriver :=
  fold_left (fun v fm => snd (deliver_frame (fst fm) (snd fm) v)) fs v.

Lemma after_written kind fs v :
  Forall (fun fm => is_write_of kind (fst fm) = false) fs ->
  v_written (after fs v) !! config_index kind = v_written v !! config_index kind.
Proof.
  revert v. induction fs as [|fm fs IH]; intros v Hf; [done|]. inversion_clear Hf.
  unfold after. cbn [fold_left]. rewrite <- (deliver_frame_written (fst fm) (snd fm) v kind) by done. by apply IH.
Qed.

Lemma written_by_config kind c motion v :
  0 <= nc_node c < 16 -> length (v_written v) = 7%nat ->
  v_written (snd (deliver_frame (config_frame kind c) motion v)) !! config_index kind = Some (Some (config_payload kind c)).
Proof.
  intros Hn Hl. rewrite config_frame_payload, deliver_data_cmd by done.
  set (p := config_payload kind c).
  assert (Hp : length p = config_dlc kind) by apply config_payload_length.
  assert (frame_payload (data_cmd (nc_node c) (readback_command kind) p) = p) as Ep.
  { apply payload_data_frame. rewrite Hp. destruct kind; cbn; unfold CAN_MAX_DATA; lia. }
  assert (H : v_written (snd (on_data_frame (readback_command kind) p v)) !! config_index kind = Some (Some p)).
  { rewrite on_data_frame_written, note_written_at, config_kind_command, bool_decide_true, Hp, Nat.eqb_refl by done.
    cbn [andb]. destruct (lookup_lt_is_Some_2 (v_written v) (config_index kind)) as [x ->]; [|done].
    rewrite Hl. destruct kind; vm_compute; lia. }
  unfold deliver_data. rewrite Ep. destruct (on_data_frame _ _ _) as [reply v'] eqn:E. cbn [snd] in H.
  destruct motion as [[pos spd] cur]. by destruct kind; cbn [readback_command].
Qed.

(** A configuration that landed reads back as it was sent.  Once a drive was
    delivered a configuration frame of a node's stored configuration, then
    whatever else it is sent short of another frame of the same kind, a read
    request is answered with a frame the host decodes to exactly the values that
    were sent, floats included, under the same kind, and changes nothing in the
    drive. *)
Lemma written_config_reads_back kind c motion others v :
  config_ok c -> length (v_written v) = 7%nat ->
  Forall (fun fm => is_write_of kind (fst fm) = false) others ->
  let v' := after ((config_frame kind c, motion) :: others) v in
  exists r,
    deliver_frame (encode_readback_request (nc_node c) kind) motion v' = (Some r, v') /\
    decode_frame r = Ok (mkDecoded (nc_node c) (drive_err_bit v') (Pl_Readback (config_values kind c))) /\
    readback_kind (config_values kind c) = kind.
Proof.
  intros Hc Hl Ho v'. pose proof Hc as (Hn & _ & _).
  assert (Hw : v_written v' !! config_index kind = Some (Some (config_payload kind c))).
  { unfold v', after. cbn [fold_left fst snd]. fold (after others). rewrite after_written by done. by apply written_by_config. }
  unfold encode_readback_request. rewrite deliver_rtr_cmd by done. unfold deliver_rtr.
  rewrite config_kind_command. unfold config_readback. rewrite (nth_lookup_Some _ _ _ _ Hw).
  eexists. split; [reflexivity|]. split; [by apply decode_config|by destruct kind].
Qed.

(** ** What decodes is well typed *)

Definition readback_ok (r : Readback) : bool :=
  match r with
  | Rb_Watchdog ms action => is_uint 32 ms && is_uint 8 action
  | Rb_VoltageLimit v | Rb_PositionGains v => is_uint 32 v
  | Rb_Limits a b | Rb_PdGains a b | Rb_CurrentGains a b | Rb_VelocityGains a b => is_uint 32 a && is_uint 32 b
  end.

(** The ranges of the integer types of [Payload]. *)
Definition payload_ok (p : Payload) : bool :=
  match p with
  | Pl_Motion pos spd cur => is_sint 24 pos && is_sint 24 spd && is_sint 16 cur
  | Pl_Encoder pos spd => is_sint 32 pos && is_sint 32 spd
  | Pl_Hall pos _ => is_sint 24 pos
  | Pl_Temperature v | Pl_Voltage v | Pl_IqCurrent v => is_sint 16 v
  | Pl_Telemetry deg mv _ ma => is_sint 16 deg && is_sint 16 mv && is_sint 16 ma
  | Pl_Readback r => readback_ok r
  | Pl_Capture channel chunk (s0, s1) =>
      is_uint 8 channel && negb (channel =? 0xFF) && is_uint 16 chunk && is_sint 16 s0 && is_sint 16 s1
  | Pl_CaptureStatus a b c => is_uint 16 a && is_uint 16 b && is_uint 16 c
  | Pl_DeviceInfo i =>
      is_uint 8 (di_hw_ver i) && is_uint 8 (di_batch i) && is_uint 8 (di_sw_ver i) && is_sint 32 (di_serial i)
      && is_uint 8 (di_tool_id i)
  | Pl_Kt v => is_uint 32 v
  | Pl_Gripper g => is_uint 8 (gr_position g) && is_sint 16 (gr_current_ma g)
  | Pl_Errors _ | Pl_Ping | Pl_Heartbeat => true
  end.

Lemma byte_range d i : is_bytes d = true -> is_uint 8 (byte d i) = true.
Proof.
  intros H. unfold byte, is_bytes in *. rewrite forallb_forall in H.
  destruct (nth_in_or_default i d 0) as [Hin | ->]; [by apply H|done].
Qed.

Lemma i24_at_range d i : is_bytes d = true -> is_sint 24 (i24_at d i) = true.
Proof.
  intros H. pose proof (byte_range d i H) as B0. pose proof (byte_range d (i + 1) H) as B1.
  pose proof (byte_range d (i + 2) H) as B2. rewrite is_uint_spec in B0, B1, B2.
  unfold i24_at. rewrite is_sint_spec. set (b0 := byte d i) in *. set (b1 := byte d (i + 1)) in *.
  set (b2 := byte d (i + 2)) in *. clearbody b0 b1 b2. unfold unpack_i24.
  rewrite !Z.shiftl_mul_pow2 by lia. rewrite (lor_marker b0 16) by (cbn in *; lia).
  replace (b0 * 2 ^ 16 + b1 * 2 ^ 8) with ((b0 * 256 + b1) * 2 ^ 8) by (cbn; lia).
  rewrite lor_marker by (cbn in *; lia). change (1 * 2 ^ 23) with 8388608. change (1 * 2 ^ 24) with 16777216.
  change (2 ^ (24 - 1)) with 8388608. change (2 ^ 8) with 256 in *.
  destruct (Z.leb_spec 8388608 ((b0 * 256 + b1) * 256 + b2)); lia.
Qed.

Lemma i16_at_range d i : is_sint 16 (i16_at d i) = true.
Proof. by apply swrap_bounds. Qed.
Lemma i32_at_range d i : is_sint 32 (i32_at d i) = true.
Proof. by apply swrap_bounds. Qed.

Lemma word_range d i j : is_bytes d = true -> is_uint 16 (from_be [byte d i; byte d j]) = true.
Proof. intros H. apply (from_be_range _ 2); [|done]. cbn. by rewrite !byte_range. Qed.

Lemma u32_at_range d i : is_bytes d = true -> is_uint 32 (u32_at d i) = true.
Proof. intros H. apply (from_be_range _ 4); [|done]. cbn. by rewrite !byte_range. Qed.
Lemma f32_at_range d i : is_bytes d = true -> is_uint 32 (f32_at d i) = true.
Proof. apply u32_at_range. Qed.

Create HintDb frame_types discriminated.
#[local] Hint Resolve byte_range i24_at_range i16_at_range i32_at_range word_range u32_at_range f32_at_range : frame_types.

Lemma decode_payload_ok f node r b cmd p :
  is_bytes (fr_data f) = true -> decode_payload f node r b cmd = Ok p -> payload_ok p = true.
Proof.
  intros Hf. assert (Hd : is_bytes (frame_payload f) = true).
  { unfold frame_payload, is_bytes in *. rewrite forallb_forall in *. intros x Hx. apply Hf.
    apply list_elem_of_In. eapply subseteq_take. by apply list_elem_of_In. }
  unfold decode_payload, expect_dlc. cbv zeta. set (d := frame_payload f) in *. clearbody d.
  destruct cmd; repeat case_match; cbn [rbind]; intros; simplify_eq; cbn [payload_ok readback_ok di_hw_ver di_batch
    di_sw_ver di_serial di_tool_id gr_position gr_current_ma]; bsplit; auto with frame_types;
    try (match goal with H : (_ =? CAPTURE_STATUS_CHANNEL) = false |- _ => change 0xFF with CAPTURE_STATUS_CHANNEL; by rewrite H end).
Qed.

(** Decoding answers every frame, and what it answers is sound.  Any frame of
    eight bytes of buffer, whatever its id, remote bit and length, decodes to a
    value or a refusal that carries the node and the live fault bit of its id; a
    decoded payload is within the ranges of its integer types; a remote frame, an
    id outside the table and a reserved reply are never decoded. *)
Lemma decoding_is_sound f :
  is_bytes (fr_data f) = true ->
  let '(node, raw_cmd, err_bit) := unpack_can_id (fr_id f) in
  0 <= node < 16 /\
  match decode_frame f with
  | Ok d => df_node d = node /\ df_err_bit d = err_bit /\ payload_ok (df_payload d) = true /\ fr_rtr f = false /\
            exists cmd, from_raw raw_cmd = Some cmd /\ cmd <> Cmd_RespondDataPack2 /\ cmd <> Cmd_RespondDataPack3
  | Err e => de_node e = node /\ de_err_bit e = err_bit
  end.
Proof.
  intros Hf. unfold decode_frame. pose proof (unpack_can_id_value (fr_id f)) as E.
  destruct (unpack_can_id (fr_id f)) as [[node r] b]. injection E as -> -> ->.
  split; [apply Z.mod_pos_bound; lia|].
  destruct (from_raw _) as [cmd|] eqn:Ec; [|done]. destruct (fr_rtr f) eqn:Er; [done|].
  destruct (decode_payload _ _ _ _ _) as [p|e] eqn:Ep; cbn [rbind].
  - split_and!; [done|done|by eapply decode_payload_ok|done|]. exists cmd. split; [done|].
    split; intros ->; discriminate Ep.
  - by apply decode_payload_err in Ep.
Qed.

Lemma decoding_is_sound_witness :
  decode_frame (mkFrame 0x107 false 8 [0xFF; 0xFF; 0x6A; 0; 0x30; 0x39; 0x80; 0]) =
    Ok (mkDecoded 2 true (Pl_Motion (-150) 12345 (-32768))) /\
  let '(node, raw_cmd, err_bit) := unpack_can_id 0x107 in
  0 <= node < 16 /\
  match decode_frame (mkFrame 0x107 false 8 [0xFF; 0xFF; 0x6A; 0; 0x30; 0x39; 0x80; 0]) with
  | Ok d => df_node d = node /\ df_err_bit d = err_bit /\ payload_ok (df_payload d) = true /\ false = false /\
            exists cmd, from_raw raw_cmd = Some cmd /\ cmd <> Cmd_RespondDataPack2 /\ cmd <> Cmd_RespondDataPack3
  | Err e => de_node e = node /\ de_err_bit e = err_bit
  end.
Proof.
  split; [reflexivity|].
  apply (decoding_is_sound (mkFrame 0x107 false 8 [0xFF; 0xFF; 0x6A; 0; 0x30; 0x39; 0x80; 0])). reflexivity.
Defined.

(** ** Witnesses *)


Lemma written_config_reads_back_witness :
  let others := [(encode_clear_error 3, (0, 0, 0)); (config_frame CK_PdGains example_config, (0, 0, 0))] in
  Forall (fun fm => is_write_of CK_Limits (fst fm) = false) others /\
  let v' := after ((config_frame CK_Limits example_config, (1, 2, 3)) :: others) live_drive in
  exists r,
    deliver_frame (encode_readback_request 3 CK_Limits) (1, 2, 3) v' = (Some r, v') /\
    decode_frame r = Ok (mkDecoded 3 (drive_err_bit v') (Pl_Readback (config_values CK_Limits example_config))) /\
    readback_kind (config_values CK_Limits example_config) = CK_Limits.
Proof.
  cbv zeta.
  assert (H : Forall (fun fm : CanFrame * (Z * Z * Z) => is_write_of CK_Limits (fst fm) = false)
    [(encode_clear_error 3, (0, 0, 0)); (config_frame CK_PdGains example_config, (0, 0, 0))])
    by (repeat constructor; vm_compute; reflexivity).
  split; [exact H|].
  apply (written_config_reads_back CK_Limits example_config (1, 2, 3)); [|reflexivity|exact H].
  split_and!; [cbn; lia|cbn; lia|reflexivity|reflexivity].
Defined.
