(* ===== verification/CaptureProps.v ===== *)
(** * CaptureProps: a loop-rate capture crosses the bus

    The drive's recording, sent pair by pair as a stream or as answers to read
    requests, and the buffer the host stores the replies in. *)
From Stdlib Require Import SpecFloat.
From stdpp Require Import list.
From S2P Require Import Prelude F64 BusTypes CanCodec CanLemmas CanSched Convert Drive CanBus CanExample CanProps.

(** ** The drive's rows *)

Definition rows_ok (l : list Z) : Prop := length l = CAPTURE_LEN /\ Forall (fun s => is_sint 16 s = true) l.

Definition recording_ok (d : VirtualDriver) : Prop :=
  rows_ok (v_capture_vel d) /\ rows_ok (v_capture_iq d) /\ rows_ok (v_capture_phase d) /\
  0 <= v_capture_pos d <= CAPTURE_LEN_U16.

Lemma recording_rows d channel : recording_ok d -> rows_ok (drive_rows channel d).
Proof. intros (H1 & H2 & H3 & _). unfold drive_rows. by repeat case_match. Qed.

(** Recording keeps the rows in place, whatever the loops measure. *)
Lemma record_capture_ok vel driven d :
  recording_ok d -> v_capture_wanted d <= CAPTURE_LEN_U16 ->
  recording_ok (record_capture vel driven d) /\ v_capture_wanted (record_capture vel driven d) = v_capture_wanted d.
Proof.
  intros ((L1 & F1) & (L2 & F2) & (L3 & F3) & Hp) Hw. unfold record_capture.
  destruct (Z.leb_spec (v_capture_wanted d) (v_capture_pos d)); [done|].
  destruct (_ <=? _); [|done]. split; [|done].
  assert (Hs : forall x, is_sint 16 (sf_trunc_as_sint 16 x) = true).
  { intros x. rewrite is_sint_spec. pose proof (sf_saturate_range (- 2 ^ (16 - 1)) (2 ^ (16 - 1) - 1) floor_at x).
    unfold sf_trunc_as_sint. lia. }
  pose proof (fun v => swrap_bounds 16 v ltac:(lia)) as Hw16.
  unfold recording_ok, rows_ok. cbn -[sf_trunc_as_sint swrap CAPTURE_LEN CAPTURE_LEN_U16].
  rewrite !length_insert. split_and!; auto using Forall_insert; lia.
Qed.

(** ** One pair on the wire *)

Definition capture_frame (cmd : CommandId) (node : Z) (d : VirtualDriver) (at_ : Z * Z) : CanFrame :=
  data_frame (pack_can_id node cmd (drive_err_bit d)) (capture_reply (fst at_) (snd at_) d).

(** The pair at a position: zero past what was recorded. *)
Definition drive_sample (d : VirtualDriver) (channel i : Z) : Z :=
  if i <? v_capture_pos d then nth (Z.to_nat i) (drive_rows channel d) 0 else 0.

Lemma drive_sample_range d channel i : recording_ok d -> is_sint 16 (drive_sample d channel i) = true.
Proof.
  intros H. unfold drive_sample. destruct (_ <? _); [|done].
  destruct (recording_rows d channel H) as [Hl Hf]. rewrite Forall_forall in Hf.
  destruct (nth_in_or_default (Z.to_nat i) (drive_rows channel d) 0) as [Hin | ->]; [|done].
  apply Hf. by apply list_elem_of_In.
Qed.

Lemma be_swrap16 v : be_bytes 2 (swrap 16 v) = be_bytes 2 v.
Proof.
  cbn [be_bytes]. unfold swrap. pose proof (Z.div_mod v (2 ^ 16) ltac:(lia)) as E.
  assert (H : forall q, be_bytes 2 (v + q * 2 ^ 16) = be_bytes 2 v).
  { intros q. cbn [be_bytes]. unfold wrap. rewrite !Z.shiftr_div_pow2 by lia. f_equal; [|f_equal].
    - change (2 ^ (8 * Z.of_nat 1)) with (2 ^ 8). change (2 ^ 16) with (2 ^ 8 * 2 ^ 8).
      rewrite Z.mul_assoc, Z.div_add, Z.mod_add by lia. done.
    - change (2 ^ (8 * Z.of_nat 0)) with 1. rewrite !Z.div_1_r. change (2 ^ 16) with (2 ^ 8 * 2 ^ 8).
      rewrite Z.mul_assoc, Z.mod_add by lia. done. }
  cbn [be_bytes] in H. unfold wrap in *.
  destruct (_ <? _).
  - rewrite <- (H (- (v / 2 ^ 16))). replace (v + - (v / 2 ^ 16) * 2 ^ 16) with (v mod 2 ^ 16) by lia. done.
  - rewrite <- (H (- (v / 2 ^ 16) - 1)). replace (v + (- (v / 2 ^ 16) - 1) * 2 ^ 16) with (v mod 2 ^ 16 - 2 ^ 16) by lia. done.
Qed.

Lemma decode_capture cmd node d channel chunk :
  0 <= node < 16 -> cmd = Cmd_CaptureRead \/ cmd = Cmd_CaptureStreamData ->
  recording_ok d -> 0 <= channel < 3 -> is_uint 16 chunk = true ->
  decode_frame (capture_frame cmd node d (channel, chunk)) =
    Ok (mkDecoded node (drive_err_bit d)
      (Pl_Capture channel chunk (drive_sample d channel (chunk * 2), drive_sample d channel (chunk * 2 + 1)))).
Proof.
  intros Hn Hcmd Hd Hc Hk. unfold capture_frame. rewrite decode_data_frame by done. cbn [fst snd].
  set (s0 := drive_sample d channel (chunk * 2)). set (s1 := drive_sample d channel (chunk * 2 + 1)).
  assert (E : capture_reply channel chunk d = [channel] ++ be_bytes 2 chunk ++ pack_i16 s0 ++ pack_i16 s1).
  { unfold capture_reply. replace (channel =? CAPTURE_STATUS_CHANNEL) with false
      by (symmetry; apply Z.eqb_neq; unfold CAPTURE_STATUS_CHANNEL; lia).
    cbn [map concat]. rewrite be_swrap16. unfold s0, drive_sample. by rewrite Z.add_0_r, app_nil_r. }
  rewrite E. set (p := [channel] ++ be_bytes 2 chunk ++ pack_i16 s0 ++ pack_i16 s1).
  assert (L : length p = 7%nat) by done.
  assert (R0 : byte p 0 = channel) by done.
  assert (R1 : from_be [byte p 1; byte p 2] = chunk).
  { change [byte p 1; byte p 2] with (be_bytes 2 chunk). by apply word_of_be. }
  assert (R3 : i16_at p 3 = s0).
  { rewrite <- (swrap_small 16 s0) by (done || by apply drive_sample_range).
    apply (i16_at_app ([channel] ++ be_bytes 2 chunk) s0). }
  assert (R5 : i16_at p 5 = s1).
  { rewrite <- (swrap_small 16 s1) by (done || by apply drive_sample_range).
    apply (i16_at_app ([channel] ++ be_bytes 2 chunk ++ pack_i16 s0) s1 []). }
  clearbody p s0 s1. clear E.
  assert (G : decode_payload (data_frame (pack_can_id node cmd (drive_err_bit d)) p) node (raw cmd) (drive_err_bit d) cmd
              = Ok (Pl_Capture channel chunk (s0, s1))); [|by rewrite G].
  unfold decode_payload. rewrite payload_data_frame by (rewrite L; unfold CAN_MAX_DATA; lia). cbv zeta.
  destruct Hcmd as [-> | ->]; rewrite expect_data_frame by (rewrite L; unfold CAN_MAX_DATA; lia); cbn [rbind];
    change (byte p (1 + 1)) with (byte p 2); rewrite R0, R1, R3, R5;
    replace (channel =? CAPTURE_STATUS_CHANNEL) with false
      by (symmetry; apply Z.eqb_neq; unfold CAPTURE_STATUS_CHANNEL; lia); done.
Qed.

(** ** The host's buffer *)

(** What [apply_rx] makes of a frame in the buffer of its node. *)
Definition host_store (b : CaptureBuffer) (f : CanFrame) : CaptureBuffer :=
  match decode_frame f with
  | Ok d =>
      match df_payload d with
      | Pl_Capture channel chunk samples => capture_store b channel (Z.to_nat chunk) samples
      | Pl_CaptureStatus recorded wanted divisor => capture_status b recorded wanted divisor
      | _ => b
      end
  | Err _ => b
  end.

(** A pair the host holds. *)
Definition seen (b : CaptureBuffer) (channel : Z) (chunk : nat) : bool :=
  match cb_received b !! Z.to_nat channel with Some l => default false (l !! chunk) | None => false end.

Lemma missing_seen b channel :
  missing b channel = List.filter (fun c => negb (seen b channel c)) (seq 0 (chunks b)).
Proof. done. Qed.

Lemma channel_cases c : 0 <= c < 3 -> c = 0 \/ c = 1 \/ c = 2.
Proof. lia. Qed.

Lemma store_wf b channel chunk s :
  capture_wf b -> 0 <= channel < 3 -> capture_wf (capture_store b channel chunk s).
Proof.
  intros (W1 & W2 & W3 & W4 & W5 & W6) Hc.
  assert (Forall (fun r => length r = (CAPTURE_LEN / 2)%nat) (alter (fun seen => <[chunk := true]> seen) (Z.to_nat channel) (cb_received b))).
  { apply Forall_alter; [done|]. intros x _ Hx. by rewrite length_insert. }
  destruct (channel_cases _ Hc) as [-> | [-> | ->]]; split_and!; cbn; rewrite ?store_pair_length, ?length_alter; try done; lia.
Qed.

Lemma store_seen b channel chunk s other k :
  capture_wf b -> 0 <= channel < 3 -> 0 <= other < 3 -> (chunk < CAPTURE_LEN / 2)%nat ->
  seen (capture_store b channel chunk s) other k = seen b other k || (bool_decide (other = channel) && bool_decide (k = chunk)).
Proof.
  intros (W1 & W2 & W3 & W4 & W5 & W6) Hc Ho Hk.
  assert (E : cb_received (capture_store b channel chunk s) = alter (fun seen => <[chunk := true]> seen) (Z.to_nat channel) (cb_received b)).
  { by destruct (channel_cases _ Hc) as [-> | [-> | ->]]. }
  unfold seen. rewrite E. destruct (decide (other = channel)) as [-> |Hne].
  - rewrite list_lookup_alter_eq, (bool_decide_true (channel = channel)) by done.
    destruct (lookup_lt_is_Some_2 (cb_received b) (Z.to_nat channel)) as [l El]; [lia|].
    rewrite El. cbn. pose proof (Forall_lookup_1 _ _ _ _ W5 El) as Hl. cbv beta in Hl.
    destruct (decide (k = chunk)) as [-> |Hnk].
    + rewrite list_lookup_insert_eq by lia. rewrite bool_decide_true by done. cbn. by rewrite orb_true_r.
    + rewrite list_lookup_insert_ne by done. rewrite bool_decide_false by done. by rewrite orb_false_r.
  - rewrite list_lookup_alter_ne by lia. rewrite bool_decide_false by done. by rewrite orb_false_r.
Qed.

Lemma store_rows b channel chunk s other i :
  capture_wf b -> 0 <= channel < 3 -> 0 <= other < 3 -> (chunk < CAPTURE_LEN / 2)%nat ->
  capture_rows (capture_store b channel chunk s) other !! i =
    if bool_decide (other = channel) then
      if (i =? chunk * 2)%nat then Some (fst s)
      else if (i =? chunk * 2 + 1)%nat then Some (snd s) else capture_rows b other !! i
    else capture_rows b other !! i.
Proof.
  intros (W1 & W2 & W3 & W4 & W5 & W6) Hc Ho Hk.
  assert (chunk * 2 + 1 < CAPTURE_LEN)%nat by (change (CAPTURE_LEN / 2)%nat with 512%nat in Hk; change CAPTURE_LEN with (512 * 2)%nat; lia).
  destruct (decide (other = channel)) as [-> |Hne].
  - rewrite bool_decide_true by done. rewrite <- store_pair_lookup.
    + by destruct (channel_cases _ Hc) as [-> | [-> | ->]].
    + destruct (channel_cases _ Hc) as [-> | [-> | ->]]; cbn [capture_rows]; lia.
  - rewrite bool_decide_false by done.
    destruct (channel_cases _ Hc) as [-> | [-> | ->]], (channel_cases _ Ho) as [-> | [-> | ->]]; done.
Qed.

(** Positions of the recording. *)
Definition position_ok (d : VirtualDriver) (p : Z * Z) : Prop :=
  0 <= fst p < 3 /\ 0 <= snd p < capture_pairs d.

Definition frame_ok (node : Z) (d : VirtualDriver) (p : Z * Z) (f : CanFrame) : Prop :=
  f = capture_frame Cmd_CaptureStreamData node d p \/ f = capture_frame Cmd_CaptureRead node d p.

(** The positions among those delivered. *)
Definition delivered (got : list (Z * Z)) (channel : Z) (k : nat) : bool := bool_decide ((channel, Z.of_nat k) ∈ got).

(** What the host holds after the frames of [got], from a buffer [b0]. *)
Definition holds (d : VirtualDriver) (b0 : CaptureBuffer) (got : list (Z * Z)) (b : CaptureBuffer) : Prop :=
  capture_wf b /\ cb_recorded b = cb_recorded b0 /\
  (forall channel k, 0 <= channel < 3 -> seen b channel k = seen b0 channel k || delivered got channel k) /\
  (forall channel k i, 0 <= channel < 3 -> (i = k * 2 \/ i = k * 2 + 1)%nat -> delivered got channel k = true ->
     capture_rows b channel !! i = Some (drive_sample d channel (Z.of_nat i))).

Lemma holds_store node d b0 got b p f :
  0 <= node < 16 -> recording_ok d -> holds d b0 got b -> position_ok d p -> frame_ok node d p f ->
  holds d b0 (got ++ [p]) (host_store b f).
Proof.
  intros Hn Hd (W & R & S & V) [Hc Hk] Hf. destruct p as [channel chunk]. cbn [fst snd] in Hc, Hk.
  assert (Hpos : chunk * 2 + 1 < 1025).
  { destruct Hd as (_ & _ & _ & Hp). unfold capture_pairs, CAPTURE_LEN_U16 in *.
    pose proof (Z.mul_div_le (v_capture_pos d + 1) 2 ltac:(lia)). lia. }
  assert (E : host_store b f = capture_store b channel (Z.to_nat chunk)
                (drive_sample d channel (chunk * 2), drive_sample d channel (chunk * 2 + 1))).
  { unfold host_store. destruct Hf as [-> | ->]; rewrite decode_capture by (try done; try (by (left + right)); rewrite ?is_uint_spec; lia); done. }
  rewrite E. assert (Hlt : (Z.to_nat chunk < CAPTURE_LEN / 2)%nat) by (change (CAPTURE_LEN / 2)%nat with 512%nat; lia).
  assert (Hd' : forall c k, delivered (got ++ [(channel, chunk)]) c k =
    delivered got c k || (bool_decide (c = channel) && bool_decide (k = Z.to_nat chunk))).
  { intros c k. unfold delivered. rewrite <- bool_decide_and, <- bool_decide_or. apply bool_decide_ext.
    rewrite elem_of_app, list_elem_of_singleton. split; [intros [?|?]|intros [?|[-> ->]]]; [by left| |by left|].
    - simplify_eq. right. split; [done|]. lia.
    - right. f_equal. lia. }
  split_and!.
  - by apply store_wf.
  - rewrite <- R. by destruct (channel_cases _ Hc) as [-> | [-> | ->]].
  - intros c k Hc'. rewrite store_seen by done. rewrite S, Hd' by done. by rewrite orb_assoc.
  - intros c k i Hc' Hi. rewrite Hd', store_rows by done. intros Hdel.
    destruct (decide (c = channel)) as [-> |Hne].
    + rewrite bool_decide_true by done.
      destruct (Nat.eqb_spec i (Z.to_nat chunk * 2)) as [Ei|Ei]; [cbn; do 2 f_equal; lia|].
      destruct (Nat.eqb_spec i (Z.to_nat chunk * 2 + 1)) as [Ei'|Ei']; [cbn; do 2 f_equal; lia|].
      apply (V channel k); [done..|]. rewrite (bool_decide_true (channel = channel)) in Hdel by done.
      rewrite (bool_decide_false (k = _)) in Hdel by lia. cbn in Hdel. by rewrite orb_false_r in Hdel.
    + rewrite bool_decide_false by done. apply (V c k); [done..|].
      rewrite (bool_decide_false (c = channel)) in Hdel by done. cbn in Hdel. by rewrite orb_false_r in Hdel.
Qed.

Lemma holds_all node d b0 got fs :
  0 <= node < 16 -> recording_ok d -> capture_wf b0 -> Forall (position_ok d) got -> Forall2 (frame_ok node d) got fs ->
  holds d b0 got (fold_left host_store fs b0).
Proof.
  intros Hn Hd Hw. revert fs. induction got as [|p got IH] using rev_ind; intros fs Hp Hf.
  - apply Forall2_nil_inv_l in Hf as ->. split_and!; try done.
    intros channel k Hc. unfold delivered. by rewrite bool_decide_false, orb_false_r by by apply not_elem_of_nil.
  - apply Forall2_app_inv_l in Hf as (fs1 & fs2 & H1 & H2 & ->).
    apply Forall2_cons_inv_l in H2 as (f & fs' & Hf & H2 & ->). apply Forall2_nil_inv_l in H2 as ->.
    apply Forall_app in Hp as [Hp Hq]. inversion_clear Hq. rewrite fold_left_app. cbn [fold_left].
    eapply holds_store; eauto.
Qed.

(** A capture crosses the bus whole.  The host, holding the drive's status,
    stores whatever pairs reach it, streamed or read back, in any order, with
    duplicates and losses: every delivered pair's two samples are the drive's
    (zero past what was recorded), and the list of missing pairs is exactly the
    former one without the delivered ones, so reading it back again and again
    completes the recording. *)
Lemma capture_crosses_the_bus node d b got fs :
  0 <= node < 16 -> recording_ok d -> capture_wf b ->
  Forall (position_ok d) got -> Forall2 (frame_ok node d) got fs ->
  let b' := fold_left host_store fs b in
  (forall channel chunk i, (channel, Z.of_nat chunk) ∈ got -> (i = chunk * 2 \/ i = chunk * 2 + 1)%nat ->
     capture_rows b' channel !! i = Some (drive_sample d channel (Z.of_nat i))) /\
  (forall channel, 0 <= channel < 3 ->
     missing b' channel = List.filter (fun c => negb (bool_decide ((channel, Z.of_nat c) ∈ got))) (missing b channel)).
Proof.
  intros Hn Hd Hw Hp Hf. cbv zeta. destruct (holds_all node d b got fs Hn Hd Hw Hp Hf) as (W & R & S & V). split.
  - intros channel chunk i Hin Hi. apply (V channel chunk i); [|done|by apply bool_decide_true].
    rewrite Forall_forall in Hp. by destruct (Hp _ Hin).
  - intros channel Hc. rewrite !missing_seen. unfold chunks. rewrite R.
    induction (seq 0 _) as [|c l IH]; [done|]. cbn [List.filter]. rewrite (S channel c Hc). unfold delivered.
    destruct (seen b channel c); cbn [negb orb]; [done|]. cbn [List.filter].
    destruct (bool_decide _); cbn [negb]; [done|]. by rewrite IH.
Qed.

(** ** The stream visits every position *)

(** The positions from one on: the rest of its channel, then the later channels. *)
Definition channel_positions (pairs channel chunk : Z) : list (Z * Z) :=
  map (pair channel) (seqZ chunk (pairs - chunk)).

Definition positions_from (pairs channel chunk : Z) : list (Z * Z) :=
  channel_positions pairs channel chunk
  ++ concat (map (fun c => channel_positions pairs c 0) (seqZ (channel + 1) (2 - channel))).

Lemma channel_positions_end pairs channel chunk : pairs <= chunk -> channel_positions pairs channel chunk = [].
Proof. intros. unfold channel_positions. by rewrite seqZ_nil by lia. Qed.

Lemma channel_positions_step pairs channel chunk :
  chunk < pairs -> channel_positions pairs channel chunk = (channel, chunk) :: channel_positions pairs channel (chunk + 1).
Proof.
  intros. unfold channel_positions. rewrite seqZ_cons by lia. cbn [map]. f_equal. do 2 f_equal; lia.
Qed.

Lemma positions_next pairs channel : channel < 2 ->
  concat (map (fun c => channel_positions pairs c 0) (seqZ (channel + 1) (2 - channel))) = positions_from pairs (channel + 1) 0.
Proof.
  intros. rewrite seqZ_cons by lia. cbn [map concat]. unfold positions_from. do 3 f_equal. f_equal; lia.
Qed.

(** [seek_pair] finds the head of the remaining positions. *)
Lemma seek_pair_spec fuel pairs channel chunk :
  0 <= channel <= 2 -> 2 - channel < Z.of_nat fuel -> 0 <= pairs ->
  let '(c, k) := seek_pair fuel pairs channel chunk in
  (2 < c /\ positions_from pairs channel chunk = []) \/
  (0 <= c <= 2 /\ k < pairs /\ positions_from pairs channel chunk = (c, k) :: positions_from pairs c (k + 1)).
Proof.
  revert channel chunk. induction fuel as [|fuel IH]; intros channel chunk Hc Hf Hp; [lia|]. cbn [seek_pair].
  destruct (Z.leb_spec pairs chunk).
  - destruct (Z.ltb_spec 2 (channel + 1)).
    + left. split; [lia|]. unfold positions_from. rewrite channel_positions_end, seqZ_nil by lia. done.
    + assert (E : positions_from pairs channel chunk = positions_from pairs (channel + 1) 0).
      { unfold positions_from at 1. rewrite channel_positions_end by lia. by rewrite positions_next by lia. }
      rewrite E. apply IH; lia.
  - right. split_and!; [lia..|]. unfold positions_from. rewrite (channel_positions_step _ _ chunk) by lia. done.
Qed.

Lemma pump_stream_frames budget node channel chunk d :
  0 <= channel <= 2 -> 0 <= v_capture_pos d ->
  fst (pump_stream budget node channel chunk d) =
    map (capture_frame Cmd_CaptureStreamData node d) (take budget (positions_from (capture_pairs d) channel chunk)).
Proof.
  revert channel chunk. induction budget as [|budget IH]; intros channel chunk Hc Hp; [done|].
  cbn [pump_stream]. assert (0 <= capture_pairs d) by (apply Z.div_pos; lia).
  pose proof (seek_pair_spec 3 (capture_pairs d) channel chunk Hc ltac:(lia) ltac:(lia)) as Hs.
  destruct (seek_pair 3 _ channel chunk) as [c k]. destruct Hs as [[H2 ->] | (H1 & H2 & ->)].
  - destruct (Z.ltb_spec 2 c); [done|lia].
  - destruct (Z.ltb_spec 2 c); [lia|]. pose proof (IH c (k + 1) ltac:(lia) Hp) as E.
    destruct (pump_stream budget node c (k + 1) d) as [fs rest]. cbn [fst] in E |- *. by rewrite E.
Qed.

(** A stream the bus drops nothing of leaves nothing missing: given room for three
    channels of pairs it sends every position, in order, once. *)
Lemma stream_sends_everything node d budget :
  0 <= v_capture_pos d -> 3 * capture_pairs d <= Z.of_nat budget ->
  fst (pump_stream budget node 0 0 d) =
    map (capture_frame Cmd_CaptureStreamData node d) (positions_from (capture_pairs d) 0 0) /\
  (forall p, position_ok d p -> p ∈ positions_from (capture_pairs d) 0 0).
Proof.
  intros Hp Hb. assert (0 <= capture_pairs d) by (apply Z.div_pos; lia).
  assert (E : positions_from (capture_pairs d) 0 0 =
    channel_positions (capture_pairs d) 0 0 ++ channel_positions (capture_pairs d) 1 0 ++ channel_positions (capture_pairs d) 2 0).
  { unfold positions_from. change (seqZ (0 + 1) (2 - 0)) with [1; 2]. cbn [map concat]. by rewrite (app_nil_r (channel_positions _ 2 _)). }
  split.
  - rewrite pump_stream_frames, take_ge by (try lia;
      rewrite E, !length_app; unfold channel_positions; rewrite !length_map, !length_seqZ; lia). done.
  - intros [c k] [Hc Hk]. cbn [fst snd] in *. rewrite E, !elem_of_app. unfold channel_positions.
    assert (forall x, x = c -> (c, k) ∈ map (pair x) (seqZ 0 (capture_pairs d - 0))).
    { intros x ->. apply list_elem_of_fmap. exists k. split; [done|]. apply elem_of_seqZ. lia. }
    destruct (channel_cases c Hc) as [-> | [-> | ->]]; auto.
Qed.

Lemma live_recording_ok : recording_ok live_drive.
Proof.
  assert (Hz : forall n, Forall (fun s => is_sint 16 s = true) (replicate n 0)) by (intros; by apply Forall_replicate).
  split_and!; try (split; [reflexivity|]); try apply Hz; try (vm_compute; congruence).
  cbn [live_drive w_capture_vel v_capture_vel]. apply Forall_app. split; [|apply Hz]. repeat constructor.
Qed.

Lemma capture_crosses_the_bus_witness :
  let b := capture_status capture_new 3 8 1 in
  let got := [(0, 1); (1, 0); (0, 1)] in
  let fs := map (capture_frame Cmd_CaptureStreamData 3 live_drive) got in
  let b' := fold_left host_store fs b in
  (forall channel chunk i, (channel, Z.of_nat chunk) ∈ got -> (i = chunk * 2 \/ i = chunk * 2 + 1)%nat ->
     capture_rows b' channel !! i = Some (drive_sample live_drive channel (Z.of_nat i))) /\
  (forall channel, 0 <= channel < 3 ->
     missing b' channel = List.filter (fun c => negb (bool_decide ((channel, Z.of_nat c) ∈ got))) (missing b channel)).
Proof.
  cbv zeta. apply (capture_crosses_the_bus 3 live_drive).
  - lia.
  - apply live_recording_ok.
  - destruct capture_new_wf as (H1 & H2 & H3 & H4 & H5 & _). by split_and!.
  - assert (E : capture_pairs live_drive = 2) by (vm_compute; reflexivity).
    unfold position_ok. rewrite E. repeat (constructor; [cbn [fst snd]; lia|]). constructor.
  - repeat (constructor; [by left|]). constructor.
Defined.
