(* ===== verification/DriveProps.v ===== *)
(** * DriveProps: the drive's watchdog and its faults

    Everything that can happen to a drive as a list of events, and what holds of it
    whatever the events: a faulted drive drives nothing until it is cleared and
    says so on every reply; a drive left without commands trips its watchdog at
    exactly the configured tick. *)
From Stdlib Require Import SpecFloat.
From stdpp Require Import list.
From S2P Require Import Prelude F64 BusTypes CanCodec CanLemmas CanSched Convert Drive CanBus CanExample CanProps.

Section events.
Context {trig : Trig}.

(** A frame with the motion the plant reports, a bus tick, a hall sample, one
    iteration of the control loops. *)
Inductive DriveEvent :=
| Ev_Frame (f : CanFrame) (motion : Z * Z * Z)
| Ev_Tick
| Ev_Hall (in_band : bool) (position_ticks : Z)
| Ev_Loop (pos_ticks vel_ticks_s : real).

Definition drive_event (v : VirtualDriver) (e : DriveEvent) : VirtualDriver :=
  match e with
  | Ev_Frame f motion => snd (deliver_frame f motion v)
  | Ev_Tick => age_watchdog v
  | Ev_Hall in_band pos => sample_hall in_band pos v
  | Ev_Loop pos vel => snd (control_iteration pos vel v)
  end.

Definition drive_run (evs : list DriveEvent) (v : VirtualDriver) : VirtualDriver := fold_left drive_event evs v.

(** A well-formed data frame of [cmd] with [len] bytes. *)
Definition is_data (cmd : CommandId) (len : nat) (f : CanFrame) : bool :=
  let '(_, raw_cmd, _) := unpack_can_id (fr_id f) in
  negb (fr_rtr f) && bool_decide (from_raw raw_cmd = Some cmd) && (length (frame_payload f) =? len)%nat.

Definition clears (e : DriveEvent) : bool :=
  match e with Ev_Frame f _ => is_data Cmd_ClearError 0 f | _ => false end.

(** ** What each operation leaves alone *)

Lemma drive_arm_frame cmd d v r v' :
  drive_arm cmd d v = Some (r, v') ->
  (v_armed v = true -> v_armed v' = true) /\
  v_ticks_since_data v' = v_ticks_since_data v /\
  (cmd = Cmd_Watchdog /\ length d = 5%nat \/ v_watchdog_ticks v' = v_watchdog_ticks v) /\
  (cmd = Cmd_ClearError /\ length d = 0%nat \/
   (ef_error (v_flags v) = true -> ef_error (v_flags v') = true) /\ ef_watchdog (v_flags v') = ef_watchdog (v_flags v)).
Proof.
  unfold drive_arm, drive_in, hall_restart, clear_faults.
  destruct cmd; try discriminate; repeat case_match; intros; simplify_eq; cbn; split_and!; auto.
Qed.

Lemma drive_idle_frame v :
  let v' := snd (drive_idle v) in
  v_armed v' = v_armed v /\ v_ticks_since_data v' = v_ticks_since_data v /\
  v_watchdog_ticks v' = v_watchdog_ticks v /\ v_flags v' = v_flags v.
Proof. done. Qed.

(** The control loops, the capture and the hall sensor touch neither the watchdog
    nor the flags. *)
Definition same_guard (v v' : VirtualDriver) : Prop :=
  v_armed v' = v_armed v /\ v_ticks_since_data v' = v_ticks_since_data v /\
  v_watchdog_ticks v' = v_watchdog_ticks v /\ v_flags v' = v_flags v.

#[local] Instance same_guard_preorder : PreOrder same_guard.
Proof.
  split; [by intros v|]. intros u v w (? & ? & ? & ?) (? & ? & ? & ?). split_and!; congruence.
Qed.

Lemma velocity_pi_guard a b c d v : same_guard v (snd (velocity_pi a b c d v)).
Proof. done. Qed.

Lemma mode_current_guard p q v : same_guard v (snd (mode_current p q v)).
Proof. unfold mode_current. by case_match. Qed.

Lemma current_loop_guard a b c v : same_guard v (snd (current_loop a b c v)).
Proof. unfold current_loop. destruct (v_electrical v); [|done]. by case_match. Qed.

Lemma control_law_guard p q r v : same_guard v (snd (control_law p q r v)).
Proof.
  unfold control_law. destruct (ef_error _); [done|].
  assert (H : same_guard v (snd (let '(cur, v0) := mode_current p q v in
     let '(out, v1) := current_loop (sf_clamp (sf_opp (v_ilim_ma v)) (v_ilim_ma v) cur) r one v0 in
     (mkPlantCmd out (sf_clamp (sf_opp (v_ilim_ma v)) (v_ilim_ma v) (mode_ff (v_mode v))) (v_vel_limit (w_cur_out_ma out v1)) false,
      w_cur_out_ma out v1)))).
  { pose proof (mode_current_guard p q v) as H1. destruct (mode_current p q v) as [cur v1].
    pose proof (current_loop_guard (sf_clamp (sf_opp (v_ilim_ma v)) (v_ilim_ma v) cur) r one v1) as H2.
    destruct (current_loop _ r one v1) as [out v2]. cbn [snd] in *. by transitivity v1; [|transitivity v2]. }
  by destruct (v_mode v).
Qed.

Lemma record_capture_guard a b v : same_guard v (record_capture a b v).
Proof. unfold record_capture. by repeat case_match. Qed.

Lemma control_iteration_guard p q v : same_guard v (snd (control_iteration p q v)).
Proof.
  unfold control_iteration. cbv zeta.
  match goal with |- context [control_law ?a ?b ?c ?w] =>
    pose proof (control_law_guard a b c w) as H; destruct (control_law a b c w) as [out v1] end.
  cbn [snd] in *. transitivity v1; [|apply record_capture_guard]. exact H.
Qed.

Lemma sample_hall_guard b p v : same_guard v (sample_hall b p v).
Proof. unfold sample_hall. by repeat case_match. Qed.

(** ** Faults *)

Lemma on_data_frame_error cmd d v :
  (cmd = Cmd_ClearError /\ length d = 0%nat) \/
  (ef_error (v_flags v) = true -> ef_error (v_flags (snd (on_data_frame cmd d v))) = true).
Proof.
  unfold on_data_frame. set (v0 := note_written cmd d v).
  assert (H0 : v_flags v0 = v_flags v) by (unfold v0, note_written; by repeat case_match).
  destruct (drive_arm cmd d v0) as [[r v1]|] eqn:E; [|right; cbn; by rewrite H0].
  apply drive_arm_frame in E as (_ & _ & _ & [?|[E _]]); [by left|right]. rewrite H0 in E.
  intros He. cbn [snd]. destruct (fed _ _), (_ && _); cbn; auto.
Qed.

Lemma deliver_data_state node cmd f motion v :
  (exists divisor wanted, snd (deliver_data node cmd f motion v) = drive_capture_start divisor wanted v) \/
  snd (deliver_data node cmd f motion v) = v \/
  snd (deliver_data node cmd f motion v) = snd (on_data_frame cmd (frame_payload f) v).
Proof.
  unfold deliver_data. destruct motion as [[pos spd] cur].
  destruct (on_data_frame cmd (frame_payload f) v) as [reply v'].
  repeat case_match; cbn [snd]; eauto.
Qed.

Lemma deliver_frame_error f motion v :
  is_data Cmd_ClearError 0 f = false -> ef_error (v_flags v) = true ->
  ef_error (v_flags (snd (deliver_frame f motion v))) = true.
Proof.
  unfold is_data, deliver_frame. destruct (unpack_can_id _) as [[node r] e].
  destruct (from_raw r) as [cmd|]; [|done]. destruct (fr_rtr f); cbn [negb andb].
  - intros _ He. unfold deliver_rtr. by repeat case_match.
  - intros Hc He. destruct (deliver_data_state node cmd f motion v) as [(? & ? & ->) | [-> | ->]]; [done..|].
    destruct (on_data_frame_error cmd (frame_payload f) v) as [[-> Hl]|H]; [|by apply H].
    rewrite Hl, bool_decide_true in Hc by done. done.
Qed.

Lemma drive_event_error e v :
  clears e = false -> ef_error (v_flags v) = true -> ef_error (v_flags (drive_event v e)) = true.
Proof.
  destruct e as [f motion| |b p|p q]; cbn [clears drive_event]; intros Hc He.
  - by apply deliver_frame_error.
  - unfold age_watchdog. by repeat case_match.
  - destruct (sample_hall_guard b p v) as (_ & _ & _ & ->). done.
  - destruct (control_iteration_guard p q v) as (_ & _ & _ & ->). done.
Qed.

Lemma drive_run_error evs v :
  Forall (fun e => clears e = false) evs -> ef_error (v_flags v) = true -> ef_error (v_flags (drive_run evs v)) = true.
Proof.
  revert v. induction evs as [|e evs IH]; intros v Hc He; [done|]. inversion_clear Hc.
  apply (IH (drive_event v e)); [done|]. by apply drive_event_error.
Qed.

(** Every reply carries the id of the node asked and the drive's live fault bit. *)
Lemma reply_id f motion v r v' :
  deliver_frame f motion v = (Some r, v') ->
  exists cmd, fr_id r = pack_can_id (fst (fst (unpack_can_id (fr_id f)))) cmd (drive_err_bit v').
Proof.
  unfold deliver_frame. destruct (unpack_can_id (fr_id f)) as [[node c] e]. cbn [fst].
  destruct (from_raw c) as [cmd|]; [|done]. destruct (fr_rtr f).
  - unfold deliver_rtr, poll_reply. destruct motion as [[pos spd] cur].
    repeat case_match; intros; simplify_eq; cbn [fr_id data_frame]; eauto.
  - unfold deliver_data. destruct motion as [[pos spd] cur].
    destruct (on_data_frame cmd (frame_payload f) v) as [reply v1].
    repeat case_match; intros; simplify_eq; unfold motion_reply, hall_reply; cbn [fr_id data_frame]; eauto.
Qed.

Lemma unpack_node_range id : 0 <= fst (fst (unpack_can_id id)) < 16.
Proof. rewrite unpack_can_id_value. cbn [fst]. apply Z.mod_pos_bound. lia. Qed.

(** A faulted drive drives nothing until it is cleared, and says so.  Whatever
    happens to a drive with its aggregate error flag up - motion commands,
    configuration, e-stops, polls, ticks, hall edges, control loops - short of a
    well-formed Clear_Error, its next control iteration idles with no current,
    and every reply it sends decodes on the host to the live fault bit of its
    node, refused payloads included. *)
Lemma faulted_drive_is_limp evs v :
  ef_error (v_flags v) = true -> Forall (fun e => clears e = false) evs ->
  let v' := drive_run evs v in
  (forall pos vel, fst (control_iteration pos vel v') = mkPlantCmd zero zero (v_vel_limit v') true /\
     v_cur_out_ma (snd (control_iteration pos vel v')) = zero /\
     v_mode (snd (control_iteration pos vel v')) = DM_Idle) /\
  (forall f motion r, is_data Cmd_ClearError 0 f = false -> fst (deliver_frame f motion v') = Some r ->
     match decode_frame r with
     | Ok d => df_node d = fst (fst (unpack_can_id (fr_id f))) /\ df_err_bit d = true
     | Err e => de_node e = fst (fst (unpack_can_id (fr_id f))) /\ de_err_bit e = true
     end).
Proof.
  intros He Hc v'. assert (E : ef_error (v_flags v') = true) by by apply drive_run_error. clearbody v'. split.
  - intros pos vel. unfold control_iteration, control_law. cbn [v_flags w_phase w_previous_encoder w_velocity_history
      w_velocity_samples w_measured_velocity]. rewrite E. cbn [fst snd drive_idle]. split_and!; [done| |].
    + unfold record_capture. by repeat case_match.
    + unfold record_capture. by repeat case_match.
  - intros f motion r Hf Hr. destruct (deliver_frame f motion v') as [r' v''] eqn:Ed. cbn [fst] in Hr. subst r'.
    destruct (reply_id _ _ _ _ _ Ed) as [cmd Hid].
    assert (Hb : drive_err_bit v'' = true).
    { unfold drive_err_bit. replace v'' with (snd (deliver_frame f motion v')) by by rewrite Ed.
      by rewrite deliver_frame_error. }
    rewrite Hb in Hid. pose proof (unpack_node_range (fr_id f)) as Hn.
    set (node := fst (fst (unpack_can_id (fr_id f)))) in *. clearbody node.
    unfold decode_frame. rewrite Hid, unpack_pack_can_id, from_raw_raw by done.
    destruct (fr_rtr r); [done|]. destruct (decode_payload _ _ _ _ _) as [p|e] eqn:Ep; [done|]. cbn [rbind].
    by apply decode_payload_err in Ep.
Qed.

(** ** The watchdog *)

(** Command traffic: a well-formed motion frame, or a poll the drive answers. *)
Definition feeds (e : DriveEvent) : bool :=
  match e with
  | Ev_Frame f _ =>
      let '(_, raw_cmd, _) := unpack_can_id (fr_id f) in
      match from_raw raw_cmd with
      | None => false
      | Some cmd =>
          if fr_rtr f then
            bool_decide (config_kind cmd = None) && bool_decide (rtr_poll_kind cmd <> None)
          else fed cmd (length (frame_payload f))
      end
  | _ => false
  end.

(** A silent stretch: no command traffic, no new watchdog setting, no clear. *)
Definition quiet (e : DriveEvent) : bool :=
  negb (feeds e) && negb (clears e)
  && match e with Ev_Frame f _ => negb (is_data Cmd_Watchdog 5 f) | _ => true end.

Definition ticks_of (evs : list DriveEvent) : Z :=
  Z.of_nat (length (List.filter (fun e => match e with Ev_Tick => true | _ => false end) evs)).

(** What a silent stretch leaves alone but for its ticks. *)
Definition same_watch (v v' : VirtualDriver) : Prop :=
  v_armed v' = true /\ v_ticks_since_data v' = v_ticks_since_data v /\ v_watchdog_ticks v' = v_watchdog_ticks v /\
  ef_watchdog (v_flags v') = ef_watchdog (v_flags v).

Lemma on_data_frame_watch cmd d v :
  v_armed v = true -> fed cmd (length d) = false ->
  (cmd = Cmd_Watchdog /\ length d = 5%nat) \/ (cmd = Cmd_ClearError /\ length d = 0%nat) \/
  same_watch v (snd (on_data_frame cmd d v)).
Proof.
  intros Ha Hf. unfold on_data_frame. set (v0 := note_written cmd d v).
  assert (H0 : v_armed v0 = true /\ v_ticks_since_data v0 = v_ticks_since_data v /\
               v_watchdog_ticks v0 = v_watchdog_ticks v /\ v_flags v0 = v_flags v)
    by (unfold v0, note_written; by repeat case_match).
  destruct H0 as (A0 & T0 & W0 & F0). rewrite Hf. destruct (drive_arm cmd d v0) as [[r v1]|] eqn:E.
  - apply drive_arm_frame in E as (A1 & T1 & [?|W1] & [?|[_ F1]]); [by left|by left|by right; left|].
    rewrite A0, F0 in *. right. right. cbn [snd]. destruct (_ && _); split_and!; try (by apply A1);
      [transitivity (v_ticks_since_data v1)|transitivity (v_watchdog_ticks v1)|transitivity (ef_watchdog (v_flags v1))
      |transitivity (v_ticks_since_data v1)|transitivity (v_watchdog_ticks v1)|transitivity (ef_watchdog (v_flags v1))];
      congruence || done.
  - right. right. cbn [snd]. split_and!; congruence.
Qed.

Lemma quiet_frame f motion v :
  v_armed v = true -> quiet (Ev_Frame f motion) = true -> same_watch v (snd (deliver_frame f motion v)).
Proof.
  intros Ha. unfold quiet, feeds, clears, is_data, deliver_frame.
  destruct (unpack_can_id _) as [[node r] e]. destruct (from_raw r) as [cmd|]; [|by intros _].
  destruct (fr_rtr f); cbn [negb andb].
  - intros Hq. unfold deliver_rtr. destruct (config_kind cmd); [done|].
    destruct (rtr_poll_kind cmd); [done|by split_and!].
  - intros Hq. bsplit. rewrite negb_true_iff in *.
    destruct (deliver_data_state node cmd f motion v) as [(? & ? & ->) | [-> | ->]]; [by split_and!..|].
    destruct (on_data_frame_watch cmd (frame_payload f) v) as [[-> Hl] | [[-> Hl] | ?]]; try done;
      rewrite Hl, bool_decide_true in * by done; done.
Qed.

(** A tick or a quiet event that is none. *)
Lemma quiet_event e v :
  v_armed v = true -> quiet e = true ->
  (e = Ev_Tick /\ drive_event v e = age_watchdog v) \/ (ticks_of [e] = 0 /\ same_watch v (drive_event v e)).
Proof.
  destruct e as [f motion| |b p|p q]; intros Ha Hq; [right|by left|right|right]; split; try done; cbn [drive_event].
  - by apply quiet_frame.
  - destruct (sample_hall_guard b p v) as (E1 & E2 & E3 & E4). split_and!; congruence.
  - destruct (control_iteration_guard p q v) as (E1 & E2 & E3 & E4). split_and!; congruence.
Qed.

Lemma quiet_run evs v :
  v_armed v = true -> 0 <= v_ticks_since_data v < v_watchdog_ticks v ->
  v_ticks_since_data v + ticks_of evs < 2 ^ 64 -> Forall (fun e => quiet e = true) evs ->
  let v' := drive_run evs v in
  let tripped := v_watchdog_ticks v <=? v_ticks_since_data v + ticks_of evs in
  v_armed v' = true /\ v_ticks_since_data v' = v_ticks_since_data v + ticks_of evs /\
  v_watchdog_ticks v' = v_watchdog_ticks v /\
  ef_watchdog (v_flags v') = tripped || ef_watchdog (v_flags v) /\
  (tripped = true -> ef_error (v_flags v') = true).
Proof.
  intros Ha Ht. induction evs as [|e evs IH] using rev_ind; intros Hb Hq.
  - cbv zeta. unfold ticks_of. cbn [List.filter length drive_run fold_left].
    destruct (Z.leb_spec (v_watchdog_ticks v) (v_ticks_since_data v + Z.of_nat 0)); [lia|]. split_and!; try done; lia.
  - assert (Etick : ticks_of (evs ++ [e]) = ticks_of evs + ticks_of [e]).
    { unfold ticks_of. rewrite List.filter_app, length_app. lia. }
    assert (0 <= ticks_of [e]) by (unfold ticks_of; lia).
    apply Forall_app in Hq as [Hq He]. inversion_clear He as [|? ? Hqe _].
    destruct (IH ltac:(lia) Hq) as (A & T & W & F & X). clear IH. cbv zeta.
    unfold drive_run. rewrite fold_left_app. cbn [fold_left]. fold (drive_run evs v). rewrite Etick in *.
    set (v1 := drive_run evs v) in *. clearbody v1.
    assert (Hce : clears e = false) by (unfold quiet in Hqe; bsplit; by rewrite negb_true_iff in *).
    destruct (quiet_event e v1 A Hqe) as [[-> E] | [E0 (A1 & T1 & W1 & F1)]].
    + pose proof (fun H => drive_event_error Ev_Tick v1 eq_refl H) as Xe. rewrite E in *. clear E.
      change (ticks_of [Ev_Tick]) with 1 in *.
      unfold age_watchdog in *. rewrite A in *. cbn [negb] in *.
      assert (Es : saturating_add 64 (v_ticks_since_data v1) 1 = v_ticks_since_data v + (ticks_of evs + 1)).
      { unfold saturating_add. rewrite T. lia. }
      rewrite Es in *. set (t := v_ticks_since_data v + (ticks_of evs + 1)) in *.
      cbn [v_ticks_since_data v_watchdog_ticks w_ticks_since_data] in *. rewrite W in *.
      destruct (Z.eqb_spec t (v_watchdog_ticks v)) as [Et|Et].
      * cbn. destruct (Z.leb_spec (v_watchdog_ticks v) t); [|lia]. split_and!; done.
      * cbn in *. rewrite F.
        destruct (Z.leb_spec (v_watchdog_ticks v) t), (Z.leb_spec (v_watchdog_ticks v) (v_ticks_since_data v + ticks_of evs));
          try lia; split_and!; try done; auto.
    + rewrite E0, Z.add_0_r in *. rewrite A1, T1, W1, F1. split_and!; try done.
      intros Hx. apply drive_event_error; [done|]. by apply X.
Qed.

(** A drive that hears nothing trips its watchdog on time.  From a commanded
    drive with [t0] ticks of silence behind it, whatever else happens short of
    command traffic, a clear or a new watchdog setting - idle frames and
    configuration among it -, the watchdog is tripped exactly from the configured
    tick of silence on: then the watchdog flag and the aggregate error flag are up
    (and stay up), before it the watchdog flag is what it was. *)
Lemma watchdog_trips_on_time evs v :
  v_armed v = true -> 0 <= v_ticks_since_data v < v_watchdog_ticks v ->
  v_ticks_since_data v + ticks_of evs < 2 ^ 64 -> Forall (fun e => quiet e = true) evs ->
  let v' := drive_run evs v in
  let silence := v_ticks_since_data v + ticks_of evs in
  (watchdog_fired v' = true <-> v_watchdog_ticks v <= silence) /\
  (v_watchdog_ticks v <= silence -> ef_watchdog (v_flags v') = true /\ ef_error (v_flags v') = true) /\
  (silence < v_watchdog_ticks v -> ef_watchdog (v_flags v') = ef_watchdog (v_flags v)).
Proof.
  intros Ha Ht Hb Hq. destruct (quiet_run evs v Ha Ht Hb Hq) as (A & T & W & F & X). cbv zeta.
  unfold watchdog_fired. rewrite A, T, W, F. cbn [andb]. rewrite Z.leb_le.
  destruct (Z.leb_spec (v_watchdog_ticks v) (v_ticks_since_data v + ticks_of evs)) as [H|H]; cbn [orb];
    split_and!; try done; try lia; auto.
Qed.
End events.

Lemma faulted_drive_is_limp_witness :
  let evs := [Ev_Frame (data_cmd 3 Cmd_DataPack1 [0; 0; 10; 0; 0]) (0, 0, 0); Ev_Tick; Ev_Loop zero zero;
              Ev_Frame (encode_estop 3) (0, 0, 0)] in
  ef_error (v_flags faulted_drive) = true /\ Forall (fun e => clears e = false) evs /\
  let v' := drive_run evs faulted_drive in
  (forall pos vel, fst (control_iteration pos vel v') = mkPlantCmd zero zero (v_vel_limit v') true /\
     v_cur_out_ma (snd (control_iteration pos vel v')) = zero /\
     v_mode (snd (control_iteration pos vel v')) = DM_Idle) /\
  (forall f motion r, is_data Cmd_ClearError 0 f = false -> fst (deliver_frame f motion v') = Some r ->
     match decode_frame r with
     | Ok d => df_node d = fst (fst (unpack_can_id (fr_id f))) /\ df_err_bit d = true
     | Err e => de_node e = fst (fst (unpack_can_id (fr_id f))) /\ de_err_bit e = true
     end).
Proof.
  cbv zeta.
  assert (H : Forall (fun e => clears e = false)
    [Ev_Frame (data_cmd 3 Cmd_DataPack1 [0; 0; 10; 0; 0]) (0, 0, 0); Ev_Tick; Ev_Loop zero zero;
     Ev_Frame (encode_estop 3) (0, 0, 0)]) by (repeat constructor; vm_compute; reflexivity).
  split; [reflexivity|]. split; [exact H|].
  by apply (faulted_drive_is_limp _ faulted_drive).
Defined.

Lemma watchdog_trips_on_time_witness :
  let evs := [Ev_Tick; Ev_Frame (encode_idle 3) (0, 0, 0); Ev_Tick; Ev_Tick; Ev_Tick; Ev_Tick] in
  Forall (fun e => quiet e = true) evs /\
  let v' := drive_run evs live_drive in
  (watchdog_fired v' = true <-> 5 <= 0 + ticks_of evs) /\
  (5 <= 0 + ticks_of evs -> ef_watchdog (v_flags v') = true /\ ef_error (v_flags v') = true) /\
  (0 + ticks_of evs < 5 -> ef_watchdog (v_flags v') = ef_watchdog (v_flags live_drive)).
Proof.
  cbv zeta.
  assert (H : Forall (fun e => quiet e = true)
    [Ev_Tick; Ev_Frame (encode_idle 3) (0, 0, 0); Ev_Tick; Ev_Tick; Ev_Tick; Ev_Tick])
    by (repeat constructor; vm_compute; reflexivity).
  split; [exact H|].
  apply (watchdog_trips_on_time _ live_drive); [reflexivity|vm_compute; split; congruence|reflexivity|exact H].
Defined.
