(* ===== verification/CanBusLemmas.v ===== *)
(** * CanBusLemmas: what each operation of the CAN bus touches

    The operations of [DriverBus] as one alphabet, and the frames around them:
    transmitting leaves the receive side, the clock and the modes alone; a silent
    bus transmits nothing. *)
From Stdlib Require Import SpecFloat.
From stdpp Require Import list.
From S2P Require Import Prelude F64 BusTypes CanCodec CanLemmas CanSched CanBus.

Section socket.
Context {socket : CanSocket}.

(** ** The alphabet *)

Inductive BusOp :=
| Op_Tick (tick now : Z)
| Op_Arrive (items : list RxItem)
| Op_Drain
| Op_Joints (commands : list JointCommand)
| Op_Gripper (command : GripperCommand)
| Op_Poll
| Op_Override (action : PollAction) (repeats : Z)
| Op_Resend (node repeats : Z)
| Op_Retune (node : Z) (tune : DriveTune) (repeats : Z)
| Op_SetCanId (node new_id : Z)
| Op_SaveConfig (node : Z)
| Op_SetToolId (node tool_id : Z)
| Op_SetRipple (node : Z) (ripple : list (Z * Z * Z))
| Op_SetWindow (node window : Z)
| Op_CaptureStream (node : Z)
| Op_CaptureStart (node divisor wanted : Z)
| Op_Limits (node : Z) (velocity current : f32) (repeats : Z)
| Op_ClearError (node repeats : Z)
| Op_Silent (silent : bool)
| Op_ClearLatch (node : Z)
| Op_Rebase
| Op_FitTool (robot : BusRobot) (tool : option GripperDriver).

(** An operation that only transmits: its bus. *)
Definition tx_op (o : BusOp) : option (BusM unit) :=
  match o with
  | Op_Joints cs => Some (send_joint_commands cs)
  | Op_Gripper c => Some (send_gripper c)
  | Op_Poll => Some poll_step
  | Op_Resend n k => Some (resend_node_config n k)
  | Op_Retune n t k => Some (retune_node n t k)
  | Op_SetCanId n k => Some (set_can_id n k)
  | Op_SaveConfig n => Some (save_config n)
  | Op_SetToolId n k => Some (set_tool_id n k)
  | Op_SetRipple n r => Some (set_node_ripple n r)
  | Op_SetWindow n w => Some (set_velocity_window n w)
  | Op_CaptureStream n => Some (capture_stream n)
  | Op_CaptureStart n d w => Some (capture_start n d w)
  | Op_Limits n v c k => Some (send_limits n v c k)
  | Op_ClearError n k => Some (send_clear_error n k)
  | _ => None
  end.

Definition apply_op (o : BusOp) (bs : Bus * BusState) : Bus * BusState :=
  let '(b, st) := bs in
  match o with
  | Op_Tick tick now => (begin_tick tick now b, st)
  | Op_Arrive items => (put_rx (b_rx b ++ items) b, st)
  | Op_Drain => snd (drain_rx b st)
  | Op_Override a k => (queue_poll_override a k b, st)
  | Op_Silent s => (put_silent s b, st)
  | Op_ClearLatch n => (clear_lost_latch n b, st)
  | Op_Rebase => (rebase_freshness b, st)
  | Op_FitTool r t => (fit_tool r t b, st)
  | _ => match tx_op o with Some m => (snd (m b), st) | None => (b, st) end
  end.

Definition run_ops (ops : list BusOp) (bs : Bus * BusState) : Bus * BusState :=
  fold_left (fun bs o => apply_op o bs) ops bs.

(** ** Transmitting *)

(** What transmitting leaves alone. *)
Definition tx_frame (b b' : Bus) : Prop :=
  b_rx b' = b_rx b /\ b_fresh b' = b_fresh b /\ b_silent b' = b_silent b /\ b_configured b' = b_configured b /\
  b_tick b' = b_tick b /\ b_connected b' = b_connected b /\ b_boot_state b' = b_boot_state b /\
  b_boot_state_pending b' = b_boot_state_pending b /\ b_poll_nodes b' = b_poll_nodes b /\
  b_joint_nodes b' = b_joint_nodes b /\ b_gripper_node b' = b_gripper_node b /\ b_rx_cap b' = b_rx_cap b.

#[export] Instance tx_frame_preorder : PreOrder tx_frame.
Proof.
  split; [by intros b|]. unfold tx_frame. intros a b c Hab Hbc. destruct_and?. split_and!; congruence.
Qed.

Definition keeps (m : BusM unit) : Prop := forall b, tx_frame b (snd (m b)).

Lemma keeps_ret : keeps (bus_ret tt).
Proof. by intros b. Qed.
Lemma keeps_err e : keeps (bus_err e).
Proof. by intros b. Qed.

Lemma keeps_send f : keeps (send f).
Proof. intros b. unfold send. destruct (unpack_can_id _) as [[node c] e]. by destruct (write_outcome _ _). Qed.

Lemma keeps_bind m k : keeps m -> keeps k -> keeps (m ;;! k).
Proof.
  intros Hm Hk b. unfold bus_bind. specialize (Hm b). destruct (m b) as [[[]|e] b1]; [|done].
  cbn [snd] in Hm. etrans; [exact Hm|apply Hk].
Qed.

Lemma keeps_each {A} (f : A -> BusM unit) l : (forall x, keeps (f x)) -> keeps (bus_each f l).
Proof. intros Hf. induction l as [|x l IH]; [apply keeps_ret|]. cbn. by apply keeps_bind. Qed.

Lemma keeps_mod f : (forall b, tx_frame b (f b)) -> keeps (bus_mod f).
Proof. intros H b. apply H. Qed.

Lemma keeps_ready : keeps ensure_ready.
Proof. intros b. unfold ensure_ready. by repeat case_match. Qed.

Lemma keeps_encoded r : keeps (send_encoded r).
Proof. unfold send_encoded. repeat case_match; auto using keeps_send, keeps_err, keeps_ret. Qed.

Lemma keeps_resend n k : keeps (resend_node_config n k).
Proof.
  unfold resend_node_config, send_all. apply keeps_bind; [apply keeps_ready|]. intros b.
  destruct (node_config n b) as [c|]; [|done].
  apply (keeps_each (fun _ => _)). intros _. apply keeps_bind; apply keeps_each; intros x; apply keeps_send.
Qed.

Lemma edit_config_frame n f b : tx_frame b (edit_config n f b).
Proof. unfold edit_config. by repeat case_match. Qed.

Lemma count_unanswered_frame t b : tx_frame b (count_unanswered t b).
Proof. unfold count_unanswered. by repeat case_match. Qed.

Create HintDb bus_keeps discriminated.
#[local] Hint Resolve keeps_ret keeps_err keeps_send keeps_ready keeps_encoded keeps_resend : bus_keeps.

Lemma keeps_tx o m : tx_op o = Some m -> keeps m.
Proof.
  destruct o; intros [= <-]; try apply keeps_resend; try (apply keeps_bind; [apply keeps_ready|]); auto with bus_keeps.
  - intros b. repeat case_match; try done.
    etrans; [|apply keeps_each; intros x; apply keeps_encoded]. done.
  - intros b. apply keeps_encoded.
  - intros b. unfold poll_step. destruct (negb _); [done|]. destruct (b_silent b); [done|].
    destruct (sched_step (b_poll b)) as [step sched]. destruct step as [[a|t k]|]; [destruct a| |done].
    all: try (etrans; [|apply keeps_send]; done). all: try (etrans; [|apply keeps_resend]; done).
    + destruct (node_config _ _); [|done]. etrans; [|apply keeps_send]. done.
    + etrans; [|apply keeps_send]. destruct k; try done. etrans; [|apply count_unanswered_frame]. done.
  - intros b. destruct (node_config _ _); [|done]. etrans; [apply edit_config_frame|apply keeps_resend].
  - case_match; [apply keeps_err|]. apply keeps_bind; [apply keeps_mod; intros b; apply edit_config_frame|].
    apply keeps_each. intros x. apply keeps_send.
  - apply keeps_bind; [apply keeps_mod; intros b; apply edit_config_frame|apply keeps_send].
  - apply keeps_bind; [by apply keeps_mod; intros b|apply keeps_send].
  - apply (keeps_each (fun _ => _)). intros _. apply keeps_send.
  - apply (keeps_each (fun _ => _)). intros _. apply keeps_send.
Qed.

(** ** Silence *)

(** Not ready: the operation returns at once. *)
Definition guarded (m : BusM unit) : Prop := forall b, b_silent b = true -> snd (m b) = b.

Lemma guarded_ready k : guarded (ensure_ready ;;! k).
Proof. intros b Hs. unfold bus_bind, ensure_ready. rewrite Hs. by destruct (negb _). Qed.

Lemma guarded_tx o m : tx_op o = Some m -> guarded m.
Proof.
  destruct o; intros [= <-]; try apply guarded_ready.
  intros b Hs. unfold poll_step. rewrite Hs. by destruct (negb _).
Qed.
End socket.
