(* ===== verification/CanBusProps.v ===== *)
(** * CanBusProps: theorems about the CAN bus

    The silent window, the freshness of a node across any operations, what a tick's
    commands put on the wire, the boot load. *)
From Stdlib Require Import SpecFloat.
From stdpp Require Import list.
From S2P Require Import Prelude F64 BusTypes CanCodec CanLemmas CanSched Convert Drive CanBus CanExample CanProps CanBusLemmas.

Section socket.
Context {socket : CanSocket}.

(** ** Receiving *)

(** What reading the queue leaves alone. *)
Definition rx_frame (b b' : Bus) : Prop :=
  b_wire b' = b_wire b /\ b_writes b' = b_writes b /\ b_fresh b' = b_fresh b /\ b_silent b' = b_silent b /\
  b_connected b' = b_connected b /\ b_boot_state_pending b' = b_boot_state_pending b /\ b_tick b' = b_tick b /\
  b_configured b' = b_configured b.

#[local] Instance rx_frame_preorder : PreOrder rx_frame.
Proof.
  split; [by intros b|]. unfold rx_frame. intros a b c Hab Hbc. destruct_and?. split_and!; congruence.
Qed.

Lemma recv_frame b : rx_frame b (snd (recv b)).
Proof.
  unfold recv. generalize (b_rx b) as q. intros q. revert b.
  induction q as [|i q IH]; intros b; [done|]. destruct i as [raw ts| |]; cbn [recv_from]; [|apply IH|done].
  destruct (_ || _); [|done]. etrans; [|apply IH]. done.
Qed.

(** A silent drain reads and discards. *)
Lemma drain_silent room count age_min age_max b st :
  b_silent b = true ->
  rx_frame b (fst (snd (drain room count age_min age_max b st))) /\ snd (snd (drain room count age_min age_max b st)) = st.
Proof.
  revert count age_min age_max b. induction room as [|room IH]; intros count age_min age_max b Hs; [done|].
  cbn [drain]. pose proof (recv_frame b) as Hr. destruct (recv b) as [[[[f ts]|]|e] b1]; cbn [snd] in Hr; [|done|done].
  assert (b_silent b1 = true) as Hs1 by (destruct Hr as (_ & _ & _ & -> & _); done). rewrite Hs1.
  destruct (IH (S count) age_min age_max b1 Hs1) as [H1 H2]. split; [by etrans|done].
Qed.

(** ** The silent window *)

(** A node's state but for the age of its data. *)
Definition contents (st : BusState) : list NodeState * option GripperReply :=
  (map (ns_age 0) (bs_nodes st), gs_reply (bs_gripper st)).

Definition muted (bs bs' : Bus * BusState) : Prop :=
  b_wire (fst bs') = b_wire (fst bs) /\ b_writes (fst bs') = b_writes (fst bs) /\
  b_silent (fst bs') = true /\ b_boot_state_pending (fst bs') = false /\
  b_connected (fst bs') = b_connected (fst bs) /\
  (forall n, latched (b_fresh (fst bs')) n = true -> latched (b_fresh (fst bs)) n = true) /\
  contents (snd bs') = contents (snd bs).

Lemma publish_ages_contents b st : contents (publish_ages b st) = contents st.
Proof.
  unfold contents, publish_ages. cbn [bs_nodes bs_gripper gs_reply]. f_equal.
  apply list_eq. intros i. rewrite !list_lookup_fmap, list_lookup_imap.
  by destruct (bs_nodes st !! i).
Qed.

Lemma latched_insert l i n : nth n (<[i := false]> l) false = true -> nth n l false = true.
Proof.
  rewrite !nth_lookup. destruct (decide (i = n)) as [->|Hne].
  - destruct (decide (n < length l)%nat); [by rewrite list_lookup_insert_eq|].
    rewrite list_insert_ge by lia. done.
  - by rewrite list_lookup_insert_ne.
Qed.

Lemma op_muted o b st :
  b_silent b = true -> b_boot_state_pending b = false -> o <> Op_Silent false ->
  muted (b, st) (apply_op o (b, st)).
Proof.
  intros Hs Hp Ho. assert (Hsame : muted (b, st) (b, st)) by done.
  assert (Htx : forall m, tx_op o = Some m -> muted (b, st) (snd (m b), st)).
  { intros m Hm. by rewrite (guarded_tx o m Hm b Hs). }
  destruct o; cbn [apply_op]; try (by apply Htx); clear Htx; try done.
  - unfold begin_tick. cbn [b_silent put_joints_sent put_tx_frames put_tick put_tick_start]. rewrite Hs. done.
  - unfold drain_rx. destruct (negb (b_configured b)); [done|]. rewrite Hp. cbv zeta. rewrite Hs.
    set (st0 := mkBusState _ _ 0 0 0 0).
    destruct (drain_silent SILENT_RX_CAP 0 U64_MAX 0 b st0 Hs) as [Hr Hst].
    destruct (drain SILENT_RX_CAP 0 U64_MAX 0 b st0) as [[[[count amin] amax]|e] [b1 st1]]; cbn [fst snd] in *; subst st1;
      destruct Hr as (R1 & R2 & R3 & R4 & R5 & R6 & R7 & R8).
    + rewrite R4, Hs, andb_false_r. cbn [snd fst]. split_and!; cbn [fst snd]; rewrite ?R1, ?R2, ?R3, ?R4, ?R5, ?R6; try done.
      rewrite publish_ages_contents. done.
    + split_and!; cbn [fst snd]; rewrite ?R1, ?R2, ?R3, ?R4, ?R5, ?R6; done.
  - destruct silent; done.
  - split_and!; try done. cbn. intros n. apply latched_insert.
  - split_and!; try done. intros n Hn. exfalso. revert Hn. unfold latched.
    change (nth (Z.to_nat n) (replicate MAX_NODES false) false = true -> False). rewrite nth_lookup.
    destruct (replicate MAX_NODES false !! Z.to_nat n) eqn:E; [|done]. by apply lookup_replicate in E as [-> _].
  - destruct tool; (split_and!; try done; cbn; intros n; apply latched_insert).
Qed.

(** A silent bus is mute and deaf.  While the bus is silent (FLASHING),
    whatever the core asks of it - commands, polls, configuration, captures,
    clears, a tool change, ticks - no frame is even offered to the socket, no
    received frame changes what is known of a node or of who is connected, and no
    node is latched as lost; only ending the silence ends this. *)
Lemma silent_bus_is_mute ops b st :
  b_silent b = true -> b_boot_state_pending b = false -> Forall (fun o => o <> Op_Silent false) ops ->
  let '(b', st') := run_ops ops (b, st) in
  b_wire b' = b_wire b /\ b_writes b' = b_writes b /\ b_silent b' = true /\
  b_connected b' = b_connected b /\
  (forall n, latched (b_fresh b') n = true -> latched (b_fresh b) n = true) /\
  contents st' = contents st.
Proof.
  intros Hs Hp Ho. assert (H : muted (b, st) (run_ops ops (b, st))).
  { revert b st Hs Hp. induction ops as [|o ops IH]; intros b st Hs Hp; [done|]. inversion_clear Ho.
    destruct (op_muted o b st Hs Hp) as (M1 & M2 & M3 & M4 & M5 & M6 & M7); [done|].
    unfold run_ops. cbn [fold_left]. fold (run_ops ops (apply_op o (b, st))).
    destruct (apply_op o (b, st)) as [b1 st1] eqn:E. cbn [fst snd] in *.
    destruct (IH ltac:(done) b1 st1 M3 M4) as (N1 & N2 & N3 & N4 & N5 & N6 & N7). cbn [fst snd] in *.
    split_and!; cbn [fst snd]; try congruence. intros n Hn. by apply M6, N6. }
  destruct (run_ops ops (b, st)) as [b' st']. destruct H as (H1 & H2 & H3 & _ & H5 & H6 & H7). by split_and!.
Qed.

(** ** Freshness *)

(** The node a frame claims. *)
Definition frame_node (f : CanFrame) : Z := fst (fst (unpack_can_id (fr_id f))).

(** An entry of the receive queue that is no frame of [n]. *)
Definition item_quiet (n : Z) (i : RxItem) : bool :=
  match i with
  | Rx_Frame raw _ => rf_extended raw || rf_error raw || negb (frame_node (frame_of_raw raw) =? n)
  | _ => true
  end.

(** Operations that forget the fault of [n]: clearing it, rebasing every node,
    fitting a tool on it. *)
Definition forgets (n gripper : Z) (o : BusOp) : bool :=
  match o with
  | Op_ClearLatch m => (Z.to_nat m =? Z.to_nat n)%nat
  | Op_Rebase => true
  | Op_FitTool _ _ => (Z.to_nat gripper =? Z.to_nat n)%nat
  | _ => false
  end.

(** Nothing of [n] arrives, and nothing forgets it; no change of silence. *)
Definition op_quiet (n gripper : Z) (o : BusOp) : bool :=
  negb (forgets n gripper o)
  && match o with
     | Op_Arrive items => forallb (item_quiet n) items
     | Op_Silent _ => false
     | _ => true
     end.

(** The clock of one node: when it was last seen, whether it is latched, and the
    thresholds. *)
Definition watch (n : Z) (f : FreshnessClock) : option Z * bool * (Z * Z) :=
  (last_rx f n, latched f n, (fc_stale_warn_ticks f, fc_lost_ticks f)).

Definition clock_ok (f : FreshnessClock) : Prop :=
  length (fc_last_rx_tick f) = MAX_NODES /\ length (fc_lost_latched f) = MAX_NODES.

Lemma mark_ok m t b f : clock_ok f -> clock_ok (snd (mark m t b f)).
Proof. intros [H1 H2]. split; cbn; [by rewrite length_insert|done]. Qed.

Lemma nth_insert_ne {A} (l : list A) i j x d : i <> j -> nth j (<[i := x]> l) d = nth j l d.
Proof. intros. by rewrite !nth_lookup, list_lookup_insert_ne. Qed.

Lemma mark_watch n m t b f : 0 <= n -> 0 <= m -> m <> n -> watch n (snd (mark m t b f)) = watch n f.
Proof. intros. unfold watch, last_rx, latched. cbn. by rewrite nth_insert_ne by lia. Qed.

Lemma apply_decoded_node f b st :
  fst (apply_decoded f b st) = frame_node f /\
  tx_frame b (fst (snd (apply_decoded f b st))) /\ b_poll (fst (snd (apply_decoded f b st))) = b_poll b.
Proof.
  pose proof (decode_names_id f) as H. unfold apply_decoded, frame_node.
  destruct (unpack_can_id (fr_id f)) as [[node r] e]. cbn [fst].
  destruct (decode_frame f) as [d|er]; [|by destruct H as [-> _]].
  destruct H as [-> _]. cbn [fst snd]. by destruct (df_payload d).
Qed.

Lemma apply_rx_watch n f b st :
  0 <= n -> clock_ok (b_fresh b) -> frame_node f <> n ->
  let b' := fst (apply_rx f b st) in
  watch n (b_fresh b') = watch n (b_fresh b) /\ clock_ok (b_fresh b') /\
  b_rx b' = b_rx b /\ b_silent b' = b_silent b /\ b_tick b' = b_tick b /\ b_gripper_node b' = b_gripper_node b.
Proof.
  intros Hn Hok Hf. unfold apply_rx. pose proof (apply_decoded_node f b st) as (E1 & E2 & _).
  destruct (apply_decoded f b st) as [node [b1 st1]]. cbn [fst snd] in *. subst node.
  destruct E2 as (F1 & F2 & F3 & F4 & F5 & F6 & F7 & F8 & F9 & F10 & F11 & F12).
  pose proof (unpack_can_id_value (fr_id f)) as Ev.
  assert (0 <= frame_node f) by (unfold frame_node; rewrite Ev; cbn; apply Z.mod_pos_bound; lia).
  cbn [b_connected put_connected b_tick b_fresh]. rewrite F2, F5.
  pose proof (mark_watch n (frame_node f) (b_tick b) (Z.testbit (b_connected b1) (frame_node f)) (b_fresh b)
                ltac:(done) ltac:(done) Hf) as Hw.
  pose proof (mark_ok (frame_node f) (b_tick b) (Z.testbit (b_connected b1) (frame_node f)) (b_fresh b) Hok) as Hk.
  destruct (mark _ _ _ _) as [re fresh]. cbn [snd] in *.
  destruct (unpack_can_id (fr_id f)) as [[node r] e].
  destruct re; [destruct (target_of _ _)|]; destruct (r =? _); cbn; split_and!; try done; try (by destruct Hk); congruence.
Qed.

Lemma recv_quiet n b :
  Forall (fun i => item_quiet n i = true) (b_rx b) ->
  Forall (fun i => item_quiet n i = true) (b_rx (snd (recv b))) /\
  (forall f ts, fst (recv b) = Ok (Some (f, ts)) -> frame_node f <> n).
Proof.
  unfold recv. generalize (b_rx b) as q. intros q. revert b. induction q as [|i q IH]; intros b Hq; [done|].
  inversion_clear Hq as [|? ? Hi Hq']. destruct i as [raw ts| |]; cbn [recv_from].
  - cbn [item_quiet] in Hi. destruct (rf_extended raw || rf_error raw) eqn:Eb; [by apply IH|]. cbn [fst snd].
    split; [done|]. intros f ts' [= <- <-]. cbn [orb] in Hi. apply negb_true_iff, Z.eqb_neq in Hi. done.
  - by apply IH.
  - done.
Qed.

(** The part of the bus a quiet node's freshness depends on. *)
Definition undisturbed (n : Z) (b b' : Bus) : Prop :=
  watch n (b_fresh b') = watch n (b_fresh b) /\ clock_ok (b_fresh b') /\
  Forall (fun i => item_quiet n i = true) (b_rx b') /\ b_silent b' = b_silent b /\ b_tick b' = b_tick b /\
  b_gripper_node b' = b_gripper_node b.

Lemma drain_quiet n room count amin amax b st :
  0 <= n -> clock_ok (b_fresh b) -> Forall (fun i => item_quiet n i = true) (b_rx b) ->
  undisturbed n b (fst (snd (drain room count amin amax b st))).
Proof.
  intros Hn. revert count amin amax b st. induction room as [|room IH]; intros count amin amax b st Hok Hq.
  { cbn. by split_and!; try apply Hok. }
  cbn [drain]. destruct (recv_quiet n b Hq) as [Q1 Q2]. pose proof (recv_frame b) as Hr.
  assert (Hg : b_gripper_node (snd (recv b)) = b_gripper_node b).
  { unfold recv. generalize (b_rx b) as q. intros q. clear. revert b. induction q as [|i q IH]; intros b; [done|].
    destruct i as [raw ts| |]; cbn [recv_from]; [|apply IH|done]. destruct (_ || _); [|done]. by rewrite IH. }
  destruct (recv b) as [[[[f ts]|]|e] b1]; cbn [fst snd] in *; destruct Hr as (_ & _ & R3 & R4 & _ & _ & R7 & _).
  - destruct (b_silent b1) eqn:Es.
    + destruct (IH (S count) amin amax b1 st) as (I1 & I2 & I3 & I4 & I5 & I6); [by rewrite R3|done|].
      split_and!; try done; congruence.
    + specialize (Q2 f ts eq_refl). destruct (apply_rx_watch n f b1 st) as (A1 & A2 & A3 & A4 & A5 & A6); [done|by rewrite R3|done|].
      destruct (apply_rx f b1 st) as [b2 st2]. cbn [fst] in *.
      destruct (IH (S count) (Z.min amin (age_ticks b1 ts)) (Z.max amax (age_ticks b1 ts)) b2 st2)
        as (I1 & I2 & I3 & I4 & I5 & I6); [done|by rewrite A3|].
      split_and!; try done; congruence.
  - split_and!; try done; try congruence; rewrite R3; apply Hok.
  - split_and!; try done; try congruence; rewrite R3; apply Hok.
Qed.

Lemma tx_undisturbed n b b' :
  clock_ok (b_fresh b) -> Forall (fun i => item_quiet n i = true) (b_rx b) -> tx_frame b b' -> undisturbed n b b'.
Proof.
  intros Hok Hq (T1 & T2 & T3 & T4 & T5 & T6 & T7 & T8 & T9 & T10 & T11 & T12).
  split_and!; rewrite ?T1, ?T2; try done; apply Hok.
Qed.

Lemma boot_published b st :
  exists b0 st0, (if b_boot_state_pending b then publish_boot_state b st else (b, st)) = (b0, st0) /\
    b_fresh b0 = b_fresh b /\ b_rx b0 = b_rx b /\ b_silent b0 = b_silent b /\ b_tick b0 = b_tick b /\
    b_gripper_node b0 = b_gripper_node b.
Proof. destruct (b_boot_state_pending b); eexists _, _; (split; [reflexivity|]); done. Qed.

Lemma drain_rx_undisturbed n b st :
  0 <= n -> clock_ok (b_fresh b) -> Forall (fun i => item_quiet n i = true) (b_rx b) ->
  undisturbed n b (fst (snd (drain_rx b st))).
Proof.
  intros Hn Hok Hq. unfold drain_rx. destruct (negb (b_configured b)); [by split_and!; try apply Hok|].
  destruct (boot_published b st) as (b0 & st0 & -> & B1 & B2 & B3 & B4 & B5). cbv zeta.
  match goal with |- context [drain ?r ?c ?mn ?mx ?bb ?ss] =>
    pose proof (drain_quiet n r c mn mx bb ss Hn) as Hd; destruct (drain r c mn mx bb ss) as [[[[count amin] amax]|e] [b1 st1]] end;
    cbn [fst snd] in *; rewrite B1, B2 in Hd; destruct (Hd Hok Hq) as (D1 & D2 & D3 & D4 & D5 & D6);
    rewrite B1 in D1; (split_and!; try done; try apply D2; congruence).
Qed.

Lemma clear_watch n m t f : Z.to_nat m <> Z.to_nat n -> watch n (clear_latch m t f) = watch n f.
Proof. intros. unfold watch, last_rx, latched. cbn. by rewrite !nth_insert_ne. Qed.

Lemma clear_ok m t f : clock_ok f -> clock_ok (clear_latch m t f).
Proof. intros [H1 H2]. split; cbn; by rewrite length_insert. Qed.

Lemma op_undisturbed n o b st :
  0 <= n -> clock_ok (b_fresh b) -> Forall (fun i => item_quiet n i = true) (b_rx b) ->
  op_quiet n (b_gripper_node b) o = true -> (forall t now, o <> Op_Tick t now) ->
  undisturbed n b (fst (apply_op o (b, st))).
Proof.
  intros Hn Hok Hq Ho Ht. unfold op_quiet in Ho. apply andb_prop in Ho as [Hf Ho]. apply negb_true_iff in Hf.
  destruct o; cbn [apply_op forgets] in *; try discriminate; try (by destruct (Ht tick now));
    try (match goal with |- context [tx_op ?o] =>
           destruct (tx_op o) as [m|] eqn:E; [|done]; cbn [fst]; apply tx_undisturbed; [done..|by eapply keeps_tx] end).
  - cbn. split_and!; try done; try apply Hok. apply Forall_app. split; [done|].
    apply Forall_forall. intros i Hi. rewrite forallb_forall in Ho. apply Ho. by apply list_elem_of_In.
  - by apply drain_rx_undisturbed.
  - cbn. by split_and!; try apply Hok.
  - apply Nat.eqb_neq in Hf. split_and!; try done; [by apply clear_watch|by apply clear_ok..].
  - apply Nat.eqb_neq in Hf. destruct tool; (split_and!; try done; [|by apply clear_ok..]); by apply clear_watch.
Qed.

Lemma zip_latch_nth n t f :
  clock_ok f -> 0 <= n < 16 ->
  latched (latch_lost t f) n =
    match last_rx f n with
    | Some last => if fc_lost_ticks f <=? saturating_sub t last then true else latched f n
    | None => latched f n
    end.
Proof.
  intros [H1 H2] Hn. unfold latched, last_rx, latch_lost. cbn. rewrite !nth_lookup, lookup_zip_with.
  destruct (lookup_lt_is_Some_2 (fc_last_rx_tick f) (Z.to_nat n)) as [x ->]; [rewrite H1; unfold MAX_NODES; lia|].
  destruct (lookup_lt_is_Some_2 (fc_lost_latched f) (Z.to_nat n)) as [y ->]; [rewrite H2; unfold MAX_NODES; lia|]. done.
Qed.

(** Ticks never go back. *)
Fixpoint ticks_from (t : Z) (ops : list BusOp) : Prop :=
  match ops with
  | [] => True
  | Op_Tick t' _ :: ops => t <= t' /\ ticks_from t' ops
  | _ :: ops => ticks_from t ops
  end.

(** Node [n], last seen at [t0], watched with the given thresholds: it is latched
    exactly when its age has reached the second. *)
Definition watched (n gripper t0 stale lost : Z) (b : Bus) : Prop :=
  watch n (b_fresh b) = (Some t0, lost <=? b_tick b - t0, (stale, lost)) /\ clock_ok (b_fresh b) /\
  Forall (fun i => item_quiet n i = true) (b_rx b) /\ b_silent b = false /\ t0 <= b_tick b /\ b_gripper_node b = gripper.

Lemma watched_op n gripper t0 stale lost o b st t :
  0 <= n < 16 -> watched n gripper t0 stale lost b -> op_quiet n gripper o = true -> t = b_tick b ->
  ticks_from t [o] ->
  watched n gripper t0 stale lost (fst (apply_op o (b, st))) /\
  b_tick (fst (apply_op o (b, st))) = match o with Op_Tick t' _ => t' | _ => t end.
Proof.
  intros Hn (W & Hok & Hq & Hs & H0 & Hg) Ho -> Ht.
  assert (Hcase : (exists t' now, o = Op_Tick t' now) \/ (forall t' now, o <> Op_Tick t' now))
    by (destruct o; try (by right); by left; eauto).
  destruct Hcase as [(t' & now & ->) | Hno].
  - cbn [ticks_from] in Ht. destruct Ht as [Ht _]. cbn [apply_op fst]. split; [|unfold begin_tick; cbn; by destruct (negb _)].
    unfold begin_tick. cbn [b_silent put_joints_sent put_tx_frames put_tick put_tick_start]. rewrite Hs. cbn [negb].
    unfold watched. cbn. injection W as W1 W2 W3 W4. split_and!; try done; try lia.
    + unfold watch. rewrite zip_latch_nth by done. rewrite W1.
      change (last_rx (latch_lost t' (b_fresh b)) n) with (last_rx (b_fresh b) n). rewrite W1, W2, W4. cbn. rewrite W3, W4.
      do 2 f_equal. unfold saturating_sub. rewrite Z.max_r by lia.
      destruct (Z.leb_spec lost (t' - t0)); [done|]. apply Z.leb_gt. lia.
    + split; cbn; [apply Hok|]. rewrite length_zip_with, (proj1 Hok), (proj2 Hok). done.
  - rewrite <- Hg in Ho. destruct (op_undisturbed n o b st) as (U1 & U2 & U3 & U4 & U5 & U6); [lia|done..|].
    split; [|rewrite U5; destruct o; try done; by destruct (Hno tick now)].
    split_and!; try done; rewrite ?U5, ?U4, ?U6; try done. by rewrite U1.
Qed.

Lemma watched_run n gripper t0 stale lost ops b st :
  0 <= n < 16 -> watched n gripper t0 stale lost b -> Forall (fun o => op_quiet n gripper o = true) ops ->
  ticks_from (b_tick b) ops -> watched n gripper t0 stale lost (fst (run_ops ops (b, st))).
Proof.
  intros Hn. revert b st. induction ops as [|o ops IH]; intros b st Hw Ho Ht; [done|]. inversion_clear Ho.
  unfold run_ops. cbn [fold_left]. fold (run_ops ops (apply_op o (b, st))).
  destruct (watched_op n gripper t0 stale lost o b st (b_tick b)) as [Hw' Et]; try done.
  { destruct o; try done. cbn in *. tauto. }
  destruct (apply_op o (b, st)) as [b1 st1]. cbn [fst] in *. apply IH; [done..|]. rewrite Et.
  destruct o; try done. cbn in Ht. tauto.
Qed.

(** ** The latch *)

Lemma latched_insert_ne n m l : Z.to_nat m <> Z.to_nat n -> nth (Z.to_nat n) (<[Z.to_nat m := false]> l) false = nth (Z.to_nat n) l false.
Proof. intros. by apply nth_insert_ne. Qed.

Lemma recv_latches b : fc_lost_latched (b_fresh (snd (recv b))) = fc_lost_latched (b_fresh b) /\ b_gripper_node (snd (recv b)) = b_gripper_node b.
Proof.
  unfold recv. generalize (b_rx b) as q. intros q. revert b. induction q as [|i q IH]; intros b; [done|].
  destruct i as [raw ts| |]; cbn [recv_from]; [|apply IH|done]. destruct (_ || _); [|done].
  by destruct (IH (put_rx_frames (b_rx_frames b + 1) b)) as [-> ->].
Qed.

Lemma recv_fresh b : b_fresh (snd (recv b)) = b_fresh b.
Proof. pose proof (recv_frame b) as H. apply H. Qed.

Lemma apply_rx_latches f b st :
  clock_ok (b_fresh b) ->
  let b' := fst (apply_rx f b st) in
  clock_ok (b_fresh b') /\ fc_lost_latched (b_fresh b') = fc_lost_latched (b_fresh b) /\ b_gripper_node b' = b_gripper_node b.
Proof.
  intros Hok. unfold apply_rx. pose proof (apply_decoded_node f b st) as (_ & E2 & _).
  destruct (apply_decoded f b st) as [node [b1 st1]]. cbn [fst snd] in *.
  destruct E2 as (_ & F2 & _ & _ & _ & _ & _ & _ & _ & _ & F11 & _).
  assert (Hm : forall n t k c, fc_lost_latched (snd (mark n t k c)) = fc_lost_latched c) by done.
  cbn [b_connected put_connected b_tick b_fresh]. rewrite F2.
  match goal with |- context [mark ?a ?bb ?c ?d] =>
    specialize (Hm a bb c d); pose proof (mark_ok a bb c d Hok) as Hk; destruct (mark a bb c d) as [re fresh] end.
  cbn [snd] in Hm, Hk. destruct (unpack_can_id (fr_id f)) as [[x r] e].
  destruct re; [destruct (target_of _ _)|]; destruct (r =? _); cbn; (split_and!; try congruence; apply Hk).
Qed.

Lemma drain_latches room count amin amax b st :
  clock_ok (b_fresh b) ->
  let b' := fst (snd (drain room count amin amax b st)) in
  clock_ok (b_fresh b') /\ fc_lost_latched (b_fresh b') = fc_lost_latched (b_fresh b) /\ b_gripper_node b' = b_gripper_node b.
Proof.
  revert count amin amax b st. induction room as [|room IH]; intros count amin amax b st Hok; [done|]. cbn [drain].
  destruct (recv_latches b) as [R1 R2]. pose proof (recv_fresh b) as Rf.
  destruct (recv b) as [[[[f ts]|]|e] b1]; cbn [fst snd] in *; rewrite <- Rf in Hok; [|done|done].
  destruct (b_silent b1).
  - destruct (IH (S count) amin amax b1 st Hok) as (I1 & -> & ->). done.
  - destruct (apply_rx_latches f b1 st Hok) as (A0 & A1 & A2). destruct (apply_rx f b1 st) as [b2 st2]. cbn [fst] in *.
    destruct (IH (S count) (Z.min amin (age_ticks b1 ts)) (Z.max amax (age_ticks b1 ts)) b2 st2 A0) as (I1 & -> & ->).
    split_and!; try apply I1; congruence.
Qed.

(** Node [n] is latched. *)
Definition lost_latched (n gripper : Z) (b : Bus) : Prop :=
  clock_ok (b_fresh b) /\ b_gripper_node b = gripper /\ latched (b_fresh b) n = true.

Lemma op_latched n gripper o b st :
  0 <= n < 16 -> forgets n gripper o = false -> lost_latched n gripper b -> lost_latched n gripper (fst (apply_op o (b, st))).
Proof.
  intros Hn Hf (Hok & Hg & Hl).
  destruct o; cbn [apply_op forgets] in *; try discriminate; try done;
    try (match goal with |- context [tx_op ?o] =>
           destruct (tx_op o) as [m|] eqn:E; [|done]; cbn [fst];
           destruct (keeps_tx o m E b) as (_ & K2 & _ & _ & _ & _ & _ & _ & _ & _ & K11 & _);
           unfold lost_latched; by rewrite K2, K11 end).
  - cbn. unfold begin_tick. cbn [b_silent put_joints_sent put_tx_frames put_tick put_tick_start].
    destruct (negb (b_silent b)); [|done]. split_and!; [|done|].
    + split; cbn; [apply Hok|]. rewrite length_zip_with, (proj1 Hok), (proj2 Hok). done.
    + cbn [b_fresh put_fresh put_tx_frames put_joints_sent put_tick_start put_tick].
      rewrite zip_latch_nth, Hl by done. by repeat case_match.
  - unfold drain_rx. destruct (negb _); [done|]. destruct (boot_published b st) as (b0 & st0 & -> & B1 & B2 & B3 & B4 & B5). cbv zeta.
    match goal with |- context [drain ?r ?c ?mn ?mx ?bb ?ss] => pose proof (drain_latches r c mn mx bb ss) as D;
      destruct (drain r c mn mx bb ss) as [[[[count amin] amax]|e] [b1 st1]] end; cbn [fst snd] in *; rewrite B1 in D;
      destruct (D Hok) as (D0 & D1 & D2); unfold lost_latched, latched in *; rewrite D1, D2, B5; done.
  - apply Nat.eqb_neq in Hf. split_and!; [by apply clear_ok|done|].
    unfold latched in *. cbn. by rewrite latched_insert_ne.
  - apply Nat.eqb_neq in Hf. rewrite <- Hg in Hf.
    destruct tool; (split_and!; [by apply clear_ok|done|]); unfold latched in *; cbn; by rewrite latched_insert_ne.
Qed.

(** C36: a node that falls silent is reported exactly on time, and stays reported.
    A node last seen at tick [t0] and not lost yet, through any operations that
    neither bring a frame of it nor forget its fault, is fresh, then stale from
    the warning age on, then lost from the lost age on; and once lost it stays
    lost through anything - its own frames coming back included - but a clear of
    its errors, a rebase or a tool fitted on it. *)
Theorem silent_node_is_reported_lost n t0 stale lost ops later b st :
  0 <= n < 16 -> watched n (b_gripper_node b) t0 stale lost b ->
  Forall (fun o => op_quiet n (b_gripper_node b) o = true) ops -> ticks_from (b_tick b) ops ->
  Forall (fun o => forgets n (b_gripper_node b) o = false) later ->
  let bs := run_ops ops (b, st) in
  let age := b_tick (fst bs) - t0 in
  freshness n (fst bs) = (if lost <=? age then Fr_Lost else if stale <=? age then Fr_Stale else Fr_Fresh) /\
  (lost <= age -> freshness n (fst (run_ops later bs)) = Fr_Lost).
Proof.
  intros Hn Hw Ho Ht Hl bs. pose proof (watched_run n _ t0 stale lost ops b st Hn Hw Ho Ht) as Hr. fold bs in Hr.
  clearbody bs. clear Hw Ho Ht. generalize dependent (b_gripper_node b). intros gripper Hl Hr.
  destruct Hr as (W & Hok & Hq & Hs & H0 & Hg). unfold freshness, classify. injection W as W1 W2 W3 W4. split.
  - rewrite W1, W2, W3, W4. unfold saturating_sub. rewrite Z.max_r by lia. by destruct (lost <=? _).
  - intros Hage. assert (H : lost_latched n gripper (fst bs)).
    { split_and!; try apply Hok; [done|]. rewrite W2. by apply Z.leb_le. }
    clear W1 W2 W3 W4 Hok Hq Hs H0 Hg Hage. destruct bs as [b1 st1]. revert b1 st1 H.
    induction later as [|o later IH]; intros b1 st1 H; cbn [fst run_ops fold_left].
    { destruct H as (_ & _ & H). cbn [fst] in H. by rewrite H. }
    inversion_clear Hl. pose proof (op_latched n gripper o b1 st1) as Hop.
    change (apply_op o (b1, st1)) with (apply_op o (b1, st1)).
    destruct (apply_op o (b1, st1)) as [b2 st2]. cbn [fst] in Hop. apply IH; [done|]. by apply Hop.
Qed.
End socket.

Lemma silent_bus_is_mute_witness :
  let b := put_silent true example_bus in
  let ops := [Op_Tick 2 9; Op_Joints [example_command]; Op_Arrive [example_reply 1]; Op_Drain; Op_Poll;
              Op_Resend 1 2; Op_ClearError 1 3; Op_Tick 90 9] in
  b_silent b = true /\
  let '(b', st') := run_ops ops (b, example_state) in
  b_wire b' = b_wire b /\ b_writes b' = b_writes b /\ b_silent b' = true /\
  b_connected b' = b_connected b /\
  (forall n, latched (b_fresh b') n = true -> latched (b_fresh b) n = true) /\
  contents st' = contents example_state.
Proof.
  split; [done|]. apply silent_bus_is_mute; [done|vm_compute; done|]. by repeat constructor.
Defined.

Lemma silent_node_is_reported_lost_witness :
  let b := fst (run_ops [Op_Arrive [example_reply 1]; Op_Tick 2 9; Op_Drain] (example_bus, example_state)) in
  let ops := [Op_Arrive [example_reply 0]; Op_Tick 12 9; Op_Drain; Op_Tick 60 9] in
  let later := [Op_Arrive [example_reply 1]; Op_Drain; Op_Tick 61 9] in
  watched 1 (b_gripper_node b) 2 10 50 b /\
  let bs := run_ops ops (b, example_state) in
  let age := b_tick (fst bs) - 2 in
  freshness 1 (fst bs) = (if 50 <=? age then Fr_Lost else if 10 <=? age then Fr_Stale else Fr_Fresh) /\
  (50 <= age -> freshness 1 (fst (run_ops later bs)) = Fr_Lost).
Proof.
  cbv zeta.
  assert (H : watched 1 (b_gripper_node (fst (run_ops [Op_Arrive [example_reply 1]; Op_Tick 2 9; Op_Drain] (example_bus, example_state))))
      2 10 50 (fst (run_ops [Op_Arrive [example_reply 1]; Op_Tick 2 9; Op_Drain] (example_bus, example_state)))).
  { unfold watched, clock_ok. split_and!.
    1-3,5-7: by vm_compute.
    replace (b_rx _) with (@nil RxItem) by by vm_compute. constructor. }
  split; [exact H|]. apply silent_node_is_reported_lost; [lia|exact H| | |].
  - by repeat constructor.
  - vm_compute. repeat split; done.
  - by repeat constructor.
Defined.
