(* ===== verification/SchedProps.v ===== *)
(** * SchedProps: the poll scheduler serves every target

    The round robin with its sweeps and overrides over any number of slots: an
    override takes exactly its slots, and in the window after it every poll of the
    cycle goes out. *)
From Stdlib Require Import SpecFloat.
From stdpp Require Import list.
From S2P Require Import Prelude F64 BusTypes CanCodec CanSched.

(** [k] slots in a row: what each resolved to, and the scheduler after them. *)
Fixpoint sched_run (k : nat) (s : PollScheduler) : list (option PollStep) * PollScheduler :=
  match k with
  | O => ([], s)
  | S k =>
      let '(o, s) := sched_step s in
      let '(os, s) := sched_run k s in
      (o :: os, s)
  end.

Lemma sched_run_add j k s :
  sched_run (j + k) s =
    (fst (sched_run j s) ++ fst (sched_run k (snd (sched_run j s))), snd (sched_run k (snd (sched_run j s)))).
Proof.
  revert s. induction j as [|j IH]; intros s; cbn [Nat.add sched_run].
  - cbn [fst snd app]. by destruct (sched_run k s).
  - destruct (sched_step s) as [o s1]. rewrite IH. by destruct (sched_run j s1) as [os s2].
Qed.

(** ** Well-formed schedulers *)

Definition P : Z := DEVICE_INFO_PERIOD_SLOTS.

(** A cycle of the targets' polls; a sweep under way started at a multiple of the
    period. *)
Definition sched_ok (s : PollScheduler) : Prop :=
  (0 < ps_targets s <= 200)%nat /\ length (ps_legacy s) = ps_targets s /\
  ps_cycle s = concat (imap target_polls (ps_legacy s)) /\ 0 <= ps_cursor s /\ 0 <= ps_slot s /\
  (ps_device_info_remaining s <= ps_targets s)%nat /\
  (ps_device_info_remaining s = 0%nat \/
   ps_slot s mod P = Z.of_nat (ps_targets s) - Z.of_nat (ps_device_info_remaining s)).

Lemma target_polls_length t b : (1 <= length (target_polls t b) <= 3)%nat.
Proof. destruct b; cbn; lia. Qed.

Lemma concat_imap_length (f : nat -> bool -> list (nat * PollKind)) l :
  (forall t b, 1 <= length (f t b) <= 3)%nat -> (length l <= length (concat (imap f l)) <= 3 * length l)%nat.
Proof.
  revert f. induction l as [|b l IH]; intros f Hf; [done|].
  cbn [imap concat length]. rewrite length_app. pose proof (Hf 0%nat b).
  pose proof (IH (f ∘ S) (fun t b => Hf (S t) b)). lia.
Qed.

Lemma cycle_length s : sched_ok s -> (ps_targets s <= length (ps_cycle s) <= 3 * ps_targets s)%nat.
Proof.
  intros (_ & <- & -> & _). apply (concat_imap_length target_polls). intros. apply target_polls_length.
Qed.

Lemma configured_ok n s : (0 < n <= 200)%nat -> sched_ok (poll_configure n s).
Proof. intros. split_and!; cbn; rewrite ?length_replicate; try lia; auto. Qed.

Lemma legacy_ok t b s : sched_ok s -> sched_ok (set_legacy t b s).
Proof.
  intros H. unfold set_legacy. destruct (_ && _); [|done]. destruct H as (H1 & H2 & H3 & H4).
  split_and!; cbn; try apply H1; try apply H4; try done. by rewrite length_insert.
Qed.

(** ** One slot *)

(** The poll at the cursor. *)
Definition due (s : PollScheduler) (i : nat) : nat * PollKind :=
  nth (Z.to_nat ((ps_cursor s + Z.of_nat i) mod Z.of_nat (length (ps_cycle s)))) (ps_cycle s) (0%nat, PK_Telemetry).

(** A slot of the cycle: its poll, the cursor moved, a sweep started at the end of
    the period. *)
Definition cycle_slot (s s' : PollScheduler) (o : option PollStep) : Prop :=
  o = Some (PS_Poll (fst (due s 0)) (snd (due s 0))) /\
  ps_cursor s' = ps_cursor s + 1 /\ ps_device_info_remaining s = 0%nat /\
  ps_device_info_remaining s' = (if (ps_slot s + 1) mod P =? 0 then ps_targets s else 0%nat).

(** A slot of a sweep. *)
Definition sweep_slot (s s' : PollScheduler) (o : option PollStep) : Prop :=
  (exists t, o = Some (PS_Poll t PK_DeviceInfo)) /\
  ps_cursor s' = ps_cursor s /\ (0 < ps_device_info_remaining s)%nat /\
  ps_device_info_remaining s' = (ps_device_info_remaining s - 1)%nat.

Lemma slot_mod_succ u : 0 <= u -> (u + 1) mod P = if u mod P + 1 =? P then 0 else u mod P + 1.
Proof.
  intros. unfold P, DEVICE_INFO_PERIOD_SLOTS. rewrite <- (Zplus_mod_idemp_l u).
  pose proof (Z.mod_pos_bound u 1006 ltac:(lia)).
  destruct (Z.eqb_spec (u mod 1006 + 1) 1006) as [->|]; [done|]. rewrite Z.mod_small; lia.
Qed.

Lemma slot_cases s :
  sched_ok s -> ps_override s = None ->
  let '(o, s') := sched_step s in
  sched_ok s' /\ ps_override s' = None /\ ps_cycle s' = ps_cycle s /\ ps_targets s' = ps_targets s /\
  ps_slot s' = ps_slot s + 1 /\ (cycle_slot s s' o \/ sweep_slot s s' o).
Proof.
  intros (H1 & H2 & H3 & H4 & H5 & H6 & H7) Ho. unfold sched_step.
  destruct (Nat.eqb_spec (ps_targets s) 0); [lia|]. rewrite Ho. cbv zeta.
  assert (Hm : 0 <= ps_slot s mod P < P) by (apply Z.mod_pos_bound; done).
  assert (HP : P = 1006) by done.
  destruct (Nat.ltb_spec 0 (ps_device_info_remaining s)) as [Hr|Hr].
  - destruct H7 as [?|H7]; [lia|]. unfold sched_ok. split_and!; cbn; try done; try lia.
    + right. rewrite slot_mod_succ, H7 by done.
      destruct (Z.eqb_spec (Z.of_nat (ps_targets s) - Z.of_nat (ps_device_info_remaining s) + 1) P); lia.
    + right. unfold sweep_slot. cbn. eauto.
  - assert (ps_device_info_remaining s = 0)%nat as E0 by lia. rewrite E0 in *. fold P.
    destruct (nth _ _ _) as [t k] eqn:En. unfold sched_ok. split_and!; cbn; try done; try lia.
    + destruct (_ =? 0); lia.
    + destruct (Z.eqb_spec ((ps_slot s + 1) mod P) 0) as [->|]; [right; lia|by left].
    + left. unfold cycle_slot, due. change (Z.of_nat 0) with 0. rewrite Z.add_0_r, En. done.
Qed.

(** ** Many slots *)

Definition is_sweep (o : option PollStep) : bool :=
  match o with Some (PS_Poll _ PK_DeviceInfo) => true | _ => false end.
Definition sweeps (os : list (option PollStep)) : nat := length (List.filter is_sweep os).

(** The slots a sweep may take of the next [k]. *)
Definition sweep_bound (k : nat) (s : PollScheduler) : nat :=
  if ps_slot s mod P + Z.of_nat k <? P then ps_device_info_remaining s else ps_targets s.

Lemma Forall_concat_imap (Q : nat * PollKind -> Prop) (f : nat -> bool -> list (nat * PollKind)) l :
  (forall t b, Forall Q (f t b)) -> Forall Q (concat (imap f l)).
Proof.
  revert f. induction l as [|b l IH]; intros f Hf; [constructor|]. cbn [imap concat].
  apply Forall_app. split; [apply Hf|]. apply (IH (f ∘ S)). intros. apply Hf.
Qed.

Lemma due_not_info s i : sched_ok s -> snd (due s i) <> PK_DeviceInfo.
Proof.
  intros (_ & _ & E & _). unfold due. set (j := Z.to_nat _). clearbody j.
  assert (H : Forall (fun p => snd p <> PK_DeviceInfo) (ps_cycle s)).
  { rewrite E. apply Forall_concat_imap. intros t b. destruct b; repeat constructor; done. }
  destruct (nth_in_or_default j (ps_cycle s) (0%nat, PK_Telemetry)) as [Hin | ->]; [|done].
  rewrite Forall_forall in H. apply H. by apply list_elem_of_In.
Qed.

(** Over [k] slots without an override: the cycle's polls in order, as many as are
    left by the sweeps, which stay within their bound. *)
Lemma run_spec k s :
  sched_ok s -> ps_override s = None -> (Z.of_nat k + Z.of_nat (ps_targets s) <= P) ->
  let os := fst (sched_run k s) in
  length os = k /\ (sweeps os <= sweep_bound k s)%nat /\
  List.filter (fun o => negb (is_sweep o)) os =
    map (fun i => Some (PS_Poll (fst (due s i)) (snd (due s i)))) (seq 0 (k - sweeps os)).
Proof.
  revert s. induction k as [|k IH]; intros s Hok Ho Hk; cbn zeta.
  { split_and!; [done|unfold sweeps; cbn; lia|done]. }
  cbn [sched_run]. pose proof (slot_cases s Hok Ho) as Hs. destruct (sched_step s) as [o s1].
  destruct Hs as (Hok1 & Ho1 & Hc & Ht & Hsl & Hcase).
  destruct (IH s1 Hok1 Ho1 ltac:(lia)) as (L & B & F). clear IH.
  destruct (sched_run k s1) as [os s2]. cbn [fst] in *.
  assert (Hm : 0 <= ps_slot s mod P < P) by (apply Z.mod_pos_bound; done).
  assert (Hmod : ps_slot s1 mod P = if ps_slot s mod P + 1 =? P then 0 else ps_slot s mod P + 1)
    by (rewrite Hsl; apply slot_mod_succ; apply Hok).
  assert (Hr1 : (ps_device_info_remaining s1 <= ps_targets s1)%nat) by apply Hok1.
  assert (Hinv : ps_device_info_remaining s = 0%nat \/
            ps_slot s mod P = Z.of_nat (ps_targets s) - Z.of_nat (ps_device_info_remaining s)) by apply Hok.
  unfold sweep_bound in *. rewrite Hmod in B. split; [cbn; lia|].
  destruct Hcase as [(-> & Hcur & Hr & Hr') | ((t & ->) & Hcur & Hr & Hr')].
  - assert (Hni : is_sweep (Some (PS_Poll (fst (due s 0)) (snd (due s 0)))) = false)
      by (pose proof (due_not_info s 0 Hok); cbn; by destruct (snd (due s 0))).
    unfold sweeps in *. cbn [List.filter]. rewrite Hni. cbn [negb]. split.
    + rewrite slot_mod_succ in Hr' by apply Hok.
      destruct (Z.eqb_spec (ps_slot s mod P + 1) P); cbn in Hr'.
      * replace (ps_slot s mod P + Z.of_nat (S k) <? P) with false by (symmetry; apply Z.ltb_ge; lia).
        destruct (Z.ltb_spec (0 + Z.of_nat k) P); lia.
      * replace (ps_slot s mod P + 1 =? 0) with false in Hr' by (symmetry; apply Z.eqb_neq; lia).
        destruct (Z.ltb_spec (ps_slot s mod P + 1 + Z.of_nat k) P), (Z.ltb_spec (ps_slot s mod P + Z.of_nat (S k)) P); lia.
    + assert (Hle : (length (List.filter is_sweep os) <= k)%nat) by (rewrite <- L; apply List.filter_length_le).
      replace (S k - length (List.filter is_sweep os))%nat with (S (k - length (List.filter is_sweep os))) by lia.
      cbn [seq map]. f_equal. rewrite F, <- seq_shift, map_map. apply map_ext. intros i.
      unfold due. rewrite Hcur, Hc. do 3 f_equal; do 3 f_equal; lia.
  - unfold sweeps in *. cbn [List.filter is_sweep negb length]. split.
    + destruct Hinv as [?|Hinv]; [lia|].
      destruct (Z.eqb_spec (ps_slot s mod P + 1) P); [lia|].
      destruct (Z.ltb_spec (ps_slot s mod P + 1 + Z.of_nat k) P), (Z.ltb_spec (ps_slot s mod P + Z.of_nat (S k)) P); lia.
    + rewrite F. replace (S k - S (length (List.filter is_sweep os)))%nat with (k - length (List.filter is_sweep os))%nat by lia.
      apply map_ext. intros i. unfold due. by rewrite Hcur, Hc.
Qed.

(** Going round from the cursor, every poll of the cycle is due. *)
Lemma due_all s p :
  sched_ok s -> p ∈ ps_cycle s -> exists i, (i < length (ps_cycle s))%nat /\ due s i = p.
Proof.
  intros Hok Hin. apply list_elem_of_lookup in Hin as [j Hj]. pose proof (lookup_lt_Some _ _ _ Hj) as Hlt.
  set (n := Z.of_nat (length (ps_cycle s))). set (i := (Z.of_nat j - ps_cursor s) mod n).
  assert (Hi : 0 <= i < n) by (apply Z.mod_pos_bound; lia).
  exists (Z.to_nat i). split; [lia|]. unfold due. rewrite Z2Nat.id by lia. fold n.
  replace ((ps_cursor s + i) mod n) with (Z.of_nat j).
  - rewrite Nat2Z.id. by apply nth_lookup_Some.
  - unfold i. rewrite Zplus_mod_idemp_r. replace (ps_cursor s + (Z.of_nat j - ps_cursor s)) with (Z.of_nat j) by lia.
    rewrite Z.mod_small; lia.
Qed.

(** An override takes its slots and nothing else. *)
Lemma override_run a n s :
  sched_ok s -> ps_override s = Some (a, Z.of_nat n) -> (0 < n)%nat ->
  sched_run n s = (replicate n (Some (PS_Override a)), set_override None s).
Proof.
  revert s. induction n as [|n IH]; intros s Hok Ho Hn; [lia|]. cbn [sched_run].
  assert (E : sched_step s = (Some (PS_Override a), set_override (if 1 <? Z.of_nat (S n) then Some (a, Z.of_nat (S n) - 1) else None) s)).
  { unfold sched_step. destruct Hok as (H1 & _). destruct (Nat.eqb_spec (ps_targets s) 0); [lia|]. by rewrite Ho. }
  rewrite E. destruct n as [|n]; [done|].
  replace (1 <? Z.of_nat (S (S n))) with true by (symmetry; apply Z.ltb_lt; lia).
  rewrite IH; [done| | |lia].
  - exact Hok.
  - cbn. do 2 f_equal. lia.
Qed.

(** The slots a pending override still takes. *)
Definition pending (s : PollScheduler) : nat :=
  match ps_override s with Some (_, n) => Z.to_nat n | None => 0%nat end.

Definition override_positive (s : PollScheduler) : Prop :=
  match ps_override s with Some (_, n) => 0 < n | None => True end.

(** C37: polling is fair.  From any state the scheduler gets into - whatever ways
    its targets are polled, wherever the cursor, the sweep and the override stand -
    and whatever is not asked of it meanwhile, the pending override first takes
    exactly its slots, and in the window after it, one round of the cycle plus one
    slot per target, every poll of the cycle goes out: no target's telemetry,
    temperature, voltage or errors is starved by the device sweep. *)
Theorem every_poll_goes_out s t kind :
  sched_ok s -> override_positive s -> (t, kind) ∈ ps_cycle s ->
  let window := (length (ps_cycle s) + ps_targets s)%nat in
  exists a,
    fst (sched_run (pending s + window) s) =
      replicate (pending s) (Some (PS_Override a)) ++ fst (sched_run window (set_override None s)) /\
    Some (PS_Poll t kind) ∈ fst (sched_run window (set_override None s)).
Proof.
  intros Hok Hp Hin window.
  assert (Hok' : sched_ok (set_override None s)) by exact Hok.
  pose proof (cycle_length s Hok) as Hlen. assert (Hn : (ps_targets s <= 200)%nat) by apply Hok.
  assert (Hgo : Some (PS_Poll t kind) ∈ fst (sched_run window (set_override None s))).
  { destruct (run_spec window (set_override None s) Hok' eq_refl) as (L & B & F).
    { change (ps_targets (set_override None s)) with (ps_targets s). unfold P, DEVICE_INFO_PERIOD_SLOTS, window. lia. }
    destruct (due_all (set_override None s) (t, kind) Hok' Hin) as (i & Hi & Hd).
    change (ps_cycle (set_override None s)) with (ps_cycle s) in Hi.
    assert (Hb : (sweep_bound window (set_override None s) <= ps_targets s)%nat).
    { unfold sweep_bound. destruct (_ <? _); [apply Hok|done]. }
    apply list_elem_of_In. apply (List.filter_In (fun o => negb (is_sweep o))). rewrite F. apply in_map_iff.
    exists i. rewrite Hd. split; [done|]. apply in_seq. unfold window in *. lia. }
  destruct (ps_override s) as [[a n]|] eqn:Eo.
  - exists a. split; [|done]. unfold pending, override_positive in *. rewrite Eo in *.
    rewrite sched_run_add, (override_run a (Z.to_nat n) s); [done|done| |lia]. by rewrite Z2Nat.id by lia.
  - exists (PA_ClearError 0). split; [|done]. unfold pending. rewrite Eo. cbn [replicate app Nat.add].
    do 2 f_equal. destruct s; cbn in *. by subst.
Qed.

Lemma every_poll_goes_out_witness :
  let s := queue_override (PA_ClearError 3) 2 (set_legacy 1 true (poll_configure 3 poll_default)) in
  (1%nat, PK_Errors) ∈ ps_cycle s /\
  let window := (length (ps_cycle s) + ps_targets s)%nat in
  exists a,
    fst (sched_run (pending s + window) s) =
      replicate (pending s) (Some (PS_Override a)) ++ fst (sched_run window (set_override None s)) /\
    Some (PS_Poll 1 PK_Errors) ∈ fst (sched_run window (set_override None s)).
Proof.
  cbv zeta.
  assert (H : (1%nat, PK_Errors) ∈ ps_cycle (queue_override (PA_ClearError 3) 2 (set_legacy 1 true (poll_configure 3 poll_default)))).
  { apply list_elem_of_In. vm_compute. tauto. }
  split; [exact H|]. apply every_poll_goes_out; [|done|exact H].
  apply (legacy_ok 1 true), configured_ok. lia.
Defined.
