(* ===== verification/WireError.v ===== *)
(** * WireError: structured errors (crates/par6-proto/src/error.rs)

    The catalog of error codes with its texts, the substitution of parameters
    into a cause, and the wire form of an error. *)
From stdpp Require Import pretty.
From S2P Require Import Prelude F64 Wire Enums CommandCodec.

(** [ErrorCode] of the wire; the core has an [ErrorCode] of its own. *)
Inductive WErrorCode :=
| WE_IkTargetUnreachable
| WE_IkPartialPath
| WE_TrajEmptyResult
| WE_TrajNoSteps
| WE_TrajNearSingularity
| WE_MotnHomeTimeout
| WE_MotnToolTimeout
| WE_MotnToolFault
| WE_MotnSetupFailed
| WE_MotnTickFailed
| WE_MotnNotHomed
| WE_MotnSettleTimeout
| WE_MotnHomingFailed
| WE_MotnCancelled
| WE_CommQueueFull
| WE_CommUnknownCommand
| WE_CommDecodeError
| WE_CommValidationError
| WE_CommChunkTimeout
| WE_SysControllerDisabled
| WE_SysEstopActive
| WE_SysProfileInvalid
| WE_SysSelfCollision
| WE_SysNotSimulator
| WE_SysExecLinkLost
| WE_SysRtiLinkLost
| WE_SysLoopCritical
| WE_SysJointFault
| WE_SysLoopDegraded
| WE_SysCanStale
| WE_SysBusOff
| WE_SysLinkErrorPassive
| WE_SysTorqueEnvelope
| WE_SysStreamFault.

Definition WErrorCode_wire (c : WErrorCode) : Z :=
  match c with
  | WE_IkTargetUnreachable => 10
  | WE_IkPartialPath => 11
  | WE_TrajEmptyResult => 20
  | WE_TrajNoSteps => 21
  | WE_TrajNearSingularity => 22
  | WE_MotnHomeTimeout => 30
  | WE_MotnToolTimeout => 31
  | WE_MotnToolFault => 32
  | WE_MotnSetupFailed => 33
  | WE_MotnTickFailed => 34
  | WE_MotnNotHomed => 35
  | WE_MotnSettleTimeout => 36
  | WE_MotnHomingFailed => 37
  | WE_MotnCancelled => 38
  | WE_CommQueueFull => 40
  | WE_CommUnknownCommand => 41
  | WE_CommDecodeError => 42
  | WE_CommValidationError => 43
  | WE_CommChunkTimeout => 44
  | WE_SysControllerDisabled => 50
  | WE_SysEstopActive => 51
  | WE_SysProfileInvalid => 52
  | WE_SysSelfCollision => 53
  | WE_SysNotSimulator => 54
  | WE_SysExecLinkLost => 55
  | WE_SysRtiLinkLost => 56
  | WE_SysLoopCritical => 57
  | WE_SysJointFault => 58
  | WE_SysLoopDegraded => 59
  | WE_SysCanStale => 60
  | WE_SysBusOff => 61
  | WE_SysLinkErrorPassive => 62
  | WE_SysTorqueEnvelope => 63
  | WE_SysStreamFault => 64
  end.

Definition WErrorCode_ALL : list WErrorCode :=
  [WE_IkTargetUnreachable; WE_IkPartialPath; WE_TrajEmptyResult; WE_TrajNoSteps;
   WE_TrajNearSingularity; WE_MotnHomeTimeout; WE_MotnToolTimeout; WE_MotnToolFault;
   WE_MotnSetupFailed; WE_MotnTickFailed; WE_MotnNotHomed; WE_MotnSettleTimeout;
   WE_MotnHomingFailed; WE_MotnCancelled; WE_CommQueueFull; WE_CommUnknownCommand;
   WE_CommDecodeError; WE_CommValidationError; WE_CommChunkTimeout; WE_SysControllerDisabled;
   WE_SysEstopActive; WE_SysProfileInvalid; WE_SysSelfCollision; WE_SysNotSimulator;
   WE_SysExecLinkLost; WE_SysRtiLinkLost; WE_SysLoopCritical; WE_SysJointFault;
   WE_SysLoopDegraded; WE_SysCanStale; WE_SysBusOff; WE_SysLinkErrorPassive;
   WE_SysTorqueEnvelope; WE_SysStreamFault].

#[export] Instance WErrorCode_enum : WireEnum WErrorCode := {| wire := WErrorCode_wire; ALL := WErrorCode_ALL |}.
#[export] Instance WErrorCode_laws : WireEnumLaws WErrorCode.
Proof. wire_enum_laws. Qed.
#[export] Instance WErrorCode_eq_dec : EqDecision WErrorCode.
Proof. solve_decision. Defined.

Definition UNATTRIBUTED : Z := -1.

Record WireError := mkWireError {
  we_command_index : Z;
  we_code : Z;
  we_title : bytes;
  we_cause : bytes;
  we_effect : bytes;
  we_remedy : bytes;
}.

#[export] Instance WireError_eq_dec : EqDecision WireError.
Proof. solve_decision. Defined.

(** [self.command_index = i]. *)
Definition we_attribute (i : Z) (e : WireError) : WireError :=
  mkWireError i (we_code e) (we_title e) (we_cause e) (we_effect e) (we_remedy e).

(** ** The wire form *)

Definition encode_error (e : WireError) : bytes :=
  w_array 6 ++ w_int (we_command_index e) ++ w_uint (we_code e) ++ w_str (we_title e) ++
  w_str (we_cause e) ++ w_str (we_effect e) ++ w_str (we_remedy e).

Definition decode_error : Rd WireError :=
  let* n := rd_array_len in
  if negb (n =? 6) then rfail (Arity "error tuple" 6 n)
  else
  let* command_index := rd_int in
  let* code := rd_try 16 "error code" (WText "exceeds u16") in
  let* title := rd_str in
  let* cause := rd_str in
  let* effect := rd_str in
  let* remedy := rd_str in
  rret (mkWireError command_index code title cause effect remedy).

(** ** The catalog *)

Record ErrorTemplate := mkErrorTemplate {
  et_title : string;
  et_cause : string;
  et_effect : string;
  et_remedy : string;
}.

Definition template (code : WErrorCode) : ErrorTemplate :=
  match code with
  | WE_IkTargetUnreachable => mkErrorTemplate
      "IK: target unreachable"
      "No valid IK solution exists for the target pose. {detail}"
      "Motion command rejected; pipeline halted."
      "Verify the target lies inside the workspace, or try a different orientation."
  | WE_IkPartialPath => mkErrorTemplate
      "IK: partial path failure"
      "Only {valid}/{total} poses along the path are reachable."
      "Motion command rejected; pipeline halted."
      "Shorten the move, add intermediate waypoints, or adjust the orientation."
  | WE_TrajEmptyResult => mkErrorTemplate
      "Trajectory: empty result"
      "Trajectory generation produced no waypoints. {detail}"
      "Motion command rejected."
      "Check the motion parameters; start and end may coincide."
  | WE_TrajNoSteps => mkErrorTemplate
      "Trajectory: no steps"
      "Trajectory timing produced zero samples. {detail}"
      "Motion command rejected."
      "Increase the duration or reduce the speed fraction."
  | WE_TrajNearSingularity => mkErrorTemplate
      "Near-singular path"
      "The planned path passes near a singular configuration (condition {cond}, sigma_min {sigma})."
      "Warning only; motion continues with degraded cartesian accuracy."
      "Re-route the segment away from the singular pose if precision matters."
  | WE_MotnHomeTimeout => mkErrorTemplate
      "Homing timeout"
      "The homing sequence did not complete within its deadline."
      "Home command aborted; robot remains un-homed."
      "Check bus connectivity and drive power, then retry homing."
  | WE_MotnToolTimeout => mkErrorTemplate
      "Tool timeout"
      "Tool action timed out in state {state}."
      "Tool command aborted."
      "Check the tool connection and calibration."
  | WE_MotnToolFault => mkErrorTemplate
      "Tool fault"
      "The tool reported fault code {fault_code}."
      "Tool command aborted."
      "Clear the tool fault and recalibrate if it persists."
  | WE_MotnSetupFailed => mkErrorTemplate
      "Command setup failed"
      "The command could not be initialized. {detail}"
      "Command rejected; pipeline halted."
      "Check the command parameters and robot state."
  | WE_MotnTickFailed => mkErrorTemplate
      "Command execution error"
      "Unexpected failure while executing. {detail}"
      "Command aborted; robot stopped."
      "Check the robot state; re-homing may be required."
  | WE_MotnNotHomed => mkErrorTemplate
      "Robot not homed"
      "Planned or streamed motion requested while joint positions are unreferenced."
      "Motion command rejected before dispatch."
      "Run home first; jogging remains available."
  | WE_MotnSettleTimeout => mkErrorTemplate
      "Settle timeout"
      "Measured position did not settle on target within the window: J{joint} was {residual_rad} rad off."
      "Command completed with error under the strict policy."
      "Check for mechanical obstruction, or relax the completion policy."
  | WE_MotnHomingFailed => mkErrorTemplate
      "Homing failed"
      "Joint {joint}'s homing FSM failed in the {phase} phase."
      "The homing sequence fails; the arm stays un-referenced."
      "Clear the mechanism around the endstop and re-home."
  | WE_MotnCancelled => mkErrorTemplate
      "Command cancelled"
      "The command was cancelled by {scope} before it finished."
      "The motion did not run to completion."
      "Re-issue the command if the motion is still wanted."
  | WE_CommQueueFull => mkErrorTemplate
      "Command queue full"
      "A server queue is at capacity. {detail}"
      "Command rejected."
      "Wait for the named queue to drain, then retry."
  | WE_CommUnknownCommand => mkErrorTemplate
      "Unknown command"
      "No handler exists for the received command tag."
      "Command ignored."
      "Ensure the client protocol version matches the runtime."
  | WE_CommDecodeError => mkErrorTemplate
      "Command decode error"
      "The datagram could not be decoded. {detail}"
      "Command ignored."
      "Check the encoding; a protocol version mismatch is likely."
  | WE_CommValidationError => mkErrorTemplate
      "Command validation error"
      "Invalid parameters. {detail}"
      "Command rejected."
      "Check parameter ranges and types."
  | WE_CommChunkTimeout => mkErrorTemplate
      "Chunked transfer timeout"
      "Transfer {transfer_id} received {received}/{total} chunks before the timeout."
      "Partial transfer discarded; the command was not executed."
      "Retry the command; check for datagram loss on the link."
  | WE_SysControllerDisabled => mkErrorTemplate
      "Controller disabled"
      "A motion command arrived while the controller is DISABLED. {detail}"
      "Command rejected."
      "Send reset to re-enable the controller."
  | WE_SysEstopActive => mkErrorTemplate
      "E-stop active"
      "The emergency stop is engaged."
      "All motion stopped; queue cleared."
      "Release the e-stop, then send reset."
  | WE_SysProfileInvalid => mkErrorTemplate
      "Invalid motion profile"
      "Unrecognised motion profile: {detail}"
      "Profile unchanged."
      "Use a profile name supported by the runtime."
  | WE_SysSelfCollision => mkErrorTemplate
      "Collision predicted"
      "The planned configuration collides at sample {sample} of {total}: {pairs}"
      "Motion command rejected before dispatch."
      "Choose a different target or add intermediate waypoints."
  | WE_SysNotSimulator => mkErrorTemplate
      "Simulator-only command"
      "Teleport (or another sim-only command) was received while running on hardware."
      "Command rejected."
      "Switch to simulator mode first, or remove the command."
  | WE_SysExecLinkLost => mkErrorTemplate
      "Exec link lost"
      "The command-plane heartbeat stopped while trajectory samples were pending."
      "Execution halted; error latched until cleared."
      "Check the command-plane process, then send reset."
  | WE_SysRtiLinkLost => mkErrorTemplate
      "Streaming link lost"
      "No streaming packet arrived within the watchdog window."
      "Streaming stopped; controller DISABLED; error latched."
      "Check the client connection and stream rate, then send reset."
  | WE_SysLoopCritical => mkErrorTemplate
      "Control loop critical"
      "Loop period p99 exceeded the critical band for a sustained interval."
      "Controller DISABLED; error latched."
      "Check host load and RT scheduling, then send reset."
  | WE_SysJointFault => mkErrorTemplate
      "Joint fault"
      "Joint {joint} reported {kind}."
      "Controller DISABLED; error latched."
      "Inspect the drive, clear the fault, then send reset."
  | WE_SysLoopDegraded => mkErrorTemplate
      "Control loop degraded"
      "The loop's p99 period exceeds the warning band."
      "Warning only; motion continues."
      "Reduce host load; sustained degradation hard-latches."
  | WE_SysCanStale => mkErrorTemplate
      "CAN data stale"
      "Joint {joint}'s bus data is older than the stale threshold."
      "Warning only; clears on the next frame."
      "Check bus load and wiring if this persists."
  | WE_SysBusOff => mkErrorTemplate
      "CAN bus-off"
      "The motor-bus controller entered bus-off."
      "Controller DISABLED; error latched."
      "Fix the bus fault (wiring, termination), then send reset."
  | WE_SysLinkErrorPassive => mkErrorTemplate
      "CAN link error-passive"
      "The motor-bus controller is error-passive."
      "Warning only; clears when the error counters recover."
      "Check bus wiring and termination before it goes bus-off."
  | WE_SysTorqueEnvelope => mkErrorTemplate
      "Torque envelope exceeded"
      "Joint {joint}'s external torque stayed beyond the configured margin."
      "Controller DISABLED; error latched."
      "Remove the obstruction or update the payload model, then send reset."
  | WE_SysStreamFault => mkErrorTemplate
      "Stream limiter fault"
      "The streaming rate limiter kept failing for a sustained interval."
      "Streaming stopped; controller DISABLED; error latched."
      "Check the daemon log for the limiter failure, then send reset."
  end%string.

(** [str::replace] of a pattern that is not empty: every occurrence from the left,
    none inside another.  [skip] counts the bytes of a match still to drop. *)
Fixpoint replace_go (skip : nat) (pat rep s : bytes) : bytes :=
  match s with
  | [] => []
  | c :: s' =>
      match skip with
      | S k => replace_go k pat rep s'
      | O =>
          if bool_decide (take (length pat) s = pat)
          then rep ++ replace_go (pred (length pat)) pat rep s'
          else c :: replace_go 0 pat rep s'
      end
  end.

Definition str_replace (pat rep s : bytes) : bytes := replace_go 0 pat rep s.

(** The placeholder of a parameter: its name in braces. *)
Definition placeholder (k : string) : bytes := str_bytes ("{" ++ k ++ "}").

Definition make_error (code : WErrorCode) (command_index : Z) (params : list (string * bytes))
  : WireError :=
  let tmpl := template code in
  let cause :=
    fold_left (fun cause '(k, v) => str_replace (placeholder k) v cause) params
      (str_bytes (et_cause tmpl)) in
  mkWireError command_index (wire code) (str_bytes (et_title tmpl)) cause
    (str_bytes (et_effect tmpl)) (str_bytes (et_remedy tmpl)).

(** ** Formatting

    The decimal form of an integer is computed; how the language prints a
    floating-point number, and how it escapes a string under [{:?}], is a
    parameter.  [Display] is [{}], [Debug] is [{:?}], [Fixed n] is [{:.n}]. *)

Inductive FloatFmt := Display | Debug | Fixed (digits : Z).

Class Show := {
  show_f64 : FloatFmt -> f64 -> bytes;
  show_debug_str : bytes -> bytes;
}.

Definition show_int (n : Z) : bytes := str_bytes (pretty n).

Definition hex_digit (d : Z) : Z := if d <? 10 then 48 + d else 87 + d.

(** [{:02x}] of a byte. *)
Definition show_hex2 (v : Z) : bytes := [hex_digit (v / 16); hex_digit (v mod 16)].

(** [items.join(sep)]. *)
Definition join_bytes (sep : bytes) (items : list bytes) : bytes :=
  match items with
  | [] => []
  | x :: l => x ++ flat_map (fun y => sep ++ y) l
  end.

(** [{:?}] of a slice. *)
Definition show_debug_list (items : list bytes) : bytes :=
  str_bytes "[" ++ join_bytes (str_bytes ", ") items ++ str_bytes "]".

Section text.
Context `{!Show}.

Definition why_text (w : Why) : bytes :=
  match w with
  | WText s => str_bytes s
  | WFmtF64 pre v post => str_bytes pre ++ show_f64 Display v ++ str_bytes post
  | WFmtUsize pre n post => str_bytes pre ++ show_int n ++ str_bytes post
  | WFmtRange pre min mid max post =>
      str_bytes pre ++ show_int min ++ str_bytes mid ++ show_int max ++ str_bytes post
  end.

(** The [Display] of a [DecodeError]. *)
Definition decode_error_text (e : DecodeError) : bytes :=
  match e with
  | Truncated => str_bytes "truncated message"
  | TypeErr expected found pos =>
      str_bytes "expected " ++ str_bytes expected ++ str_bytes " at byte " ++ show_int pos ++
      str_bytes ", found marker 0x" ++ show_hex2 found
  | Arity what expected got =>
      str_bytes what ++ str_bytes ": expected " ++ show_int expected ++
      str_bytes " elements, got " ++ show_int got
  | UnknownTag tag => str_bytes "unknown tag " ++ show_int tag
  | InvalidEnum what value =>
      str_bytes "invalid " ++ str_bytes what ++ str_bytes " value " ++ show_int value
  | Utf8 => str_bytes "invalid utf-8 in string"
  | Validation what why => str_bytes what ++ str_bytes ": " ++ why_text why
  | TrailingBytes => str_bytes "trailing bytes after message"
  end.

End text.

(** ** Round trip *)

Definition is_text (s : bytes) : bool := is_uint 32 (blen s) && utf8_valid s.

Definition wt_error (e : WireError) : bool :=
  is_sint 64 (we_command_index e) && is_uint 16 (we_code e) && is_text (we_title e) &&
  is_text (we_cause e) && is_text (we_effect e) && is_text (we_remedy e).

(** Wherever an error stands in a message, it is read back as it was written. *)
Lemma reads_error e : wt_error e = true -> reads decode_error (encode_error e) e.
Proof.
  unfold wt_error, is_text. intros Hw. bsplit. unfold decode_error, encode_error.
  eapply reads_bind; [by apply reads_array_len|]. cbn [Z.eqb Pos.eqb negb].
  eapply reads_bind; [by apply reads_int|]. eapply reads_bind; [by apply reads_rd_try|].
  do 3 (eapply reads_bind; [by apply reads_str|]). eapply reads_bind_last; [by apply reads_str|].
  destruct e. apply reads_ret.
Qed.
#[export] Hint Resolve reads_error : reads.

(** The substitution on an example of the sources. *)
Example make_error_partial_path :
  we_cause (make_error WE_IkPartialPath 7 [("valid"%string, show_int 3); ("total"%string, show_int 10)])
  = str_bytes "Only 3/10 poses along the path are reachable.".
Proof. by vm_compute. Qed.

Example make_error_unfilled :
  we_cause (make_error WE_CommValidationError UNATTRIBUTED []) =
  str_bytes (et_cause (template WE_CommValidationError)).
Proof. by vm_compute. Qed.
