(* ===== verification/Reply.v ===== *)
(** * Reply: the messages of the server (crates/par6-proto/src/reply.rs)

    [OK], [ERROR], [RESPONSE] with its query result, [COMPLETE]: the data, the
    writers and the readers, field by field in the order of the source.  The
    theorems are in [ReplyProps]. *)
From S2P Require Import Prelude F64 Wire Enums Command CommandCodec WireError.

Definition NUM_JOINTS : nat := 6.
Definition POSE_ELEMS : nat := 16.
Definition EN_SLOTS : nat := 12.
Definition MAX_IO_SLOTS : Z := 64.
(** The window of finished commands both sides keep. *)
Definition COMPLETIONS_KEPT : nat := 1024.
Definition MOTION_KEYS : nat := 19.

(** ** Data *)

Record ToolStatusWire := mkToolStatusWire {
  tsw_key : bytes;
  tsw_state : ToolState;
  tsw_engaged : bool;
  tsw_part_detected : bool;
  tsw_fault_code : Z;
  tsw_positions : list f64;
  tsw_channels : list f64;
  tsw_variant_key : bytes;
}.

Record LoopStatsResult := mkLoopStats {
  lst_target_hz : f64;
  lst_loop_count : Z;
  lst_overrun_count : Z;
  lst_mean_period_s : f64;
  lst_std_period_s : f64;
  lst_min_period_s : f64;
  lst_max_period_s : f64;
  lst_p95_period_s : f64;
  lst_p99_period_s : f64;
  lst_mean_hz : f64;
  lst_p50_period_s : f64;
  lst_p90_period_s : f64;
  lst_can_frame_age_min_ticks : Z;
  lst_can_frame_age_max_ticks : Z;
  lst_rt_fifo : bool;
  lst_rt_pinned : bool;
  lst_stream_success_rate : f64;
  lst_stream_discard_pct : f64;
}.

Record BusNode := mkBusNode {
  bn_node : Z;
  bn_configured : bool;
  bn_present : bool;
  bn_freshness : Z;
  bn_hw_ver : Z;
  bn_sw_ver : Z;
  bn_serial : Z;
  bn_tool_id : Z;
}.

Inductive QueryResult :=
| Q_Ping (hardware_connected : bool)
| Q_Status (pose angles speeds : list f64) (io : list Z) (tool_status : option ToolStatusWire)
| Q_Angles (angles : list f64)
| Q_Pose (pose : list f64)
| Q_Io (io : list Z)
| Q_Speeds (speeds : list f64)
| Q_Tools (tool : bytes) (available : list bytes)
| Q_Queue (queue : list bytes) (executing_index completed_index : Z) (last_checkpoint : bytes)
    (queued_duration : f64)
| Q_Activity (current : bytes) (state : ActionState) (next params : bytes)
| Q_LoopStats (stats : LoopStatsResult)
| Q_Profile (profile : bytes)
| Q_Reachable (joint_en cart_en_wrf cart_en_trf : list Z)
| Q_Error (error : option WireError)
| Q_TcpSpeed (speed : f64)
| Q_TcpOffset (x y z : f64)
| Q_TcpTransform (values : list f64)
| Q_CommandCompletion (index : Z) (finished ok : bool) (detail : option WireError) (verdict : option Z)
| Q_ExecutionSpeed (target_scale applied_scale resume_scale : f64)
| Q_ToolStatus (tool_status : option ToolStatusWire)
| Q_IsSimulator (active : bool)
| Q_ConfigInfo (path fingerprint : bytes) (tick_dt_s : f64) (motion : list f64) (joints : list (list f64))
| Q_Payload (mass : f64) (com inertia : list f64)
| Q_BusScan (nodes : list BusNode)
| Q_StatusRate (hz tick_hz : f64) (servable : list f64)
| Q_Shapes (installation program : list Shape) (epoch attachment_epoch : Z)
| Q_ConfigBundle (path fingerprint robot_filename robot_toml : bytes) (tools : list (bytes * bytes)).

(** [QueryResult::tag]. *)
Definition q_tag (q : QueryResult) : QueryType :=
  match q with
  | Q_Ping _ => QT_Ping
  | Q_Status _ _ _ _ _ => QT_Status
  | Q_Angles _ => QT_Angles
  | Q_Pose _ => QT_Pose
  | Q_Io _ => QT_Io
  | Q_Speeds _ => QT_Speeds
  | Q_Tools _ _ => QT_Tools
  | Q_Queue _ _ _ _ _ => QT_Queue
  | Q_Activity _ _ _ _ => QT_Activity
  | Q_LoopStats _ => QT_LoopStats
  | Q_Profile _ => QT_Profile
  | Q_Reachable _ _ _ => QT_Reachable
  | Q_Error _ => QT_Error
  | Q_TcpSpeed _ => QT_TcpSpeed
  | Q_TcpOffset _ _ _ => QT_TcpOffset
  | Q_TcpTransform _ => QT_TcpTransform
  | Q_CommandCompletion _ _ _ _ _ => QT_CommandCompletion
  | Q_ExecutionSpeed _ _ _ => QT_ExecutionSpeed
  | Q_ToolStatus _ => QT_ToolStatus
  | Q_IsSimulator _ => QT_IsSimulator
  | Q_ConfigInfo _ _ _ _ _ => QT_ConfigInfo
  | Q_ConfigBundle _ _ _ _ _ => QT_ConfigBundle
  | Q_Payload _ _ _ => QT_Payload
  | Q_Shapes _ _ _ _ => QT_Shapes
  | Q_BusScan _ => QT_BusScan
  | Q_StatusRate _ _ _ => QT_StatusRate
  end.

Inductive Reply :=
| Rp_Ok (req_id : Z) (index : option Z)
| Rp_Error (req_id : Z) (error : WireError)
| Rp_Response (req_id : Z) (result : QueryResult)
| Rp_Complete (index : Z) (ok : bool) (detail : option WireError) (verdict : option Z).

(** ** Encode *)

(** [ToolStatusWire::encode]. *)
Definition encode_tool_status (ts : ToolStatusWire) : bytes :=
  w_array 8 ++ w_str (tsw_key ts) ++ w_uint (wire (tsw_state ts)) ++ w_bool (tsw_engaged ts) ++
  w_bool (tsw_part_detected ts) ++ w_int (tsw_fault_code ts) ++ w_fixed (tsw_positions ts) ++
  w_fixed (tsw_channels ts) ++ w_str (tsw_variant_key ts).

Definition w_u8s (vs : list Z) : bytes := w_seq w_uint vs.
Definition w_f64s (vs : list f64) : bytes := w_seq w_f64 vs.
Definition w_opt_tool_status (ts : option ToolStatusWire) : bytes := w_option encode_tool_status ts.
Definition w_shapes (shapes : list Shape) : bytes := w_seq w_shape shapes.

Definition w_bus_node (n : BusNode) : bytes :=
  w_array 8 ++ w_uint (bn_node n) ++ w_bool (bn_configured n) ++ w_bool (bn_present n) ++
  w_uint (bn_freshness n) ++ w_uint (bn_hw_ver n) ++ w_uint (bn_sw_ver n) ++ w_int (bn_serial n) ++
  w_uint (bn_tool_id n).

Definition w_loop_stats (s : LoopStatsResult) : bytes :=
  w_f64 (lst_target_hz s) ++ w_uint (lst_loop_count s) ++ w_uint (lst_overrun_count s) ++
  w_f64 (lst_mean_period_s s) ++ w_f64 (lst_std_period_s s) ++ w_f64 (lst_min_period_s s) ++
  w_f64 (lst_max_period_s s) ++ w_f64 (lst_p95_period_s s) ++ w_f64 (lst_p99_period_s s) ++
  w_f64 (lst_mean_hz s) ++ w_f64 (lst_p50_period_s s) ++ w_f64 (lst_p90_period_s s) ++
  w_uint (lst_can_frame_age_min_ticks s) ++ w_uint (lst_can_frame_age_max_ticks s) ++
  w_bool (lst_rt_fifo s) ++ w_bool (lst_rt_pinned s) ++ w_f64 (lst_stream_success_rate s) ++
  w_f64 (lst_stream_discard_pct s).

(** The fifth element of a completion: the error of a failure, the verdict of a
    success, or nil. *)
Definition w_completion_fifth (ok : bool) (detail : option WireError) (verdict : option Z) : bytes :=
  match ok, detail, verdict with
  | false, Some e, _ => encode_error e
  | true, _, Some v => w_uint v
  | _, _, _ => w_nil
  end.

(** The elements of a result's array, the tag included. *)
Definition result_arity (q : QueryResult) : Z :=
  match q with
  | Q_Ping _ | Q_Angles _ | Q_Pose _ | Q_Io _ | Q_Speeds _ | Q_Profile _ | Q_Error _ | Q_TcpSpeed _
  | Q_ToolStatus _ | Q_IsSimulator _ | Q_BusScan _ => 2
  | Q_Tools _ _ => 3
  | Q_Reachable _ _ _ | Q_ExecutionSpeed _ _ _ | Q_TcpOffset _ _ _ | Q_Payload _ _ _
  | Q_StatusRate _ _ _ => 4
  | Q_Activity _ _ _ _ | Q_Shapes _ _ _ _ => 5
  | Q_Status _ _ _ _ _ | Q_Queue _ _ _ _ _ | Q_CommandCompletion _ _ _ _ _ | Q_ConfigInfo _ _ _ _ _
  | Q_ConfigBundle _ _ _ _ _ => 6
  | Q_TcpTransform _ => 7
  | Q_LoopStats _ => 19
  end.

Definition result_fields (q : QueryResult) : bytes :=
  match q with
  | Q_Ping hardware_connected => w_bool hardware_connected
  | Q_Status pose angles speeds io tool_status =>
      w_f64s pose ++ w_f64s angles ++ w_f64s speeds ++ w_u8s io ++ w_opt_tool_status tool_status
  | Q_Angles vs | Q_Pose vs | Q_Speeds vs => w_f64s vs
  | Q_Io io => w_u8s io
  | Q_Tools tool available => w_str tool ++ w_seq w_str available
  | Q_Queue queue executing completed last_checkpoint duration =>
      w_seq w_str queue ++ w_int executing ++ w_int completed ++ w_str last_checkpoint ++ w_f64 duration
  | Q_Activity current state next params =>
      w_str current ++ w_uint (wire state) ++ w_str next ++ w_str params
  | Q_LoopStats s => w_loop_stats s
  | Q_Profile profile => w_str profile
  | Q_Reachable joint_en cart_en_wrf cart_en_trf =>
      w_u8s joint_en ++ w_u8s cart_en_wrf ++ w_u8s cart_en_trf
  | Q_Error error => w_option encode_error error
  | Q_TcpSpeed speed => w_f64 speed
  | Q_ExecutionSpeed target applied resume => w_f64 target ++ w_f64 applied ++ w_f64 resume
  | Q_TcpTransform values => concat (map w_f64 values)
  | Q_CommandCompletion index finished ok detail verdict =>
      w_uint index ++ w_bool finished ++ w_bool ok ++ w_completion_fifth ok detail verdict
  | Q_TcpOffset x y z => w_f64 x ++ w_f64 y ++ w_f64 z
  | Q_ToolStatus tool_status => w_opt_tool_status tool_status
  | Q_IsSimulator active => w_bool active
  | Q_ConfigInfo path fingerprint tick_dt_s motion joints =>
      w_str path ++ w_str fingerprint ++ w_f64 tick_dt_s ++ w_f64s motion ++ w_seq w_f64s joints
  | Q_ConfigBundle path fingerprint robot_filename robot_toml tools =>
      w_str path ++ w_str fingerprint ++ w_str robot_filename ++ w_str robot_toml ++
      w_seq (fun '(name, content) => w_array 2 ++ w_str name ++ w_str content) tools
  | Q_Payload mass com inertia => w_f64 mass ++ w_f64s com ++ w_f64s inertia
  | Q_StatusRate hz tick_hz servable => w_f64 hz ++ w_f64 tick_hz ++ w_f64s servable
  | Q_BusScan nodes => w_seq w_bus_node nodes
  | Q_Shapes installation program epoch attachment_epoch =>
      w_shapes installation ++ w_shapes program ++ w_uint epoch ++ w_uint attachment_epoch
  end.

Definition encode_result (q : QueryResult) : bytes :=
  w_array (result_arity q) ++ w_uint (wire (q_tag q)) ++ result_fields q.

(** The buffer is cleared first; the result is its contents. *)
Definition encode_reply (r : Reply) : bytes :=
  match r with
  | Rp_Ok req_id index =>
      w_array (if index is Some _ then 3 else 2) ++ w_uint (wire MT_Ok) ++ w_uint req_id ++
      match index with Some i => w_uint i | None => [] end
  | Rp_Error req_id error => w_array 3 ++ w_uint (wire MT_Error) ++ w_uint req_id ++ encode_error error
  | Rp_Response req_id result =>
      w_array 3 ++ w_uint (wire MT_Response) ++ w_uint req_id ++ encode_result result
  | Rp_Complete index ok detail verdict =>
      let fifth := if ok then bool_decide (is_Some verdict) else bool_decide (is_Some detail) in
      w_array (if fifth then 5 else 4) ++ w_uint (wire MT_Complete) ++ w_uint 0 ++ w_uint index ++
      w_bool ok ++
      (if ok then match verdict with Some v => w_uint v | None => [] end
       else match detail with Some d => encode_error d | None => [] end)
  end.

(** ** Decode: shared readers *)

Definition MAX_SERVABLE_RATES : Z := 4096.
Definition MAX_REPLY_STRINGS : Z := 512.

(** A length header taken at its word: [for _ in 0..r.array_len()?]. *)
Definition rd_vec {A} (m : Rd A) : Rd (list A) :=
  let* n := rd_array_len in rd_rep (Z.to_nat n) m.

(** [i32::try_from(r.int()?)]. *)
Definition rd_i32 (what : string) (why : Why) : Rd Z :=
  let* v := rd_int in if is_sint 32 v then rret v else rfail (Validation what why).

Definition expect_arity (what : string) (got expected : Z) : Rd unit :=
  if negb (got =? expected) then rfail (Arity what expected got) else rret tt.

Definition r_f64_vec (what : string) : Rd (list f64) := r_seq what MAX_SERVABLE_RATES rd_f64.
Definition r_f64_fixed (n : nat) (what : string) : Rd (list f64) := r_fixed n what.

(** [u8::try_from(r.uint()?)]. *)
Definition rd_u8 (what : string) : Rd Z := rd_try 8 what (WText "exceeds u8").

Definition r_u8_dyn (what : string) : Rd (list Z) := r_seq what MAX_IO_SLOTS (rd_u8 what).

Definition r_u8_fixed (n : nat) (what : string) : Rd (list Z) :=
  let* k := rd_array_len in
  if negb (k =? Z.of_nat n) then rfail (Arity what (Z.of_nat n) k) else rd_rep n (rd_u8 what).

Definition r_bus_node : Rd BusNode :=
  let small what := rd_try 8 what (WText "must fit a byte") in
  let* arity := rd_array_len in
  let* _ := expect_arity "bus scan node row" arity 8 in
  let* node := small "bus_scan.node" in
  let* configured := rd_bool in
  let* present := rd_bool in
  let* freshness := small "bus_scan.freshness" in
  let* hw_ver := small "bus_scan.hw_ver" in
  let* sw_ver := small "bus_scan.sw_ver" in
  let* serial := rd_i32 "bus_scan.serial" (WText "must fit i32") in
  let* tool_id := small "bus_scan.tool_id" in
  rret (mkBusNode node configured present freshness hw_ver sw_ver serial tool_id).

Definition r_bus_nodes : Rd (list BusNode) := r_seq "bus scan node list" 16 r_bus_node.

Definition r_strings : Rd (list bytes) := r_seq "reply string list" MAX_REPLY_STRINGS rd_str.

(** [ToolStatusWire::decode]. *)
Definition decode_tool_status : Rd ToolStatusWire :=
  let* n := rd_array_len in
  if negb (n =? 8) then rfail (Arity "tool_status" 8 n)
  else
  let* key := rd_str in
  let* state := rd_enum "tool state" in
  let* engaged := rd_bool in
  let* part_detected := rd_bool in
  let* fault_code := rd_i32 "tool_status.fault_code" (WText "exceeds i32") in
  let* positions := rd_vec rd_f64 in
  let* channels := rd_vec rd_f64 in
  let* variant_key := rd_str in
  rret (mkToolStatusWire key state engaged part_detected fault_code positions channels variant_key).

Definition r_opt_tool_status : Rd (option ToolStatusWire) := r_option decode_tool_status.

Definition r_shapes : Rd (list Shape) := r_seq "reply shapes" MAX_SHAPES r_shape.

Definition r_completion_fifth (ok : bool) (what : string) : Rd (option WireError * option Z) :=
  let* is_nil := rd_peek_nil in
  if is_nil then (rd_nil ;;* rret (None, None))
  else if negb ok then (let* e := decode_error in rret (Some e, None))
  else
    let* v := rd_uint in
    if in_range 1 v 3 then rret (None, Some v)
    else rfail (Validation what (WFmtUsize "settle verdict must be 1..=3, got " v "")).

(** The tag a message starts with, and its raw value. *)
Definition rd_wire_tag {A} `{WireEnum A} : Rd (Z * A) :=
  let* raw := rd_int in
  match from_wire raw with Some t => rret (raw, t) | None => rfail (UnknownTag raw) end.

(** The consistency EXECUTION_SPEED is refused without. *)
Definition scales_ok (target_scale applied_scale resume_scale : f64) : bool :=
  (f64_le f64_0 applied_scale && f64_le applied_scale f64_1)
  && (f64_le f64_0_1 resume_scale && f64_le resume_scale f64_1)
  && (f64_eqb target_scale f64_0 || f64_eqb target_scale resume_scale).

Definition rd_finite (what : string) : Rd f64 :=
  let* v := rd_f64 in
  if f64_is_finite v then rret v else rfail (Validation what (WText "must be finite")).

(** A list whose header is an arity error past its cap. *)
Definition r_capped {A} (what : string) (max : Z) (m : Rd A) : Rd (list A) :=
  let* n := rd_array_len in
  if max <? n then rfail (Arity what max n) else rd_rep (Z.to_nat n) m.

Definition r_named_text : Rd (bytes * bytes) :=
  let* n := rd_array_len in
  let* _ := expect_arity "config_bundle.tools[]" n 2 in
  let* name := rd_str in
  let* content := rd_str in
  rret (name, content).

Definition r_loop_stats : Rd LoopStatsResult :=
  let* target_hz := rd_f64 in
  let* loop_count := rd_uint in
  let* overrun_count := rd_uint in
  let* mean_period_s := rd_f64 in
  let* std_period_s := rd_f64 in
  let* min_period_s := rd_f64 in
  let* max_period_s := rd_f64 in
  let* p95_period_s := rd_f64 in
  let* p99_period_s := rd_f64 in
  let* mean_hz := rd_f64 in
  let* p50_period_s := rd_f64 in
  let* p90_period_s := rd_f64 in
  let* age_min := rd_uint in
  let* age_max := rd_uint in
  let* rt_fifo := rd_bool in
  let* rt_pinned := rd_bool in
  let* success := rd_f64 in
  let* discard := rd_f64 in
  rret (mkLoopStats target_hz loop_count overrun_count mean_period_s std_period_s min_period_s
    max_period_s p95_period_s p99_period_s mean_hz p50_period_s p90_period_s age_min age_max rt_fifo
    rt_pinned success discard).

(** ** Decode: results *)

(** The [match tag] of [decode_result]; [n]: the elements of the array. *)
Definition decode_fields (tag : QueryType) (n : Z) : Rd QueryResult :=
  match tag with
  | QT_Ping => expect_arity "ping result" n 2 ;;* (let* b := rd_bool in rret (Q_Ping b))
  | QT_Status =>
      expect_arity "status result" n 6 ;;*
      let* pose := r_f64_fixed POSE_ELEMS "status.pose" in
      let* angles := r_f64_fixed NUM_JOINTS "status.angles" in
      let* speeds := r_f64_fixed NUM_JOINTS "status.speeds" in
      let* io := r_u8_dyn "status.io" in
      let* tool_status := r_opt_tool_status in
      rret (Q_Status pose angles speeds io tool_status)
  | QT_Angles =>
      expect_arity "angles result" n 2 ;;* let* v := r_f64_fixed NUM_JOINTS "angles" in rret (Q_Angles v)
  | QT_Pose =>
      expect_arity "pose result" n 2 ;;* let* v := r_f64_fixed POSE_ELEMS "pose" in rret (Q_Pose v)
  | QT_Io => expect_arity "io result" n 2 ;;* let* v := r_u8_dyn "io" in rret (Q_Io v)
  | QT_Speeds =>
      expect_arity "speeds result" n 2 ;;* let* v := r_f64_fixed NUM_JOINTS "speeds" in rret (Q_Speeds v)
  | QT_Tools =>
      expect_arity "tools result" n 3 ;;*
      let* tool := rd_str in let* available := r_strings in rret (Q_Tools tool available)
  | QT_Queue =>
      expect_arity "queue result" n 6 ;;*
      let* queue := r_strings in
      let* executing := rd_int in
      let* completed := rd_int in
      let* last_checkpoint := rd_str in
      let* duration := rd_f64 in
      rret (Q_Queue queue executing completed last_checkpoint duration)
  | QT_Activity =>
      expect_arity "activity result" n 5 ;;*
      let* current := rd_str in
      let* state := rd_enum "action state" in
      let* next := rd_str in
      let* params := rd_str in
      rret (Q_Activity current state next params)
  | QT_LoopStats =>
      expect_arity "loop_stats result" n 19 ;;* let* s := r_loop_stats in rret (Q_LoopStats s)
  | QT_Profile => expect_arity "profile result" n 2 ;;* let* s := rd_str in rret (Q_Profile s)
  | QT_Reachable =>
      expect_arity "reachable result" n 4 ;;*
      let* joint_en := r_u8_fixed EN_SLOTS "reachable.joint_en" in
      let* wrf := r_u8_fixed EN_SLOTS "reachable.cart_en_wrf" in
      let* trf := r_u8_fixed EN_SLOTS "reachable.cart_en_trf" in
      rret (Q_Reachable joint_en wrf trf)
  | QT_Error =>
      expect_arity "error result" n 2 ;;* let* e := r_option decode_error in rret (Q_Error e)
  | QT_TcpSpeed => expect_arity "tcp_speed result" n 2 ;;* let* v := rd_f64 in rret (Q_TcpSpeed v)
  | QT_ExecutionSpeed =>
      expect_arity "execution_speed result" n 4 ;;*
      let* target := rd_f64 in
      let* applied := rd_f64 in
      let* resume := rd_f64 in
      if negb (scales_ok target applied resume) then
        rfail (Validation "execution_speed result" (WText "invalid or inconsistent execution scales"))
      else rret (Q_ExecutionSpeed target applied resume)
  | QT_TcpTransform =>
      expect_arity "tcp_transform result" n 7 ;;*
      let* values := rd_rep 6 (rd_finite "tcp_transform result") in rret (Q_TcpTransform values)
  | QT_CommandCompletion =>
      expect_arity "command_completion result" n 6 ;;*
      let* index := rd_uint in
      let* finished := rd_bool in
      let* ok := rd_bool in
      let* dv := r_completion_fifth ok "command_completion verdict" in
      rret (Q_CommandCompletion index finished ok (fst dv) (snd dv))
  | QT_TcpOffset =>
      expect_arity "tcp_offset result" n 4 ;;*
      let* x := rd_f64 in let* y := rd_f64 in let* z := rd_f64 in rret (Q_TcpOffset x y z)
  | QT_ToolStatus =>
      expect_arity "tool_status result" n 2 ;;* let* ts := r_opt_tool_status in rret (Q_ToolStatus ts)
  | QT_IsSimulator =>
      expect_arity "is_simulator result" n 2 ;;* let* b := rd_bool in rret (Q_IsSimulator b)
  | QT_ConfigInfo =>
      expect_arity "config_info result" n 6 ;;*
      let* path := rd_str in
      let* fingerprint := rd_str in
      let* tick_dt_s := rd_f64 in
      let* motion := r_f64_fixed MOTION_KEYS "config_info.motion" in
      let* joints := r_capped "config_info.joints" 32 (r_f64_fixed 4 "config_info.joints[]") in
      rret (Q_ConfigInfo path fingerprint tick_dt_s motion joints)
  | QT_ConfigBundle =>
      expect_arity "config_bundle result" n 6 ;;*
      let* path := rd_str in
      let* fingerprint := rd_str in
      let* robot_filename := rd_str in
      let* robot_toml := rd_str in
      let* tools := r_capped "config_bundle.tools" 64 r_named_text in
      rret (Q_ConfigBundle path fingerprint robot_filename robot_toml tools)
  | QT_Payload =>
      expect_arity "payload result" n 4 ;;*
      let* mass := rd_f64 in
      let* com := r_f64_fixed 3 "payload.com" in
      let* inertia := r_f64_fixed 6 "payload.inertia" in
      rret (Q_Payload mass com inertia)
  | QT_StatusRate =>
      expect_arity "status rate result" n 4 ;;*
      let* hz := rd_f64 in
      let* tick_hz := rd_f64 in
      let* servable := r_f64_vec "status rate servable" in
      rret (Q_StatusRate hz tick_hz servable)
  | QT_BusScan => expect_arity "bus scan result" n 2 ;;* let* l := r_bus_nodes in rret (Q_BusScan l)
  | QT_Shapes =>
      expect_arity "shapes result" n 5 ;;*
      let* installation := r_shapes in
      let* program := r_shapes in
      let* epoch := rd_uint in
      let* attachment_epoch := rd_uint in
      rret (Q_Shapes installation program epoch attachment_epoch)
  end.

Definition decode_result : Rd QueryResult :=
  let* n := rd_array_len in
  if n <? 1 then rfail (Arity "query result" 1 n)
  else
  let* t := rd_wire_tag in
  decode_fields (snd t) n.

(** ** Decode: the envelope *)

(** The [match tag] of [decode_reply]. *)
Definition decode_body (tag : MsgType) (raw req_id n : Z) : Rd Reply :=
  match tag with
  | MT_Ok =>
      if 3 <? n then rfail (Arity "OK reply" 3 n)
      else if n =? 3 then (let* i := rd_uint in rret (Rp_Ok req_id (Some i)))
      else rret (Rp_Ok req_id None)
  | MT_Error =>
      expect_arity "ERROR reply" n 3 ;;* let* e := decode_error in rret (Rp_Error req_id e)
  | MT_Response =>
      expect_arity "RESPONSE reply" n 3 ;;* let* q := decode_result in rret (Rp_Response req_id q)
  | MT_Complete =>
      if negb (req_id =? 0) then rfail (Validation "COMPLETE push" (WText "req_id must be 0"))
      else if negb (n =? 4) && negb (n =? 5) then rfail (Arity "COMPLETE push" 4 n)
      else
        let* index := rd_uint in
        let* ok := rd_bool in
        let* dv := (if n =? 5 then r_completion_fifth ok "COMPLETE verdict" else rret (None, None)) in
        rret (Rp_Complete index ok (fst dv) (snd dv))
  | MT_Status | MT_Chunk => rfail (UnknownTag raw)
  end.

Definition rd_reply : Rd Reply :=
  let* n := rd_array_len in
  if n <? 2 then rfail (Arity "reply envelope" 2 n)
  else
  let* t := rd_wire_tag in
  let* req_id := rd_try 32 "req_id" (WText "exceeds u32") in
  let* reply := decode_body (snd t) (fst t) req_id n in
  let* _ := rd_finish in
  rret reply.

Definition decode_reply (data : bytes) : result DecodeError Reply :=
  match rd_reply (reader_new data) with Ok (v, _) => Ok v | Err e => Err e end.
