(* ===== verification/ReplyProps.v ===== *)
(** * ReplyProps: a reply is read as it was written

    The ranges of the reply types, the readers undoing the writers part by part,
    what the readers return on any datagram, and the two theorems. *)
From S2P Require Import Prelude F64 Wire Enums Command CommandCodec WireError Reply.

(** ** Ranges *)

(** At most [max] elements, each within [p]. *)
Definition bounded {A} (max : Z) (p : A -> bool) (l : list A) : bool :=
  (Z.of_nat (length l) <=? max) && forallb p l.

Definition is_u8s (n : nat) (l : list Z) : bool := (length l =? n)%nat && forallb (is_uint 8) l.

(** A list under a 32-bit header. *)
Definition is_vec (l : list f64) : bool := is_uint 32 (Z.of_nat (length l)) && forallb (is_uint 64) l.

Definition wt_tool_status (ts : ToolStatusWire) : bool :=
  is_string (tsw_key ts) && is_sint 32 (tsw_fault_code ts) && is_vec (tsw_positions ts)
  && is_vec (tsw_channels ts) && is_string (tsw_variant_key ts).

Definition wt_bus_node (n : BusNode) : bool :=
  is_uint 8 (bn_node n) && is_uint 8 (bn_freshness n) && is_uint 8 (bn_hw_ver n)
  && is_uint 8 (bn_sw_ver n) && is_sint 32 (bn_serial n) && is_uint 8 (bn_tool_id n).

Definition wt_loop_stats (s : LoopStatsResult) : bool :=
  forallb (is_uint 64)
    [lst_target_hz s; lst_loop_count s; lst_overrun_count s; lst_mean_period_s s; lst_std_period_s s;
     lst_min_period_s s; lst_max_period_s s; lst_p95_period_s s; lst_p99_period_s s; lst_mean_hz s;
     lst_p50_period_s s; lst_p90_period_s s; lst_can_frame_age_min_ticks s; lst_can_frame_age_max_ticks s;
     lst_stream_success_rate s; lst_stream_discard_pct s].

(** A shape the other side takes: typed, within the wire's bounds, valid. *)
Definition good_shape (s : Shape) : bool := wt_Shape s && shape_fits s && is_ok (validate_shape s).

(** What the fifth element of a completion can say. *)
Definition wt_completion (ok : bool) (detail : option WireError) (verdict : option Z) : bool :=
  if ok then bool_decide (detail = None) && opt_ok (fun v => in_range 1 v 3) verdict
  else opt_ok wt_error detail && bool_decide (verdict = None).

Definition wt_result (q : QueryResult) : bool :=
  match q with
  | Q_Ping _ | Q_IsSimulator _ => true
  | Q_Status pose angles speeds io tool_status =>
      is_f64s POSE_ELEMS pose && is_f64s NUM_JOINTS angles && is_f64s NUM_JOINTS speeds
      && bounded MAX_IO_SLOTS (is_uint 8) io && opt_ok wt_tool_status tool_status
  | Q_Angles vs | Q_Speeds vs => is_f64s NUM_JOINTS vs
  | Q_Pose vs => is_f64s POSE_ELEMS vs
  | Q_Io io => bounded MAX_IO_SLOTS (is_uint 8) io
  | Q_Tools tool available => is_string tool && bounded MAX_REPLY_STRINGS is_string available
  | Q_Queue queue executing completed last_checkpoint duration =>
      bounded MAX_REPLY_STRINGS is_string queue && is_sint 64 executing && is_sint 64 completed
      && is_string last_checkpoint && is_uint 64 duration
  | Q_Activity current _ next params => is_string current && is_string next && is_string params
  | Q_LoopStats s => wt_loop_stats s
  | Q_Profile s => is_string s
  | Q_Reachable a b c => is_u8s EN_SLOTS a && is_u8s EN_SLOTS b && is_u8s EN_SLOTS c
  | Q_Error e => opt_ok wt_error e
  | Q_TcpSpeed v => is_uint 64 v
  | Q_TcpOffset x y z => is_uint 64 x && is_uint 64 y && is_uint 64 z
  | Q_TcpTransform values => is_f64s 6 values && forallb f64_is_finite values
  | Q_CommandCompletion index _ ok detail verdict => is_uint 64 index && wt_completion ok detail verdict
  | Q_ExecutionSpeed t a r => is_uint 64 t && is_uint 64 a && is_uint 64 r && scales_ok t a r
  | Q_ToolStatus ts => opt_ok wt_tool_status ts
  | Q_ConfigInfo path fingerprint tick_dt_s motion joints =>
      is_string path && is_string fingerprint && is_uint 64 tick_dt_s && is_f64s MOTION_KEYS motion
      && bounded 32 (is_f64s 4) joints
  | Q_Payload mass com inertia => is_uint 64 mass && is_f64s 3 com && is_f64s 6 inertia
  | Q_BusScan nodes => bounded 16 wt_bus_node nodes
  | Q_StatusRate hz tick_hz servable =>
      is_uint 64 hz && is_uint 64 tick_hz && bounded MAX_SERVABLE_RATES (is_uint 64) servable
  | Q_Shapes installation program epoch attachment_epoch =>
      bounded MAX_SHAPES good_shape installation && bounded MAX_SHAPES good_shape program
      && is_uint 64 epoch && is_uint 64 attachment_epoch
  | Q_ConfigBundle path fingerprint robot_filename robot_toml tools =>
      is_string path && is_string fingerprint && is_string robot_filename && is_string robot_toml
      && bounded 64 (fun t => is_string (fst t) && is_string (snd t)) tools
  end.

Definition wt_reply (r : Reply) : bool :=
  match r with
  | Rp_Ok req_id index => is_uint 32 req_id && opt_ok (is_uint 64) index
  | Rp_Error req_id e => is_uint 32 req_id && wt_error e
  | Rp_Response req_id q => is_uint 32 req_id && wt_result q
  | Rp_Complete index ok detail verdict => is_uint 64 index && wt_completion ok detail verdict
  end.

(** ** Reading back: the shared readers *)

Lemma reads_arity what n expected : n = expected -> reads (expect_arity what n expected) [] tt.
Proof. intros ->. unfold expect_arity. rewrite Z.eqb_refl. apply reads_ret. Qed.

(** The arity check costs no byte. *)
Lemma reads_expect {B} (k : unit -> Rd B) what n expected bs v :
  n = expected -> reads (k tt) bs v -> reads (rbnd (expect_arity what n expected) k) bs v.
Proof. intros Hn Hk. change bs with ([] ++ bs). eapply reads_bind; [by apply reads_arity|done]. Qed.

Lemma reads_bounded {A} what max (m : Rd A) (w : A -> bytes) (p : A -> bool) l :
  max < 2 ^ 32 -> (forall x, p x = true -> reads m (w x) x) -> bounded max p l = true ->
  reads (r_seq what max m) (w_seq w l) l.
Proof.
  intros Hmax Hm Hl. unfold bounded in Hl. bsplit. apply Z.leb_le in H.
  apply reads_seq; [done|done|]. by eapply forallb_Forall.
Qed.

Lemma reads_capped {A} what max (m : Rd A) (w : A -> bytes) (p : A -> bool) l :
  max < 2 ^ 32 -> (forall x, p x = true -> reads m (w x) x) -> bounded max p l = true ->
  reads (r_capped what max m) (w_seq w l) l.
Proof.
  intros Hmax Hm Hl. unfold bounded in Hl. bsplit. apply Z.leb_le in H. unfold r_capped, w_seq.
  eapply reads_bind; [apply reads_array_len, is_uint_spec; lia|]. zdecide.
  rewrite Nat2Z.id. apply reads_rep. by eapply forallb_Forall.
Qed.

Lemma reads_vec l : is_vec l = true -> reads (rd_vec rd_f64) (w_fixed l) l.
Proof.
  unfold is_vec. intros Hl. bsplit. unfold rd_vec, w_fixed, w_seq.
  eapply reads_bind; [by apply reads_array_len|]. rewrite Nat2Z.id. by apply reads_f64s.
Qed.

Lemma reads_i32 what why v : is_sint 32 v = true -> reads (rd_i32 what why) (w_int v) v.
Proof.
  intros Hv. unfold rd_i32. eapply reads_bind_last; [apply reads_int, (is_sint_weaken 32); done|].
  rewrite Hv. apply reads_ret.
Qed.

Lemma reads_u8 what v : is_uint 8 v = true -> reads (rd_u8 what) (w_uint v) v.
Proof. intros. by apply reads_rd_try. Qed.

Lemma reads_byte_try what why v : is_uint 8 v = true -> reads (rd_try 8 what why) (w_uint v) v.
Proof. intros. by apply reads_rd_try. Qed.

Lemma reads_u8_dyn what l : bounded MAX_IO_SLOTS (is_uint 8) l = true -> reads (r_u8_dyn what) (w_u8s l) l.
Proof. intros Hl. apply (reads_bounded _ _ _ _ (is_uint 8)); [done| |done]. apply reads_u8. Qed.

Lemma reads_u8_fixed n what l :
  Z.of_nat n < 2 ^ 32 -> is_u8s n l = true -> reads (r_u8_fixed n what) (w_u8s l) l.
Proof.
  unfold is_u8s. intros Hn Hl. bsplit. apply Nat.eqb_eq in H. subst n. unfold r_u8_fixed, w_u8s, w_seq.
  eapply reads_bind; [apply reads_array_len, is_uint_spec; lia|]. rewrite Z.eqb_refl. cbn [negb].
  apply reads_rep. eapply forallb_Forall; [|done]. apply reads_u8.
Qed.

Lemma reads_en what l : is_u8s EN_SLOTS l = true -> reads (r_u8_fixed EN_SLOTS what) (w_u8s l) l.
Proof. by apply reads_u8_fixed. Qed.

Lemma reads_f64_fixed n what l :
  Z.of_nat n < 2 ^ 32 -> is_f64s n l = true -> reads (r_f64_fixed n what) (w_f64s l) l.
Proof. apply reads_fixed. Qed.

Lemma reads_pose what l : is_f64s POSE_ELEMS l = true -> reads (r_f64_fixed POSE_ELEMS what) (w_f64s l) l.
Proof. by apply reads_f64_fixed. Qed.
Lemma reads_joints what l : is_f64s NUM_JOINTS l = true -> reads (r_f64_fixed NUM_JOINTS what) (w_f64s l) l.
Proof. by apply reads_f64_fixed. Qed.
Lemma reads_motion what l : is_f64s MOTION_KEYS l = true -> reads (r_f64_fixed MOTION_KEYS what) (w_f64s l) l.
Proof. by apply reads_f64_fixed. Qed.
Lemma reads_f3 what l : is_f64s 3 l = true -> reads (r_f64_fixed 3 what) (w_f64s l) l.
Proof. by apply reads_f64_fixed. Qed.
Lemma reads_f4 what l : is_f64s 4 l = true -> reads (r_f64_fixed 4 what) (w_f64s l) l.
Proof. by apply reads_f64_fixed. Qed.
Lemma reads_f6 what l : is_f64s 6 l = true -> reads (r_f64_fixed 6 what) (w_f64s l) l.
Proof. by apply reads_f64_fixed. Qed.

Lemma reads_strings l : bounded MAX_REPLY_STRINGS is_string l = true -> reads r_strings (w_seq w_str l) l.
Proof. intros Hl. apply (reads_bounded _ _ _ _ is_string); [done| |done]. apply reads_string. Qed.

Lemma reads_rates what l :
  bounded MAX_SERVABLE_RATES (is_uint 64) l = true -> reads (r_f64_vec what) (w_f64s l) l.
Proof. intros Hl. apply (reads_bounded _ _ _ _ (is_uint 64)); [done| |done]. apply reads_f64. Qed.

Lemma reads_tool_state what (x : ToolState) : reads (rd_enum what) (w_uint (wire x)) x.
Proof. apply reads_enum. Qed.
Lemma reads_action_state what (x : ActionState) : reads (rd_enum what) (w_uint (wire x)) x.
Proof. apply reads_enum. Qed.

#[export] Hint Resolve reads_tool_state reads_action_state reads_i32 reads_u8 reads_byte_try reads_u8_dyn reads_en reads_pose reads_joints
  reads_motion reads_f3 reads_f6 reads_strings reads_rates reads_vec : reads.

Lemma reads_tool_status ts :
  wt_tool_status ts = true -> reads decode_tool_status (encode_tool_status ts) ts.
Proof.
  unfold wt_tool_status. intros Hw. bsplit. unfold decode_tool_status, encode_tool_status.
  eapply reads_bind; [by apply reads_array_len|]. cbn [Z.eqb Pos.eqb negb].
  repeat reads_step. destruct ts. apply reads_ret.
Qed.

Lemma reads_opt_tool_status ts :
  opt_ok wt_tool_status ts = true -> reads r_opt_tool_status (w_opt_tool_status ts) ts.
Proof.
  intros Hw. apply reads_option. intros a ->. split; [by apply reads_tool_status|].
  apply not_nil_app, not_nil_array. lia.
Qed.

Lemma reads_opt_error e : opt_ok wt_error e = true -> reads (r_option decode_error) (w_option encode_error e) e.
Proof.
  intros Hw. apply reads_option. intros a ->. split; [by apply reads_error|].
  apply not_nil_app, not_nil_array. lia.
Qed.

Lemma reads_bus_node n : wt_bus_node n = true -> reads r_bus_node (w_bus_node n) n.
Proof.
  unfold wt_bus_node. intros Hw. bsplit. unfold r_bus_node, w_bus_node. cbv zeta.
  eapply reads_bind; [by apply reads_array_len|]. apply reads_expect; [done|].
  repeat reads_step. destruct n. apply reads_ret.
Qed.

Lemma reads_bus_nodes l : bounded 16 wt_bus_node l = true -> reads r_bus_nodes (w_seq w_bus_node l) l.
Proof. intros Hl. apply (reads_bounded _ _ _ _ wt_bus_node); [done| |done]. apply reads_bus_node. Qed.

Lemma reads_shapes l : bounded MAX_SHAPES good_shape l = true -> reads r_shapes (w_shapes l) l.
Proof.
  intros Hl. apply (reads_bounded _ _ _ _ good_shape); [done| |done]. unfold good_shape. intros s Hs. bsplit.
  apply reads_shape; [done| |done]. by apply is_ok_spec.
Qed.

Lemma reads_config_joints what l :
  bounded 32 (is_f64s 4) l = true -> reads (r_capped what 32 (r_f64_fixed 4 "config_info.joints[]")) (w_seq w_f64s l) l.
Proof. intros Hl. apply (reads_capped _ _ _ _ (is_f64s 4)); [done| |done]. intros x. apply reads_f4. Qed.

Lemma reads_named_text nc :
  is_string (fst nc) && is_string (snd nc) = true ->
  reads r_named_text (let '(name, content) := nc in w_array 2 ++ w_str name ++ w_str content) nc.
Proof.
  intros Hw. destruct nc as [name content]. cbn [fst snd] in Hw. bsplit. unfold r_named_text.
  eapply reads_bind; [by apply reads_array_len|]. apply reads_expect; [done|]. repeat reads_step.
Qed.

Lemma reads_finite what v : is_uint 64 v = true -> f64_is_finite v = true -> reads (rd_finite what) (w_f64 v) v.
Proof.
  intros Hv Hf. unfold rd_finite. eapply reads_bind_last; [by apply reads_f64|]. rewrite Hf. apply reads_ret.
Qed.

Lemma reads_loop_stats s : wt_loop_stats s = true -> reads r_loop_stats (w_loop_stats s) s.
Proof.
  unfold wt_loop_stats. cbn [forallb]. intros Hw. bsplit. unfold r_loop_stats, w_loop_stats.
  repeat reads_step. destruct s. apply reads_ret.
Qed.

(** The fifth element, when it is written. *)
Lemma reads_completion_fifth ok what detail verdict :
  wt_completion ok detail verdict = true ->
  reads (r_completion_fifth ok what) (w_completion_fifth ok detail verdict) (detail, verdict).
Proof.
  unfold wt_completion, r_completion_fifth, w_completion_fifth. intros Hw.
  assert (Hnil : reads (let* is_nil := rd_peek_nil in
                        if is_nil then rd_nil ;;* rret (None, None) else
                        if negb ok then let* e := decode_error in rret (Some e, None) else
                        let* v := rd_uint in
                        if in_range 1 v 3 then rret (None, Some v)
                        else rfail (Validation what (WFmtUsize "settle verdict must be 1..=3, got " v "")))
                  w_nil (None, None)).
  { unfold w_nil. apply reads_peek_nil. cbn. eapply reads_bind_last; [apply reads_nil|apply reads_ret]. }
  destruct ok; bsplit; rewrite ?bool_decide_eq_true in *; subst.
  - destruct verdict as [v|]; [|done]. cbn [opt_ok] in *. clear Hnil.
    assert (Hv : 1 <= v <= 3) by (by apply in_range_spec).
    assert (Hu : reads rd_uint (w_uint v) v) by (apply reads_uint, is_uint_spec; lia).
    destruct (not_nil_uint v ltac:(lia)) as (b & t & E & Hb). rewrite E in *.
    apply reads_peek_nil. rewrite Hb. cbn [negb]. eapply reads_bind_last; [exact Hu|].
    rewrite H0. apply reads_ret.
  - destruct detail as [e|]; [|done]. cbn [opt_ok] in *. clear Hnil.
    pose proof (reads_error e H) as He.
    destruct (not_nil_app (w_array 6) _ (not_nil_array 6 ltac:(lia)) :
      not_nil (encode_error e)) as (b & t & E & Hb). rewrite E in *.
    apply reads_peek_nil. rewrite Hb. cbn [negb]. eapply reads_bind_last; [exact He|apply reads_ret].
Qed.

#[export] Hint Resolve reads_tool_status reads_opt_tool_status reads_opt_error reads_bus_nodes reads_shapes
  reads_config_joints reads_loop_stats reads_completion_fifth : reads.

(** ** Reading back: results and the envelope *)

Lemma reads_transform what l : is_f64s 6 l = true -> forallb f64_is_finite l = true ->
  reads (rd_rep 6 (rd_finite what)) (concat (map w_f64 l)) l.
Proof.
  unfold is_f64s. intros Hl Hf. bsplit. apply Nat.eqb_eq in H. rewrite <- H. apply reads_rep.
  apply List.Forall_forall. rewrite forallb_forall in *. intros x Hx. by apply reads_finite; auto.
Qed.

Lemma reads_tools what l :
  bounded 64 (fun t => is_string (fst t) && is_string (snd t)) l = true ->
  reads (r_capped what 64 r_named_text)
    (w_seq (fun '(name, content) => w_array 2 ++ w_str name ++ w_str content) l) l.
Proof.
  intros Hl. apply (reads_capped _ _ _ _ (fun t => is_string (fst t) && is_string (snd t))); [done| |done].
  intros x. apply reads_named_text.
Qed.

#[export] Hint Resolve reads_transform reads_tools : reads.

Lemma reads_fields q : wt_result q = true -> reads (decode_fields (q_tag q) (result_arity q)) (result_fields q) q.
Proof.
  intros Hw. destruct q; cbn [wt_result] in Hw; cbn [q_tag result_arity decode_fields result_fields];
    bsplit; (apply reads_expect; [done|]); repeat reads_step.
  rewrite H0. apply reads_ret.
Qed.

Lemma reads_wire_tag {A} `{WireEnumLaws A} (t : A) : reads rd_wire_tag (w_uint (wire t)) (wire t, t).
Proof.
  pose proof (wire_range t) as Ht. apply is_uint_spec in Ht as Hr.
  replace (w_uint (wire t)) with (w_int (wire t)) by (unfold w_int; zdecide; done).
  unfold rd_wire_tag. eapply reads_bind_last; [apply reads_int, is_sint_spec; lia|].
  rewrite from_wire_wire. apply reads_ret.
Qed.

Lemma result_arity_range q : 2 <= result_arity q < 20.
Proof. destruct q; cbn; lia. Qed.

Lemma reads_result q : wt_result q = true -> reads decode_result (encode_result q) q.
Proof.
  intros Hw. pose proof (result_arity_range q). unfold decode_result, encode_result.
  eapply reads_bind; [apply reads_array_len, is_uint_spec; lia|]. zdecide.
  eapply reads_bind; [apply reads_wire_tag|]. by apply reads_fields.
Qed.

#[export] Hint Resolve reads_result : reads.

(** The body of a reply, after its header, tag and request id. *)
Definition reply_parts (r : Reply) : Z * MsgType * Z * bytes :=
  match r with
  | Rp_Ok req_id index =>
      (if index is Some _ then 3 else 2, MT_Ok, req_id, match index with Some i => w_uint i | None => [] end)
  | Rp_Error req_id e => (3, MT_Error, req_id, encode_error e)
  | Rp_Response req_id q => (3, MT_Response, req_id, encode_result q)
  | Rp_Complete index ok detail verdict =>
      (if (if ok then bool_decide (is_Some verdict) else bool_decide (is_Some detail)) then 5 else 4,
       MT_Complete, 0,
       w_uint index ++ w_bool ok ++
       (if ok then match verdict with Some v => w_uint v | None => [] end
        else match detail with Some d => encode_error d | None => [] end))
  end.

Lemma encode_reply_parts r :
  let '(n, t, req, body) := reply_parts r in
  encode_reply r = w_array n ++ w_uint (wire t) ++ w_uint req ++ body.
Proof. by destruct r. Qed.

Lemma reads_body r : wt_reply r = true ->
  let '(n, t, req, body) := reply_parts r in
  2 <= n < 6 /\ is_uint 32 req = true /\ reads (decode_body t (wire t) req n) body r.
Proof.
  intros Hw. destruct r as [req [i|]|req e|req q|index ok detail verdict]; cbn [wt_reply reply_parts] in *; bsplit;
    cbn [opt_ok] in *; split_and!; try lia; try done; cbn [decode_body].
  - cbn. eapply reads_bind_last; [by apply reads_uint|apply reads_ret].
  - apply reads_ret.
  - apply reads_expect; [done|]. eapply reads_bind_last; [by apply reads_error|apply reads_ret].
  - apply reads_expect; [done|]. eapply reads_bind_last; [by apply reads_result|apply reads_ret].
  - by repeat case_match.
  - by repeat case_match.
  - cbn [Z.eqb negb]. pose proof (reads_completion_fifth ok "COMPLETE verdict" _ _ H0) as Hf.
    unfold wt_completion in H0. rewrite <- (app_nil_r (w_uint index ++ _)), <- !app_assoc.
    destruct ok; bsplit; rewrite ?bool_decide_eq_true in *; subst; [destruct verdict as [v|]|destruct detail as [d|]];
      rewrite ?(bool_decide_eq_true_2 (is_Some (Some _))) by eauto;
      rewrite ?(bool_decide_eq_false_2 (is_Some None)) by (by intros [? ?]); cbn [Z.eqb Pos.eqb negb andb];
      (eapply reads_bind; [by apply reads_uint|]); (eapply reads_bind; [apply reads_bool|]);
      first [ eapply reads_bind; [exact Hf|apply reads_ret]
            | cbn [app]; eapply reads_bind_last; apply reads_ret ].
Qed.

(** C29: a client reads what the server wrote.  Every well-typed reply - the
    acknowledgements, errors, each of the twenty-six query results and the
    completion push - is decoded from its encoding to itself, every field and
    list of it, whatever its values. *)
Theorem encode_decode_reply r :
  wt_reply r = true -> slice_ok (encode_reply r) -> decode_reply (encode_reply r) = Ok r.
Proof.
  intros Hw Hok. pose proof (encode_reply_parts r) as E. pose proof (reads_body r Hw) as Hb.
  destruct (reply_parts r) as [[[n t] req] body]. destruct Hb as (Hn & Hreq & Hb).
  unfold decode_reply. rewrite (reads_end_run rd_reply _ r); [done|done|]. rewrite E. unfold rd_reply.
  eapply reads_end_bind; [apply reads_array_len, is_uint_spec; lia|]. zdecide.
  eapply reads_end_bind; [apply reads_wire_tag|]. cbn [fst snd].
  eapply reads_end_bind; [by apply reads_rd_try|].
  eapply reads_end_last; [exact Hb|]. apply reads_end_finish. apply reads_ret.
Qed.

(** A cancelled move with its error. *)
Definition sample_failure : WireError :=
  mkWireError 7 38 (str_bytes "Motion cancelled") (str_bytes "estop") [] [].

(** A status result with a tool. *)
Definition sample_status : QueryResult :=
  Q_Status (replicate POSE_ELEMS f64_1) (replicate NUM_JOINTS f64_0) (replicate NUM_JOINTS f64_m1)
    [0; 1; 1] (Some (mkToolStatusWire (str_bytes "jaw") TS_Active true false (-3) [f64_0_1] [] [])).

Lemma encode_decode_reply_witness :
  decode_reply (encode_reply (Rp_Complete 7 false (Some sample_failure) None)) =
    Ok (Rp_Complete 7 false (Some sample_failure) None) /\
  decode_reply (encode_reply (Rp_Response 513 sample_status)) = Ok (Rp_Response 513 sample_status).
Proof. split; apply encode_decode_reply; vm_compute; reflexivity. Defined.

(** ** What is read from any datagram *)

Lemma yields_and {A} (m : Rd A) P Q : yields m P -> yields m Q -> yields m (fun a => P a /\ Q a).
Proof.
  intros HP HQ r Hr. specialize (HP r Hr). specialize (HQ r Hr). destruct (m r) as [[a r']|]; [|done]. tauto.
Qed.

Lemma yields_arity what n k : yields (expect_arity what n k) (fun _ => True).
Proof. unfold expect_arity. apply yields_if; intros _; [apply yields_fail|by apply yields_ret]. Qed.

Lemma yields_bounded {A} what max (m : Rd A) (p : A -> bool) :
  0 <= max -> yields m (fun x => p x = true) -> yields (r_seq what max m) (fun l => bounded max p l = true).
Proof.
  intros Hmax Hm. eapply yields_weaken; [by apply yields_seq|]. intros l [Hl Hn]. unfold bounded.
  bsplit; [apply Z.leb_le; lia|]. by apply Forall_forallb.
Qed.

Lemma yields_capped {A} what max (m : Rd A) (p : A -> bool) :
  yields m (fun x => p x = true) -> yields (r_capped what max m) (fun l => bounded max p l = true).
Proof.
  intros Hm. unfold r_capped. yields_step. apply yields_if; intros Hn; [apply yields_fail|].
  eapply yields_weaken; [by apply yields_rep|]. intros l [Hl Hlen]. unfold bounded.
  apply is_uint_spec in H. bsplit; [|by apply Forall_forallb]. lia.
Qed.

Lemma yields_vec : yields (rd_vec rd_f64) (fun l => is_vec l = true).
Proof.
  unfold rd_vec. yields_step. eapply yields_weaken; [apply yields_rep, yields_f64|]. intros l [Hl Hn].
  unfold is_vec. apply is_uint_spec in H as Hr. rewrite Hn, Z2Nat.id by lia. bsplit; [done|].
  by apply Forall_forallb.
Qed.

Lemma yields_i32 what why : yields (rd_i32 what why) (fun v => is_sint 32 v = true).
Proof. unfold rd_i32. yields_step. apply yields_if; intros H1; [by apply yields_ret|apply yields_fail]. Qed.

Lemma yields_u8 what : yields (rd_u8 what) (fun v => is_uint 8 v = true).
Proof. apply yields_rd_try. Qed.

Lemma yields_u8_dyn what : yields (r_u8_dyn what) (fun l => bounded MAX_IO_SLOTS (is_uint 8) l = true).
Proof. by apply yields_bounded, yields_u8. Qed.

Lemma yields_u8_fixed n what : yields (r_u8_fixed n what) (fun l => is_u8s n l = true).
Proof.
  unfold r_u8_fixed. yields_step. apply yields_if; intros _; [apply yields_fail|].
  eapply yields_weaken; [apply yields_rep, yields_u8|]. intros l [Hl Hn].
  unfold is_u8s. rewrite Hn, Nat.eqb_refl. by apply Forall_forallb.
Qed.

Lemma yields_f64_fixed n what : yields (r_f64_fixed n what) (fun l => is_f64s n l = true).
Proof. apply yields_fixed. Qed.

Lemma yields_strings : yields r_strings (fun l => bounded MAX_REPLY_STRINGS is_string l = true).
Proof. by apply yields_bounded, yields_str. Qed.

Lemma yields_rates what : yields (r_f64_vec what) (fun l => bounded MAX_SERVABLE_RATES (is_uint 64) l = true).
Proof. by apply yields_bounded, yields_f64. Qed.

Lemma yields_error : yields decode_error (fun e => wt_error e = true).
Proof.
  unfold decode_error. yields_step. apply yields_if; intros _; [apply yields_fail|]. repeat yields_step.
  unfold wt_error, is_text. cbn. unfold is_string in *. by bsplit.
Qed.

Lemma yields_opt_error : yields (r_option decode_error) (fun o => opt_ok wt_error o = true).
Proof. apply yields_option, yields_error. Qed.

#[export] Hint Resolve yields_arity yields_vec yields_i32 yields_u8 yields_u8_dyn yields_u8_fixed
  yields_f64_fixed yields_strings yields_rates yields_error yields_opt_error : yields.

Lemma yields_tool_status : yields decode_tool_status (fun ts => wt_tool_status ts = true).
Proof.
  unfold decode_tool_status. yields_step. apply yields_if; intros _; [apply yields_fail|]. repeat yields_step.
  unfold wt_tool_status. cbn. by bsplit.
Qed.

Lemma yields_opt_tool_status : yields r_opt_tool_status (fun o => opt_ok wt_tool_status o = true).
Proof. apply yields_option, yields_tool_status. Qed.

Lemma yields_bus_nodes : yields r_bus_nodes (fun l => bounded 16 wt_bus_node l = true).
Proof.
  apply yields_bounded; [done|]. unfold r_bus_node. cbv zeta. repeat yields_step.
  unfold wt_bus_node. cbn. by bsplit.
Qed.

Lemma yields_valid_shape : yields r_shape (fun s => is_ok (validate_shape s) = true).
Proof.
  unfold r_shape. yields_step. apply yields_if; intros _; [apply yields_fail|].
  do 6 yields_step.
  eapply (yields_bind _ _ (fun _ => True)).
  { apply yields_if; intros _; [|by apply yields_ret]. eapply yields_weaken; [apply yields_physics|done]. }
  intros ph _. eapply (yields_bind _ _ (fun _ => True)).
  { apply yields_if; intros _; [|by apply yields_ret].
    eapply yields_weaken; [apply yields_option, yields_attachment|done]. }
  intros att _. cbv zeta.
  match goal with |- context [shape_error (validate_shape ?s)] =>
    eapply (yields_bind _ _ (fun _ => is_ok (validate_shape s) = true)) end.
  - apply yields_lift. intros [] Hv%shape_error_ok. by rewrite Hv.
  - intros _ Hv. by apply yields_ret.
Qed.

Lemma yields_shapes : yields r_shapes (fun l => bounded MAX_SHAPES good_shape l = true).
Proof.
  apply yields_bounded; [done|]. eapply yields_weaken; [apply yields_and; [apply yields_shape|apply yields_valid_shape]|].
  intros s [Hw Hv]. unfold good_shape. by rewrite Hw, Hv.
Qed.

Lemma yields_completion_fifth ok what :
  yields (r_completion_fifth ok what) (fun dv => wt_completion ok (fst dv) (snd dv) = true).
Proof.
  unfold r_completion_fifth. yields_step. apply yields_if; intros _.
  { yields_step. apply yields_ret. by destruct ok. }
  apply yields_if; intros Hok.
  - yields_step. apply yields_ret. apply negb_true_iff in Hok. subst ok. cbn. by rewrite H0.
  - apply negb_false_iff in Hok. subst ok. yields_step. apply yields_if; intros Hv; [|apply yields_fail].
    by apply yields_ret.
Qed.

Lemma yields_config_joints what :
  yields (r_capped what 32 (r_f64_fixed 4 "config_info.joints[]")) (fun l => bounded 32 (is_f64s 4) l = true).
Proof. apply yields_capped, yields_fixed. Qed.

Lemma yields_tools what :
  yields (r_capped what 64 r_named_text)
    (fun l => bounded 64 (fun t => is_string (fst t) && is_string (snd t)) l = true).
Proof. apply yields_capped. unfold r_named_text. repeat yields_step. cbn. by bsplit. Qed.

Lemma yields_transform what :
  yields (rd_rep 6 (rd_finite what)) (fun l => is_f64s 6 l && forallb f64_is_finite l = true).
Proof.
  eapply yields_weaken.
  - apply (yields_rep 6 _ (fun v => is_uint 64 v && f64_is_finite v = true)). unfold rd_finite.
    yields_step. apply yields_if; intros Hf; [|apply yields_fail]. apply yields_ret. by rewrite Hf, H.
  - intros l [Hl Hn]. unfold is_f64s. rewrite (Hn : @length f64 l = 6%nat), Nat.eqb_refl. cbn [andb].
    apply Forall_forallb in Hl. rewrite forallb_forall in Hl.
    bsplit; apply forallb_forall; intros x Hx; specialize (Hl x Hx); by bsplit.
Qed.

Lemma yields_loop_stats : yields r_loop_stats (fun s => wt_loop_stats s = true).
Proof. unfold r_loop_stats. repeat yields_step. unfold wt_loop_stats. cbn. by bsplit. Qed.

Lemma yields_tool_state what : yields (rd_enum what : Rd ToolState) (fun _ => True).
Proof. apply yields_enum. Qed.
Lemma yields_action_state what : yields (rd_enum what : Rd ActionState) (fun _ => True).
Proof. apply yields_enum. Qed.

#[export] Hint Resolve yields_tool_status yields_opt_tool_status yields_bus_nodes yields_shapes
  yields_completion_fifth yields_config_joints yields_tools yields_transform yields_loop_stats
  yields_tool_state yields_action_state : yields.

Lemma yields_fields tag n : yields (decode_fields tag n) (fun q => wt_result q = true).
Proof.
  destruct tag; cbn [decode_fields]; yields_step; repeat yields_step; cbn [wt_result]; cbn beta in *; bsplit; try done.
  by apply negb_false_iff.
Qed.

Lemma yields_wire_tag {A} `{WireEnum A} : yields (rd_wire_tag : Rd (Z * A)) (fun _ => True).
Proof. unfold rd_wire_tag. yields_step. destruct (from_wire a); [by apply yields_ret|done]. Qed.

Lemma yields_result : yields decode_result (fun q => wt_result q = true).
Proof.
  unfold decode_result. yields_step. apply yields_if; intros _; [apply yields_fail|].
  eapply yields_bind; [apply yields_wire_tag|]. intros t _. apply yields_fields.
Qed.

#[export] Hint Resolve yields_fields yields_wire_tag yields_result : yields.

Lemma yields_body tag raw req n :
  is_uint 32 req = true -> yields (decode_body tag raw req n) (fun r => wt_reply r = true).
Proof.
  intros Hr. destruct tag; cbn [decode_body]; repeat yields_step; cbn [wt_reply opt_ok]; bsplit; try done.
  eapply (yields_bind _ _ (fun dv => wt_completion a0 (fst dv) (snd dv) = true)).
  - apply yields_if; intros _; [apply yields_completion_fifth|]. apply yields_ret. by destruct a0.
  - intros dv Hdv. apply yields_ret. cbn [wt_reply]. by bsplit.
Qed.

(** Whatever reaches the client, a reply it accepts is well typed - ids and
    indexes in range, lists within their caps, strings valid, execution scales
    consistent, an error only with a failure and a verdict only with a success -
    and writing it again is read as the same reply. *)
Lemma decode_reply_sound data r :
  is_bytes data = true -> decode_reply data = Ok r ->
  wt_reply r = true /\ (slice_ok (encode_reply r) -> decode_reply (encode_reply r) = Ok r).
Proof.
  intros Hb Hd. assert (Hw : wt_reply r = true).
  { unfold decode_reply in Hd. assert (Hy : yields rd_reply (fun r => wt_reply r = true)).
    { unfold rd_reply. yields_step. apply yields_if; intros _; [apply yields_fail|].
      eapply yields_bind; [apply yields_wire_tag|]. intros t _. yields_step.
      eapply yields_bind; [by apply yields_body|]. intros q Hq. yields_step. by apply yields_ret. }
    specialize (Hy (reader_new data)). unfold rd_ok, reader_new in Hy. cbn [rd_data rd_pos] in Hy.
    pose proof (blen_nonneg data). unfold reader_new in Hd.
    destruct (rd_reply _) as [[v r']|]; [|done]. injection Hd as <-. apply Hy. split; [done|lia]. }
  split; [done|]. intros. by apply encode_decode_reply.
Qed.

Lemma decode_reply_sound_witness :
  wt_reply (Rp_Response 513 sample_status) = true /\
  (slice_ok (encode_reply (Rp_Response 513 sample_status)) ->
   decode_reply (encode_reply (Rp_Response 513 sample_status)) = Ok (Rp_Response 513 sample_status)).
Proof.
  apply (decode_reply_sound (encode_reply (Rp_Response 513 sample_status))); vm_compute; reflexivity.
Defined.
