(* ===== verification/Status.v ===== *)
(** * Status: the broadcast STATUS packet (crates/par6-proto/src/status.rs)

    The packet with its nested parts, [encode_status_into], [decode_status] with
    its forward-compatible tail, and the version peek.  The theorems are in
    [StatusProps]. *)
From S2P Require Import Prelude F64 Wire Enums Command CommandCodec WireError Reply.

Definition STATUS_LEN : Z := 44.
Definition MAX_WARNINGS : Z := 64.
Definition MAX_NODE_SLOTS : Z := 32.
Definition PROTO_VERSION : Z := 7.
Definition IO_SLOTS : nat := 11.

(** ** Data *)

Record DriveHealthWire := mkDriveHealth {
  dh_temperatures_c : list f64;
  dh_currents_ma : list f64;
  dh_bus_voltage_v : option f64;
  dh_faults : list (list bytes);
}.

Record LoopHealthWire := mkLoopHealth { lh_p99_period_s : f64; lh_overruns : Z }.

(** The state is a [LinkState] value. *)
Record LinkHealthWire := mkLinkHealthWire {
  lhw_state : Z;
  lhw_restarts : Z;
  lhw_tx_errors : Z;
  lhw_rx_frames : Z;
}.

(** The pairs are [HomingJointState] and [HomingPhase] values. *)
Record HomingWire := mkHomingWire {
  hw_active : bool;
  hw_sequence_step : Z;
  hw_joints : list (Z * Z);
}.

Record Status := mkStatus {
  st_proto_version : Z;
  st_controller_id : Z;
  st_seq : Z;
  st_mono_time_ns : Z;
  st_link_ok : Z;
  st_data_age_ms : Z;
  st_pose : list f64;
  st_angles : list f64;
  st_speeds : list f64;
  st_io : list Z;
  st_action_current : bytes;
  st_action_state : ActionState;
  st_joint_en : list Z;
  st_cart_en_wrf : list Z;
  st_cart_en_trf : list Z;
  st_executing_index : Z;
  st_completed_index : Z;
  st_last_checkpoint : bytes;
  st_error : option WireError;
  st_queued_segments : Z;
  st_queued_duration : f64;
  st_action_params : bytes;
  st_tool_status : option ToolStatusWire;
  st_tcp_speed : f64;
  st_simulator_active : bool;
  st_collision_active : bool;
  st_collision_pairs : list (bytes * bytes);
  st_scene_epoch : Z;
  st_accepted_index : Z;
  st_homed : bool;
  st_torques : list f64;
  st_mode : ControllerMode;
  st_enabled : bool;
  st_gravity_comp : bool;
  st_warnings : list WireError;
  st_link_health : LinkHealthWire;
  st_homing : HomingWire;
  st_torques_ext : list f64;
  st_paused : bool;
  st_drive_health : DriveHealthWire;
  st_loop_health : LoopHealthWire;
  st_session_id : Z;
  st_motion_profile : bytes;
}.

(** [Status::default]. *)
Definition status_default : Status :=
  mkStatus PROTO_VERSION 0 0 0 0 0 (replicate POSE_ELEMS f64_0) (replicate NUM_JOINTS f64_0)
    (replicate NUM_JOINTS f64_0) (replicate IO_SLOTS 0) [] AS_Idle (replicate EN_SLOTS 1)
    (replicate EN_SLOTS 1) (replicate EN_SLOTS 1) (-1) (-1) [] None 0 f64_0 [] None f64_0 false false []
    0 (-1) false (replicate NUM_JOINTS f64_0) CM_Booting false false [] (mkLinkHealthWire 0 0 0 0)
    (mkHomingWire false 0 []) (replicate NUM_JOINTS f64_0) false (mkDriveHealth [] [] None [])
    (mkLoopHealth f64_0 0) 0 [].

(** ** Encode *)

Definition w_pair (p : bytes * bytes) : bytes := w_array 2 ++ w_str (fst p) ++ w_str (snd p).

Definition w_link_health (l : LinkHealthWire) : bytes :=
  w_array 4 ++ w_uint (lhw_state l) ++ w_uint (lhw_restarts l) ++ w_uint (lhw_tx_errors l) ++
  w_uint (lhw_rx_frames l).

Definition w_homing_joint (j : Z * Z) : bytes := w_array 2 ++ w_uint (fst j) ++ w_uint (snd j).

Definition w_homing (h : HomingWire) : bytes :=
  w_array 3 ++ w_bool (hw_active h) ++ w_uint (hw_sequence_step h) ++ w_seq w_homing_joint (hw_joints h).

Definition w_drive_health (d : DriveHealthWire) : bytes :=
  w_array 4 ++ w_f64s (dh_temperatures_c d) ++ w_f64s (dh_currents_ma d) ++ w_opt_f64 (dh_bus_voltage_v d) ++
  w_seq (w_seq w_str) (dh_faults d).

Definition w_loop_health (l : LoopHealthWire) : bytes :=
  w_array 2 ++ w_f64 (lh_p99_period_s l) ++ w_uint (lh_overruns l).

(** Everything after the message tag. *)
Definition status_fields (s : Status) : bytes :=
  w_uint (st_proto_version s) ++ w_uint (st_controller_id s) ++ w_uint (st_seq s) ++
  w_uint (st_mono_time_ns s) ++ w_uint (st_link_ok s) ++ w_uint (st_data_age_ms s) ++
  w_f64s (st_pose s) ++ w_f64s (st_angles s) ++ w_f64s (st_speeds s) ++ w_u8s (st_io s) ++
  w_str (st_action_current s) ++ w_uint (wire (st_action_state s)) ++ w_u8s (st_joint_en s) ++
  w_u8s (st_cart_en_wrf s) ++ w_u8s (st_cart_en_trf s) ++ w_int (st_executing_index s) ++
  w_int (st_completed_index s) ++ w_str (st_last_checkpoint s) ++ w_option encode_error (st_error s) ++
  w_uint (st_queued_segments s) ++ w_f64 (st_queued_duration s) ++ w_str (st_action_params s) ++
  w_opt_tool_status (st_tool_status s) ++ w_f64 (st_tcp_speed s) ++ w_bool (st_simulator_active s) ++
  w_bool (st_collision_active s) ++ w_seq w_pair (st_collision_pairs s) ++ w_uint (st_scene_epoch s) ++
  w_int (st_accepted_index s) ++ w_bool (st_homed s) ++ w_f64s (st_torques s) ++
  w_uint (wire (st_mode s)) ++ w_bool (st_enabled s) ++ w_bool (st_gravity_comp s) ++
  w_seq encode_error (st_warnings s) ++ w_link_health (st_link_health s) ++ w_homing (st_homing s) ++
  w_f64s (st_torques_ext s) ++ w_bool (st_paused s) ++ w_drive_health (st_drive_health s) ++
  w_loop_health (st_loop_health s) ++ w_uint (st_session_id s) ++ w_str (st_motion_profile s).

(** [encode_status_into]: the contents of the buffer. *)
Definition encode_status (s : Status) : bytes :=
  w_array STATUS_LEN ++ w_uint (wire MT_Status) ++ status_fields s.

(** ** Decode *)

Definition r_pair : Rd (bytes * bytes) :=
  let* n := rd_array_len in
  let* _ := expect_arity "collision pair" n 2 in
  let* a := rd_str in
  let* b := rd_str in
  rret (a, b).

(** A byte that has to be a value of an enum. *)
Definition rd_u8_enum (A : Type) `{WireEnum A} (what : string) (name : string) : Rd Z :=
  let* v := rd_u8 what in
  match (from_wire v : option A) with
  | Some _ => rret v
  | None => rfail (InvalidEnum name v)
  end.

Definition r_link_health : Rd LinkHealthWire :=
  let* n := rd_array_len in
  let* _ := expect_arity "status.link_health" n 4 in
  let* state := rd_u8_enum LinkState "status.link_health.state" "link state" in
  let* restarts := rd_try 32 "status.link_health.restarts" (WText "exceeds u32") in
  let* tx_errors := rd_uint in
  let* rx_frames := rd_uint in
  rret (mkLinkHealthWire state restarts tx_errors rx_frames).

Definition r_homing_joint : Rd (Z * Z) :=
  let* n := rd_array_len in
  let* _ := expect_arity "status.homing joint" n 2 in
  let* status := rd_u8_enum HomingJointState "status.homing status" "homing status" in
  let* phase := rd_u8_enum HomingPhase "status.homing phase" "homing phase" in
  rret (status, phase).

Definition r_homing : Rd HomingWire :=
  let* n := rd_array_len in
  let* _ := expect_arity "status.homing" n 3 in
  let* active := rd_bool in
  let* sequence_step := rd_u8 "status.homing.sequence_step" in
  let* joints := r_seq "status.homing.joints" MAX_NODE_SLOTS r_homing_joint in
  rret (mkHomingWire active sequence_step joints).

Definition r_labels : Rd (list bytes) := r_seq "status.drive_health.faults[]" MAX_NODE_SLOTS rd_str.

Definition r_drive_health : Rd DriveHealthWire :=
  let* n := rd_array_len in
  let* _ := expect_arity "status.drive_health" n 4 in
  let* temperatures_c := r_seq "status.drive_health.temperatures_c" MAX_NODE_SLOTS rd_f64 in
  let* currents_ma := r_seq "status.drive_health.currents_ma" MAX_NODE_SLOTS rd_f64 in
  let* bus_voltage_v := rd_opt_f64 in
  let* faults := r_seq "status.drive_health.faults" MAX_NODE_SLOTS r_labels in
  rret (mkDriveHealth temperatures_c currents_ma bus_voltage_v faults).

Definition r_loop_health : Rd LoopHealthWire :=
  let* n := rd_array_len in
  let* _ := expect_arity "status.loop_health" n 2 in
  let* p99_period_s := rd_f64 in
  let* overruns := rd_uint in
  rret (mkLoopHealth p99_period_s overruns).

Definition r_status_fields : Rd Status :=
  let* proto_version := rd_u8 "status.proto_version" in
  let* controller_id := rd_try 32 "status.controller_id" (WText "exceeds u32") in
  let* seq := rd_uint in
  let* mono_time_ns := rd_uint in
  let* link_ok := rd_u8 "status.link_ok" in
  let* data_age_ms := rd_try 16 "status.data_age_ms" (WText "exceeds u16") in
  let* pose := r_f64_fixed POSE_ELEMS "status.pose" in
  let* angles := r_f64_fixed NUM_JOINTS "status.angles" in
  let* speeds := r_f64_fixed NUM_JOINTS "status.speeds" in
  let* io := r_u8_dyn "status.io" in
  let* action_current := rd_str in
  let* action_state := rd_enum "action state" in
  let* joint_en := r_u8_fixed EN_SLOTS "status.joint_en" in
  let* cart_en_wrf := r_u8_fixed EN_SLOTS "status.cart_en_wrf" in
  let* cart_en_trf := r_u8_fixed EN_SLOTS "status.cart_en_trf" in
  let* executing_index := rd_int in
  let* completed_index := rd_int in
  let* last_checkpoint := rd_str in
  let* error := r_option decode_error in
  let* queued_segments := rd_try 32 "status.queued_segments" (WText "exceeds u32") in
  let* queued_duration := rd_f64 in
  let* action_params := rd_str in
  let* tool_status := r_opt_tool_status in
  let* tcp_speed := rd_f64 in
  let* simulator_active := rd_bool in
  let* collision_active := rd_bool in
  let* collision_pairs := r_seq "collision pairs" (MAX_SHAPES * MAX_SHAPES) r_pair in
  let* scene_epoch := rd_uint in
  let* accepted_index := rd_int in
  let* homed := rd_bool in
  let* torques := r_f64_fixed NUM_JOINTS "status.torques" in
  let* mode := rd_enum "controller mode" in
  let* enabled := rd_bool in
  let* gravity_comp := rd_bool in
  let* warnings := r_seq "status.warnings" MAX_WARNINGS decode_error in
  let* link_health := r_link_health in
  let* homing := r_homing in
  let* torques_ext := r_f64_fixed NUM_JOINTS "status.torques_ext" in
  let* paused := rd_bool in
  let* drive_health := r_drive_health in
  let* loop_health := r_loop_health in
  let* session_id := rd_uint in
  let* motion_profile := rd_str in
  rret (mkStatus proto_version controller_id seq mono_time_ns link_ok data_age_ms pose angles speeds io
    action_current action_state joint_en cart_en_wrf cart_en_trf executing_index completed_index
    last_checkpoint error queued_segments queued_duration action_params tool_status tcp_speed
    simulator_active collision_active collision_pairs scene_epoch accepted_index homed torques mode
    enabled gravity_comp warnings link_health homing torques_ext paused drive_health loop_health
    session_id motion_profile).

Definition rd_status : Rd Status :=
  let* n := rd_array_len in
  if n <? STATUS_LEN then rfail (Arity "STATUS packet" STATUS_LEN n)
  else
  let* raw := rd_int in
  if negb (raw =? wire MT_Status) then rfail (UnknownTag raw)
  else
  let* s := r_status_fields in
  let* _ := rd_for (n - STATUS_LEN) skip_value in
  let* _ := rd_finish in
  rret s.

Definition decode_status (data : bytes) : result DecodeError Status :=
  match rd_status (reader_new data) with Ok (v, _) => Ok v | Err e => Err e end.

(** [peek_status_proto_version]. *)
Definition peek_status_proto_version (data : bytes) : option Z :=
  match rd_array_len (reader_new data) with
  | Err _ => None
  | Ok (n, r) =>
      if n <? 2 then None
      else
        match rd_int r with
        | Err _ => None
        | Ok (tag, r) =>
            if negb (tag =? wire MT_Status) then None
            else
              match rd_uint r with
              | Ok (v, _) => if is_uint 8 v then Some v else None
              | Err _ => None
              end
        end
  end.
