(* ===== verification/StatusProps.v ===== *)
(** * StatusProps: the STATUS broadcast is read as it was sent, by newer and older clients

    The ranges of a packet, the readers undoing the writers, the forward-compatible
    tail, the version peek, what is read from any datagram. *)
From S2P Require Import Prelude F64 Wire Skip Enums Command CommandCodec WireError Reply ReplyProps Status.

(** ** Ranges *)

Definition wt_pair (p : bytes * bytes) : bool := is_string (fst p) && is_string (snd p).

(** A byte that is a value of the enum. *)
Definition is_value (A : Type) `{WireEnum A} (v : Z) : bool :=
  is_uint 8 v && match (from_wire v : option A) with Some _ => true | None => false end.

Definition wt_link_health (l : LinkHealthWire) : bool :=
  is_value LinkState (lhw_state l) && is_uint 32 (lhw_restarts l) && is_uint 64 (lhw_tx_errors l)
  && is_uint 64 (lhw_rx_frames l).

Definition wt_homing_joint (j : Z * Z) : bool :=
  is_value HomingJointState (fst j) && is_value HomingPhase (snd j).

Definition wt_homing (h : HomingWire) : bool :=
  is_uint 8 (hw_sequence_step h) && bounded MAX_NODE_SLOTS wt_homing_joint (hw_joints h).

Definition wt_drive_health (d : DriveHealthWire) : bool :=
  bounded MAX_NODE_SLOTS (is_uint 64) (dh_temperatures_c d)
  && bounded MAX_NODE_SLOTS (is_uint 64) (dh_currents_ma d) && is_opt (is_uint 64) (dh_bus_voltage_v d)
  && bounded MAX_NODE_SLOTS (bounded MAX_NODE_SLOTS is_string) (dh_faults d).

Definition wt_loop_health (l : LoopHealthWire) : bool :=
  is_uint 64 (lh_p99_period_s l) && is_uint 64 (lh_overruns l).

Definition wt_status (s : Status) : bool :=
  is_uint 8 (st_proto_version s) && is_uint 32 (st_controller_id s) && is_uint 64 (st_seq s) &&
  is_uint 64 (st_mono_time_ns s) && is_uint 8 (st_link_ok s) && is_uint 16 (st_data_age_ms s) &&
  is_f64s POSE_ELEMS (st_pose s) && is_f64s NUM_JOINTS (st_angles s) &&
  is_f64s NUM_JOINTS (st_speeds s) && bounded MAX_IO_SLOTS (is_uint 8) (st_io s) &&
  is_string (st_action_current s) && is_u8s EN_SLOTS (st_joint_en s) &&
  is_u8s EN_SLOTS (st_cart_en_wrf s) && is_u8s EN_SLOTS (st_cart_en_trf s) &&
  is_sint 64 (st_executing_index s) && is_sint 64 (st_completed_index s) &&
  is_string (st_last_checkpoint s) && opt_ok wt_error (st_error s) &&
  is_uint 32 (st_queued_segments s) && is_uint 64 (st_queued_duration s) &&
  is_string (st_action_params s) && opt_ok wt_tool_status (st_tool_status s) &&
  is_uint 64 (st_tcp_speed s) && bounded (MAX_SHAPES * MAX_SHAPES) wt_pair (st_collision_pairs s) &&
  is_uint 64 (st_scene_epoch s) && is_sint 64 (st_accepted_index s) &&
  is_f64s NUM_JOINTS (st_torques s) && bounded MAX_WARNINGS wt_error (st_warnings s) &&
  wt_link_health (st_link_health s) && wt_homing (st_homing s) &&
  is_f64s NUM_JOINTS (st_torques_ext s) && wt_drive_health (st_drive_health s) &&
  wt_loop_health (st_loop_health s) && is_uint 64 (st_session_id s) && is_string (st_motion_profile s).

(** ** Reading back *)

Lemma reads_pair p : wt_pair p = true -> reads r_pair (w_pair p) p.
Proof.
  unfold wt_pair. intros Hw. bsplit. unfold r_pair, w_pair. eapply reads_bind; [by apply reads_array_len|].
  apply reads_expect; [done|]. repeat reads_step. destruct p. apply reads_ret.
Qed.

Lemma reads_u8_enum (A : Type) `{WireEnum A} what name v :
  is_value A v = true -> reads (rd_u8_enum A what name) (w_uint v) v.
Proof.
  unfold is_value. intros Hv. bsplit. unfold rd_u8_enum. eapply reads_bind_last; [by apply reads_u8|].
  destruct (from_wire v); [apply reads_ret|done].
Qed.

Lemma reads_link_state what name v : is_value LinkState v = true -> reads (rd_u8_enum LinkState what name) (w_uint v) v.
Proof. apply reads_u8_enum. Qed.
Lemma reads_joint_state what name v :
  is_value HomingJointState v = true -> reads (rd_u8_enum HomingJointState what name) (w_uint v) v.
Proof. apply reads_u8_enum. Qed.
Lemma reads_homing_phase what name v :
  is_value HomingPhase v = true -> reads (rd_u8_enum HomingPhase what name) (w_uint v) v.
Proof. apply reads_u8_enum. Qed.
Lemma reads_mode what (x : ControllerMode) : reads (rd_enum what) (w_uint (wire x)) x.
Proof. apply reads_enum. Qed.
Lemma reads_u16 what why v : is_uint 16 v = true -> reads (rd_try 16 what why) (w_uint v) v.
Proof. intros. by apply reads_rd_try. Qed.
Lemma reads_u32 what why v : is_uint 32 v = true -> reads (rd_try 32 what why) (w_uint v) v.
Proof. intros. by apply reads_rd_try. Qed.

#[local] Hint Resolve reads_link_state reads_joint_state reads_homing_phase reads_mode reads_u16 reads_u32 : reads.

Lemma reads_link_health l : wt_link_health l = true -> reads r_link_health (w_link_health l) l.
Proof.
  unfold wt_link_health. intros Hw. bsplit. unfold r_link_health, w_link_health.
  eapply reads_bind; [by apply reads_array_len|]. apply reads_expect; [done|]. repeat reads_step.
  destruct l. apply reads_ret.
Qed.

Lemma reads_homing_joint j : wt_homing_joint j = true -> reads r_homing_joint (w_homing_joint j) j.
Proof.
  unfold wt_homing_joint. intros Hw. bsplit. unfold r_homing_joint, w_homing_joint.
  eapply reads_bind; [by apply reads_array_len|]. apply reads_expect; [done|]. repeat reads_step.
  destruct j. apply reads_ret.
Qed.

Lemma reads_homing h : wt_homing h = true -> reads r_homing (w_homing h) h.
Proof.
  unfold wt_homing. intros Hw. bsplit. unfold r_homing, w_homing.
  eapply reads_bind; [by apply reads_array_len|]. apply reads_expect; [done|]. do 2 reads_step.
  eapply reads_bind_last.
  - apply (reads_bounded _ _ _ _ wt_homing_joint); [done|apply reads_homing_joint|done].
  - destruct h. apply reads_ret.
Qed.

Lemma reads_slots what l :
  bounded MAX_NODE_SLOTS (is_uint 64) l = true -> reads (r_seq what MAX_NODE_SLOTS rd_f64) (w_f64s l) l.
Proof. intros Hl. apply (reads_bounded _ _ _ _ (is_uint 64)); [done|apply reads_f64|done]. Qed.

Lemma reads_faults what l :
  bounded MAX_NODE_SLOTS (bounded MAX_NODE_SLOTS is_string) l = true ->
  reads (r_seq what MAX_NODE_SLOTS r_labels) (w_seq (w_seq w_str) l) l.
Proof.
  intros Hl. apply (reads_bounded _ _ _ _ (bounded MAX_NODE_SLOTS is_string)); [done| |done].
  intros x Hx. apply (reads_bounded _ _ _ _ is_string); [done|apply reads_string|done].
Qed.

#[local] Hint Resolve reads_slots reads_faults : reads.

Lemma reads_drive_health d : wt_drive_health d = true -> reads r_drive_health (w_drive_health d) d.
Proof.
  unfold wt_drive_health. intros Hw. bsplit. unfold r_drive_health, w_drive_health.
  eapply reads_bind; [by apply reads_array_len|]. apply reads_expect; [done|]. repeat reads_step.
  destruct d. apply reads_ret.
Qed.

Lemma reads_loop_health l : wt_loop_health l = true -> reads r_loop_health (w_loop_health l) l.
Proof.
  unfold wt_loop_health. intros Hw. bsplit. unfold r_loop_health, w_loop_health.
  eapply reads_bind; [by apply reads_array_len|]. apply reads_expect; [done|]. repeat reads_step.
  destruct l. apply reads_ret.
Qed.

Lemma reads_pairs what l :
  bounded (MAX_SHAPES * MAX_SHAPES) wt_pair l = true ->
  reads (r_seq what (MAX_SHAPES * MAX_SHAPES) r_pair) (w_seq w_pair l) l.
Proof. intros Hl. apply (reads_bounded _ _ _ _ wt_pair); [done|apply reads_pair|done]. Qed.

Lemma reads_warnings what l :
  bounded MAX_WARNINGS wt_error l = true -> reads (r_seq what MAX_WARNINGS decode_error) (w_seq encode_error l) l.
Proof. intros Hl. apply (reads_bounded _ _ _ _ wt_error); [done|apply reads_error|done]. Qed.

#[local] Hint Resolve reads_link_health reads_homing reads_drive_health reads_loop_health reads_pairs
  reads_warnings : reads.

Lemma reads_status s : wt_status s = true -> reads r_status_fields (status_fields s) s.
Proof.
  unfold wt_status. intros Hw. bsplit. unfold r_status_fields, status_fields. repeat reads_step.
  destruct s. apply reads_ret.
Qed.

(** The packet of a producer that appends [tail] to the fields this decoder knows. *)
Definition encode_status_newer (s : Status) (tail : list value) : bytes :=
  w_array (STATUS_LEN + Z.of_nat (length tail)) ++ w_uint (wire MT_Status) ++ status_fields s ++
  concat (map w_value tail).

Lemma encode_status_plain s : encode_status_newer s [] = encode_status s.
Proof. unfold encode_status_newer, encode_status. cbn [length Z.of_nat map concat]. by rewrite Z.add_0_r, app_nil_r. Qed.

Lemma reads_tail (tail : list value) :
  forallb wt_value tail = true -> Forall (fun v => (levels v <= S MAX_SKIP_DEPTH)%nat) tail ->
  reads (rd_for (Z.of_nat (length tail)) skip_value) (concat (map w_value tail)) tt.
Proof.
  intros Hw Hl. rewrite <- (length_map w_value tail). apply reads_for.
  - apply List.Forall_map, List.Forall_forall. intros. apply w_value_nonempty.
  - apply List.Forall_map. rewrite List.Forall_forall in *. rewrite forallb_forall in Hw.
    intros v Hv. apply skip_value_left_reads; auto.
Qed.

(** C30: STATUS is read by every client that knows its fields.  A packet is decoded
    to exactly the status that was broadcast, also when a newer producer has
    appended fields of its own - any values nested no deeper than the skipper
    goes -, and its protocol version can be read off without decoding it. *)
Theorem status_is_forward_compatible s tail :
  wt_status s = true -> forallb wt_value tail = true ->
  Forall (fun v => (levels v <= S MAX_SKIP_DEPTH)%nat) tail -> Z.of_nat (length tail) < 2 ^ 31 ->
  slice_ok (encode_status_newer s tail) ->
  decode_status (encode_status_newer s tail) = Ok s /\
  peek_status_proto_version (encode_status_newer s tail) = Some (st_proto_version s).
Proof.
  intros Hw Ht Hl Hn Hok.
  assert (Hhd : is_uint 32 (STATUS_LEN + Z.of_nat (length tail)) = true) by (apply is_uint_spec; unfold STATUS_LEN; lia).
  assert (Htag : reads rd_int (w_uint (wire MT_Status)) (wire MT_Status)) by (apply (reads_int 3); done).
  split.
  - unfold decode_status. rewrite (reads_end_run rd_status _ s); [done|done|].
    unfold rd_status, encode_status_newer. eapply reads_end_bind; [by apply reads_array_len|].
    replace (STATUS_LEN + Z.of_nat (length tail) <? STATUS_LEN) with false by (symmetry; apply Z.ltb_ge; lia).
    eapply reads_end_bind; [exact Htag|]. rewrite Z.eqb_refl. cbn [negb].
    eapply reads_end_bind; [by apply reads_status|]. rewrite Z.add_simpl_l.
    eapply reads_end_last; [by apply reads_tail|]. apply reads_end_finish, reads_ret.
  - assert (Hv : is_uint 8 (st_proto_version s) = true) by (unfold wt_status in Hw; by bsplit).
    unfold peek_status_proto_version, encode_status_newer, status_fields in *.
    rewrite <- !app_assoc in *. unfold reader_new.
    match type of Hok with slice_ok (?a ++ ?b ++ ?c ++ ?rest) =>
      pose proof (reads_array_len _ Hhd [] (b ++ c ++ rest) Hok) as R1;
      pose proof (Htag a (c ++ rest) Hok) as R2;
      pose proof (reads_uint (st_proto_version s) ltac:(by apply (is_uint_weaken 8)) (a ++ b) rest) as R3 end.
    rewrite <- app_assoc in R3. specialize (R3 Hok). cbn [app] in R1. change (blen []) with 0 in R1. rewrite R1.
    replace (STATUS_LEN + Z.of_nat (length tail) <? 2) with false by (symmetry; apply Z.ltb_ge; unfold STATUS_LEN; lia).
    rewrite Z.add_0_l, R2, Z.eqb_refl. cbn [negb]. rewrite blen_app in R3. rewrite R3, Hv. done.
Qed.

(** A broadcast of a running arm with a warning and a colliding pair. *)
Definition sample_broadcast : Status :=
  mkStatus 7 1 513 1000 1 4 (replicate POSE_ELEMS f64_1) (replicate NUM_JOINTS f64_m1)
    (replicate NUM_JOINTS f64_0) [0; 1; 1] (str_bytes "move_l") AS_Executing (replicate EN_SLOTS 1)
    (replicate EN_SLOTS 0) (replicate EN_SLOTS 1) 9 (-1) [] None 3 f64_60 [] None f64_0_1 true true
    [(str_bytes "link3", str_bytes "table")] 5 12 true (replicate NUM_JOINTS f64_0) CM_Exec true false
    [sample_failure] (mkLinkHealthWire 1 0 2 90000) (mkHomingWire false 0 [(2, 0)])
    (replicate NUM_JOINTS f64_0) false (mkDriveHealth [f64_60] [f64_1] None [[str_bytes "vbus"]])
    (mkLoopHealth f64_0_1 7) 77 (str_bytes "jerk").

Lemma status_is_forward_compatible_witness :
  let tail := [VStr (str_bytes "new"); VArray [VNil; VInt (-3)]] in
  decode_status (encode_status_newer sample_broadcast tail) = Ok sample_broadcast /\
  peek_status_proto_version (encode_status_newer sample_broadcast tail) = Some 7.
Proof.
  apply status_is_forward_compatible; [by vm_compute|by vm_compute| |done|by vm_compute].
  repeat constructor; vm_compute; lia.
Defined.

(** ** What is read from any datagram *)

Lemma yields_u8_enum (A : Type) `{WireEnum A} what name :
  yields (rd_u8_enum A what name) (fun v => is_value A v = true).
Proof.
  unfold rd_u8_enum. yields_step. destruct (from_wire a : option A) as [x|] eqn:E; [|apply yields_fail].
  apply yields_ret. unfold is_value. by rewrite E, H0.
Qed.

Lemma yields_link_state what name : yields (rd_u8_enum LinkState what name) (fun v => is_value LinkState v = true).
Proof. apply yields_u8_enum. Qed.
Lemma yields_joint_state what name :
  yields (rd_u8_enum HomingJointState what name) (fun v => is_value HomingJointState v = true).
Proof. apply yields_u8_enum. Qed.
Lemma yields_homing_phase what name :
  yields (rd_u8_enum HomingPhase what name) (fun v => is_value HomingPhase v = true).
Proof. apply yields_u8_enum. Qed.
Lemma yields_mode what : yields (rd_enum what : Rd ControllerMode) (fun _ => True).
Proof. apply yields_enum. Qed.

#[local] Hint Resolve yields_link_state yields_joint_state yields_homing_phase yields_mode : yields.

Lemma yields_link_health : yields r_link_health (fun l => wt_link_health l = true).
Proof. unfold r_link_health. repeat yields_step. unfold wt_link_health. cbn. by bsplit. Qed.

Lemma yields_homing : yields r_homing (fun h => wt_homing h = true).
Proof.
  unfold r_homing. do 4 yields_step. eapply yields_bind.
  - apply (yields_bounded _ _ _ wt_homing_joint); [done|]. unfold r_homing_joint. repeat yields_step.
    unfold wt_homing_joint. cbn. by bsplit.
  - intros l Hl. apply yields_ret. unfold wt_homing. cbn. by bsplit.
Qed.

Lemma yields_slots what : yields (r_seq what MAX_NODE_SLOTS rd_f64) (fun l => bounded MAX_NODE_SLOTS (is_uint 64) l = true).
Proof. by apply yields_bounded, yields_f64. Qed.

Lemma yields_faults what :
  yields (r_seq what MAX_NODE_SLOTS r_labels) (fun l => bounded MAX_NODE_SLOTS (bounded MAX_NODE_SLOTS is_string) l = true).
Proof. apply yields_bounded; [done|]. by apply yields_bounded, yields_str. Qed.

#[local] Hint Resolve yields_slots yields_faults : yields.

Lemma yields_drive_health : yields r_drive_health (fun d => wt_drive_health d = true).
Proof. unfold r_drive_health. repeat yields_step. unfold wt_drive_health. cbn. by bsplit. Qed.

Lemma yields_loop_health : yields r_loop_health (fun l => wt_loop_health l = true).
Proof. unfold r_loop_health. repeat yields_step. unfold wt_loop_health. cbn. by bsplit. Qed.

Lemma yields_pairs what :
  yields (r_seq what (MAX_SHAPES * MAX_SHAPES) r_pair) (fun l => bounded (MAX_SHAPES * MAX_SHAPES) wt_pair l = true).
Proof.
  apply yields_bounded; [done|]. unfold r_pair. repeat yields_step. unfold wt_pair. cbn. by bsplit.
Qed.

Lemma yields_warnings what :
  yields (r_seq what MAX_WARNINGS decode_error) (fun l => bounded MAX_WARNINGS wt_error l = true).
Proof. by apply yields_bounded, yields_error. Qed.

#[local] Hint Resolve yields_link_health yields_homing yields_drive_health yields_loop_health yields_pairs
  yields_warnings : yields.

Lemma yields_status : yields r_status_fields (fun s => wt_status s = true).
Proof. unfold r_status_fields. repeat yields_step. unfold wt_status. cbn. by bsplit. Qed.

(** Any host on the segment can send a STATUS: whatever the bytes, a packet that
    is accepted is well typed, its lists within their caps and its enum bytes
    values of their enums. *)
Lemma decode_status_sound data s :
  is_bytes data = true -> decode_status data = Ok s -> wt_status s = true.
Proof.
  intros Hb Hd. unfold decode_status in Hd.
  assert (Hy : yields rd_status (fun s => wt_status s = true)).
  { unfold rd_status. yields_step. apply yields_if; intros Hn; [apply yields_fail|].
    yields_step. apply yields_if; intros _; [apply yields_fail|].
    eapply yields_bind; [apply yields_status|]. intros s' Hs.
    eapply (yields_bind _ _ (fun _ => True)); [apply skips_for, advances_skips, skip_value_left_advances|]. intros _ _.
    yields_step. by apply yields_ret. }
  specialize (Hy (reader_new data)). unfold rd_ok, reader_new in *. cbn [rd_data rd_pos] in Hy.
  pose proof (blen_nonneg data). destruct (rd_status _) as [[v r']|]; [|done]. injection Hd as <-.
  apply Hy. split; [done|lia].
Qed.
