(* ===== verification/ServerGate.v ===== *)
(** * ServerGate: what the command plane requires of a command
    (crates/par6-server/src/gating.rs, faults.rs; the snapshot of crates/par6-rt/src/state.rs)

    The gating table with its evaluation, the fields of the core's snapshot the
    server decides on, and the rendering of the core's error latch as wire errors. *)
From stdpp Require Import pretty.
From S2P Require Import Prelude F64 Wire Enums Command WireError BusTypes Ring RtState.

(** ** The snapshot *)

(** The fields of [ExecStatus] the server reads. *)
Record ExecStatus := mkExecStatus {
  xs_samples_remaining : Z;
  xs_paused : bool;
  xs_target_scale : f64;
  xs_stopping : bool;
}.

(** The fields of [StateSnapshot] the command plane decides on; the readings it
    only reports are left out. *)
Record StateSnapshot := mkSnapshot {
  ss_tick : Z;
  ss_mode : Mode;
  ss_state : ArmState;
  ss_homed : bool;
  ss_settle_residual_rad : f64;
  ss_nodes : list NodeState;
  ss_node_freshness : list Freshness;
  ss_gripper_reply : option GripperReply;
  ss_gripper_live_error_bit : bool;
  ss_homing_phase : list RtHomingPhase;
  ss_errors : ErrorList;
  ss_error_active : bool;
  ss_exec : ExecStatus;
  ss_bus_nodes : Z;
  ss_bus_scan_epoch : Z;
}.

Definition exec_status_default : ExecStatus := mkExecStatus 0 false f64_1 false.

Definition snapshot_default : StateSnapshot :=
  mkSnapshot 0 Booting Disabled false f64_0 (replicate NUM_NODES node_default)
    (replicate NUM_NODES Fr_Unknown) None false (replicate NUM_NODES RHP_Idle) [] false
    exec_status_default 0 0.

(** ** The names [{:?}] prints *)

Definition show_mode (m : Mode) : string :=
  match m with
  | Booting => "Booting" | Idle => "Idle" | ActiveError => "ActiveError" | Homing => "Homing"
  | Jog => "Jog" | Stream => "Stream" | Exec => "Exec" | HandGuiding => "HandGuiding"
  | Impedance => "Impedance" | SafetyStop => "SafetyStop" | Flashing => "Flashing"
  end.

Definition show_rt_code (c : ErrorCode) : string :=
  match c with
  | EC_Estop => "Estop" | EC_SwEstop => "SwEstop" | EC_ExecLinkLost => "ExecLinkLost"
  | EC_ExecSettleTimeout => "ExecSettleTimeout" | EC_RtiLinkLost => "RtiLinkLost"
  | EC_StreamFault => "StreamFault" | EC_LoopDegraded => "LoopDegraded"
  | EC_LoopCritical => "LoopCritical" | EC_NotHomed => "NotHomed"
  | EC_Temperature => "Temperature" | EC_Encoder => "Encoder" | EC_Vbus => "Vbus"
  | EC_Driver => "Driver" | EC_Velocity => "Velocity" | EC_Current => "Current"
  | EC_EstopMotor => "EstopMotor" | EC_Watchdog => "Watchdog" | EC_CanLost => "CanLost"
  | EC_CanStale => "CanStale" | EC_HomingFailed => "HomingFailed"
  | EC_GripperFault => "GripperFault"
  | EC_GripperCalibrationFailed => "GripperCalibrationFailed" | EC_BusOff => "BusOff"
  | EC_LinkErrorPassive => "LinkErrorPassive" | EC_TorqueEnvelope => "TorqueEnvelope"
  end.

Definition show_phase (p : RtHomingPhase) : string :=
  match p with
  | RHP_Idle => "Idle" | RHP_Approach => "Approach" | RHP_Dwell => "Dwell"
  | RHP_Backoff => "Backoff" | RHP_Pause => "Pause" | RHP_Release => "Release"
  | RHP_Settle => "Settle" | RHP_PostMove => "PostMove" | RHP_Finished => "Finished"
  end.

(** ** The gating table *)

Record Gate := mkGate { needs_enabled : bool; needs_homed : bool; needs_simulator : bool }.

Definition gate (cmd : CmdType) : Gate :=
  let class := command_class cmd in
  let enabled :=
    match class with CC_Queued | CC_FireAndForget => true | _ => false end in
  match cmd with
  | T_MoveJ | T_MoveJPose | T_MoveL | T_MoveC | T_MoveS | T_MoveP
  | T_ServoJ | T_ServoJPose | T_ServoL => mkGate enabled true false
  | T_JogJ => mkGate enabled false false
  | T_JogL => mkGate enabled true false
  | T_Pause | T_SetExecutionSpeed => mkGate enabled false false
  | T_Teleport => mkGate true false true
  | T_SetPayload => mkGate enabled false false
  | T_SetTcpOffset | T_SetTcpTransform => mkGate false false false
  | T_ResetLoopStats => mkGate false false false
  | _ => mkGate enabled false false
  end.

Definition is_stream (cmd : CmdType) : bool :=
  match cmd with
  | T_ServoJ | T_ServoJPose | T_ServoL | T_JogJ | T_JogL => true
  | _ => false
  end.

Record GateContext := mkGateContext {
  gc_estop_latched : bool;
  gc_enabled : bool;
  gc_homed : bool;
  gc_simulator : bool;
}.

Definition check_gate (tag : CmdType) (ctx : GateContext) : option WireError :=
  let g := gate tag in
  if needs_enabled g && gc_estop_latched ctx then
    Some (make_error WE_SysEstopActive UNATTRIBUTED [])
  else if needs_enabled g && negb (gc_enabled ctx) then
    Some (make_error WE_SysControllerDisabled UNATTRIBUTED
            [("detail"%string, str_bytes "The RT core reports DISABLED.")])
  else if needs_homed g && negb (gc_homed ctx) then
    Some (make_error WE_MotnNotHomed UNATTRIBUTED [])
  else if needs_simulator g && negb (gc_simulator ctx) then
    Some (make_error WE_SysNotSimulator UNATTRIBUTED [])
  else None.

(** ** The core's latch on the wire *)

Definition gripper_fault_code (snap : StateSnapshot) : Z :=
  match ss_gripper_reply snap with
  | Some r =>
      Z.lor (Z.lor (Z.lor (Z.b2z (gr_temperature_error r))
        (Z.shiftl (Z.b2z (gr_timeout_error r)) 1))
        (Z.shiftl (Z.b2z (gr_estop_error r)) 2))
        (Z.shiftl (Z.b2z (ss_gripper_live_error_bit snap)) 3)
  | None => 0
  end.

Definition has_code (errs : ErrorList) (c : ErrorCode) : bool :=
  existsb (fun e => bool_decide (ee_code e = c)) errs.

Definition find_code (errs : ErrorList) (c : ErrorCode) : option ErrorEntry :=
  List.find (fun e => bool_decide (ee_code e = c)) errs.

(** A hard entry of an arm joint. *)
Definition joint_fault (e : ErrorEntry) : bool :=
  negb (is_warning (ee_code e)) &&
  match ee_joint e with Some j => j <? Z.of_nat MAX_JOINTS | None => false end.

Definition show_joint (j : option Z) : bytes :=
  match j with Some j => show_int j | None => [] end.

Section faults.
Context `{!Show}.

Definition rt_standing_error (snap : StateSnapshot) : option WireError :=
  if negb (ss_error_active snap) then None
  else
  let errs := ss_errors snap in
  Some (
  if has_code errs EC_Estop || has_code errs EC_SwEstop then
    make_error WE_SysEstopActive UNATTRIBUTED []
  else if has_code errs EC_BusOff then make_error WE_SysBusOff UNATTRIBUTED []
  else match find_code errs EC_TorqueEnvelope with
  | Some e =>
      make_error WE_SysTorqueEnvelope UNATTRIBUTED
        [("joint"%string, show_int (default 0 (ee_joint e)))]
  | None =>
  if has_code errs EC_LoopCritical then make_error WE_SysLoopCritical UNATTRIBUTED []
  else if has_code errs EC_ExecLinkLost then make_error WE_SysExecLinkLost UNATTRIBUTED []
  else if has_code errs EC_RtiLinkLost then make_error WE_SysRtiLinkLost UNATTRIBUTED []
  else if has_code errs EC_StreamFault then make_error WE_SysStreamFault UNATTRIBUTED []
  else match find_code errs EC_ExecSettleTimeout with
  | Some e =>
      make_error WE_MotnSettleTimeout UNATTRIBUTED
        [("joint"%string, show_joint (ee_joint e));
         ("residual_rad"%string, show_f64 (Fixed 4) (ss_settle_residual_rad snap))]
  | None =>
  if has_code errs EC_GripperFault || has_code errs EC_GripperCalibrationFailed then
    make_error WE_MotnToolFault UNATTRIBUTED
      [("fault_code"%string, show_int (gripper_fault_code snap))]
  else match List.find joint_fault errs with
  | Some e =>
      make_error WE_SysJointFault UNATTRIBUTED
        [("joint"%string, show_int (default 0 (ee_joint e)));
         ("kind"%string, str_bytes (show_rt_code (ee_code e)))]
  | None =>
      let names := map (fun e => str_bytes (show_rt_code (ee_code e)))
                     (List.filter (fun e => negb (is_warning (ee_code e))) errs) in
      make_error WE_MotnTickFailed UNATTRIBUTED
        [("detail"%string, str_bytes "the RT core latched " ++ join_bytes (str_bytes ", ") names)]
  end end end).

Definition wire_warning (e : ErrorEntry) (snap : StateSnapshot) : option WireError :=
  let joint := show_joint (ee_joint e) in
  match ee_code e with
  | EC_CanStale => Some (make_error WE_SysCanStale UNATTRIBUTED [("joint"%string, joint)])
  | EC_LoopDegraded => Some (make_error WE_SysLoopDegraded UNATTRIBUTED [])
  | EC_NotHomed => Some (make_error WE_MotnNotHomed UNATTRIBUTED [])
  | EC_LinkErrorPassive => Some (make_error WE_SysLinkErrorPassive UNATTRIBUTED [])
  | EC_HomingFailed =>
      let phase := default RHP_Idle (j ← ee_joint e; ss_homing_phase snap !! Z.to_nat j) in
      Some (make_error WE_MotnHomingFailed UNATTRIBUTED
              [("joint"%string, joint); ("phase"%string, str_bytes (show_phase phase))])
  | _ => None
  end.

Definition rt_warnings (snap : StateSnapshot) : list WireError :=
  omap (fun e => wire_warning e snap) (ss_errors snap).

End faults.

(** ** What the latch shows *)

(** A snapshot as the core publishes it: the flag is the latch's verdict. *)
Definition snapshot_ok (snap : StateSnapshot) : Prop :=
  ss_error_active snap = el_any_hard (ss_errors snap).

Lemma wire_warning_some `{!Show} e snap :
  is_Some (wire_warning e snap) <-> is_warning (ee_code e) = true.
Proof.
  unfold wire_warning.
  destruct (ee_code e); cbn; split; intros Hs; eauto; try discriminate; by destruct Hs.
Qed.

Lemma rt_warnings_length `{!Show} snap :
  length (rt_warnings snap) = length (List.filter (fun e => is_warning (ee_code e)) (ss_errors snap)).
Proof.
  unfold rt_warnings. induction (ss_errors snap) as [|e l IH]; [done|]. cbn.
  pose proof (wire_warning_some e snap) as Hw.
  destruct (wire_warning e snap), (is_warning (ee_code e)); cbn; try lia.
  - discriminate (proj1 Hw (mk_is_Some _ _ eq_refl)).
  - destruct Hw as [_ Hw]. by destruct Hw.
Qed.

Lemma rt_standing_some `{!Show} snap :
  is_Some (rt_standing_error snap) <-> ss_error_active snap = true.
Proof. 
  unfold rt_standing_error. destruct (ss_error_active snap); cbn [negb]; split; intros Hs.
  - done.
  - by eexists.
  - by destruct Hs.
  - done.
Qed.

(** The core's latch always reaches the clients.  Of a published snapshot, the
    STATUS warnings are exactly the renderings of its warning entries, in order and
    none lost; an error stands exactly when a hard entry is latched; and while an
    e-stop, hardware or software, is among them, it is the error that stands,
    whatever else is latched. *)
Lemma latch_reaches_clients `{!Show} snap :
  snapshot_ok snap ->
  rt_warnings snap = omap (fun e => wire_warning e snap)
    (List.filter (fun e => is_warning (ee_code e)) (ss_errors snap)) /\
  length (rt_warnings snap) =
    length (List.filter (fun e => is_warning (ee_code e)) (ss_errors snap)) /\
  (is_Some (rt_standing_error snap) <->
   exists e, In e (ss_errors snap) /\ is_warning (ee_code e) = false) /\
  ((exists e, In e (ss_errors snap) /\ (ee_code e = EC_Estop \/ ee_code e = EC_SwEstop)) ->
   rt_standing_error snap = Some (make_error WE_SysEstopActive UNATTRIBUTED [])).
Proof.
  intros Hok. unfold snapshot_ok in Hok. split_and!.
  - clear Hok. unfold rt_warnings. induction (ss_errors snap) as [|e l IH]; [done|]. cbn.
    pose proof (wire_warning_some e snap) as Hw. rewrite IH.
    destruct (is_warning (ee_code e)); [done|]. destruct (wire_warning e snap); [|done].
    discriminate (proj1 Hw (mk_is_Some _ _ eq_refl)).
  - apply rt_warnings_length.
  - rewrite rt_standing_some, Hok. unfold el_any_hard. rewrite existsb_exists.
    split; intros (e & He & Hw); exists e; split; auto; by destruct (is_warning (ee_code e)).
  - intros (e & He & Hc).
    assert (has_code (ss_errors snap) EC_Estop || has_code (ss_errors snap) EC_SwEstop = true) as Hh.
    { apply orb_true_iff. unfold has_code. rewrite !existsb_exists.
      destruct Hc as [Hc|Hc]; [left|right]; exists e; (split; [done|by apply bool_decide_eq_true]). }
    assert (ss_error_active snap = true) as Ha.
    { rewrite Hok. unfold el_any_hard. apply existsb_exists. exists e. split; [done|].
      by destruct Hc as [->| ->]. }
    unfold rt_standing_error. by rewrite Ha, Hh.
Qed.

#[local] Instance plain_show : Show := {| show_f64 := fun _ v => show_int v; show_debug_str := id |}.

Definition estop_snapshot : StateSnapshot :=
  mkSnapshot 7 ActiveError Disabled true f64_0 [] [] None false [] 
    [mkErrorEntry EC_CanStale (Some 2); mkErrorEntry EC_Encoder (Some 1); mkErrorEntry EC_Estop None]
    true exec_status_default 0 0.

Lemma latch_reaches_clients_witness :
  snapshot_ok estop_snapshot /\
  rt_standing_error estop_snapshot = Some (make_error WE_SysEstopActive UNATTRIBUTED []).
Proof.
  split; [reflexivity|].
  apply (latch_reaches_clients estop_snapshot); [reflexivity|].
  exists (mkErrorEntry EC_Estop None). cbn. tauto.
Defined.
