(* ===== verification/ServerTypes.v ===== *)
(** * ServerTypes: the state of the command plane
    (crates/par6-server/src/server.rs, config.rs, plane.rs, runtime.rs)

    The server is one task: it takes one event at a time (a datagram, a poll, an
    answer of the planner) and finishes it before the next.  Its [Core] is the
    record [Server].  What a handler does outside the state is appended to the
    record's [s_out]: replies, requests to the planner thread, calls of
    [RtCommands], reads of the socket and of the snapshot channel.  What those
    calls answer is the class [ServerEnv]: each answer is a function of
    everything the server has done so far, so an environment can answer
    differently every time.  A row of the bus-node table is [Reply.BusNode]. *)
From Stdlib Require Import SpecFloat.
From stdpp Require Import gmap.
From S2P Require Import Prelude F64 Wire Enums Command CommandCodec Chunk WireError Reply BusTypes Ring RtState ServerGate.

Definition Addr := Z.

Definition is_some {A} (o : option A) : bool := match o with Some _ => true | None => false end.

(** ** Configuration *)

Record TunableNode := mkTunableNode {
  tn_node : Z;
  tn_ilim_ma : f64;
  tn_velocity_limit_ticks_s : f64;
  tn_voltage_limit_mv : Z;
}.

(** [ServerConfig] without the sockets, the transport and the text of the
    configuration readback.  Durations are nanoseconds. *)
Record ServerConfig := mkServerConfig {
  cfg_status_rate_hz : Z;
  cfg_rt_tick_rate_hz : f64;
  cfg_link_stale : Z;
  cfg_queue_capacity : nat;
  cfg_dedup_window : nat;
  cfg_chunk_timeout : Z;
  cfg_blend_lookahead : nat;
  cfg_blend_hold : Z;
  cfg_simulator : bool;
  cfg_tools : list bytes;
  cfg_driven_tools : list bytes;
  cfg_fitted_tool : bytes;
  cfg_tool_dof : nat;
  cfg_cartesian : bool;
  cfg_digital_outputs : list bytes;
  cfg_tunable_nodes : list TunableNode;
  cfg_tool_drives : list (bytes * TunableNode);
  cfg_tool_ids : list Z;
  cfg_profiles : list bytes;
  cfg_initial_profile : bytes;
  cfg_joint_hard_limits_deg : list (f64 * f64);
  cfg_installation_shapes : list Shape;
  cfg_tick_dt_s : f64;
}.

(** [eq_ignore_ascii_case]. *)
Definition ascii_lower (b : Z) : Z := if (65 <=? b) && (b <=? 90) then b + 32 else b.
Definition eq_ignore_case (a b : bytes) : bool :=
  bool_decide (map ascii_lower a = map ascii_lower b).

(** [ServerConfig::fit_tool]: the configuration that wears the tool, and the
    spelling stored. *)
Definition fit_tool (name : bytes) (cfg : ServerConfig) : ServerConfig * bytes :=
  let tool := default name (List.find (fun t => eq_ignore_case t name) (cfg_tools cfg)) in
  let dof := if existsb (fun t => eq_ignore_case t tool) (cfg_driven_tools cfg) then 1%nat else 0%nat in
  let kept := List.filter (fun n => negb (existsb (fun '(_, d) => tn_node d =? tn_node n)
                (cfg_tool_drives cfg))) (cfg_tunable_nodes cfg) in
  let nodes :=
    match List.find (fun '(t, _) => eq_ignore_case t tool) (cfg_tool_drives cfg) with
    | Some (_, drive) => kept ++ [drive]
    | None => kept
    end in
  (mkServerConfig (cfg_status_rate_hz cfg) (cfg_rt_tick_rate_hz cfg) (cfg_link_stale cfg)
     (cfg_queue_capacity cfg) (cfg_dedup_window cfg) (cfg_chunk_timeout cfg)
     (cfg_blend_lookahead cfg) (cfg_blend_hold cfg) (cfg_simulator cfg) (cfg_tools cfg)
     (cfg_driven_tools cfg) tool dof (cfg_cartesian cfg) (cfg_digital_outputs cfg) nodes
     (cfg_tool_drives cfg) (cfg_tool_ids cfg) (cfg_profiles cfg) (cfg_initial_profile cfg)
     (cfg_joint_hard_limits_deg cfg) (cfg_installation_shapes cfg) (cfg_tick_dt_s cfg), tool).

(** ** Queue entries *)

Record Pending := mkPending { pd_index : Z; pd_cmd : Command; pd_addr : Addr }.

Inductive PostEffect :=
| PF_None
| PF_Checkpoint (label : bytes)
| PF_SelectTool (tool : bytes) (variant : option bytes)
| PF_TcpTransform (v : list f64)
| PF_WriteIo (port value : Z).

Definition FIRST_COMMAND_INDEX : Z := 1.

Record ToolStop := mkToolStop { tst_index : Z; tst_addr : Addr; tst_tag : option Z }.

(** [Executing], without the parameter summary of the status frame. *)
Record Executing := mkExecuting {
  ex_index : Z;
  ex_addr : Addr;
  ex_tag : CmdType;
  ex_effect : PostEffect;
  ex_blended : list (Z * Addr);
}.

Record PayloadSpec := mkPayloadSpec {
  ps_mass : f64;
  ps_com : list f64;
  ps_inertia : option (list f64);
}.

Definition payload_default : PayloadSpec := mkPayloadSpec f64_0 [f64_0; f64_0; f64_0] None.

(** ** Waiters *)

Record Waiters := mkWaiters { w_queued : list (Z * Addr); w_cap : nat; w_what : string }.

Definition waiters_new (cap : nat) (what : string) : Waiters := mkWaiters [] cap what.

Definition waiters_try_push (req_id : Z) (addr : Addr) (w : Waiters) : result WireError Waiters :=
  if (w_cap w <=? length (w_queued w))%nat then
    Err (make_error WE_CommQueueFull UNATTRIBUTED
      [("detail"%string,
        str_bytes "Too many " ++ str_bytes (w_what w) ++
        str_bytes " requests are already awaiting the controller's verdict; stop retrying until the outstanding one is answered.")])
  else Ok (mkWaiters (w_queued w ++ [(req_id, addr)]) (w_cap w) (w_what w)).

Definition waiters_take (w : Waiters) : Waiters * list (Z * Addr) :=
  (mkWaiters [] (w_cap w) (w_what w), w_queued w).

Definition MAX_RESET_WAITERS : nat := 16.
Definition MAX_FLASHING_WAITERS : nat := 16.
Definition DRAIN_LIMIT : nat := 64.

(** ** The dedup window *)

Record Dedup := mkDedup { dd_cap : nat; dd_order : list Z; dd_map : gmap Z Z }.

Definition dedup_new (cap : nat) : Dedup := mkDedup (Nat.max cap 1) [] ∅.

Definition dedup_get (d : Dedup) (key : Z) : option Z := dd_map d !! key.

Definition dedup_insert (key index : Z) (d : Dedup) : Dedup :=
  let map := <[key := index]> (dd_map d) in
  match dd_map d !! key with
  | Some _ => mkDedup (dd_cap d) (dd_order d) map
  | None =>
      let order := dd_order d ++ [key] in
      if (dd_cap d <? length order)%nat then
        match order with
        | old :: rest => mkDedup (dd_cap d) rest (delete old map)
        | [] => mkDedup (dd_cap d) order map
        end
      else mkDedup (dd_cap d) order map
  end.

(** ** Replies *)

(** [QueryResult]: the results computed from the server's own state.  The queries
    that only read the snapshot's measurements, the planner's report or the text
    of the configuration answer [QR_Readout]. *)
Inductive QueryResult :=
| QR_Ping (hardware_connected : bool)
| QR_Tools (tool : bytes) (available : list bytes)
| QR_Queue (queue : list string) (executing_index completed_index : Z) (last_checkpoint : bytes)
| QR_Activity (current : string) (state : ActionState) (next : string)
| QR_Profile (profile : bytes)
| QR_Error (error : option WireError)
| QR_TcpOffset (x y z : f64)
| QR_TcpTransform (values : list f64)
| QR_CommandCompletion (index : Z) (finished ok : bool) (detail : option WireError) (verdict : option Z)
| QR_IsSimulator (active : bool)
| QR_BusScan (nodes : list BusNode)
| QR_Payload (mass : f64) (com inertia : list f64)
| QR_Shapes (installation program : list Shape) (epoch attachment_epoch : Z)
| QR_Readout (query : CmdType).

Inductive Reply :=
| R_Ok (req_id : Z) (index : option Z)
| R_Error (req_id : Z) (error : WireError)
| R_Response (req_id : Z) (result : QueryResult)
| R_Complete (index : Z) (ok : bool) (detail : option WireError) (verdict : option Z).

(** A BUS_SCAN query parked until its rescan settles. *)
Record PendingScan := mkPendingScan {
  pc_req_id : Z;
  pc_addr : Addr;
  pc_epoch : Z;
  pc_deadline : Z;
}.

Definition SCAN_REPLY_DEADLINE : Z := 500000000.

(** ** The planner plane *)

Inductive ShapeLayer := SL_Installation | SL_Program.

Record OwnedQueued := mkOwnedQueued { oq_index : Z; oq_cmd : Command }.

Record OwnedPlanContext := mkPlanContext {
  pctx_profile : bytes;
  pctx_tool : bytes;
  pctx_tool_variant : option bytes;
  pctx_tcp_offset_mm : list f64;
  pctx_tcp_rotation_deg : list f64;
  pctx_completion_policy : CompletionPolicy;
  pctx_payload : PayloadSpec;
}.

Inductive PlanRequest :=
| PR_Start (batch : list OwnedQueued)
| PR_QueueEstimate (pending : list OwnedQueued)
| PR_SetShapes (tag : Z) (layer : ShapeLayer) (shapes : list Shape)
| PR_StartTool (tag index : Z) (cmd : ToolAction)
| PR_Sync (ctx : OwnedPlanContext)
| PR_Cancel (halt_tool : bool)
| PR_CancelTool
| PR_ClearCollision.

Record CommandOutcome := mkOutcome {
  co_index : Z;
  co_error : option WireError;
  co_verdict : option Z;
}.

Inductive PlanEvent :=
| PE_Started (index : Z) (taken : nat)
| PE_StartRejected (index : Z) (error : WireError)
| PE_Outcome (out : CommandOutcome)
| PE_ToolOutcome (out : CommandOutcome)
| PE_ToolStarted (tag : Z) (verdict : result WireError unit)
| PE_ToolFitted (tool : bytes) (variant : option bytes)
| PE_ShapesApplied (tag : Z) (verdict : result WireError (option Z)).

(** ** Calls of [RtCommands] *)

Inductive RtCall :=
| RT_stream (cmd : Command)
| RT_cancel_stream
| RT_stop_refused_stream
| RT_refusal_in_progress
| RT_halt
| RT_set_enabled (enabled : bool)
| RT_set_gravity_comp (on : bool)
| RT_set_payload (p : PayloadSpec)
| RT_set_exec_paused (paused : bool)
| RT_set_exec_speed (scale : f64)
| RT_take_enable_outcome
| RT_teleport (angles_deg : list f64) (tool_positions : option (list f64))
| RT_write_io (port value : Z)
| RT_enter_flashing
| RT_exit_flashing
| RT_take_flashing_outcome
| RT_take_bus_outcome
| RT_set_pid_gains (gains : SetPidGains)
| RT_set_can_id (node new_id : Z)
| RT_save_config (node : Z)
| RT_set_tool_id (node tool_id : Z)
| RT_rescan_bus
| RT_set_simulator (on : bool)
| RT_connect_hardware (port : bytes)
| RT_reset_state
| RT_reset_loop_stats
| RT_discard_exec
| RT_set_shapes (layer : ShapeLayer) (shapes : list Shape)
| RT_clear_collision.

(** What a handler leaves outside the state, in order. *)
Inductive Out :=
| O_Reply (addr : Addr) (reply : Reply)
| O_Plan (req : PlanRequest)
| O_Rt (call : RtCall)
| O_Status (seq : Z)
| O_TryRecv
| O_TakeSnapshot
| O_TimerCheck.

(** The answers of the environment, each to everything done before it: the
    methods of [RtCommands] that return something, the socket's backlog, the
    snapshot channel, and whether the STATUS timer has run out. *)
Class ServerEnv := {
  env_stream : list Out -> Command -> result WireError unit;
  env_stop_refused_stream : list Out -> bool;
  env_refusal_in_progress : list Out -> bool;
  env_take_enable_outcome : list Out -> option (result WireError unit);
  env_take_flashing_outcome : list Out -> option (result WireError unit);
  env_take_bus_outcome : list Out -> option (result WireError unit);
  env_set_simulator : list Out -> bool -> result WireError unit;
  env_connect_hardware : list Out -> bytes -> result WireError unit;
  env_set_shapes : list Out -> ShapeLayer -> list Shape -> result WireError unit;
  env_try_recv : list Out -> option (bytes * Addr);
  env_snapshot : list Out -> option StateSnapshot;
  env_status_due : list Out -> bool;
}.

(** ** The server *)

Record Server := mkServer {
  s_cfg : ServerConfig;
  s_reassembler : Reassembler;
  s_transfer_addrs : gmap Z Addr;
  s_next_index : Z;
  s_dedup : Dedup;
  s_pending : list Pending;
  s_executing : option Executing;
  s_blend_hold : option Z;
  s_planning : option Z;
  s_pending_shapes : gmap Z (Z * Addr * list Shape);
  s_tool_stops : list ToolStop;
  s_accepted_index : Z;
  s_completed_index : Z;
  s_finished : gset Z;
  s_completion_log : list (Z * option WireError * option Z);
  s_last_checkpoint : bytes;
  s_standing_error : option WireError;
  s_action_state : ActionState;
  s_estop_latched : bool;
  s_teleport_homed : bool;
  s_active_stream : option CmdType;
  s_deferred : list (bytes * Addr);
  s_reset_waiters : Waiters;
  s_flashing_waiters : Waiters;
  s_bus_waiters : Waiters;
  s_pending_simulator : option bool;
  s_booted : bool;
  s_profile : bytes;
  s_tool : bytes;
  s_tool_variant : option bytes;
  s_tcp_offset_mm : list f64;
  s_tcp_rotation_deg : list f64;
  s_payload : PayloadSpec;
  s_shapes : list Shape;
  s_attachment_epoch : Z;
  s_attachment_stop_pending : bool;
  s_scene_epoch : Z;
  s_completion_policy : CompletionPolicy;
  s_execution_paused : bool;
  s_pending_scans : list PendingScan;
  s_simulator : bool;
  s_queue_estimate_for : Z * nat;
  s_snap : StateSnapshot;
  s_last_fresh : option Z;
  s_status_seq : Z;
  s_last_status_tick : option Z;
  s_status_rate_hz : Z;
  s_next_tag : Z;
  s_now : Z;
  s_out : list Out;
}.

(** The server rebuilt from its fields: what a setter replaces one field of. *)
Definition server_eta (s : Server) : Server :=
  mkServer (s_cfg s) (s_reassembler s) (s_transfer_addrs s) (s_next_index s) (s_dedup s)
    (s_pending s) (s_executing s) (s_blend_hold s) (s_planning s) (s_pending_shapes s)
    (s_tool_stops s) (s_accepted_index s) (s_completed_index s) (s_finished s)
    (s_completion_log s) (s_last_checkpoint s) (s_standing_error s) (s_action_state s)
    (s_estop_latched s) (s_teleport_homed s) (s_active_stream s) (s_deferred s)
    (s_reset_waiters s) (s_flashing_waiters s) (s_bus_waiters s) (s_pending_simulator s)
    (s_booted s) (s_profile s) (s_tool s) (s_tool_variant s) (s_tcp_offset_mm s)
    (s_tcp_rotation_deg s) (s_payload s) (s_shapes s) (s_attachment_epoch s)
    (s_attachment_stop_pending s) (s_scene_epoch s) (s_completion_policy s)
    (s_execution_paused s) (s_pending_scans s) (s_simulator s) (s_queue_estimate_for s)
    (s_snap s) (s_last_fresh s) (s_status_seq s) (s_last_status_tick s)
    (s_status_rate_hz s) (s_next_tag s) (s_now s) (s_out s).

(** [self.field = v]. *)
Ltac put_field getter s v :=
  let t := eval unfold server_eta in (server_eta s) in
  lazymatch t with context T [getter s] => let t' := context T [v] in exact t' end.

Definition put_cfg (v : ServerConfig) (s : Server) : Server := ltac:(put_field s_cfg s v).
Definition put_reassembler (v : Reassembler) (s : Server) : Server := ltac:(put_field s_reassembler s v).
Definition put_transfer_addrs (v : gmap Z Addr) (s : Server) : Server := ltac:(put_field s_transfer_addrs s v).
Definition put_next_index (v : Z) (s : Server) : Server := ltac:(put_field s_next_index s v).
Definition put_dedup (v : Dedup) (s : Server) : Server := ltac:(put_field s_dedup s v).
Definition put_pending (v : list Pending) (s : Server) : Server := ltac:(put_field s_pending s v).
Definition put_executing (v : option Executing) (s : Server) : Server := ltac:(put_field s_executing s v).
Definition put_blend_hold (v : option Z) (s : Server) : Server := ltac:(put_field s_blend_hold s v).
Definition put_planning (v : option Z) (s : Server) : Server := ltac:(put_field s_planning s v).
Definition put_pending_shapes (v : gmap Z (Z * Addr * list Shape)) (s : Server) : Server := ltac:(put_field s_pending_shapes s v).
Definition put_tool_stops (v : list ToolStop) (s : Server) : Server := ltac:(put_field s_tool_stops s v).
Definition put_accepted_index (v : Z) (s : Server) : Server := ltac:(put_field s_accepted_index s v).
Definition put_completed_index (v : Z) (s : Server) : Server := ltac:(put_field s_completed_index s v).
Definition put_finished (v : gset Z) (s : Server) : Server := ltac:(put_field s_finished s v).
Definition put_completion_log (v : list (Z * option WireError * option Z)) (s : Server) : Server := ltac:(put_field s_completion_log s v).
Definition put_last_checkpoint (v : bytes) (s : Server) : Server := ltac:(put_field s_last_checkpoint s v).
Definition put_standing_error (v : option WireError) (s : Server) : Server := ltac:(put_field s_standing_error s v).
Definition put_action_state (v : ActionState) (s : Server) : Server := ltac:(put_field s_action_state s v).
Definition put_estop_latched (v : bool) (s : Server) : Server := ltac:(put_field s_estop_latched s v).
Definition put_teleport_homed (v : bool) (s : Server) : Server := ltac:(put_field s_teleport_homed s v).
Definition put_active_stream (v : option CmdType) (s : Server) : Server := ltac:(put_field s_active_stream s v).
Definition put_deferred (v : list (bytes * Addr)) (s : Server) : Server := ltac:(put_field s_deferred s v).
Definition put_reset_waiters (v : Waiters) (s : Server) : Server := ltac:(put_field s_reset_waiters s v).
Definition put_flashing_waiters (v : Waiters) (s : Server) : Server := ltac:(put_field s_flashing_waiters s v).
Definition put_bus_waiters (v : Waiters) (s : Server) : Server := ltac:(put_field s_bus_waiters s v).
Definition put_pending_simulator (v : option bool) (s : Server) : Server := ltac:(put_field s_pending_simulator s v).
Definition put_booted (v : bool) (s : Server) : Server := ltac:(put_field s_booted s v).
Definition put_profile (v : bytes) (s : Server) : Server := ltac:(put_field s_profile s v).
Definition put_tool (v : bytes) (s : Server) : Server := ltac:(put_field s_tool s v).
Definition put_tool_variant (v : option bytes) (s : Server) : Server := ltac:(put_field s_tool_variant s v).
Definition put_tcp_offset_mm (v : list f64) (s : Server) : Server := ltac:(put_field s_tcp_offset_mm s v).
Definition put_tcp_rotation_deg (v : list f64) (s : Server) : Server := ltac:(put_field s_tcp_rotation_deg s v).
Definition put_payload (v : PayloadSpec) (s : Server) : Server := ltac:(put_field s_payload s v).
Definition put_shapes (v : list Shape) (s : Server) : Server := ltac:(put_field s_shapes s v).
Definition put_attachment_epoch (v : Z) (s : Server) : Server := ltac:(put_field s_attachment_epoch s v).
Definition put_attachment_stop_pending (v : bool) (s : Server) : Server := ltac:(put_field s_attachment_stop_pending s v).
Definition put_scene_epoch (v : Z) (s : Server) : Server := ltac:(put_field s_scene_epoch s v).
Definition put_completion_policy (v : CompletionPolicy) (s : Server) : Server := ltac:(put_field s_completion_policy s v).
Definition put_execution_paused (v : bool) (s : Server) : Server := ltac:(put_field s_execution_paused s v).
Definition put_pending_scans (v : list PendingScan) (s : Server) : Server := ltac:(put_field s_pending_scans s v).
Definition put_simulator (v : bool) (s : Server) : Server := ltac:(put_field s_simulator s v).
Definition put_queue_estimate_for (v : Z * nat) (s : Server) : Server := ltac:(put_field s_queue_estimate_for s v).
Definition put_snap (v : StateSnapshot) (s : Server) : Server := ltac:(put_field s_snap s v).
Definition put_last_fresh (v : option Z) (s : Server) : Server := ltac:(put_field s_last_fresh s v).
Definition put_status_seq (v : Z) (s : Server) : Server := ltac:(put_field s_status_seq s v).
Definition put_last_status_tick (v : option Z) (s : Server) : Server := ltac:(put_field s_last_status_tick s v).
Definition put_status_rate_hz (v : Z) (s : Server) : Server := ltac:(put_field s_status_rate_hz s v).
Definition put_next_tag (v : Z) (s : Server) : Server := ltac:(put_field s_next_tag s v).
Definition put_now (v : Z) (s : Server) : Server := ltac:(put_field s_now s v).
Definition put_out (v : list Out) (s : Server) : Server := ltac:(put_field s_out s v).

(** [Core::new]; the attachment epoch is random and not zero. *)
Definition server_new (cfg : ServerConfig) (attachment_epoch : Z) : Server :=
  mkServer cfg (reassembler_new (cfg_chunk_timeout cfg)) ∅ FIRST_COMMAND_INDEX
    (dedup_new (Nat.max (cfg_dedup_window cfg) (cfg_queue_capacity cfg + 2)))
    [] None None None ∅ [] (-1) (-1) ∅ [] [] None AS_Idle false false None []
    (waiters_new MAX_RESET_WAITERS "reset") (waiters_new MAX_FLASHING_WAITERS "FLASHING")
    (waiters_new MAX_RESET_WAITERS "backend swap") None false
    (cfg_initial_profile cfg) (cfg_fitted_tool cfg) None [f64_0; f64_0; f64_0] [f64_0; f64_0; f64_0]
    payload_default [] (Z.max attachment_epoch 1) false 0 CP_Settled false []
    (cfg_simulator cfg) (0, 0%nat) snapshot_default None 0 None (cfg_status_rate_hz cfg) 0 0 [].

Definition emit (o : Out) (s : Server) : Server := put_out (s_out s ++ [o]) s.
Definition reply (addr : Addr) (r : Reply) (s : Server) : Server := emit (O_Reply addr r) s.
Definition plan (r : PlanRequest) (s : Server) : Server := emit (O_Plan r) s.
Definition rt (c : RtCall) (s : Server) : Server := emit (O_Rt c) s.
