(* ===== verification/ServerQueue.v ===== *)
(** * ServerQueue: the motion queue of the command plane
    (crates/par6-server/src/server.rs, "queue engine")

    Completions and the high-water mark, the drops and cancellations, the pump,
    the answers of the planner, tool stops, refusals and snapshot freshness. *)
From Stdlib Require Import SpecFloat.
From stdpp Require Import gmap.
From S2P Require Import Prelude F64 Wire Enums Command CommandCodec Chunk WireError Reply BusTypes Ring RtState ServerGate ServerTypes.

(** ** Attachments *)

Definition has_attachment (s : Shape) : bool := is_some (sh_attachment s).

Definition attachments_fresh (shapes : list Shape) (epoch : Z) : bool :=
  forallb (fun s => match sh_attachment s with Some a => at_epoch a =? epoch | None => true end) shapes.

(** [epoch.wrapping_add(1).max(1)] of a u64. *)
Definition next_attachment_epoch (epoch : Z) : Z := Z.max (wrapping_add 64 epoch 1) 1.

Definition attachment_error (detail : string) : WireError :=
  make_error WE_CommValidationError UNATTRIBUTED [("detail"%string, str_bytes detail)].

Definition attachments_valid (s : Server) : bool :=
  attachments_fresh (s_shapes s) (s_attachment_epoch s).

Definition invalidate_attachments (s : Server) : Server :=
  let s := put_attachment_epoch (next_attachment_epoch (s_attachment_epoch s)) s in
  if existsb has_attachment (s_shapes s) then
    put_scene_epoch (s_scene_epoch s + 1) (put_attachment_stop_pending true s)
  else s.

(** ** Freshness of the bus *)

Definition u16_max : Z := 65535.

Definition u64_top : Z := 2 ^ 64 - 1.

(** The age of the youngest node's data, in ticks; all ones when none answered. *)
Definition bus_ticks (snap : StateSnapshot) : Z :=
  fold_right Z.min u64_top (map ns_data_age_ticks (ss_nodes snap)).

Definition data_age_ms (s : Server) : Z :=
  match s_last_fresh s with
  | None => u16_max
  | Some fresh =>
      let ticks := bus_ticks (s_snap s) in
      if ticks =? u64_top then u16_max
      else
        let tick_ms := sf_div (sf_of_int 1000)
                         (sf_max (f64_to_SF (cfg_rt_tick_rate_hz (s_cfg s))) (sf_of_int 1)) in
        let bus_ms := sf_trunc_as_uint 128 (sf_min (sf_mul (sf_of_int ticks) tick_ms) (sf_of_int u16_max)) in
        Z.min (bus_ms + (s_now s - fresh) / 1000000) u16_max
  end.

Definition link_ok (s : Server) : bool :=
  data_age_ms s <=? cfg_link_stale (s_cfg s) / 1000000.

(** ** What holds the arm *)

Definition arm_braking (s : Server) : bool :=
  match ss_mode (s_snap s) with
  | Jog | Stream => true
  | Exec => xs_stopping (ss_exec (s_snap s)) || (0 <? xs_samples_remaining (ss_exec (s_snap s)))
  | _ => false
  end.

Definition motion_in_flight (s : Server) : bool :=
  is_some (s_executing s) || negb (bool_decide (s_pending s = [])) ||
  is_some (s_active_stream s) || negb (bool_decide (s_tool_stops s = [])).

Definition arm_at_rest (s : Server) : bool :=
  let resting :=
    match ss_mode (s_snap s) with
    | Idle | ActiveError => true
    | Exec => negb (arm_braking s)
    | _ => false
    end in
  negb (motion_in_flight s) && resting.

Definition waits_for_rest (cmd : CmdType) : bool :=
  match cmd with
  | T_MoveJ | T_MoveJPose | T_MoveL | T_MoveC | T_MoveS | T_MoveP | T_Home | T_SelectTool => true
  | _ => false
  end.

Definition blend_radius_mm (cmd : Command) : option f64 :=
  match cmd with
  | C_MoveJ p => mj_blend_radius p
  | C_MoveJPose p => mjp_blend_radius p
  | C_MoveL p => ml_blend_radius p
  | C_MoveC p => mc_blend_radius p
  | _ => None
  end.

(** ** Completions *)

(** [while self.finished.remove(&next)]: the fuel is the number of elements. *)
Fixpoint advance_go (fuel : nat) (next completed : Z) (finished : gset Z) : Z * gset Z :=
  match fuel with
  | O => (completed, finished)
  | S fuel =>
      if bool_decide (next ∈ finished)
      then advance_go fuel (next + 1) next (finished ∖ {[next]})
      else (completed, finished)
  end.

Definition advance_completed (index : Z) (s : Server) : Server :=
  let finished := {[index]} ∪ s_finished s in
  let next := if s_completed_index s <? 0 then FIRST_COMMAND_INDEX else s_completed_index s + 1 in
  let '(completed, finished) := advance_go (size finished) next (s_completed_index s) finished in
  put_completed_index completed (put_finished finished s).

Definition push_complete (addr : Addr) (index : Z) (detail : option WireError) (verdict : option Z)
  (s : Server) : Server :=
  let log := s_completion_log s in
  let log := if (COMPLETIONS_KEPT <=? length log)%nat then tail log else log in
  let s := put_completion_log (log ++ [(index, detail, verdict)]) s in
  reply addr (R_Complete index (negb (is_some detail)) detail verdict) s.

Definition cancelled (scope : string) (index : Z) : WireError :=
  make_error WE_MotnCancelled index [("scope"%string, str_bytes scope)].

Definition complete_cancelled (scope : string) (dropped : list (Z * Addr)) (s : Server)
  : Server * nat :=
  (fold_left (fun s '(index, addr) =>
     push_complete addr index (Some (cancelled scope index)) None (advance_completed index s))
     dropped s, length dropped).

(** ** Drops *)

(** [VecDeque::pop_front_if]. *)
Definition pop_front_if (p : Pending -> bool) (l : list Pending) : option Pending * list Pending :=
  match l with
  | x :: l' => if p x then (Some x, l') else (None, l)
  | [] => (None, [])
  end.

Definition drop_active (s : Server) : Server * list (Z * Addr) :=
  let '(s, dropped) :=
    match s_planning s with
    | Some index =>
        let s := put_planning None s in
        let '(p, rest) := pop_front_if (fun p => pd_index p =? index) (s_pending s) in
        match p with
        | Some p => (put_pending rest s, [(pd_index p, pd_addr p)])
        | None => (s, [])
        end
    | None => (s, [])
    end in
  let '(s, dropped) :=
    match s_executing s with
    | Some ex =>
        (put_action_state AS_Idle (put_executing None s),
         dropped ++ (ex_index ex, ex_addr ex) :: ex_blended ex)
    | None => (s, dropped)
    end in
  match dropped with
  | [] => (s, [])
  | _ => (rt RT_discard_exec s, dropped)
  end.

Definition drop_pending (s : Server) : Server * list (Z * Addr) :=
  (put_pending [] (put_blend_hold None s), map (fun p => (pd_index p, pd_addr p)) (s_pending s)).

Definition drop_tool_stops (s : Server) : Server * list (Z * Addr) :=
  match s_tool_stops s with
  | [] => (s, [])
  | stops => (put_tool_stops [] (plan PR_CancelTool s), map (fun t => (tst_index t, tst_addr t)) stops)
  end.

(** The stream taken, and whether there was one: [self.active_stream.take().is_some()]. *)
Definition cancel_stream_if_any (s : Server) : Server :=
  match s_active_stream s with
  | Some _ => rt RT_cancel_stream (put_active_stream None s)
  | None => s
  end.

Definition drop_active_motion (s : Server) : Server * list (Z * Addr) :=
  let s := plan (PR_Cancel true) s in
  let '(s, d1) := drop_active s in
  let '(s, d2) := drop_tool_stops s in
  let s := cancel_stream_if_any s in
  (rt RT_halt s, d1 ++ d2).

Definition is_tool_action (cmd : Command) : bool :=
  match cmd with C_ToolAction _ => true | _ => false end.

Definition drop_active_tool_action (s : Server) : Server * list (Z * Addr) :=
  let taken := ex ← s_executing s; if bool_decide (ex_tag ex = T_ToolAction) then Some ex else None in
  let '(s, dropped) :=
    match taken with
    | Some ex =>
        (put_action_state AS_Idle (put_executing None s), (ex_index ex, ex_addr ex) :: ex_blended ex)
    | None =>
        match s_planning s with
        | Some index =>
            let '(p, rest) :=
              pop_front_if (fun p => (pd_index p =? index) && is_tool_action (pd_cmd p)) (s_pending s) in
            match p with
            | Some p => (put_planning None (put_pending rest s), [(pd_index p, pd_addr p)])
            | None => (s, [])
            end
        | None => (s, [])
        end
    end in
  match dropped with
  | [] => (s, [])
  | _ => (plan (PR_Cancel true) s, dropped)
  end.

Definition drop_planned (halt_tool : bool) (s : Server) : Server * list (Z * Addr) :=
  let s := plan (PR_Cancel halt_tool) s in
  let '(s, d1) := drop_active s in
  let '(s, d2) := drop_pending s in
  (s, d1 ++ d2).

Definition cancel_active_motion (scope : string) (s : Server) : Server * nat :=
  let '(s, dropped) := drop_active_motion s in complete_cancelled scope dropped s.

Definition cancel_all_motion (scope : string) (s : Server) : Server * nat :=
  let '(s, d1) := drop_active_motion s in
  let '(s, d2) := drop_pending s in
  complete_cancelled scope (d1 ++ d2) s.

Definition cancel_planned (scope : string) (halt_tool : bool) (s : Server) : Server * nat :=
  let '(s, dropped) := drop_planned halt_tool s in complete_cancelled scope dropped s.

Definition clear_pause (s : Server) : Server :=
  if s_execution_paused s
  then rt (RT_set_exec_paused false) (put_execution_paused false s)
  else s.

Definition stop_invalid_attachments (s : Server) : Server :=
  let s :=
    if attachments_valid s && existsb has_attachment (s_shapes s) &&
       (negb (bool_decide (ss_state (s_snap s) = Enabled)) || negb (ss_homed (s_snap s)) || negb (link_ok s))
    then invalidate_attachments s else s in
  if s_attachment_stop_pending s then
    let s := put_attachment_stop_pending false s in
    let '(s, _) := cancel_all_motion "attachment context changed" s in
    put_standing_error
      (Some (attachment_error
         "attachment context changed; reconcile the physical scene and reapply")) s
  else s.

(** ** Tools, contexts *)

Definition sync_planner (s : Server) : Server :=
  plan (PR_Sync (mkPlanContext (s_profile s) (s_tool s) (s_tool_variant s) (s_tcp_offset_mm s)
    (s_tcp_rotation_deg s) (s_completion_policy s) (s_payload s))) s.

Definition zero3 : list f64 := [f64_0; f64_0; f64_0].

Definition adopt_tool_selection (tool : bytes) (variant : option bytes) (s : Server) : Server :=
  let '(cfg, tool) := fit_tool tool (s_cfg s) in
  let s := put_cfg cfg s in
  let s :=
    if bool_decide (variant <> s_tool_variant s) || bool_decide (tool <> s_tool s) then
      put_tcp_rotation_deg zero3 (put_tcp_offset_mm zero3 (invalidate_attachments s))
    else s in
  sync_planner (put_tool tool (put_tool_variant variant s)).

(** [values of the TCP frame a queued command sets]. *)
Definition tcp_transform_effect (cmd : Command) : option (list f64) :=
  match cmd with
  | C_SetTcpOffset p => Some [sto_x p; sto_y p; sto_z p; f64_0; f64_0; f64_0]
  | C_SetTcpTransform p => Some [stt_x p; stt_y p; stt_z p; stt_roll p; stt_pitch p; stt_yaw p]
  | _ => None
  end.

Definition post_effect (cmd : Command) : PostEffect :=
  match tcp_transform_effect cmd with
  | Some v => PF_TcpTransform v
  | None =>
      match cmd with
      | C_Checkpoint p => PF_Checkpoint (ckp_label p)
      | C_SelectTool p => PF_SelectTool (st_tool_name p) (st_variant_key p)
      | C_WriteIo p => PF_WriteIo (wio_port p) (wio_value p)
      | _ => PF_None
      end
  end.

(** ** Failure, outcomes *)

Definition fail_command (index : Z) (addr : Addr) (blended : list (Z * Addr)) (e : WireError)
  (s : Server) : Server :=
  let e := we_attribute index e in
  let s := advance_completed index s in
  let s := put_action_state AS_Error (put_standing_error (Some e) s) in
  let '(s, dropped) := drop_pending s in
  let s := push_complete addr index (Some e) None s in
  fst (complete_cancelled "a failed preceding command" (blended ++ dropped) s).

Definition apply_effect (effect : PostEffect) (s : Server) : Server :=
  match effect with
  | PF_None => s
  | PF_Checkpoint label => put_last_checkpoint label s
  | PF_SelectTool tool variant => adopt_tool_selection tool variant s
  | PF_TcpTransform v =>
      sync_planner (put_tcp_rotation_deg (drop 3 v) (put_tcp_offset_mm (take 3 v) s))
  | PF_WriteIo port value => rt (RT_write_io port value) s
  end.

(** Commands folded into a finished motion: each finished, in queue order. *)
Definition complete_blended (blended : list (Z * Addr)) (s : Server) : Server :=
  fold_left (fun s '(index, addr) => push_complete addr index None None (advance_completed index s))
    blended s.

Definition on_outcome (o : CommandOutcome) (s : Server) : Server :=
  match s_executing s with
  | None => s
  | Some ex =>
      if negb (ex_index ex =? co_index o) then s
      else
        let s := put_executing None s in
        match co_error o with
        | None =>
            let s := advance_completed (ex_index ex) s in
            let s := put_action_state AS_Idle s in
            let s := apply_effect (ex_effect ex) s in
            let s := push_complete (ex_addr ex) (ex_index ex) None (co_verdict o) s in
            complete_blended (ex_blended ex) s
        | Some e => fail_command (ex_index ex) (ex_addr ex) (ex_blended ex) e s
        end
  end.

Definition finish_tool_stop (stop : ToolStop) (error : option WireError) (verdict : option Z)
  (s : Server) : Server :=
  let s := advance_completed (tst_index stop) s in
  match error with
  | Some error =>
      let error := we_attribute (tst_index stop) error in
      let s := put_action_state AS_Error (put_standing_error (Some error) s) in
      push_complete (tst_addr stop) (tst_index stop) (Some error) None s
  | None => push_complete (tst_addr stop) (tst_index stop) None verdict s
  end.

(** The position of the first element the test accepts. *)
Fixpoint position {A} (p : A -> bool) (l : list A) : option nat :=
  match l with
  | [] => None
  | x :: l' => if p x then Some O else S <$> position p l'
  end.

(** ** The pump *)

Definition holding_for_blend (s : Server) : Server * bool :=
  let wants_more :=
    (length (s_pending s) <? cfg_blend_lookahead (s_cfg s))%nat &&
    match last (s_pending s) with
    | Some p => match blend_radius_mm (pd_cmd p) with Some r => f64_gt r f64_0 | None => false end
    | None => false
    end in
  if negb wants_more then (s, false)
  else
    let deadline := default (s_now s + cfg_blend_hold (s_cfg s)) (s_blend_hold s) in
    (put_blend_hold (Some deadline) s, s_now s <? deadline).

Definition owned (p : Pending) : OwnedQueued := mkOwnedQueued (pd_index p) (pd_cmd p).

Definition pump (s : Server) : Server :=
  let s := stop_invalid_attachments s in
  if s_execution_paused s || f64_eqb (xs_target_scale (ss_exec (s_snap s))) f64_0 then s
  else if is_some (s_executing s) || is_some (s_planning s) || is_some (s_active_stream s) then s
  else
    match s_pending s with
    | [] => put_blend_hold None s
    | head :: _ =>
        if is_tool_action (pd_cmd head) && negb (bool_decide (s_tool_stops s = [])) then s
        else if needs_enabled (gate (tag (pd_cmd head))) &&
                (s_estop_latched s || negb (bool_decide (ss_state (s_snap s) = Enabled))) then s
        else if waits_for_rest (tag (pd_cmd head)) && arm_braking s then s
        else
          let '(s, holding) := holding_for_blend s in
          if holding then s
          else
            let s := put_blend_hold None s in
            let batch := map owned (take (Nat.max (cfg_blend_lookahead (s_cfg s)) 1) (s_pending s)) in
            plan (PR_Start batch) (put_planning (Some (pd_index head)) s)
    end.

(** ** The answers of the planner *)

Definition on_plan_started (index : Z) (taken : nat) (s : Server) : Server :=
  if negb (bool_decide (s_planning s = Some index)) then s
  else
    let s := put_planning None s in
    match s_pending s with
    | [] => s
    | pc :: rest =>
        let taken := Nat.max 1 (Nat.min taken (1 + length rest)) in
        let blended := map (fun p => (pd_index p, pd_addr p)) (take (taken - 1) rest) in
        let s := put_pending (drop (taken - 1) rest) s in
        put_executing (Some (mkExecuting (pd_index pc) (pd_addr pc) (tag (pd_cmd pc))
                               (post_effect (pd_cmd pc)) blended))
          (put_action_state AS_Executing s)
    end.

Definition on_plan_rejected (index : Z) (error : WireError) (s : Server) : Server :=
  if negb (bool_decide (s_planning s = Some index)) then s
  else
    let s := put_planning None s in
    match s_pending s with
    | [] => s
    | pc :: rest => fail_command (pd_index pc) (pd_addr pc) [] error (put_pending rest s)
    end.

Definition on_tool_started (tag : Z) (verdict : result WireError unit) (s : Server) : Server :=
  match position (fun t => bool_decide (tst_tag t = Some tag)) (s_tool_stops s) with
  | None => s
  | Some at_ =>
      match verdict with
      | Ok _ =>
          put_tool_stops
            (alter (fun t => mkToolStop (tst_index t) (tst_addr t) None) at_ (s_tool_stops s)) s
      | Err error =>
          match s_tool_stops s !! at_ with
          | Some stop =>
              let s := put_tool_stops (delete at_ (s_tool_stops s)) s in
              pump (finish_tool_stop stop (Some error) None s)
          | None => s
          end
      end
  end.

Definition on_tool_outcome (o : CommandOutcome) (s : Server) : Server :=
  match position (fun t => (tst_index t =? co_index o) && negb (is_some (tst_tag t))) (s_tool_stops s) with
  | None => s
  | Some at_ =>
      let answered := take (S at_) (s_tool_stops s) in
      let s := put_tool_stops (drop (S at_) (s_tool_stops s)) s in
      pump (fold_left (fun s stop => finish_tool_stop stop (co_error o) (co_verdict o) s) answered s)
  end.

Section env.
Context `{!Show} `{!ServerEnv}.

Definition refresh_snapshot (s : Server) : Server :=
  let taken := env_snapshot (s_out s) in
  let s := emit O_TakeSnapshot s in
  match taken with
  | Some snap =>
      let s := put_last_fresh (Some (s_now s)) (put_snap snap s) in
      if ss_homed snap then put_teleport_homed false s else s
  | None => s
  end.

Definition rt_set_shapes (layer : ShapeLayer) (shapes : list Shape) (s : Server)
  : Server * result WireError unit :=
  (rt (RT_set_shapes layer shapes) s, env_set_shapes (s_out s) layer shapes).

Definition on_shapes_applied (tag : Z) (verdict : result WireError (option Z)) (s : Server) : Server :=
  match s_pending_shapes s !! tag with
  | None => s
  | Some (req_id, addr, shapes) =>
      let s := put_pending_shapes (delete tag (s_pending_shapes s)) s in
      let '(s, outcome) :=
        match verdict with
        | Ok epoch =>
            let s :=
              match epoch with
              | Some e => put_scene_epoch (Z.max e (s_scene_epoch s + 1)) s
              | None => put_scene_epoch (s_scene_epoch s + 1) s
              end in
            let '(s, mirrored) := rt_set_shapes SL_Program shapes s in
            (if is_ok mirrored then put_shapes shapes s else s, mirrored)
        | Err e => (s, Err e)
        end in
      reply addr
        match outcome with
        | Ok _ => R_Ok req_id None
        | Err error => R_Error req_id error
        end s
  end.

Definition on_plan_event (ev : PlanEvent) (s : Server) : Server :=
  let s := stop_invalid_attachments (refresh_snapshot s) in
  match ev with
  | PE_Started index taken => on_plan_started index taken s
  | PE_StartRejected index error => on_plan_rejected index error s
  | PE_Outcome o => pump (on_outcome o s)
  | PE_ToolOutcome o => on_tool_outcome o s
  | PE_ToolStarted tag verdict => on_tool_started tag verdict s
  | PE_ShapesApplied tag verdict => on_shapes_applied tag verdict s
  | PE_ToolFitted tool variant => adopt_tool_selection tool variant s
  end.

(** ** Standing errors *)

Definition latch_refusal (error : WireError) (busy : bool) (s : Server) : Server :=
  let attributed :=
    match s_standing_error s with
    | Some e => negb (we_command_index e =? UNATTRIBUTED)
    | None => false
    end in
  if busy || attributed || is_some (rt_standing_error (s_snap s)) then s
  else put_standing_error (Some error) s.

Definition latch_faf_refusal (error : WireError) (s : Server) : Server :=
  latch_refusal error (motion_in_flight s) s.

Definition latch_stream_refusal (error : WireError) (s : Server) : Server :=
  latch_refusal error (is_some (s_executing s) || negb (bool_decide (s_pending s = []))) s.

Definition on_motion_accepted (s : Server) : Server :=
  let s :=
    if is_some (s_standing_error s) then
      let s := put_standing_error None s in
      if bool_decide (s_action_state s = AS_Error) then put_action_state AS_Idle s else s
    else s in
  rt RT_clear_collision (plan PR_ClearCollision s).

Definition effective_error (s : Server) : option WireError :=
  match rt_standing_error (s_snap s) with
  | Some e => Some e
  | None => s_standing_error s
  end.

End env.
