(* ===== verification/ServerDispatch.v ===== *)
(** * ServerDispatch: the handlers of the command plane
    (crates/par6-server/src/server.rs)

    Validation against the configuration, the four command classes, chunked
    datagrams, the verdicts that wait for the core, the poll and the event loop. *)
From Stdlib Require Import SpecFloat.
From stdpp Require Import gmap list_numbers.
From S2P Require Import Prelude F64 Wire Enums Command CommandCodec Chunk WireError Reply BusTypes Ring RtState ServerGate ServerTypes ServerQueue.

(** The bits of a number of [SpecFloat]. *)
Definition sf_to_f64 (x : spec_float) : f64 :=
  let sign (s : bool) := if s then 2 ^ 63 else 0 in
  match x with
  | S754_zero s => sign s
  | S754_infinity s => sign s + 0x7FF0000000000000
  | S754_nan => 0x7FF8000000000000
  | S754_finite s m e =>
      sign s + if Zpos m <? 2 ^ 52 then Zpos m else (e + 1075) * 2 ^ 52 + (Zpos m - 2 ^ 52)
  end.

Definition validation_error (detail : bytes) : WireError :=
  make_error WE_CommValidationError UNATTRIBUTED [("detail"%string, detail)].

(** Commands that change the arm's pose and need reconciled held geometry. *)
Definition is_arm_motion (tag : CmdType) : bool :=
  match tag with
  | T_MoveJ | T_MoveJPose | T_MoveL | T_MoveC | T_MoveS | T_MoveP | T_JogJ | T_JogL
  | T_ServoJ | T_ServoJPose | T_ServoL | T_Teleport => true
  | _ => false
  end.

(** The name a command is reported under. *)
Definition cmd_name (tag : CmdType) : string :=
  match tag with
  | T_Reset => "reset" | T_Estop => "estop" | T_SetGravityComp => "set_gravity_comp"
  | T_Pause => "pause" | T_SetExecutionSpeed => "set_execution_speed"
  | T_ExecutionSpeed => "execution_speed" | T_Stop => "stop" | T_WriteIo => "write_io"
  | T_Simulator => "simulator" | T_SelectProfile => "select_profile"
  | T_ResetState => "reset_state" | T_ConnectHardware => "connect_hardware"
  | T_SetTcpOffset => "set_tcp_offset" | T_SetTcpTransform => "set_tcp_transform"
  | T_SetPayload => "set_payload" | T_SetShapes => "set_shapes"
  | T_SetCompletionPolicy => "set_completion_policy" | T_EnterFlashing => "enter_flashing"
  | T_ExitFlashing => "exit_flashing" | T_SetPidGains => "set_pid_gains"
  | T_SetCanId => "set_can_id" | T_SaveConfig => "save_config" | T_SetToolId => "set_tool_id"
  | T_SetStatusRate => "set_status_rate" | T_StatusRate => "status_rate"
  | T_BusScan => "bus_scan" | T_Ping => "ping" | T_Status => "status" | T_Angles => "angles"
  | T_Pose => "pose" | T_Io => "io" | T_Speeds => "speeds" | T_Tools => "tools"
  | T_Queue => "queue" | T_Activity => "activity" | T_LoopStats => "loop_stats"
  | T_Profile => "profile" | T_Reachable => "reachable" | T_Error => "error"
  | T_TcpSpeed => "tcp_speed" | T_TcpOffset => "tcp_offset"
  | T_TcpTransform => "tcp_transform" | T_CommandCompletion => "command_completion"
  | T_ToolStatus => "tool_status" | T_IsSimulator => "is_simulator" | T_Shapes => "shapes"
  | T_ConfigInfo => "config_info" | T_ConfigBundle => "config_bundle" | T_Payload => "payload"
  | T_ServoJ => "servo_j" | T_ServoJPose => "servo_j" | T_ServoL => "servo_l"
  | T_JogJ => "jog_j" | T_JogL => "jog_l" | T_Teleport => "teleport"
  | T_ResetLoopStats => "reset_loop_stats" | T_Home => "home" | T_MoveJ => "move_j"
  | T_MoveJPose => "move_j" | T_MoveL => "move_l" | T_MoveC => "move_c" | T_MoveS => "move_s"
  | T_MoveP => "move_p" | T_SelectTool => "select_tool" | T_Delay => "delay"
  | T_Checkpoint => "checkpoint" | T_ToolAction => "tool_action"
  end.

Definition chunk_error_text (e : ChunkError) : bytes :=
  match e with
  | TotalMismatch expected got =>
      str_bytes "chunk total mismatch: transfer started with " ++ show_int expected ++
      str_bytes ", got " ++ show_int got
  | TooManyTransfers n =>
      str_bytes "too many chunk transfers in flight (" ++ show_int (Z.of_nat n) ++ str_bytes ")"
  | ReqIdMismatch expected got =>
      str_bytes "chunk req_id mismatch: transfer started with " ++ show_int expected ++
      str_bytes ", got " ++ show_int got
  | TooLarge => str_bytes "transfer exceeds " ++ show_int MAX_TRANSFER_BYTES ++ str_bytes " bytes"
  end.

(** ** Gate of the server *)

Definition server_gate (tag : CmdType) (s : Server) : option WireError :=
  if is_arm_motion tag &&
     (negb (attachments_valid s) ||
      existsb (fun '(_, (_, _, shapes)) => existsb has_attachment shapes) (map_to_list (s_pending_shapes s)))
  then Some (attachment_error
               "attachment context changed or apply is pending; reconcile and reapply")
  else
    check_gate tag
      (mkGateContext (s_estop_latched s) (bool_decide (ss_state (s_snap s) = Enabled))
         (ss_homed (s_snap s) || s_teleport_homed s) (s_simulator s)).

(** The tool fitted when a command queued now comes to its turn. *)
Definition tool_ahead (s : Server) : option bytes :=
  let selects := omap (fun p => match pd_cmd p with C_SelectTool t => Some (st_tool_name t) | _ => None end)
                   (rev (s_pending s)) in
  match selects with
  | tool :: _ => Some tool
  | [] =>
      match s_executing s with
      | Some ex => match ex_effect ex with PF_SelectTool tool _ => Some tool | _ => None end
      | None => None
      end
  end.

Section env.
Context `{!Show} `{!ServerEnv}.

(** ** Validation against the configuration *)

Definition show_debug_strs (l : list bytes) : bytes := show_debug_list (map show_debug_str l).

Definition show_tunable (t : TunableNode) : bytes :=
  str_bytes "TunableNode { node: " ++ show_int (tn_node t) ++
  str_bytes ", ilim_ma: " ++ show_f64 Debug (tn_ilim_ma t) ++
  str_bytes ", velocity_limit_ticks_s: " ++ show_f64 Debug (tn_velocity_limit_ticks_s t) ++
  str_bytes ", voltage_limit_mv: " ++ show_int (tn_voltage_limit_mv t) ++ str_bytes " }".

Definition decode_error_to_wire (e : DecodeError) : WireError :=
  let code :=
    match e with
    | Validation _ _ => WE_CommValidationError
    | UnknownTag _ => WE_CommUnknownCommand
    | _ => WE_CommDecodeError
    end in
  make_error code UNATTRIBUTED [("detail"%string, decode_error_text e)].

Definition validate_registries (cfg : ServerConfig) (cmd : Command) : option WireError :=
  let known name := existsb (fun t => eq_ignore_case t name) (cfg_tools cfg) in
  let unknown name :=
    validation_error (str_bytes "unknown tool '" ++ name ++ str_bytes "'; this runtime knows " ++
      show_debug_strs (cfg_tools cfg)) in
  match cmd with
  | C_SelectTool p => if known (st_tool_name p) then None else Some (unknown (st_tool_name p))
  | C_ToolAction p =>
      let name := ta_tool_key p in
      if negb (known name) then Some (unknown name)
      else if negb (eq_ignore_case (cfg_fitted_tool cfg) name) then
        Some (validation_error (str_bytes "tool '" ++ name ++
          str_bytes "' is not fitted; this runtime is running '" ++ cfg_fitted_tool cfg ++
          str_bytes "' (select it first)"))
      else None
  | _ => None
  end.

Definition write_io_fault (port : Z) (cfg : ServerConfig) : option WireError :=
  let n := Z.of_nat (length (cfg_digital_outputs cfg)) in
  if port <? n then None
  else Some (validation_error (str_bytes "write_io port " ++ show_int port ++
    str_bytes " does not exist: this box declares " ++ show_int n ++ str_bytes " digital output(s)")).

Fixpoint angle_fault (i : Z) (angles : list f64) (limits : list (f64 * f64)) : option bytes :=
  match angles, limits with
  | a :: angles, (lo, hi) :: limits =>
      if f64_lt a lo || f64_gt a hi then
        Some (str_bytes "angles[" ++ show_int i ++ str_bytes "] = " ++ show_f64 (Fixed 3) a ++
          str_bytes " deg is outside joint " ++ show_int i ++ str_bytes "'s travel [" ++
          show_f64 (Fixed 3) lo ++ str_bytes ", " ++ show_f64 (Fixed 3) hi ++
          str_bytes "] deg; teleport places the arm exactly where it is told or not at all")
      else angle_fault (i + 1) angles limits
  | _, _ => None
  end.

Definition teleport_angle_fault (angles : list f64) (cfg : ServerConfig) : option bytes :=
  angle_fault 0 angles (cfg_joint_hard_limits_deg cfg).

(** The first tool position outside [0, 1]. *)
Fixpoint position_fault (i : Z) (pos : list f64) : option bytes :=
  match pos with
  | [] => None
  | v :: pos =>
      if negb (f64_is_finite v) || negb (f64_le f64_0 v && f64_le v f64_1) then
        Some (str_bytes "tool_positions[" ++ show_int i ++ str_bytes "] = " ++ show_f64 Display v ++
          str_bytes " is outside [0, 1]")
      else position_fault (i + 1) pos
  end.

Definition tool_position_fault (tool_positions : option (list f64)) (cfg : ServerConfig) : option bytes :=
  match tool_positions with
  | None => None
  | Some pos =>
      if (cfg_tool_dof cfg =? 0)%nat then
        Some (str_bytes "tool '" ++ cfg_fitted_tool cfg ++ str_bytes "' has no controllable position")
      else if negb (length pos =? cfg_tool_dof cfg)%nat then
        Some (str_bytes "tool '" ++ cfg_fitted_tool cfg ++ str_bytes "' has " ++
          show_int (Z.of_nat (cfg_tool_dof cfg)) ++ str_bytes " position(s), " ++
          show_int (Z.of_nat (length pos)) ++ str_bytes " given")
      else position_fault 0 pos
  end.

Definition blend_unsupported (cfg : ServerConfig) (r : option f64) : option bytes :=
  match r with
  | Some r =>
      if f64_gt r f64_0 && negb (cfg_cartesian cfg) then
        Some (str_bytes "blend radius " ++ show_f64 Display r ++
          str_bytes " mm needs kinematics: this runtime has none, so every move stops at its target; send r = nil")
      else None
  | None => None
  end.

Definition or_else {A} (a b : option A) : option A := match a with Some _ => a | None => b end.

Definition validate_supported (cfg : ServerConfig) (cmd : Command) : option WireError :=
  match cmd with
  | C_WriteIo p => write_io_fault (wio_port p) cfg
  | _ =>
      validation_error <$>
      match cmd with
      | C_MoveJ p => blend_unsupported cfg (mj_blend_radius p)
      | C_MoveJPose p => blend_unsupported cfg (mjp_blend_radius p)
      | C_MoveL p => blend_unsupported cfg (ml_blend_radius p)
      | C_MoveC p => blend_unsupported cfg (mc_blend_radius p)
      | C_Teleport p =>
          or_else (teleport_angle_fault (tp_angles p) cfg) (tool_position_fault (tp_tool_positions p) cfg)
      | C_ToolAction p =>
          if (bool_decide (ta_action p = str_bytes "stop") || bool_decide (ta_action p = str_bytes "idle")) &&
             negb (bool_decide (ta_params p = []))
          then Some (ta_action p ++ str_bytes " takes no parameters")
          else if (cfg_tool_dof cfg =? 0)%nat then
            Some (str_bytes "tool '" ++ ta_tool_key p ++ str_bytes "' is passive: it has no actions")
          else None
      | C_ServoJPose _ | C_ServoL _ | C_JogL _ =>
          if negb (cfg_cartesian cfg) then
            Some (str_bytes "this runtime has no kinematics: cartesian commands are unavailable")
          else None
      | _ => None
      end
  end.

Definition validate_queued (cmd : Command) (s : Server) : option WireError :=
  let cfg :=
    match tool_ahead s with
    | Some tool => fst (fit_tool tool (s_cfg s))
    | None => s_cfg s
    end in
  or_else (validate_registries cfg cmd) (validate_supported cfg cmd).

Definition pid_gains_fault (p : SetPidGains) (cfg : ServerConfig) : option WireError :=
  match List.find (fun t => tn_node t =? spg_node p) (cfg_tunable_nodes cfg) with
  | None =>
      Some (validation_error (str_bytes "set_pid_gains node " ++ show_int (spg_node p) ++
        str_bytes " is not a configured drive (tunable nodes: " ++
        show_debug_list (map (fun t => show_int (tn_node t)) (cfg_tunable_nodes cfg)) ++ str_bytes ")"))
  | Some t =>
      let over :=
        if f64_gt (spg_ilim_ma p) (tn_ilim_ma t) then
          Some (str_bytes "ilim_ma", show_f64 Display (spg_ilim_ma p), show_f64 Display (tn_ilim_ma t))
        else if f64_gt (spg_velocity_limit_ticks_s p) (tn_velocity_limit_ticks_s t) then
          Some (str_bytes "velocity_limit_ticks_s", show_f64 Display (spg_velocity_limit_ticks_s p),
                show_f64 Display (tn_velocity_limit_ticks_s t))
        else if negb (tn_voltage_limit_mv t =? 0) && (spg_voltage_limit_mv p >? tn_voltage_limit_mv t) then
          Some (str_bytes "voltage_limit_mv", show_int (spg_voltage_limit_mv p),
                show_int (tn_voltage_limit_mv t))
        else None in
      (fun '(field, asked, ceiling) =>
         validation_error (str_bytes "set_pid_gains " ++ field ++ str_bytes " = " ++ asked ++
           str_bytes " exceeds node " ++ show_int (tn_node t) ++
           str_bytes "'s configured ceiling of " ++ ceiling)) <$> over
  end.

(** The whole divisors of the tick rate, highest first. *)
Definition servable_status_rates (tick_hz : spec_float) : list Z :=
  let ticks := sf_round_as_uint 32 tick_hz in
  map (fun d => ticks / d) (List.filter (fun d => ticks mod d =? 0) (seqZ 1 ticks)).

Definition tick_hz (cfg : ServerConfig) : spec_float := sf_div (sf_of_int 1) (f64_to_SF (cfg_tick_dt_s cfg)).

Definition status_rate_fault (tick_hz : spec_float) (hz : f64) : option WireError :=
  let allowed := servable_status_rates tick_hz in
  if existsb (fun r => match SFcompare (sf_of_int r) (f64_to_SF hz) with Some Eq => true | _ => false end)
       allowed
  then None
  else Some (validation_error (str_bytes "set_status_rate " ++ show_f64 Display hz ++
    str_bytes " Hz is not one of the whole-Hz rates the " ++ show_f64 Display (sf_to_f64 tick_hz) ++
    str_bytes " Hz tick rate divides into; STATUS is emitted every Nth tick, so the achievable rates are: " ++
    join_bytes (str_bytes ", ") (map show_int allowed))).

Definition commissioning_gate (node : Z) (force : bool) (what : string) (s : Server) : result WireError unit :=
  if negb (arm_at_rest s) then
    Err (validation_error (str_bytes what ++ str_bytes " needs an arm at rest: mode " ++
      str_bytes (show_mode (ss_mode (s_snap s))) ++ str_bytes ", " ++
      str_bytes (if motion_in_flight s then "motion in flight" else "nothing in flight")))
  else if negb force && negb (existsb (fun t => tn_node t =? node) (cfg_tunable_nodes (s_cfg s))) then
    Err (validation_error (str_bytes what ++ str_bytes " node " ++ show_int node ++
      str_bytes " is not a configured drive (configured: " ++
      show_debug_list (map show_tunable (cfg_tunable_nodes (s_cfg s))) ++
      str_bytes "); pass force to address it anyway"))
  else Ok tt.

(** ** Calls with an answer *)

Definition rt_stream (cmd : Command) (s : Server) : Server * result WireError unit :=
  (rt (RT_stream cmd) s, env_stream (s_out s) cmd).
Definition rt_stop_refused_stream (s : Server) : Server * bool :=
  (rt RT_stop_refused_stream s, env_stop_refused_stream (s_out s)).
Definition rt_refusal_in_progress (s : Server) : Server * bool :=
  (rt RT_refusal_in_progress s, env_refusal_in_progress (s_out s)).

(** ** Streams *)

(** The datagrams queued behind a preemption: those of the stream it replaces are
    discarded, every other one is kept for the event loop. *)
Fixpoint drain_go (fuel : nat) (superseded : CmdType) (s : Server) : Server :=
  match fuel with
  | O => s
  | S fuel =>
      let got := env_try_recv (s_out s) in
      let s := emit O_TryRecv s in
      match got with
      | None => s
      | Some (data, from) =>
          let stale :=
            match peek_tag data with
            | Ok t => bool_decide (from_wire t = Some superseded)
            | Err _ => false
            end in
          if stale then drain_go fuel superseded s
          else drain_go fuel superseded (put_deferred (s_deferred s ++ [(data, from)]) s)
      end
  end.

Definition drain_stream_backlog (superseded : CmdType) (s : Server) : Server :=
  drain_go DRAIN_LIMIT superseded s.

(** A setpoint of the stream already active. *)
Definition update_stream (cmd : Command) (s : Server) : Server * result WireError unit * bool :=
  let '(s, outcome) := rt_stream cmd s in
  match outcome with
  | Ok _ => (s, outcome, false)
  | Err _ =>
      let '(s, stopping) := rt_stop_refused_stream s in
      ((if stopping then s else put_active_stream None s), outcome, true)
  end.

(** The first setpoint of a stream: whatever else moves the arm gives way. *)
Definition start_stream (cmd : Command) (s : Server) : Server * result WireError unit * bool :=
  let s :=
    match s_active_stream s with
    | Some superseded =>
        let s := put_active_stream None s in
        let '(s, refusing) := rt_refusal_in_progress s in
        let s := if refusing then s else rt RT_cancel_stream s in
        drain_stream_backlog superseded s
    | None => s
    end in
  let '(s, dropped) := drop_planned true s in
  let '(s, outcome) := rt_stream cmd s in
  let '(s, in_place) :=
    match outcome with
    | Ok _ => (put_active_stream (Some (tag cmd)) s, false)
    | Err _ =>
        let '(s, refusing) := rt_refusal_in_progress s in
        if refusing then (put_active_stream (Some (tag cmd)) s, true) else (s, false)
    end in
  let '(s, _) := complete_cancelled "a streaming preemption" dropped s in
  (s, outcome, in_place).

Definition on_faf (req_id : Z) (cmd : Command) (addr : Addr) (s : Server) : Server :=
  let t := tag cmd in
  if bool_decide (t = T_ResetLoopStats) then rt RT_reset_loop_stats s
  else
    match or_else (server_gate t s) (validate_supported (s_cfg s) cmd) with
    | Some error => reply addr (R_Error req_id error) (latch_faf_refusal error s)
    | None =>
        let '(s, outcome, refused_in_place) :=
          if bool_decide (s_active_stream s = Some t) then update_stream cmd s else start_stream cmd s in
        match outcome with
        | Ok _ => on_motion_accepted s
        | Err error =>
            let s := if refused_in_place then latch_stream_refusal error s else latch_faf_refusal error s in
            reply addr (R_Error req_id error) s
        end
    end.

(** ** Queued commands *)

Definition next_plan_tag (s : Server) : Server * Z :=
  let t := s_next_tag s + 1 in (put_next_tag t s, t).

Definition start_tool_stop (index : Z) (addr : Addr) (cmd : ToolAction) (s : Server) : Server :=
  let '(s, dropped) := drop_active_tool_action s in
  let '(s, _) := complete_cancelled "a tool stop" dropped s in
  let '(s, t) := next_plan_tag s in
  let s := put_tool_stops (s_tool_stops s ++ [mkToolStop index addr (Some t)]) s in
  plan (PR_StartTool t index cmd) s.

(** A [tool_action] whose verb is [stop]. *)
Definition tool_stop_of (cmd : Command) : option ToolAction :=
  match cmd with
  | C_ToolAction p => if bool_decide (ta_action p = str_bytes "stop") then Some p else None
  | _ => None
  end.

(** An admitted command takes the next index. *)
Definition allocate (key : Z) (s : Server) : Server * Z :=
  let index := s_next_index s in
  let s := put_next_index (index + 1) s in
  let s := put_dedup (dedup_insert key index (s_dedup s)) s in
  (put_accepted_index index s, index).

Definition queue_refusal (cmd : Command) (s : Server) : option WireError :=
  match server_gate (tag cmd) s with
  | Some error => Some error
  | None =>
      let refused :=
        match tool_stop_of cmd with
        | Some _ => or_else (validate_registries (s_cfg s) cmd) (validate_supported (s_cfg s) cmd)
        | None => validate_queued cmd s
        end in
      match refused with
      | Some error => Some error
      | None =>
          if negb (is_some (tool_stop_of cmd)) &&
             (cfg_queue_capacity (s_cfg s) <=? length (s_pending s))%nat
          then Some (make_error WE_CommQueueFull UNATTRIBUTED
            [("detail"%string, str_bytes "The motion queue is full; wait for queued motions to finish before enqueueing more.")])
          else None
      end
  end.

Definition on_queued (req_id : Z) (cmd : Command) (addr : Addr) (s : Server) : Server :=
  match idempotency_key cmd with
  | None => s
  | Some key =>
      match dedup_get (s_dedup s) key with
      | Some index => reply addr (R_Ok req_id (Some index)) s
      | None =>
          match queue_refusal cmd s with
          | Some error => reply addr (R_Error req_id error) s
          | None =>
              let '(s, index) := allocate key s in
              let s := on_motion_accepted s in
              match tool_stop_of cmd with
              | Some stop => start_tool_stop index addr stop (reply addr (R_Ok req_id (Some index)) s)
              | None =>
                  let s := cancel_stream_if_any s in
                  let s := put_pending (s_pending s ++ [mkPending index cmd addr]) s in
                  pump (reply addr (R_Ok req_id (Some index)) s)
              end
          end
      end
  end.

(** ** System commands *)

Definition answer_waiters (waiting : list (Z * Addr)) (outcome : result WireError unit) (s : Server) : Server :=
  fold_left (fun s '(req_id, addr) =>
    reply addr match outcome with Ok _ => R_Ok req_id None | Err error => R_Error req_id error end s)
    waiting s.

Definition on_reset (req_id : Z) (addr : Addr) (s : Server) : Server :=
  match waiters_try_push req_id addr (s_reset_waiters s) with
  | Err error => reply addr (R_Error req_id error) s
  | Ok w =>
      let s := invalidate_attachments (put_reset_waiters w s) in
      let s := put_action_state AS_Idle (put_standing_error None (put_estop_latched false s)) in
      rt (RT_set_enabled true) s
  end.

Definition defer_program_shapes (req_id : Z) (addr : Addr) (shapes : list Shape) (s : Server) : Server :=
  let '(s, t) := next_plan_tag s in
  let s := put_pending_shapes (<[t := (req_id, addr, shapes)]> (s_pending_shapes s)) s in
  plan (PR_SetShapes t SL_Program shapes) s.

Definition on_reset_state (req_id : Z) (addr : Addr) (s : Server) : Server :=
  let s := invalidate_attachments s in
  let '(s, _) := cancel_all_motion "reset" s in
  let s := put_action_state AS_Idle (put_standing_error None s) in
  let s := put_last_checkpoint [] s in
  let s := put_tool_variant None (put_tool (cfg_fitted_tool (s_cfg s)) s) in
  let s := put_tcp_rotation_deg zero3 (put_tcp_offset_mm zero3 s) in
  let s := put_profile (cfg_initial_profile (s_cfg s)) (put_completion_policy CP_Settled s) in
  let s := clear_pause s in
  let s := sync_planner (rt RT_reset_state s) in
  defer_program_shapes req_id addr [] s.

Definition attachment_shapes_error (shapes : list Shape) (s : Server) : option WireError :=
  let attached := existsb has_attachment shapes in
  if (attached || existsb has_attachment (s_shapes s)) &&
     (is_some (s_executing s) || is_some (s_planning s) || is_some (s_active_stream s) ||
      negb (bool_decide (s_pending s = [])) || negb (bool_decide (s_pending_shapes s = ∅)))
  then Some (attachment_error "stop motion before changing attachments")
  else if attached && (negb (bool_decide (ss_state (s_snap s) = Enabled)) || negb (ss_homed (s_snap s)) ||
                       negb (link_ok s))
  then Some (attachment_error "attachments require fresh enabled, referenced state")
  else if negb (attachments_fresh shapes (s_attachment_epoch s))
  then Some (attachment_error
         "attachment context changed; reconcile the physical scene and reapply")
  else None.

Definition on_flashing (req_id : Z) (enter : bool) (addr : Addr) (s : Server) : Server :=
  let s := stop_invalid_attachments (refresh_snapshot s) in
  if negb enter && negb (mode_eqb (ss_mode (s_snap s)) Flashing) then
    reply addr (R_Error req_id (validation_error
      (str_bytes "exit_flashing while the controller mode is " ++
       str_bytes (show_mode (ss_mode (s_snap s))) ++ str_bytes ", not FLASHING"))) s
  else if enter && negb (arm_at_rest s) then
    reply addr (R_Error req_id (validation_error
      (str_bytes "enter_flashing needs an arm at rest: mode " ++
       str_bytes (show_mode (ss_mode (s_snap s))) ++ str_bytes ", " ++
       show_int (Z.of_nat (length (s_pending s))) ++ str_bytes " queued, " ++
       str_bytes (if is_some (s_executing s) || is_some (s_active_stream s) then "moving" else "nothing moving")))) s
  else
    match waiters_try_push req_id addr (s_flashing_waiters s) with
    | Err error => reply addr (R_Error req_id error) s
    | Ok w => rt (if enter then RT_enter_flashing else RT_exit_flashing) (put_flashing_waiters w s)
    end.

Definition on_bus_swap (req_id : Z) (cmd : Command) (addr : Addr) (s : Server) : Server :=
  let s := invalidate_attachments s in
  let '(scope, call, simulator, answer) :=
    match cmd with
    | C_Simulator p =>
        ("the simulator switch"%string, RT_set_simulator (sim_on p), sim_on p,
         fun out => env_set_simulator out (sim_on p))
    | C_ConnectHardware p =>
        ("the hardware connect"%string, RT_connect_hardware (ch_port p), false,
         fun out => env_connect_hardware out (ch_port p))
    | _ => (""%string, RT_halt, false, fun _ => Ok tt)
    end in
  let '(s, _) := cancel_all_motion scope s in
  let started := answer (s_out s) in
  let s := rt call s in
  match started with
  | Err error => reply addr (R_Error req_id error) s
  | Ok _ =>
      let s := put_pending_simulator (Some simulator) s in
      match waiters_try_push req_id addr (s_bus_waiters s) with
      | Err error => reply addr (R_Error req_id error) s
      | Ok w => put_bus_waiters w s
      end
  end.

(** [C::Estop]: the drives are disabled before anything is answered. *)
Definition on_estop (s : Server) : Server :=
  let s := rt (RT_set_enabled false) (put_estop_latched true s) in
  let s := put_standing_error (Some (make_error WE_SysEstopActive UNATTRIBUTED [])) s in
  let '(s, _) := cancel_all_motion "estop" s in
  clear_pause s.

Definition on_stop (clear_queue : bool) (s : Server) : Server :=
  let '(s, dropped) := if clear_queue then cancel_all_motion "stop" s else cancel_active_motion "stop" s in
  let s := if clear_queue then clear_pause s else s in
  if clear_queue && (0 <? dropped)%nat then
    put_standing_error
      (Some (make_error WE_MotnCancelled UNATTRIBUTED [("scope"%string, str_bytes "stop")])) s
  else s.

Definition on_teleport (cmd : Command) (p : Teleport) (s : Server) : Server * result WireError unit :=
  match validate_supported (s_cfg s) cmd with
  | Some error => (s, Err error)
  | None =>
      let s :=
        match s_active_stream s with
        | Some superseded =>
            drain_stream_backlog superseded (rt RT_cancel_stream (put_active_stream None s))
        | None => s
        end in
      let '(s, _) := cancel_planned "a teleport" (negb (is_some (tp_tool_positions p))) s in
      let s := rt (RT_teleport (tp_angles p) (tp_tool_positions p)) s in
      (on_motion_accepted (put_teleport_homed true s), Ok tt)
  end.

(** The system commands answered from the match itself. *)
Definition system_effect (cmd : Command) (s : Server) : Server * result WireError unit :=
  let ok s := (s, Ok tt : result WireError unit) in
  let commission (node : Z) (force : bool) (what : string) (call : RtCall) :=
    match commissioning_gate node force what s with
    | Ok _ => ok (rt call s)
    | Err error => (s, Err error)
    end in
  match cmd with
  | C_Estop => ok (on_estop s)
  | C_SetExecutionSpeed p => ok (rt (RT_set_exec_speed (ses_scale p)) s)
  | C_Pause p => ok (rt (RT_set_exec_paused (pause_on p)) (put_execution_paused (pause_on p) s))
  | C_SetGravityComp p => ok (rt (RT_set_gravity_comp (sgc_on p)) s)
  | C_Stop p => ok (on_stop (stop_clear_queue p) s)
  | C_Teleport p => on_teleport cmd p s
  | C_SelectProfile p =>
      match List.find (fun x => eq_ignore_case x (spf_profile p)) (cfg_profiles (s_cfg s)) with
      | Some name => ok (sync_planner (put_profile name s))
      | None => (s, Err (make_error WE_SysProfileInvalid UNATTRIBUTED [("detail"%string, spf_profile p)]))
      end
  | C_SetPayload p =>
      let payload := mkPayloadSpec (spl_mass p) (spl_com p) (spl_inertia p) in
      ok (sync_planner (rt (RT_set_payload payload) (put_payload payload s)))
  | C_SetPidGains p =>
      match pid_gains_fault p (s_cfg s) with
      | Some error => (s, Err error)
      | None => ok (rt (RT_set_pid_gains p) s)
      end
  | C_SetCanId p => commission (sci_node p) (sci_force p) "set_can_id" (RT_set_can_id (sci_node p) (sci_new_id p))
  | C_SaveConfig p => commission (sc_node p) (sc_force p) "save_config" (RT_save_config (sc_node p))
  | C_SetToolId p =>
      match commissioning_gate (sti_node p) (sti_force p) "set_tool_id" s with
      | Err error => (s, Err error)
      | Ok _ =>
          if sti_force p || (sti_tool_id p =? 0) || existsb (Z.eqb (sti_tool_id p)) (cfg_tool_ids (s_cfg s))
          then ok (rt (RT_set_tool_id (sti_node p) (sti_tool_id p)) s)
          else (s, Err (validation_error (str_bytes "no configured tool carries tool id " ++
                 show_int (sti_tool_id p) ++ str_bytes "; configured ids " ++
                 show_debug_list (map show_int (cfg_tool_ids (s_cfg s))) ++
                 str_bytes " (or 0 to unprovision, or force)")))
      end
  | C_SetStatusRate p =>
      match status_rate_fault (tick_hz (s_cfg s)) (ssr_hz p) with
      | Some error => (s, Err error)
      | None => ok (put_status_rate_hz (sf_trunc_as_uint 32 (f64_to_SF (ssr_hz p))) s)
      end
  | C_SetCompletionPolicy p => ok (sync_planner (put_completion_policy (scp_policy p) s))
  | _ => ok s
  end.

Definition on_system (req_id : Z) (cmd : Command) (addr : Addr) (s : Server) : Server :=
  match server_gate (tag cmd) s with
  | Some error => reply addr (R_Error req_id error) s
  | None =>
      match cmd with
      | C_Reset => on_reset req_id addr s
      | C_ResetState => on_reset_state req_id addr s
      | C_SetShapes p =>
          match attachment_shapes_error (ss_shapes p) s with
          | Some error => reply addr (R_Error req_id error) s
          | None => defer_program_shapes req_id addr (ss_shapes p) s
          end
      | C_EnterFlashing _ => on_flashing req_id true addr s
      | C_ExitFlashing => on_flashing req_id false addr s
      | C_Simulator _ | C_ConnectHardware _ => on_bus_swap req_id cmd addr s
      | _ =>
          let '(s, verdict) := system_effect cmd s in
          reply addr match verdict with Ok _ => R_Ok req_id None | Err error => R_Error req_id error end s
      end
  end.

(** ** Queries *)

Definition refresh_queue_estimate (s : Server) : Server :=
  let key := (match s_pending s with p :: _ => pd_index p | [] => 0 end, length (s_pending s)) in
  if bool_decide (key = s_queue_estimate_for s) then s
  else put_queue_estimate_for key (plan (PR_QueueEstimate (map owned (s_pending s))) s).

(** The bus as the runtime sees it, one row per node id. *)
Definition bus_node (s : Server) (id : Z) : BusNode :=
  let slot := position (fun n => tn_node n =? id) (cfg_tunable_nodes (s_cfg s)) in
  let seen := i ← slot; n ← ss_nodes (s_snap s) !! i; f ← ss_node_freshness (s_snap s) !! i; Some (n, f) in
  let fresh :=
    match seen with
    | Some (_, Fr_Unknown) | None => 0 | Some (_, Fr_Fresh) => 1 | Some (_, Fr_Stale) => 2
    | Some (_, Fr_Lost) => 3
    end in
  let info := '(n, _) ← seen; ns_device_info n in
  let field (f : DeviceInfo -> Z) := match info with Some d => f d | None => 0 end in
  mkBusNode id (is_some slot) (Z.testbit (ss_bus_nodes (s_snap s)) id) fresh
    (field di_hw_ver) (field di_sw_ver) (field di_serial) (field di_tool_id).

Definition bus_scan_result (s : Server) : QueryResult := QR_BusScan (map (bus_node s) (seqZ 0 16)).

Definition stream_shown (s : Server) : option string :=
  match s_active_stream s with
  | Some tag => if mode_in (ss_mode (s_snap s)) [Jog; Stream] then Some (cmd_name tag) else None
  | None => None
  end.

Definition action_fields (s : Server) : string * ActionState :=
  match s_executing s with
  | Some ex => (cmd_name (ex_tag ex), AS_Executing)
  | None =>
      match stream_shown s with
      | Some name => (name, AS_Executing)
      | None => if is_some (effective_error s) then (""%string, AS_Error) else (""%string, s_action_state s)
      end
  end.

Definition executing_index (s : Server) : Z :=
  match s_executing s with Some ex => ex_index ex | None => -1 end.

(** The last completion kept of an index. *)
Definition completion_of (index : Z) (s : Server) : option (option WireError * option Z) :=
  match List.find (fun '(i, _, _) => i =? index) (rev (s_completion_log s)) with
  | Some (_, detail, verdict) => Some (detail, verdict)
  | None => None
  end.

Definition query_result (cmd : Command) (s : Server) : QueryResult :=
  match cmd with
  | C_Ping => QR_Ping (negb (s_simulator s) && link_ok s)
  | C_Tools => QR_Tools (s_tool s) (cfg_tools (s_cfg s))
  | C_Queue =>
      QR_Queue (map (fun p => cmd_name (tag (pd_cmd p))) (s_pending s)) (executing_index s)
        (s_completed_index s) (s_last_checkpoint s)
  | C_Activity =>
      let '(current, state) := action_fields s in
      QR_Activity current state
        match s_pending s with p :: _ => cmd_name (tag (pd_cmd p)) | [] => ""%string end
  | C_Profile => QR_Profile (s_profile s)
  | C_Error => QR_Error (effective_error s)
  | C_TcpOffset =>
      QR_TcpOffset (nth 0 (s_tcp_offset_mm s) f64_0) (nth 1 (s_tcp_offset_mm s) f64_0)
        (nth 2 (s_tcp_offset_mm s) f64_0)
  | C_TcpTransform => QR_TcpTransform (s_tcp_offset_mm s ++ s_tcp_rotation_deg s)
  | C_CommandCompletion index =>
      match completion_of index s with
      | Some (detail, verdict) => QR_CommandCompletion index true (negb (is_some detail)) detail verdict
      | None => QR_CommandCompletion index false false None None
      end
  | C_IsSimulator => QR_IsSimulator (s_simulator s)
  | C_BusScan => bus_scan_result s
  | C_Payload =>
      QR_Payload (ps_mass (s_payload s)) (ps_com (s_payload s))
        (default (replicate 6 f64_0) (ps_inertia (s_payload s)))
  | C_Shapes =>
      QR_Shapes (cfg_installation_shapes (s_cfg s)) (s_shapes s) (s_scene_epoch s) (s_attachment_epoch s)
  | _ => QR_Readout (tag cmd)
  end.

Definition on_query (req_id : Z) (cmd : Command) (addr : Addr) (s : Server) : Server :=
  match server_gate (tag cmd) s with
  | Some error => reply addr (R_Error req_id error) s
  | None =>
      match cmd with
      | C_BusScan =>
          let s := rt RT_rescan_bus s in
          put_pending_scans (s_pending_scans s ++
            [mkPendingScan req_id addr (ss_bus_scan_epoch (s_snap s)) (s_now s + SCAN_REPLY_DEADLINE)]) s
      | _ =>
          let s := refresh_queue_estimate s in
          reply addr (R_Response req_id (query_result cmd s)) s
      end
  end.

Definition answer_scans (s : Server) : Server :=
  let ready p := negb (ss_bus_scan_epoch (s_snap s) =? pc_epoch p) || (s_now s >=? pc_deadline p) in
  let answered := List.filter ready (s_pending_scans s) in
  let s := put_pending_scans (List.filter (fun p => negb (ready p)) (s_pending_scans s)) s in
  fold_left (fun s p => reply (pc_addr p) (R_Response (pc_req_id p) (bus_scan_result s)) s) answered s.

(** ** Datagrams *)

Definition dispatch (req_id : Z) (cmd : Command) (addr : Addr) (s : Server) : Server :=
  match command_class (tag cmd) with
  | CC_Query => on_query req_id cmd addr s
  | CC_System => on_system req_id cmd addr s
  | CC_FireAndForget => on_faf req_id cmd addr s
  | CC_Queued => on_queued req_id cmd addr s
  end.

Definition refuse_datagram (data : bytes) (addr : Addr) (e : DecodeError) (s : Server) : Server :=
  reply addr (R_Error (default 0 (peek_req_id data)) (decode_error_to_wire e)) s.

Definition on_command_bytes (data : bytes) (addr : Addr) (s : Server) : Server :=
  match decode_command data with
  | Ok (req_id, cmd) => dispatch req_id cmd addr s
  | Err e => refuse_datagram data addr e s
  end.

Definition on_chunk (data : bytes) (addr : Addr) (s : Server) : Server :=
  match decode_chunk data with
  | Err e => refuse_datagram data addr e s
  | Ok chunk =>
      let req_id := ch_req_id chunk in
      let id := ch_transfer_id chunk in
      let s := put_transfer_addrs (<[id := addr]> (s_transfer_addrs s)) s in
      let '(r, pushed) := push (s_reassembler s) chunk (s_now s) in
      let s := put_reassembler r s in
      let forget s := put_transfer_addrs (delete id (s_transfer_addrs s)) s in
      match pushed with
      | Ok None => s
      | Ok (Some assembled) => on_command_bytes (as_payload assembled) addr (forget s)
      | Err e =>
          reply addr (R_Error req_id
            (make_error WE_CommDecodeError UNATTRIBUTED [("detail"%string, chunk_error_text e)])) (forget s)
      end
  end.

Definition expire_chunks (s : Server) : Server :=
  let '(r, expired) := expire (s_reassembler s) (s_now s) in
  fold_left (fun s x =>
    match s_transfer_addrs s !! xp_transfer_id x with
    | None => s
    | Some addr =>
        reply addr (R_Error (xp_req_id x) (make_error WE_CommChunkTimeout UNATTRIBUTED
          [("transfer_id"%string, show_int (xp_transfer_id x)); ("received"%string, show_int (xp_received x));
           ("total"%string, show_int (xp_total x))]))
          (put_transfer_addrs (delete (xp_transfer_id x) (s_transfer_addrs s)) s)
    end) expired (put_reassembler r s).

Definition on_datagram (data : bytes) (addr : Addr) (s : Server) : Server :=
  let s := stop_invalid_attachments (refresh_snapshot s) in
  match peek_tag data with
  | Ok t => if t =? wire MT_Chunk then on_chunk data addr s else on_command_bytes data addr s
  | Err _ => on_command_bytes data addr s
  end.

(** ** Verdicts of the core *)

Definition settle_enable (s : Server) : Server :=
  let outcome := env_take_enable_outcome (s_out s) in
  let s := rt RT_take_enable_outcome s in
  match outcome with
  | None => s
  | Some outcome =>
      let '(w, waiting) := waiters_take (s_reset_waiters s) in
      answer_waiters waiting outcome (put_reset_waiters w s)
  end.

Definition settle_flashing (s : Server) : Server :=
  let outcome := env_take_flashing_outcome (s_out s) in
  let s := rt RT_take_flashing_outcome s in
  match outcome with
  | None => s
  | Some outcome =>
      let '(w, waiting) := waiters_take (s_flashing_waiters s) in
      answer_waiters waiting outcome (put_flashing_waiters w s)
  end.

Definition settle_bus (s : Server) : Server :=
  let outcome := env_take_bus_outcome (s_out s) in
  let s := rt RT_take_bus_outcome s in
  match outcome with
  | None => s
  | Some outcome =>
      let s :=
        match s_pending_simulator s with
        | Some simulator =>
            let s := put_pending_simulator None s in
            if is_ok outcome then put_simulator simulator s else s
        | None => s
        end in
      let '(w, waiting) := waiters_take (s_bus_waiters s) in
      answer_waiters waiting outcome (put_bus_waiters w s)
  end.

Definition request_boot_enable (s : Server) : Server :=
  if s_booted s || mode_eqb (ss_mode (s_snap s)) Booting then s
  else rt (RT_set_enabled true) (put_booted true s).

(** ** STATUS *)

Definition status_stride (s : Server) : Z :=
  Z.max 1 (sf_round_as_uint 64 (sf_div (tick_hz (s_cfg s)) (sf_of_int (Z.max (s_status_rate_hz s) 1)))).

Definition emit_status (s : Server) : Server :=
  let s := put_last_status_tick (Some (ss_tick (s_snap s))) s in
  let s := refresh_queue_estimate (stop_invalid_attachments s) in
  emit (O_Status (s_status_seq s)) (put_status_seq (s_status_seq s + 1) s).

Definition emit_status_on_tick (s : Server) : Server :=
  let stride := status_stride s in
  let tick := ss_tick (s_snap s) in
  match s_last_status_tick s with
  | Some last => if tick / stride =? last / stride then s else emit_status s
  | None => emit_status s
  end.

Definition on_status (s : Server) : Server :=
  let due := env_status_due (s_out s) in
  let s := emit O_TimerCheck s in
  if negb due then s else emit_status (refresh_snapshot s).

(** ** The event loop *)

Definition on_poll (s : Server) : Server :=
  let s := stop_invalid_attachments (emit_status_on_tick (refresh_snapshot s)) in
  let s := request_boot_enable (answer_scans s) in
  let s := settle_bus (settle_flashing (settle_enable s)) in
  pump (expire_chunks s).

Inductive ServerEvent :=
| SE_Datagram (data : bytes) (addr : Addr)
| SE_Poll
| SE_Status
| SE_Plan (ev : PlanEvent)
| SE_Deferred.

(** One turn of the loop at time [now].  A datagram a preemption kept back is
    dispatched before the next event is taken. *)
Definition server_turn (now : Z) (ev : ServerEvent) (s : Server) : option Server :=
  let s := put_now now s in
  match ev, s_deferred s with
  | SE_Deferred, (data, from) :: rest => Some (on_datagram data from (put_deferred rest s))
  | SE_Deferred, [] => None
  | _, _ :: _ => None
  | SE_Datagram data addr, [] => Some (on_datagram data addr s)
  | SE_Poll, [] => Some (on_poll s)
  | SE_Status, [] => Some (on_status s)
  | SE_Plan ev, [] => Some (on_plan_event ev s)
  end.

(** [spawn] and the start of [run]: the installation shapes are mirrored into the
    streaming gate, whose refusal is a startup failure, and the planner is synced. *)
Definition server_start (cfg : ServerConfig) (attachment_epoch installation_epoch : Z)
  : result WireError Server :=
  let s := put_scene_epoch installation_epoch (server_new cfg attachment_epoch) in
  match cfg_installation_shapes cfg with
  | [] => Ok (sync_planner s)
  | shapes =>
      let '(s, verdict) := rt_set_shapes SL_Installation shapes s in
      match verdict with
      | Ok _ => Ok (sync_planner s)
      | Err e => Err e
      end
  end.

End env.

(** The states the loop reaches, whatever arrives and however the environment answers. *)
Inductive server_reachable `{!Show} `{!ServerEnv} : Server -> Prop :=
| sr_start cfg ae ie s : server_start cfg ae ie = Ok s -> server_reachable s
| sr_turn s now ev s' : server_reachable s -> server_turn now ev s = Some s' -> server_reachable s'.

(** One state reached from another by turns of the loop. *)
Inductive server_runs `{!Show} `{!ServerEnv} (s : Server) : Server -> Prop :=
| sn_here : server_runs s s
| sn_turn s' now ev s'' : server_runs s s' -> server_turn now ev s' = Some s'' -> server_runs s s''.
