(* ===== verification/ServerLedger.v ===== *)
(** * ServerLedger: where every command index is

    The accounting invariant of the command plane.  An index the server hands out
    stands in exactly one place: in the pending queue, in the motion executing
    (with the moves blended into it), among the tool stops, or, once, among the
    COMPLETE pushes sent.  [sound c d a s] is the invariant inside a handler, while
    the indices [d] have been dropped and not yet spoken for and those of [a]
    counted as finished and not yet pushed; between events both are empty.
    [c] is the part of the state the admission of commands reads, which most handlers
    leave alone. *)
From Stdlib Require Import Sorted.
From stdpp Require Import gmap list_numbers.
From S2P Require Import Prelude F64 Wire Enums Command CommandCodec Chunk WireError BusTypes Ring RtState ServerGate ServerTypes ServerQueue ServerDispatch.

(** ** Occurrences *)

Definition occ (i : Z) (l : list Z) : nat := count_occ Z.eq_dec l i.

Arguments occ : simpl never.

Lemma occ_nil i : occ i [] = 0%nat.
Proof. done. Qed.

Lemma occ_cons i x l : occ i (x :: l) = ((if (x =? i)%Z then 1 else 0) + occ i l)%nat.
Proof.
  unfold occ. cbn. destruct (Z.eq_dec x i) as [->|H].
  - by rewrite Z.eqb_refl.
  - by rewrite (proj2 (Z.eqb_neq x i) H).
Qed.

Lemma occ_app i l1 l2 : occ i (l1 ++ l2) = (occ i l1 + occ i l2)%nat.
Proof. apply count_occ_app. Qed.

Lemma occ_in i l : (0 < occ i l)%nat <-> In i l.
Proof. symmetry. apply (count_occ_In Z.eq_dec). Qed.

Lemma occ_nodup l : (forall i, (occ i l <= 1)%nat) -> List.NoDup l.
Proof. apply (NoDup_count_occ Z.eq_dec). Qed.

(** Counting closes what the splitting of lists leaves. *)
Ltac count :=
  intros;
  repeat match goal with
  | H : forall i : Z, _ = _ |- context [occ ?i _] => specialize (H i)
  end;
  rewrite ?occ_app, ?occ_cons, ?occ_nil in *; try lia.

(** ** The ledger *)

Definition completion (o : Out) : option Z :=
  match o with O_Reply _ (R_Complete index _ _ _) => Some index | _ => None end.

(** The indices of the COMPLETE pushes, in the order they were sent. *)
Definition completions (s : Server) : list Z := omap completion (s_out s).

Definition executing_indices (s : Server) : list Z :=
  match s_executing s with Some ex => ex_index ex :: map fst (ex_blended ex) | None => [] end.

(** The accepted commands that have not finished. *)
Definition live (s : Server) : list Z :=
  executing_indices s ++ map pd_index (s_pending s) ++ map tst_index (s_tool_stops s).

(** What the admission of commands reads: the next index, the keys known, the
    e-stop latch, the transfers under way and the clock. *)
Record Frame := mkFrame {
  fr_next : Z;
  fr_dedup : Dedup;
  fr_latched : bool;
  fr_reassembler : Reassembler;
  fr_now : Z;
}.

Definition frame (s : Server) : Frame :=
  mkFrame (s_next_index s) (s_dedup s) (s_estop_latched s) (s_reassembler s) (s_now s).

Record Ledger := mkLedger {
  lg_frame : Frame;
  lg_accepted : Z;
  lg_pending : list Z;
  lg_planning : option Z;
  lg_exec : list Z;
  lg_stops : list Z;
  lg_completed : Z;
  lg_finished : gset Z;
  lg_done : list Z;
  lg_capacity : nat;
}.

Definition ledger (s : Server) : Ledger :=
  mkLedger (frame s) (s_accepted_index s) (map pd_index (s_pending s)) (s_planning s)
    (executing_indices s) (map tst_index (s_tool_stops s)) (s_completed_index s) (s_finished s)
    (completions s) (cfg_queue_capacity (s_cfg s)).

Abbreviation lg_next L := (fr_next (lg_frame L)).

(** The invariant of a ledger whose frame is [c]. *)
Record ledger_ok (c : Frame) (d a : list Z) (L : Ledger) : Prop := {
  lo_frame : lg_frame L = c;
  lo_part : forall i,
    (occ i (lg_exec L) + occ i (lg_pending L) + occ i (lg_stops L) + occ i d + occ i a + occ i (lg_done L)
     = if ((1 <=? i) && (i <? lg_next L))%Z then 1 else 0)%nat;
  lo_next : 1 <= lg_next L;
  lo_accepted : lg_accepted L = if lg_next L =? 1 then -1 else lg_next L - 1;
  lo_sorted : StronglySorted Z.lt (lg_exec L ++ lg_pending L);
  lo_planning : forall i, lg_planning L = Some i -> lg_exec L = [] /\ head (lg_pending L) = Some i;
  lo_mark : lg_completed L = -1 \/ 1 <= lg_completed L;
  lo_finished : forall i, i ∈ lg_finished L -> Z.max 0 (lg_completed L) + 1 < i;
  lo_advanced : forall i,
    (0 < occ i a + occ i (lg_done L))%nat <-> 1 <= i <= lg_completed L \/ i ∈ lg_finished L;
  lo_capacity : (length (lg_pending L) <= lg_capacity L)%nat;
}.

Definition sound (c : Frame) (d a : list Z) (s : Server) : Prop := ledger_ok c d a (ledger s).

(** A function that leaves the ledger alone keeps the invariant. *)
Lemma sound_same c d a s s' : ledger s' = ledger s -> sound c d a s -> sound c d a s'.
Proof. unfold sound. by intros ->. Qed.

Lemma ledger_emit o s : completion o = None -> ledger (emit o s) = ledger s.
Proof.
  intros H. unfold ledger, completions, executing_indices. cbn. rewrite omap_app. cbn. rewrite H.
  by rewrite app_nil_r.
Qed.

Lemma sound_emit c d a o s : completion o = None -> sound c d a s -> sound c d a (emit o s).
Proof. intros. by eapply sound_same; [apply ledger_emit|]. Qed.

(** The dropped and the counted indices in another order. *)
Lemma sound_counts c d a d' a' s :
  (forall i, occ i d' = occ i d) -> (forall i, occ i a' = occ i a) -> sound c d a s -> sound c d' a' s.
Proof.
  intros Hd Ha [H0 H1 H2 H3 H4 H5 H6 H7 H8 H9]. constructor; auto; intros i.
  - rewrite Hd, Ha. apply H1.
  - rewrite Ha. apply H8.
Qed.

(** ** The high-water mark *)

Lemma advance_go_spec fuel : forall next c (f : gset Z),
  (size f <= fuel)%nat -> (forall i, i ∈ f -> next <= i) -> c < next ->
  let '(c', f') := advance_go fuel next c f in
  (c' = c /\ f' = f /\ next ∉ f) \/
  (next <= c' /\ (forall i, i ∈ f <-> next <= i <= c' \/ i ∈ f') /\ (forall i, i ∈ f' -> c' + 1 < i)).
Proof.
  induction fuel as [|fuel IH]; intros next c f Hs Hf Hc; cbn [advance_go].
  { left. split_and!; [done..|]. assert (f ≡ ∅) as -> by (apply size_empty_inv; lia). apply not_elem_of_empty. }
  case_bool_decide as Hn; [|by left].
  assert (size (f ∖ {[next]}) < size f)%nat as Hlt.
  { rewrite size_difference by (apply singleton_subseteq_l; done). rewrite size_singleton.
    assert (size f <> 0%nat); [|lia]. intros E. apply size_empty_inv in E.
    apply (E next), not_elem_of_empty in Hn. done. }
  specialize (IH (next + 1) next (f ∖ {[next]})).
  destruct (advance_go fuel (next + 1) next (f ∖ {[next]})) as [c' f'].
  right. destruct IH as [(-> & -> & Hno)|(Hle & Hiff & Hgt)]; [lia| |lia| |].
  { intros i [Hi1 Hi2]%elem_of_difference. apply Hf in Hi1. rewrite elem_of_singleton in Hi2. lia. }
  - split_and!; [lia| |].
    + intros i. rewrite elem_of_difference, elem_of_singleton. split; [|intros [Hi|[Hi _]]; [|done]].
      * intros Hi. destruct (decide (i = next)); [left; lia|by right].
      * by assert (i = next) as -> by lia.
    + intros i [Hi1 Hi2]%elem_of_difference. rewrite elem_of_singleton in Hi2.
      pose proof (Hf _ Hi1). assert (i <> next + 1); [|lia]. intros ->. apply Hno.
      apply elem_of_difference. by rewrite elem_of_singleton.
  - split_and!; [lia| |done]. intros i. specialize (Hiff i).
    rewrite elem_of_difference, elem_of_singleton in Hiff.
    destruct (decide (i = next)) as [->|Hne]; [split; [left; lia|done]|].
    split; [intros Hi; destruct (proj1 Hiff (conj Hi Hne)); [left; lia|by right]|].
    intros [Hi|Hi]; [|by apply Hiff; right]. apply Hiff. left. lia.
Qed.

(** The moves of the ledger: counting an index as finished, pushing its COMPLETE,
    taking the queue's front or the motion out, letting a command in. *)
Definition lg_advance (i : Z) (L : Ledger) : Ledger :=
  let f := {[i]} ∪ lg_finished L in
  let next := if lg_completed L <? 0 then FIRST_COMMAND_INDEX else lg_completed L + 1 in
  let '(c, f) := advance_go (size f) next (lg_completed L) f in
  mkLedger (lg_frame L) (lg_accepted L) (lg_pending L) (lg_planning L) (lg_exec L) (lg_stops L) c f
    (lg_done L) (lg_capacity L).

Definition lg_push (i : Z) (L : Ledger) : Ledger :=
  mkLedger (lg_frame L) (lg_accepted L) (lg_pending L) (lg_planning L) (lg_exec L) (lg_stops L)
    (lg_completed L) (lg_finished L) (lg_done L ++ [i]) (lg_capacity L).

Definition lg_queues (exec pending : list Z) (planning : option Z) (stops : list Z) (L : Ledger) : Ledger :=
  mkLedger (lg_frame L) (lg_accepted L) pending planning exec stops (lg_completed L) (lg_finished L)
    (lg_done L) (lg_capacity L).

(** The frame with a command admitted under a key. *)
Definition admission (key : Z) (c : Frame) : Frame :=
  mkFrame (fr_next c + 1) (dedup_insert key (fr_next c) (fr_dedup c)) (fr_latched c) (fr_reassembler c)
    (fr_now c).

Definition lg_allocate (key : Z) (L : Ledger) : Ledger :=
  mkLedger (admission key (lg_frame L)) (lg_next L) (lg_pending L) (lg_planning L) (lg_exec L) (lg_stops L)
    (lg_completed L) (lg_finished L) (lg_done L) (lg_capacity L).

(** An index in a list of the partition was handed out. *)
Lemma part_range c d a L i : ledger_ok c d a L ->
  (0 < occ i (lg_exec L) + occ i (lg_pending L) + occ i (lg_stops L) + occ i d + occ i a + occ i (lg_done L))%nat ->
  1 <= i < lg_next L.
Proof.
  intros [_ H1 _ _ _ _ _ _ _ _]. rewrite H1.
  destruct (Z.leb_spec 1 i), (Z.ltb_spec i (lg_next L)); cbn; lia.
Qed.

(** Counting an index as finished moves it from the dropped to the counted. *)
Lemma ok_advance i c d a L : ledger_ok c (i :: d) a L -> ledger_ok c d (i :: a) (lg_advance i L).
Proof.
  intros Hok. pose proof Hok as [H0 H1 H2 H3 H4 H5 H6 H7 H8 H9]. unfold lg_advance.
  set (next := if lg_completed L <? 0 then _ else _).
  pose proof (H1 i) as Hi. rewrite occ_cons, Z.eqb_refl in Hi.
  assert (~ (1 <= i <= lg_completed L \/ i ∈ lg_finished L)) as Hnew.
  { rewrite <- H8. destruct ((1 <=? i) && (i <? lg_next L)); lia. }
  assert (1 <= i) as Hpos by (apply (part_range _ _ _ _ i Hok); rewrite occ_cons, Z.eqb_refl; lia).
  assert (next = Z.max 0 (lg_completed L) + 1) as Hnext.
  { unfold next, FIRST_COMMAND_INDEX. destruct (Z.ltb_spec (lg_completed L) 0); lia. }
  pose proof (advance_go_spec (size ({[i]} ∪ lg_finished L)) next (lg_completed L) ({[i]} ∪ lg_finished L)) as Hgo.
  destruct (advance_go _ _ _ _) as [c' f'].
  assert (forall j, j ∈ ({[i]} ∪ lg_finished L : gset Z) -> next <= j) as Hfin.
  { intros j [->%elem_of_singleton|Hj]%elem_of_union; [|specialize (H7 _ Hj)]; lia. }
  specialize (Hgo ltac:(lia) Hfin ltac:(lia)).
  assert (forall j, 1 <= j <= c' \/ j ∈ f' <-> j = i \/ 1 <= j <= lg_completed L \/ j ∈ lg_finished L) as Hset.
  { intros j. destruct Hgo as [(-> & -> & _)|(Hle & Hiff & _)].
    - rewrite elem_of_union, elem_of_singleton. tauto.
    - specialize (Hiff j). rewrite elem_of_union, elem_of_singleton in Hiff.
      split; intros Hj.
      + destruct (decide (1 <= j <= lg_completed L)); [tauto|].
        assert (next <= j <= c' \/ j ∈ f') as Hj' by (destruct Hj; [left; lia|by right]). tauto.
      + destruct (decide (1 <= j <= lg_completed L)); [left; lia|].
        assert (next <= j <= c' \/ j ∈ f') as [|]; [apply Hiff; tauto|left; lia|by right]. }
  constructor; cbn; auto.
  - intros j. specialize (H1 j). rewrite occ_cons in *. lia.
  - destruct Hgo as [(-> & _)|(Hle & _)]; [done|right; lia].
  - intros j Hj. destruct Hgo as [(-> & -> & Hno)|(Hle & _ & Hgt)]; [|specialize (Hgt _ Hj); lia].
    pose proof (Hfin _ Hj). assert (j <> next) by (by intros ->). lia.
  - intros j. rewrite Hset, occ_cons, <- H8. destruct (Z.eqb_spec i j); split; intros; try lia.
Qed.

Lemma ok_push i c d a L : ledger_ok c d (i :: a) L -> ledger_ok c d a (lg_push i L).
Proof.
  intros [H0 H1 H2 H3 H4 H5 H6 H7 H8 H9]. constructor; cbn; auto; intros j.
  - specialize (H1 j). rewrite occ_app, occ_cons, occ_nil in *. lia.
  - rewrite <- H8, occ_app, !occ_cons, occ_nil. lia.
Qed.

Lemma sublist_in {A} (l1 l2 : list A) x : l1 `sublist_of` l2 -> In x l1 -> In x l2.
Proof. induction 1; cbn; intuition. Qed.

Lemma StronglySorted_sublist {A} (R : A -> A -> Prop) l1 l2 :
  l1 `sublist_of` l2 -> StronglySorted R l2 -> StronglySorted R l1.
Proof.
  induction 1 as [|x l1 l2 Hl IH|x l1 l2 Hl IH]; intros Hs; [done|..]; inversion Hs as [|? ? Hs' Hf]; subst; auto.
  constructor; auto. apply List.Forall_forall. intros y Hy. eapply List.Forall_forall in Hf; [done|].
  by eapply sublist_in.
Qed.

(** Commands leave the queue, the motion and the stops, or move between them in
    order, and what left is among the dropped. *)
Lemma ok_queues exec pending planning stops c d' d a L :
  ledger_ok c d a L ->
  (forall i, (occ i exec + occ i pending + occ i stops + occ i d' =
              occ i (lg_exec L) + occ i (lg_pending L) + occ i (lg_stops L) + occ i d)%nat) ->
  exec ++ pending `sublist_of` lg_exec L ++ lg_pending L ->
  (forall i, planning = Some i -> exec = [] /\ head pending = Some i) ->
  (length pending <= length (lg_pending L))%nat ->
  ledger_ok c d' a (lg_queues exec pending planning stops L).
Proof.
  intros [H0 H1 H2 H3 H4 H5 H6 H7 H8 H9] Hc Hsub Hp Hl. constructor; cbn; auto; try lia.
  - intros i. rewrite <- H1. specialize (Hc i). lia.
  - by eapply StronglySorted_sublist.
Qed.

Lemma ok_allocate key c d a L :
  ledger_ok c d a L -> ledger_ok (admission key c) (lg_next L :: d) a (lg_allocate key L).
Proof.
  intros Hok. pose proof Hok as [H0 H1 H2 H3 H4 H5 H6 H7 H8 H9]. constructor; cbn; auto; try lia.
  - by rewrite H0.
  - intros i. specialize (H1 i). rewrite occ_cons.
    destruct (Z.eqb_spec (lg_next L) i) as [Heq|Hne].
    + rewrite <- Heq in *. rewrite Z.ltb_irrefl, andb_false_r in H1.
      destruct (Z.leb_spec 1 (lg_next L)), (Z.ltb_spec (lg_next L) (lg_next L + 1)); cbn; lia.
    + destruct (Z.leb_spec 1 i), (Z.ltb_spec i (lg_next L)), (Z.ltb_spec i (lg_next L + 1));
        cbn in *; lia.
  - destruct (Z.eqb_spec (lg_next L + 1) 1); lia.
Qed.

Lemma sorted_snoc l x : StronglySorted Z.lt l -> (forall y, In y l -> y < x) -> StronglySorted Z.lt (l ++ [x]).
Proof.
  induction 1 as [|y l Hs IH Hy]; intros Hx; cbn; [repeat constructor|].
  constructor; [apply IH; intros z Hz; apply Hx; by right|].
  apply List.Forall_app. split; [done|]. constructor; [apply Hx; by left|constructor].
Qed.

(** The newest command enters the queue, at the back. *)
Lemma ok_enqueue i c d a L :
  ledger_ok c (i :: d) a L -> i = lg_next L - 1 -> (length (lg_pending L) < lg_capacity L)%nat ->
  ledger_ok c d a (lg_queues (lg_exec L) (lg_pending L ++ [i]) (lg_planning L) (lg_stops L) L).
Proof.
  intros Hok Hi Hcap. pose proof Hok as [H0 H1 H2 H3 H4 H5 H6 H7 H8 H9]. constructor; cbn; auto.
  - intros j. specialize (H1 j). rewrite occ_app, occ_cons, occ_nil in *. lia.
  - rewrite app_assoc. apply sorted_snoc; [done|]. intros y Hy.
    assert (0 < occ y (lg_exec L) + occ y (lg_pending L))%nat as Ho.
    { rewrite <- occ_app. by apply occ_in. }
    assert (1 <= y < lg_next L) by (apply (part_range _ _ _ _ y Hok); lia).
    assert (y <> i); [|lia]. intros ->. specialize (H1 i). rewrite occ_cons, Z.eqb_refl in H1.
    destruct ((1 <=? i) && (i <? lg_next L)); lia.
  - intros j Hj. destruct (H5 j Hj) as [He Hh]. split; [done|]. by destruct (lg_pending L).
  - rewrite length_app. cbn. lia.
Qed.

(** The newest command enters the tool stops. *)
Lemma ok_add_stop i c d a L :
  ledger_ok c (i :: d) a L ->
  ledger_ok c d a (lg_queues (lg_exec L) (lg_pending L) (lg_planning L) (lg_stops L ++ [i]) L).
Proof.
  intros [H0 H1 H2 H3 H4 H5 H6 H7 H8 H9]. constructor; cbn; auto. intros j. specialize (H1 j).
  rewrite occ_app, occ_cons, occ_nil in *. lia.
Qed.
