(* ===== verification/ServerSound.v ===== *)
(** * ServerSound: the handlers keep the ledger

    Every function of the command plane against the invariant of [ServerLedger]:
    the drops hand out exactly what they take, a cancellation speaks for exactly
    what was dropped, and every turn of the event loop leaves nothing dropped and
    nothing counted unsaid. *)
From stdpp Require Import gmap list_numbers.
From S2P Require Import Prelude F64 Wire Enums Command CommandCodec Chunk WireError BusTypes Ring RtState ServerGate ServerTypes ServerQueue ServerDispatch ServerLedger.

Create HintDb sound.

(** The invariant goes through a composition of handlers: by the lemmas of the
    database, over outputs that are no completion, and over fields the ledger does
    not read.  [sound_auto] does so on every branch. *)
#[export] Hint Extern 2 (sound _ _ _ (emit _ _)) => apply sound_emit; [reflexivity|] : sound.
#[export] Hint Extern 2 (sound _ _ _ (rt _ _)) => apply sound_emit; [reflexivity|] : sound.
#[export] Hint Extern 2 (sound _ _ _ (plan _ _)) => apply sound_emit; [reflexivity|] : sound.
#[export] Hint Extern 2 (sound _ _ _ (reply _ ?r _)) =>
  lazymatch r with
  | R_Complete _ _ _ _ => fail
  | _ => apply sound_emit; [reflexivity|]
  end : sound.
#[export] Hint Extern 5 (sound ?c ?d ?a (?f ?v ?s)) => apply (sound_same c d a s (f v s) eq_refl) : sound.

Ltac split_branch :=
  match goal with
  | |- context [match ?x with _ => _ end] =>
      lazymatch x with
      | context [match _ with _ => _ end] => fail
      | _ => let E := fresh "E" in destruct x eqn:E
      end
  end.

Ltac sound_auto := cbv beta iota zeta; repeat (split_branch; cbv beta iota zeta); auto 60 with sound nocore.

(** ** Completions *)

Lemma ledger_advance i s : ledger (advance_completed i s) = lg_advance i (ledger s).
Proof.
  unfold advance_completed, lg_advance. cbv zeta.
  change (lg_completed (ledger s)) with (s_completed_index s).
  change (lg_finished (ledger s)) with (s_finished s).
  by destruct (advance_go _ _ _ _).
Qed.

Lemma ledger_push addr i detail v s : ledger (push_complete addr i detail v s) = lg_push i (ledger s).
Proof.
  unfold push_complete, reply, emit, ledger, completions, executing_indices. cbn.
  rewrite omap_app. by cbn.
Qed.

Lemma sound_advance i c d a s : sound c (i :: d) a s -> sound c d (i :: a) (advance_completed i s).
Proof. unfold sound. rewrite ledger_advance. apply ok_advance. Qed.

Lemma sound_push addr i detail v c d a s :
  sound c d (i :: a) s -> sound c d a (push_complete addr i detail v s).
Proof. unfold sound. rewrite ledger_push. apply ok_push. Qed.

Lemma sound_complete f (l : list (Z * Addr)) : forall c d a s,
  sound c (map fst l ++ d) a s ->
  sound c d a (fold_left (fun s '(index, addr) =>
    push_complete addr index (f index) None (advance_completed index s)) l s).
Proof.
  induction l as [|[i addr] l IH]; intros c d a s Hs; [done|]. cbn. apply IH, sound_push, sound_advance.
  exact Hs.
Qed.

Lemma sound_complete_cancelled scope l c d a s :
  sound c (map fst l ++ d) a s -> sound c d a (fst (complete_cancelled scope l s)).
Proof. apply (sound_complete (fun i => Some (cancelled scope i))). Qed.

Lemma sound_complete_blended l c d a s :
  sound c (map fst l ++ d) a s -> sound c d a (complete_blended l s).
Proof. apply (sound_complete (fun _ => None)). Qed.

(** ** Fields the ledger does not read *)

Lemma sound_invalidate c d a s : sound c d a s -> sound c d a (invalidate_attachments s).
Proof. intros. unfold invalidate_attachments. sound_auto. Qed.
Lemma sound_sync c d a s : sound c d a s -> sound c d a (sync_planner s).
Proof. intros. unfold sync_planner. sound_auto. Qed.
Lemma sound_clear_pause c d a s : sound c d a s -> sound c d a (clear_pause s).
Proof. intros. unfold clear_pause. sound_auto. Qed.
Lemma sound_cancel_stream c d a s : sound c d a s -> sound c d a (cancel_stream_if_any s).
Proof. intros. unfold cancel_stream_if_any. sound_auto. Qed.
#[export] Hint Resolve sound_invalidate sound_sync sound_clear_pause sound_cancel_stream : sound.

Lemma sound_adopt tool variant c d a s : sound c d a s -> sound c d a (adopt_tool_selection tool variant s).
Proof.
  intros. unfold adopt_tool_selection. destruct (fit_tool tool (s_cfg s)) as [cfg t] eqn:Ef.
  assert (sound c d a (put_cfg cfg s)) as H1.
  { apply (sound_same c d a s); [|done]. injection Ef as <- _. reflexivity. }
  apply sound_sync. match goal with |- context [if ?b then ?t else ?e] => set (s1 := if b then t else e) end.
  apply (sound_same c d a s1 _ eq_refl). unfold s1. destruct (_ || _); [|done].
  apply (sound_same c d a (invalidate_attachments (put_cfg cfg s)) _ eq_refl). by apply sound_invalidate.
Qed.
#[export] Hint Resolve sound_adopt : sound.

Lemma sound_effect effect c d a s : sound c d a s -> sound c d a (apply_effect effect s).
Proof. intros. destruct effect; cbn [apply_effect]; sound_auto. Qed.
#[export] Hint Resolve sound_effect : sound.

(** ** Drops *)

(** What a drop hands out is dropped. *)
Definition drops (f : Server -> Server * list (Z * Addr)) : Prop :=
  forall c d a s, sound c d a s -> sound c (map fst (snd (f s)) ++ d) a (fst (f s)).

Lemma pop_front_if_spec p l :
  let '(x, rest) := pop_front_if p l in
  match x with Some x => l = x :: rest /\ p x = true | None => rest = l end.
Proof. destruct l as [|y l]; cbn; [done|]. by destruct (p y) eqn:E. Qed.

Lemma drop_active_idle s :
  s_planning (fst (drop_active s)) = None /\ s_executing (fst (drop_active s)) = None /\
  s_tool_stops (fst (drop_active s)) = s_tool_stops s.
Proof.
  unfold drop_active. destruct (s_planning s) as [i|] eqn:Ep.
  - destruct (pop_front_if _ _) as [[p|] rest]; cbn; destruct (s_executing s) eqn:Ee; cbn; auto.
  - destruct (s_executing s) eqn:Ee; cbn; auto.
Qed.

(** Commands leave the queue, the motion or the stops, and what left is dropped. *)
Lemma sound_moves s' ex pd pl st d' c d a s :
  sound c d a s -> ledger s' = lg_queues ex pd pl st (ledger s) ->
  (forall i, (occ i ex + occ i pd + occ i st + occ i d' =
     occ i (executing_indices s) + occ i (map pd_index (s_pending s)) +
     occ i (map tst_index (s_tool_stops s)) + occ i d)%nat) ->
  ex ++ pd `sublist_of` executing_indices s ++ map pd_index (s_pending s) ->
  (forall i, pl = Some i -> ex = [] /\ head pd = Some i) ->
  (length pd <= length (s_pending s))%nat ->
  sound c d' a s'.
Proof.
  unfold sound. intros Hs -> Hc Hsub Hp Hl. eapply ok_queues; [done|exact Hc|exact Hsub|exact Hp|].
  change (lg_pending (ledger s)) with (map pd_index (s_pending s)). by rewrite length_map.
Qed.

Lemma sound_planning c d a s i : sound c d a s -> s_planning s = Some i ->
  s_executing s = None /\ exists p rest, s_pending s = p :: rest /\ pd_index p = i.
Proof.
  intros Hs Hp. destruct (lo_planning _ _ _ _ Hs i Hp) as [He Hh].
  change (executing_indices s = []) in He. change (head (map pd_index (s_pending s)) = Some i) in Hh.
  unfold executing_indices in He. split; [by destruct (s_executing s)|].
  destruct (s_pending s) as [|p rest]; [done|]. injection Hh as Hh. eauto.
Qed.

Lemma executing_none s : s_executing s = None -> executing_indices s = [].
Proof. unfold executing_indices. by intros ->. Qed.

Lemma executing_some s ex : s_executing s = Some ex ->
  executing_indices s = ex_index ex :: map fst (ex_blended ex).
Proof. unfold executing_indices. by intros ->. Qed.

Lemma drops_active : drops drop_active.
Proof.
  intros c d a s Hs. unfold drop_active.
  destruct (s_planning s) as [i|] eqn:Ep.
  - destruct (sound_planning _ _ _ _ _ Hs Ep) as (Ee & p & rest & Epd & <-).
    change (s_pending (put_planning None s)) with (s_pending s). rewrite Epd. unfold pop_front_if.
    rewrite Z.eqb_refl. cbn iota beta.
    change (s_executing (put_pending rest (put_planning None s))) with (s_executing s). rewrite Ee.
    cbn [fst snd map app]. apply sound_emit; [done|].
    apply (sound_moves _ [] (map pd_index rest) None (map tst_index (s_tool_stops s)) _ _ _ _ _ Hs);
      [by rewrite <- (executing_none _ Ee)|..]; rewrite ?(executing_none _ Ee), ?Epd; cbn.
    + intros j. rewrite !occ_cons, occ_nil. lia.
    + by constructor.
    + done.
    + rewrite length_map. lia.
  - destruct (s_executing s) as [ex|] eqn:Ee; cbn [fst snd map app]; [|exact Hs].
    apply sound_emit; [done|].
    apply (sound_moves _ [] (map pd_index (s_pending s)) (s_planning s) (map tst_index (s_tool_stops s))
             _ _ _ _ _ Hs); [reflexivity|..]; rewrite ?Ep, ?(executing_some _ _ Ee); cbn.
    + intros j. rewrite !occ_cons, !occ_app, occ_nil. lia.
    + by apply sublist_cons, sublist_inserts_l.
    + done.
    + rewrite length_map. lia.
Qed.

Lemma map_fst_pending l : map fst (map (fun p => (pd_index p, pd_addr p)) l) = map pd_index l.
Proof. by rewrite map_map. Qed.

Lemma sound_drop_pending c d a s : s_planning s = None -> sound c d a s ->
  sound c (map fst (snd (drop_pending s)) ++ d) a (fst (drop_pending s)).
Proof.
  intros Hp Hs. unfold drop_pending. cbn [fst snd]. rewrite map_fst_pending.
  apply (sound_moves _ (executing_indices s) [] (s_planning s) (map tst_index (s_tool_stops s))
           _ _ _ _ _ Hs); [reflexivity|..]; rewrite ?Hp; cbn.
  - intros j. rewrite !occ_app, occ_nil. lia.
  - by apply sublist_app, sublist_nil_l.
  - done.
  - lia.
Qed.

Lemma drops_tool_stops : drops drop_tool_stops.
Proof.
  intros c d a s Hs. unfold drop_tool_stops. destruct (s_tool_stops s) as [|t ts] eqn:Et; [exact Hs|].
  rewrite <- Et. cbn [fst snd]. rewrite map_map.
  apply (sound_moves _ (executing_indices s) (map pd_index (s_pending s)) (s_planning s) []
           (map tst_index (s_tool_stops s) ++ d) _ _ _ _ Hs).
  - unfold ledger, completions. cbn. rewrite omap_app. cbn. by rewrite app_nil_r.
  - intros j. rewrite !occ_app, occ_nil. lia.
  - reflexivity.
  - intros i Hi. by destruct (lo_planning _ _ _ _ Hs i Hi).
  - rewrite length_map. lia.
Qed.

(** Nothing active is left. *)
Definition at_ease (s : Server) : Prop :=
  s_planning s = None /\ s_executing s = None /\ s_tool_stops s = [].

Lemma drop_active_motion_eq s :
  drop_active_motion s =
  let r1 := drop_active (plan (PR_Cancel true) s) in
  let r2 := drop_tool_stops (fst r1) in
  (rt RT_halt (cancel_stream_if_any (fst r2)), snd r1 ++ snd r2).
Proof.
  unfold drop_active_motion. destruct (drop_active _) as [s1 d1]. cbn [fst snd].
  by destruct (drop_tool_stops s1).
Qed.

Lemma drop_tool_stops_idle s :
  s_planning (fst (drop_tool_stops s)) = s_planning s /\
  s_executing (fst (drop_tool_stops s)) = s_executing s /\ s_tool_stops (fst (drop_tool_stops s)) = [].
Proof. unfold drop_tool_stops. by destruct (s_tool_stops s) eqn:E. Qed.

Lemma drops_active_motion : drops drop_active_motion.
Proof.
  intros c d a s Hs. rewrite drop_active_motion_eq. cbv zeta. cbn [fst snd]. rewrite map_app.
  apply sound_emit; [done|]. apply sound_cancel_stream.
  set (r1 := drop_active _). set (r2 := drop_tool_stops (fst r1)).
  apply (sound_counts c (map fst (snd r2) ++ map fst (snd r1) ++ d) a); [|done|].
  - intros i. rewrite !occ_app. lia.
  - apply drops_tool_stops, drops_active. by apply sound_emit.
Qed.

Lemma drop_active_motion_idle s : at_ease (fst (drop_active_motion s)).
Proof.
  rewrite drop_active_motion_eq. cbv zeta. cbn [fst].
  destruct (drop_active_idle (plan (PR_Cancel true) s)) as (H1 & H2 & _).
  destruct (drop_tool_stops_idle (fst (drop_active (plan (PR_Cancel true) s)))) as (T1 & T2 & T3).
  rewrite H1 in T1. rewrite H2 in T2. unfold at_ease, cancel_stream_if_any.
  by destruct (s_active_stream _).
Qed.

(** A drop, then the pending queue. *)
Lemma sound_then_pending f c d a s :
  drops f -> s_planning (fst (f s)) = None -> sound c d a s ->
  sound c (map fst (snd (f s) ++ snd (drop_pending (fst (f s)))) ++ d) a (fst (drop_pending (fst (f s)))).
Proof.
  intros Hf Hp Hs. eapply sound_counts; [|intros; reflexivity|exact (sound_drop_pending _ _ _ _ Hp (Hf _ _ _ _ Hs))].
  intros i. rewrite map_app, !occ_app. lia.
Qed.

Lemma sound_drop_planned halt c d a s : sound c d a s ->
  sound c (map fst (snd (drop_planned halt s)) ++ d) a (fst (drop_planned halt s)).
Proof.
  intros Hs. unfold drop_planned.
  pose proof (sound_then_pending drop_active c d a (plan (PR_Cancel halt) s) drops_active
                (proj1 (drop_active_idle _)) (sound_emit _ _ _ (O_Plan _) _ eq_refl Hs)) as H.
  destruct (drop_active _) as [s1 d1]. cbn [fst snd] in *. by destruct (drop_pending s1).
Qed.

Lemma sound_cancel_all scope c d a s : sound c d a s -> sound c d a (fst (cancel_all_motion scope s)).
Proof.
  intros Hs. unfold cancel_all_motion.
  pose proof (sound_then_pending drop_active_motion c d a s drops_active_motion
                (proj1 (drop_active_motion_idle s)) Hs) as H.
  destruct (drop_active_motion s) as [s1 d1]. cbn [fst snd] in H.
  destruct (drop_pending s1) as [s2 d2]. by apply sound_complete_cancelled.
Qed.

Lemma sound_cancel_active scope c d a s : sound c d a s -> sound c d a (fst (cancel_active_motion scope s)).
Proof.
  intros Hs%drops_active_motion. unfold cancel_active_motion.
  destruct (drop_active_motion s) as [s1 d1]. by apply sound_complete_cancelled.
Qed.

Lemma sound_cancel_planned scope halt c d a s :
  sound c d a s -> sound c d a (fst (cancel_planned scope halt s)).
Proof.
  intros Hs%(sound_drop_planned halt). unfold cancel_planned.
  destruct (drop_planned halt s) as [s1 d1]. by apply sound_complete_cancelled.
Qed.

Lemma drops_active_tool_action : drops drop_active_tool_action.
Proof.
  intros c d a s Hs. unfold drop_active_tool_action.
  destruct (s_executing s) as [ex|] eqn:Ee; cbn [mbind option_bind].
  - case_bool_decide; cbn [fst snd map].
    + apply sound_emit; [done|].
      apply (sound_moves _ [] (map pd_index (s_pending s)) (s_planning s) (map tst_index (s_tool_stops s))
               _ _ _ _ _ Hs); [reflexivity|..]; rewrite ?(executing_some _ _ Ee); cbn.
      * intros j. rewrite !occ_cons, !occ_app, occ_nil. lia.
      * by apply sublist_cons, sublist_inserts_l.
      * intros i Hi. destruct (sound_planning _ _ _ _ _ Hs Hi) as [He _]. congruence.
      * rewrite length_map. lia.
    + destruct (s_planning s) as [i|] eqn:Ep; [|exact Hs].
      destruct (sound_planning _ _ _ _ _ Hs Ep) as [He _]. congruence.
  - destruct (s_planning s) as [i|] eqn:Ep; [|exact Hs].
    destruct (sound_planning _ _ _ _ _ Hs Ep) as (_ & p & rest & Epd & <-). rewrite Epd.
    unfold pop_front_if. rewrite Z.eqb_refl. cbn [andb].
    destruct (is_tool_action (pd_cmd p)); cbn [fst snd map]; [|exact Hs].
    apply sound_emit; [done|].
    apply (sound_moves _ [] (map pd_index rest) None (map tst_index (s_tool_stops s)) _ _ _ _ _ Hs);
      [by rewrite <- (executing_none _ Ee)|..]; rewrite ?(executing_none _ Ee), ?Epd; cbn.
    + intros j. rewrite !occ_cons, occ_nil. lia.
    + by constructor.
    + done.
    + rewrite length_map. lia.
Qed.

Lemma sound_stop_invalid c d a s : sound c d a s -> sound c d a (stop_invalid_attachments s).
Proof.
  intros Hs. unfold stop_invalid_attachments. cbv zeta.
  match goal with |- context [if ?b then invalidate_attachments s else s] =>
    set (s1 := if b then invalidate_attachments s else s) end.
  assert (sound c d a s1) as H1 by (unfold s1; case_match; [by apply sound_invalidate|done]).
  destruct (s_attachment_stop_pending s1); [|done].
  apply (sound_same _ _ _ _ (put_attachment_stop_pending false s1) eq_refl) in H1.
  apply (sound_cancel_all "attachment context changed") in H1.
  destruct (cancel_all_motion _ _) as [s2 n].
  by apply (sound_same _ _ _ _ (put_standing_error
    (Some (attachment_error "attachment context changed; reconcile the physical scene and reapply")) s2) eq_refl) in H1.
Qed.
#[export] Hint Resolve sound_stop_invalid : sound.

(** ** Outcomes *)

Lemma sound_fail index addr blended e c d a s :
  s_planning s = None -> sound c (index :: map fst blended ++ d) a s ->
  sound c d a (fail_command index addr blended e s).
Proof.
  intros Hp Hs%sound_advance. unfold fail_command. cbv zeta.
  set (s1 := put_action_state AS_Error _).
  assert (sound c (map fst blended ++ d) (index :: a) s1) as H1 by exact (sound_same _ _ _ _ s1 eq_refl Hs).
  apply sound_drop_pending in H1.
  2:{ unfold s1, advance_completed. cbv zeta. by destruct (advance_go _ _ _ _). }
  destruct (drop_pending s1) as [s2 dropped]. cbn [fst snd] in H1.
  apply sound_complete_cancelled, sound_push.
  eapply sound_counts; [|intros; reflexivity|exact H1].
  intros i. rewrite map_app, !occ_app. lia.
Qed.

Lemma sound_outcome o c d a s : sound c d a s -> sound c d a (on_outcome o s).
Proof.
  intros Hs. unfold on_outcome. destruct (s_executing s) as [ex|] eqn:Ee; [|done].
  destruct (negb _); [done|]. cbv zeta.
  assert (s_planning s = None) as Hp.
  { destruct (s_planning s) as [i|] eqn:Ep; [|done]. destruct (sound_planning _ _ _ _ _ Hs Ep). congruence. }
  assert (sound c (ex_index ex :: map fst (ex_blended ex) ++ d) a (put_executing None s)) as H1.
  { apply (sound_moves _ [] (map pd_index (s_pending s)) (s_planning s) (map tst_index (s_tool_stops s))
             _ _ _ _ _ Hs); [reflexivity|..]; rewrite ?(executing_some _ _ Ee); cbn.
    * intros j. rewrite !occ_cons, !occ_app, occ_nil. lia.
    * by apply sublist_cons, sublist_inserts_l.
    * intros i Hi. congruence.
    * rewrite length_map. lia. }
  destruct (co_error o) as [e|]; [by apply sound_fail|].
  apply sound_complete_blended, sound_push, sound_effect.
  apply (sound_same _ _ _ (advance_completed (ex_index ex) (put_executing None s)) _ eq_refl).
  by apply sound_advance.
Qed.

Lemma sound_finish_stop stop error verdict c d a s :
  sound c (tst_index stop :: d) a s -> sound c d a (finish_tool_stop stop error verdict s).
Proof.
  intros Hs%sound_advance. unfold finish_tool_stop. cbv zeta.
  destruct error; apply sound_push; [|done].
  exact (sound_same _ _ _ (advance_completed (tst_index stop) s) _ eq_refl Hs).
Qed.

(** ** The pump and the planner's answers *)

Lemma ledger_holding s : ledger (fst (holding_for_blend s)) = ledger s.
Proof. unfold holding_for_blend. cbv zeta. by case_match. Qed.

Lemma sound_pump c d a s : sound c d a s -> sound c d a (pump s).
Proof.
  intros Hs%sound_stop_invalid. unfold pump. cbv zeta.
  generalize dependent (stop_invalid_attachments s). clear s. intros s Hs.
  destruct (s_execution_paused s || _); [done|].
  destruct (is_some (s_executing s) || is_some (s_planning s) || is_some (s_active_stream s)) eqn:Eb; [done|].
  destruct (s_pending s) as [|head rest] eqn:Epd;
    [exact (sound_same _ _ _ _ (put_blend_hold None s) eq_refl Hs)|].
  do 3 (case_match; [done|]).
  pose proof (ledger_holding s) as Hl. destruct (holding_for_blend s) as [s1 holding]. cbn [fst] in Hl.
  assert (sound c d a s1) as Hs1 by exact (sound_same _ _ _ _ _ Hl Hs).
  destruct holding; [done|]. apply sound_emit; [done|].
  assert (executing_indices s1 = []) as He.
  { change (executing_indices s1) with (lg_exec (ledger s1)). rewrite Hl. apply executing_none.
    destruct (s_executing s); [discriminate|done]. }
  assert (map pd_index (s_pending s1) = map pd_index (s_pending s)) as Hpd
    by (change (lg_pending (ledger s1) = map pd_index (s_pending s)); by rewrite Hl).
  apply (sound_moves _ [] (map pd_index (s_pending s1)) (Some (pd_index head))
           (map tst_index (s_tool_stops s1)) _ _ _ _ _ Hs1); rewrite ?He.
  - rewrite <- He. reflexivity.
  - done.
  - reflexivity.
  - rewrite Hpd, Epd. by intros i [= <-].
  - rewrite length_map. lia.
Qed.
#[export] Hint Resolve sound_pump : sound.

Lemma sound_started index taken c d a s : sound c d a s -> sound c d a (on_plan_started index taken s).
Proof.
  intros Hs. unfold on_plan_started. case_bool_decide as Ep; [|done]. cbn [negb]. cbv zeta.
  destruct (sound_planning _ _ _ _ _ Hs Ep) as (Ee & p & rest & Epd & _).
  change (s_pending (put_planning None s)) with (s_pending s). rewrite Epd.
  set (n := (Nat.max 1 _ - 1)%nat).
  apply (sound_moves _ (pd_index p :: map pd_index (take n rest)) (map pd_index (drop n rest)) None
           (map tst_index (s_tool_stops s)) _ _ _ _ _ Hs).
  - unfold ledger, executing_indices. cbn. by rewrite map_map.
  - intros j. rewrite (executing_none _ Ee), Epd. cbn. rewrite <- (take_drop n rest) at 3.
    rewrite map_app, !occ_cons, occ_app, occ_nil. lia.
  - rewrite (executing_none _ Ee), Epd. cbn. rewrite <- map_app, take_drop. reflexivity.
  - done.
  - rewrite length_map, length_drop, Epd. cbn. lia.
Qed.

Lemma sound_rejected index error c d a s : sound c d a s -> sound c d a (on_plan_rejected index error s).
Proof.
  intros Hs. unfold on_plan_rejected. case_bool_decide as Ep; [|done]. cbn [negb]. cbv zeta.
  destruct (sound_planning _ _ _ _ _ Hs Ep) as (Ee & p & rest & Epd & _).
  change (s_pending (put_planning None s)) with (s_pending s). rewrite Epd.
  apply sound_fail; [done|]. cbn.
  apply (sound_moves _ [] (map pd_index rest) None (map tst_index (s_tool_stops s)) _ _ _ _ _ Hs);
    [by rewrite <- (executing_none _ Ee)|..]; rewrite ?(executing_none _ Ee), ?Epd; cbn.
  - intros j. rewrite !occ_cons, occ_nil. lia.
  - by constructor.
  - done.
  - rewrite length_map. lia.
Qed.

(** Tool stops leave, and what left is dropped. *)
Lemma sound_stops stops d' c d a s :
  sound c d a s ->
  (forall i, (occ i (map tst_index stops) + occ i d' = occ i (map tst_index (s_tool_stops s)) + occ i d)%nat) ->
  sound c d' a (put_tool_stops stops s).
Proof.
  intros Hs Hc.
  apply (sound_moves _ (executing_indices s) (map pd_index (s_pending s)) (s_planning s)
           (map tst_index stops) _ _ _ _ _ Hs); [reflexivity| |reflexivity| |].
  - intros i. specialize (Hc i). lia.
  - intros i Hi. by destruct (lo_planning _ _ _ _ Hs i Hi).
  - rewrite length_map. lia.
Qed.

Lemma position_lookup {A} (p : A -> bool) l n : position p l = Some n -> exists x, l !! n = Some x /\ p x = true.
Proof.
  revert n. induction l as [|x l IH]; intros n; cbn; [done|]. destruct (p x) eqn:E.
  - intros [= <-]. eauto.
  - destruct (position p l) as [m|] eqn:Em; [|done]. intros [= <-]. cbn. by apply IH.
Qed.

Lemma sound_tool_started tag verdict c d a s : sound c d a s -> sound c d a (on_tool_started tag verdict s).
Proof.
  intros Hs. unfold on_tool_started. destruct (position _ _) as [n|] eqn:En; [|done].
  destruct (position_lookup _ _ _ En) as (stop & Hl & _).
  destruct verdict as [[]|error].
  - apply (sound_stops _ _ c d); [done|]. intros i. do 2 f_equal.
    rewrite <- (list_alter_id (fun t => t) (s_tool_stops s) n (fun x => eq_refl)) at 2.
    clear. revert n. induction (s_tool_stops s) as [|t l IH]; intros [|n]; cbn; [done..|]. f_equal. apply IH.
  - rewrite Hl. apply sound_pump, sound_finish_stop. apply (sound_stops _ _ c d); [done|].
    intros i. rewrite <- (take_drop_middle _ _ _ Hl) at 2. rewrite delete_take_drop.
    rewrite !map_app. cbn. rewrite !occ_app, !occ_cons. lia.
Qed.

Lemma sound_finish_stops o v l : forall c d a s,
  sound c (map tst_index l ++ d) a s ->
  sound c d a (fold_left (fun s stop => finish_tool_stop stop o v s) l s).
Proof. induction l as [|t l IH]; intros c d a s Hs; [done|]. cbn. by apply IH, sound_finish_stop. Qed.

Lemma sound_tool_outcome o c d a s : sound c d a s -> sound c d a (on_tool_outcome o s).
Proof.
  intros Hs. unfold on_tool_outcome. destruct (position _ _) as [n|]; [|done].
  apply sound_pump, sound_finish_stops. apply (sound_stops _ _ c d); [done|].
  intros i. rewrite <- (take_drop (S n) (s_tool_stops s)) at 3. rewrite map_app, !occ_app. lia.
Qed.
#[export] Hint Resolve sound_outcome sound_started sound_rejected sound_tool_started sound_tool_outcome : sound.

(** ** Dispatch *)

Section env.
Context {show : Show} {env : ServerEnv}.

Lemma sound_refresh c d a s : sound c d a s -> sound c d a (refresh_snapshot s).
Proof. intros. unfold refresh_snapshot. sound_auto. Qed.

Lemma sound_latch_refusal error busy c d a s : sound c d a s -> sound c d a (latch_refusal error busy s).
Proof. intros. unfold latch_refusal. cbv zeta. case_match; [done|]. by apply (sound_same c d a s _ eq_refl). Qed.

Lemma sound_faf_refusal error c d a s : sound c d a s -> sound c d a (latch_faf_refusal error s).
Proof. apply sound_latch_refusal. Qed.
Lemma sound_stream_refusal error c d a s : sound c d a s -> sound c d a (latch_stream_refusal error s).
Proof. apply sound_latch_refusal. Qed.

Lemma sound_accepted c d a s : sound c d a s -> sound c d a (on_motion_accepted s).
Proof. intros. unfold on_motion_accepted. sound_auto. Qed.
#[local] Hint Resolve sound_refresh sound_faf_refusal sound_stream_refusal sound_accepted : sound.

Lemma sound_shapes_applied tag verdict c d a s : sound c d a s -> sound c d a (on_shapes_applied tag verdict s).
Proof. intros. unfold on_shapes_applied, rt_set_shapes. sound_auto. Qed.
#[local] Hint Resolve sound_shapes_applied : sound.

Lemma sound_plan_event ev c d a s : sound c d a s -> sound c d a (on_plan_event ev s).
Proof. intros. unfold on_plan_event. destruct ev; sound_auto. Qed.

Lemma sound_drain fuel superseded : forall c d a s, sound c d a s -> sound c d a (drain_go fuel superseded s).
Proof.
  induction fuel as [|fuel IH]; intros c d a s Hs; [done|]. cbn [drain_go]. cbv zeta.
  assert (sound c d a (emit O_TryRecv s)) by (by apply sound_emit).
  destruct (env_try_recv (s_out s)) as [[data from]|]; [|done].
  destruct (match peek_tag data with Ok t => _ | Err _ => _ end); apply IH; [done|].
  by apply (sound_same c d a (emit O_TryRecv s) _ eq_refl).
Qed.

Lemma sound_drain_backlog superseded c d a s : sound c d a s -> sound c d a (drain_stream_backlog superseded s).
Proof. apply sound_drain. Qed.
#[local] Hint Resolve sound_drain_backlog : sound.

Lemma sound_update_stream cmd c d a s : sound c d a s -> sound c d a (fst (fst (update_stream cmd s))).
Proof.
  intros. unfold update_stream, rt_stream, rt_stop_refused_stream. cbv beta iota zeta.
  destruct (env_stream _ _); [|destruct (env_stop_refused_stream _)]; cbn [fst]; auto 60 with sound nocore.
Qed.

Lemma sound_begin_stream cmd c d a s : sound c d a s -> sound c d a (fst (fst (start_stream cmd s))).
Proof.
  intros Hs. unfold start_stream, rt_stream, rt_refusal_in_progress. cbv beta iota zeta.
  match goal with |- context [drop_planned true ?x] => set (s1 := x) end.
  assert (sound c d a s1) as H1.
  { unfold s1. destruct (s_active_stream s); [|done]. destruct (env_refusal_in_progress _); auto 60 with sound nocore. }
  clearbody s1. apply (sound_drop_planned true) in H1.
  destruct (drop_planned true s1) as [s2 dropped]. cbn [fst snd] in H1.
  match goal with |- context [let '(s, in_place) := ?x in _] =>
    assert (sound c (map fst dropped ++ d) a (fst x)) as H2
      by (destruct (env_stream (s_out s2) cmd); [|destruct (env_refusal_in_progress _)]; cbn [fst]; auto 60 with sound nocore);
    destruct x as [s3 in_place] end.
  apply (sound_complete_cancelled "a streaming preemption") in H2. cbn [fst] in H2.
  by destruct (complete_cancelled _ _ s3).
Qed.

Lemma sound_faf req_id cmd addr c d a s : sound c d a s -> sound c d a (on_faf req_id cmd addr s).
Proof.
  intros Hs. unfold on_faf. cbv zeta. case_bool_decide; [auto 60 with sound nocore|].
  destruct (or_else _ _); [auto 60 with sound nocore|].
  match goal with |- context [if ?b then update_stream cmd s else start_stream cmd s] =>
    assert (sound c d a (fst (fst (if b then update_stream cmd s else start_stream cmd s)))) as Hr
      by (destruct b; [by apply sound_update_stream|by apply sound_begin_stream]);
    destruct (if b then update_stream cmd s else start_stream cmd s) as [[s1 outcome] in_place] end.
  cbn [fst] in Hr. destruct outcome; [auto 60 with sound nocore|]. destruct in_place; auto 60 with sound nocore.
Qed.

(** ** Queued commands *)

Lemma sound_allocate key c d a s :
  sound c d a s -> sound (admission key c) (s_next_index s :: d) a (fst (allocate key s)).
Proof. apply (ok_allocate key). Qed.

(** The latch set or cleared. *)
Definition latch_frame (b : bool) (c : Frame) : Frame :=
  mkFrame (fr_next c) (fr_dedup c) b (fr_reassembler c) (fr_now c).

Lemma sound_latch b c d a s : sound c d a s -> sound (latch_frame b c) d a (put_estop_latched b s).
Proof. intros [H0 H1 H2 H3 H4 H5 H6 H7 H8 H9]. constructor; auto. by rewrite <- H0. Qed.

(** Another transfer state. *)
Definition input_frame (r : Reassembler) (now : Z) (c : Frame) : Frame :=
  mkFrame (fr_next c) (fr_dedup c) (fr_latched c) r now.

Lemma sound_reassembler r c d a s :
  sound c d a s -> sound (input_frame r (s_now s) c) d a (put_reassembler r s).
Proof. intros [H0 H1 H2 H3 H4 H5 H6 H7 H8 H9]. constructor; auto. by rewrite <- H0. Qed.

Lemma sound_now now c d a s :
  sound c d a s -> sound (input_frame (s_reassembler s) now c) d a (put_now now s).
Proof. intros [H0 H1 H2 H3 H4 H5 H6 H7 H8 H9]. constructor; auto. by rewrite <- H0. Qed.

Lemma sound_frame c d a s : sound c d a s -> frame s = c.
Proof. by intros [H0 _ _ _ _ _ _ _ _ _]. Qed.

Lemma sound_enqueue i cmd addr c d a s :
  sound c (i :: d) a s -> i = s_next_index s - 1 ->
  (length (s_pending s) < cfg_queue_capacity (s_cfg s))%nat ->
  sound c d a (put_pending (s_pending s ++ [mkPending i cmd addr]) s).
Proof.
  intros Hs Hi Hc. unfold sound in *. eapply ok_enqueue in Hs; [|exact Hi|].
  - unfold ledger. cbn. rewrite map_app. exact Hs.
  - cbn. by rewrite length_map.
Qed.

Lemma sound_add_stop i addr tag c d a s :
  sound c (i :: d) a s -> sound c d a (put_tool_stops (s_tool_stops s ++ [mkToolStop i addr tag]) s).
Proof. intros Hs%ok_add_stop. unfold sound, ledger. cbn. rewrite map_app. exact Hs. Qed.

Lemma sound_start_stop index addr cmd c d a s :
  sound c (index :: d) a s -> sound c d a (start_tool_stop index addr cmd s).
Proof.
  intros Hs. unfold start_tool_stop, next_plan_tag.
  apply drops_active_tool_action in Hs. destruct (drop_active_tool_action s) as [s1 dropped]. cbn [fst snd] in Hs.
  apply (sound_complete_cancelled "a tool stop") in Hs.
  destruct (complete_cancelled _ _ _) as [s2 n]. cbn [fst] in Hs.
  apply sound_emit; [done|]. apply sound_add_stop. exact (sound_same _ _ _ _ _ eq_refl Hs).
Qed.

(** What admission leaves for the queue: the index taken, the room still there. *)
Lemma accepted_keeps s : s_next_index (on_motion_accepted s) = s_next_index s /\
  s_pending (on_motion_accepted s) = s_pending s /\ s_cfg (on_motion_accepted s) = s_cfg s.
Proof. unfold on_motion_accepted. cbv zeta. destruct (is_some _); [case_bool_decide|]; done. Qed.

Lemma cancel_stream_keeps s : s_next_index (cancel_stream_if_any s) = s_next_index s /\
  s_pending (cancel_stream_if_any s) = s_pending s /\ s_cfg (cancel_stream_if_any s) = s_cfg s.
Proof. unfold cancel_stream_if_any. by destruct (s_active_stream s). Qed.

Lemma queue_room cmd s : queue_refusal cmd s = None -> tool_stop_of cmd = None ->
  (length (s_pending s) < cfg_queue_capacity (s_cfg s))%nat.
Proof.
  unfold queue_refusal. intros H Ht. rewrite Ht in H. cbn [is_some negb andb] in H.
  destruct (server_gate _ _); [done|]. destruct (validate_queued _ _); [done|].
  destruct (Nat.leb_spec (cfg_queue_capacity (s_cfg s)) (length (s_pending s))); [done|lia].
Qed.

(** What a command does to the frame. *)
Inductive moves_frame (cmd : Command) (c : Frame) : Frame -> Prop :=
| mf_same : moves_frame cmd c c
| mf_admit key :
    idempotency_key cmd = Some key -> dedup_get (fr_dedup c) key = None ->
    moves_frame cmd c (admission key c)
| mf_estop : cmd = C_Estop -> moves_frame cmd c (latch_frame true c)
| mf_reset : cmd = C_Reset -> moves_frame cmd c (latch_frame false c).

(** An admitted command. *)
Lemma sound_admitted req_id cmd addr key c d a s :
  idempotency_key cmd = Some key -> dedup_get (s_dedup s) key = None -> queue_refusal cmd s = None ->
  sound c d a s -> sound (admission key c) d a (on_queued req_id cmd addr s).
Proof.
  intros Hk Hd Er Hs. unfold on_queued. rewrite Hk, Hd, Er.
  apply (sound_allocate key) in Hs. pose proof (accepted_keeps (fst (allocate key s))) as (A1 & A2 & A3).
  unfold allocate in *. cbn [fst snd] in *. apply sound_accepted in Hs.
  set (s1 := on_motion_accepted _) in *. destruct (tool_stop_of cmd) eqn:Et.
  - apply sound_start_stop. by apply sound_emit.
  - apply sound_pump, sound_emit; [done|]. pose proof (cancel_stream_keeps s1) as (C1 & C2 & C3).
    apply sound_enqueue; [by apply sound_cancel_stream| |].
    + rewrite C1, A1. cbn. lia.
    + rewrite C2, C3, A2, A3. cbn. by apply (queue_room cmd).
Qed.

Lemma sound_queued req_id cmd addr c d a s : sound c d a s ->
  exists c', moves_frame cmd c c' /\ sound c' d a (on_queued req_id cmd addr s).
Proof.
  intros Hs. destruct (idempotency_key cmd) as [key|] eqn:Ek.
  - destruct (dedup_get (s_dedup s) key) eqn:Ed.
    { exists c. split; [constructor|]. unfold on_queued. rewrite Ek, Ed. by apply sound_emit. }
    destruct (queue_refusal cmd s) eqn:Er.
    { exists c. split; [constructor|]. unfold on_queued. rewrite Ek, Ed, Er. by apply sound_emit. }
    exists (admission key c). split; [|by apply sound_admitted].
    apply mf_admit; [done|]. by rewrite <- (sound_frame _ _ _ _ Hs).
  - exists c. split; [constructor|]. unfold on_queued. by rewrite Ek.
Qed.

(** ** System commands *)

Lemma sound_waiters outcome l : forall c d a s, sound c d a s -> sound c d a (answer_waiters l outcome s).
Proof.
  induction l as [|[req_id addr] l IH]; intros c d a s Hs; [done|]. cbn. apply IH.
  by destruct outcome; apply sound_emit.
Qed.
#[local] Hint Resolve sound_waiters sound_plan_event sound_faf : sound.

Lemma sound_reset req_id addr c d a s : sound c d a s ->
  exists c', moves_frame C_Reset c c' /\ sound c' d a (on_reset req_id addr s).
Proof.
  intros Hs. unfold on_reset. destruct (waiters_try_push _ _ _) as [w|e].
  - exists (latch_frame false c). split; [by apply mf_reset|]. cbv zeta.
    assert (sound c d a (invalidate_attachments (put_reset_waiters w s))) as H1 by auto with sound nocore.
    apply (sound_latch false) in H1. auto 60 with sound nocore.
  - exists c. split; [constructor|]. by apply sound_emit.
Qed.

Lemma sound_defer_shapes req_id addr shapes c d a s :
  sound c d a s -> sound c d a (defer_program_shapes req_id addr shapes s).
Proof. intros. unfold defer_program_shapes, next_plan_tag. cbv beta iota zeta. auto 60 with sound nocore. Qed.
#[local] Hint Resolve sound_defer_shapes : sound.

Lemma sound_reset_state req_id addr c d a s : sound c d a s -> sound c d a (on_reset_state req_id addr s).
Proof.
  intros Hs%sound_invalidate%(sound_cancel_all "reset"). unfold on_reset_state.
  destruct (cancel_all_motion _ _) as [s1 n]. cbn [fst] in Hs. cbv beta iota zeta. auto 60 with sound nocore.
Qed.

Lemma sound_flashing req_id enter addr c d a s : sound c d a s -> sound c d a (on_flashing req_id enter addr s).
Proof.
  intros Hs. unfold on_flashing. cbv zeta.
  assert (sound c d a (stop_invalid_attachments (refresh_snapshot s))) as H1 by auto 60 with sound nocore.
  generalize dependent (stop_invalid_attachments (refresh_snapshot s)). intros s1 H1.
  destruct (_ && _); [auto with sound nocore|]. destruct (_ && _); [auto with sound nocore|].
  destruct (waiters_try_push _ _ _); auto with sound nocore.
Qed.

Lemma sound_bus_swap req_id cmd addr c d a s : sound c d a s -> sound c d a (on_bus_swap req_id cmd addr s).
Proof.
  intros Hs%sound_invalidate. unfold on_bus_swap. cbv zeta.
  match goal with |- sound _ _ _ (match ?x with _ => _ end) => destruct x as [[[scope call] sim] answer] end.
  apply (sound_cancel_all scope) in Hs. destruct (cancel_all_motion _ _) as [s1 n]. cbn [fst] in Hs.
  destruct (answer _); [|auto 60 with sound nocore].
  destruct (waiters_try_push _ _ _); auto 60 with sound nocore.
Qed.

Lemma sound_estop c d a s : sound c d a s -> sound (latch_frame true c) d a (on_estop s).
Proof.
  intros Hs%(sound_latch true). unfold on_estop. cbv zeta.
  match goal with |- context [cancel_all_motion ?sc ?x] =>
    assert (sound (latch_frame true c) d a x) as H1 by auto 60 with sound nocore;
    apply (sound_cancel_all sc) in H1; destruct (cancel_all_motion sc x) end.
  by apply sound_clear_pause.
Qed.

Lemma sound_stop clear_queue c d a s : sound c d a s -> sound c d a (on_stop clear_queue s).
Proof.
  intros Hs. unfold on_stop.
  assert (sound c d a (fst (if clear_queue then cancel_all_motion "stop" s else cancel_active_motion "stop" s))) as H1
    by (destruct clear_queue; [by apply sound_cancel_all|by apply sound_cancel_active]).
  destruct (if clear_queue then _ else _) as [s1 dropped]. cbn [fst] in H1. cbv zeta.
  destruct clear_queue; cbn [andb]; [|done].
  apply sound_clear_pause in H1. destruct (0 <? dropped)%nat; auto with sound nocore.
Qed.

Lemma sound_teleport cmd p c d a s : sound c d a s -> sound c d a (fst (on_teleport cmd p s)).
Proof.
  intros Hs. unfold on_teleport. destruct (validate_supported _ _); [done|]. cbv zeta.
  match goal with |- context [cancel_planned ?sc ?h ?x] =>
    assert (sound c d a x) as H1 by (destruct (s_active_stream s); auto 60 with sound nocore);
    apply (sound_cancel_planned sc h) in H1; destruct (cancel_planned sc h x) end.
  cbn [fst] in *. auto 60 with sound nocore.
Qed.
#[local] Hint Resolve sound_reset_state sound_flashing sound_bus_swap sound_stop : sound.

Lemma sound_system_effect cmd c d a s : sound c d a s -> cmd <> C_Estop ->
  sound c d a (fst (system_effect cmd s)).
Proof.
  intros Hs Hne. destruct cmd; unfold system_effect; cbv beta zeta;
    try (cbn [fst]; auto 60 with sound nocore; fail); try done;
    try (apply sound_teleport; done);
    try (destruct (commissioning_gate _ _ _ _)); try (destruct (List.find _ _)); try (destruct (pid_gains_fault _ _));
    try (destruct (status_rate_fault _ _)); try (destruct (_ || _)); cbn [fst]; auto 60 with sound nocore.
Qed.

Lemma sound_system req_id cmd addr c d a s : sound c d a s ->
  exists c', moves_frame cmd c c' /\ sound c' d a (on_system req_id cmd addr s).
Proof.
  intros Hs. unfold on_system. destruct (server_gate _ _).
  { exists c. split; [constructor|by apply sound_emit]. }
  assert (cmd <> C_Estop -> sound c d a (let '(s, verdict) := system_effect cmd s in
    reply addr match verdict with Ok _ => R_Ok req_id None | Err error => R_Error req_id error end s)) as Hd.
  { intros Hne. pose proof (sound_system_effect cmd c d a s Hs Hne).
    destruct (system_effect cmd s) as [s1 [|]]; by apply sound_emit. }
  destruct cmd;
    try (exists c; split; [constructor|]; first [by apply Hd|auto with sound nocore; fail]);
    try (by apply sound_reset).
  - exists (latch_frame true c). split; [by apply mf_estop|]. apply sound_emit; [done|]. by apply sound_estop.
  - exists c. split; [constructor|]. destruct (attachment_shapes_error _ _); auto with sound nocore.
Qed.

(** ** Queries *)

Lemma sound_estimate c d a s : sound c d a s -> sound c d a (refresh_queue_estimate s).
Proof. intros. unfold refresh_queue_estimate. cbv zeta. case_bool_decide; auto with sound nocore. Qed.
#[local] Hint Resolve sound_estimate : sound.

Lemma sound_query req_id cmd addr c d a s : sound c d a s -> sound c d a (on_query req_id cmd addr s).
Proof.
  intros Hs. unfold on_query. destruct (server_gate _ _); [by apply sound_emit|].
  destruct cmd; cbv zeta; auto 60 with sound nocore.
Qed.
#[local] Hint Resolve sound_query : sound.

Lemma sound_scans c d a s : sound c d a s -> sound c d a (answer_scans s).
Proof.
  intros Hs. unfold answer_scans. cbv zeta.
  match goal with |- context [fold_left _ ?l ?x] =>
    assert (sound c d a x) as H1 by (by apply (sound_same c d a s _ eq_refl)); revert H1; generalize x; generalize l end.
  intros l. induction l as [|p l IH]; intros s1 H1; [done|]. cbn. apply IH. by apply sound_emit.
Qed.

(** ** Datagrams *)

Lemma sound_dispatch req_id cmd addr c d a s : sound c d a s ->
  exists c', moves_frame cmd c c' /\ sound c' d a (dispatch req_id cmd addr s).
Proof.
  intros. unfold dispatch. destruct (command_class _); try (by apply sound_queued); try (by apply sound_system).
  all: exists c; (split; [constructor|]); auto with sound nocore.
Qed.

(** What a payload does to the frame. *)
Definition payload_moves (carried : option Command) (c c' : Frame) : Prop :=
  match carried with Some cmd => moves_frame cmd c c' | None => c' = c end.

(** The command a payload decodes to. *)
Definition command_of (data : bytes) : option Command :=
  match decode_command data with Ok (_, cmd) => Some cmd | Err _ => None end.

Lemma sound_command_bytes data addr c d a s : sound c d a s ->
  exists c', payload_moves (command_of data) c c' /\ sound c' d a (on_command_bytes data addr s).
Proof.
  intros. unfold on_command_bytes, command_of. destruct (decode_command data) as [[req_id cmd]|].
  - by apply sound_dispatch.
  - exists c. split; [done|by apply sound_emit].
Qed.

(** The transfers and the payload completed, if any, after a chunk. *)
Definition take_chunk (data : bytes) (r : Reassembler) (now : Z) : Reassembler * option bytes :=
  match decode_chunk data with
  | Ok chunk =>
      match push r chunk now with
      | (r', Ok (Some assembled)) => (r', Some (as_payload assembled))
      | (r', _) => (r', None)
      end
  | Err _ => (r, None)
  end.

Definition is_chunk (data : bytes) : bool :=
  match peek_tag data with Ok t => t =? wire MT_Chunk | Err _ => false end.

(** The transfers after a datagram, and the command it delivers. *)
Definition delivers (data : bytes) (r : Reassembler) (now : Z) : Reassembler * option Command :=
  if is_chunk data then let '(r', payload) := take_chunk data r now in (r', p ← payload; command_of p)
  else (r, command_of data).

Lemma frame_input s : input_frame (s_reassembler s) (s_now s) (frame s) = frame s.
Proof. done. Qed.

Lemma sound_chunk data addr c d a s : sound c d a s ->
  exists c',
    payload_moves (p ← snd (take_chunk data (fr_reassembler c) (fr_now c)); command_of p)
      (input_frame (fst (take_chunk data (fr_reassembler c) (fr_now c))) (fr_now c) c) c' /\
    sound c' d a (on_chunk data addr s).
Proof.
  intros Hs. pose proof (sound_frame _ _ _ _ Hs) as <-. unfold on_chunk, take_chunk.
  destruct (decode_chunk data) as [chunk|e].
  2:{ exists (frame s). split; [done|by apply sound_emit]. }
  cbv zeta. cbn [fr_reassembler fr_now frame s_reassembler put_transfer_addrs s_now].
  destruct (push (s_reassembler s) chunk (s_now s)) as [r [[x|]|e]]; cbn [fst snd mbind option_bind].
  1: apply sound_command_bytes.
  2: exists (input_frame r (s_now s) (frame s)); split; [done|].
  3: exists (input_frame r (s_now s) (frame s)); split; [done|apply sound_emit; [done|]].
  all: match goal with |- context [put_reassembler ?r ?x] =>
         assert (sound (frame s) d a x) as H1 by (by apply (sound_same (frame s) d a s _ eq_refl));
         apply (sound_reassembler r) in H1 end; auto with sound nocore.
Qed.

Lemma sound_datagram data addr c d a s : sound c d a s ->
  exists c',
    payload_moves (snd (delivers data (fr_reassembler c) (fr_now c)))
      (input_frame (fst (delivers data (fr_reassembler c) (fr_now c))) (fr_now c) c) c' /\
    sound c' d a (on_datagram data addr s).
Proof.
  intros Hs. unfold on_datagram, delivers, is_chunk. cbv zeta.
  assert (sound c d a (stop_invalid_attachments (refresh_snapshot s))) as H1 by auto with sound nocore.
  assert (input_frame (fr_reassembler c) (fr_now c) c = c) as Hc by (by destruct c).
  destruct (peek_tag data) as [t|]; [destruct (t =? wire MT_Chunk)|].
  - apply (sound_chunk data addr) in H1. destruct (take_chunk _ _ _). exact H1.
  - cbn [fst snd]. rewrite Hc. by apply sound_command_bytes.
  - cbn [fst snd]. rewrite Hc. by apply sound_command_bytes.
Qed.

Lemma sound_expire c d a s : sound c d a s ->
  sound (input_frame (fst (expire (fr_reassembler c) (fr_now c))) (fr_now c) c) d a (expire_chunks s).
Proof.
  intros Hs. pose proof (sound_frame _ _ _ _ Hs) as <-. unfold expire_chunks.
  change (fr_reassembler (frame s)) with (s_reassembler s). change (fr_now (frame s)) with (s_now s).
  destruct (expire _ _) as [r l]. apply (sound_reassembler r) in Hs.
  revert Hs. generalize (put_reassembler r s). cbn [fst]. generalize (input_frame r (s_now s) (frame s)).
  intros c. induction l as [|p l IH]; intros s1 H1; [done|]. cbn.
  apply IH. destruct (s_transfer_addrs s1 !! _); auto with sound nocore.
Qed.

(** ** The poll *)

Lemma sound_settle_enable c d a s : sound c d a s -> sound c d a (settle_enable s).
Proof.
  intros. unfold settle_enable. cbv zeta. destruct (env_take_enable_outcome _); [|auto with sound nocore].
  cbn. auto 60 with sound nocore.
Qed.

Lemma sound_settle_flashing c d a s : sound c d a s -> sound c d a (settle_flashing s).
Proof.
  intros. unfold settle_flashing. cbv zeta. destruct (env_take_flashing_outcome _); [|auto with sound nocore].
  cbn. auto 60 with sound nocore.
Qed.

Lemma sound_settle_bus c d a s : sound c d a s -> sound c d a (settle_bus s).
Proof.
  intros. unfold settle_bus. cbv zeta. destruct (env_take_bus_outcome _) as [o|]; [|auto with sound nocore].
  cbn. apply sound_waiters. destruct (s_pending_simulator s); [destruct (is_ok o)|]; auto 60 with sound nocore.
Qed.

Lemma sound_boot c d a s : sound c d a s -> sound c d a (request_boot_enable s).
Proof. intros. unfold request_boot_enable. destruct (_ || _); auto with sound nocore. Qed.

Lemma sound_emit_status c d a s : sound c d a s -> sound c d a (emit_status s).
Proof. intros. unfold emit_status. cbv zeta. auto 60 with sound nocore. Qed.
#[local] Hint Resolve sound_scans sound_settle_enable sound_settle_flashing sound_settle_bus
  sound_boot sound_emit_status : sound.

Lemma sound_status c d a s : sound c d a s -> sound c d a (on_status s).
Proof. intros. unfold on_status. cbv zeta. destruct (negb _); auto with sound nocore. Qed.

Lemma sound_poll c d a s : sound c d a s ->
  sound (input_frame (fst (expire (fr_reassembler c) (fr_now c))) (fr_now c) c) d a (on_poll s).
Proof.
  intros. unfold on_poll. cbv zeta. apply sound_pump, sound_expire.
  assert (sound c d a (emit_status_on_tick (refresh_snapshot s))) as H1; [|auto 60 with sound nocore].
  unfold emit_status_on_tick. cbv zeta. destruct (s_last_status_tick _); [case_match|]; auto with sound nocore.
Qed.

(** ** The event loop *)

Lemma sound_new cfg ae : sound (frame (server_new cfg ae)) [] [] (server_new cfg ae).
Proof.
  constructor; cbn; try done.
  - intros i. rewrite !occ_nil. cbn. unfold FIRST_COMMAND_INDEX.
    destruct (Z.leb_spec 1 i), (Z.ltb_spec i 1); cbn; lia.
  - constructor.
  - by left.
  - intros i. rewrite occ_nil. split; [lia|]. intros [Hi|Hi]; [lia|]. by apply not_elem_of_empty in Hi.
  - lia.
Qed.

Lemma sound_start cfg ae ie s : server_start cfg ae ie = Ok s -> sound (frame (server_new cfg ae)) [] [] s.
Proof.
  unfold server_start, rt_set_shapes. cbv zeta. pose proof (sound_new cfg ae) as Hn.
  destruct (cfg_installation_shapes cfg); [|destruct (env_set_shapes _ _ _); [|done]];
    intros [= <-]; auto 60 with sound nocore.
Qed.

(** The command an event delivers to the server, the transfers under way and the
    clock given. *)
Definition carried (now : Z) (ev : ServerEvent) (s : Server) : option Command :=
  match ev, s_deferred s with
  | SE_Datagram data _, _ | SE_Deferred, (data, _) :: _ => snd (delivers data (s_reassembler s) now)
  | _, _ => None
  end.

(** A turn keeps the ledger balanced, and its frame moves as the command it
    delivered says. *)
Lemma sound_turn now ev c s s' : sound c [] [] s -> server_turn now ev s = Some s' ->
  exists r c', payload_moves (carried now ev s) (input_frame r now c) c' /\ sound c' [] [] s'.
Proof.
  intros Hs. pose proof (sound_frame _ _ _ _ Hs) as <-. unfold server_turn, carried. cbv zeta.
  pose proof (sound_now now _ _ _ _ Hs) as H1.
  set (c1 := input_frame (s_reassembler s) now (frame s)) in *.
  change (s_deferred (put_now now s)) with (s_deferred s).
  destruct ev as [data addr| | |ev|], (s_deferred s) as [|[held from] rest]; try done; intros [= <-].
  - apply (sound_datagram data addr) in H1 as (c' & Hm & H1).
    exists (fst (delivers data (s_reassembler s) now)), c'. by split.
  - apply sound_poll in H1. by exists (fst (expire (s_reassembler s) now)), (input_frame (fst (expire (s_reassembler s) now)) now (frame s)).
  - exists (s_reassembler s), c1. split; [done|]. by apply sound_status.
  - exists (s_reassembler s), c1. split; [done|]. by apply sound_plan_event.
  - assert (sound c1 [] [] (put_deferred rest (put_now now s))) as H2
      by (by apply (sound_same c1 [] [] (put_now now s) _ eq_refl)).
    apply (sound_datagram held from) in H2 as (c' & Hm & H2).
    exists (fst (delivers held (s_reassembler s) now)), c'. by split.
Qed.

(** Between events the ledger is balanced, whatever happened. *)
Lemma reachable_sound s : server_reachable s -> sound (frame s) [] [] s.
Proof.
  induction 1 as [cfg ae ie s Hs|s now ev s' _ IH Ht].
  - apply sound_start in Hs. by rewrite (sound_frame _ _ _ _ Hs).
  - destruct (sound_turn _ _ _ _ _ IH Ht) as (r & c' & _ & Hs). by rewrite (sound_frame _ _ _ _ Hs).
Qed.

End env.
