(* ===== verification/ServerWindow.v ===== *)
(** * ServerWindow: what the dedup window remembers

    The keys the server can still recognise are those of the last commands it
    admitted, as many as the window holds, each with the index it was given. *)
From stdpp Require Import gmap list_numbers.
From S2P Require Import Prelude F64 Wire Enums Command CommandCodec Chunk WireError BusTypes Ring RtState ServerGate ServerTypes ServerQueue ServerDispatch ServerLedger ServerSound.

(** The window holds the keys of the last commands, oldest first. *)
Record window_ok (next : Z) (d : Dedup) : Prop := {
  wo_cap : (1 <= dd_cap d)%nat;
  wo_length : Z.of_nat (length (dd_order d)) = Z.min (Z.of_nat (dd_cap d)) (next - 1);
  wo_nodup : NoDup (dd_order d);
  wo_map : forall key i, dedup_get d key = Some i <->
    exists j, dd_order d !! j = Some key /\ i = next - Z.of_nat (length (dd_order d)) + Z.of_nat j;
}.

Lemma window_new cap : window_ok 1 (dedup_new cap).
Proof.
  constructor; cbn; [lia|lia|constructor|]. intros key i. split; [|by intros (j & Hj & _)].
  unfold dedup_get. cbn. by rewrite lookup_empty.
Qed.

Lemma window_fresh next d key : window_ok next d -> dedup_get d key = None -> key ∉ dd_order d.
Proof.
  intros [_ _ _ Hm] Hn [j Hj]%list_elem_of_lookup.
  assert (dedup_get d key = Some (next - Z.of_nat (length (dd_order d)) + Z.of_nat j)) by (apply Hm; eauto).
  congruence.
Qed.

Lemma nodup_snoc (x : Z) l : NoDup l -> x ∉ l -> NoDup (l ++ [x]).
Proof.
  intros Hd Hx. apply NoDup_app. split_and!; [done| |by apply NoDup_singleton].
  intros y Hy He. apply list_elem_of_singleton in He. by subst.
Qed.

(** The window before the oldest key leaves it. *)
Definition widened (key index : Z) (d : Dedup) : Dedup :=
  mkDedup (dd_cap d) (dd_order d ++ [key]) (<[key := index]> (dd_map d)).

Definition drop_oldest (d : Dedup) : Dedup :=
  match dd_order d with
  | old :: rest => mkDedup (dd_cap d) rest (delete old (dd_map d))
  | [] => d
  end.

Lemma dedup_insert_eq key index d : dedup_get d key = None ->
  dedup_insert key index d =
  if (dd_cap d <? S (length (dd_order d)))%nat then drop_oldest (widened key index d) else widened key index d.
Proof.
  unfold dedup_get, dedup_insert. intros ->. rewrite length_app, Nat.add_1_r.
  destruct (_ <? _)%nat; [|done]. unfold drop_oldest, widened. cbn. by destruct (dd_order d).
Qed.

Lemma widened_get key next d k i : window_ok next d -> dedup_get d key = None ->
  dedup_get (widened key next d) k = Some i <->
  exists j, (dd_order d ++ [key]) !! j = Some k /\ i = next - Z.of_nat (length (dd_order d)) + Z.of_nat j.
Proof.
  intros Hw Hn. pose proof (window_fresh _ _ _ Hw Hn) as Hf. destruct Hw as [_ _ _ Hm].
  unfold dedup_get in *. cbn. split.
  - intros [[-> <-]|[Hne Hl]]%lookup_insert_Some.
    + exists (length (dd_order d)). split; [by rewrite lookup_app_r, Nat.sub_diag|lia].
    + apply Hm in Hl as (j & Hj & ->). exists j. split; [by apply lookup_app_l_Some|done].
  - intros (j & [Hj|[Hle Hj]]%lookup_app_Some & ->).
    + apply lookup_insert_Some. right. split; [|apply Hm; eauto].
      intros ->. apply Hf. by apply list_elem_of_lookup_2 in Hj.
    + apply list_lookup_singleton_Some in Hj as [Hj ->]. apply lookup_insert_Some. left. split; [done|lia].
Qed.

Lemma drop_oldest_get d k i :
  NoDup (dd_order d) -> dd_order d <> [] ->
  dedup_get (drop_oldest d) k = Some i <-> dedup_get d k = Some i /\ head (dd_order d) <> Some k.
Proof.
  unfold drop_oldest, dedup_get. destruct (dd_order d) as [|old rest]; [done|]. intros _ _. cbn.
  rewrite lookup_delete_Some. split; intros [H1 H2]; split; congruence.
Qed.

(** Admitting a command keeps the window. *)
Lemma window_insert key next d : 1 <= next ->
  window_ok next d -> dedup_get d key = None -> window_ok (next + 1) (dedup_insert key next d).
Proof.
  intros Hnext Hw Hn. pose proof (window_fresh _ _ _ Hw Hn) as Hf.
  pose proof (fun k i => widened_get key next d k i Hw Hn) as Hg. destruct Hw as [Hc Hl Hd _].
  pose proof (nodup_snoc _ _ Hd Hf) as Hnd.
  rewrite dedup_insert_eq by done. destruct (Nat.ltb_spec (dd_cap d) (S (length (dd_order d)))) as [Hlt|Hge].
  2:{ constructor; cbn [dd_cap dd_order widened]; rewrite ?length_app; cbn [length]; [lia|lia|done|].
      intros k i. rewrite Hg. split; intros (j & Hj & ->); exists j; split; try done; lia. }
  pose proof (fun k i => drop_oldest_get (widened key next d) k i Hnd) as Hdrop.
  unfold drop_oldest, widened in *. cbn [dd_order dd_cap dd_map] in *.
  destruct (dd_order d ++ [key]) as [|old rest] eqn:E; [by destruct (dd_order d)|].
  assert (length (dd_order d) = length rest) as El.
  { apply (f_equal length) in E. rewrite length_app in E. cbn in E. lia. }
  constructor; cbn [dd_cap dd_order]; [done|lia|by apply NoDup_cons in Hnd as [_ Hnd]|].
  intros k i. rewrite Hdrop, Hg by done. cbn [head]. rewrite El. split.
  - intros [([|j] & Hj & ->) Hne]; [done|]. exists j. split; [done|lia].
  - intros (j & Hj & ->). split; [exists (S j); split; [done|lia]|].
    intros [= ->]. apply NoDup_cons in Hnd as [Hin _]. apply Hin. by apply list_elem_of_lookup_2 in Hj.
Qed.

(** A key stays known until as many commands as the window holds were admitted. *)
Lemma insert_keeps key next d k i :
  window_ok next d -> dedup_get d key = None -> dedup_get d k = Some i ->
  next + 1 <= i + Z.of_nat (dd_cap d) -> dedup_get (dedup_insert key next d) k = Some i.
Proof.
  intros Hw Hn Hk Hle. pose proof (window_fresh _ _ _ Hw Hn) as Hf.
  assert (dedup_get (widened key next d) k = Some i) as Hk'.
  { unfold dedup_get in *. cbn. rewrite lookup_insert_ne by congruence. done. }
  rewrite dedup_insert_eq by done. destruct (Nat.ltb_spec (dd_cap d) (S (length (dd_order d)))) as [Hlt|Hge]; [|done].
  pose proof (wo_length _ _ Hw) as Hl. pose proof (wo_nodup _ _ Hw) as Hd.
  apply (wo_map _ _ Hw) in Hk as (j & Hj & ->).
  apply drop_oldest_get; cbn [dd_order widened].
  - by apply nodup_snoc.
  - by destruct (dd_order d).
  - split; [done|]. destruct (dd_order d) as [|old rest] eqn:E; [done|]. cbn. intros [= ->].
    destruct j as [|j]; [cbn [length] in *; lia|].
    apply NoDup_cons in Hd as [Hin _]. apply Hin. exact (list_elem_of_lookup_2 rest j k Hj).
Qed.

(** The key just admitted is known. *)
Lemma insert_known key next d :
  window_ok next d -> dedup_get d key = None -> dedup_get (dedup_insert key next d) key = Some next.
Proof.
  intros Hw Hn. pose proof (window_fresh _ _ _ Hw Hn) as Hf.
  assert (dedup_get (widened key next d) key = Some next) as Hk by (unfold dedup_get; cbn; apply lookup_insert_eq).
  rewrite dedup_insert_eq by done. destruct (Nat.ltb_spec (dd_cap d) (S (length (dd_order d)))) as [Hlt|]; [|done].
  apply drop_oldest_get; cbn [dd_order widened].
  - apply nodup_snoc; [apply (wo_nodup _ _ Hw)|done].
  - by destruct (dd_order d).
  - split; [done|]. destruct (dd_order d) as [|old rest] eqn:E; cbn.
    + pose proof (wo_cap _ _ Hw). cbn in Hlt. lia.
    + intros [= ->]. apply Hf. left.
Qed.

Lemma dedup_insert_cap key index d : dd_cap (dedup_insert key index d) = dd_cap d.
Proof.
  unfold dedup_insert. destruct (dd_map d !! key); [done|]. destruct (_ <? _)%nat; [|done]. by destruct (_ ++ _).
Qed.

(** ** Along the runs of the server *)

Section env.
Context {show : Show} {env : ServerEnv}.

(** What a delivered command does to the keys and the next index. *)
Lemma payload_keys p c c' : payload_moves p c c' ->
  (fr_next c' = fr_next c /\ fr_dedup c' = fr_dedup c) \/
  exists key, dedup_get (fr_dedup c) key = None /\
    fr_next c' = fr_next c + 1 /\ fr_dedup c' = dedup_insert key (fr_next c) (fr_dedup c).
Proof.
  destruct p as [cmd|]; cbn; [|by intros ->; left].
  destruct 1 as [|key _ Hd|_|_]; [by left| |by left..]. right. by exists key.
Qed.

Lemma turn_keys now ev s s' : sound (frame s) [] [] s -> server_turn now ev s = Some s' ->
  (s_next_index s' = s_next_index s /\ s_dedup s' = s_dedup s) \/
  exists key, dedup_get (s_dedup s) key = None /\
    s_next_index s' = s_next_index s + 1 /\ s_dedup s' = dedup_insert key (s_next_index s) (s_dedup s).
Proof.
  intros Hs Ht. destruct (sound_turn _ _ _ _ _ Hs Ht) as (r & c' & Hm%payload_keys & Hs').
  pose proof (sound_frame _ _ _ _ Hs') as <-. exact Hm.
Qed.

Lemma window_start cfg ae : window_ok (s_next_index (server_new cfg ae)) (s_dedup (server_new cfg ae)).
Proof. apply window_new. Qed.

Lemma reachable_window s : server_reachable s -> window_ok (s_next_index s) (s_dedup s).
Proof.
  induction 1 as [cfg ae ie s Hs|s now ev s' Hr IH Ht].
  - pose proof (sound_frame _ _ _ _ (sound_start _ _ _ _ Hs)) as Hf.
    change (window_ok (fr_next (frame s)) (fr_dedup (frame s))). rewrite Hf. apply window_start.
  - pose proof (reachable_sound _ Hr) as Hs.
    destruct (turn_keys _ _ _ _ Hs Ht) as [[-> ->]|(key & Hn & -> & ->)]; [done|].
    by apply window_insert; [apply (lo_next _ _ _ _ Hs)|..].
Qed.

Lemma runs_reachable s s' : server_reachable s -> server_runs s s' -> server_reachable s'.
Proof. induction 2; [done|]. by eapply sr_turn. Qed.

(** The keys known along a run. *)
Lemma runs_keep s s' k i : server_reachable s -> server_runs s s' ->
  dedup_get (s_dedup s) k = Some i -> s_next_index s' <= i + Z.of_nat (dd_cap (s_dedup s)) ->
  dedup_get (s_dedup s') k = Some i /\ dd_cap (s_dedup s') = dd_cap (s_dedup s).
Proof.
  intros Hr Hrun Hk. induction Hrun as [|s' now ev s'' Hrun IH Ht]; intros Hle; [done|].
  pose proof (runs_reachable _ _ Hr Hrun) as Hr'. pose proof (reachable_window _ Hr') as Hw.
  destruct (turn_keys _ _ _ _ (reachable_sound _ Hr') Ht) as [[Hn ->]|(key & Hn & Hnext & ->)].
  - apply IH. lia.
  - destruct IH as [IH1 IH2]; [lia|]. split; [|by rewrite dedup_insert_cap].
    apply insert_keeps; [done..|]. rewrite IH2. lia.
Qed.

End env.
