(* ===== verification/ServerExample.v ===== *)
(** * ServerExample: a server in a calm environment

    An arm that is enabled, at rest and referenced, an environment that accepts
    everything, and short runs of the command plane in it: the inputs the theorems
    about the server are applied at. *)
From stdpp Require Import gmap list_numbers.
From S2P Require Import Prelude F64 Wire Enums Command CommandCodec Chunk WireError BusTypes Ring RtState ServerGate ServerTypes ServerQueue ServerDispatch ServerLedger ServerSound.

#[export] Instance plain_show : Show := {| show_f64 := fun _ v => show_int v; show_debug_str := id |}.

Definition resting_arm : StateSnapshot :=
  mkSnapshot 7 Idle Enabled true f64_0 [] [] None false [] [] false exec_status_default 0 0.

(** Jogging is refused, everything else accepted. *)
#[export] Instance calm_env : ServerEnv := {|
  env_stream _ cmd :=
    match cmd with
    | C_JogJ _ => Err (make_error WE_MotnCancelled UNATTRIBUTED [])
    | _ => Ok tt
    end;
  env_stop_refused_stream _ := false;
  env_refusal_in_progress _ := false;
  env_take_enable_outcome _ := None;
  env_take_flashing_outcome _ := None;
  env_take_bus_outcome _ := None;
  env_set_simulator _ _ := Ok tt;
  env_connect_hardware _ _ := Ok tt;
  env_set_shapes _ _ _ := Ok tt;
  env_try_recv out := if (length out <? 40)%nat then Some ([147], Z.of_nat (length out)) else None;
  env_snapshot _ := Some resting_arm;
  env_status_due _ := false;
|}.

(** Two places in the queue, the smallest window that goes with them. *)
Definition small_cfg : ServerConfig :=
  mkServerConfig 50 f64_60 100000000 2 1 1000000000 1 0 false
    [str_bytes "grip"] [str_bytes "grip"] (str_bytes "grip") 1 true [] [] [] []
    [str_bytes "smooth"] (str_bytes "smooth") [] [] f64_0_1.

Definition datagram (req_id : Z) (cmd : Command) : bytes := snd (encode_command cmd req_id []).

Definition delay_cmd (key : Z) : Command := C_Delay (mkDelay key f64_1).
Definition stop_cmd (key : Z) : Command := C_ToolAction (mkToolAction key (str_bytes "grip") (str_bytes "stop") []).

(** A list of turns, in order. *)
Fixpoint server_run (evs : list (Z * ServerEvent)) (s : Server) : option Server :=
  match evs with
  | [] => Some s
  | (now, ev) :: evs => s ← server_turn now ev s; server_run evs s
  end.

Lemma server_run_runs evs : forall s s', server_run evs s = Some s' -> server_runs s s'.
Proof.
  assert (forall s s' s'', server_runs s s' -> server_runs s' s'' -> server_runs s s'') as Htrans.
  { intros s s' s'' H1 H2. induction H2; [done|]. by eapply sn_turn. }
  induction evs as [|[now ev] evs IH]; intros s s'; cbn; [intros [= <-]; constructor|].
  destruct (server_turn now ev s) as [s1|] eqn:E; cbn; [|done]. intros H%IH.
  eapply Htrans; [|done]. eapply sn_turn; [constructor|done].
Qed.

(** The state after some turns from the start. *)
Definition after (evs : list (Z * ServerEvent)) : Server :=
  default (server_new small_cfg 1)
    (match server_start small_cfg 1 0 with Ok s => server_run evs s | Err _ => None end).

Lemma after_reachable evs :
  is_some (match server_start small_cfg 1 0 with Ok s => server_run evs s | Err _ => None end) = true ->
  server_reachable (after evs).
Proof.
  unfold after. destruct (server_start small_cfg 1 0) as [s|] eqn:Es; [|done].
  destruct (server_run evs s) as [s'|] eqn:Er; [|done]. intros _. cbn.
  apply server_run_runs in Er. induction Er; [by eapply sr_start|by eapply sr_turn].
Qed.

(** A delay planned and executing, another queued, one tool stop under way. *)
Definition busy_evs : list (Z * ServerEvent) :=
  [(1000, SE_Datagram (datagram 1 (delay_cmd 100)) 9); (2000, SE_Plan (PE_Started 1 1));
   (3000, SE_Datagram (datagram 2 (delay_cmd 101)) 9); (4000, SE_Datagram (datagram 3 (stop_cmd 102)) 9)].

Definition busy : Server := after busy_evs.

Lemma busy_reachable : server_reachable busy.
Proof. apply after_reachable. vm_compute. reflexivity. Qed.

Example busy_shape :
  executing_indices busy = [1] /\ map pd_index (s_pending busy) = [2] /\
  map tst_index (s_tool_stops busy) = [3] /\ s_planning busy = None /\ completions busy = [].
Proof. vm_compute. auto. Qed.
