(* ===== verification/ServerProps.v ===== *)
(** * ServerProps: what the command plane promises

    The theorems about the server: every accepted command finishes exactly once,
    the completed index is a high-water mark, the queue is in order and bounded, a
    failure and an e-stop speak for everything they drop, the e-stop latch holds
    until a RESET arrives, a retransmission is answered with its original index
    while the window remembers it, and a preemption loses no datagram but the
    superseded stream's. *)
From Stdlib Require Import Sorted.
From stdpp Require Import gmap list_numbers.
From S2P Require Import Prelude F64 Wire Enums Command CommandCodec Chunk WireError BusTypes Ring RtState ServerGate ServerTypes ServerQueue ServerDispatch ServerLedger ServerSound ServerWindow ServerExample.

(** ** Indices and completions *)

Lemma sound_part s : sound (frame s) [] [] s -> forall i,
  occ i (completions s ++ live s) = if ((1 <=? i) && (i <? s_next_index s))%Z then 1%nat else 0%nat.
Proof.
  intros Hs i. pose proof (lo_part _ _ _ _ Hs i) as Hp. rewrite !occ_nil in Hp.
  unfold live. rewrite !occ_app. cbn in Hp. rewrite <- Hp. lia.
Qed.

(** C7: no accepted command is lost and none finishes twice.  In every state the
    server reaches, an index it handed out is either live (pending, executing,
    blended into the executing motion, or a tool stop under way) or was pushed as
    COMPLETE, never both, and exactly once. *)
Theorem commands_finish_once `{!Show} `{!ServerEnv} s : server_reachable s ->
  (forall i, In i (completions s ++ live s) <-> 1 <= i < s_next_index s) /\
  List.NoDup (completions s ++ live s).
Proof.
  intros Hs%reachable_sound. pose proof (sound_part _ Hs) as Hp. split.
  - intros i. rewrite <- occ_in, Hp. destruct (Z.leb_spec 1 i), (Z.ltb_spec i (s_next_index s)); cbn; lia.
  - apply occ_nodup. intros i. rewrite Hp. destruct (_ && _); lia.
Qed.

Lemma commands_finish_once_witness : List.NoDup (completions busy ++ live busy) /\ live busy = [1; 2; 3].
Proof. split; [exact (proj2 (commands_finish_once busy busy_reachable))|vm_compute; reflexivity]. Defined.

(** C26: the completed index clients poll is exact: every index up to it has had its
    COMPLETE, the next one has not, and it never runs ahead of the accepted index,
    in whatever order queued commands and tool stops finish. *)
Theorem completed_index_is_prefix `{!Show} `{!ServerEnv} s : server_reachable s ->
  (forall i, 1 <= i <= s_completed_index s -> In i (completions s)) /\
  ~ In (Z.max 0 (s_completed_index s) + 1) (completions s) /\
  s_completed_index s <= s_accepted_index s.
Proof.
  intros Hs%reachable_sound. pose proof (lo_advanced _ _ _ _ Hs) as Ha. cbn in Ha.
  assert (forall i, 1 <= i <= s_completed_index s -> In i (completions s)) as H1.
  { intros i Hi. apply occ_in. specialize (Ha i). rewrite occ_nil in Ha. apply Ha. by left. }
  split_and!; [done| |].
  - rewrite <- occ_in. specialize (Ha (Z.max 0 (s_completed_index s) + 1)). rewrite occ_nil in Ha.
    intros Ho. apply Ha in Ho as [Ho|Ho]; [lia|].
    apply (lo_finished _ _ _ _ Hs) in Ho. cbn in Ho. lia.
  - pose proof (lo_accepted _ _ _ _ Hs) as Hacc. pose proof (lo_next _ _ _ _ Hs) as Hn. cbn in Hacc, Hn.
    rewrite Hacc. destruct (lo_mark _ _ _ _ Hs) as [Hm|Hm]; cbn in Hm; [destruct (_ =? _); lia|].
    assert (1 <= s_completed_index s < s_next_index s) as Hr.
    { apply (part_range _ _ _ (ledger s) _ Hs). pose proof (H1 (s_completed_index s) ltac:(lia)) as Hi.
      apply occ_in in Hi. cbn. lia. }
    destruct (Z.eqb_spec (s_next_index s) 1); lia.
Qed.

Lemma completed_index_is_prefix_witness : ~ In 1 (completions busy) /\ s_completed_index busy = -1.
Proof.
  split; [exact (proj1 (proj2 (completed_index_is_prefix busy busy_reachable)))|vm_compute; reflexivity].
Defined.

(** The queue is first in, first out and bounded.  In every reachable state the
    executing command, those blended into it and the pending ones stand in the order
    they were accepted, the queue is within its capacity, and a command being
    planned is the head of the queue with nothing executing. *)
Lemma queue_in_order `{!Show} `{!ServerEnv} s : server_reachable s ->
  StronglySorted Z.lt (executing_indices s ++ map pd_index (s_pending s)) /\
  (length (s_pending s) <= cfg_queue_capacity (s_cfg s))%nat /\
  (forall i, s_planning s = Some i ->
     s_executing s = None /\ exists p rest, s_pending s = p :: rest /\ pd_index p = i).
Proof.
  intros Hs%reachable_sound. split_and!.
  - exact (lo_sorted _ _ _ _ Hs).
  - pose proof (lo_capacity _ _ _ _ Hs) as Hc. cbn in Hc. by rewrite length_map in Hc.
  - intros i. by eapply sound_planning.
Qed.

Lemma queue_in_order_witness : StronglySorted Z.lt (executing_indices busy ++ map pd_index (s_pending busy)).
Proof. exact (proj1 (queue_in_order busy busy_reachable)). Defined.

(** ** What a drop says *)

(** The queues of a server. *)
Definition queues (s : Server) := (s_pending s, s_planning s, s_executing s, s_tool_stops s).

Lemma queues_advance i s : queues (advance_completed i s) = queues s /\ s_out (advance_completed i s) = s_out s /\
  s_standing_error (advance_completed i s) = s_standing_error s.
Proof. unfold advance_completed. cbv zeta. by destruct (advance_go _ _ _ _). Qed.

(** The COMPLETE pushes of a list of indices. *)
Definition pushes (f : Z -> option WireError) (l : list (Z * Addr)) : list Out :=
  map (fun '(i, addr) => O_Reply addr (R_Complete i (negb (is_some (f i))) (f i) None)) l.

Lemma fold_complete f l : forall s,
  let s' := fold_left (fun s '(i, addr) => push_complete addr i (f i) None (advance_completed i s)) l s in
  queues s' = queues s /\ s_standing_error s' = s_standing_error s /\ s_out s' = s_out s ++ pushes f l.
Proof.
  induction l as [|[i addr] l IH]; intros s; cbn; [by rewrite app_nil_r|].
  destruct (IH (push_complete addr i (f i) None (advance_completed i s))) as (-> & -> & ->).
  destruct (queues_advance i s) as (Hq & Ho & He). split_and!; [exact Hq|exact He|].
  unfold push_complete, reply, emit. cbn. by rewrite Ho, <- app_assoc.
Qed.

Lemma complete_cancelled_spec scope l s :
  let s' := fst (complete_cancelled scope l s) in
  queues s' = queues s /\ s_standing_error s' = s_standing_error s /\
  s_out s' = s_out s ++ pushes (fun i => Some (cancelled scope i)) l.
Proof. apply (fold_complete (fun i => Some (cancelled scope i))). Qed.

Lemma drop_pending_eq s :
  drop_pending s = (put_pending [] (put_blend_hold None s), map (fun p => (pd_index p, pd_addr p)) (s_pending s)).
Proof. done. Qed.

(** Cancelling everything leaves nothing. *)
Lemma cancel_all_idle scope s : queues (fst (cancel_all_motion scope s)) = ([], None, None, []).
Proof.
  unfold cancel_all_motion. pose proof (drop_active_motion_idle s) as (H1 & H2 & H3).
  destruct (drop_active_motion s) as [s1 d1]. cbn [fst] in *. rewrite drop_pending_eq.
  pose proof (complete_cancelled_spec scope (d1 ++ map (fun p => (pd_index p, pd_addr p)) (s_pending s1))
                (put_pending [] (put_blend_hold None s1))) as (Hq & _).
  destruct (complete_cancelled _ _ _). cbn [fst] in *. rewrite Hq. unfold queues. cbn. by rewrite H1, H2, H3.
Qed.

Lemma queues_clear_pause s : queues (clear_pause s) = queues s.
Proof. unfold clear_pause. by destruct (s_execution_paused s). Qed.

Lemma live_idle s : queues s = ([], None, None, []) -> live s = [] /\ s_planning s = None.
Proof. unfold queues, live, executing_indices. by intros [= -> -> -> ->]. Qed.

(** What was sent stays sent. *)
Definition grows (s s' : Server) : Prop := s_out s `prefix_of` s_out s'.

Lemma grows_emit o s0 s : grows s0 s -> grows s0 (emit o s).
Proof. intros H. by apply prefix_app_r. Qed.

Lemma grows_drop_active s0 s : grows s0 s -> grows s0 (fst (drop_active s)).
Proof.
  intros H. unfold drop_active. destruct (s_planning s) as [i|].
  - destruct (pop_front_if _ _) as [[p|] rest]; cbn; destruct (s_executing s); cbn; first [exact H|by apply grows_emit].
  - destruct (s_executing s); cbn; first [exact H|by apply grows_emit].
Qed.

Lemma grows_cancel_all scope s0 s : grows s0 s -> grows s0 (fst (cancel_all_motion scope s)).
Proof.
  intros H. unfold cancel_all_motion.
  assert (grows s0 (fst (drop_active_motion s))) as H1.
  { rewrite drop_active_motion_eq. cbv zeta. cbn [fst]. apply grows_emit.
    assert (grows s0 (fst (drop_active (plan (PR_Cancel true) s)))) as H2 by (by apply grows_drop_active, grows_emit).
    generalize dependent (fst (drop_active (plan (PR_Cancel true) s))). clear s H. intros s H.
    assert (grows s0 (fst (drop_tool_stops s))) as H3
      by (unfold drop_tool_stops; destruct (s_tool_stops s); cbn; first [exact H|by apply grows_emit]).
    unfold cancel_stream_if_any. destruct (s_active_stream _); [by apply grows_emit|done]. }
  destruct (drop_active_motion s) as [s1 d1]. cbn [fst] in H1. rewrite drop_pending_eq.
  match goal with |- context [complete_cancelled ?sc ?l ?x] =>
    pose proof (complete_cancelled_spec sc l x) as (_ & _ & Ho); destruct (complete_cancelled sc l x) end.
  cbn [fst] in *. unfold grows. rewrite Ho. by apply prefix_app_r.
Qed.

Lemma latched_refuses t s : s_estop_latched s = true -> needs_enabled (gate t) = true -> server_gate t s <> None.
Proof. intros Hl Hg. unfold server_gate, check_gate. cbn [gc_estop_latched]. rewrite Hl, Hg. by destruct (_ && _). Qed.

Lemma frame_fields s c : frame s = c -> s_next_index s = fr_next c /\ s_estop_latched s = fr_latched c.
Proof. by intros <-. Qed.

(** C9: an e-stop request stops first and explains after.  Its first action is to
    disable the drives; then nothing is live, every index ever accepted has had
    its COMPLETE, the standing error says e-stop, and every command that needs an
    enabled arm is refused. *)
Theorem estop_leaves_nothing_live `{!Show} `{!ServerEnv} s : server_reachable s ->
  (exists rest, s_out (on_estop s) = s_out s ++ O_Rt (RT_set_enabled false) :: rest) /\
  live (on_estop s) = [] /\ s_planning (on_estop s) = None /\
  (forall i, In i (completions (on_estop s)) <-> 1 <= i < s_next_index s) /\
  (forall t, needs_enabled (gate t) = true -> server_gate t (on_estop s) <> None).
Proof.
  intros Hs%reachable_sound%sound_estop. pose proof (sound_frame _ _ _ _ Hs) as Hf.
  destruct (frame_fields _ _ Hf) as [Hn Hl]. cbn [latch_frame fr_next fr_latched] in Hn, Hl.
  assert (queues (on_estop s) = ([], None, None, [])) as Hq.
  { unfold on_estop. cbv zeta. match goal with |- context [cancel_all_motion ?sc ?x] =>
      pose proof (cancel_all_idle sc x); destruct (cancel_all_motion sc x) end. by rewrite queues_clear_pause. }
  split_and!.
  - set (s1 := rt (RT_set_enabled false) (put_estop_latched true s)).
    assert (grows s1 (on_estop s)) as [rest Hr].
    { unfold on_estop. fold s1. cbv zeta. match goal with |- context [cancel_all_motion ?sc ?x] =>
        pose proof (grows_cancel_all sc s1 x ltac:(exists []; symmetry; apply app_nil_r)); destruct (cancel_all_motion sc x) end.
      unfold clear_pause. case_match; [by apply grows_emit|done]. }
    exists rest. rewrite Hr. cbn. by rewrite <- app_assoc.
  - by apply live_idle.
  - by apply live_idle.
  - intros i. rewrite <- Hf in Hs. pose proof (sound_part _ Hs i) as Hp. rewrite (proj1 (live_idle _ Hq)), app_nil_r in Hp.
    rewrite Hn in Hp. rewrite <- occ_in, Hp. change (fr_next (frame s)) with (s_next_index s).
    destruct (Z.leb_spec 1 i), (Z.ltb_spec i (s_next_index s)); cbn; lia.
  - intros t. by apply latched_refuses.
Qed.

Lemma estop_leaves_nothing_live_witness : live (on_estop busy) = [] /\ completions (on_estop busy) = [1; 3; 2].
Proof.
  split; [exact (proj1 (proj2 (estop_leaves_nothing_live busy busy_reachable)))|vm_compute; reflexivity].
Defined.

(** The e-stop latch holds until a RESET arrives.  Whatever turn the loop takes,
    a latched server whose event did not deliver a RESET command (in one datagram
    or as the last chunk of a transfer) is latched afterwards, and then refuses
    every command that needs an enabled arm. *)
Lemma latch_holds_until_reset `{!Show} `{!ServerEnv} s now ev s' :
  server_reachable s -> server_turn now ev s = Some s' ->
  s_estop_latched s = true -> carried now ev s <> Some C_Reset ->
  s_estop_latched s' = true /\ forall t, needs_enabled (gate t) = true -> server_gate t s' <> None.
Proof.
  intros Hs%reachable_sound Ht Hl Hc.
  destruct (sound_turn _ _ _ _ _ Hs Ht) as (r & c' & Hm & Hs').
  pose proof (sound_frame _ _ _ _ Hs') as <-.
  assert (s_estop_latched s' = true) as Hl'.
  { change (fr_latched (frame s') = true). unfold payload_moves in Hm. destruct (carried now ev s) as [cmd|].
    - destruct Hm as [|key _ _|_|Hr]; [exact Hl|exact Hl|done|]. by rewrite Hr in Hc.
    - by rewrite Hm. }
  split; [done|]. intros t. by apply latched_refuses.
Qed.

Definition estopped_evs : list (Z * ServerEvent) := busy_evs ++ [(5000, SE_Datagram (datagram 4 C_Estop) 9)].

Lemma latch_holds_until_reset_witness :
  exists s', server_turn 6000 (SE_Datagram (datagram 5 (delay_cmd 100)) 9) (after estopped_evs) = Some s' /\
    s_estop_latched s' = true.
Proof.
  destruct (server_turn 6000 (SE_Datagram (datagram 5 (delay_cmd 100)) 9) (after estopped_evs)) as [s'|] eqn:E.
  - exists s'. split; [done|]. refine (proj1 (latch_holds_until_reset _ _ _ _ _ E _ _)).
    + apply after_reachable. vm_compute. reflexivity.
    + vm_compute. reflexivity.
    + vm_compute. discriminate.
  - vm_compute in E. discriminate.
Defined.

(** C27: a failed command takes the rest of the queue with it, out loud.  When the
    executing command fails, what is sent is its own COMPLETE with the error
    attributed to it, then one cancelled COMPLETE for every command blended into it
    and every queued one, in queue order; the queue is left empty and the error
    stands. *)
Theorem failure_clears_queue o s ex e :
  s_executing s = Some ex -> co_index o = ex_index ex -> co_error o = Some e ->
  let s' := on_outcome o s in
  let dropped := ex_blended ex ++ map (fun p => (pd_index p, pd_addr p)) (s_pending s) in
  s_out s' = s_out s ++
    O_Reply (ex_addr ex) (R_Complete (ex_index ex) false (Some (we_attribute (ex_index ex) e)) None) ::
    pushes (fun i => Some (cancelled "a failed preceding command" i)) dropped /\
  s_pending s' = [] /\ s_executing s' = None /\ s_tool_stops s' = s_tool_stops s /\
  s_standing_error s' = Some (we_attribute (ex_index ex) e).
Proof.
  intros Hex Hi He. cbv zeta. unfold on_outcome. rewrite Hex, Hi, He, Z.eqb_refl. cbn [negb]. cbv zeta.
  unfold fail_command. cbv zeta. rewrite drop_pending_eq.
  destruct (queues_advance (ex_index ex) (put_executing None s)) as (Hq & Ho & _).
  assert (s_pending (advance_completed (ex_index ex) (put_executing None s)) = s_pending s) as Hp
    by exact (f_equal (fun q => fst (fst (fst q))) Hq).
  set (s1 := advance_completed _ _) in *. clearbody s1.
  match goal with |- context [complete_cancelled ?sc ?l ?x] =>
    destruct (complete_cancelled_spec sc l x) as (Hq' & He' & Ho'); destruct (complete_cancelled sc l x) as [s2 n] end.
  cbn [fst] in *. rewrite He', Ho'. unfold queues in Hq, Hq'. cbn in *. rewrite Ho, Hp.
  injection Hq' as -> _ -> ->. injection Hq as _ _ -> ->. split_and!; [|done..]. by rewrite <- app_assoc.
Qed.

Definition motor_fault : WireError := make_error WE_MotnCancelled UNATTRIBUTED [].

Lemma failure_clears_queue_witness :
  s_pending busy <> [] /\ s_pending (on_outcome (mkOutcome 1 (Some motor_fault) None) busy) = [].
Proof.
  split; [vm_compute; discriminate|].
  eapply (failure_clears_queue (mkOutcome 1 (Some motor_fault) None) busy); vm_compute; reflexivity.
Defined.

(** ** Retransmissions *)

(** C11: a retransmission is answered, not repeated.  Once a command was accepted
    with an index, then for as long as the server has accepted at most a window of
    commands since, whatever else happened in between, the same command (or any
    other with its key) gets the original index and changes nothing. *)
Theorem retry_keeps_its_index `{!Show} `{!ServerEnv} s s' key i req_id cmd addr :
  server_reachable s -> server_runs s s' ->
  dedup_get (s_dedup s) key = Some i -> s_next_index s' <= i + Z.of_nat (dd_cap (s_dedup s)) ->
  idempotency_key cmd = Some key ->
  on_queued req_id cmd addr s' = reply addr (R_Ok req_id (Some i)) s'.
Proof.
  intros Hr Hrun Hk Hle Hcmd. destruct (runs_keep _ _ _ _ Hr Hrun Hk Hle) as [Hk' _].
  unfold on_queued. by rewrite Hcmd, Hk'.
Qed.

Lemma retry_keeps_its_index_witness :
  on_queued 8 (delay_cmd 100) 9 busy = reply 9 (R_Ok 8 (Some 1)) busy /\ executing_indices busy = [1].
Proof.
  split; [|vm_compute; reflexivity].
  apply (retry_keeps_its_index busy busy 100);
    [exact busy_reachable|constructor|vm_compute; reflexivity|vm_compute; discriminate|reflexivity].
Defined.

(** An accepted command takes the next index and is the newest in the window:
    the acknowledgement it gets names that index, and so will every retransmission
    within the window. *)
Lemma admission_is_remembered `{!Show} `{!ServerEnv} s key req_id cmd addr :
  server_reachable s ->
  idempotency_key cmd = Some key -> dedup_get (s_dedup s) key = None -> queue_refusal cmd s = None ->
  let s' := on_queued req_id cmd addr s in
  s_next_index s' = s_next_index s + 1 /\ dedup_get (s_dedup s') key = Some (s_next_index s) /\
  In (s_next_index s) (live s' ++ completions s').
Proof.
  intros Hr Hkey Hd Hq. cbv zeta. pose proof (reachable_window _ Hr) as Hw.
  pose proof (reachable_sound _ Hr) as Hs. pose proof (lo_next _ _ _ _ Hs) as Hnext.
  pose proof (sound_admitted req_id cmd addr key _ _ _ s Hkey Hd Hq Hs) as Ha.
  set (s' := on_queued req_id cmd addr s) in *. clearbody s'.
  pose proof (sound_frame _ _ _ _ Ha) as Hf.
  assert (s_next_index s' = s_next_index s + 1) as Hn by exact (f_equal fr_next Hf).
  assert (s_dedup s' = dedup_insert key (s_next_index s) (s_dedup s)) as Hdd by exact (f_equal fr_dedup Hf).
  rewrite <- Hf in Ha. split_and!; [done| |].
  - rewrite Hdd. by apply insert_known.
  - pose proof (sound_part _ Ha (s_next_index s)) as Hp. apply occ_in. rewrite occ_app in *.
    rewrite Hn in Hp. cbn in Hnext. destruct (Z.leb_spec 1 (s_next_index s)), (Z.ltb_spec (s_next_index s) (s_next_index s + 1));
      cbn in Hp; lia.
Qed.

Lemma admission_is_remembered_witness :
  idempotency_key (stop_cmd 7) = Some 7 /\ dedup_get (s_dedup (on_queued 8 (stop_cmd 7) 9 busy)) 7 = Some 4.
Proof.
  split; [reflexivity|].
  exact (proj1 (proj2 (admission_is_remembered busy 7 8 (stop_cmd 7) 9 busy_reachable eq_refl
           ltac:(vm_compute; reflexivity) ltac:(vm_compute; reflexivity)))).
Defined.

(** A delay queued, then tool stops, then the delay retransmitted. *)
Definition forgetful_evs : list (Z * ServerEvent) :=
  (1000, SE_Datagram (datagram 1 (delay_cmd 100)) 9) ::
  map (fun k => (2000 + k, SE_Datagram (datagram (1 + k) (stop_cmd k)) 9)) [1; 2; 3; 4] ++
  [(3000, SE_Datagram (datagram 1 (delay_cmd 100)) 9)].


(** ** Preemption *)

(** The datagrams a drain reads: those the socket had, up to the limit. *)
Fixpoint backlog `{!ServerEnv} (fuel : nat) (out : list Out) : list (bytes * Addr) :=
  match fuel with
  | O => []
  | S fuel =>
      match env_try_recv out with
      | Some d => d :: backlog fuel (out ++ [O_TryRecv])
      | None => []
      end
  end.

(** A datagram of the given stream command. *)
Definition is_setpoint_of (t : CmdType) (d : bytes * Addr) : bool :=
  match peek_tag (fst d) with Ok v => bool_decide (from_wire v = Some t) | Err _ => false end.

(** A preemption discards the superseded stream's setpoints and nothing else.
    Of the datagrams waiting on the socket, at most [DRAIN_LIMIT] of them, those of
    any other command, other stream or e-stop alike, are kept in arrival order
    behind what was already kept, and the queues are untouched. *)
Lemma preemption_keeps_other_traffic `{!ServerEnv} superseded s :
  let s' := drain_stream_backlog superseded s in
  s_deferred s' = s_deferred s ++
    List.filter (fun d => negb (is_setpoint_of superseded d)) (backlog DRAIN_LIMIT (s_out s)) /\
  queues s' = queues s /\ (length (s_deferred s') <= length (s_deferred s) + DRAIN_LIMIT)%nat.
Proof.
  cbv zeta. unfold drain_stream_backlog. generalize DRAIN_LIMIT. intros fuel. revert s.
  induction fuel as [|fuel IH]; intros s; cbn [drain_go backlog]; cbv zeta.
  { cbn. rewrite app_nil_r. split_and!; [done..|lia]. }
  change (s_out (emit O_TryRecv s)) with (s_out s ++ [O_TryRecv]).
  destruct (env_try_recv (s_out s)) as [[data from]|]; [|cbn; rewrite app_nil_r; split_and!; [done..|lia]].
  cbn [List.filter]. unfold is_setpoint_of at 1. cbn [fst].
  destruct (match peek_tag data with Ok t => _ | Err _ => _ end); cbn [negb].
  - destruct (IH (emit O_TryRecv s)) as (H1 & H2 & H3). rewrite H1, H2. cbn in *.
    split_and!; [done..|]. rewrite <- H1. lia.
  - destruct (IH (put_deferred (s_deferred (emit O_TryRecv s) ++ [(data, from)]) (emit O_TryRecv s))) as (H1 & H2 & H3).
    rewrite H1, H2. cbn in *. rewrite H1 in H3. rewrite <- app_assoc in *. cbn in *.
    split_and!; [done..|]. rewrite !length_app in *. cbn in *. lia.
Qed.
