(* ===== verification/RobotSchema.v ===== *)
(** * RobotSchema: the data of a robot file (crates/par6-config/src/robot.rs, io.rs)

    Every section of the file as a record with the field names behind a prefix, the
    values of the sections a file may leave out, and what the program asks of a
    configuration: the limits of a mode, the pose of the retreat, seconds in ticks. *)
From Stdlib Require Import SpecFloat.
From S2P Require Import Prelude F64 Command Convert HomingConfig.

Local Open Scope string_scope.
Local Open Scope Z_scope.

(** ** Drives and joints *)

Inductive DriverType := DT_Stepfoc | DT_SpectralBldc.
Inductive KtSource := KS_Auto | KS_Config.
Inductive WatchdogAction := WA_Idle.

Record RippleHarmonic := mkRippleHarmonic { rp_harmonic : Z; rp_a_ma : Z; rp_b_ma : Z }.

Definition MAX_RIPPLE_HARMONICS : nat := 8.

Record Gains := mkGains {
  gn_kpp : real; gn_kpv : real; gn_kiv : real; gn_kpiq : real; gn_kiiq : real; gn_kp : real; gn_kd : real;
}.

Record ModeLimits := mkModeLimits {
  ml_velocity_rad_s : real;
  ml_acceleration_rad_s2 : real;
  ml_jerk_rad_s3 : option real;
  ml_torque_rate_nm_s : option real;
}.

Inductive LimitMode := LM_Exec | LM_Jog | LM_Stream.

Record ResolvedLimits := mkResolvedLimits {
  rl_velocity_rad_s : real;
  rl_acceleration_rad_s2 : real;
  rl_jerk_rad_s3 : option real;
  rl_torque_rate_nm_s : option real;
}.

Record JointLimits := mkJointLimits {
  jl_continuous : bool;
  jl_hard_min_rad : real;
  jl_hard_max_rad : real;
  jl_soft_min_rad : real;
  jl_soft_max_rad : real;
  jl_velocity_rad_s : real;
  jl_acceleration_rad_s2 : real;
  jl_jerk_rad_s3 : real;
  jl_torque_rate_nm_s : real;
  jl_exec : option ModeLimits;
  jl_jog : option ModeLimits;
  jl_stream : option ModeLimits;
}.

(** [JointLimits::endstops]. *)
Definition endstops (l : JointLimits) : option (real * real) :=
  if jl_continuous l then None else Some (jl_hard_min_rad l, jl_hard_max_rad l).

(** [JointLimits::travel_rad]. *)
Definition travel_rad (l : JointLimits) : real * real := default (jl_soft_min_rad l, jl_soft_max_rad l) (endstops l).

Definition mode_block (mode : LimitMode) (l : JointLimits) : option ModeLimits :=
  match mode with LM_Exec => jl_exec l | LM_Jog => jl_jog l | LM_Stream => jl_stream l end.

(** [JointLimits::for_mode]. *)
Definition for_mode (mode : LimitMode) (l : JointLimits) : ResolvedLimits :=
  match mode_block mode l with
  | Some m =>
      mkResolvedLimits (ml_velocity_rad_s m) (ml_acceleration_rad_s2 m)
        (Some (default (jl_jerk_rad_s3 l) (ml_jerk_rad_s3 m)))
        (Some (default (jl_torque_rate_nm_s l) (ml_torque_rate_nm_s m)))
  | None =>
      mkResolvedLimits (jl_velocity_rad_s l) (jl_acceleration_rad_s2 l) (Some (jl_jerk_rad_s3 l)) (Some (jl_torque_rate_nm_s l))
  end.

Record JointConfig := mkJointConfig {
  jc_name : string;
  jc_node_id : Z;
  jc_driver_type : DriverType;
  jc_kt_nm_a : real;
  jc_ilim_ma : real;
  jc_voltage_limit_mv : Z;
  jc_phase_resistance_ohm : option real;
  jc_phase_inductance_mh : option real;
  jc_velocity_limit_ticks_s : real;
  jc_watchdog_timeout_ms : Z;
  jc_encoder_bits : Z;
  jc_gear_ratio : real;
  jc_dynamics_gear_ratio : option real;
  jc_gear_efficiency : real;
  jc_dir : Z;
  jc_sector_master_position_ticks : Z;
  jc_sector_home_offset_rad : real;
  jc_gains : Gains;
  jc_ripple : list RippleHarmonic;
  jc_velocity_window : option Z;
  jc_limits : JointLimits;
}.

(** What homing reads of a joint. *)
Definition homing_joint (j : JointConfig) : HomingConfig.JointConfig :=
  HomingConfig.mkJointConfig (jc_node_id j) (jc_encoder_bits j) (jc_gear_ratio j) (jl_hard_min_rad (jc_limits j))
    (jl_hard_max_rad (jc_limits j)) (jc_velocity_limit_ticks_s j) (jc_ilim_ma j).

(** ** The sections *)

Record RobotSection := mkRobotSection {
  rs_name : string;
  rs_tick_dt_s : real;
  rs_gravity_m_s2 : real;
  rs_park_pose_rad : list real;
  rs_active_tool : string;
  rs_kt_source : KtSource;
}.

Record KtFetchConfig := mkKtFetch { kf_timeout_s : real; kf_retries : Z; kf_rounds : Z }.
Record ScanConfig := mkScan { sc_rounds : Z; sc_wait_s : real }.

Record BusConfig := mkBusConfig {
  bc_interface : string;
  bc_bitrate : Z;
  bc_restart_ms : Z;
  bc_txqueuelen : Z;
  bc_sndbuf_bytes : Z;
  bc_gripper_node : Z;
  bc_timing_dummy_node : Z;
  bc_host_node : Z;
  bc_stale_warn_s : real;
  bc_lost_s : real;
  bc_rx_frames_per_tick_cap : Z;
  bc_boot_config_repeats : Z;
  bc_config_resend_offsets_s : list real;
  bc_open_retry_s : real;
  bc_config_pace_s : real;
  bc_watchdog_action : WatchdogAction;
  bc_kt_fetch : KtFetchConfig;
  bc_scan : ScanConfig;
}.

Record ProtocolConfig := mkProtocolConfig {
  pc_command_port : Z;
  pc_status_port : Z;
  pc_status_multicast_group : string;
  pc_status_rate_hz : Z;
}.

Inductive JogProfile := JP_Trapezoid | JP_Scurve.
Inductive ControlMode := CM_Pid | CM_Pd.

Record JogDefaults := mkJogDefaults {
  jd_speed_pct : real;
  jd_accel_time_s : real;
  jd_profile : JogProfile;
  jd_jerk_factor : real;
  jd_control_mode : ControlMode;
}.

Definition jog_defaults : JogDefaults := mkJogDefaults (f64_to_SF 0x3FC999999999999A) (f64_to_SF 0x3FE199999999999A) JP_Scurve (f64_to_SF 0x4008000000000000) CM_Pid.

Record StreamDefaults := mkStreamDefaults {
  sd_command_timeout_s : real;
  sd_lowpass_cutoff_hz : real;
  sd_success_window_s : real;
  sd_fault_latch_s : real;
  sd_servo_grace_s : real;
}.

Definition stream_defaults : StreamDefaults := mkStreamDefaults (f64_to_SF 0x3FA47AE147AE147B) (f64_to_SF 0x0000000000000000) (f64_to_SF 0x3FD999999999999A) (f64_to_SF 0x3FE0000000000000) (f64_to_SF 0x3FD0000000000000).

Definition default_open_retry_s : real := f64_to_SF 0x4024000000000000.
Definition default_config_resend_offsets_s : list real := [f64_to_SF 0x3FC999999999999A; f64_to_SF 0x3FE3333333333333; f64_to_SF 0x3FF3333333333333].
Definition MAX_OPEN_RETRY_S : real := f64_to_SF 0x40AC200000000000.

Record SimConfig := mkSimConfig {
  sm_motor_jm_kg_m2 : list real;
  sm_viscous_nm_s : list real;
  sm_coulomb_nm : list real;
  sm_powered_support_nm : list real;
  sm_arm_lateral_stiffness_nm_rad : real;
  sm_arm_lateral_damping_nm_s : real;
  sm_transmission_stiffness_nm_rad : list real;
  sm_transmission_damping_ratio : real;
}.

Definition sim_default : SimConfig :=
  mkSimConfig
    [f64_to_SF 0x3EE56415534E5BAE; f64_to_SF 0x3EE56415534E5BAE; f64_to_SF 0x3ED7E85411D00C1C; f64_to_SF 0x3ED7E85411D00C1C; f64_to_SF 0x3ED7E85411D00C1C; f64_to_SF 0x3EB92A737110E454]
    [f64_to_SF 0x3FD28F5C28F5C28F; f64_to_SF 0x3FF0000000000000; f64_to_SF 0x3FD5C28F5C28F5C3; f64_to_SF 0x3FA810624DD2F1AA; f64_to_SF 0x3F978D4FDF3B645A; f64_to_SF 0x3F96872B020C49BA]
    [f64_to_SF 0x3FC5C28F5C28F5C3; f64_to_SF 0x3FEE666666666666; f64_to_SF 0x3FE47AE147AE147B; f64_to_SF 0x3FB0E5604189374C; f64_to_SF 0x3FA70A3D70A3D70A; f64_to_SF 0x3FB4395810624DD3]
    [f64_to_SF 0x3FF0000000000000; f64_to_SF 0x4020000000000000; f64_to_SF 0x4008000000000000; f64_to_SF 0x3FE0000000000000; f64_to_SF 0x3FE0000000000000; f64_to_SF 0x3FD3333333333333]
    (f64_to_SF 0x4073D00000000000) (f64_to_SF 0x3FFD99999999999A)
    [f64_to_SF 0x406CC00000000000; f64_to_SF 0x40AF400000000000; f64_to_SF 0x4094500000000000; f64_to_SF 0x4051800000000000; f64_to_SF 0x4049000000000000; f64_to_SF 0x4062C00000000000]
    (f64_to_SF 0x3FE0000000000000).

Record TimingConfig := mkTimingConfig {
  tm_degraded_factor : real;
  tm_critical_factor : real;
  tm_critical_sustain_s : real;
  tm_cpu : Z;
  tm_fifo_priority : Z;
}.

Definition timing_default : TimingConfig := mkTimingConfig (f64_to_SF 0x3FF0CCCCCCCCCCCD) (f64_to_SF 0x3FF199999999999A) (f64_to_SF 0x3FF0000000000000) 3 99.

(** [TimingConfig::SIM]. *)
Definition timing_sim : TimingConfig := mkTimingConfig (f64_to_SF 0x3FF8000000000000) (f64_to_SF 0x4010000000000000) (f64_to_SF 0x4014000000000000) 3 99.

Record MotionConfig := mkMotionConfig {
  mo_jog_l_linear_max_m_s : real;
  mo_planned_linear_max_m_s : real;
  mo_jog_l_angular_max_rad_s : real;
  mo_cart_linear_accel_max_m_s2 : real;
  mo_cart_angular_accel_max_rad_s2 : real;
  mo_cart_linear_jerk_max_m_s3 : real;
  mo_cart_angular_jerk_max_rad_s3 : real;
  mo_cart_step_m : real;
  mo_cart_step_rad : real;
  mo_path_step_m : real;
  mo_joint_step_rad : option real;
  mo_move_l_max_joint_step_rad : real;
  mo_dls_lambda : real;
  mo_settle_tolerance_rad : real;
  mo_settle_timeout_s : real;
  mo_execution_override_transition_s : real;
  mo_path_rot_weight_m_per_rad : real;
  mo_singularity_cond_max : real;
  mo_singularity_sigma_min : real;
}.

(** [MotionConfig::KEYS]. *)
Definition motion_keys : list string :=
  ["jog_l_linear_max_m_s"; "planned_linear_max_m_s"; "jog_l_angular_max_rad_s"; "cart_linear_accel_max_m_s2";
   "cart_angular_accel_max_rad_s2"; "cart_linear_jerk_max_m_s3"; "cart_angular_jerk_max_rad_s3"; "cart_step_m";
   "cart_step_rad"; "path_step_m"; "joint_step_rad"; "move_l_max_joint_step_rad"; "dls_lambda"; "settle_tolerance_rad";
   "settle_timeout_s"; "execution_override_transition_s"; "path_rot_weight_m_per_rad"; "singularity_cond_max";
   "singularity_sigma_min"].

(** The values in that order, an omitted [joint_step_rad] being [unset]. *)
Definition motion_values (unset : real) (m : MotionConfig) : list real :=
  [mo_jog_l_linear_max_m_s m; mo_planned_linear_max_m_s m; mo_jog_l_angular_max_rad_s m; mo_cart_linear_accel_max_m_s2 m;
   mo_cart_angular_accel_max_rad_s2 m; mo_cart_linear_jerk_max_m_s3 m; mo_cart_angular_jerk_max_rad_s3 m; mo_cart_step_m m;
   mo_cart_step_rad m; mo_path_step_m m; default unset (mo_joint_step_rad m); mo_move_l_max_joint_step_rad m; mo_dls_lambda m;
   mo_settle_tolerance_rad m; mo_settle_timeout_s m; mo_execution_override_transition_s m; mo_path_rot_weight_m_per_rad m;
   mo_singularity_cond_max m; mo_singularity_sigma_min m].

(** [MotionConfig::as_array]. *)
Definition motion_as_array (m : MotionConfig) : list real := motion_values S754_nan m.

Definition motion_default : MotionConfig :=
  mkMotionConfig (f64_to_SF 0x3FB47AE147AE147B) (f64_to_SF 0x3FC999999999999A) (f64_to_SF 0x3FE3333333333333) (f64_to_SF 0x3FCC28F5C28F5C29) (f64_to_SF 0x3FFA666666666666) (f64_to_SF 0x400199999999999A) (f64_to_SF 0x4030800000000000) (f64_to_SF 0x3F847AE147AE147B) (f64_to_SF 0x3FA1DF46A1FAE711) (f64_to_SF 0x3F60624DD2F1A9FC) None (f64_to_SF 0x3FD6666666666666)
    (f64_to_SF 0x3FA999999999999A) (f64_to_SF 0x3F847AE147AE147B) (f64_to_SF 0x4000000000000000) (f64_to_SF 0x3FF0000000000000) (f64_to_SF 0x3FC3333333333333) (f64_to_SF 0x408F400000000000) (f64_to_SF 0x3F1A36E2EB1C432D).

Record LimitsSection := mkLimitsSection { ls_tau_ext_margin_nm : real; ls_tau_ext_window_s : real }.

Definition limits_default : LimitsSection := mkLimitsSection (f64_to_SF 0x0000000000000000) (f64_to_SF 0x3FB999999999999A).

Record ShutdownConfig := mkShutdownConfig {
  sh_safe_park : bool;
  sh_tolerance_rad : real;
  sh_timeout_s : real;
  sh_velocity_limit_rad_s : real;
  sh_safe_park_q : option (list real);
  sh_endstop_joints : list Z;
}.

Definition shutdown_default : ShutdownConfig := mkShutdownConfig true (f64_to_SF 0x3F9EB851EB851EB8) (f64_to_SF 0x402E000000000000) (f64_to_SF 0x3FD0000000000000) None [].

(** ** Digital lines *)

Definition MAX_IO_LINES : nat := 63.
Definition RESERVED_OFFSETS : list (Z * string) := [(5, "ESTOP_1"); (6, "ESTOP_2")].

Record IoLine := mkIoLine { il_name : string; il_offset : Z }.
Record IoConfig := mkIoConfig { io_inputs : list IoLine; io_outputs : list IoLine }.

Definition status_slots (c : IoConfig) : nat := length (io_inputs c) + length (io_outputs c) + 1.

Definition io_default : IoConfig :=
  mkIoConfig
    [mkIoLine "isolated_in_1" 19; mkIoLine "isolated_in_2" 13; mkIoLine "isolated_in_3" 7; mkIoLine "gpio_1" 4;
     mkIoLine "gpio_2" 27; mkIoLine "gpio_3" 18; mkIoLine "gpio_4" 17]
    [mkIoLine "isolated_out_1" 25; mkIoLine "isolated_out_2" 24; mkIoLine "isolated_out_3" 22].

(** ** The whole file *)

Record RobotConfig := mkRobotConfig {
  rc_gravity_correction : list real;
  rc_gravity_scale : list real;
  rc_robot : RobotSection;
  rc_joints : list JointConfig;
  rc_homing : HomingConfig;
  rc_bus : BusConfig;
  rc_protocol : ProtocolConfig;
  rc_io : IoConfig;
  rc_jog : JogDefaults;
  rc_stream : StreamDefaults;
  rc_timing : option TimingConfig;
  rc_limits : LimitsSection;
  rc_shutdown : ShutdownConfig;
  rc_motion : MotionConfig;
  rc_sim : SimConfig;
  rc_installation_shapes : list Shape;
}.

Definition default_gravity_scale : list real := replicate 6 (f64_to_SF 0x3FF0000000000000).

Definition tick_dt_s (c : RobotConfig) : real := rs_tick_dt_s (rc_robot c).

Definition tick_rate_hz (c : RobotConfig) : real := sf_div (sf_of_int 1) (tick_dt_s c).

(** One entry of [endstop_joints] put in place: the joint's homing endstop. *)
Definition park_on_endstop (homing : HomingConfig) (q : list real) (j : Z) : list real :=
  match hc_joints homing !! Z.to_nat j with
  | Some h => <[Z.to_nat j := jh_home_offset_rad h]> q
  | None => q
  end.

Definition safe_park_q (c : RobotConfig) : list real :=
  fold_left (park_on_endstop (rc_homing c)) (sh_endstop_joints (rc_shutdown c))
    (default (rs_park_pose_rad (rc_robot c)) (sh_safe_park_q (rc_shutdown c))).

Definition parks_on_endstop (c : RobotConfig) (joint : nat) : bool :=
  existsb (fun j => (Z.to_nat j =? joint)%nat) (sh_endstop_joints (rc_shutdown c)).

(** [(seconds / dt).round() as u32]. *)
Definition ticks (c : RobotConfig) (seconds : real) : Z := sf_round_as_uint 32 (sf_div seconds (tick_dt_s c)).

Definition loop_timing (c : RobotConfig) : TimingConfig := default timing_default (rc_timing c).
