(* ===== verification/RobotValidate.v ===== *)
(** * RobotValidate: the validation of a robot file
    (crates/par6-config/src/robot.rs, io.rs)

    Every check of [RobotConfig::validate] in the order of the source, with the field
    and the reason of its refusal; a refused check ends the rest.  How [{}] prints an
    f64 is the class [RealText]. *)
From Stdlib Require Import SpecFloat.
From stdpp Require Import pretty.
From S2P Require Import Prelude F64 Command Convert HomingConfig RobotSchema.

Local Open Scope string_scope.
Local Open Scope Z_scope.

Class RealText := { display : real -> string }.

Definition sf_one : real := sf_of_int 1.

Definition is_positive (v : real) : bool := sf_lt sf_zero v.

Definition sf_is_finite (v : real) : bool := match v with S754_nan | S754_infinity _ => false | _ => true end.

(** [v <= hi && v > 0.0]. *)
Definition in_ceiling (v hi : real) : bool := sf_lt sf_zero v && sf_le v hi.

(** [x.round()]. *)
Definition sf_round_float (x : real) : real := match sf_round x with Some n => sf_of_int n | None => x end.

(** ** Digital lines *)

(** [char::is_whitespace] over the bytes of a string: the rest after one, if the string
    starts with one. *)
Definition strip_space (s : string) : option string :=
  match s with
  | String a s1 =>
      let b := Z.of_N (Ascii.N_of_ascii a) in
      if (9 <=? b) && (b <=? 13) || (b =? 32) then Some s1
      else
        match s1 with
        | String a2 s2 =>
            let b2 := Z.of_N (Ascii.N_of_ascii a2) in
            if (b =? 0xC2) && ((b2 =? 0x85) || (b2 =? 0xA0)) then Some s2
            else
              match s2 with
              | String a3 s3 =>
                  let b3 := Z.of_N (Ascii.N_of_ascii a3) in
                  if (b =? 0xE1) && (b2 =? 0x9A) && (b3 =? 0x80) then Some s3
                  else if (b =? 0xE2) && (b2 =? 0x80) &&
                    ((0x80 <=? b3) && (b3 <=? 0x8A) || (b3 =? 0xA8) || (b3 =? 0xA9) || (b3 =? 0xAF)) then Some s3
                  else if (b =? 0xE2) && (b2 =? 0x81) && (b3 =? 0x9F) then Some s3
                  else if (b =? 0xE3) && (b2 =? 0x80) && (b3 =? 0x80) then Some s3
                  else None
              | EmptyString => None
              end
        | EmptyString => None
        end
  | EmptyString => None
  end.

(** [s.trim().is_empty()]; each step takes a byte at least. *)
Fixpoint blank_within (fuel : nat) (s : string) : bool :=
  match s with
  | EmptyString => true
  | String _ _ =>
      match fuel, strip_space s with
      | S fuel, Some rest => blank_within fuel rest
      | _, _ => false
      end
  end.
Definition is_blank (s : string) : bool := blank_within (String.length s) s.

Definition collides (l o : IoLine) : bool := String.eqb (il_name o) (il_name l) || (il_offset o =? il_offset l).

(** One declared line, after the lines [seen] before it with the fields they are at. *)
Definition validate_line (seen : list (IoLine * string)) (field : string) (l : IoLine) : check :=
  first_refusal
    [refuse_if (is_blank (il_name l)) (field +:+ ".name") "must not be empty";
     match List.find (fun r : Z * string => fst r =? il_offset l) RESERVED_OFFSETS with
     | Some (_, what) =>
         Some (mkInvalid (field +:+ ".offset")
           ("BCM " +:+ pretty (il_offset l) +:+ " is " +:+ what +:+ ", which the safety chain owns"))
     | None => None
     end;
     match List.find (fun s : IoLine * string => collides l (fst s)) seen with
     | Some (_, other) =>
         Some (mkInvalid field ("`" +:+ il_name l +:+ "` (BCM " +:+ pretty (il_offset l) +:+ ") collides with " +:+ other))
     | None => None
     end].

Fixpoint validate_lines (seen lines : list (IoLine * string)) : check :=
  match lines with
  | [] => None
  | (l, field) :: lines =>
      match validate_line seen field l with
      | Some e => Some e
      | None => validate_lines (seen ++ [(l, field)]) lines
      end
  end.

Definition located (group : string) (lines : list IoLine) : list (IoLine * string) :=
  imap (fun i l => (l, at_index ("io." +:+ group) i)) lines.

(** [IoConfig::validate]. *)
Definition validate_io (c : IoConfig) : check :=
  let total := (length (io_inputs c) + length (io_outputs c))%nat in
  first_refusal
    [refuse_if (MAX_IO_LINES <? total)%nat "io"
       ("at most " +:+ pretty MAX_IO_LINES +:+ " lines may be declared, got " +:+ pretty total);
     validate_lines [] (located "inputs" (io_inputs c) ++ located "outputs" (io_outputs c))].

Section Validate.
Context `{RealText}.
Variable c : RobotConfig.

(** ** Joints *)

Definition validate_mode_limits (f : string -> string) (l : JointLimits) (name : string) (block : option ModeLimits) : check :=
  match block with
  | None => None
  | Some m =>
      let mf field := f ("limits." +:+ name +:+ "." +:+ field) in
      let beyond hi := "must be in (0, " +:+ display hi +:+ "] (the hardware ceiling)" in
      first_refusal
        [refuse_if (negb (in_ceiling (ml_velocity_rad_s m) (jl_velocity_rad_s l))) (mf "velocity_rad_s") (beyond (jl_velocity_rad_s l));
         refuse_if (negb (in_ceiling (ml_acceleration_rad_s2 m) (jl_acceleration_rad_s2 l))) (mf "acceleration_rad_s2")
           (beyond (jl_acceleration_rad_s2 l));
         match ml_jerk_rad_s3 m with
         | Some v => refuse_if (negb (in_ceiling v (jl_jerk_rad_s3 l))) (mf "jerk_rad_s3") (beyond (jl_jerk_rad_s3 l))
         | None => None
         end;
         match ml_torque_rate_nm_s m with
         | Some v => refuse_if (negb (in_ceiling v (jl_torque_rate_nm_s l))) (mf "torque_rate_nm_s") (beyond (jl_torque_rate_nm_s l))
         | None => None
         end]
  end.

Definition validate_limits_of (f : string -> string) (l : JointLimits) : check :=
  first_refusal
    ([refuse_if (sf_le (jl_hard_max_rad l) (jl_hard_min_rad l)) (f "limits.hard_min_rad") "hard_min must be < hard_max";
      refuse_if (sf_le (jl_soft_max_rad l) (jl_soft_min_rad l)) (f "limits.soft_min_rad") "soft_min must be < soft_max"] ++
     map (fun vn : real * string => refuse_if (negb (is_positive (fst vn))) (f (snd vn)) "must be > 0")
       [(jl_velocity_rad_s l, "limits.velocity_rad_s"); (jl_acceleration_rad_s2 l, "limits.acceleration_rad_s2");
        (jl_jerk_rad_s3 l, "limits.jerk_rad_s3"); (jl_torque_rate_nm_s l, "limits.torque_rate_nm_s")] ++
     map (fun bn : option ModeLimits * string => validate_mode_limits f l (snd bn) (fst bn))
       [(jl_exec l, "exec"); (jl_jog l, "jog"); (jl_stream l, "stream")]).

Definition validate_phase (f : string -> string) (name : string) (v : option real) : check :=
  match v with
  | Some v => refuse_if (negb (sf_is_finite v && sf_lt sf_zero v)) (f name) "must be finite and > 0"
  | None => None
  end.

Definition amplitude_beyond (ma : Z) (ilim : real) : bool := sf_lt ilim (sf_abs (sf_of_int ma)).

Definition validate_ripple (f : string -> string) (ilim : real) (r : RippleHarmonic) : check :=
  first_refusal
    [refuse_if (rp_harmonic r =? 0) (f "ripple") "harmonic must be 1 or more";
     refuse_if (amplitude_beyond (rp_a_ma r) ilim || amplitude_beyond (rp_b_ma r) ilim) (f "ripple") "amplitude beyond ilim_ma"].

Definition is_some {A} (o : option A) : bool := match o with Some _ => true | None => false end.

(** [validate_joint], with the joints before this one. *)
Definition validate_joint (reserved : list (Z * string)) (before : list JointConfig) (i : nat) (j : JointConfig) : check :=
  let f name := at_index "joints" i +:+ "." +:+ name in
  first_refusal
    ([refuse_if (16 <=? jc_node_id j) (f "node_id") "11-bit CAN ids carry 4-bit node ids (0-15)"] ++
     map (fun r : Z * string => refuse_if (jc_node_id j =? fst r) (f "node_id") ("collides with " +:+ snd r)) reserved ++
     [refuse_if (existsb (fun o => jc_node_id o =? jc_node_id j) before) (f "node_id") "duplicate node id";
      refuse_if (existsb (fun o => String.eqb (jc_name o) (jc_name j)) before) (f "name") "duplicate joint name";
      refuse_if (negb ((1 <=? jc_encoder_bits j) && (jc_encoder_bits j <=? 24))) (f "encoder_bits") "must be in 1..=24";
      refuse_if (le_zero (jc_gear_ratio j)) (f "gear_ratio") "must be > 0";
      refuse_if (negb (in_ceiling (jc_gear_efficiency j) sf_one)) (f "gear_efficiency") "must be in (0, 1]";
      refuse_if (1 <? jc_dir j) (f "dir") "must be 0 or 1";
      validate_phase f "phase_resistance_ohm" (jc_phase_resistance_ohm j);
      validate_phase f "phase_inductance_mh" (jc_phase_inductance_mh j);
      refuse_if (xorb (is_some (jc_phase_resistance_ohm j)) (is_some (jc_phase_inductance_mh j))) (f "phase_resistance_ohm")
        "resistance and inductance are a pair: give both or neither";
      refuse_if (le_zero (jc_kt_nm_a j)) (f "kt_nm_a") "must be > 0";
      refuse_if (le_zero (jc_ilim_ma j)) (f "ilim_ma") "must be > 0";
      refuse_if (le_zero (jc_velocity_limit_ticks_s j)) (f "velocity_limit_ticks_s") "must be > 0";
      match jc_velocity_window j with
      | Some w => refuse_if (negb ((4 <=? w) && (w <=? 64))) (f "velocity_window") "must be 4..=64"
      | None => None
      end;
      refuse_if (MAX_RIPPLE_HARMONICS <? length (jc_ripple j))%nat (f "ripple") "at most 8 harmonics"] ++
     map (validate_ripple f (jc_ilim_ma j)) (jc_ripple j) ++
     [refuse_if (jc_watchdog_timeout_ms j =? 0) (f "watchdog_timeout_ms") "must be > 0";
      validate_limits_of f (jc_limits j)]).

Definition reserved_nodes : list (Z * string) :=
  [(bc_gripper_node (rc_bus c), "bus.gripper_node"); (bc_timing_dummy_node (rc_bus c), "bus.timing_dummy_node");
   (bc_host_node (rc_bus c), "bus.host_node")].

Fixpoint validate_joints (before joints : list JointConfig) : check :=
  match joints with
  | [] => None
  | j :: joints =>
      match validate_joint reserved_nodes before (length before) j with
      | Some e => Some e
      | None => validate_joints (before ++ [j]) joints
      end
  end.

(** ** The sections *)

Definition window_vanishes (dt v : real) : bool := sf_lt (sf_round_float (sf_div v dt)) sf_one.

Definition validate_bus : check :=
  let b := rc_bus c in let dt := tick_dt_s c in
  first_refusal
    ([refuse_if (bc_bitrate b =? 0) "bus.bitrate" "must be > 0"] ++
     map (fun r : Z * string => refuse_if (16 <=? fst r) (snd r) "11-bit CAN ids carry 4-bit node ids (0-15)") reserved_nodes ++
     [refuse_if (negb (is_positive (bc_stale_warn_s b))) "bus.stale_warn_s" "must be > 0";
      refuse_if (sf_le (bc_lost_s b) (bc_stale_warn_s b)) "bus.lost_s" "must be greater than bus.stale_warn_s"] ++
     map (fun vn : real * string => refuse_if (window_vanishes dt (fst vn)) (snd vn)
            ("rounds to zero ticks at robot.tick_dt_s = " +:+ display dt +:+ " s (" +:+ display (fst vn) +:+
             " s is under half a tick); the freshness window would vanish"))
       [(bc_stale_warn_s b, "bus.stale_warn_s"); (bc_lost_s b, "bus.lost_s")] ++
     [refuse_if (bc_rx_frames_per_tick_cap b =? 0) "bus.rx_frames_per_tick_cap" "must be >= 1";
      refuse_if (bc_boot_config_repeats b =? 0) "bus.boot_config_repeats" "must be >= 1";
      refuse_if (negb (forallb (fun s => is_positive s && sf_is_finite s) (bc_config_resend_offsets_s b)))
        "bus.config_resend_offsets_s" "every offset must be > 0 and finite";
      refuse_if (negb (sf_is_finite (bc_open_retry_s b) && (sf_le sf_zero (bc_open_retry_s b) && sf_le (bc_open_retry_s b) MAX_OPEN_RETRY_S)))
        "bus.open_retry_s" "must be finite and within 0..=3600";
      refuse_if (sf_lt (bc_config_pace_s b) sf_zero) "bus.config_pace_s" "must be >= 0"]).

(** A number of [Ipv4Addr::from_str]: up to three digits, no leading zero, a byte. *)
Fixpoint read_digits (fuel : nat) (s : string) (acc : Z) (count : nat) : Z * nat * string :=
  match fuel, s with
  | S fuel, String a rest =>
      let d := Z.of_N (Ascii.N_of_ascii a) - 48 in
      if (0 <=? d) && (d <=? 9) then read_digits fuel rest (acc * 10 + d) (S count) else (acc, count, s)
  | _, _ => (acc, count, s)
  end.

Definition starts_with (b : Z) (s : string) : bool :=
  match s with String a _ => Z.of_N (Ascii.N_of_ascii a) =? b | EmptyString => false end.

Definition read_octet (s : string) : option (Z * string) :=
  let '(v, count, rest) := read_digits 4 s 0 0 in
  if (count =? 0)%nat || (3 <? count)%nat then None
  else if starts_with 48 s && (1 <? count)%nat then None
  else if 255 <? v then None
  else Some (v, rest).

Definition read_dot (s : string) : option string :=
  match s with String a rest => if Z.of_N (Ascii.N_of_ascii a) =? 46 then Some rest else None | EmptyString => None end.

(** [str::parse::<Ipv4Addr>]. *)
Definition parse_ipv4 (s : string) : option (Z * Z * Z * Z) :=
  '(a, s) ← read_octet s; s ← read_dot s; '(b, s) ← read_octet s; s ← read_dot s;
  '(d, s) ← read_octet s; s ← read_dot s; '(e, s) ← read_octet s;
  if String.eqb s "" then Some (a, b, d, e) else None.

Definition is_multicast (a : Z * Z * Z * Z) : bool := let '(a, _, _, _) := a in (224 <=? a) && (a <=? 239).

Definition stride_broken (per : real) : bool :=
  sf_lt per sf_one || sf_lt (f64_to_SF 0x3E112E0BE826D695) (sf_abs (sf_sub per (sf_round_float per))).

Definition validate_protocol : check :=
  let p := rc_protocol c in
  first_refusal
    [refuse_if (pc_command_port p =? 0) "protocol.command_port" "must be nonzero";
     refuse_if (pc_status_port p =? 0) "protocol.status_port" "must be nonzero";
     refuse_if (pc_command_port p =? pc_status_port p) "protocol.status_port" "duplicate port";
     match parse_ipv4 (pc_status_multicast_group p) with
     | None => Some (mkInvalid "protocol.status_multicast_group" "not a valid IPv4 address")
     | Some group =>
         refuse_if (negb (is_multicast group)) "protocol.status_multicast_group" "must be an IPv4 multicast address (224.0.0.0/4)"
     end;
     refuse_if (pc_status_rate_hz p =? 0) "protocol.status_rate_hz" "must be > 0";
     refuse_if (stride_broken (sf_div (tick_rate_hz c) (sf_of_int (pc_status_rate_hz p)))) "protocol.status_rate_hz"
       ("must divide the tick rate (" +:+ display (tick_rate_hz c) +:+ " Hz) exactly")].

Definition validate_defaults : check :=
  let j := rc_jog c in let s := rc_stream c in
  first_refusal
    ([refuse_if (negb (in_ceiling (jd_speed_pct j) sf_one)) "jog.speed_pct" "must be in (0, 1]";
      refuse_if (negb (is_positive (jd_accel_time_s j))) "jog.accel_time_s" "must be > 0";
      refuse_if (negb (is_positive (jd_jerk_factor j))) "jog.jerk_factor" "must be > 0"] ++
     map (fun vn : real * string => refuse_if (negb (is_positive (fst vn))) (snd vn) "must be > 0")
       [(sd_command_timeout_s s, "stream.command_timeout_s"); (sd_success_window_s s, "stream.success_window_s");
        (sd_fault_latch_s s, "stream.fault_latch_s"); (sd_servo_grace_s s, "stream.servo_grace_s")] ++
     [refuse_if (negb (sf_is_finite (sd_lowpass_cutoff_hz s)) || sf_lt (sd_lowpass_cutoff_hz s) sf_zero) "stream.lowpass_cutoff_hz"
        "must be finite and >= 0 (0 = off)"]).

Definition finite_nonneg (v : real) : bool := sf_is_finite v && sf_le sf_zero v.

Definition validate_table (name : string) (values : list real) : check :=
  first_refusal
    (refuse_if (negb (length values =? length (rc_joints c))%nat) name "must carry one entry per joint" ::
     imap (fun j v => refuse_if (negb (finite_nonneg v)) name ("entry " +:+ pretty j +:+ " must be finite and >= 0")) values).

Definition validate_sim : check :=
  let sim := rc_sim c in
  first_refusal
    (map (fun vn : list real * string => validate_table (snd vn) (fst vn))
       [(sm_motor_jm_kg_m2 sim, "sim.motor_jm_kg_m2"); (sm_powered_support_nm sim, "sim.powered_support_nm");
        (sm_viscous_nm_s sim, "sim.viscous_nm_s"); (sm_coulomb_nm sim, "sim.coulomb_nm");
        (sm_transmission_stiffness_nm_rad sim, "sim.transmission_stiffness_nm_rad")] ++
     map (fun vn : real * string => refuse_if (negb (finite_nonneg (fst vn))) (snd vn) "must be finite and >= 0")
       [(sm_arm_lateral_stiffness_nm_rad sim, "sim.arm_lateral_stiffness_nm_rad");
        (sm_arm_lateral_damping_nm_s sim, "sim.arm_lateral_damping_nm_s");
        (sm_transmission_damping_ratio sim, "sim.transmission_damping_ratio")] ++
     imap (fun i (kj : real * real) => refuse_if (sf_lt sf_zero (fst kj) && negb (is_positive (snd kj))) "sim.motor_jm_kg_m2"
             ("entry " +:+ pretty i +:+ ": must be > 0 on a joint with a drivetrain stiffness"))
       (zip (sm_transmission_stiffness_nm_rad sim) (sm_motor_jm_kg_m2 sim)) ++
     imap (fun i j => match jc_dynamics_gear_ratio j with
                      | Some g => refuse_if (negb (is_positive g)) "joints.dynamics_gear_ratio" ("joint " +:+ pretty i +:+ ": must be > 0")
                      | None => None
                      end) (rc_joints c)).

Definition validate_timing : check :=
  match rc_timing c with
  | None => None
  | Some t =>
      first_refusal
        (map (fun vn : real * string => refuse_if (negb (is_positive (sf_sub (fst vn) sf_one)) || negb (sf_is_finite (fst vn))) (snd vn)
                "must be > 1.0 (a multiple of the tick period)")
           [(tm_degraded_factor t, "timing.degraded_factor"); (tm_critical_factor t, "timing.critical_factor")] ++
         [refuse_if (sf_lt (tm_critical_factor t) (tm_degraded_factor t)) "timing.critical_factor" "must be >= timing.degraded_factor";
          refuse_if (negb (is_positive (tm_critical_sustain_s t)) || negb (sf_is_finite (tm_critical_sustain_s t)))
            "timing.critical_sustain_s" "must be > 0";
          refuse_if (99 <? tm_fifo_priority t) "timing.fifo_priority" "must be 0..=99 (0 disables SCHED_FIFO)"])
  end.

(** A joint of [endstop_joints].  The homing section has one entry per joint by now. *)
Definition validate_endstop_joint (j : Z) : check :=
  match hc_joints (rc_homing c) !! Z.to_nat j with
  | None =>
      Some (mkInvalid "shutdown.endstop_joints"
        ("joint " +:+ pretty j +:+ " does not exist (" +:+ pretty (length (rc_joints c)) +:+ " joints)"))
  | Some jh =>
      first_refusal
        [refuse_if (match rc_joints c !! Z.to_nat j with Some joint => jl_continuous (jc_limits joint) | None => false end)
           "shutdown.endstop_joints" ("joint " +:+ pretty j +:+ ": a continuous joint has no mechanical endstop to park on");
         refuse_if (jh_home_offset_gripper_dependent jh) "shutdown.endstop_joints"
           ("joint " +:+ pretty j +:+ ": its endstop depends on the fitted tool; only a fixed home_offset_rad can be a rest")]
  end.

(** The window a joint of the rest pose lies in. *)
Definition rest_window_of (i : nat) (l : JointLimits) : real * real * string :=
  if parks_on_endstop c i then (jl_hard_min_rad l, jl_hard_max_rad l, "hard") else (jl_soft_min_rad l, jl_soft_max_rad l, "soft").

Definition outside (v lo hi : real) : bool := negb (sf_is_finite v) || sf_lt v lo || sf_lt hi v.

Definition validate_rest (i : nat) (vj : real * JointConfig) : check :=
  let '(v, j) := vj in let '(lo, hi, band) := rest_window_of i (jc_limits j) in
  refuse_if (outside v lo hi) "shutdown.safe_park_q"
    ("joint " +:+ pretty i +:+ ": " +:+ display v +:+ " rad is outside the " +:+ band +:+ " limits [" +:+ display lo +:+ ", " +:+
     display hi +:+ "]").

Definition validate_shutdown : check :=
  let s := rc_shutdown c in let q := safe_park_q c in
  first_refusal
    (map (fun vn : real * string => refuse_if (negb (is_positive (fst vn))) (snd vn) "must be > 0")
       [(sh_tolerance_rad s, "shutdown.tolerance_rad"); (sh_timeout_s s, "shutdown.timeout_s");
        (sh_velocity_limit_rad_s s, "shutdown.velocity_limit_rad_s")] ++
     map validate_endstop_joint (sh_endstop_joints s) ++
     [refuse_if (negb (length q =? length (rc_joints c))%nat) "shutdown.safe_park_q"
        ("must have one entry per joint (" +:+ pretty (length (rc_joints c)) +:+ " joints, " +:+ pretty (length q) +:+ " entries)")] ++
     imap validate_rest (zip q (rc_joints c))).

Definition validate_motion : check :=
  first_refusal
    (map (fun vn : real * string => refuse_if (negb (is_positive (fst vn)) || negb (sf_is_finite (fst vn))) ("motion." +:+ snd vn)
            "must be > 0 and finite")
       (zip (motion_values (f64_to_SF 0x3F847AE147AE147B) (rc_motion c)) motion_keys)).

Definition validate_limits : check :=
  let l := rc_limits c in
  first_refusal
    [refuse_if (sf_lt (ls_tau_ext_margin_nm l) sf_zero || negb (sf_is_finite (ls_tau_ext_margin_nm l))) "limits.tau_ext_margin_nm"
       "must be >= 0 (0 disables the envelope)";
     refuse_if (negb (is_positive (ls_tau_ext_window_s l)) || negb (sf_is_finite (ls_tau_ext_window_s l))) "limits.tau_ext_window_s"
       "must be > 0"].

(** ** The whole file *)

Definition bad_correction (v : real) : bool := negb (sf_is_finite v) || sf_lt (sf_of_int 10) (sf_abs v).
Definition bad_scale (v : real) : bool := negb (sf_is_finite v) || sf_le v sf_zero || sf_lt (sf_of_int 2) v.

Definition stall_on_continuous (jh : JointConfig * JointHoming) : bool :=
  jl_continuous (jc_limits (fst jh)) && bool_decide (jh_strategy (snd jh) = Stall).

(** [RobotConfig::validate]. *)
Definition validate_robot : check :=
  let r := rc_robot c in let n := length (rc_joints c) in
  first_refusal
    ([refuse_if (negb (is_empty (rc_gravity_correction c)) && negb (length (rc_gravity_correction c) =? 24)%nat ||
                 existsb bad_correction (rc_gravity_correction c)) "gravity_correction"
        "requires 24 finite composite-link coefficients (or empty), magnitude at most 10";
      refuse_if (existsb bad_scale (rc_gravity_scale c)) "gravity_scale" "requires six finite gains in (0, 2]";
      refuse_if (negb (sf_lt sf_zero (rs_tick_dt_s r) && sf_lt (rs_tick_dt_s r) sf_one)) "robot.tick_dt_s" "must be in (0, 1) seconds";
      refuse_if (is_empty (rc_joints c)) "joints" "at least one joint is required";
      refuse_if (negb (length (rs_park_pose_rad r) =? n)%nat) "robot.park_pose_rad"
        ("must have one entry per joint (" +:+ pretty n +:+ " joints, " +:+ pretty (length (rs_park_pose_rad r)) +:+ " entries)");
      validate_joints [] (rc_joints c);
      validate_homing n (rc_homing c)] ++
     imap (fun i jh => refuse_if (stall_on_continuous jh) (at_index "joints" i +:+ ".limits.continuous")
             "stall homing requires a mechanical endstop") (zip (rc_joints c) (hc_joints (rc_homing c))) ++
     [validate_io (rc_io c); validate_bus; validate_protocol; validate_defaults; validate_timing; validate_limits; validate_motion;
      validate_shutdown; validate_sim]).

End Validate.
