(* ===== verification/RobotProps.v ===== *)
(** * RobotProps: what a valid robot file is, and what follows from it

    [robot_ok] states the contract of a configuration in one place, without the order
    of the checks; [validate_robot] accepts exactly the files that meet it.  From it:
    the limits a mode runs under, the pose the retreat drives to, the freshness
    windows, the lines. *)
From Stdlib Require Import SpecFloat.
From stdpp Require Import pretty.
From S2P Require Import Prelude F64 Command Convert HomingConfig RobotSchema RobotValidate.

(** ** The contract *)

Definition positive_number (v : real) : Prop := sf_lt sf_zero v = true.
Definition finite_number (v : real) : Prop := sf_is_finite v = true.
Definition at_most (v hi : real) : Prop := sf_le v hi = true.
(** Above zero, or not a number. *)
Definition not_below (v : real) : Prop := le_zero v = false.

Record mode_ok (l : JointLimits) (m : ModeLimits) : Prop := mkModeOk {
  mok_velocity : positive_number (ml_velocity_rad_s m) /\ at_most (ml_velocity_rad_s m) (jl_velocity_rad_s l);
  mok_acceleration : positive_number (ml_acceleration_rad_s2 m) /\ at_most (ml_acceleration_rad_s2 m) (jl_acceleration_rad_s2 l);
  mok_jerk : forall v, ml_jerk_rad_s3 m = Some v -> positive_number v /\ at_most v (jl_jerk_rad_s3 l);
  mok_torque_rate : forall v, ml_torque_rate_nm_s m = Some v -> positive_number v /\ at_most v (jl_torque_rate_nm_s l);
}.

Record limits_ok (l : JointLimits) : Prop := mkLimitsOk {
  lok_hard : sf_le (jl_hard_max_rad l) (jl_hard_min_rad l) = false;
  lok_soft : sf_le (jl_soft_max_rad l) (jl_soft_min_rad l) = false;
  lok_velocity : positive_number (jl_velocity_rad_s l);
  lok_acceleration : positive_number (jl_acceleration_rad_s2 l);
  lok_jerk : positive_number (jl_jerk_rad_s3 l);
  lok_torque_rate : positive_number (jl_torque_rate_nm_s l);
  lok_modes : forall mode m, mode_block mode l = Some m -> mode_ok l m;
}.

Record ripple_ok (ilim : real) (r : RippleHarmonic) : Prop := mkRippleOk {
  rok_harmonic : rp_harmonic r <> 0;
  rok_a : sf_lt ilim (sf_abs (sf_of_int (rp_a_ma r))) = false;
  rok_b : sf_lt ilim (sf_abs (sf_of_int (rp_b_ma r))) = false;
}.

(** Both constants of the motor, or neither. *)
Definition phase_ok (j : JointConfig) : Prop :=
  match jc_phase_resistance_ohm j, jc_phase_inductance_mh j with
  | None, None => True
  | Some r, Some l => (finite_number r /\ positive_number r) /\ finite_number l /\ positive_number l
  | _, _ => False
  end.

Record joint_ok (j : JointConfig) : Prop := mkJointOk {
  jok_node : jc_node_id j < 16;
  jok_bits : 1 <= jc_encoder_bits j <= 24;
  jok_gear : not_below (jc_gear_ratio j);
  jok_efficiency : positive_number (jc_gear_efficiency j) /\ at_most (jc_gear_efficiency j) sf_one;
  jok_dir : jc_dir j <= 1;
  jok_phase : phase_ok j;
  jok_kt : not_below (jc_kt_nm_a j);
  jok_ilim : not_below (jc_ilim_ma j);
  jok_speed : not_below (jc_velocity_limit_ticks_s j);
  jok_window : forall w, jc_velocity_window j = Some w -> 4 <= w <= 64;
  jok_ripple : (length (jc_ripple j) <= MAX_RIPPLE_HARMONICS)%nat /\ Forall (ripple_ok (jc_ilim_ma j)) (jc_ripple j);
  jok_watchdog : jc_watchdog_timeout_ms j <> 0;
  jok_limits : limits_ok (jc_limits j);
}.

(** Joints with distinct names, on distinct nodes none of which is spoken for. *)
Record joints_ok (reserved : list Z) (js : list JointConfig) : Prop := mkJointsOk {
  jsok_each : Forall joint_ok js;
  jsok_free : Forall (fun j => jc_node_id j ∉ reserved) js;
  jsok_nodes : NoDup (map jc_node_id js);
  jsok_names : NoDup (map jc_name js);
}.

Record bus_ok (c : RobotConfig) : Prop := mkBusOk {
  bok_bitrate : bc_bitrate (rc_bus c) <> 0;
  bok_nodes : Forall (fun n => n < 16) (map fst (reserved_nodes c));
  bok_stale : positive_number (bc_stale_warn_s (rc_bus c));
  bok_lost : sf_le (bc_lost_s (rc_bus c)) (bc_stale_warn_s (rc_bus c)) = false;
  bok_stale_window : window_vanishes (tick_dt_s c) (bc_stale_warn_s (rc_bus c)) = false;
  bok_lost_window : window_vanishes (tick_dt_s c) (bc_lost_s (rc_bus c)) = false;
  bok_rx : bc_rx_frames_per_tick_cap (rc_bus c) <> 0;
  bok_repeats : bc_boot_config_repeats (rc_bus c) <> 0;
  bok_offsets : Forall (fun s => positive_number s /\ finite_number s) (bc_config_resend_offsets_s (rc_bus c));
  bok_retry : finite_number (bc_open_retry_s (rc_bus c)) /\ at_most sf_zero (bc_open_retry_s (rc_bus c)) /\
    at_most (bc_open_retry_s (rc_bus c)) MAX_OPEN_RETRY_S;
  bok_pace : sf_lt (bc_config_pace_s (rc_bus c)) sf_zero = false;
}.

Record protocol_ok (c : RobotConfig) : Prop := mkProtocolOk {
  pok_ports : pc_command_port (rc_protocol c) <> 0 /\ pc_status_port (rc_protocol c) <> 0 /\
    pc_command_port (rc_protocol c) <> pc_status_port (rc_protocol c);
  pok_group : exists a, parse_ipv4 (pc_status_multicast_group (rc_protocol c)) = Some a /\ is_multicast a = true;
  pok_rate : pc_status_rate_hz (rc_protocol c) <> 0;
  pok_stride : stride_broken (sf_div (tick_rate_hz c) (sf_of_int (pc_status_rate_hz (rc_protocol c)))) = false;
}.

Record defaults_ok (c : RobotConfig) : Prop := mkDefaultsOk {
  dok_speed : positive_number (jd_speed_pct (rc_jog c)) /\ at_most (jd_speed_pct (rc_jog c)) sf_one;
  dok_accel : positive_number (jd_accel_time_s (rc_jog c));
  dok_jerk : positive_number (jd_jerk_factor (rc_jog c));
  dok_timeout : positive_number (sd_command_timeout_s (rc_stream c));
  dok_window : positive_number (sd_success_window_s (rc_stream c));
  dok_latch : positive_number (sd_fault_latch_s (rc_stream c));
  dok_grace : positive_number (sd_servo_grace_s (rc_stream c));
  dok_lowpass : finite_number (sd_lowpass_cutoff_hz (rc_stream c)) /\ sf_lt (sd_lowpass_cutoff_hz (rc_stream c)) sf_zero = false;
}.

Record timing_ok (t : TimingConfig) : Prop := mkTimingOk {
  tok_degraded : positive_number (sf_sub (tm_degraded_factor t) sf_one) /\ finite_number (tm_degraded_factor t);
  tok_critical : positive_number (sf_sub (tm_critical_factor t) sf_one) /\ finite_number (tm_critical_factor t);
  tok_order : sf_lt (tm_critical_factor t) (tm_degraded_factor t) = false;
  tok_sustain : positive_number (tm_critical_sustain_s t) /\ finite_number (tm_critical_sustain_s t);
  tok_priority : tm_fifo_priority t <= 99;
}.

Record envelope_ok (l : LimitsSection) : Prop := mkEnvelopeOk {
  eok_margin : sf_lt (ls_tau_ext_margin_nm l) sf_zero = false /\ finite_number (ls_tau_ext_margin_nm l);
  eok_window : positive_number (ls_tau_ext_window_s l) /\ finite_number (ls_tau_ext_window_s l);
}.

Definition in_window (v : real) (w : real * real) : Prop :=
  finite_number v /\ sf_lt v (fst w) = false /\ sf_lt (snd w) v = false.

(** A joint parked on its endstop has one, and it is the joint's own. *)
Definition endstop_ok (c : RobotConfig) (j : Z) : Prop :=
  exists jh, hc_joints (rc_homing c) !! Z.to_nat j = Some jh /\ jh_home_offset_gripper_dependent jh = false /\
    forall joint, rc_joints c !! Z.to_nat j = Some joint -> jl_continuous (jc_limits joint) = false.

Record shutdown_ok (c : RobotConfig) : Prop := mkShutdownOk {
  sok_tolerance : positive_number (sh_tolerance_rad (rc_shutdown c));
  sok_timeout : positive_number (sh_timeout_s (rc_shutdown c));
  sok_speed : positive_number (sh_velocity_limit_rad_s (rc_shutdown c));
  sok_endstops : Forall (endstop_ok c) (sh_endstop_joints (rc_shutdown c));
  sok_length : length (safe_park_q c) = length (rc_joints c);
  sok_inside : forall i v j, safe_park_q c !! i = Some v -> rc_joints c !! i = Some j ->
    in_window v (fst (rest_window_of c i (jc_limits j)));
}.

Definition nonneg_number (v : real) : Prop := finite_number v /\ at_most sf_zero v.

Record sim_ok (c : RobotConfig) : Prop := mkSimOk {
  mok_tables : Forall (fun t => length t = length (rc_joints c) /\ Forall nonneg_number t)
    [sm_motor_jm_kg_m2 (rc_sim c); sm_powered_support_nm (rc_sim c); sm_viscous_nm_s (rc_sim c); sm_coulomb_nm (rc_sim c);
     sm_transmission_stiffness_nm_rad (rc_sim c)];
  mok_scalars : Forall nonneg_number
    [sm_arm_lateral_stiffness_nm_rad (rc_sim c); sm_arm_lateral_damping_nm_s (rc_sim c); sm_transmission_damping_ratio (rc_sim c)];
  mok_rotors : forall i k jm, sm_transmission_stiffness_nm_rad (rc_sim c) !! i = Some k -> sm_motor_jm_kg_m2 (rc_sim c) !! i = Some jm ->
    positive_number k -> positive_number jm;
  mok_gears : Forall (fun j => forall g, jc_dynamics_gear_ratio j = Some g -> positive_number g) (rc_joints c);
}.

(** Named lines with distinct names on distinct pins, none of them the safety chain's. *)
Record io_ok (c : IoConfig) : Prop := mkIoOk {
  iok_count : (length (io_inputs c) + length (io_outputs c) <= MAX_IO_LINES)%nat;
  iok_named : Forall (fun l => is_blank (il_name l) = false) (io_inputs c ++ io_outputs c);
  iok_free : Forall (fun l => il_offset l ∉ map fst RESERVED_OFFSETS) (io_inputs c ++ io_outputs c);
  iok_names : NoDup (map il_name (io_inputs c ++ io_outputs c));
  iok_pins : NoDup (map il_offset (io_inputs c ++ io_outputs c));
}.

Record robot_ok (c : RobotConfig) : Prop := mkRobotOk {
  ok_correction : (rc_gravity_correction c = [] \/ length (rc_gravity_correction c) = 24%nat) /\
    Forall (fun v => finite_number v /\ sf_lt (sf_of_int 10) (sf_abs v) = false) (rc_gravity_correction c);
  ok_scale : Forall (fun v => finite_number v /\ not_below v /\ sf_lt (sf_of_int 2) v = false) (rc_gravity_scale c);
  ok_dt : positive_number (tick_dt_s c) /\ sf_lt (tick_dt_s c) sf_one = true;
  ok_some : rc_joints c <> [];
  ok_park : length (rs_park_pose_rad (rc_robot c)) = length (rc_joints c);
  ok_joints : joints_ok (map fst (reserved_nodes c)) (rc_joints c);
  ok_homing : homing_ok (length (rc_joints c)) (rc_homing c);
  ok_stall : forall i j jh, rc_joints c !! i = Some j -> hc_joints (rc_homing c) !! i = Some jh ->
    jl_continuous (jc_limits j) = true -> jh_strategy jh = Hall;
  ok_io : io_ok (rc_io c);
  ok_bus : bus_ok c;
  ok_protocol : protocol_ok c;
  ok_defaults : defaults_ok c;
  ok_timing : forall t, rc_timing c = Some t -> timing_ok t;
  ok_limits : envelope_ok (rc_limits c);
  ok_motion : Forall (fun v => positive_number v /\ finite_number v) (motion_values (f64_to_SF 0x3F847AE147AE147B) (rc_motion c));
  ok_shutdown : shutdown_ok c;
  ok_sim : sim_ok c;
}.

(** ** The checks establish the contract *)

Lemma negb_false b : negb b = false <-> b = true.
Proof. by destruct b. Qed.

Lemma ceiling_true v hi : in_ceiling v hi = true <-> positive_number v /\ at_most v hi.
Proof. apply andb_true_iff. Qed.

Lemma neqb_none n m : (n =? m) = false <-> n <> m.
Proof. apply Z.eqb_neq. Qed.

Lemma refuse_map {A} (b : A -> bool) (f r : A -> string) l :
  Forall (fun c => c = None) (map (fun x => refuse_if (b x) (f x) (r x)) l) <-> Forall (fun x => b x = false) l.
Proof. rewrite Forall_map. apply Forall_proper; [|done]. intros x. apply refuse_none. Qed.

Lemma some_iff {A} (o : option A) (f : A -> check) (P : A -> Prop) : (forall x, f x = None <-> P x) ->
  match o with Some x => f x | None => None end = None <-> (forall x, o = Some x -> P x).
Proof. intros H. destruct o as [x|]; [rewrite H; naive_solver|naive_solver]. Qed.

(** Splits a list of checks into what each of them says. *)
Ltac checks :=
  cbv zeta; rewrite ?first_refusal_none, ?Forall_app, ?refuse_map, ?Forall_cons, ?Forall_nil, ?refuse_none, ?negb_false, ?orb_false_iff,
    ?negb_false, ?andb_true_iff, ?ceiling_true, ?neqb_none; cbn [fst snd].

Lemma mode_none `{RealText} f l name m : validate_mode_limits f l name (Some m) = None <-> mode_ok l m.
Proof.
  unfold validate_mode_limits. checks.
  rewrite (some_iff _ _ (fun v => positive_number v /\ at_most v (jl_jerk_rad_s3 l))) by (intros; checks; done).
  rewrite (some_iff _ _ (fun v => positive_number v /\ at_most v (jl_torque_rate_nm_s l))) by (intros; checks; done).
  split; [intros (? & ? & ? & ? & _); by constructor|intros []; tauto].
Qed.

Lemma block_none `{RealText} f l name b : validate_mode_limits f l name b = None <-> (forall m, b = Some m -> mode_ok l m).
Proof. destruct b as [m|]; [rewrite mode_none; naive_solver|naive_solver]. Qed.

Lemma limits_none `{RealText} f l : validate_limits_of f l = None <-> limits_ok l.
Proof.
  unfold validate_limits_of. checks. rewrite Forall_map. checks. rewrite !block_none. split.
  - intros ((? & ? & _) & (? & ? & ? & ? & _) & He & Hj & Hs & _). constructor; try done.
    intros [] m Hm; [by apply He|by apply Hj|by apply Hs].
  - intros [? ? ? ? ? ? Hm]. pose proof (Hm LM_Exec); pose proof (Hm LM_Jog); pose proof (Hm LM_Stream); cbn [mode_block] in *; tauto.
Qed.

Lemma ripple_none f ilim r : validate_ripple f ilim r = None <-> ripple_ok ilim r.
Proof.
  unfold validate_ripple, amplitude_beyond. checks. split; [intros (? & (? & ?) & _); by constructor|intros []; tauto].
Qed.

Lemma ripples_none f ilim l : Forall (fun c => c = None) (map (validate_ripple f ilim) l) <-> Forall (ripple_ok ilim) l.
Proof. rewrite Forall_map. apply Forall_proper; [|done]. intros r. apply ripple_none. Qed.

Lemma phase_none f j :
  validate_phase f "phase_resistance_ohm" (jc_phase_resistance_ohm j) = None /\
  validate_phase f "phase_inductance_mh" (jc_phase_inductance_mh j) = None /\
  xorb (is_some (jc_phase_resistance_ohm j)) (is_some (jc_phase_inductance_mh j)) = false <-> phase_ok j.
Proof.
  unfold validate_phase, phase_ok, finite_number, positive_number.
  destruct (jc_phase_resistance_ohm j), (jc_phase_inductance_mh j); checks; cbn [is_some xorb]; intuition (congruence || auto).
Qed.

Lemma not_any {A} (f : A -> bool) l : existsb f l = false <-> Forall (fun x => f x = false) l.
Proof.
  induction l as [|x l IH]; cbn; [by split|]. rewrite Forall_cons, orb_false_iff. tauto.
Qed.

Lemma free_iff {A B} (f : A -> B) (eqb : B -> B -> bool) (b : B) l : (forall x y, eqb x y = false <-> x <> y) ->
  Forall (fun x => eqb (f x) b = false) l <-> b ∉ map f l.
Proof.
  intros He. rewrite Forall_forall. setoid_rewrite He. rewrite list_elem_of_In, in_map_iff. setoid_rewrite list_elem_of_In.
  split; [intros H (x & <- & Hx); by eapply H|intros H x Hx E; apply H; eauto].
Qed.

(** One joint after others: itself sound, its node free, its node and name new. *)
Lemma joint_none `{RealText} reserved before i j : validate_joint reserved before i j = None <->
  joint_ok j /\ jc_node_id j ∉ map fst reserved /\ jc_node_id j ∉ map jc_node_id before /\ jc_name j ∉ map jc_name before.
Proof.
  unfold validate_joint. checks. rewrite !limits_none, ripples_none, !not_any.
  pose proof (phase_none (fun name => at_index "joints" i +:+ ("." +:+ name)) j) as Hp.
  rewrite (some_iff _ _ (fun w => 4 <= w <= 64)) by (intros; checks; rewrite !Z.leb_le; done).
  rewrite (free_iff jc_node_id Z.eqb _ _ Z.eqb_neq), (free_iff jc_name String.eqb _ _ String.eqb_neq).
  assert (Er : Forall (fun x : Z * string => (jc_node_id j =? fst x) = false) reserved <-> jc_node_id j ∉ map fst reserved).
  { rewrite <- (free_iff fst (fun a b => b =? a)); [done|]. intros x y. rewrite Z.eqb_neq. naive_solver. }
  rewrite Z.leb_gt, Z.ltb_ge, Nat.ltb_ge, !Z.leb_le.
  split; [intros H0; destruct_and? H0|intros ([] & ? & ? & ?)].
  - split; [constructor|]; tauto.
  - tauto.
Qed.

Lemma not_in_snoc {A B} (f : A -> B) l x b : b ∉ map f (l ++ [x]) <-> b ∉ map f l /\ b <> f x.
Proof. rewrite map_app, elem_of_app. cbn [map]. rewrite list_elem_of_singleton. tauto. Qed.

Lemma not_in_map {A B} (f : A -> B) l b : b ∉ map f l <-> Forall (fun x => f x <> b) l.
Proof.
  rewrite Forall_forall, list_elem_of_In, in_map_iff. setoid_rewrite list_elem_of_In. naive_solver.
Qed.

Lemma either_none (o p : check) : match o with Some e => Some e | None => p end = None <-> o = None /\ p = None.
Proof. destruct o; naive_solver. Qed.

(** Joints after others are sound together when each is, and none repeats another. *)
Lemma joints_after `{RealText} c js : forall before, validate_joints c before js = None <->
  joints_ok (map fst (reserved_nodes c)) js /\
  Forall (fun j => jc_node_id j ∉ map jc_node_id before /\ jc_name j ∉ map jc_name before) js.
Proof.
  induction js as [|j js IH]; intros before; cbn [validate_joints].
  - split; [|done]. intros _. split; [|done]. constructor; try done; apply NoDup_nil_2.
  - rewrite either_none, joint_none, IH, Forall_cons. setoid_rewrite not_in_snoc.
    assert (E : Forall (fun k => (jc_node_id k ∉ map jc_node_id before /\ jc_node_id k <> jc_node_id j) /\
        jc_name k ∉ map jc_name before /\ jc_name k <> jc_name j) js <->
      Forall (fun k => jc_node_id k ∉ map jc_node_id before /\ jc_name k ∉ map jc_name before) js /\
      jc_node_id j ∉ map jc_node_id js /\ jc_name j ∉ map jc_name js).
    { rewrite !not_in_map, <- !Forall_and. apply Forall_proper; [|done]. intros k. tauto. }
    rewrite E. split.
    + intros ((Hj & Hr & Hn & Hm) & [H1 H2 H3 H4] & H5 & H6 & H7). split; [|by split].
      constructor; cbn [map]; rewrite ?Forall_cons, ?NoDup_cons; tauto.
    + intros ([H1 H2 H3 H4] & [Hn Hm] & H5). cbn [map] in *. rewrite ?Forall_cons, ?NoDup_cons in *. destruct_and?.
      split; [tauto|]. split; [by constructor|tauto].
Qed.

Lemma joints_none `{RealText} c : validate_joints c [] (rc_joints c) = None <-> joints_ok (map fst (reserved_nodes c)) (rc_joints c).
Proof.
  rewrite joints_after. split; [by intros [? _]|]. intros Hj. split; [done|]. apply Forall_forall. intros j _. split; apply not_elem_of_nil.
Qed.

(** ** The sections *)

(** Between the conjunction of the checks and the record that states them. *)
Ltac by_parts := split; [intros Hparts; destruct_and? Hparts; constructor; tauto|intros []; tauto].

Lemma all_true {A} (f : A -> bool) l : forallb f l = true <-> Forall (fun x => f x = true) l.
Proof.
  induction l as [|x l IH]; cbn; [by split|]. rewrite Forall_cons, andb_true_iff. tauto.
Qed.

Lemma bus_none `{RealText} c : validate_bus c = None <-> bus_ok c.
Proof.
  unfold validate_bus. checks. rewrite all_true.
  assert (Eo : Forall (fun s => is_positive s && sf_is_finite s = true) (bc_config_resend_offsets_s (rc_bus c)) <->
    Forall (fun s => positive_number s /\ finite_number s) (bc_config_resend_offsets_s (rc_bus c))).
  { apply Forall_proper; [|done]. intros s. apply andb_true_iff. }
  assert (En : Forall (fun x : Z * string => (16 <=? fst x) = false) (reserved_nodes c) <-> Forall (fun n => n < 16) (map fst (reserved_nodes c))).
  { rewrite Forall_map. apply Forall_proper; [|done]. intros x. apply Z.leb_gt. }
  rewrite Eo, En. by_parts.
Qed.

Lemma protocol_none `{RealText} c : validate_protocol c = None <-> protocol_ok c.
Proof.
  unfold validate_protocol. checks.
  assert (Eg : match parse_ipv4 (pc_status_multicast_group (rc_protocol c)) with
    | None => Some (mkInvalid "protocol.status_multicast_group" "not a valid IPv4 address")
    | Some group => refuse_if (negb (is_multicast group)) "protocol.status_multicast_group" "must be an IPv4 multicast address (224.0.0.0/4)"
    end = None <-> exists a, parse_ipv4 (pc_status_multicast_group (rc_protocol c)) = Some a /\ is_multicast a = true).
  { destruct (parse_ipv4 _) as [a|]; [|naive_solver]. rewrite refuse_none, negb_false. naive_solver. }
  rewrite Eg. by_parts.
Qed.

Lemma defaults_none c : validate_defaults c = None <-> defaults_ok c.
Proof. unfold validate_defaults. checks. by_parts. Qed.

Lemma timing_none c : validate_timing c = None <-> (forall t, rc_timing c = Some t -> timing_ok t).
Proof.
  unfold validate_timing. apply some_iff. intros t. checks. rewrite Z.ltb_ge. by_parts.
Qed.

Lemma envelope_none c : validate_limits c = None <-> envelope_ok (rc_limits c).
Proof. unfold validate_limits. checks. by_parts. Qed.

Lemma motion_none c : validate_motion c = None <->
  Forall (fun v => positive_number v /\ finite_number v) (motion_values (f64_to_SF 0x3F847AE147AE147B) (rc_motion c)).
Proof.
  unfold validate_motion. rewrite first_refusal_none, refuse_map.
  set (values := motion_values _ _). assert (El : length values = length motion_keys) by reflexivity. clearbody values.
  rewrite <- (fst_zip values motion_keys) at 2 by lia. rewrite Forall_fmap. apply Forall_proper; [|done]. intros [v name].
  cbn [compose fst]. by rewrite orb_false_iff, !negb_false.
Qed.

(** A check per entry of a list, each with its place. *)
Lemma imap_none {A} (f : nat -> A -> check) (P : nat -> A -> Prop) l : (forall i x, f i x = None <-> P i x) ->
  Forall (fun c => c = None) (imap f l) <-> (forall i x, l !! i = Some x -> P i x).
Proof.
  intros Hf. rewrite Forall_lookup. split.
  - intros H i x Hi. apply Hf, (H i). by rewrite list_lookup_imap, Hi.
  - intros H i r Hi. rewrite list_lookup_imap in Hi. destruct (l !! i) as [x|] eqn:E; [|done]. injection Hi as <-. by apply Hf, H.
Qed.

Lemma zip_lookup {A B} (l : list A) (k : list B) (P : nat -> A * B -> Prop) :
  (forall i x, zip l k !! i = Some x -> P i x) <-> (forall i a b, l !! i = Some a -> k !! i = Some b -> P i (a, b)).
Proof.
  split.
  - intros H i a b Ha Hb. apply H. rewrite lookup_zip_with, Ha. cbn. by rewrite Hb.
  - intros H i [a b] E. rewrite lookup_zip_with in E. destruct (l !! i) as [a'|] eqn:Ea; [|done]. cbn in E.
    destruct (k !! i) as [b'|] eqn:Eb; [|done]. injection E as <- <-. by apply H.
Qed.

Lemma endstop_none c j : validate_endstop_joint c j = None <-> endstop_ok c j.
Proof.
  unfold validate_endstop_joint, endstop_ok. destruct (hc_joints (rc_homing c) !! Z.to_nat j) as [jh|] eqn:Eh; [|naive_solver].
  checks. destruct (rc_joints c !! Z.to_nat j) as [joint|]; naive_solver.
Qed.

Lemma outside_false v lo hi : outside v lo hi = false <-> in_window v (lo, hi).
Proof. unfold outside, in_window, finite_number. rewrite !orb_false_iff, negb_false. cbn [fst snd]. tauto. Qed.

Lemma rest_none `{RealText} c i v j : validate_rest c i (v, j) = None <-> in_window v (fst (rest_window_of c i (jc_limits j))).
Proof. unfold validate_rest. destruct (rest_window_of c i (jc_limits j)) as [[lo hi] band]. by rewrite refuse_none, outside_false. Qed.

Lemma shutdown_none `{RealText} c : validate_shutdown c = None <-> shutdown_ok c.
Proof.
  unfold validate_shutdown. checks.
  rewrite (imap_none _ (fun i vj => in_window (fst vj) (fst (rest_window_of c i (jc_limits (snd vj)))))) by (intros i [v j]; apply rest_none).
  rewrite zip_lookup, Nat.eqb_eq, Forall_map. cbn [fst snd].
  assert (Ee : Forall (compose (fun r : check => r = None) (validate_endstop_joint c)) (sh_endstop_joints (rc_shutdown c)) <->
    Forall (endstop_ok c) (sh_endstop_joints (rc_shutdown c))).
  { apply Forall_proper; [|done]. intros j. apply endstop_none. }
  rewrite Ee. by_parts.
Qed.

Lemma nonneg_none v : finite_nonneg v = true <-> nonneg_number v.
Proof. apply andb_true_iff. Qed.

Lemma table_none c name t : validate_table c name t = None <-> length t = length (rc_joints c) /\ Forall nonneg_number t.
Proof.
  unfold validate_table. checks. rewrite Nat.eqb_eq, (Forall_imap _ nonneg_number); [done|].
  intros i v. by rewrite refuse_none, negb_false, nonneg_none.
Qed.

Lemma sim_none c : validate_sim c = None <-> sim_ok c.
Proof.
  unfold validate_sim. cbv zeta. rewrite first_refusal_none, !Forall_app, refuse_map. cbn [map fst snd].
  rewrite (imap_none _ (fun _ kj => positive_number (fst kj) -> positive_number (snd kj))).
  2:{ intros i [k jm]. unfold positive_number, is_positive. rewrite refuse_none. cbn [fst snd]. destruct (sf_lt sf_zero k), (sf_lt sf_zero jm); cbn; naive_solver. }
  rewrite zip_lookup, (Forall_imap _ (fun j => forall g, jc_dynamics_gear_ratio j = Some g -> positive_number g)).
  2:{ intros i j. apply some_iff. intros g. by rewrite refuse_none, negb_false. }
  checks. rewrite !table_none, !nonneg_none. split.
  - intros H. destruct_and? H. constructor; rewrite ?Forall_cons, ?Forall_nil; tauto.
  - intros [H1 H2 H3 H4]. rewrite !Forall_cons in H1. rewrite !Forall_cons in H2. tauto.
Qed.

(** ** Lines *)

Lemma collide_none (seen : list (IoLine * string)) l :
  List.find (fun s : IoLine * string => collides l (fst s)) seen = None <->
  il_name l ∉ map (fun s => il_name (fst s)) seen /\ il_offset l ∉ map (fun s => il_offset (fst s)) seen.
Proof.
  rewrite !not_in_map, <- Forall_and. induction seen as [|[o f] seen IH]; cbn; [by split|]. rewrite Forall_cons. cbn [fst].
  unfold collides at 1. cbn [fst]. destruct (String.eqb_spec (il_name o) (il_name l)) as [E|E]; cbn; [naive_solver|].
  destruct (Z.eqb_spec (il_offset o) (il_offset l)) as [E2|E2]; [naive_solver|]. rewrite IH. naive_solver.
Qed.

Lemma reserved_none offset :
  List.find (fun r : Z * string => fst r =? offset) RESERVED_OFFSETS = None <-> offset ∉ map fst RESERVED_OFFSETS.
Proof.
  unfold RESERVED_OFFSETS. cbn [List.find map fst]. rewrite !not_elem_of_cons. pose proof (not_elem_of_nil offset) as Hn.
  destruct (Z.eqb_spec 5 offset) as [<-|H5]; [split; [done|intros [E _]; congruence]|].
  destruct (Z.eqb_spec 6 offset) as [<-|H6]; [split; [done|intros (_ & E & _); congruence]|]. split; [|done]. intros _. split_and!; congruence || exact Hn.
Qed.

Lemma line_none seen field l : validate_line seen field l = None <->
  is_blank (il_name l) = false /\ il_offset l ∉ map fst RESERVED_OFFSETS /\
  il_name l ∉ map (fun s => il_name (fst s)) seen /\ il_offset l ∉ map (fun s => il_offset (fst s)) seen.
Proof.
  unfold validate_line. rewrite first_refusal_none, !Forall_cons, Forall_nil, refuse_none, <- collide_none, <- reserved_none.
  destruct (List.find _ RESERVED_OFFSETS) as [[]|], (List.find _ seen) as [[]|]; naive_solver.
Qed.

Lemma lines_after lines : forall seen, validate_lines seen lines = None <->
  Forall (fun l => is_blank (il_name l) = false) (map fst lines) /\
  Forall (fun l => il_offset l ∉ map fst RESERVED_OFFSETS) (map fst lines) /\
  NoDup (map il_name (map fst lines)) /\ NoDup (map il_offset (map fst lines)) /\
  Forall (fun l => il_name l ∉ map (fun s => il_name (fst s)) seen /\ il_offset l ∉ map (fun s => il_offset (fst s)) seen) (map fst lines).
Proof.
  induction lines as [|[l field] lines IH]; intros seen; cbn [validate_lines map].
  - split; [|done]. intros _. split_and!; try done; apply NoDup_nil_2.
  - rewrite either_none, line_none, IH, !Forall_cons, !NoDup_cons. cbn [fst]. setoid_rewrite not_in_snoc. cbn [fst].
    assert (E : Forall (fun k => (il_name k ∉ map (fun s : IoLine * string => il_name (fst s)) seen /\ il_name k <> il_name l) /\
        il_offset k ∉ map (fun s : IoLine * string => il_offset (fst s)) seen /\ il_offset k <> il_offset l) (map fst lines) <->
      Forall (fun k => il_name k ∉ map (fun s : IoLine * string => il_name (fst s)) seen /\
        il_offset k ∉ map (fun s : IoLine * string => il_offset (fst s)) seen) (map fst lines) /\
      il_name l ∉ map il_name (map fst lines) /\ il_offset l ∉ map il_offset (map fst lines)).
    { rewrite !(not_in_map _ (map fst lines)), <- !Forall_and. apply Forall_proper; [|done]. intros k. tauto. }
    rewrite E. tauto.
Qed.

Lemma located_lines group l : map fst (located group l) = l.
Proof.
  apply list_eq. intros i. unfold located. rewrite list_lookup_fmap, list_lookup_imap. by destruct (l !! i).
Qed.

Lemma io_none c : validate_io c = None <-> io_ok c.
Proof.
  unfold validate_io. checks. rewrite lines_after, map_app, !located_lines, Nat.ltb_ge. split.
  - intros H. destruct_and? H. by constructor.
  - intros []. split; [done|]. split; [|done]. split_and!; try done. apply Forall_forall. intros l _. split; apply not_elem_of_nil.
Qed.

(** ** The whole file *)

Lemma stall_none c : (forall i jh, zip (rc_joints c) (hc_joints (rc_homing c)) !! i = Some jh -> stall_on_continuous jh = false) <->
  (forall i j jh, rc_joints c !! i = Some j -> hc_joints (rc_homing c) !! i = Some jh ->
     jl_continuous (jc_limits j) = true -> jh_strategy jh = Hall).
Proof.
  rewrite (zip_lookup _ _ (fun _ jh => stall_on_continuous jh = false)). unfold stall_on_continuous. cbn [fst snd].
  split; intros H i j jh Hj Hh; specialize (H i j jh Hj Hh).
  - intros Hc. rewrite Hc in H. cbn in H. apply bool_decide_eq_false in H. by destruct (jh_strategy jh).
  - destruct (jl_continuous _); [|done]. cbn. apply bool_decide_eq_false. rewrite H; done.
Qed.

Lemma validation_contract `{RealText} c : validate_robot c = None <-> robot_ok c.
Proof.
  unfold validate_robot. cbv zeta. rewrite first_refusal_none, !Forall_app.
  rewrite (imap_none _ (fun _ jh => stall_on_continuous jh = false)) by (intros; apply refuse_none).
  rewrite stall_none. checks. rewrite joints_none, validate_homing_none, io_none, bus_none, protocol_none, defaults_none,
    timing_none, envelope_none, motion_none, shutdown_none, sim_none, !not_any, Nat.eqb_eq.
  assert (E1 : is_empty (rc_gravity_correction c) = true \/ length (rc_gravity_correction c) = 24%nat <->
    negb (is_empty (rc_gravity_correction c)) && negb (length (rc_gravity_correction c) =? 24)%nat = false).
  { rewrite andb_false_iff, !negb_false, Nat.eqb_eq. done. }
  rewrite <- E1, is_empty_true.
  assert (E2 : Forall (fun v => bad_correction v = false) (rc_gravity_correction c) <->
    Forall (fun v => finite_number v /\ sf_lt (sf_of_int 10) (sf_abs v) = false) (rc_gravity_correction c)).
  { apply Forall_proper; [|done]. intros v. unfold bad_correction. by rewrite orb_false_iff, negb_false. }
  assert (E3 : Forall (fun v => bad_scale v = false) (rc_gravity_scale c) <->
    Forall (fun v => finite_number v /\ not_below v /\ sf_lt (sf_of_int 2) v = false) (rc_gravity_scale c)).
  { apply Forall_proper; [|done]. intros v. unfold bad_scale. rewrite !orb_false_iff, negb_false. unfold finite_number, not_below, le_zero. tauto. }
  assert (E4 : is_empty (rc_joints c) = false <-> rc_joints c <> []) by (by destruct (rc_joints c)).
  rewrite E2, E3, E4. split; [intros Hp; destruct_and? Hp; constructor; unfold positive_number, tick_dt_s; tauto|].
  intros []. unfold positive_number, tick_dt_s in *. tauto.
Qed.

(** ** Signs *)

Section Signs.
Context (prec emax : Z).

Lemma shr_1_nonneg r : 0 <= shr_m r -> 0 <= shr_m (shr_1 r).
Proof. destruct r as [[|[p|p|]|[p|p|]] a b]; cbn; lia. Qed.

Lemma shr_nonneg r e n : 0 <= shr_m r -> 0 <= shr_m (fst (shr r e n)).
Proof.
  intros H. destruct n as [|p|p]; cbn [shr fst]; try done. unfold iter_pos. revert r H.
  induction p as [p IH|p IH|]; intros r H; cbn; [by apply IH, IH, shr_1_nonneg|by apply IH, IH|by apply shr_1_nonneg].
Qed.

Lemma shr_fexp_nonneg m e l : 0 <= m -> 0 <= shr_m (fst (shr_fexp prec emax m e l)).
Proof. intros H. apply shr_nonneg. by destruct l as [|[]]. Qed.

Lemma round_even_nonneg m l : 0 <= m -> 0 <= round_nearest_even m l.
Proof. intros H. destruct l as [|[]]; cbn; [|case_match| |]; lia. Qed.

(** Rounding keeps the sign, and makes no NaN. *)
Lemma round_aux_sign s m e l : 0 <= m ->
  binary_round_aux prec emax s m e l = S754_zero s \/ binary_round_aux prec emax s m e l = S754_infinity s \/
  exists m' e', binary_round_aux prec emax s m e l = S754_finite s m' e'.
Proof.
  intros H. unfold binary_round_aux. pose proof (shr_fexp_nonneg m e l H) as H1. destruct (shr_fexp _ _ m e l) as [r e1]. cbn [fst] in H1.
  pose proof (shr_fexp_nonneg (round_nearest_even (shr_m r) (loc_of_shr_record r)) e1 loc_Exact (round_even_nonneg _ _ H1)) as H2.
  destruct (shr_fexp _ _ (round_nearest_even _ _) e1 loc_Exact) as [r2 e2]. cbn [fst] in H2.
  destruct (shr_m r2) as [|p|p]; [by left|right|lia]. destruct (e2 <=? emax - prec); [right; eauto|by left].
Qed.

End Signs.

Lemma positive_cases v : positive_number v -> v = S754_infinity false \/ exists m e, v = S754_finite false m e.
Proof. destruct v as [s|s| |s m e]; try destruct s; try done; eauto. Qed.

Lemma div_positive x y : positive_number x -> positive_number y -> y <> S754_infinity false ->
  sf_div x y = S754_zero false \/ sf_div x y = S754_infinity false \/ exists m e, sf_div x y = S754_finite false m e.
Proof.
  intros [->|(mx & ex & ->)]%positive_cases [->|(my & ey & ->)]%positive_cases Hy; try done; [right; by left|].
  unfold sf_div, SFdiv. destruct (SFdiv_core_binary _ _ _ _ _ _) as [[q e'] l] eqn:E.
  apply (round_aux_sign 53 1024 false). unfold SFdiv_core_binary in E. cbv zeta in E.
  set (k := Z.sub (Z.sub ex ey) _) in E. set (m := match k with 0 => _ | _ => _ end) in E.
  assert (Hm : 0 <= m) by (subst m; destruct k; [lia|apply Z.shiftl_nonneg; lia|lia]). clearbody m k.
  pose proof (Z.div_pos m (Zpos my) Hm ltac:(lia)) as Hq. unfold Z.div in Hq. destruct (Z.div_eucl m (Zpos my)). by injection E as <- _ _.
Qed.

(** ** What follows for the program *)

Lemma le_self v : v <> S754_nan -> sf_le v v = true.
Proof.
  unfold sf_le. destruct v as [[]|[]| |[] m e]; intros Hv; cbn; try done; rewrite Z.compare_refl;
    change (Pos.compare_cont Eq ?x ?y) with (Pos.compare x y); by rewrite Pos.compare_refl.
Qed.

Lemma positive_le v : positive_number v -> positive_number v /\ at_most v v.
Proof. intros H. split; [done|]. apply le_self. by intros ->. Qed.

Definition option_ok (o : option real) (hi : real) : Prop := exists v, o = Some v /\ positive_number v /\ at_most v hi.

(** What a mode may do is some of what the arm survives, and not nothing. *)
Record within_ceiling (l : JointLimits) (r : ResolvedLimits) : Prop := mkWithin {
  wc_velocity : positive_number (rl_velocity_rad_s r) /\ at_most (rl_velocity_rad_s r) (jl_velocity_rad_s l);
  wc_acceleration : positive_number (rl_acceleration_rad_s2 r) /\ at_most (rl_acceleration_rad_s2 r) (jl_acceleration_rad_s2 l);
  wc_jerk : option_ok (rl_jerk_rad_s3 r) (jl_jerk_rad_s3 l);
  wc_torque_rate : option_ok (rl_torque_rate_nm_s r) (jl_torque_rate_nm_s l);
}.

Lemma mode_within_ceiling l mode : limits_ok l -> within_ceiling l (for_mode mode l).
Proof.
  intros [_ _ Hv Ha Hj Ht Hm]. unfold for_mode. specialize (Hm mode). destruct (mode_block mode l) as [m|].
  - destruct (Hm m eq_refl) as [H1 H2 H3 H4]. constructor; cbn; try done.
    + exists (default (jl_jerk_rad_s3 l) (ml_jerk_rad_s3 m)). split; [done|]. destruct (ml_jerk_rad_s3 m) as [v|]; [by apply H3|by apply positive_le].
    + exists (default (jl_torque_rate_nm_s l) (ml_torque_rate_nm_s m)). split; [done|].
      destruct (ml_torque_rate_nm_s m) as [v|]; [by apply H4|by apply positive_le].
  - constructor; cbn; try (by apply positive_le); [exists (jl_jerk_rad_s3 l)|exists (jl_torque_rate_nm_s l)]; by split; [|apply positive_le].
Qed.

(** A window that does not vanish is a tick at least. *)
Lemma window_ticks c v : positive_number v -> positive_number (tick_dt_s c) -> sf_lt (tick_dt_s c) sf_one = true ->
  window_vanishes (tick_dt_s c) v = false -> 1 <= ticks c v.
Proof.
  intros Hv Hd H1 Hw. unfold ticks, sf_round_as_uint. unfold window_vanishes, sf_round_float in Hw.
  assert (Hi : tick_dt_s c <> S754_infinity false) by (intros E; rewrite E in H1; by vm_compute in H1).
  destruct (div_positive v (tick_dt_s c) Hv Hd Hi) as [E|[E|(m & e & E)]]; rewrite E in *; [by vm_compute in Hw|cbn; lia|].
  cbn [sf_round] in *. set (n := if 0 <=? e then _ else _) in *. assert (Hn : n = 0 \/ 1 <= n).
  { assert (0 <= n); [|lia]. subst n. destruct (Z.leb_spec 0 e); [nia|]. apply Z.div_pos; nia. }
  destruct Hn as [Hn|Hn]; [rewrite Hn in Hw; by vm_compute in Hw|]. lia.
Qed.

Lemma above_positive v w : positive_number w -> v <> S754_nan -> sf_le v w = false -> positive_number v.
Proof.
  unfold positive_number. intros Hw Hv Hle.
  destruct v as [s|s| |s m e]; try destruct s; try done; destruct w as [s'|s'| |s' m' e']; try destruct s'; done.
Qed.

Lemma ticks_of_nan c : ticks c S754_nan = 0.
Proof. reflexivity. Qed.

(** An endstop parks the joint where homing references it. *)
Lemma park_keeps homing js : forall q i, (length q = length (hc_joints homing))%nat ->
  fold_left (park_on_endstop homing) js q !! i =
    if existsb (fun j => (Z.to_nat j =? i)%nat) js then jh_home_offset_rad <$> hc_joints homing !! i else q !! i.
Proof.
  induction js as [|j js IH]; intros q i Hl; [done|]. cbn [fold_left existsb]. unfold park_on_endstop at 2.
  destruct (hc_joints homing !! Z.to_nat j) as [h|] eqn:Eh.
  - rewrite IH by (by rewrite length_insert). destruct (existsb _ js); [by rewrite orb_true_r|]. rewrite orb_false_r.
    destruct (Nat.eqb_spec (Z.to_nat j) i) as [<-|Hne]; [|by rewrite list_lookup_insert_ne].
    rewrite list_lookup_insert_eq by (rewrite Hl; by eapply lookup_lt_Some). by rewrite Eh.
  - rewrite IH by done. destruct (existsb _ js); [by rewrite orb_true_r|]. rewrite orb_false_r.
    destruct (Nat.eqb_spec (Z.to_nat j) i) as [<-|Hne]; [|done]. rewrite Eh. apply lookup_ge_None in Eh. apply lookup_ge_None. lia.
Qed.

Lemma park_length homing js : forall q, length (fold_left (park_on_endstop homing) js q) = length q.
Proof.
  induction js as [|j js IH]; intros q; [done|]. cbn [fold_left]. rewrite IH. unfold park_on_endstop.
  destruct (hc_joints homing !! Z.to_nat j); [apply length_insert|done].
Qed.

(** C21: a robot file that validates keeps every mode of every joint below what the hardware survives, and above zero:
    whichever of the per-mode blocks and of their fields it leaves out; and the pose the shutdown drives to names every
    joint, finite and between the joint's software limits, except the joints parked on an endstop, which have one and are
    sent to where homing references it, within the mechanical limits. *)
Theorem valid_robot_moves_within_limits `{RealText} c i j : validate_robot c = None -> rc_joints c !! i = Some j ->
  (forall mode, within_ceiling (jc_limits j) (for_mode mode (jc_limits j))) /\
  exists v, safe_park_q c !! i = Some v /\
    if parks_on_endstop c i
    then jl_continuous (jc_limits j) = false /\ in_window v (jl_hard_min_rad (jc_limits j), jl_hard_max_rad (jc_limits j)) /\
      Some v = jh_home_offset_rad <$> hc_joints (rc_homing c) !! i
    else in_window v (jl_soft_min_rad (jc_limits j), jl_soft_max_rad (jc_limits j)).
Proof.
  rewrite validation_contract. intros Hok Hj. pose proof (ok_joints c Hok) as [Hjs _ _ _]. pose proof (proj1 (Forall_lookup _ _) Hjs i j Hj) as Hi.
  split; [intros mode; by apply mode_within_ceiling, jok_limits|].
  destruct (ok_shutdown c Hok) as [_ _ _ He Hl Hin]. destruct (lookup_lt_is_Some_2 (safe_park_q c) i) as [v Hv].
  { rewrite Hl. by eapply lookup_lt_Some. }
  exists v. split; [done|]. specialize (Hin i v j Hv Hj). unfold rest_window_of in Hin. destruct (parks_on_endstop c i) eqn:Ep; [|done].
  unfold parks_on_endstop in Ep. split; [|split; [done|]].
  - apply existsb_exists in Ep as (k & Hk & Ek). apply Nat.eqb_eq in Ek. apply list_elem_of_In in Hk.
    apply (proj1 (Forall_forall _ _) He) in Hk as (jh & _ & _ & Hc). apply Hc. by rewrite Ek.
  - rewrite <- Hv. unfold safe_park_q in *. rewrite park_length in Hl. rewrite park_keeps; [by rewrite Ep|].
    rewrite Hl. symmetry. apply (ho_joints _ _ (ok_homing c Hok)).
Qed.

(** C20: in a robot file that validates, no node is stale or lost at age zero: the stale window is a tick at least, and so
    is the lost window, unless the file writes [nan] for it, which validates although it makes the window of no ticks that
    the validation is there to refuse. *)
Theorem freshness_windows_last `{RealText} c : validate_robot c = None ->
  1 <= ticks c (bc_stale_warn_s (rc_bus c)) /\
  (1 <= ticks c (bc_lost_s (rc_bus c)) \/ bc_lost_s (rc_bus c) = S754_nan /\ ticks c (bc_lost_s (rc_bus c)) = 0).
Proof.
  rewrite validation_contract. intros Hok. destruct (ok_dt c Hok) as [Hd H1]. destruct (ok_bus c Hok). split; [by apply window_ticks|].
  assert (Hnan : bc_lost_s (rc_bus c) = S754_nan \/ bc_lost_s (rc_bus c) <> S754_nan) by (destruct (bc_lost_s (rc_bus c)); auto).
  destruct Hnan as [E|E]; [right; split; [done|]; by rewrite E|left].
  apply window_ticks; try done. by eapply above_positive.
Qed.

(** C13: [RobotConfig::validate] accepts exactly the robot files that meet the contract [robot_ok]: nodes and names of the
    joints distinct and free of the bus's own, every mode of a joint within its hardware ceiling, homing complete, lines on
    distinct pins outside the safety chain's, freshness windows of a tick at least, a status rate that divides the tick
    rate, a rest pose inside the limits, every tuning positive and finite; in whatever order the checks run and however
    the messages print. *)
Theorem validation_is_the_contract `{RealText} c : validate_robot c = None <-> robot_ok c.
Proof. apply validation_contract. Qed.
