(* ===== verification/ConfigBundle.v ===== *)
(** * ConfigBundle: a robot with its tools
    (crates/par6-config/src/gripper.rs, lib.rs)

    The tool file and its validation, the bundle of a robot with every tool beside it
    and their cross-validation, and what the bundle answers: the fitted tool, the tool
    of a drive's id, a joint's home offset.  Any tool of a valid bundle can be fitted. *)
From Stdlib Require Import SpecFloat.
From stdpp Require Import pretty.
From S2P Require Import Prelude F64 Wire Command WireError Convert HomingConfig RobotSchema RobotValidate RobotProps.

Local Open Scope string_scope.
Local Open Scope Z_scope.

(** ** Tool files *)

Record SettleTimings := mkSettleTimings {
  st_command_grace_s : real;
  st_detect_debounce_s : real;
  st_move_timeout_s : real;
  st_calibrate_timeout_s : real;
  st_calibrate_min_wait_s : real;
}.

Record GripperDriverConfig := mkGripperDriverConfig {
  gc_driver_type : DriverType;
  gc_stroke_mm : real;
  gc_kt_nm_a : real;
  gc_ilim_ma : real;
  gc_voltage_limit_mv : Z;
  gc_velocity_limit_ticks_s : real;
  gc_watchdog_timeout_ms : Z;
  gc_gear_r_m : real;
  gc_gains : Gains;
  gc_settle : SettleTimings;
}.

Record ArmJointHomeOffset := mkArmJointHomeOffset { ao_joint : Z; ao_home_offset_rad : real }.

Record ToolKinematics := mkToolKinematics {
  tk_d_m : real; tk_a_m : real; tk_alpha_rad : real; tk_mass_kg : real; tk_com_m : list real; tk_inertia_kg_m2 : list real;
}.

Record ToolConfig := mkToolConfig {
  tl_name : string;
  tl_urdf_variant : option string;
  tl_driver : option GripperDriverConfig;
  tl_can_tool_id : option Z;
  tl_homing : option JointHoming;
  tl_arm_joint_home_offsets : list ArmJointHomeOffset;
  tl_kinematics : ToolKinematics;
}.

(** What homing reads of a tool. *)
Definition homing_tool (t : ToolConfig) : HomingConfig.ToolConfig :=
  HomingConfig.mkToolConfig
    ((fun d => mkGripperDriver (gc_velocity_limit_ticks_s d) (gc_ilim_ma d) (gc_gear_r_m d)) <$> tl_driver t) (tl_homing t)
    (map (fun o => (ao_joint o, ao_home_offset_rad o)) (tl_arm_joint_home_offsets t)).

Definition validate_settle (s : SettleTimings) : check :=
  first_refusal
    (map (fun vn : real * string => refuse_if (negb (sf_is_finite (fst vn)) || sf_le (fst vn) sf_zero) (snd vn) "must be a finite duration > 0")
       [(st_command_grace_s s, "driver.settle.command_grace_s"); (st_detect_debounce_s s, "driver.settle.detect_debounce_s");
        (st_move_timeout_s s, "driver.settle.move_timeout_s"); (st_calibrate_timeout_s s, "driver.settle.calibrate_timeout_s");
        (st_calibrate_min_wait_s s, "driver.settle.calibrate_min_wait_s")] ++
     [refuse_if (sf_le (st_calibrate_timeout_s s) (st_calibrate_min_wait_s s)) "driver.settle.calibrate_min_wait_s"
        "must be shorter than calibrate_timeout_s, or a calibration can only ever time out"]).

Definition validate_driver (d : GripperDriverConfig) : check :=
  first_refusal
    (map (fun vn : real * string => refuse_if (le_zero (fst vn)) (snd vn) "must be > 0")
       [(gc_stroke_mm d, "driver.stroke_mm"); (gc_kt_nm_a d, "driver.kt_nm_a"); (gc_ilim_ma d, "driver.ilim_ma");
        (gc_velocity_limit_ticks_s d, "driver.velocity_limit_ticks_s"); (gc_gear_r_m d, "driver.gear_r_m")] ++
     [refuse_if (gc_watchdog_timeout_ms d =? 0) "driver.watchdog_timeout_ms" "must be > 0"; validate_settle (gc_settle d)]).

Definition validate_tool_id (t : ToolConfig) : check :=
  match tl_can_tool_id t with
  | Some id =>
      if id =? 0 then Some (mkInvalid "can_tool_id" "0 is what an unprovisioned drive reports; use 1..=255")
      else refuse_if (negb (is_some (tl_driver t))) "can_tool_id" "only a CAN-driven tool has a drive to carry an id"
  | None => None
  end.

(** [ToolConfig::validate]. *)
Definition validate_tool (t : ToolConfig) : check :=
  first_refusal
    ([refuse_if (String.eqb (tl_name t) "") "name" "must not be empty";
      validate_tool_id t;
      match tl_driver t with Some d => validate_driver d | None => None end;
      refuse_if (is_some (tl_homing t) && negb (is_some (tl_driver t))) "homing" "a passive tool (no [driver]) cannot home";
      match tl_homing t with
      | Some h =>
          first_refusal
            [validate_joint_homing "homing" h;
             refuse_if (jh_home_offset_gripper_dependent h) "homing.home_offset_gripper_dependent"
               "gripper-dependent overrides apply to ARM joints, not the gripper itself"]
      | None => None
      end] ++
     imap (fun i o => refuse_if (16 <=? ao_joint o) (at_index "arm_joint_home_offsets" i +:+ ".joint") "not a plausible arm joint index")
       (tl_arm_joint_home_offsets t) ++
     [refuse_if (sf_lt (tk_mass_kg (tl_kinematics t)) sf_zero) "kinematics.mass_kg" "must be >= 0"]).

(** ** The bundle *)

Record ConfigBundle := mkConfigBundle {
  cb_robot : RobotConfig;
  cb_tools : list ToolConfig;
  cb_installation_shapes : list Shape;
}.

Definition active_tool (b : ConfigBundle) : option ToolConfig :=
  List.find (fun g => String.eqb (tl_name g) (rs_active_tool (rc_robot (cb_robot b)))) (cb_tools b).

Definition has_can_id (id : Z) (t : ToolConfig) : bool :=
  match tl_can_tool_id t with Some k => k =? id | None => false end.

Definition tool_by_can_id (b : ConfigBundle) (tool_id : Z) : option ToolConfig :=
  if tool_id =? 0 then None else List.find (has_can_id tool_id) (cb_tools b).

(** [ConfigBundle::effective_home_offset]. *)
Definition bundle_home_offset (b : ConfigBundle) (joint : nat) : option real :=
  effective_home_offset (homing_tool <$> active_tool b) (rc_homing (cb_robot b)) joint.

(** The ids of the tools, each checked against the tools before it. *)
Fixpoint validate_ids (before tools : list ToolConfig) : check :=
  match tools with
  | [] => None
  | t :: tools =>
      let clash :=
        match tl_can_tool_id t with
        | None => None
        | Some id =>
            match List.find (has_can_id id) before with
            | Some other =>
                Some (mkInvalid "can_tool_id" ("tools `" +:+ tl_name other +:+ "` and `" +:+ tl_name t +:+ "` both claim id " +:+
                  pretty id +:+ "; a drive reports one id and it must name one tool"))
            | None => None
            end
        end in
      match clash with Some e => Some e | None => validate_ids (before ++ [t]) tools end
  end.

(** Whether a step homes the motor of the gripper. *)
Definition homes_motor (s : SequenceStep) : bool :=
  match ss_home s with
  | Some h => match hg_gripper h with Some GHM_Motor => true | _ => false end
  | None => false
  end.
Definition motor_homed (c : HomingConfig) : bool := existsb homes_motor (hc_sequence c).

Definition cannot_home (t : ToolConfig) : bool := is_some (tl_driver t) && negb (is_some (tl_homing t)).

Definition string_of (b : bytes) : string := fold_right (fun c s => String (ascii_of_N (Z.to_N c)) s) EmptyString b.

(** [what.strip_prefix("shape.").unwrap_or(what)]. *)
Definition shape_leaf (what : string) : string :=
  if String.prefix "shape." what then String.substring 6 (String.length what - 6) what else what.

Section Bundle.
Context `{Sh : Show}.

Definition shape_refusal (i : nat) (s : Shape) (e : string * Why) : Invalid :=
  mkInvalid (at_index "installation_shapes" i +:+ "." +:+ shape_leaf (fst e))
    ("shape `" +:+ string_of (sh_name s) +:+ "`: " +:+ string_of (why_text (snd e))).

Definition validate_shapes (shapes : list Shape) : check :=
  first_refusal (imap (fun i s => match validate_shape s with Err e => Some (shape_refusal i s e) | Ok _ => None end) shapes).

(** [ConfigBundle::validate]. *)
Definition validate_bundle (b : ConfigBundle) : check :=
  first_refusal
    [validate_shapes (cb_installation_shapes b);
     validate_ids [] (cb_tools b);
     refuse_if (negb (is_some (active_tool b))) "robot.active_tool"
       ("no gripper named `" +:+ rs_active_tool (rc_robot (cb_robot b)) +:+ "` found in grippers/ directory");
     match List.find (fun t => motor_homed (rc_homing (cb_robot b)) && cannot_home t) (cb_tools b) with
     | Some tool =>
         Some (mkInvalid "homing.sequence"
           ("sequence homes the gripper motor but gripper `" +:+ tl_name tool +:+ "` has no [homing] section"))
     | None => None
     end].

(** ** What a valid bundle is *)

Lemma find_none {A} (f : A -> bool) l : List.find f l = None <-> Forall (fun x => f x = false) l.
Proof.
  induction l as [|x l IH]; cbn; [by split|]. rewrite Forall_cons. destruct (f x) eqn:E; [naive_solver|]. rewrite IH. tauto.
Qed.

Definition distinct_ids (tools : list ToolConfig) : Prop :=
  forall i j t u id, tools !! i = Some t -> tools !! j = Some u -> tl_can_tool_id t = Some id -> tl_can_tool_id u = Some id -> i = j.

Lemma has_id_spec id t : has_can_id id t = true <-> tl_can_tool_id t = Some id.
Proof. unfold has_can_id. destruct (tl_can_tool_id t) as [k|]; [rewrite Z.eqb_eq; naive_solver|naive_solver]. Qed.

Lemma ids_after tools : forall before, validate_ids before tools = None ->
  distinct_ids tools /\ forall t u id, t ∈ before -> u ∈ tools -> tl_can_tool_id t = Some id -> tl_can_tool_id u <> Some id.
Proof.
  induction tools as [|t tools IH]; intros before; cbn [validate_ids].
  { intros _. split; [by intros i j ? ? ? H|]. intros ? ? ? _ H. by apply elem_of_nil in H. }
  rewrite either_none. intros [Hc Ht]. apply IH in Ht as [Hd Hb].
  assert (Hnew : forall u id, u ∈ before -> tl_can_tool_id u = Some id -> tl_can_tool_id t <> Some id).
  { intros u id Hu Hid E. rewrite E in Hc. destruct (List.find (has_can_id id) before) eqn:Ef; [done|].
    apply find_none in Ef. apply (proj1 (Forall_forall _ _) Ef) in Hu. apply has_id_spec in Hid. congruence. }
  split.
  - intros [|i] [|j] a b id Ha Hb' Ea Eb; [done| | |f_equal; by eapply Hd]; exfalso.
    + injection Ha as ->. apply (Hb a b id); [apply elem_of_app; right; by apply list_elem_of_singleton|by eapply list_elem_of_lookup_2|done|done].
    + injection Hb' as ->. apply (Hb b a id); [apply elem_of_app; right; by apply list_elem_of_singleton|by eapply list_elem_of_lookup_2|done|done].
  - intros a u id Ha [->|Hu]%elem_of_cons Ea; [by eapply Hnew|]. apply (Hb a u id); [apply elem_of_app; by left|done|done].
Qed.

Lemma id_finds_its_tool b t id : distinct_ids (cb_tools b) -> id <> 0 -> t ∈ cb_tools b -> tl_can_tool_id t = Some id ->
  tool_by_can_id b id = Some t.
Proof.
  intros Hd Hz Ht Hid. unfold tool_by_can_id. apply Z.eqb_neq in Hz as ->. destruct (List.find (has_can_id id) (cb_tools b)) as [u|] eqn:E.
  - apply find_some in E as [Hu Eu]. apply has_id_spec in Eu. apply list_elem_of_In in Hu.
    apply list_elem_of_lookup in Hu as [j Hj]. apply list_elem_of_lookup in Ht as [i Hi]. pose proof (Hd i j t u id Hi Hj Hid Eu). by simplify_eq.
  - apply find_none in E. apply (proj1 (Forall_forall _ _) E) in Ht. apply has_id_spec in Hid. congruence.
Qed.

(** The steps left for a tool without a driver home no motor. *)
Lemma stripped_homes_no_motor t c : tl_driver t = None -> motor_homed (for_tool (Some (homing_tool t)) c) = false.
Proof.
  intros Hd. unfold for_tool, drives_gripper, homing_tool. cbn. rewrite Hd. cbn. unfold motor_homed. cbn [hc_sequence].
  apply not_any, Forall_forall. intros s Hs. apply list_elem_of_In, filter_In in Hs as [Hs _].
  apply in_map_iff in Hs as (s0 & <- & _). unfold homes_motor, strip_step. cbn. destruct (ss_home s0) as [h|]; [|done].
  by destruct (is_empty (hg_joints h)).
Qed.

Lemma driven_sequence t c : is_some (tl_driver t) = true -> for_tool (Some (homing_tool t)) c = c.
Proof. intros H. unfold for_tool, drives_gripper, homing_tool. cbn. by destruct (tl_driver t). Qed.

(** Any tool of a valid bundle can be fitted: with a robot, its tools and their bundle validated, the homing sequence as
    a tool runs it is valid too; where that sequence homes the motor of the gripper, the tool has a driver and valid homing
    parameters of its own; and a tool whose drive carries an id is the one the bundle names for it. *)
Lemma any_tool_can_be_fitted `{RealText} b t :
  validate_robot (cb_robot b) = None -> validate_bundle b = None -> t ∈ cb_tools b -> validate_tool t = None ->
  let fitted := for_tool (Some (homing_tool t)) (rc_homing (cb_robot b)) in
  validate_homing (length (rc_joints (cb_robot b))) fitted = None /\
  homed_joints (hc_sequence fitted) = homed_joints (hc_sequence (rc_homing (cb_robot b))) /\
  (motor_homed fitted = true -> is_some (tl_driver t) = true /\ exists h, tl_homing t = Some h /\ joint_homing_ok h) /\
  (forall id, tl_can_tool_id t = Some id -> tool_by_can_id b id = Some t).
Proof.
  intros Hr Hb Ht Hv fitted. apply validation_contract in Hr. pose proof (ok_homing _ Hr) as Hh. rewrite <- validate_homing_none in Hh.
  destruct (for_tool_stays_valid (Some (homing_tool t)) _ _ Hh) as [H1 H2]. split; [done|]. split; [done|].
  unfold validate_bundle in Hb. rewrite first_refusal_none, !Forall_cons in Hb. destruct Hb as (_ & Hi & _ & Hm & _).
  unfold validate_tool in Hv. rewrite first_refusal_none, !Forall_app, !Forall_cons in Hv. destruct Hv as ((_ & Hid & _ & Hp & Hho & _) & _).
  split.
  - intros Hf. destruct (is_some (tl_driver t)) eqn:Ed.
    + split; [done|]. subst fitted. rewrite driven_sequence in Hf by done.
      assert (Hc : Forall (fun t => motor_homed (rc_homing (cb_robot b)) && cannot_home t = false) (cb_tools b)).
      { apply find_none. destruct (List.find _ _); [done|done]. }
      apply (proj1 (Forall_forall _ _) Hc) in Ht. rewrite Hf in Ht. unfold cannot_home in Ht. rewrite Ed in Ht.
      destruct (tl_homing t) as [h|]; [|done]. exists h. split; [done|]. rewrite first_refusal_none, Forall_cons in Hho. apply (validate_joint_homing_none "homing"), Hho.
    + assert (En : tl_driver t = None) by (by destruct (tl_driver t)). subst fitted. pose proof (stripped_homes_no_motor t (rc_homing (cb_robot b)) En). congruence.
  - intros id Eid. apply id_finds_its_tool; [apply (ids_after _ [] Hi)| |done|done].
    intros ->. unfold validate_tool_id in Hid. by rewrite Eid in Hid.
Qed.

End Bundle.
