(* ===== verification/RobotExample.v ===== *)
(** * RobotExample: a small robot file

    Six joints homed on their sensors, the sections a file may leave out at their
    defaults, a bare flange and a gripper; the theorems about configurations at it. *)
From Stdlib Require Import SpecFloat.
From stdpp Require Import pretty.
From S2P Require Import Prelude F64 Wire Command WireError Convert HomingConfig HomingExample RobotSchema RobotValidate RobotProps ConfigBundle.

Local Open Scope string_scope.
Local Open Scope Z_scope.

#[local] Instance example_text : RealText := {| display := show_fixed0 |}.
#[local] Instance example_show : Show := {| show_f64 := fun _ _ => []; show_debug_str := fun s => s |}.

Definition milli (n : Z) : real := sf_div (num n) (num 1000).

Definition example_gains : Gains := mkGains (num 1) (num 1) (num 1) (num 1) (num 1) (num 1) (num 1).

(** Two radians either way; jogging at half speed. *)
Definition example_limits : JointLimits :=
  mkJointLimits false (num (-2)) (num 2) (num (-2)) (num 2) (num 2) (num 4) (num 20) (num 50) None
    (Some (mkModeLimits (num 1) (num 4) None (Some (num 25)))) None.

Definition example_joint (node : nat) : JointConfig :=
  mkJointConfig ("joint" +:+ pretty node) (Z.of_nat node) DT_Stepfoc (milli 100) (num 1000) 0 None None (num 5000) 100 14 (num 20) None
    (milli 900) 0 0 (num 0) example_gains [mkRippleHarmonic 1 (-40) 30] (Some 20) example_limits.

Definition example_bus (lost : real) : BusConfig :=
  mkBusConfig "can0" 1000000 100 100 65536 6 13 14 (milli 40) lost 32 3 default_config_resend_offsets_s default_open_retry_s
    (milli 10) WA_Idle (mkKtFetch (milli 10) 3 2) (mkScan 2 (milli 10)).

(** The last joint parks on its endstop. *)
Definition example_robot (lost : real) : RobotConfig :=
  mkRobotConfig [] default_gravity_scale
    (mkRobotSection "arm" (milli 4) (num 10) (replicate 6 (num 1)) "flange" KS_Auto)
    (map example_joint (seq 0 6)) (small_homing hall_joint) (example_bus lost)
    (mkProtocolConfig 5001 5002 "239.1.2.3" 50) io_default jog_defaults stream_defaults (Some timing_sim) limits_default
    (mkShutdownConfig true (milli 30) (num 15) (milli 250) None [5]) motion_default sim_default [].

Definition example_settle : SettleTimings := mkSettleTimings (milli 50) (milli 20) (num 5) (num 12) (num 2).
Definition example_kinematics : ToolKinematics := mkToolKinematics (num 0) (num 0) (num 0) (num 1) [] [].

Definition flange : ToolConfig := mkToolConfig "flange" None None None None [] example_kinematics.
Definition gripper : ToolConfig :=
  mkToolConfig "gripper" None
    (Some (mkGripperDriverConfig DT_Stepfoc (num 50) (milli 100) (num 800) 0 (num 5000) 100 (milli 10) example_gains example_settle))
    (Some 7) None [mkArmJointHomeOffset 5 (num 1)] example_kinematics.

Definition example_bundle : ConfigBundle := mkConfigBundle (example_robot (milli 200)) [flange; gripper] [].

Lemma validation_is_the_contract_witness : robot_ok (example_robot (milli 200)).
Proof. apply validation_is_the_contract. vm_compute. reflexivity. Defined.

Lemma valid_robot_moves_within_limits_witness :
  parks_on_endstop (example_robot (milli 200)) 5 = true /\
  exists v, safe_park_q (example_robot (milli 200)) !! 5%nat = Some v /\
    in_window v (jl_hard_min_rad example_limits, jl_hard_max_rad example_limits).
Proof.
  split; [reflexivity|].
  destruct (valid_robot_moves_within_limits (example_robot (milli 200)) 5 (example_joint 5)) as (_ & v & H1 & _ & H2 & _);
    [vm_compute; reflexivity|reflexivity|]. exists v. by split.
Defined.

(** Both outcomes: a window of fifty ticks, and one of none. *)
Lemma freshness_windows_last_witness :
  ticks (example_robot (milli 200)) (milli 200) = 50 /\ 1 <= ticks (example_robot (milli 200)) (milli 40) /\
  validate_robot (example_robot S754_nan) = None /\ ticks (example_robot S754_nan) S754_nan = 0.
Proof.
  split; [vm_compute; reflexivity|]. split; [|split; [vm_compute; reflexivity|reflexivity]].
  apply (freshness_windows_last (example_robot (milli 200))). vm_compute. reflexivity.
Defined.

Lemma any_tool_can_be_fitted_witness : tool_by_can_id example_bundle 7 = Some gripper /\
  validate_homing 6 (for_tool (Some (homing_tool flange)) (rc_homing (cb_robot example_bundle))) = None.
Proof.
  split.
  - refine (proj2 (proj2 (proj2 (any_tool_can_be_fitted example_bundle gripper _ _ _ _))) 7 eq_refl);
      [vm_compute; reflexivity..|apply list_elem_of_In; right; left; reflexivity|vm_compute; reflexivity].
  - refine (proj1 (any_tool_can_be_fitted example_bundle flange _ _ _ _));
      [vm_compute; reflexivity..|apply list_elem_of_In; left; reflexivity|vm_compute; reflexivity].
Defined.

(** Some files that are refused, and where. *)
Example refused_park : iv_field <$> validate_robot (example_robot (milli 1)) = Some "bus.lost_s".
Proof. vm_compute. reflexivity. Qed.
Example refused_group : is_multicast <$> parse_ipv4 "192.168.0.1" = Some false.
Proof. reflexivity. Qed.
Example refused_octet : parse_ipv4 "239.01.2.3" = None.
Proof. reflexivity. Qed.
Example refused_line :
  iv_field <$> validate_io (mkIoConfig [mkIoLine "a" 19] [mkIoLine "b" 5]) = Some "io.outputs[0].offset".
Proof. vm_compute. reflexivity. Qed.
