(* ===== verification/Client.v ===== *)
(** * Client: the transport of the client library
    (crates/par6-client/src/core.rs, error.rs)

    Request ids matched to replies, the retries of a roundtrip, the datagrams of a
    command, the completion log, the STATUS subscription and the wait for a command.
    A channel to a waiting caller is the caller's token; what is sent into one is
    appended to a history.  What the socket and the timers do is an argument. *)
From Stdlib Require Import SpecFloat.
From stdpp Require Import gmap.
From S2P Require Import Prelude F64 Wire Enums Command CommandCodec WireError Chunk Reply Status.

Inductive ClientError :=
| CE_Unreachable
| CE_Robot (e : WireError)
| CE_Decode (e : DecodeError)
| CE_Io
| CE_Closed
| CE_Invalid (why : bytes)
| CE_SessionChanged (index : Z)
| CE_ProtocolMismatch (daemon client : Z).

Definition UNCLAIMED_ERROR_PERIOD : Z := 1000000000.
Definition MIN_MTU : Z := 64.
Definition CHUNK_OVERHEAD : Z := 32.

Inductive Ack := Confirmed | Unconfirmed.

(** A finished command: success, detail, settle verdict. *)
Definition Completion : Type := bool * option WireError * option Z.

(** ** The state *)

Record Client := mkClient {
  cl_mtu : Z;
  cl_pending : gmap Z Z;
  cl_log : gmap Z Completion;
  cl_order : list Z;
  cl_waiters : gmap Z (list Z);
  cl_req_id : Z;
  cl_transfer_id : Z;
  cl_key_state : Z;
  cl_status : option Status;
  cl_received_at : option Z;
  cl_last_seq : option (Z * Z);
  cl_seq_gaps : Z;
  cl_unclaimed : gmap Z Z;
  cl_last_command_index : Z;
  cl_skew : option Z;
  cl_drop_pushes : bool;
  cl_closed : bool;
  (** The replies sent to requests, the completions sent to waits. *)
  cl_delivered : list (Z * Reply);
  cl_handed : list (Z * Completion);
}.

Definition client_eta (c : Client) : Client :=
  mkClient (cl_mtu c) (cl_pending c) (cl_log c) (cl_order c) (cl_waiters c) (cl_req_id c) (cl_transfer_id c) (cl_key_state c)
    (cl_status c) (cl_received_at c) (cl_last_seq c) (cl_seq_gaps c) (cl_unclaimed c) (cl_last_command_index c) (cl_skew c)
    (cl_drop_pushes c) (cl_closed c) (cl_delivered c) (cl_handed c).

Ltac put_client getter c v :=
  let t := eval unfold client_eta in (client_eta c) in
  lazymatch t with context T [getter c] => let t' := context T [v] in exact t' end.

Definition clput_pending (v : gmap Z Z) (c : Client) : Client := ltac:(put_client cl_pending c v).
Definition clput_log (v : gmap Z Completion) (c : Client) : Client := ltac:(put_client cl_log c v).
Definition clput_order (v : list Z) (c : Client) : Client := ltac:(put_client cl_order c v).
Definition clput_waiters (v : gmap Z (list Z)) (c : Client) : Client := ltac:(put_client cl_waiters c v).
Definition clput_req_id (v : Z) (c : Client) : Client := ltac:(put_client cl_req_id c v).
Definition clput_transfer_id (v : Z) (c : Client) : Client := ltac:(put_client cl_transfer_id c v).
Definition clput_key_state (v : Z) (c : Client) : Client := ltac:(put_client cl_key_state c v).
Definition clput_status (v : option Status) (c : Client) : Client := ltac:(put_client cl_status c v).
Definition clput_received_at (v : option Z) (c : Client) : Client := ltac:(put_client cl_received_at c v).
Definition clput_last_seq (v : option (Z * Z)) (c : Client) : Client := ltac:(put_client cl_last_seq c v).
Definition clput_seq_gaps (v : Z) (c : Client) : Client := ltac:(put_client cl_seq_gaps c v).
Definition clput_unclaimed (v : gmap Z Z) (c : Client) : Client := ltac:(put_client cl_unclaimed c v).
Definition clput_last_command_index (v : Z) (c : Client) : Client := ltac:(put_client cl_last_command_index c v).
Definition clput_skew (v : option Z) (c : Client) : Client := ltac:(put_client cl_skew c v).
Definition clput_closed (v : bool) (c : Client) : Client := ltac:(put_client cl_closed c v).
Definition clput_delivered (v : list (Z * Reply)) (c : Client) : Client := ltac:(put_client cl_delivered c v).
Definition clput_handed (v : list (Z * Completion)) (c : Client) : Client := ltac:(put_client cl_handed c v).

(** A client as [connect] makes it, from the clock. *)
Definition client_new (mtu seed : Z) : Client :=
  mkClient mtu ∅ ∅ [] ∅ (Z.lor (wrap 32 seed) 1) (wrap 32 seed) (Z.lor seed 1) None None None 0 ∅ (-1) None false false [] [].

Definition connect (mtu seed : Z) : result ClientError Client :=
  if mtu <? MIN_MTU
  then Err (CE_Invalid (str_bytes "mtu " ++ show_int mtu ++ str_bytes " is below the " ++ show_int MIN_MTU ++ str_bytes "-byte minimum"))
  else Ok (client_new mtu seed).

Definition close (c : Client) : Client :=
  if cl_closed c then c else clput_waiters ∅ (clput_pending ∅ (clput_closed true c)).

Definition last_command_index (c : Client) : option Z :=
  if cl_last_command_index c <? 0 then None else Some (cl_last_command_index c).

(** ** Ids, keys, datagrams *)

(** One id is taken per turn; [None] is out of turns. *)
Fixpoint next_req_id (fuel : nat) (c : Client) : option Z * Client :=
  match fuel with
  | O => (None, c)
  | S fuel =>
      let id := cl_req_id c in
      let c := clput_req_id (wrap 32 (id + 1)) c in
      if negb (id =? 0) && negb (bool_decide (is_Some (cl_pending c !! id))) then (Some id, c) else next_req_id fuel c
  end.

(** The xorshift step of [fresh_key]. *)
Definition xorshift (x : Z) : Z :=
  let n := Z.lxor x (wrap 64 (Z.shiftl x 13)) in
  let n := Z.lxor n (Z.shiftr n 7) in
  Z.lxor n (wrap 64 (Z.shiftl n 17)).

Definition fresh_key (c : Client) : Z * Client :=
  let n := xorshift (cl_key_state c) in (n, clput_key_state n c).

Definition chunk_size (mtu : Z) : nat := Z.to_nat (Z.max (saturating_sub mtu CHUNK_OVERHEAD) 1).

Definition datagrams (data : bytes) (req_id : Z) (c : Client) : list bytes * Client :=
  if blen data <=? cl_mtu c then ([data], c)
  else
    let transfer_id := cl_transfer_id c in
    (map encode_chunk (split_into_chunks req_id transfer_id data (chunk_size (cl_mtu c))),
     clput_transfer_id (wrap 32 (transfer_id + 1)) c).

Section Encode.
Context `{!Show}.

Definition encode_request (cmd : Command) (req_id : Z) : result ClientError bytes :=
  match encode_command cmd req_id [] with
  | (Ok _, buf) => Ok buf
  | (Err (Validation what why), _) =>
      Err (CE_Robot (make_error WE_CommValidationError UNATTRIBUTED [("detail"%string, decode_error_text (Validation what why))]))
  | (Err e, _) => Err (CE_Decode e)
  end.
End Encode.

(** ** A roundtrip *)

(** What became of a datagram: the closed flag is read before it is sent. *)
Inductive SendResult := SR_Sent | SR_Closed | SR_Io.
(** How a wait on the reply channel ended. *)
Inductive WaitResult := WR_Reply (r : Reply) | WR_Dropped | WR_Elapsed.

Section Roundtrip.
Variables (sends : nat -> SendResult) (waits : nat -> WaitResult).

(** What a roundtrip did so far: the datagrams handed to the socket, the waits. *)
Record Trace := mkTrace { tr_sent : list bytes; tr_sends : nat; tr_waits : nat }.

Fixpoint send_attempt (datagrams : list bytes) (t : Trace) : Trace * option ClientError :=
  match datagrams with
  | [] => (t, None)
  | d :: datagrams =>
      match sends (tr_sends t) with
      | SR_Closed => (mkTrace (tr_sent t) (S (tr_sends t)) (tr_waits t), Some CE_Closed)
      | SR_Io => (mkTrace (tr_sent t) (S (tr_sends t)) (tr_waits t), Some CE_Io)
      | SR_Sent => send_attempt datagrams (mkTrace (tr_sent t ++ [d]) (S (tr_sends t)) (tr_waits t))
      end
  end.

Definition wait_once (t : Trace) : Trace * WaitResult :=
  (mkTrace (tr_sent t) (tr_sends t) (S (tr_waits t)), waits (tr_waits t)).

(** The attempts left: each sends everything and waits; all but the last wait once
    more, backing off.  How long a wait lasts (its jitter is drawn with [fresh_key]) is
    in how it ends. *)
Fixpoint attempts_run (more_left : nat) (data : list bytes) (t : Trace) : Trace * result ClientError (option Reply) :=
  match more_left with
  | O => (t, Ok None)
  | S more =>
      match send_attempt data t with
      | (t, Some e) => (t, Err e)
      | (t, None) =>
          match wait_once t with
          | (t, WR_Reply r) => (t, Ok (Some r))
          | (t, WR_Dropped) => (t, Err CE_Closed)
          | (t, WR_Elapsed) =>
              match more with
              | O => (t, Ok None)
              | S _ =>
                  match wait_once t with
                  | (t, WR_Reply r) => (t, Ok (Some r))
                  | (t, WR_Dropped) => (t, Err CE_Closed)
                  | (t, WR_Elapsed) => attempts_run more data t
                  end
              end
          end
      end
  end.

Definition roundtrip (closed : bool) (data : list bytes) (attempts : nat) : Trace * result ClientError (option Reply) :=
  if closed then (mkTrace [] 0 0, Err CE_Closed) else attempts_run attempts data (mkTrace [] 0 0).
End Roundtrip.

(** What each class of command makes of a roundtrip. *)
Definition query_outcome (r : result ClientError (option Reply)) : result ClientError QueryResult :=
  match r with
  | Err e => Err e
  | Ok None => Err CE_Unreachable
  | Ok (Some (Rp_Error _ error)) => Err (CE_Robot error)
  | Ok (Some (Rp_Response _ result)) => Ok result
  | Ok (Some _) => Err CE_Unreachable
  end.

Definition system_outcome (r : result ClientError (option Reply)) : result ClientError Ack :=
  match r with
  | Err e => Err e
  | Ok None => Ok Unconfirmed
  | Ok (Some (Rp_Error _ error)) => Err (CE_Robot error)
  | Ok (Some _) => Ok Confirmed
  end.

Definition queued_outcome (r : result ClientError (option Reply)) (c : Client) : result ClientError (option Z) * Client :=
  match r with
  | Err e => (Err e, c)
  | Ok None => (Ok None, c)
  | Ok (Some (Rp_Error _ error)) => (Err (CE_Robot error), c)
  | Ok (Some (Rp_Ok _ (Some index))) => (Ok (Some index), clput_last_command_index (swrap 64 index) c)
  | Ok (Some _) => (Ok None, c)
  end.

(** ** The listeners *)

(** Drops the oldest completions until the log fits. *)
Fixpoint evict (fuel : nat) (c : Client) : Client :=
  match fuel with
  | O => c
  | S fuel =>
      if (COMPLETIONS_KEPT <? length (cl_order c))%nat then
        match cl_order c with
        | old :: order => evict fuel (clput_log (delete old (cl_log c)) (clput_order order c))
        | [] => c
        end
      else c
  end.

Definition record_completion (index : Z) (done : Completion) (c : Client) : Client :=
  let fresh := negb (bool_decide (is_Some (cl_log c !! index))) in
  let c := clput_log (<[index := done]> (cl_log c)) c in
  let c := if fresh then clput_order (cl_order c ++ [index]) c else c in
  let c := evict (length (cl_order c)) c in
  let woken := default [] (cl_waiters c !! index) in
  clput_handed (cl_handed c ++ map (fun w => (w, done)) woken) (clput_waiters (delete index (cl_waiters c)) c).

(** Whether the error is log_put is what changes. *)
Definition log_unclaimed (e : WireError) (now : Z) (c : Client) : Client :=
  match cl_unclaimed c !! we_code e with
  | Some last => if now - last <? UNCLAIMED_ERROR_PERIOD then c else clput_unclaimed (<[we_code e := now]> (cl_unclaimed c)) c
  | None => clput_unclaimed (<[we_code e := now]> (cl_unclaimed c)) c
  end.

Definition answer (req_id : Z) (r : Reply) (now : Z) (c : Client) : Client :=
  match cl_pending c !! req_id with
  | Some token => clput_delivered (cl_delivered c ++ [(token, r)]) (clput_pending (delete req_id (cl_pending c)) c)
  | None => match r with Rp_Error _ e => log_unclaimed e now c | _ => c end
  end.

(** One datagram of [reply_rx]. *)
Definition on_reply (data : bytes) (now : Z) (c : Client) : Client :=
  match decode_reply data with
  | Err _ => c
  | Ok (Rp_Complete index ok detail verdict) =>
      if cl_drop_pushes c then c else record_completion index (ok, detail, verdict) c
  | Ok (Rp_Ok req_id _ as r) | Ok (Rp_Error req_id _ as r) | Ok (Rp_Response req_id _ as r) => answer req_id r now c
  end.

Definition note_skew (daemon : option Z) (readable : bool) (c : Client) : Client :=
  let c := if readable then clput_skew None c else c in
  match daemon with
  | Some daemon => if negb (daemon =? PROTO_VERSION) && negb readable then clput_skew (Some daemon) c else c
  | None => c
  end.

(** A STATUS of the last session that is not newer than the last is old. *)
Definition stale_status (s : Status) (c : Client) : bool :=
  match cl_last_seq c with Some (session, prev) => (session =? st_session_id s) && (st_seq s <=? prev) | None => false end.

Definition restarts (s : Status) (c : Client) : bool :=
  match cl_last_seq c with Some (session, _) => negb (session =? st_session_id s) | None => false end.

(** The frames missed before this one. *)
Definition gap_before (s : Status) (c : Client) : Z :=
  match cl_last_seq c with
  | Some (session, prev) =>
      if (session =? st_session_id s) && (saturating_add 64 prev 1 <? st_seq s) then st_seq s - prev - 1 else 0
  | None => 0
  end.

Definition clear_completions (c : Client) : Client := clput_waiters ∅ (clput_order [] (clput_log ∅ c)).

Definition accept_status (s : Status) (now : Z) (c : Client) : Client :=
  if stale_status s c then c
  else
    let restarted := restarts s c in
    let c := clput_seq_gaps (wrap 64 (cl_seq_gaps c + gap_before s c)) c in
    let c := clput_last_seq (Some (st_session_id s, st_seq s)) c in
    let c := clput_status (Some s) (clput_received_at (Some now) c) in
    if restarted then clear_completions c else c.

(** One datagram of [status_rx]. *)
Definition on_status_frame (data : bytes) (now : Z) (c : Client) : Client :=
  match decode_status data with
  | Err _ => note_skew (peek_status_proto_version data) false c
  | Ok s => accept_status s now (note_skew (Some (st_proto_version s)) true c)
  end.

Definition protocol_mismatch (c : Client) : option (Z * Z) := (fun daemon => (daemon, PROTO_VERSION)) <$> cl_skew c.

(** ** Waiting for a command *)

(** [index as i64]: the wire carries the queue indexes signed. *)
Definition blocking_error (s : Status) (index : Z) : option WireError :=
  match st_error s with
  | None => None
  | Some err =>
      if swrap 64 index <? we_command_index err then None
      else if swrap 64 index <=? st_accepted_index s then Some err
      else None
  end.

(** What ends the wait on the status stream. *)
Definition other_session (session : option Z) (s : Status) : bool :=
  match session with Some s0 => negb (st_session_id s =? s0) | None => false end.

Definition wait_over (session : option Z) (index : Z) (s : Status) : bool :=
  other_session session s || (swrap 64 index <=? st_completed_index s) ||
  match blocking_error s index with Some _ => true | None => false end.

(** The race of the push against the status stream: who came first. *)
Inductive Race :=
| Push (done : Completion)
| Channel_closed
| Status_hit
| Status_missed.

(** The wait for the push in the grace period, then the question to the runtime. *)
Definition recover_completion (index : Z) (answer : result ClientError QueryResult) (c : Client) : option Completion * Client :=
  match answer with
  | Ok (Q_CommandCompletion _ true ok detail verdict) =>
      let done := (ok, detail, verdict) in (Some done, record_completion index done c)
  | _ => (None, c)
  end.

Definition race_completion (index : Z) (session : option Z) (first : Race) (grace : option Completion)
  (asked : result ClientError QueryResult) (c : Client) : result ClientError (option Completion) * Client :=
  match first with
  | Push done => (Ok (Some done), c)
  | Channel_closed =>
      match cl_status c with
      | Some s => if other_session session s then (Err (CE_SessionChanged index), c) else (Ok None, c)
      | None => (Ok None, c)
      end
  | Status_missed =>
      match protocol_mismatch c with
      | Some (daemon, client) => (Err (CE_ProtocolMismatch daemon client), c)
      | None => (Ok None, c)
      end
  | Status_hit =>
      let failed :=
        match cl_status c with
        | Some s =>
            if other_session session s then Some (CE_SessionChanged index)
            else CE_Robot <$> blocking_error s index
        | None => None
        end in
      match failed with
      | Some e => (Err e, c)
      | None =>
          match grace with
          | Some done => (Ok (Some done), c)
          | None => let '(done, c) := recover_completion index asked c in (Ok done, c)
          end
      end
  end.

Definition command_failed (index : Z) : WireError := mkWireError (swrap 64 index) 0 (str_bytes "Command failed") [] [] [].

(** What [wait_command] says of how the wait ended. *)
Definition wait_verdict (index : Z) (r : result ClientError (option Completion)) : result ClientError bool :=
  match r with
  | Err e => Err e
  | Ok None => Ok false
  | Ok (Some (true, _, _)) => Ok true
  | Ok (Some (false, Some detail, _)) => Err (CE_Robot detail)
  | Ok (Some (false, None, _)) => Err (CE_Robot (command_failed index))
  end.

(** The registration of a wait: the completion if it is log_put already. *)
Definition await_begin (index token : Z) (c : Client) : option Completion * Client :=
  match cl_log c !! index with
  | Some done => (Some done, c)
  | None => (None, clput_waiters (<[index := default [] (cl_waiters c !! index) ++ [token]]> (cl_waiters c)) c)
  end.

(** The end of a wait: the entries whose callers are gone are dropped. *)
Definition await_end (index : Z) (gone : Z -> bool) (c : Client) : Client :=
  match cl_waiters c !! index with
  | None => c
  | Some l =>
      match List.filter (fun w => negb (gone w)) l with
      | [] => clput_waiters (delete index (cl_waiters c)) c
      | l => clput_waiters (<[index := l]> (cl_waiters c)) c
      end
  end.

Definition command_verdict (index : Z) (c : Client) : option Z :=
  match cl_log c !! index with Some (_, _, v) => v | None => None end.

(** ** Events *)

Inductive ClientEvent :=
| Ev_Reply (data : bytes) (now : Z)
| Ev_Status (data : bytes) (now : Z)
| Ev_Request (req_id token : Z)
| Ev_Done (req_id : Z)
| Ev_Wait (index token : Z)
| Ev_Waited (index : Z) (gone : Z -> bool)
| Ev_Recovered (index : Z) (answer : result ClientError QueryResult)
| Ev_Close.

Definition client_step (c : Client) (e : ClientEvent) : Client :=
  match e with
  | Ev_Reply data now => on_reply data now c
  | Ev_Status data now => on_status_frame data now c
  | Ev_Request req_id token => clput_pending (<[req_id := token]> (cl_pending c)) c
  | Ev_Done req_id => clput_pending (delete req_id (cl_pending c)) c
  | Ev_Wait index token => snd (await_begin index token c)
  | Ev_Waited index gone => await_end index gone c
  | Ev_Recovered index answer => snd (recover_completion index answer c)
  | Ev_Close => close c
  end.

Definition client_run (c : Client) (es : list ClientEvent) : Client := fold_left client_step es c.
