(* ===== verification/ClientProps.v ===== *)
(** * ClientProps: what the client library promises

    The completion log is of the running session, bounded and in order; a wait is
    answered with the completion of the command it names; lost STATUS frames are
    counted exactly; a roundtrip resends the same datagrams a bounded number of times;
    a request id is never in use twice; every datagram fits the MTU. *)
From stdpp Require Import gmap sets.
From S2P Require Import Prelude F64 Wire Enums Command CommandCodec WireError Chunk Reply Status Client.

(** ** The completion log *)

(** What an event puts into the log. *)
Definition records (c : Client) (e : ClientEvent) : option (Z * Completion) :=
  match e with
  | Ev_Reply data _ =>
      match decode_reply data with
      | Ok (Rp_Complete index ok detail verdict) => if cl_drop_pushes c then None else Some (index, (ok, detail, verdict))
      | _ => None
      end
  | Ev_Recovered index (Ok (Q_CommandCompletion _ true ok detail verdict)) => Some (index, (ok, detail, verdict))
  | _ => None
  end.

(** The event that shows the runtime to have restarted. *)
Definition restart_event (c : Client) (e : ClientEvent) : bool :=
  match e with
  | Ev_Status data _ => match decode_status data with Ok s => restarts s c | Err _ => false end
  | _ => false
  end.

Record log_ok (c : Client) : Prop := mkLogOk {
  lg_order : NoDup (cl_order c);
  lg_bound : (length (cl_order c) <= COMPLETIONS_KEPT)%nat;
  lg_domain : forall i, i ∈ cl_order c <-> is_Some (cl_log c !! i);
}.

(** One entry is dropped at most, the oldest. *)
Lemma evict_fits fuel c : (length (cl_order c) <= COMPLETIONS_KEPT)%nat -> evict fuel c = c.
Proof. intros H. destruct fuel; cbn [evict]; [done|]. destruct (Nat.ltb_spec COMPLETIONS_KEPT (length (cl_order c))); [lia|done]. Qed.

Lemma evict_one fuel c old order : cl_order c = old :: order -> length order = COMPLETIONS_KEPT -> (0 < fuel)%nat ->
  evict fuel c = clput_log (delete old (cl_log c)) (clput_order order c).
Proof.
  intros Ho Hl Hf. destruct fuel as [|fuel]; [lia|]. cbn [evict]. rewrite Ho. cbn [length]. rewrite Hl.
  destruct (Nat.ltb_spec COMPLETIONS_KEPT (S COMPLETIONS_KEPT)); [|lia]. apply evict_fits. cbn [cl_order clput_log clput_order]. lia.
Qed.

Definition log_put (index : Z) (done : Completion) (c : Client) : Client :=
  let fresh := negb (bool_decide (is_Some (cl_log c !! index))) in
  let c := clput_log (<[index := done]> (cl_log c)) c in
  if fresh then clput_order (cl_order c ++ [index]) c else c.

Lemma record_log index done c : log_ok c ->
  cl_log (record_completion index done c) = cl_log (evict (length (cl_order (log_put index done c))) (log_put index done c)) /\
  cl_order (record_completion index done c) = cl_order (evict (length (cl_order (log_put index done c))) (log_put index done c)).
Proof. done. Qed.

Lemma log_put_order index done c : log_ok c ->
  cl_log (log_put index done c) = <[index := done]> (cl_log c) /\
  (cl_order (log_put index done c) = cl_order c /\ is_Some (cl_log c !! index) \/
   cl_order (log_put index done c) = cl_order c ++ [index] /\ cl_log c !! index = None).
Proof.
  intros _. unfold log_put. case_bool_decide as E; cbn; (split; [done|]); [by left|right]. split; [done|]. by apply eq_None_not_Some.
Qed.

Lemma log_put_ok index done c : log_ok c -> (length (cl_order (log_put index done c)) <= COMPLETIONS_KEPT)%nat -> log_ok (log_put index done c).
Proof.
  intros Hok Hl. destruct (log_put_order index done c Hok) as [El Eo]. destruct Hok as [H1 H2 H3]. constructor; [|done|].
  - destruct Eo as [[-> _]|[-> En]]; [done|]. apply NoDup_app. split; [done|]. split; [|apply NoDup_singleton].
    intros i Hi ->%list_elem_of_singleton. apply H3 in Hi. rewrite En in Hi. by destruct Hi.
  - intros i. rewrite El. destruct Eo as [[-> Es]|[-> En]]; rewrite ?elem_of_app, ?list_elem_of_singleton, H3;
      destruct (decide (index = i)) as [->|Hne]; rewrite ?lookup_insert_eq, ?lookup_insert_ne by done; naive_solver.
Qed.

Lemma record_ok index done c : log_ok c -> log_ok (record_completion index done c).
Proof.
  intros Hok. destruct (log_put_order index done c Hok) as [El Eo]. destruct (record_log index done c Hok) as [E1 E2].
  assert (Hcopy : forall c', log_ok c' -> cl_log (record_completion index done c) = cl_log c' ->
    cl_order (record_completion index done c) = cl_order c' -> log_ok (record_completion index done c)).
  { intros c' [H1 H2 H3] Ea Eb. constructor; by rewrite ?Ea, ?Eb. }
  destruct (Nat.le_gt_cases (length (cl_order (log_put index done c))) COMPLETIONS_KEPT) as [Hl|Hl].
  - rewrite evict_fits in E1, E2 by done. eapply Hcopy; [|exact E1|exact E2]. by apply log_put_ok.
  - pose proof Hok as [H1 H2 H3]. destruct Eo as [[Eo _]|[Eo En]]; rewrite Eo in Hl; [lia|]. rewrite length_app in Hl. cbn in Hl.
    destruct (cl_order c) as [|old order] eqn:Ec; [cbn in Hl; unfold COMPLETIONS_KEPT in Hl; lia|].
    cbn [app] in Eo. assert (Hlen : length (order ++ [index]) = COMPLETIONS_KEPT) by (rewrite length_app; cbn in *; lia).
    rewrite (evict_one _ _ old (order ++ [index]) Eo Hlen) in E1, E2 by (rewrite Eo; cbn; lia).
    cbn [cl_log cl_order clput_log clput_order] in E1, E2. rewrite El in E1.
    apply NoDup_cons in H1 as [Hold H1]. assert (Hne : index <> old).
    { intros ->. destruct (proj1 (H3 old) ltac:(by left)) as [d Hd]. congruence. }
    constructor; rewrite ?E1, ?E2; [|lia|].
    + apply NoDup_app. split; [done|]. split; [|apply NoDup_singleton]. intros i Hi ->%list_elem_of_singleton.
      destruct (proj1 (H3 index) ltac:(by right)) as [d Hd]. congruence.
    + intros i. rewrite elem_of_app, list_elem_of_singleton. specialize (H3 i). rewrite elem_of_cons in H3.
      destruct (decide (old = i)) as [->|Hi]; [rewrite lookup_delete_eq|rewrite lookup_delete_ne by done].
      * split; [intros [H| ->]; done|intros [? ?]; done].
      * destruct (decide (index = i)) as [->|Hi2]; rewrite ?lookup_insert_eq, ?lookup_insert_ne by done; naive_solver.
Qed.

(** An entry of the log after an event is what the event recorded, or was there. *)
Lemma record_entry index done c i d : log_ok c ->
  cl_log (record_completion index done c) !! i = Some d -> (i, d) = (index, done) \/ cl_log c !! i = Some d.
Proof.
  intros Hok H. destruct (record_log index done c Hok) as [E1 _]. rewrite E1 in H. clear E1.
  destruct (log_put_order index done c Hok) as [El Eo].
  assert (Hsub : cl_log (log_put index done c) !! i = Some d).
  { destruct (Nat.le_gt_cases (length (cl_order (log_put index done c))) COMPLETIONS_KEPT) as [Hl|Hl]; [by rewrite evict_fits in H|].
    destruct Hok as [_ H2 _]. destruct Eo as [[Eo _]|[Eo En]]; [rewrite Eo in Hl; lia|].
    destruct (cl_order c) as [|old order] eqn:Ec; [rewrite Eo in Hl; cbn in Hl; unfold COMPLETIONS_KEPT in Hl; lia|].
    cbn [app] in Eo. rewrite Eo in Hl. cbn in Hl. rewrite length_app in Hl. cbn in *.
    rewrite (evict_one _ _ old (order ++ [index]) Eo) in H; [|rewrite length_app; cbn; lia|rewrite Eo; cbn; lia].
    cbn in H. by apply lookup_delete_Some in H as [_ H]. }
  rewrite El in Hsub. apply lookup_insert_Some in Hsub as [[<- <-]|[_ Hsub]]; [by left|by right].
Qed.

(** ** What an event changes *)

(** The waits of a client, as pairs of command and token. *)
Definition waiting (c : Client) (i w : Z) : Prop := exists l, cl_waiters c !! i = Some l /\ w ∈ l.

Lemma evict_keeps fuel c : cl_waiters (evict fuel c) = cl_waiters c /\ cl_handed (evict fuel c) = cl_handed c /\
  cl_pending (evict fuel c) = cl_pending c /\ cl_delivered (evict fuel c) = cl_delivered c /\
  cl_last_seq (evict fuel c) = cl_last_seq c.
Proof.
  revert c. induction fuel as [|fuel IH]; intros c; cbn [evict]; [done|].
  destruct (COMPLETIONS_KEPT <? length (cl_order c))%nat; [|done]. destruct (cl_order c); [done|].
  destruct (IH (clput_log (delete z (cl_log c)) (clput_order l c))) as (-> & -> & -> & -> & ->). done.
Qed.

Lemma record_keeps index done c :
  cl_waiters (record_completion index done c) = delete index (cl_waiters c) /\
  cl_handed (record_completion index done c) = cl_handed c ++ map (fun w => (w, done)) (default [] (cl_waiters c !! index)) /\
  cl_pending (record_completion index done c) = cl_pending c /\
  cl_delivered (record_completion index done c) = cl_delivered c /\
  cl_last_seq (record_completion index done c) = cl_last_seq c.
Proof.
  unfold record_completion. set (c0 := clput_log (<[index:=done]> (cl_log c)) c).
  set (c1 := if negb (bool_decide (is_Some (cl_log c !! index))) then clput_order (cl_order c0 ++ [index]) c0 else c0).
  destruct (evict_keeps (length (cl_order c1)) c1) as (E1 & E2 & E3 & E4 & E5).
  cbn [cl_waiters cl_handed cl_pending cl_delivered cl_last_seq clput_waiters clput_handed].
  rewrite E1, E2, E3, E4, E5. subst c1 c0. by destruct (negb _).
Qed.

(** The parts of the state a change of the others keeps. *)
Definition same_waits (c c' : Client) : Prop := cl_waiters c' = cl_waiters c /\ cl_handed c' = cl_handed c.
Definition same_log (c c' : Client) : Prop := cl_log c' = cl_log c /\ cl_order c' = cl_order c.
Definition same_requests (c c' : Client) : Prop := cl_pending c' = cl_pending c /\ cl_delivered c' = cl_delivered c.

Lemma note_skew_keeps d r c : same_waits c (note_skew d r c) /\ same_log c (note_skew d r c) /\
  same_requests c (note_skew d r c) /\ cl_last_seq (note_skew d r c) = cl_last_seq c /\ cl_seq_gaps (note_skew d r c) = cl_seq_gaps c.
Proof. unfold note_skew. destruct d as [d|], r; cbn; try done; by destruct (d =? PROTO_VERSION). Qed.

Lemma log_unclaimed_keeps e now c : same_waits c (log_unclaimed e now c) /\ same_log c (log_unclaimed e now c) /\
  same_requests c (log_unclaimed e now c) /\ cl_last_seq (log_unclaimed e now c) = cl_last_seq c.
Proof. unfold log_unclaimed. destruct (cl_unclaimed c !! _) as [l|]; [destruct (now - l <? _)|]; done. Qed.

(** A STATUS that is accepted without a restart, a STATUS that shows one. *)
Lemma status_keeps s now c : restarts s c = false -> same_waits c (accept_status s now c) /\ same_log c (accept_status s now c).
Proof. unfold accept_status. intros ->. by destruct (stale_status s c). Qed.

Lemma restarts_fresh s c : restarts s c = true -> stale_status s c = false.
Proof. unfold restarts, stale_status. destruct (cl_last_seq c) as [[session prev]|]; [|done]. by destruct (session =? _). Qed.

Lemma status_clears s now c : restarts s c = true ->
  cl_log (accept_status s now c) = ∅ /\ cl_order (accept_status s now c) = [] /\ cl_waiters (accept_status s now c) = ∅ /\
  cl_handed (accept_status s now c) = cl_handed c.
Proof. intros H. unfold accept_status. by rewrite (restarts_fresh s c H), H. Qed.

Lemma status_requests s now c : same_requests c (accept_status s now c).
Proof. unfold accept_status. destruct (stale_status s c); [done|]. by destruct (restarts s c). Qed.

(** Every event records one completion, shows a restart, or leaves the log alone and
    adds no wait but the one it is. *)
Definition untouched (c c' : Client) (e : ClientEvent) : Prop :=
  same_log c c' /\ cl_handed c' = cl_handed c /\ (forall i w, waiting c' i w -> waiting c i w \/ e = Ev_Wait i w).

Definition cleared (c c' : Client) : Prop :=
  cl_log c' = ∅ /\ cl_order c' = [] /\ cl_waiters c' = ∅ /\ cl_handed c' = cl_handed c.

Lemma untouched_same c c' e : same_log c c' -> same_waits c c' -> untouched c c' e.
Proof. intros Hl [Hw Hh]. split_and!; [done..|]. intros i w (l & H & Hin). left. exists l. by rewrite <- Hw. Qed.

Lemma step_restart c e : restart_event c e = true -> records c e = None /\ cleared c (client_step c e).
Proof.
  destruct e as [| data now | | | | | |]; try done. cbn [restart_event records client_step]. intros H. split; [done|].
  unfold on_status_frame. destruct (decode_status data) as [s|]; [|done].
  destruct (note_skew_keeps (Some (st_proto_version s)) true c) as ([_ Hh] & _ & _ & Hs & _).
  destruct (status_clears s now (note_skew (Some (st_proto_version s)) true c)) as (E1 & E2 & E3 & E4).
  { unfold restarts in *. by rewrite Hs. }
  split_and!; [done..|congruence].
Qed.

Lemma step_records c e i d : records c e = Some (i, d) -> client_step c e = record_completion i d c.
Proof.
  destruct e as [data now| | | | | | index ans|]; try done; cbn [records client_step].
  - unfold on_reply. destruct (decode_reply data) as [[| | |]|]; try done. by destruct (cl_drop_pushes c); intros [= <- <-].
  - unfold recover_completion. destruct ans as [[]|]; try done. by destruct finished; intros [= <- <-].
Qed.

Lemma await_end_waits index gone c i w : waiting (await_end index gone c) i w -> waiting c i w.
Proof.
  unfold await_end, waiting. destruct (cl_waiters c !! index) as [l|] eqn:El; [|done].
  assert (Hsub : forall x, x ∈ List.filter (fun w => negb (gone w)) l -> x ∈ l).
  { intros x. rewrite !list_elem_of_In. intros [H _]%filter_In. done. }
  destruct (List.filter _ l) as [|w0 l0] eqn:Ef; cbn; intros (l' & H & Hin).
  - apply lookup_delete_Some in H as [_ H]. by exists l'.
  - apply lookup_insert_Some in H as [[<- <-]|[_ H]]; [exists l; split; [done|by apply Hsub]|by exists l'].
Qed.

Lemma step_untouched c e : records c e = None -> restart_event c e = false -> untouched c (client_step c e) e.
Proof.
  destruct e as [data now|data now|req token|req|index token|index gone|index ans|]; cbn [records restart_event client_step]; intros Hr Hs.
  - unfold on_reply. destruct (decode_reply data) as [r|]; [|by apply untouched_same].
    assert (Ha : forall req r, untouched c (answer req r now c) (Ev_Reply data now)).
    { intros req r'. unfold answer. destruct (cl_pending c !! req); [by apply untouched_same|]. destruct r'; try by apply untouched_same.
      destruct (log_unclaimed_keeps error now c) as (? & ? & _). by apply untouched_same. }
    destruct r; try apply Ha. destruct (cl_drop_pushes c); [by apply untouched_same|done].
  - unfold on_status_frame. destruct (decode_status data) as [s|].
    + destruct (note_skew_keeps (Some (st_proto_version s)) true c) as ([Ha Hb] & [Hc Hd] & _ & Hq & _).
      destruct (status_keeps s now (note_skew (Some (st_proto_version s)) true c)) as [[He Hf] [Hg Hh]].
      { unfold restarts in *. by rewrite Hq. }
      apply untouched_same; split; congruence.
    + destruct (note_skew_keeps (peek_status_proto_version data) false c) as (? & ? & _). by apply untouched_same.
  - by apply untouched_same.
  - by apply untouched_same.
  - unfold await_begin. destruct (cl_log c !! index); [by apply untouched_same|]. cbn [snd]. split_and!; [done..|].
    intros i w (l & H & Hin). cbn in H. apply lookup_insert_Some in H as [[<- <-]|[_ H]]; [|left; by exists l].
    apply elem_of_app in Hin as [Hin| ->%list_elem_of_singleton]; [left|by right].
    destruct (cl_waiters c !! index) as [l|] eqn:El; [by exists l|by apply not_elem_of_nil in Hin].
  - assert (Hk : same_log c (await_end index gone c) /\ cl_handed (await_end index gone c) = cl_handed c).
    { unfold await_end. destruct (cl_waiters c !! index); [|done]. by destruct (List.filter _ _). }
    destruct Hk. split_and!; [done..|]. intros i w H2. left. by eapply await_end_waits.
  - unfold recover_completion. destruct ans as [[]|]; try by apply untouched_same. destruct finished; [done|by apply untouched_same].
  - unfold close. destruct (cl_closed c); [by apply untouched_same|]. split_and!; [done..|].
    intros i w (l & H & _). cbn in H. by rewrite lookup_empty in H.
Qed.

(** ** The history of a session *)

(** No event of the list shows a restart. *)
Fixpoint same_session (c : Client) (es : list ClientEvent) : bool :=
  match es with [] => true | e :: es => negb (restart_event c e) && same_session (client_step c e) es end.

Lemma client_run_snoc c es e : client_run c (es ++ [e]) = client_step (client_run c es) e.
Proof. unfold client_run. by rewrite fold_left_app. Qed.

Lemma session_snoc c es e :
  same_session c (es ++ [e]) = same_session c es && negb (restart_event (client_run c es) e).
Proof.
  revert c. induction es as [|e0 es IH]; intros c; cbn; [by destruct (restart_event c e)|].
  rewrite IH. cbn. by rewrite andb_assoc.
Qed.

(** An event of the history that was [what], and everything since is of its session. *)
Definition since (what : Client -> ClientEvent -> Prop) (c : Client) (es : list ClientEvent) : Prop :=
  exists pre e post, es = pre ++ e :: post /\ what (client_run c pre) e /\
    same_session (client_step (client_run c pre) e) post = true.

Definition recorded (i : Z) (d : Completion) (c : Client) (e : ClientEvent) : Prop := records c e = Some (i, d).
Definition began (i w : Z) (_ : Client) (e : ClientEvent) : Prop := e = Ev_Wait i w.

(** The history of a client whose every change is one of its events. *)
Lemma since_here what c es e : what (client_run c es) e -> since what c (es ++ [e]).
Proof. intros H. by exists es, e, []. Qed.

Lemma since_later what c es e : restart_event (client_run c es) e = false -> since what c es -> since what c (es ++ [e]).
Proof.
  intros Hr (pre & e0 & post & -> & Hw & Hs). exists pre, e0, (post ++ [e]). rewrite <- app_assoc. cbn. split_and!; [done..|].
  rewrite session_snoc, Hs. cbn. replace (client_run _ post) with (client_run c (pre ++ e0 :: post)); [by rewrite Hr|].
  unfold client_run. by rewrite fold_left_app.
Qed.

(** Where a completion handed to a wait came from. *)
Definition handed_from (c : Client) (es : list ClientEvent) (w : Z) (d : Completion) : Prop :=
  exists i pre e post, es = pre ++ e :: post /\ recorded i d (client_run c pre) e /\ since (began i w) c pre.

Lemma handed_later c es e w d : handed_from c es w d -> handed_from c (es ++ [e]) w d.
Proof. intros (i & pre & e0 & post & -> & H). exists i, pre, e0, (post ++ [e]). by rewrite <- app_assoc. Qed.

Record history_ok (c : Client) (es : list ClientEvent) : Prop := mkHistory {
  hi_log : log_ok (client_run c es);
  hi_entries : forall i d, cl_log (client_run c es) !! i = Some d -> since (recorded i d) c es;
  hi_waits : forall i w, waiting (client_run c es) i w -> since (began i w) c es;
  hi_handed : forall w d, (w, d) ∈ cl_handed (client_run c es) -> handed_from c es w d;
}.

Lemma history_new mtu seed : history_ok (client_new mtu seed) [].
Proof.
  constructor; cbn.
  - constructor; cbn; [constructor|unfold COMPLETIONS_KEPT; lia|]. intros i. rewrite lookup_empty. split; [by intros ?%not_elem_of_nil|by intros [? ?]].
  - intros i d. by rewrite lookup_empty.
  - intros i w (l & H & _). cbn in H. by rewrite lookup_empty in H.
  - by intros w d ?%not_elem_of_nil.
Qed.

Lemma history_snoc c es e : history_ok c es -> history_ok c (es ++ [e]).
Proof.
  intros [H1 H2 H3 H4]. set (cc := client_run c es) in *.
  destruct (records cc e) as [[i d]|] eqn:Er.
  - pose proof (step_records cc e i d Er) as Es. assert (Hr : restart_event cc e = false).
    { destruct (restart_event cc e) eqn:E; [|done]. destruct (step_restart cc e E) as [E2 _]. congruence. }
    destruct (record_keeps i d cc) as (Ew & Eh & _). constructor; rewrite ?client_run_snoc; fold cc; rewrite Es.
    + by apply record_ok.
    + intros i' d' H. destruct (record_entry i d cc i' d' H1 H) as [[= -> ->]|Ho]; [by apply since_here|].
      apply since_later; [done|by apply H2].
    + intros i' w (l & H & Hin). rewrite Ew in H. apply lookup_delete_Some in H as [_ H].
      apply since_later; [done|]. apply H3. by exists l.
    + intros w d'. rewrite Eh. intros [Hin|Hin]%elem_of_app; [by apply handed_later, H4|].
      apply list_elem_of_In, in_map_iff in Hin as (w' & [= -> ->] & Hin). apply list_elem_of_In in Hin.
      exists i, es, e, []. split_and!; [done..|]. apply H3. unfold waiting. fold cc.
      destruct (cl_waiters cc !! i) as [l|]; [by exists l|by apply not_elem_of_nil in Hin].
  - destruct (restart_event cc e) eqn:Hr.
    + destruct (step_restart cc e Hr) as [_ (E1 & E2 & E3 & E4)]. constructor; rewrite ?client_run_snoc; fold cc.
      * constructor; rewrite ?E1, ?E2; [constructor|cbn; lia|].
        intros i. rewrite lookup_empty. split; [by intros ?%not_elem_of_nil|by intros [? ?]].
      * intros i d. by rewrite E1, lookup_empty.
      * intros i w (l & H & _). by rewrite E3, lookup_empty in H.
      * intros w d. rewrite E4. intros H. by apply handed_later, H4.
    + destruct (step_untouched cc e Er Hr) as ([E1 E2] & E3 & E4). constructor; rewrite ?client_run_snoc; fold cc.
      * destruct H1 as [Ha Hb Hc]. constructor; by rewrite ?E1, ?E2.
      * intros i d. rewrite E1. intros H. apply since_later; [done|by apply H2].
      * intros i w H. destruct (E4 i w H) as [Ho| ->]; [apply since_later; [done|by apply H3]|by apply since_here].
      * intros w d. rewrite E3. intros H. by apply handed_later, H4.
Qed.

(** C18: whatever happens to a client, the completions it holds and hands out are of
    the runtime it talks to: the log keeps at most its bound, each command once, and
    every entry was recorded by a push or an answer of the running session; a caller
    that waits is handed a completion only of the command it waits for, recorded
    after its wait began and before any restart of the runtime. *)
Theorem completions_are_of_the_session mtu seed es : history_ok (client_new mtu seed) es.
Proof. induction es as [|e es IH] using rev_ind; [apply history_new|by apply history_snoc]. Qed.

(** ** Lost STATUS frames *)

(** What a run of STATUS frames is to the client: how many it takes. *)
Fixpoint statuses_run (c : Client) (ss : list (Status * Z)) : Client * Z :=
  match ss with
  | [] => (c, 0)
  | (s, now) :: ss =>
      let '(c', n) := statuses_run (accept_status s now c) ss in
      (c', if stale_status s c then n else 1 + n)
  end.

Definition of_session (session : Z) (s : Status) : Prop := st_session_id s = session /\ 0 <= st_seq s < 2 ^ 63.

Lemma accept_in_session session prev s now c : of_session session s -> 0 <= prev < 2 ^ 63 -> 0 <= cl_seq_gaps c ->
  cl_seq_gaps c + (st_seq s - prev) < 2 ^ 64 -> cl_last_seq c = Some (session, prev) -> prev < st_seq s ->
  let c' := accept_status s now c in
  stale_status s c = false /\ cl_last_seq c' = Some (session, st_seq s) /\ cl_seq_gaps c' = cl_seq_gaps c + (st_seq s - prev - 1).
Proof.
  intros [Hs Hq] Hp Hg Hb Hl Hlt. unfold accept_status, stale_status, restarts, gap_before. rewrite Hl, Hs, Z.eqb_refl.
  destruct (Z.leb_spec (st_seq s) prev); [lia|]. cbn [andb negb cl_last_seq cl_seq_gaps clput_status clput_received_at clput_last_seq clput_seq_gaps].
  split_and!; [done..|]. unfold saturating_add, wrap. change (2 ^ 64) with 18446744073709551616 in *. change (2 ^ 63) with 9223372036854775808 in *.
  destruct (Z.ltb_spec (Z.min (prev + 1) (18446744073709551616 - 1)) (st_seq s)); rewrite Z.mod_small; lia.
Qed.

(** Within a session the client counts lost STATUS frames exactly: over any run of
    frames, in any order and with repeats, those it took and those it counts as lost
    add up to how far the sequence number of the newest one moved. *)
Lemma lost_frames_are_counted session ss c prev :
  cl_last_seq c = Some (session, prev) -> 0 <= prev < 2 ^ 63 -> Forall (fun p => of_session session (fst p)) ss ->
  0 <= cl_seq_gaps c < 2 ^ 63 ->
  exists newest, cl_last_seq (fst (statuses_run c ss)) = Some (session, newest) /\
    prev <= newest /\ Forall (fun p => st_seq (fst p) <= newest) ss /\
    cl_seq_gaps (fst (statuses_run c ss)) - cl_seq_gaps c + snd (statuses_run c ss) = newest - prev.
Proof.
  intros Hl Hp Hss [Hg Hg2]. assert (Hb : cl_seq_gaps c - prev < 2 ^ 63) by lia. clear Hg2.
  revert c prev Hl Hp Hg Hb. induction Hss as [|[s now] ss Hs Hss IH]; intros c prev Hl Hp Hg Hb; cbn [statuses_run].
  { exists prev. cbn. split_and!; [done|lia|constructor|lia]. }
  cbn [fst] in Hs. destruct (Z.le_gt_cases (st_seq s) prev) as [Hold|Hnew].
  - assert (Hst : stale_status s c = true).
    { unfold stale_status. rewrite Hl. destruct Hs as [-> _]. rewrite Z.eqb_refl. by apply Z.leb_le. }
    assert (Ha : accept_status s now c = c) by (unfold accept_status; by rewrite Hst). rewrite Ha, Hst.
    destruct (IH c prev Hl Hp Hg Hb) as (n & H1 & H2 & H3 & H4). destruct (statuses_run c ss) as [c' k]. exists n.
    split_and!; [done|done| |done]. constructor; [cbn; lia|done].
  - assert (Hbb : cl_seq_gaps c + (st_seq s - prev) < 2 ^ 64).
    { destruct Hs as [_ [_ Hq]]. change (2 ^ 63) with 9223372036854775808 in *. change (2 ^ 64) with 18446744073709551616. lia. }
    destruct (accept_in_session session prev s now c Hs Hp Hg Hbb Hl Hnew) as (Hst & El & Eg). rewrite Hst.
    destruct (IH (accept_status s now c) (st_seq s) El) as (n & H1 & H2 & H3 & H4); [apply Hs|lia..|].
    destruct (statuses_run (accept_status s now c) ss) as [c' k]. cbn [fst snd] in *. exists n.
    split_and!; [done|lia| |lia]. constructor; [done|done].
Qed.

(** ** The datagrams of a command *)

Lemma blen_w_uint v : 0 <= v -> blen (w_uint v) <= if v <? 2 ^ 16 then 3 else if v <? 2 ^ 32 then 5 else 9.
Proof.
  intros Hv. unfold w_uint. change (2 ^ 16) with 65536. change (2 ^ 32) with 4294967296.
  destruct (Z.ltb_spec v 0x80), (Z.leb_spec v 0xFF), (Z.leb_spec v 0xFFFF), (Z.leb_spec v 0xFFFFFFFF), (Z.ltb_spec v 65536),
    (Z.ltb_spec v 4294967296); try lia; rewrite ?blen_cons, ?blen_be; change (blen []) with 0; lia.
Qed.

Lemma blen_w_bin b : blen (w_bin b) <= 5 + blen b.
Proof.
  unfold w_bin. rewrite blen_app. destruct (blen b <=? 0xFF); [rewrite !blen_cons; change (blen []) with 0; lia|].
  destruct (blen b <=? 0xFFFF); rewrite blen_cons, blen_be; lia.
Qed.

(** The envelope of a chunk takes less than what the client reserves for it. *)
Lemma blen_encode_chunk c : wt_Chunk c = true -> blen (encode_chunk c) <= CHUNK_OVERHEAD + blen (ch_data c).
Proof.
  unfold wt_Chunk, is_uint, encode_chunk, CHUNK_OVERHEAD. rewrite !andb_true_iff, !Z.leb_le, !Z.ltb_lt.
  intros (((((Ha & Hb) & Hc) & Hd) & He) & Hf). rewrite !blen_app. pose proof (blen_w_bin (ch_data c)).
  pose proof (blen_w_uint (ch_req_id c) ltac:(lia)) as L1. pose proof (blen_w_uint (ch_transfer_id c) ltac:(lia)) as L2.
  pose proof (blen_w_uint (ch_index c) ltac:(lia)) as L3. pose proof (blen_w_uint (ch_total c) ltac:(lia)) as L4.
  change (2 ^ 32) with 4294967296 in *. change (2 ^ 16) with 65536 in *. change (blen (w_array 6)) with 1. change (blen (w_uint (wire MT_Chunk))) with 1.
  repeat match goal with H : _ <= (if ?a <? ?b then _ else _) |- _ => destruct (Z.ltb_spec a b) end; lia.
Qed.

Lemma pieces_go_fit fuel k l : Forall (fun p => (length p <= k)%nat) (pieces_go fuel k l).
Proof.
  revert l. induction fuel as [|fuel IH]; intros [|b l]; cbn [pieces_go]; try constructor; [|apply IH].
  rewrite length_take. lia.
Qed.

Lemma pieces_fit k l : Forall (fun p => (length p <= k)%nat) (pieces k l).
Proof. destruct l as [|b l]; [by repeat constructor; cbn; lia|apply pieces_go_fit]. Qed.

Lemma numbered_piece ps i p : In (i, p) (numbered ps) -> p ∈ ps.
Proof. intros [_ H]%numbered_in. by eapply list_elem_of_lookup_2. Qed.

Lemma numbered_lt ps i p : In (i, p) (numbered ps) -> 0 <= i < Z.of_nat (length ps).
Proof. intros [Hi H]%numbered_in. apply lookup_lt_Some in H. lia. Qed.

Lemma split_nodup req id l k : (0 < k)%nat -> Z.of_nat (length (pieces k l)) <= 65535 -> NoDup (split_into_chunks req id l k).
Proof.
  intros Hk Hn. unfold split_into_chunks. cbv zeta. apply NoDup_alt. intros i j c Hi Hj.
  rewrite list_lookup_imap in Hi, Hj. destruct (pieces k l !! i) eqn:E1, (pieces k l !! j) eqn:E2; try done.
  apply lookup_lt_Some in E1, E2. cbn in Hi, Hj. injection Hi as Hi. subst c. injection Hj as H _. revert H.
  unfold wrap. change (2 ^ 16) with 65536. rewrite !Z.mod_small by lia. lia.
Qed.

(** The chunks a command is split into are well formed and fit the datagram. *)
Lemma split_fits req id l mtu c : MIN_MTU <= mtu -> is_uint 32 req = true -> is_uint 32 id = true ->
  blen l <= MAX_TRANSFER_BYTES -> Z.of_nat (length (pieces (chunk_size mtu) l)) <= 65535 ->
  In c (split_into_chunks req id l (chunk_size mtu)) -> wt_Chunk c = true /\ blen (encode_chunk c) <= mtu.
Proof.
  unfold MIN_MTU. intros Hm Hr Hi Hl Hn Hin. assert (Hk : Z.of_nat (chunk_size mtu) = mtu - 32).
  { unfold chunk_size, saturating_sub, CHUNK_OVERHEAD. lia. }
  apply split_in in Hin as (i & p & Hin & ->); [|lia|done].
  pose proof (numbered_lt _ _ _ Hin) as Hlt. apply numbered_piece in Hin.
  pose proof (proj1 (List.Forall_forall _ _) (pieces_fit (chunk_size mtu) l) p (proj1 (list_elem_of_In _ _) Hin)) as Hp. cbn in Hp.
  assert (Hb : blen p <= blen l).
  { rewrite <- (pieces_concat (chunk_size mtu) l) by lia. unfold blen. apply inj_le. apply list_elem_of_split in Hin as (l1 & l2 & ->).
    rewrite concat_app, length_app. cbn. rewrite length_app. lia. }
  assert (Hw : wt_Chunk (mkChunk req id i (Z.of_nat (length (pieces (chunk_size mtu) l))) p) = true).
  { unfold wt_Chunk. cbn [ch_req_id ch_transfer_id ch_index ch_total ch_data]. rewrite Hr, Hi. unfold is_uint, MAX_TRANSFER_BYTES in *.
    pose proof (blen_nonneg p). change (2 ^ 16) with 65536. change (2 ^ 32) with 4294967296.
    rewrite !andb_true_iff, !Z.leb_le, !Z.ltb_lt. lia. }
  split; [done|]. pose proof (blen_encode_chunk _ Hw) as He. cbn [ch_data] in He. unfold CHUNK_OVERHEAD, blen in *. lia.
Qed.

Lemma push_all_app r l1 l2 : push_all r (l1 ++ l2) =
  let '(r1, os1) := push_all r l1 in let '(r2, os2) := push_all r1 l2 in (r2, os1 ++ os2).
Proof.
  revert r. induction l1 as [|[c now] l1 IH]; intros r; cbn; [by destruct (push_all r l2)|].
  destruct (push r c now) as [r1 o]. rewrite IH. destruct (push_all r1 l1) as [r2 os]. by destruct (push_all r2 l2).
Qed.

(** C19: a command of any size reaches the runtime.  Every datagram a command is sent
    in fits the configured MTU; a command that takes more than one is taken apart into
    chunks that decode, and a receiver that gets them in any order, each at any
    instant, answers all but the last with nothing and the last with exactly the
    bytes that were encoded. *)
Theorem datagrams_fit_and_reassemble c data req :
  MIN_MTU <= cl_mtu c -> is_uint 32 req = true -> is_uint 32 (cl_transfer_id c) = true ->
  blen data <= MAX_TRANSFER_BYTES -> Z.of_nat (length (pieces (chunk_size (cl_mtu c)) data)) <= 65535 ->
  cl_mtu c < 2 ^ 63 ->
  let ds := fst (datagrams data req c) in
  Forall (fun d => blen d <= cl_mtu c) ds /\
  (ds = [data] \/
   exists cs, Forall2 (fun d ch => decode_chunk d = Ok ch) ds cs /\
     forall r deliveries, map fst deliveries ≡ₚ cs ->
       ra_transfers r !! cl_transfer_id c = None -> (in_flight r < MAX_TRANSFERS_IN_FLIGHT)%nat ->
       exists os, snd (push_all r deliveries) = os ++ [Ok (Some (mkAssembled req (cl_transfer_id c) data))] /\
         Forall (fun o => o = Ok None) os).
Proof.
  intros Hm Hr Hi Hl Hn Hm2. cbv zeta. unfold datagrams. destruct (Z.leb_spec (blen data) (cl_mtu c)); cbn [fst].
  { split; [by repeat constructor|by left]. }
  set (id := cl_transfer_id c) in *. set (k := chunk_size (cl_mtu c)) in *. set (cs := split_into_chunks req id data k).
  assert (Hfit : forall ch, In ch cs -> wt_Chunk ch = true /\ blen (encode_chunk ch) <= cl_mtu c).
  { intros ch. by apply split_fits. }
  assert (Hk : (0 < k)%nat) by (unfold k, chunk_size; lia).
  split; [|right; exists cs; split].
  - apply Forall_map, List.Forall_forall. intros ch Hc. by apply Hfit.
  - apply Forall2_fmap_l, Forall_Forall2_diag, List.Forall_forall. intros ch [Hw Hb]%Hfit.
    apply encode_decode_chunk; [done|]. unfold slice_ok. lia.
  - intros r deliveries Hperm Hfresh Hroom. pose proof (split_nodup req id data k Hk Hn) as Hnd. fold cs in Hnd.
    rewrite <- Hperm in Hnd. destruct deliveries as [|[lastc now] pre _] using rev_ind.
    { pose proof (Permutation_length Hperm) as Hlen. unfold cs, split_into_chunks in Hlen. cbn in Hlen. rewrite length_imap in Hlen.
      pose proof (pieces_nonempty k data). lia. }
    rewrite map_app in Hperm, Hnd. cbn [map fst] in Hperm, Hnd. apply NoDup_app in Hnd as (_ & Hnot & _).
    assert (Hmem : forall ch, In ch cs <-> In ch (map fst pre) \/ ch = lastc).
    { intros ch. rewrite <- !list_elem_of_In, <- Hperm, elem_of_app, list_elem_of_singleton. done. }
    assert (Hof : forall ch t, In (ch, t) pre -> In ch (map fst pre)) by (intros ch t Hin; by apply (in_map fst) in Hin).
    assert (Hid : forall ch, In ch cs -> ch_transfer_id ch = id).
    { intros ch (i & p & _ & ->)%split_in; done. }
    pose proof (bulk_transfer_roundtrip r req id data k pre lastc now Hk Hn Hl Hfresh Hroom) as HB. cbv zeta in HB. fold cs in HB.
    rewrite push_all_app. cbn [push_all]. destruct (push_all r pre) as [r1 os]. destruct (push r1 lastc now) as [r2 o].
    destruct HB as (HF & -> & _).
    + destruct pre as [|[ch t] pre]; [by left|right]. exists ch, t, pre. split; [done|]. apply Hid, Hmem. left. by left.
    + intros ch t Hin _. pose proof (Hof _ _ Hin) as Hin2. split; [apply Hmem; by left|]. intros ->.
      apply (Hnot lastc); [by apply list_elem_of_In|by left].
    + apply Hmem. by right.
    + intros ch [Hin|Hin]%Hmem; [right|by left]. apply in_map_iff in Hin as ([ch' t] & <- & Hin). by exists t.
    + exists os. split; [done|]. clear -HF Hid Hmem Hof. assert (Hpre : forall ch t, In (ch, t) pre -> ch_transfer_id ch = id).
      { intros ch t Hin. apply Hid, Hmem. left. by eapply Hof. }
      clear -HF Hpre. induction HF as [|[ch t] o pre os H HF IH]; constructor; [apply H, (Hpre ch t); by left|].
      apply IH. intros ch' t' Hin. apply (Hpre ch' t'). by right.
Qed.

(** ** A roundtrip *)

Section Attempts.
Variables (sends : nat -> SendResult) (waits : nat -> WaitResult).

Lemma send_attempt_spec ds t : let '(t', e) := send_attempt sends ds t in
  exists sent, tr_sent t' = tr_sent t ++ sent /\ sent `prefix_of` ds /\ tr_waits t' = tr_waits t /\
    match e with None => sent = ds | Some _ => (0 < tr_sends t')%nat /\ sends (tr_sends t' - 1) <> SR_Sent end.
Proof.
  revert t. induction ds as [|d ds IH]; intros t; cbn [send_attempt]; [exists []; by rewrite app_nil_r|].
  destruct (sends (tr_sends t)) eqn:Es;
    try (exists []; rewrite app_nil_r; cbn; split_and!; [done|apply prefix_nil|done|lia|by rewrite Nat.sub_0_r, Es]).
  specialize (IH (mkTrace (tr_sent t ++ [d]) (S (tr_sends t)) (tr_waits t))).
  destruct (send_attempt sends ds _) as [t' e]. destruct IH as (sent & H1 & H2 & H3 & H4). exists (d :: sent). cbn in H1, H3.
  split_and!; [by rewrite H1, <- app_assoc|by apply prefix_cons|done|]. destruct e; [done|by rewrite H4].
Qed.

(** What a trace of [n] attempts adds to a trace. *)
Definition attempts_ok (n : nat) (ds : list bytes) (t t' : Trace) (r : result ClientError (option Reply)) : Prop :=
  exists sent, tr_sent t' = tr_sent t ++ sent /\ sent `prefix_of` concat (replicate n ds) /\
    (tr_waits t <= tr_waits t' <= tr_waits t + (2 * n - 1))%nat /\
    (forall i, (tr_waits t <= i)%nat -> (S i < tr_waits t')%nat -> waits i = WR_Elapsed) /\
    match r with
    | Ok None => sent = concat (replicate n ds) /\ tr_waits t' = (tr_waits t + (2 * n - 1))%nat /\
        (forall i, (tr_waits t <= i < tr_waits t')%nat -> waits i = WR_Elapsed)
    | Ok (Some rep) => (tr_waits t < tr_waits t')%nat /\ waits (tr_waits t' - 1) = WR_Reply rep
    | Err _ => (0 < tr_sends t')%nat /\ sends (tr_sends t' - 1) <> SR_Sent \/
        (tr_waits t < tr_waits t')%nat /\ waits (tr_waits t' - 1) = WR_Dropped
    end.

(** One more attempt in front, whose waits elapsed. *)
Lemma attempts_more n ds t t1 t2 r : (0 < n)%nat -> tr_sent t1 = tr_sent t ++ ds -> tr_waits t1 = S (S (tr_waits t)) ->
  waits (tr_waits t) = WR_Elapsed -> waits (S (tr_waits t)) = WR_Elapsed ->
  attempts_ok n ds t1 t2 r -> attempts_ok (S n) ds t t2 r.
Proof.
  intros Hn Hs Hw E1 E2 (sent & H1 & H2 & H3 & H4 & H5). exists (ds ++ sent). rewrite H1, Hs. cbn [replicate concat].
  rewrite Hw in *. assert (Hall : forall i, (tr_waits t <= i)%nat -> (i < S (S (tr_waits t)) \/ waits i = WR_Elapsed)%nat -> waits i = WR_Elapsed).
  { intros i Hi [Hlt|He]; [|done]. destruct (Nat.eq_dec i (tr_waits t)) as [->|]; [done|]. by replace i with (S (tr_waits t)) by lia. }
  split_and!; [by rewrite app_assoc|by apply prefix_app|lia|lia| |].
  - intros i Hi Hlt. apply Hall; [done|]. destruct (Nat.lt_ge_cases i (S (S (tr_waits t)))); [by left|right; by apply H4].
  - destruct r as [[rep|]|e].
    + split; [lia|apply H5].
    + destruct H5 as (-> & -> & H6). split_and!; [done|lia|]. intros i Hi. apply Hall; [lia|].
      destruct (Nat.lt_ge_cases i (S (S (tr_waits t)))); [by left|right; apply H6; lia].
    + destruct H5 as [H5|[H5 H6]]; [by left|right; split; [lia|done]].
Qed.

Lemma attempts_spec n ds t : let '(t', r) := attempts_run sends waits n ds t in attempts_ok n ds t t' r.
Proof.
  revert t. induction n as [|n IH]; intros t; cbn [attempts_run].
  { exists []. rewrite app_nil_r. cbn. split_and!; [done..|lia|lia|intros; lia|done|lia|intros; lia]. }
  pose proof (send_attempt_spec ds t) as Hs. destruct (send_attempt sends ds t) as [t1 e]. destruct Hs as (sent & H1 & H2 & H3 & H4).
  destruct e as [e|].
  { exists sent. split_and!; [done|cbn; by apply prefix_app_r|lia|lia|intros; lia|]. by left. }
  subst sent. cbn [wait_once]. rewrite H3. set (t2 := mkTrace (tr_sent t1) (tr_sends t1) (S (tr_waits t))).
  assert (Hstop : forall t' r, tr_sent t' = tr_sent t1 -> (S (tr_waits t) <= tr_waits t' <= tr_waits t + (2 * S n - 1))%nat ->
    (forall i, (tr_waits t <= i)%nat -> (S i < tr_waits t')%nat -> waits i = WR_Elapsed) ->
    match waits (tr_waits t' - 1), r with WR_Reply q, Ok (Some q') => q = q' | WR_Dropped, Err _ => True | _, _ => False end ->
    attempts_ok (S n) ds t t' r).
  { intros t' r Es Hw Hi Hm. exists ds. rewrite Es. split_and!; [done|cbn; by apply prefix_app_r|lia|lia|done|].
    destruct (waits (tr_waits t' - 1)) eqn:Ew, r as [[q|]|]; try done; [subst; by split; [lia|]|right; by split; [lia|]]. }
  destruct (waits (tr_waits t)) eqn:E1.
  - apply Hstop; cbn; [done|lia|intros; lia|]. by rewrite Nat.sub_0_r, E1.
  - apply Hstop; cbn; [done|lia|intros; lia|]. by rewrite Nat.sub_0_r, E1.
  - destruct n as [|n].
    { exists ds. cbn [replicate concat]. rewrite app_nil_r. split_and!; [done|done|cbn; lia|cbn; lia| |done|cbn; lia|]; cbn; intros i Hi.
      - lia.
      - by replace i with (tr_waits t) by lia. }
    cbn [wait_once tr_waits t2]. destruct (waits (S (tr_waits t))) eqn:E2.
    + apply Hstop; cbn; [done|lia| |]; [intros i Hi Hlt; by replace i with (tr_waits t) by lia|by rewrite E2].
    + apply Hstop; cbn; [done|lia| |]; [intros i Hi Hlt; by replace i with (tr_waits t) by lia|by rewrite E2].
    + specialize (IH (mkTrace (tr_sent t2) (tr_sends t2) (S (S (tr_waits t))))).
      destruct (attempts_run sends waits (S n) ds _) as [t' r]. eapply attempts_more; [lia| | |done|done|exact IH]; done.
Qed.

(** A roundtrip is bounded and resends the same bytes: what reaches the socket is
    a prefix of the command's datagrams repeated once per attempt, the waits are at
    most two per attempt less the last; it is answered by the reply that ended its
    last wait, every earlier wait having run out; it gives up without an answer only
    when every datagram of every attempt was sent and every wait ran out; and it fails
    only where a send failed or its reply channel was dropped. *)
Lemma roundtrip_resends_until_answered ds attempts : let '(t, r) := roundtrip sends waits false ds attempts in
  attempts_ok attempts ds (mkTrace [] 0 0) t r.
Proof. apply attempts_spec. Qed.
End Attempts.

(** ** Request ids and keys *)

(** The ids a turn of the search goes through. *)
Lemma next_req_id_spec fuel c : is_uint 32 (cl_req_id c) = true ->
  match fst (next_req_id fuel c) with
  | Some id => id <> 0 /\ is_uint 32 id = true /\ cl_pending c !! id = None
  | None => forall k, (k < fuel)%nat -> wrap 32 (cl_req_id c + Z.of_nat k) = 0 \/ is_Some (cl_pending c !! wrap 32 (cl_req_id c + Z.of_nat k))
  end.
Proof.
  revert c. induction fuel as [|fuel IH]; intros c Hu; cbn [next_req_id]; [cbn; intros; lia|].
  destruct (Z.eqb_spec (cl_req_id c) 0) as [E0|E0]; cbn [negb andb];
    [|case_bool_decide as Ep; cbn [negb]; [|cbn; split_and!; [done..|by apply eq_None_not_Some]]].
  all: assert (Hu' : is_uint 32 (cl_req_id (clput_req_id (wrap 32 (cl_req_id c + 1)) c)) = true) by
      (cbn [cl_req_id clput_req_id]; unfold is_uint, wrap; change (2 ^ 32) with 4294967296; rewrite andb_true_iff, Z.leb_le, Z.ltb_lt;
       pose proof (Z.mod_pos_bound (cl_req_id c + 1) 4294967296); lia).
  all: specialize (IH _ Hu'); destruct (fst (next_req_id fuel _)) as [id|]; [exact IH|].
  all: assert (Hw : forall z, is_uint 32 z = true -> wrap 32 z = z) by
      (unfold is_uint, wrap; intros z; rewrite andb_true_iff, Z.leb_le, Z.ltb_lt; intros ?; by apply Z.mod_small).
  all: intros [|k] Hk; [rewrite Z.add_0_r, Hw by done; auto|].
  all: destruct (IH k ltac:(lia)) as [H|H]; [left|right]; revert H; cbn [cl_req_id cl_pending clput_req_id]; unfold wrap;
      rewrite Zplus_mod_idemp_l; by replace (cl_req_id c + 1 + Z.of_nat k) with (cl_req_id c + Z.of_nat (S k)) by lia.
Qed.

(** The counter comes by an id nobody waits on within one turn more than there are
    ids to skip. *)
Lemma request_id_found c : is_uint 32 (cl_req_id c) = true -> Z.of_nat (size (cl_pending c)) + 2 <= 2 ^ 32 ->
  exists id, fst (next_req_id (size (cl_pending c) + 2) c) = Some id /\ id <> 0 /\ is_uint 32 id = true /\ cl_pending c !! id = None.
Proof.
  intros Hu Hs. pose proof (next_req_id_spec (size (cl_pending c) + 2) c Hu) as H.
  destruct (fst (next_req_id _ c)) as [id|]; [by exists id|exfalso]. set (f := fun k => wrap 32 (cl_req_id c + Z.of_nat k)).
  set (n := (size (cl_pending c) + 2)%nat) in *.
  assert (Hnd : NoDup (f <$> seq 0 n)).
  { apply NoDup_fmap_2_strong; [|apply NoDup_seq]. intros i j Hi%elem_of_seq Hj%elem_of_seq. unfold f, wrap.
    change (2 ^ 32) with 4294967296 in *. intros E. pose proof (Z.div_mod (cl_req_id c + Z.of_nat i) 4294967296).
    pose proof (Z.div_mod (cl_req_id c + Z.of_nat j) 4294967296). nia. }
  assert (Hsub : (list_to_set (f <$> seq 0 n) : gset Z) ⊆ {[0]} ∪ dom (cl_pending c)).
  { intros x Hx%elem_of_list_to_set. apply list_elem_of_fmap in Hx as (k & -> & Hk%elem_of_seq).
    destruct (H k ltac:(lia)) as [E|E]; apply elem_of_union; [left; by apply elem_of_singleton|right; by apply elem_of_dom]. }
  apply subseteq_size in Hsub. rewrite size_list_to_set, length_fmap, length_seq in Hsub by done.
  pose proof (size_union_alt ({[0]} : gset Z) (dom (cl_pending c))) as Hu2. rewrite size_singleton in Hu2.
  assert (size (dom (cl_pending c) ∖ ({[0%Z]} : gset Z)) <= size (dom (cl_pending c)))%nat by (apply subseteq_size; set_solver).
  rewrite size_dom in *. lia.
Qed.

(** ** Requests and replies *)

(** A reply reaches the caller that holds the request's id, once. *)
Lemma reply_reaches_its_caller req token r now c : cl_pending c !! req = Some token ->
  cl_delivered (answer req r now c) = cl_delivered c ++ [(token, r)] /\ cl_pending (answer req r now c) !! req = None.
Proof. intros H. unfold answer. rewrite H. split; [done|]. by apply lookup_delete_eq. Qed.

Lemma stray_reply_reaches_nobody req r now c : cl_pending c !! req = None -> cl_delivered (answer req r now c) = cl_delivered c.
Proof.
  intros H. unfold answer. rewrite H. destruct r; try done. by destruct (log_unclaimed_keeps error now c) as (_ & _ & [_ ->] & _).
Qed.

(** ** The answer of a wait *)

(** A command counts as done for [wait_command] only on a successful completion: one
    handed to the wait, or one the runtime answered with. *)
Lemma wait_succeeds_on_success index session first grace asked c :
  wait_verdict index (fst (race_completion index session first grace asked c)) = Ok true ->
  exists detail verdict, first = Push (true, detail, verdict) \/
    first = Status_hit /\ (grace = Some (true, detail, verdict) \/
      exists j, asked = Ok (Q_CommandCompletion j true true detail verdict)).
Proof.
  assert (Hv : forall d, wait_verdict index (Ok (Some d)) = Ok true -> exists detail verdict, d = (true, detail, verdict)).
  { intros [[[] [e|]] v]; cbn; intros H; try done; by eexists _, _. }
  unfold race_completion. destruct first as [d| | |]; cbn [fst].
  - intros (detail & verdict & ->)%Hv. exists detail, verdict. by left.
  - destruct (cl_status c) as [s|]; [destruct (other_session session s)|]; done.
  - destruct (match cl_status c with Some s => _ | None => None end); [done|]. destruct grace as [d|]; cbn [fst].
    + intros (detail & verdict & ->)%Hv. exists detail, verdict. right. split; [done|]. by left.
    + unfold recover_completion. destruct asked as [[]|]; try done. destruct finished; [|done]. cbn [fst].
      intros (detail' & verdict' & [= -> -> ->])%Hv. exists detail', verdict'. right. split; [done|]. right. by eexists.
  - destruct (protocol_mismatch c) as [[]|]; done.
Qed.

(** ** At concrete inputs *)

Lemma completions_are_of_the_session_run :
  let c := client_run (client_new 1400 7) [Ev_Wait 4 90; Ev_Recovered 4 (Ok (Q_CommandCompletion 4 true true None None))] in
  cl_handed c = [(90, (true, None, None))] /\ cl_log c !! 4 = Some (true, None, None).
Proof. done. Qed.

Lemma datagrams_fit_and_reassemble_witness :
  let c := client_new 64 7 in let data := repeat 9 70 in
  let ds := fst (datagrams data 5 c) in
  length ds = 3%nat /\ Forall (fun d => blen d <= 64) ds /\
  (ds = [data] \/
   exists cs, Forall2 (fun d ch => decode_chunk d = Ok ch) ds cs /\
     forall r deliveries, map fst deliveries ≡ₚ cs ->
       ra_transfers r !! 7 = None -> (in_flight r < MAX_TRANSFERS_IN_FLIGHT)%nat ->
       exists os, snd (push_all r deliveries) = os ++ [Ok (Some (mkAssembled 5 7 data))] /\ Forall (fun o => o = Ok None) os).
Proof.
  split; [by vm_compute|]. apply (datagrams_fit_and_reassemble (client_new 64 7) (repeat 9 70) 5); by vm_compute.
Defined.

(** A frame of the broadcast: the default one with a session and a number. *)
Definition broadcast (session seq : Z) : Status :=
  mkStatus PROTO_VERSION 0 seq 0 0 0 (replicate POSE_ELEMS f64_0) (replicate NUM_JOINTS f64_0)
    (replicate NUM_JOINTS f64_0) (replicate IO_SLOTS 0) [] AS_Idle (replicate EN_SLOTS 1)
    (replicate EN_SLOTS 1) (replicate EN_SLOTS 1) (-1) (-1) [] None 0 f64_0 [] None f64_0 false false []
    0 (-1) false (replicate NUM_JOINTS f64_0) CM_Booting false false [] (mkLinkHealthWire 0 0 0 0)
    (mkHomingWire false 0 []) (replicate NUM_JOINTS f64_0) false (mkDriveHealth [] [] None [])
    (mkLoopHealth f64_0 0) session [].

(** Frames 3, 6, 5 and 7 after frame 2: 4 and 5 are lost, 5 comes too late. *)
Lemma lost_frames_are_counted_witness :
  let c := accept_status (broadcast 9 2) 0 (client_new 1400 7) in
  let ss := [(broadcast 9 3, 1); (broadcast 9 6, 2); (broadcast 9 5, 3); (broadcast 9 7, 4)] in
  cl_seq_gaps (fst (statuses_run c ss)) = 2 /\ snd (statuses_run c ss) = 3 /\
  exists newest, cl_last_seq (fst (statuses_run c ss)) = Some (9, newest) /\
    2 <= newest /\ Forall (fun p => st_seq (fst p) <= newest) ss /\
    cl_seq_gaps (fst (statuses_run c ss)) - cl_seq_gaps c + snd (statuses_run c ss) = newest - 2.
Proof.
  split_and!; [by vm_compute..|].
  apply (lost_frames_are_counted 9 [(broadcast 9 3, 1); (broadcast 9 6, 2); (broadcast 9 5, 3); (broadcast 9 7, 4)]
    (accept_status (broadcast 9 2) 0 (client_new 1400 7)) 2); [done|done| |done].
  repeat constructor; done.
Defined.

(** An answer on the second attempt: two sends of the same datagrams, three waits. *)
Lemma roundtrip_answered_late :
  let '(t, r) := roundtrip (fun _ => SR_Sent) (fun i => if (i <? 2)%nat then WR_Elapsed else WR_Reply (Rp_Ok 5 None)) false [[1]; [2]] 3 in
  tr_sent t = [[1]; [2]; [1]; [2]] /\ tr_waits t = 3%nat /\ r = Ok (Some (Rp_Ok 5 None)).
Proof. done. Qed.
