(* ===== verification/ClientApi.v ===== *)
(** * ClientApi: the named calls of the client library
    (crates/par6-client/src/api.rs)

    Every call is the command it sends and the transport it sends it by; a query also
    has what it reads from the answer.  Below: the waits that watch the STATUS stream,
    as functions of what they observe turn by turn. *)
From Stdlib Require Import SpecFloat.
From stdpp Require Import gmap.
From S2P Require Import Prelude F64 Wire Enums Command CommandCodec WireError Chunk Reply Status Client.

(** A call: its transport, and its command from the key of a queued one. *)
Record Call := mkCall { call_class : CommandClass; call_command : Z -> Command }.

Definition query (cmd : Command) : Call := mkCall CC_Query (fun _ => cmd).
Definition system (cmd : Command) : Call := mkCall CC_System (fun _ => cmd).
Definition queued (cmd : Z -> Command) : Call := mkCall CC_Queued cmd.
Definition fire (cmd : Command) : Call := mkCall CC_FireAndForget (fun _ => cmd).

(** A queued call stamps a fresh key. *)
Definition issue (call : Call) (c : Client) : Command * Client :=
  match call_class call with
  | CC_Queued => let '(key, c) := fresh_key c in (call_command call key, c)
  | _ => (call_command call 0, c)
  end.

(** [unwrap_query!]: the answer of another query is no answer. *)
Definition unwrap_query {A} (read : QueryResult -> option A) (r : result ClientError QueryResult) : result ClientError A :=
  match r with
  | Err e => Err e
  | Ok q => match read q with Some a => Ok a | None => Err CE_Unreachable end
  end.

(** ** Queries, and what they read *)

Definition ping := query C_Ping.
Definition ping_read q := match q with Q_Ping hardware_connected => Some hardware_connected | _ => None end.
Definition angles := query C_Angles.
Definition angles_read q := match q with Q_Angles angles => Some angles | _ => None end.
Definition pose (frame : Frame) := query (C_Pose (mkPoseQuery (Some frame))).
Definition pose_read q := match q with Q_Pose pose => Some pose | _ => None end.
Definition io := query C_Io.
Definition io_read q := match q with Q_Io io => Some io | _ => None end.
Definition joint_speeds := query C_Speeds.
Definition joint_speeds_read q := match q with Q_Speeds speeds => Some speeds | _ => None end.
Definition status_query := query C_Status.
Definition tools := query C_Tools.
Definition queue := query C_Queue.
Definition activity := query C_Activity.
Definition loop_stats := query C_LoopStats.
Definition loop_stats_read q := match q with Q_LoopStats stats => Some stats | _ => None end.
Definition command_completion (index : Z) := query (C_CommandCompletion index).
Definition command_completion_read q :=
  match q with Q_CommandCompletion _ finished ok detail verdict => Some (finished, ok, detail, verdict) | _ => None end.
Definition profile := query C_Profile.
Definition profile_read q := match q with Q_Profile profile => Some profile | _ => None end.
Definition reachable := query C_Reachable.
Definition error := query C_Error.
Definition error_read q := match q with Q_Error error => Some error | _ => None end.
Definition tcp_speed := query C_TcpSpeed.
Definition tcp_speed_read q := match q with Q_TcpSpeed speed => Some speed | _ => None end.
Definition tcp_offset := query C_TcpOffset.
Definition tcp_offset_read q := match q with Q_TcpOffset x y z => Some [x; y; z] | _ => None end.
Definition tcp_transform := query C_TcpTransform.
Definition tcp_transform_read q := match q with Q_TcpTransform values => Some values | _ => None end.
Definition tool_status := query C_ToolStatus.
Definition tool_status_read q := match q with Q_ToolStatus tool_status => Some tool_status | _ => None end.
Definition is_simulator := query C_IsSimulator.
Definition is_simulator_read q := match q with Q_IsSimulator active => Some active | _ => None end.
Definition shapes := query C_Shapes.
Definition config_info := query C_ConfigInfo.
Definition config_bundle := query C_ConfigBundle.
Definition payload := query C_Payload.
Definition bus_scan := query C_BusScan.
Definition status_rate := query C_StatusRate.

(** The e-stop line is the last slot, low while pressed. *)
Definition is_estop_pressed (r : result ClientError QueryResult) : result ClientError bool :=
  match unwrap_query io_read r with
  | Err e => Err e
  | Ok io => Ok match last io with Some v => v =? 0 | None => false end
  end.

Definition is_robot_stopped (threshold_rad_s : f64) (r : result ClientError QueryResult) : result ClientError bool :=
  match unwrap_query joint_speeds_read r with
  | Err e => Err e
  | Ok speeds => Ok (forallb (fun v => sf_lt (sf_abs (f64_to_SF v)) (f64_to_SF threshold_rad_s)) speeds)
  end.

(** ** System commands *)

Definition reset := system C_Reset.
Definition estop := system C_Estop.
Definition set_gravity_comp (on : bool) := system (C_SetGravityComp (mkSetGravityComp on)).
Definition float_arm (enabled : bool) := set_gravity_comp enabled.
Definition pause := system (C_Pause (mkPause true)).
Definition resume := system (C_Pause (mkPause false)).
Definition stop (clear_queue : bool) := system (C_Stop (mkStop clear_queue)).
Definition simulator (on : bool) := system (C_Simulator (mkSimulator on)).
Definition select_profile (profile : bytes) := system (C_SelectProfile (mkSelectProfile profile)).
Definition reset_state := system C_ResetState.
Definition connect_hardware (port : bytes) := system (C_ConnectHardware (mkConnectHardware port)).
Definition set_payload (mass : f64) (com : list f64) (inertia : option (list f64)) :=
  system (C_SetPayload (mkSetPayload mass com inertia)).
Definition enter_flashing (assertion : FlashingAssertion) := system (C_EnterFlashing (mkEnterFlashing assertion)).
Definition exit_flashing := system C_ExitFlashing.
Definition set_pid_gains (gains : SetPidGains) := system (C_SetPidGains gains).
Definition set_can_id (node new_id : Z) (force : bool) := system (C_SetCanId (mkSetCanId node new_id force)).
Definition set_tool_id (node tool_id : Z) (force : bool) := system (C_SetToolId (mkSetToolId node tool_id force)).
Definition save_config (node : Z) (force : bool) := system (C_SaveConfig (mkSaveConfig node force)).
Definition set_status_rate (hz : f64) := system (C_SetStatusRate (mkSetStatusRate hz)).
Definition set_shapes (shapes : list Shape) := system (C_SetShapes (mkSetShapes shapes)).
Definition set_completion_policy (policy : CompletionPolicy) := system (C_SetCompletionPolicy (mkSetCompletionPolicy policy)).
Definition teleport (angles : list f64) (tool_positions : option (list f64)) := system (C_Teleport (mkTeleport angles tool_positions)).

(** ** Queued commands *)

Definition write_io (port value : Z) := queued (fun key => C_WriteIo (mkWriteIo key port value)).
Definition set_tcp_transform (x y z roll pitch yaw : f64) :=
  queued (fun key => C_SetTcpTransform (mkSetTcpTransform key x y z roll pitch yaw)).
Definition set_tcp_offset (x y z : f64) := queued (fun key => C_SetTcpOffset (mkSetTcpOffset key x y z)).
Definition home (calibrate : bool) := queued (fun key => C_Home (mkHome key calibrate)).
Definition move_j (angles : list f64) (duration speed accel blend_radius : option f64) (rel : bool) :=
  queued (fun key => C_MoveJ (mkMoveJ key angles duration speed accel blend_radius rel)).
Definition move_j_pose (pose : list f64) (duration speed accel blend_radius : option f64) :=
  queued (fun key => C_MoveJPose (mkMoveJPose key pose duration speed accel blend_radius)).
Definition move_l (pose : list f64) (frame : Frame) (duration speed accel blend_radius : option f64) (rel : bool) :=
  queued (fun key => C_MoveL (mkMoveL key pose frame duration speed accel blend_radius rel)).
Definition move_c (via end_ : list f64) (frame : Frame) (duration speed accel blend_radius : option f64) (rel : bool) :=
  queued (fun key => C_MoveC (mkMoveC key via end_ frame duration speed accel blend_radius rel)).
Definition move_s (waypoints : list (list f64)) (frame : Frame) (duration speed accel : option f64) (rel : bool) :=
  queued (fun key => C_MoveS (mkMoveS key waypoints frame duration speed accel rel)).
Definition move_p (waypoints : list (list f64)) (frame : Frame) (duration speed accel : option f64) (rel : bool) :=
  queued (fun key => C_MoveP (mkMoveP key waypoints frame duration speed accel rel)).
Definition select_tool (tool_name : bytes) (variant_key : option bytes) :=
  queued (fun key => C_SelectTool (mkSelectTool key tool_name variant_key)).
Definition delay (seconds : f64) := queued (fun key => C_Delay (mkDelay key seconds)).
Definition checkpoint (label : bytes) := queued (fun key => C_Checkpoint (mkCheckpoint key label)).
Definition tool_action (tool_key action : bytes) (params : list ToolParam) :=
  queued (fun key => C_ToolAction (mkToolAction key tool_key action params)).

(** ** Fire and forget *)

Definition servo_j (angles : list f64) (speed accel : option f64) := fire (C_ServoJ (mkServoJ angles speed accel)).
Definition servo_j_pose (pose : list f64) (speed accel : option f64) := fire (C_ServoJPose (mkServoJPose pose speed accel)).
Definition servo_l (pose : list f64) (speed accel : option f64) := fire (C_ServoL (mkServoL pose speed accel)).
Definition jog_j (speeds : list f64) (duration : f64) (accel : option f64) := fire (C_JogJ (mkJogJ speeds duration accel)).
Definition jog_l (velocities : list f64) (duration : f64) (frame : Frame) (accel : option f64) :=
  fire (C_JogL (mkJogL velocities duration frame accel)).
Definition reset_loop_stats := fire C_ResetLoopStats.

(** ** The waits on STATUS *)

Definition freedrive (s : Status) : bool :=
  bool_decide (st_mode s = CM_Idle) && st_homed s && st_enabled s && st_gravity_comp s.

(** What a wait sees in a turn: the latched mismatch, the latest frame, the closed
    flag, and whether a frame arrived before the deadline. *)
Record WaitTurn := mkWaitTurn {
  wt_mismatch : bool;
  wt_status : option Status;
  wt_closed : bool;
  wt_changed : bool;
}.

(** [None] is a wait still waiting when the turns are over. *)
Fixpoint wait_status (pred : Status -> bool) (turns : list WaitTurn) : option bool :=
  match turns with
  | [] => None
  | t :: turns =>
      if wt_mismatch t then Some false
      else if match wt_status t with Some s => pred s | None => false end then Some true
      else if wt_closed t then Some false
      else if wt_changed t then wait_status pred turns
      else Some false
  end.

Definition wait_checkpoint (label : bytes) : list WaitTurn -> option bool :=
  wait_status (fun s => bool_decide (st_last_checkpoint s = label)).

(** The latest frame, or the first one if the wait for it succeeds. *)
Definition is_freedrive (latest : option Status) (turns : list WaitTurn) (after : option Status) : bool :=
  match latest with
  | None => match wait_status (fun _ => true) turns with Some true => match after with Some s => freedrive s | None => false end | _ => false end
  | Some _ => match after with Some s => freedrive s | None => false end
  end.

(** A turn: whether the ping was answered, whether the deadline has passed after it. *)
Fixpoint wait_ready (turns : list (bool * bool)) : option bool :=
  match turns with
  | [] => None
  | (answered, late) :: turns => if answered then Some true else if late then Some false else wait_ready turns
  end.

Record MotionWait := mkMotionWait {
  mw_timeout : Z;
  mw_settle_window : Z;
  mw_speed_threshold : f64;
  mw_angle_threshold : f64;
  mw_motion_start_timeout : Z;
}.

(** What [wait_motion] remembers from frame to frame. *)
Record MotionWatch := mkWatch {
  mt_last_angles : option (list f64);
  mt_settle_start : option Z;
  mt_started : bool;
}.

Definition max_abs (l : list spec_float) : spec_float := fold_left (fun m v => sf_max m (sf_abs v)) l (S754_zero false).
Definition max_speed (s : Status) : spec_float := max_abs (map f64_to_SF (st_speeds s)).
Definition max_delta (last_angles : option (list f64)) (s : Status) : spec_float :=
  match last_angles with
  | Some prev => max_abs (zip_with (fun a b => sf_sub (f64_to_SF a) (f64_to_SF b)) (st_angles s) prev)
  | None => S754_zero false
  end.

Definition moving (w : MotionWait) (last_angles : option (list f64)) (s : Status) : bool :=
  sf_le (f64_to_SF (mw_speed_threshold w)) (max_speed s) || sf_le (f64_to_SF (mw_angle_threshold w)) (max_delta last_angles s).

(** One frame: what is remembered, whether the arm has settled. *)
Definition motion_step (w : MotionWait) (start now : Z) (s : Status) (t : MotionWatch) : MotionWatch * bool :=
  let moving := moving w (mt_last_angles t) s in
  let angles := Some (st_angles s) in
  let '(started, settle_start) :=
    if mt_started t then (true, mt_settle_start t)
    else if moving || (mw_motion_start_timeout w <? now - start) then (true, None) else (false, mt_settle_start t) in
  if negb (mt_started t) && moving then (mkWatch angles settle_start started, false)
  else if negb started then (mkWatch angles settle_start started, false)
  else if moving then (mkWatch angles None started, false)
  else
    match settle_start with
    | Some since => (mkWatch angles settle_start started, mw_settle_window w <? now - since)
    | None => (mkWatch angles (Some now) started, false)
    end.

(** What a turn of the wait brings: the deadline, no frame yet, a frame. *)
Inductive MotionTurn := MT_Timeout | MT_Nothing | MT_Frame (s : Status) (now : Z).

Fixpoint motion_wait (w : MotionWait) (start : Z) (t : MotionWatch) (turns : list MotionTurn) : option bool :=
  match turns with
  | [] => None
  | MT_Timeout :: _ => Some false
  | MT_Nothing :: turns => motion_wait w start t turns
  | MT_Frame s now :: turns =>
      let '(t, settled) := motion_step w start now s t in
      if settled then Some true else motion_wait w start t turns
  end.

Definition wait_motion (w : MotionWait) (start : Z) (turns : list MotionTurn) : option bool :=
  motion_wait w start (mkWatch None None false) turns.

(** ** What the calls promise *)

(** The calls of the library, each with its arguments. *)
Inductive api_call : Call -> Prop :=
| api_ping : api_call ping | api_angles : api_call angles | api_pose f : api_call (pose f) | api_io : api_call io
| api_joint_speeds : api_call joint_speeds | api_status_query : api_call status_query | api_tools : api_call tools
| api_queue : api_call queue | api_activity : api_call activity | api_loop_stats : api_call loop_stats
| api_command_completion i : api_call (command_completion i) | api_profile : api_call profile
| api_reachable : api_call reachable | api_error : api_call error | api_tcp_speed : api_call tcp_speed
| api_tcp_offset : api_call tcp_offset | api_tcp_transform : api_call tcp_transform | api_tool_status : api_call tool_status
| api_is_simulator : api_call is_simulator | api_shapes : api_call shapes | api_config_info : api_call config_info
| api_config_bundle : api_call config_bundle | api_payload : api_call payload | api_bus_scan : api_call bus_scan
| api_status_rate : api_call status_rate
| api_reset : api_call reset | api_estop : api_call estop | api_set_gravity_comp on : api_call (set_gravity_comp on)
| api_pause : api_call pause | api_resume : api_call resume | api_stop b : api_call (stop b)
| api_simulator on : api_call (simulator on) | api_select_profile p : api_call (select_profile p)
| api_reset_state : api_call reset_state | api_connect_hardware p : api_call (connect_hardware p)
| api_set_payload m c i : api_call (set_payload m c i) | api_enter_flashing a : api_call (enter_flashing a)
| api_exit_flashing : api_call exit_flashing | api_set_pid_gains g : api_call (set_pid_gains g)
| api_set_can_id n i b : api_call (set_can_id n i b) | api_set_tool_id n i b : api_call (set_tool_id n i b)
| api_save_config n b : api_call (save_config n b) | api_set_status_rate hz : api_call (set_status_rate hz)
| api_set_shapes l : api_call (set_shapes l) | api_set_completion_policy p : api_call (set_completion_policy p)
| api_teleport a t : api_call (teleport a t)
| api_write_io p v : api_call (write_io p v) | api_set_tcp_transform x y z a b c : api_call (set_tcp_transform x y z a b c)
| api_set_tcp_offset x y z : api_call (set_tcp_offset x y z) | api_home b : api_call (home b)
| api_move_j a d s l b r : api_call (move_j a d s l b r) | api_move_j_pose p d s l b : api_call (move_j_pose p d s l b)
| api_move_l p f d s l b r : api_call (move_l p f d s l b r) | api_move_c v e f d s l b r : api_call (move_c v e f d s l b r)
| api_move_s w f d s l r : api_call (move_s w f d s l r) | api_move_p w f d s l r : api_call (move_p w f d s l r)
| api_select_tool n v : api_call (select_tool n v) | api_delay s : api_call (delay s) | api_checkpoint l : api_call (checkpoint l)
| api_tool_action k a p : api_call (tool_action k a p)
| api_servo_j a s l : api_call (servo_j a s l) | api_servo_j_pose p s l : api_call (servo_j_pose p s l)
| api_servo_l p s l : api_call (servo_l p s l) | api_jog_j s d l : api_call (jog_j s d l)
| api_jog_l v d f l : api_call (jog_l v d f l) | api_reset_loop_stats : api_call reset_loop_stats.

(** Every call goes by the transport whose acknowledgement the runtime gives its
    command, and carries the fresh key exactly where the runtime looks for one. *)
Lemma calls_keep_their_class call c : api_call call ->
  command_class (tag (fst (issue call c))) = call_class call /\
  idempotency_key (fst (issue call c)) = (if bool_decide (call_class call = CC_Queued) then Some (fst (fresh_key c)) else None).
Proof. intros []; done. Qed.

(** The motion of every frame seen: whether the arm moved, and when. *)
Fixpoint sightings (w : MotionWait) (last_angles : option (list f64)) (turns : list MotionTurn) : list (bool * Z) :=
  match turns with
  | [] => []
  | MT_Frame s now :: turns => (moving w last_angles s, now) :: sightings w (Some (st_angles s)) turns
  | _ :: turns => sightings w last_angles turns
  end.

(** The arm is still since a frame, after it moved or was waited for long enough. *)
Definition still_since (w : MotionWait) (start since : Z) (seen : list (bool * Z)) : Prop :=
  exists before after, seen = before ++ (false, since) :: after /\ Forall (fun x => fst x = false) after.
Definition had_its_chance (w : MotionWait) (start : Z) (seen : list (bool * Z)) : Prop :=
  Exists (fun x => fst x = true \/ mw_motion_start_timeout w < snd x - start) seen.

Record watch_ok (w : MotionWait) (start : Z) (seen : list (bool * Z)) (t : MotionWatch) : Prop := mkWatchOk {
  wo_since : forall since, mt_settle_start t = Some since -> still_since w start since seen;
  wo_started : mt_started t = true -> had_its_chance w start seen;
  wo_fresh : mt_started t = false -> mt_settle_start t = None;
}.

Lemma still_later w start since seen now : still_since w start since seen -> still_since w start since (seen ++ [(false, now)]).
Proof.
  intros (b & a & -> & H). exists b, (a ++ [(false, now)]). split; [by rewrite <- app_assoc|]. apply Forall_app. by repeat constructor.
Qed.

Lemma chance_later w start seen x : had_its_chance w start seen -> had_its_chance w start (seen ++ [x]).
Proof. intros H. apply Exists_app. by left. Qed.

Lemma motion_step_ok w start now s t seen : watch_ok w start seen t ->
  let seen' := seen ++ [(moving w (mt_last_angles t) s, now)] in
  let '(t', settled) := motion_step w start now s t in
  watch_ok w start seen' t' /\ mt_last_angles t' = Some (st_angles s) /\
  (settled = true -> exists since, still_since w start since seen' /\ mw_settle_window w < now - since /\ had_its_chance w start seen').
Proof.
  intros [H1 H2 H3]. cbv zeta. unfold motion_step. destruct (moving w (mt_last_angles t) s) eqn:Em.
  - assert (Hc : had_its_chance w start (seen ++ [(true, now)])) by (apply Exists_app; right; apply Exists_cons_hd; by left).
    destruct (mt_started t); cbn; (split_and!; [|done|done]); constructor; cbn; done.
  - assert (Hs : still_since w start now (seen ++ [(false, now)])) by (exists seen, []; by repeat constructor).
    destruct (mt_started t) eqn:Et; cbn -[Z.ltb].
    + specialize (H2 eq_refl). destruct (mt_settle_start t) as [since|] eqn:Es; (split_and!; [constructor; cbn|done|]).
      * intros x [= <-]. by apply still_later, H1.
      * intros _. by apply chance_later.
      * done.
      * intros Hw%Z.ltb_lt. exists since. split_and!; [by apply still_later, H1|lia|by apply chance_later].
      * by intros x [= <-].
      * intros _. by apply chance_later.
      * done.
      * done.
    + rewrite (H3 eq_refl). destruct (Z.ltb_spec (mw_motion_start_timeout w) (now - start)); cbn; (split_and!; [constructor; cbn; try done|done|done]).
      * by intros x [= <-].
      * intros _. apply Exists_app. right. apply Exists_cons_hd. right. cbn. lia.
Qed.

(** [wait_motion] says the arm has settled only of an arm that is still: the frames up
    to the one that ended the wait, none of them moving, span more than the settle
    window, and before that the arm was seen to move or was given its time to start. *)
Lemma settled_arm_is_still w start turns : wait_motion w start turns = Some true ->
  exists pre s now post since, turns = pre ++ MT_Frame s now :: post /\
    let seen := sightings w None (pre ++ [MT_Frame s now]) in
    still_since w start since seen /\ mw_settle_window w < now - since /\ had_its_chance w start seen.
Proof.
  unfold wait_motion. intros H.
  assert (Hgen : forall turns t seen, watch_ok w start seen t -> motion_wait w start t turns = Some true ->
    exists pre s now post since, turns = pre ++ MT_Frame s now :: post /\
      let seen := seen ++ sightings w (mt_last_angles t) (pre ++ [MT_Frame s now]) in
      still_since w start since seen /\ mw_settle_window w < now - since /\ had_its_chance w start seen).
  { clear. induction turns as [|turn turns IH]; intros t seen Hok; cbn [motion_wait]; [done|]. destruct turn as [| |s now]; [done| |].
    - intros (pre & s & now & post & since & -> & H)%(IH t seen Hok). by exists (MT_Nothing :: pre), s, now, post, since.
    - pose proof (motion_step_ok w start now s t seen Hok) as Hs. cbv zeta in Hs. destruct (motion_step w start now s t) as [t' settled].
      destruct Hs as (Hok' & Ha & Hd). destruct settled.
      + intros _. destruct (Hd eq_refl) as (since & H). by exists [], s, now, turns, since.
      + intros (pre & s' & now' & post & since & -> & H)%(IH t' _ Hok'). exists (MT_Frame s now :: pre), s', now', post, since.
        split; [done|]. cbn [app sightings]. rewrite Ha, <- app_assoc in H. exact H. }
  destruct (Hgen turns (mkWatch None None false) []) as (pre & s & now & post & since & H'); [constructor; done|done|].
  by exists pre, s, now, post, since.
Qed.

(** A wait on STATUS that says yes saw a frame that meets it, with the protocol read. *)
Lemma wait_status_saw_it pred turns : wait_status pred turns = Some true ->
  exists t s, In t turns /\ wt_mismatch t = false /\ wt_status t = Some s /\ pred s = true.
Proof.
  induction turns as [|t turns IH]; cbn [wait_status]; [done|]. destruct (wt_mismatch t) eqn:Em; [done|].
  destruct (wt_status t) as [s|] eqn:Es; [destruct (pred s) eqn:Ep|].
  - intros _. exists t, s. split_and!; [by left|done..].
  - destruct (wt_closed t), (wt_changed t); try done. intros (t' & s' & Hin & H)%IH. exists t', s'. split; [by right|done].
  - destruct (wt_closed t), (wt_changed t); try done. intros (t' & s' & Hin & H)%IH. exists t', s'. split; [by right|done].
Qed.
