(* ===== verification/Plane.v ===== *)
(** * Plane: the planner thread of the server (crates/par6-server/src/plane.rs)

    The loop that takes the requests of the command plane, serves them in arrival
    order, polls the planner and publishes its report.  The [Planner] trait is a class
    over the planner's state; what a call reads from outside (the snapshot, the clock)
    is its view, one per call of a pass. *)
From stdpp Require Import gmap.
From S2P Require Import Prelude F64 Wire Enums Command CommandCodec WireError Reply Chunk BusTypes Ring RtState ServerGate ServerTypes.

Record Enablement := mkEnablement {
  en_joint : list Z;
  en_cart_wrf : list Z;
  en_cart_trf : list Z;
}.

(** [Enablement::default]. *)
Definition enablement_default : Enablement :=
  mkEnablement (replicate EN_SLOTS 1) (replicate EN_SLOTS 1) (replicate EN_SLOTS 1).

Record CollisionState := mkCollisionState { cs_active : bool; cs_pairs : list (bytes * bytes) }.
Definition collision_default : CollisionState := mkCollisionState false [].

(** The trait, over the views [V] and the states [P]. *)
Class Planner (V P : Type) := {
  pl_start : V -> list OwnedQueued -> P -> result WireError nat * P;
  pl_poll : V -> P -> option CommandOutcome * P;
  pl_cancel : bool -> P -> P;
  pl_start_tool : V -> Z -> ToolAction -> P -> result WireError unit * P;
  pl_poll_tool : V -> P -> option CommandOutcome * P;
  pl_cancel_tool : P -> P;
  pl_sync : OwnedPlanContext -> P -> P;
  pl_set_shapes : V -> ShapeLayer -> list Shape -> P -> result WireError (option Z) * P;
  pl_collision : P -> option CollisionState;
  pl_warnings : P -> list WireError;
  pl_take_fitted_tool : P -> option (bytes * option bytes) * P;
  pl_clear_collision : P -> P;
  pl_enablement : P -> Enablement;
  pl_queued_duration : V -> list OwnedQueued -> P -> f64 * P;
  pl_inflight_duration : V -> P -> f64;
}.

Definition is_expensive (r : PlanRequest) : bool :=
  match r with PR_Start _ | PR_QueueEstimate _ | PR_SetShapes _ _ _ => true | _ => false end.

Record PlanReport := mkPlanReport {
  pr_enablement : Enablement;
  pr_collision : option CollisionState;
  pr_warnings : list WireError;
  pr_inflight_duration : f64;
  pr_queued_duration : f64;
}.

(** [PlanReport::initial]. *)
Definition report_initial (en : Enablement) : PlanReport := mkPlanReport en None [] f64_0 f64_0.

(** ** Draining *)

(** One request off the channel: the batch, what waits, whether the batch has an
    expensive one. *)
Definition drain_one (acc : list PlanRequest * list PlanRequest * bool) (r : PlanRequest) :
  list PlanRequest * list PlanRequest * bool :=
  let '(batch, deferred, have) := acc in
  match deferred with
  | _ :: _ => (batch, deferred ++ [r], have)
  | [] => if is_expensive r && have then (batch, [r], have) else (batch ++ [r], [], have || is_expensive r)
  end.

(** What a pass takes and what it leaves, of what waited and what arrived. *)
Definition drain_requests (waiting arrivals : list PlanRequest) : list PlanRequest * list PlanRequest :=
  let '(batch, deferred, _) := fold_left drain_one arrivals (waiting, [], existsb is_expensive waiting) in (batch, deferred).

Section Loop.
Context {V P : Type} `{Hp : !Planner V P}.

Record Plane := mkPlane {
  pn_planner : P;
  pn_deferred : list PlanRequest;
  pn_queued_duration : f64;
  pn_report : option PlanReport;
  (** What was sent to the command plane, what was served. *)
  pn_events : list PlanEvent;
  pn_served : list PlanRequest;
}.

Definition emit_event (e : PlanEvent) (s : Plane) : Plane :=
  mkPlane (pn_planner s) (pn_deferred s) (pn_queued_duration s) (pn_report s) (pn_events s ++ [e]) (pn_served s).
Definition with_planner (p : P) (s : Plane) : Plane :=
  mkPlane p (pn_deferred s) (pn_queued_duration s) (pn_report s) (pn_events s) (pn_served s).

Definition emit_fitted (s : Plane) : Plane :=
  let '(fitted, p) := pl_take_fitted_tool (pn_planner s) in
  let s := with_planner p s in
  match fitted with Some (tool, variant) => emit_event (PE_ToolFitted tool variant) s | None => s end.

(** [n.clamp(1, len)]. *)
Definition clamp_taken (n len : nat) : nat := Nat.min (Nat.max n 1) len.

Definition serve_start (v : V) (batch : list OwnedQueued) (s : Plane) : Plane :=
  match batch with
  | [] => s
  | head :: _ =>
      let '(started, p) := pl_start v batch (pn_planner s) in
      let s := emit_fitted (with_planner p s) in
      match started with
      | Ok n => emit_event (PE_Started (oq_index head) (clamp_taken n (length batch))) s
      | Err error => emit_event (PE_StartRejected (oq_index head) error) s
      end
  end.

(** A request, [apply_cheap] included. *)
Definition serve (v : V) (r : PlanRequest) (s : Plane) : Plane :=
  match r with
  | PR_Start batch => serve_start v batch s
  | PR_QueueEstimate pending =>
      let '(d, p) := pl_queued_duration v pending (pn_planner s) in
      mkPlane p (pn_deferred s) d (pn_report s) (pn_events s) (pn_served s)
  | PR_SetShapes tag layer shapes =>
      let '(verdict, p) := pl_set_shapes v layer shapes (pn_planner s) in
      emit_event (PE_ShapesApplied tag verdict) (with_planner p s)
  | PR_StartTool tag index cmd =>
      let '(verdict, p) := pl_start_tool v index cmd (pn_planner s) in
      emit_event (PE_ToolStarted tag verdict) (with_planner p s)
  | PR_Sync ctx => with_planner (pl_sync ctx (pn_planner s)) s
  | PR_Cancel halt_tool => with_planner (pl_cancel halt_tool (pn_planner s)) s
  | PR_CancelTool => with_planner (pl_cancel_tool (pn_planner s)) s
  | PR_ClearCollision => with_planner (pl_clear_collision (pn_planner s)) s
  end.

Definition note_served (r : PlanRequest) (s : Plane) : Plane :=
  mkPlane (pn_planner s) (pn_deferred s) (pn_queued_duration s) (pn_report s) (pn_events s) (pn_served s ++ [r]).

(** The requests of a batch, each with its view. *)
Fixpoint serve_all (views : nat -> V) (k : nat) (batch : list PlanRequest) (s : Plane) : Plane :=
  match batch with
  | [] => s
  | r :: batch => serve_all views (S k) batch (note_served r (serve (views k) r s))
  end.

Definition poll_outcome (v : V) (s : Plane) : Plane :=
  let '(out, p) := pl_poll v (pn_planner s) in
  let s := with_planner p s in
  match out with Some out => emit_event (PE_Outcome out) s | None => s end.

Definition poll_tool_outcome (v : V) (s : Plane) : Plane :=
  let '(out, p) := pl_poll_tool v (pn_planner s) in
  let s := with_planner p s in
  match out with Some out => emit_event (PE_ToolOutcome out) s | None => s end.

Definition publish_report (v : V) (s : Plane) : Plane :=
  let p := pn_planner s in
  mkPlane p (pn_deferred s) (pn_queued_duration s)
    (Some (mkPlanReport (pl_enablement p) (pl_collision p) (pl_warnings p) (pl_inflight_duration v p) (pn_queued_duration s)))
    (pn_events s) (pn_served s).

(** What a pass finds: the requests that have arrived, what each call sees. *)
Record Pass := mkPass { ps_arrivals : list PlanRequest; ps_views : nat -> V }.

Definition plane_pass (s : Plane) (t : Pass) : Plane :=
  let '(batch, deferred) := drain_requests (pn_deferred s) (ps_arrivals t) in
  let k := length batch in
  let s := mkPlane (pn_planner s) deferred (pn_queued_duration s) (pn_report s) (pn_events s) (pn_served s) in
  let s := serve_all (ps_views t) 0 batch s in
  let s := emit_fitted (poll_outcome (ps_views t k) s) in
  publish_report (ps_views t (S (S k))) (poll_tool_outcome (ps_views t (S k)) s).

Definition plane_new (p : P) : Plane := mkPlane p [] f64_0 None [] [].
Definition plane_run (s : Plane) (ts : list Pass) : Plane := fold_left plane_pass ts s.

(** ** What the thread promises *)

(** What an answer is to, what a request wants an answer to. *)
Inductive AnswerKey := AK_Index (i : Z) | AK_Tag (t : Z).

Definition answer_key (e : PlanEvent) : option AnswerKey :=
  match e with
  | PE_Started i _ | PE_StartRejected i _ => Some (AK_Index i)
  | PE_ToolStarted t _ | PE_ShapesApplied t _ => Some (AK_Tag t)
  | _ => None
  end.
Definition request_key (r : PlanRequest) : option AnswerKey :=
  match r with
  | PR_Start (head :: _) => Some (AK_Index (oq_index head))
  | PR_StartTool t _ _ | PR_SetShapes t _ _ => Some (AK_Tag t)
  | _ => None
  end.

Lemma drain_fold arrivals : forall acc, let '(b, d, _) := fold_left drain_one arrivals acc in
  b ++ d = fst (fst acc) ++ snd (fst acc) ++ arrivals.
Proof.
  induction arrivals as [|r l IH]; intros [[b d] h]; cbn [fold_left fst snd]; [by rewrite app_nil_r|].
  specialize (IH (drain_one (b, d, h) r)). destruct (fold_left drain_one l _) as [[b' d'] h']. rewrite IH. clear IH.
  unfold drain_one. destruct d; [destruct (is_expensive r && h)|]; cbn; by rewrite <- ?app_assoc.
Qed.

Lemma drain_keeps_order waiting arrivals :
  fst (drain_requests waiting arrivals) ++ snd (drain_requests waiting arrivals) = waiting ++ arrivals.
Proof.
  unfold drain_requests. pose proof (drain_fold arrivals (waiting, [], existsb is_expensive waiting)) as H.
  destruct (fold_left drain_one arrivals _) as [[b d] h]. exact H.
Qed.

(** Whatever waited is taken: only a request of this pass can wait for the next. *)
Lemma drain_takes_waiting waiting arrivals : exists more, fst (drain_requests waiting arrivals) = waiting ++ more.
Proof.
  unfold drain_requests. assert (H : forall acc, exists more, fst (fst (fold_left drain_one arrivals acc)) = fst (fst acc) ++ more).
  { induction arrivals as [|r l IH]; intros [[b d] h]; cbn [fold_left fst]; [by exists []; rewrite app_nil_r|].
    destruct (IH (drain_one (b, d, h) r)) as [more E]. rewrite E. unfold drain_one.
    destruct d; [destruct (is_expensive r && h)|]; cbn; [by exists more| |by exists more]. exists (r :: more). by rewrite <- app_assoc. }
  destruct (H (waiting, [], existsb is_expensive waiting)) as [more E]. exists more.
  destruct (fold_left drain_one arrivals _) as [[b d] h]. exact E.
Qed.

(** How many expensive requests a pass takes: one, or all of those that waited. *)
Definition expensive_count (l : list PlanRequest) : nat := length (List.filter is_expensive l).

Lemma drain_expensive waiting arrivals :
  (expensive_count (fst (drain_requests waiting arrivals)) <= Nat.max 1 (expensive_count waiting))%nat.
Proof.
  unfold drain_requests. set (bound := Nat.max 1 (expensive_count waiting)).
  assert (Hcount : forall b r, expensive_count (b ++ [r]) = (expensive_count b + if is_expensive r then 1 else 0)%nat).
  { intros b r. unfold expensive_count. rewrite List.filter_app, length_app. cbn. by destruct (is_expensive r). }
  assert (H : forall acc, (snd acc = false -> expensive_count (fst (fst acc)) = 0%nat) -> (expensive_count (fst (fst acc)) <= bound)%nat ->
    (expensive_count (fst (fst (fold_left drain_one arrivals acc))) <= bound)%nat).
  { induction arrivals as [|r l IH]; intros [[b d] h] H0 Hb; cbn [fold_left]; [done|]. apply IH; unfold drain_one; cbn [fst snd] in *;
      (destruct d; [|done]); destruct (is_expensive r) eqn:E, h; cbn [andb orb fst snd]; try done; rewrite Hcount, E;
      try specialize (H0 eq_refl); intros; unfold bound in *; lia. }
  specialize (H (waiting, [], existsb is_expensive waiting)). cbn [fst snd] in H.
  destruct (fold_left drain_one arrivals _) as [[b d] h]. apply H; [|lia].
  intros Hn. unfold expensive_count. replace (List.filter is_expensive waiting) with (@nil PlanRequest); [done|]. symmetry.
  clear -Hn. induction waiting as [|r l IH]; [done|]. cbn in *. apply orb_false_iff in Hn as [-> Hn]. by apply IH.
Qed.

(** Three that arrive together: one is served, and the next pass serves both others. *)
Lemma waiting_plans_run_together : let e i := PR_QueueEstimate [mkOwnedQueued i C_Reset] in
  drain_requests [] [e 1; e 2; e 3] = ([e 1], [e 2; e 3]) /\ drain_requests [e 2; e 3] [] = ([e 2; e 3], []).
Proof. done. Qed.

Definition keys_of (es : list PlanEvent) : list AnswerKey := omap answer_key es.

Definition taken_ok (e : PlanEvent) : Prop := match e with PE_Started _ n => (1 <= n)%nat | _ => True end.

Lemma emit_fitted_same s : pn_deferred (emit_fitted s) = pn_deferred s /\ pn_served (emit_fitted s) = pn_served s /\
  keys_of (pn_events (emit_fitted s)) = keys_of (pn_events s) /\
  (Forall taken_ok (pn_events s) -> Forall taken_ok (pn_events (emit_fitted s))).
Proof.
  unfold emit_fitted. destruct (pl_take_fitted_tool (pn_planner s)) as [[[tool var]|] p]; cbn; [|done].
  unfold keys_of. rewrite omap_app. cbn. rewrite app_nil_r. split_and!; [done..|]. intros H. apply Forall_app. by repeat constructor.
Qed.

(** A request is answered once, under the key it waits on. *)
Lemma serve_answers v r s : pn_deferred (serve v r s) = pn_deferred s /\ pn_served (serve v r s) = pn_served s /\
  keys_of (pn_events (serve v r s)) = keys_of (pn_events s) ++ match request_key r with Some k => [k] | None => [] end /\
  (Forall taken_ok (pn_events s) -> Forall taken_ok (pn_events (serve v r s))).
Proof.
  assert (Happ : forall l e, Forall taken_ok l -> taken_ok e -> Forall taken_ok (l ++ [e])).
  { intros. apply Forall_app. by repeat constructor. }
  destruct r as [batch|pending|tag layer shapes|tag index cmd|ctx|h| |]; cbn [serve request_key]; rewrite ?app_nil_r;
    try (split_and!; done).
  - destruct batch as [|head batch]; cbn [serve_start]; [rewrite app_nil_r; by split_and!|].
    destruct (pl_start v (head :: batch) (pn_planner s)) as [started p].
    destruct (emit_fitted_same (with_planner p s)) as (E1 & E2 & E3 & E4).
    destruct started; cbn [emit_event pn_deferred pn_served pn_events]; rewrite E1, E2; unfold keys_of in *; rewrite omap_app, E3;
      (split_and!; [done..|]); intros H; (apply Happ; [by apply E4|]); [cbn; unfold clamp_taken; cbn [length]; lia|done].
  - destruct (pl_queued_duration v pending (pn_planner s)) as [d p]. cbn. by rewrite ?app_nil_r.
  - destruct (pl_set_shapes v layer shapes (pn_planner s)) as [vd p]. cbn. unfold keys_of. rewrite omap_app. split_and!; [done..|]. intros H. by apply Happ.
  - destruct (pl_start_tool v index cmd (pn_planner s)) as [vd p]. cbn. unfold keys_of. rewrite omap_app. split_and!; [done..|]. intros H. by apply Happ.
Qed.

Lemma serve_all_answers views batch : forall k s, let s' := serve_all views k batch s in
  pn_deferred s' = pn_deferred s /\ pn_served s' = pn_served s ++ batch /\
  keys_of (pn_events s') = keys_of (pn_events s) ++ omap request_key batch /\
  (Forall taken_ok (pn_events s) -> Forall taken_ok (pn_events s')).
Proof.
  induction batch as [|r batch IH]; intros k s; cbn [serve_all]; [cbn; by rewrite !app_nil_r|]. cbv zeta.
  destruct (serve_answers (views k) r s) as (E1 & E2 & E3 & E4).
  destruct (IH (S k) (note_served r (serve (views k) r s))) as (F1 & F2 & F3 & F4). cbn [note_served pn_deferred pn_served pn_events] in *.
  rewrite F1, F2, F3, E1, E2, E3. split_and!; [done|by rewrite <- app_assoc| |auto].
  rewrite <- app_assoc. cbn. by destruct (request_key r).
Qed.

(** Polling answers no request. *)
Lemma poll_outcome_same v s : pn_deferred (poll_outcome v s) = pn_deferred s /\ pn_served (poll_outcome v s) = pn_served s /\
  keys_of (pn_events (poll_outcome v s)) = keys_of (pn_events s) /\
  (Forall taken_ok (pn_events s) -> Forall taken_ok (pn_events (poll_outcome v s))).
Proof.
  unfold poll_outcome. destruct (pl_poll v (pn_planner s)) as [[out|] p]; cbn; [|done].
  unfold keys_of. rewrite omap_app. cbn. rewrite app_nil_r. split_and!; [done..|]. intros H. apply Forall_app. by repeat constructor.
Qed.
Lemma poll_tool_same v s : pn_deferred (poll_tool_outcome v s) = pn_deferred s /\ pn_served (poll_tool_outcome v s) = pn_served s /\
  keys_of (pn_events (poll_tool_outcome v s)) = keys_of (pn_events s) /\
  (Forall taken_ok (pn_events s) -> Forall taken_ok (pn_events (poll_tool_outcome v s))).
Proof.
  unfold poll_tool_outcome. destruct (pl_poll_tool v (pn_planner s)) as [[out|] p]; cbn; [|done].
  unfold keys_of. rewrite omap_app. cbn. rewrite app_nil_r. split_and!; [done..|]. intros H. apply Forall_app. by repeat constructor.
Qed.

(** The thread as a queue: what it served and what waits is what arrived, in order; the
    answers are those of the requests served, in order. *)
Record plane_ok (arrived : list PlanRequest) (s : Plane) : Prop := mkPlaneOk {
  po_order : pn_served s ++ pn_deferred s = arrived;
  po_answers : keys_of (pn_events s) = omap request_key (pn_served s);
  po_taken : Forall taken_ok (pn_events s);
}.

Lemma pass_fields s t :
  let batch := fst (drain_requests (pn_deferred s) (ps_arrivals t)) in
  let s' := plane_pass s t in
  pn_deferred s' = snd (drain_requests (pn_deferred s) (ps_arrivals t)) /\ pn_served s' = pn_served s ++ batch /\
  keys_of (pn_events s') = keys_of (pn_events s) ++ omap request_key batch /\
  (Forall taken_ok (pn_events s) -> Forall taken_ok (pn_events s')).
Proof.
  unfold plane_pass. destruct (drain_requests (pn_deferred s) (ps_arrivals t)) as [batch deferred]. cbn [fst snd]. cbv zeta.
  set (s0 := mkPlane _ deferred _ _ _ _). destruct (serve_all_answers (ps_views t) batch 0 s0) as (A1 & A2 & A3 & A4).
  set (s1 := serve_all _ _ _ _) in *. destruct (poll_outcome_same (ps_views t (length batch)) s1) as (B1 & B2 & B3 & B4).
  set (s2 := poll_outcome _ s1) in *. destruct (emit_fitted_same s2) as (C1 & C2 & C3 & C4). set (s3 := emit_fitted s2) in *.
  destruct (poll_tool_same (ps_views t (S (length batch))) s3) as (D1 & D2 & D3 & D4).
  cbn [publish_report pn_deferred pn_served pn_events].
  rewrite D1, C1, B1, A1, D2, C2, B2, A2, D3, C3, B3, A3. split_and!; [done..|]. intros H. apply D4, C4, B4, A4. exact H.
Qed.

Lemma pass_ok arrived s t : plane_ok arrived s -> plane_ok (arrived ++ ps_arrivals t) (plane_pass s t).
Proof.
  intros [H1 H2 H3]. destruct (pass_fields s t) as (E1 & E2 & E3 & E4). constructor.
  - rewrite E1, E2, <- app_assoc, drain_keeps_order, app_assoc. by rewrite H1.
  - by rewrite E2, E3, omap_app, H2.
  - by apply E4.
Qed.

(** C17: the planner thread is a queue.  However requests arrive and whatever the
    planner answers, what it has served and what waits is everything that arrived, in
    arrival order; a request is served in the pass it arrives in or in the next; every
    request that wants an answer gets exactly one when it is served, in that order and
    under its own index or tag; and a start that succeeds covers at least its head. *)
Theorem planner_thread_is_a_queue p ts t :
  let s := plane_run (plane_new p) ts in let s' := plane_pass s t in
  plane_ok (concat (map ps_arrivals ts)) s /\
  (exists more, pn_served s' = pn_served s ++ pn_deferred s ++ more).
Proof.
  cbv zeta. split.
  - unfold plane_run. induction ts as [|t' ts IH] using rev_ind; [by constructor|].
    rewrite fold_left_app, map_app, concat_app. cbn. rewrite app_nil_r. by apply pass_ok.
  - destruct (pass_fields (plane_run (plane_new p) ts) t) as (_ & E2 & _). destruct (drain_takes_waiting (pn_deferred (plane_run (plane_new p) ts)) (ps_arrivals t)) as [more E].
    exists more. by rewrite E2, E.
Qed.

End Loop.
Arguments Plane : clear implicits.
Arguments Pass : clear implicits.
