(* ===== verification/Planner.v ===== *)
(** * Planner: the queued-command executor of the daemon
    (crates/par6d/src/planner.rs)

    What is in flight, how it ends, what it feeds into the sample ring and sends the
    core.  How a motion is computed (kinematics, timing, the collision world) is the
    class [PlanDeps] over the world [W]; the ring is the one of [Ring], the consumer
    of which may take samples between any two calls. *)
From Stdlib Require Import SpecFloat.
From stdpp Require Import gmap.
From S2P Require Import Prelude F64 Wire Enums Command CommandCodec WireError Reply Chunk BusTypes Ring RtState.
From S2P Require Import Gripper Convert HomingConfig RobotSchema RobotValidate ConfigBundle CoreState Core ExecTick ServerGate ServerTypes ServerQueue.
From S2P Require Import ServerDispatch Plane.

(** [Duration]s and [Instant]s in nanoseconds. *)
Definition MODE_GRACE : Z := 2000000000.
Definition GRIPPER_RETUNE_REPEATS : Z := 4.

Inductive Profile := Pf_Ruckig | Pf_Trapezoid | Pf_Quintic | Pf_Septic | Pf_Toppra | Pf_Linear.

Definition PROFILES : list (string * Profile) :=
  [("TOPPRA", Pf_Toppra); ("RUCKIG", Pf_Ruckig); ("TRAPEZOID", Pf_Trapezoid); ("QUINTIC", Pf_Quintic); ("SEPTIC", Pf_Septic);
   ("LINEAR", Pf_Linear)]%string.

Definition profile_from_name (name : bytes) : option Profile :=
  snd <$> List.find (fun '(n, _) => bool_decide (str_bytes n = name)) PROFILES.
Definition profile_default : Profile := Pf_Toppra.
Definition profile_names : list bytes := map (fun '(n, _) => str_bytes n) PROFILES.
Definition DEFAULT_PROFILE : bytes := str_bytes "TOPPRA".

(** ** Blend chains *)

(** [CartMove::of], [JointTarget::of]: the family a command blends in. *)
Definition is_cart_move (cmd : Command) : bool := match cmd with C_MoveL _ | C_MoveC _ => true | _ => false end.
Definition is_joint_move (cmd : Command) : bool := match cmd with C_MoveJ _ | C_MoveJPose _ => true | _ => false end.

Definition same_family (cmd next : Command) : bool := if is_cart_move cmd then is_cart_move next else is_joint_move next.

Definition rounds (cmd : Command) : bool := match blend_radius_mm cmd with Some r => f64_gt r f64_0 | None => false end.

(** The commands of [rest] the chain takes, [previous] being its end so far. *)
Fixpoint chain_from (head previous : Command) (rest : list OwnedQueued) : nat :=
  match rest with
  | next :: rest =>
      if rounds previous && same_family head (oq_cmd next) then S (chain_from head (oq_cmd next) rest) else 0
  | [] => 0
  end.

Definition blend_chain_len (cmd : Command) (rest : list OwnedQueued) : option nat :=
  if negb (is_cart_move cmd) && negb (is_joint_move cmd) then None
  else match chain_from cmd cmd rest with O => None | n => Some n end.

(** ** Motions *)

(** A tick of a timed motion: positions, velocities, accelerations. *)
Definition Plot : Type := list f64 * list f64 * list f64.

(** A timed motion; a cartesian one also sets the near-singularity warning. *)
Record Plotted := mkPlotted { pt_plots : list Plot; pt_singularity : option (option WireError) }.

(** What the planner calls: kinematics, timing, the collision world, model loading. *)
Class PlanDeps (W : Type) := {
  (** The motion of a move, or of the chain it heads, from the measured joints. *)
  pd_plan : W -> Profile -> list f64 -> list Command -> result WireError Plotted;
  pd_home_return : W -> Profile -> list f64 -> result WireError Plotted;
  pd_accel_gate : W -> list (list f64) -> option WireError;
  pd_feedforward : W -> list f64 -> list f64 -> list f64 -> option (list f32);
  (** A refusal of a whole motion, of what is left of a running one: the error, and the
      pairs it would collide at. *)
  pd_collision_gate : W -> list f64 -> list Sample -> option (WireError * option CollisionState);
  pd_revalidate : W -> list f64 -> list Sample -> option (WireError * option CollisionState);
  (** The ticks of a joint move under a profile, from a configuration to another. *)
  pd_joint_ticks : W -> Profile -> list f64 -> list f64 -> option f64 -> option f64 -> option f64 -> option nat;
  pd_probe : W -> list f64 -> W * option Enablement;
  pd_set_shapes : W -> ShapeLayer -> list Shape -> result WireError (W * Z);
  pd_rebuild : W -> ToolConfig -> PayloadSpec -> result bytes W;
  pd_set_payload : W -> PayloadSpec -> option W;
  pd_set_tcp : W -> list f64 -> list f64 -> W;
}.

(** ** State *)

Inductive InFlightKind :=
| IK_Tool (epoch_at_send : Z)
| IK_Exec (ring_index : Z) (samples : list Sample) (cursor : nat) (seen_exec : bool)
| IK_Home (seen_homing : bool)
| IK_Delay (target_tick paused_ticks_at_start : Z)
| IK_ToolSwap (swap : nat)
| IK_Instant.

Record InFlight := mkInFlight { if_server_index : Z; if_started : Z; if_kind : InFlightKind }.
Record ToolStopInFlight := mkToolStop { tsf_server_index : Z; tsf_epoch_at_send : Z }.

(** What goes to the core, in order: commands, and the operations run between ticks. *)
Inductive LinkItem :=
| L_Send (cmd : RtCommand)
| L_SettlePolicy (policy : CompletionPolicy)
| L_FitTool (swap : nat) (tool : ToolConfig) (node : Z) (repeats : Z) (offsets : list (nat * real)).

(** What a call reads from outside: the latest snapshot, the clock, the swaps the core
    has applied. *)
Record PlanView := mkPlanView {
  vw_snap : StateSnapshot;
  vw_q : list f64;
  vw_exec : ExecTick.ExecStatus;
  vw_tool : ToolStatus;
  vw_bus_simulated : bool;
  vw_now : Z;
  vw_applied : nat -> bool;
}.

Section Planner.
Context `{Hshow : !Show} {W : Type} `{Hdeps : !PlanDeps W}.

Record Par6Planner := mkPlanner {
  p_ring : RingShared;
  p_link : list LinkItem;
  (** The samples pushed, the feeds of the EXEC heartbeat. *)
  p_pushed : list Sample;
  p_fed : nat;
  p_next_ring_index : Z;
  p_ticks_per_s : f64;
  p_dt : f64;
  p_policy : CompletionPolicy;
  p_profile : Profile;
  p_tool : option real;
  p_inflight : option InFlight;
  p_tool_stop : option ToolStopInFlight;
  p_enablement : Enablement;
  p_near_singularity : option WireError;
  p_world : W;
  p_collision_latch : CollisionState;
  p_invalidated : option CommandOutcome;
  p_payload : PayloadSpec;
  p_bundle : ConfigBundle;
  p_tool_change : option (bytes * option bytes);
  p_fitted_tool : string;
  p_drive_tool_refused : option Z;
  p_swaps : nat;
}.

Definition planner_eta (p : Par6Planner) : Par6Planner :=
  mkPlanner (p_ring p) (p_link p) (p_pushed p) (p_fed p) (p_next_ring_index p) (p_ticks_per_s p) (p_dt p) (p_policy p) (p_profile p)
    (p_tool p) (p_inflight p) (p_tool_stop p) (p_enablement p) (p_near_singularity p) (p_world p) (p_collision_latch p)
    (p_invalidated p) (p_payload p) (p_bundle p) (p_tool_change p) (p_fitted_tool p) (p_drive_tool_refused p) (p_swaps p).

Ltac put_planner getter p v :=
  let t := eval unfold planner_eta in (planner_eta p) in
  lazymatch t with context T [getter p] => let t' := context T [v] in exact t' end.

Definition pp_ring (v : RingShared) (p : Par6Planner) : Par6Planner := ltac:(put_planner p_ring p v).
Definition pp_link (v : list LinkItem) (p : Par6Planner) : Par6Planner := ltac:(put_planner p_link p v).
Definition pp_pushed (v : list Sample) (p : Par6Planner) : Par6Planner := ltac:(put_planner p_pushed p v).
Definition pp_fed (v : nat) (p : Par6Planner) : Par6Planner := ltac:(put_planner p_fed p v).
Definition pp_next_ring_index (v : Z) (p : Par6Planner) : Par6Planner := ltac:(put_planner p_next_ring_index p v).
Definition pp_policy (v : CompletionPolicy) (p : Par6Planner) : Par6Planner := ltac:(put_planner p_policy p v).
Definition pp_profile (v : Profile) (p : Par6Planner) : Par6Planner := ltac:(put_planner p_profile p v).
Definition pp_tool (v : option real) (p : Par6Planner) : Par6Planner := ltac:(put_planner p_tool p v).
Definition pp_inflight (v : option InFlight) (p : Par6Planner) : Par6Planner := ltac:(put_planner p_inflight p v).
Definition pp_tool_stop (v : option ToolStopInFlight) (p : Par6Planner) : Par6Planner := ltac:(put_planner p_tool_stop p v).
Definition pp_enablement (v : Enablement) (p : Par6Planner) : Par6Planner := ltac:(put_planner p_enablement p v).
Definition pp_near_singularity (v : option WireError) (p : Par6Planner) : Par6Planner := ltac:(put_planner p_near_singularity p v).
Definition pp_world (v : W) (p : Par6Planner) : Par6Planner := ltac:(put_planner p_world p v).
Definition pp_collision_latch (v : CollisionState) (p : Par6Planner) : Par6Planner := ltac:(put_planner p_collision_latch p v).
Definition pp_invalidated (v : option CommandOutcome) (p : Par6Planner) : Par6Planner := ltac:(put_planner p_invalidated p v).
Definition pp_payload (v : PayloadSpec) (p : Par6Planner) : Par6Planner := ltac:(put_planner p_payload p v).
Definition pp_tool_change (v : option (bytes * option bytes)) (p : Par6Planner) : Par6Planner := ltac:(put_planner p_tool_change p v).
Definition pp_fitted_tool (v : string) (p : Par6Planner) : Par6Planner := ltac:(put_planner p_fitted_tool p v).
Definition pp_drive_tool_refused (v : option Z) (p : Par6Planner) : Par6Planner := ltac:(put_planner p_drive_tool_refused p v).
Definition pp_swaps (v : nat) (p : Par6Planner) : Par6Planner := ltac:(put_planner p_swaps p v).

Definition link_send (i : LinkItem) (p : Par6Planner) : Par6Planner := pp_link (p_link p ++ [i]) p.
Definition send_core (cmd : RtCommand) : Par6Planner -> Par6Planner := link_send (L_Send cmd).
Definition feed (p : Par6Planner) : Par6Planner := pp_fed (S (p_fed p)) p.

(** Nothing measured yet claims no freedom. *)
Definition NO_FREEDOM : Enablement := mkEnablement (replicate EN_SLOTS 0) (replicate EN_SLOTS 0) (replicate EN_SLOTS 0).

Definition planner_new (ring : RingShared) (dt : f64) (b : ConfigBundle) (w : W) : Par6Planner :=
  mkPlanner ring [] [] 0 1 (f64_div f64_1 dt) dt CP_Settled profile_default
    (match active_tool b with Some g => gc_ilim_ma <$> tl_driver g | None => None end)
    None None NO_FREEDOM None w collision_default None payload_default b None (rs_active_tool (rc_robot (cb_robot b))) None 0.

Definition refusal (code : WErrorCode) (detail : bytes) : WireError := make_error code UNATTRIBUTED [("detail"%string, detail)].
Definition invalid (detail : string) : WireError := refusal WE_CommValidationError (str_bytes detail).

(** ** Starting a motion *)

Definition seconds_squared (p : Par6Planner) : f64 := f64_mul (p_dt p) (p_dt p).

(** The acceleration the first tick of a motion starts with. *)
Definition first_acceleration (p : Par6Planner) (start_q q qd : list f64) : list f64 :=
  zip_with (fun '(q, q0) qd =>
    f64_div (f64_sub (f64_mul (f64_of_int 6) (f64_sub q q0)) (f64_mul (f64_mul (f64_of_int 2) qd) (p_dt p))) (seconds_squared p))
    (zip q start_q) qd.

Definition zeros32 : list f32 := replicate Ring.MAX_JOINTS 0.
Definition zeros64 : list f64 := replicate Ring.MAX_JOINTS f64_0.

(** A planned tick as a sample of the ring; a model that fails gives no feedforward. *)
Definition ring_sample (p : Par6Planner) (start_q : list f64) (ring_index : Z) (n k : nat) (plot : Plot) : Sample :=
  let '(q, qd, qdd) := plot in
  let start :=
    if (k =? 0)%nat then
      Some (mkSampleStart start_q (default zeros32 (pd_feedforward (p_world p) start_q zeros64 (first_acceleration p start_q q qd))))
    else None in
  let '(tau, inertia) :=
    match pd_feedforward (p_world p) q qd qdd, pd_feedforward (p_world p) q zeros64 qd with
    | Some tau, Some inertia => (tau, inertia)
    | _, _ => (zeros32, zeros32)
    end in
  mkSample q qd tau inertia start (mkSampleMeta ring_index ring_index (k + 1 =? n)%nat).

Definition latch_collision (latch : option CollisionState) (p : Par6Planner) : Par6Planner :=
  match latch with Some latch => pp_collision_latch latch p | None => p end.

(** [checked_add(1).unwrap_or(1)] of a u32. *)
Definition next_index (i : Z) : Z := if i =? 2 ^ 32 - 1 then 1 else i + 1.

Definition start_exec (start_q : list f64) (plots : list Plot) (seen_exec : bool) (p : Par6Planner) :
  result WireError InFlightKind * Par6Planner :=
  match pd_accel_gate (p_world p) (map (fun '(_, qd, _) => qd) plots) with
  | Some e => (Err e, p)
  | None =>
      let ring_index := p_next_ring_index p in
      let samples := imap (ring_sample p start_q ring_index (length plots)) plots in
      match pd_collision_gate (p_world p) start_q samples with
      | Some (e, latch) => (Err e, latch_collision latch p)
      | None =>
          let p := pp_ring (fst (begin_generation (p_ring p))) p in
          let p := feed (send_core (RC_SetMode Exec) (pp_next_ring_index (next_index ring_index) p)) in
          (Ok (IK_Exec ring_index samples 0 seen_exec), p)
      end
  end.

Definition in_exec (v : PlanView) : bool := bool_decide (ss_mode (vw_snap v) = Exec).

(** A timed motion, started unless there is nothing to move. *)
Definition start_plotted (v : PlanView) (plotted : result WireError Plotted) (p : Par6Planner) :
  result WireError InFlightKind * Par6Planner :=
  match plotted with
  | Err e => (Err e, p)
  | Ok plotted =>
      match pt_plots plotted with
      | [] => (Ok IK_Instant, p)
      | plots =>
          match start_exec (vw_q v) plots (in_exec v) p with
          | (Err e, p) => (Err e, p)
          | (Ok kind, p) => (Ok kind, match pt_singularity plotted with Some s => pp_near_singularity s p | None => p end)
          end
      end
  end.

Definition start_motion (v : PlanView) (cmds : list Command) (p : Par6Planner) : result WireError InFlightKind * Par6Planner :=
  start_plotted v (pd_plan (p_world p) (p_profile p) (vw_q v) cmds) p.
Definition start_home_return (v : PlanView) (p : Par6Planner) : result WireError InFlightKind * Par6Planner :=
  start_plotted v (pd_home_return (p_world p) (p_profile p) (vw_q v)) p.

(** ** Tools *)

Definition scalars (n : nat) (params : list ToolParam) : option (list f64) :=
  if (length params =? n)%nat then
    mapM (fun t => match t with TP_Float v => Some v | TP_Int v => Some (f64_of_int v) | _ => None end) params
  else None.

Definition outside_unit (v : f64) : bool := negb (f64_is_finite v) || negb (f64_ge v f64_0 && f64_le v f64_1).

(** The first of the three scalars outside [0, 1]. *)
Definition scalar_refusal (position speed current : f64) : option WireError :=
  match List.find (fun '(_, v) => outside_unit v)
          [("position", position); ("speed", speed); ("current", current)]%string with
  | Some (what, v) =>
      Some (refusal WE_CommValidationError (str_bytes (what ++ " = ") ++ show_f64 Display v ++ str_bytes " is outside [0, 1]"))
  | None => None
  end.

(** [gripper_move_command] (bridge.rs). *)
Definition unit_byte (v : real) : Z := sf_round_as_uint 8 (sf_mul (sf_clamp (sf_of_int 0) (sf_of_int 1) v) (sf_of_int 255)).
Definition gripper_move_command (closed speed current_ma : real) : FirmwareGripperCommand :=
  mkFw (unit_byte closed) (unit_byte speed) (sf_round_as_sint 16 (sf_clamp (sf_of_int 0) (sf_of_int 32767) current_ma))
    true true false false.

Definition gripper_calibrated (v : PlanView) : bool :=
  match ss_gripper_reply (vw_snap v) with Some r => gr_calibrated r | None => false end.

Definition quoted (pre : string) (s : bytes) (post : string) : bytes := str_bytes pre ++ s ++ str_bytes post.

(** The actions without parameters. *)
Definition plain_action (name : string) (params : list ToolParam) (cmd : RtCommand) (p : Par6Planner) : result WireError unit * Par6Planner :=
  match params with [] => (Ok tt, send_core cmd p) | _ => (Err (invalid (name ++ " takes no parameters")), p) end.

Definition start_tool_action (v : PlanView) (cmd : ToolAction) (p : Par6Planner) : result WireError Z * Par6Planner :=
  match p_tool p with
  | None => (Err (refusal WE_CommValidationError (quoted "tool '" (ta_tool_key cmd) "' has no driver: it takes no actions")), p)
  | Some ilim_ma =>
      let epoch_at_send := tl_epoch (vw_tool v) in
      let action := ta_action cmd in
      let '(r, p) :=
        if bool_decide (action = str_bytes "move") then
          match scalars 3 (ta_params cmd) with
          | Some [position; speed; current] =>
              match scalar_refusal position speed current with
              | Some e => (Err e, p)
              | None =>
                  if negb (gripper_calibrated v)
                  then (Err (invalid "the gripper is not calibrated: run the calibrate action first"), p)
                  else (Ok tt, send_core (RC_Gripper (gripper_move_command (f64_to_SF position) (f64_to_SF speed)
                                      (sf_mul (f64_to_SF current) ilim_ma))) p)
              end
          | _ => (Err (invalid "move takes [position, speed, current]"), p)
          end
        else if bool_decide (action = str_bytes "calibrate") then plain_action "calibrate" (ta_params cmd) RC_GripperCalibrate p
        else if bool_decide (action = str_bytes "stop") then plain_action "stop" (ta_params cmd) RC_GripperStop p
        else if bool_decide (action = str_bytes "idle") then plain_action "idle" (ta_params cmd) RC_GripperIdle p
        else (Err (refusal WE_CommValidationError
                 (quoted "tool '" (ta_tool_key cmd) "' has no action '" ++ action ++ str_bytes "' (move | calibrate | stop | idle)")), p) in
      (match r with Ok _ => Ok epoch_at_send | Err e => Err e end, p)
  end.

(** Whether the gripper drive is heard, and what tool it says it is. *)
Definition drive_heard (v : PlanView) : bool :=
  match ss_node_freshness (vw_snap v) !! Ring.MAX_JOINTS with Some (Fr_Fresh | Fr_Stale) => true | _ => false end.
Definition drive_info (v : PlanView) : option DeviceInfo :=
  match ss_nodes (vw_snap v) !! Ring.MAX_JOINTS with Some n => ns_device_info n | None => None end.

(** The configured tool a live drive says is on the arm. *)
Definition reported_tool (v : PlanView) (b : ConfigBundle) : option (Z * string) :=
  match drive_info v with
  | Some d =>
      if di_tool_id d =? 0 then None else (fun t => (di_tool_id d, tl_name t)) <$> tool_by_can_id b (di_tool_id d)
  | None => None
  end.

(** The home offsets a tool declares, of the joints whose reference depends on it. *)
Definition tool_offset (b : ConfigBundle) (t : ToolConfig) (j : nat) (home : JointHoming) : list (nat * real) :=
  if jh_home_offset_gripper_dependent home then
    [(j, match List.find (fun o => ao_joint o =? Z.of_nat j) (tl_arm_joint_home_offsets t) with
         | Some o => ao_home_offset_rad o
         | None => jh_home_offset_rad home
         end)]
  else [].
Definition tool_offsets (b : ConfigBundle) (t : ToolConfig) : list (nat * real) :=
  concat (imap (tool_offset b t) (take Ring.MAX_JOINTS (hc_joints (rc_homing (cb_robot b))))).

Definition cannot_fit (detail : bytes) : WireError := refusal WE_MotnSetupFailed detail.

(** What a live drive has to say against fitting a tool. *)
Definition drive_refusal (v : PlanView) (b : ConfigBundle) (t : ToolConfig) : option WireError :=
  if negb (vw_bus_simulated v) && drive_heard v then
    match drive_info v with
    | None =>
        Some (cannot_fit (str_bytes "the gripper drive has not reported which tool it is yet; select again in a moment"))
    | Some _ =>
        match reported_tool v b with
        | Some (id, on_arm) =>
            if String.eqb on_arm (tl_name t) then None
            else Some (cannot_fit (str_bytes "the gripper drive reports tool id " ++ show_int id ++ str_bytes ", `" ++ str_bytes on_arm ++
              str_bytes "`: that is the tool on the arm; select it, or provision the drive with `par6 tool-id` after changing the tool"))
        | None => None
        end
    end
  else None.

(** [Ok None]: the tool is the fitted one; [Ok (Some _)]: the swap to wait for. *)
Definition adopt_tool (v : PlanView) (name : bytes) (p : Par6Planner) : result WireError (option nat) * Par6Planner :=
  if eq_ignore_case name (str_bytes (p_fitted_tool p)) then (Ok None, p)
  else
    match List.find (fun g => eq_ignore_case (str_bytes (tl_name g)) name) (cb_tools (p_bundle p)) with
    | None => (Err (cannot_fit (quoted "no tool named '" name "'")), p)
    | Some gripper =>
        match drive_refusal v (p_bundle p) gripper with
        | Some e => (Err e, p)
        | None =>
            match pd_rebuild (p_world p) gripper (p_payload p) with
            | Err detail => (Err (cannot_fit detail), p)
            | Ok world =>
                let swap := p_swaps p in
                let p := link_send (L_FitTool swap gripper (bc_gripper_node (rc_bus (cb_robot (p_bundle p)))) GRIPPER_RETUNE_REPEATS
                  (tool_offsets (p_bundle p) gripper)) (pp_swaps (S swap) p) in
                (Ok (Some swap), pp_fitted_tool (tl_name gripper) (pp_tool (gc_ilim_ma <$> tl_driver gripper) (pp_world world p)))
            end
        end
    end.

Definition fitted_can_id (p : Par6Planner) : option Z :=
  match List.find (fun t => eq_ignore_case (str_bytes (tl_name t)) (str_bytes (p_fitted_tool p))) (cb_tools (p_bundle p)) with
  | Some t => tl_can_tool_id t
  | None => None
  end.

Definition follow_drive_tool (v : PlanView) (p : Par6Planner) : Par6Planner :=
  if vw_bus_simulated v || bool_decide (is_Some (p_inflight p)) || negb (bool_decide (ss_mode (vw_snap v) = Booting)) then p
  else
    match drive_info v with
    | None => p
    | Some d =>
        let id := di_tool_id d in
        if id =? 0 then p
        else if bool_decide (fitted_can_id p = Some id) || bool_decide (p_drive_tool_refused p = Some id) then p
        else
          match tool_by_can_id (p_bundle p) id with
          | None => pp_drive_tool_refused (Some id) p
          | Some t =>
              match adopt_tool v (str_bytes (tl_name t)) p with
              | (Ok (Some _), p) => pp_tool_change (Some (str_bytes (p_fitted_tool p), None)) p
              | (Ok None, p) => p
              | (Err _, p) => pp_drive_tool_refused (Some id) p
              end
          end
    end.

(** ** Planning a command *)

(** The name [{:?}] prints of a command tag. *)
Fixpoint camel (up : bool) (l : list ascii) : list ascii :=
  match l with
  | [] => []
  | c :: l =>
      if Ascii.eqb c "_"%char then camel true l
      else (if up then ascii_of_N (N_of_ascii c - 32) else c) :: camel false l
  end.
Definition variant_name (t : CmdType) : string :=
  match t with
  | T_ServoJPose => "ServoJPose"
  | T_MoveJPose => "MoveJPose"
  | t => string_of_list_ascii (camel true (list_ascii_of_string (cmd_name t)))
  end.

Definition plan_ticks (seconds ticks_per_s : f64) : Z :=
  Z.max 1 (sf_round_as_uint 64 (sf_mul (f64_to_SF seconds) (f64_to_SF ticks_per_s))).

Definition ok_kind (k : InFlightKind) (p : Par6Planner) : result WireError InFlightKind * Par6Planner := (Ok k, p).

Definition plan_one (v : PlanView) (cmd : Command) (p : Par6Planner) : result WireError InFlightKind * Par6Planner :=
  match cmd with
  | C_MoveJ _ | C_MoveJPose _ | C_MoveL _ | C_MoveC _ | C_MoveS _ | C_MoveP _ => start_motion v [cmd] p
  | C_Home h =>
      if bool_decide (ss_mode (vw_snap v) = Flashing) then (Err (invalid "home while the controller is FLASHING"), p)
      else if ss_homed (vw_snap v) && negb (home_calibrate h) then start_home_return v p
      else ok_kind (IK_Home false) (send_core (RC_SetMode Homing) (send_core (RC_SetMode Idle) p))
  | C_Delay d =>
      ok_kind (IK_Delay (ss_tick (vw_snap v) + plan_ticks (dl_seconds d) (p_ticks_per_s p)) (es_paused_ticks (vw_exec v))) p
  | C_SelectTool t =>
      match adopt_tool v (st_tool_name t) p with
      | (Err e, p) => (Err e, p)
      | (Ok (Some swap), p) => ok_kind (IK_ToolSwap swap) (pp_tool_change (Some (str_bytes (p_fitted_tool p), st_variant_key t)) p)
      | (Ok None, p) => ok_kind IK_Instant p
      end
  | C_Checkpoint _ | C_SetTcpOffset _ | C_SetTcpTransform _ | C_WriteIo _ => ok_kind IK_Instant p
  | C_ToolAction t =>
      match start_tool_action v t p with (Err e, p) => (Err e, p) | (Ok epoch, p) => ok_kind (IK_Tool epoch) p end
  | other => (Err (refusal WE_CommValidationError (quoted "" (str_bytes (variant_name (tag other))) " is not a queued command")), p)
  end.

(** What is now in flight and how many commands it covers. *)
Definition plan_command (v : PlanView) (cmd : Command) (rest : list OwnedQueued) (p : Par6Planner) :
  result WireError (InFlightKind * nat) * Par6Planner :=
  match blend_chain_len cmd rest with
  | Some consumed =>
      match start_motion v (cmd :: map oq_cmd (take consumed rest)) p with
      | (Err e, p) => (Err e, p)
      | (Ok kind, p) => (Ok (kind, S consumed), p)
      end
  | None =>
      match plan_one v cmd p with
      | (Err e, p) => (Err e, p)
      | (Ok kind, p) => (Ok (kind, 1%nat), p)
      end
  end.

(** Samples into the ring until it is full: how many went. *)
Fixpoint push_samples (samples : list Sample) (r : RingShared) : RingShared * nat :=
  match samples with
  | [] => (r, 0%nat)
  | s :: samples =>
      match try_push r s with
      | (r, true) => let '(r, n) := push_samples samples r in (r, S n)
      | (r, false) => (r, 0%nat)
      end
  end.

Definition pump_ring (p : Par6Planner) : Par6Planner :=
  match p_inflight p with
  | Some (mkInFlight index started (IK_Exec ring_index samples cursor seen)) =>
      let '(r, n) := push_samples (drop cursor samples) (p_ring p) in
      pp_inflight (Some (mkInFlight index started (IK_Exec ring_index samples (cursor + n) seen)))
        (pp_pushed (p_pushed p ++ take n (drop cursor samples)) (pp_ring r p))
  | _ => p
  end.

Definition discard_planned (p : Par6Planner) : Par6Planner :=
  send_core RC_ExecStop (pp_ring (fst (mark (p_ring p))) (pp_inflight None p)).

Definition start (v : PlanView) (batch : list OwnedQueued) (p : Par6Planner) : result WireError nat * Par6Planner :=
  match batch with
  | [] => (Err (invalid "the planner was started with an empty batch"), p)
  | head :: rest =>
      match plan_command v (oq_cmd head) rest p with
      | (Err e, p) => (Err e, p)
      | (Ok (kind, consumed), p) =>
          (Ok consumed, pump_ring (pp_inflight (Some (mkInFlight (oq_index head) (vw_now v) kind)) p))
      end
  end.

(** ** How a command ends *)

(** The ticks a delay owes: those it spent paused do not count. *)
Definition delay_remaining_ticks (v : PlanView) (target_tick paused_ticks_at_start : Z) : Z :=
  let elapsed_pause := saturating_sub (es_paused_ticks (vw_exec v)) paused_ticks_at_start in
  saturating_sub target_tick (saturating_sub (ss_tick (vw_snap v)) elapsed_pause).

Definition od_code (d : ObjectDetection) : Z :=
  match d with OD_Moving => 0 | OD_DetectedClosing => 1 | OD_DetectedOpening => 2 | OD_ReachedNoObject => 3 end.
Definition wait_text (w : ToolWait) : bytes :=
  str_bytes match w with TW_Move => "move" | TW_Calibrate => "calibrate" | TW_Hold => "stop" | TW_Idle => "idle" end.

(** A verdict: success with a settle code, or an error. *)
Definition Verdict_ : Type := result WireError (option Z).

Definition tool_settle (v : PlanView) (epoch_at_send : Z) : option Verdict_ :=
  if tl_epoch (vw_tool v) =? epoch_at_send then None
  else
    match tl_verdict (vw_tool v) with
    | Running => None
    | Done => Some (Ok None)
    | Settled od => Some (Ok (Some (od_code od)))
    | Timeout w => Some (Err (make_error WE_MotnToolTimeout UNATTRIBUTED [("state"%string, wait_text w)]))
    | FaultBits bits => Some (Err (make_error WE_MotnToolFault UNATTRIBUTED [("fault_code"%string, show_int bits)]))
    | Unarmed => Some (Err (make_error WE_MotnCancelled UNATTRIBUTED [("scope"%string, str_bytes "the tool changed owner")]))
    end.

Definition rt_error (v : PlanView) : WireError :=
  match rt_standing_error (vw_snap v) with
  | Some e => e
  | None => refusal WE_MotnTickFailed (str_bytes "the RT core latched a hard error")
  end.

(** Whether a mode has engaged, or its grace is over. *)
Definition mode_seen (v : PlanView) (seen : bool) (mode : Mode) : bool := seen || bool_decide (ss_mode (vw_snap v) = mode).
Definition grace_over (v : PlanView) (started : Z) : bool := MODE_GRACE <? vw_now v - started.

Definition verdict_of (v : PlanView) (fl : InFlight) : InFlight * option Verdict_ :=
  let '(mkInFlight index started kind) := fl in
  if ss_error_active (vw_snap v) then (fl, Some (Err (rt_error v)))
  else
    match kind with
    | IK_Tool epoch => (fl, tool_settle v epoch)
    | IK_Exec ring_index samples cursor seen =>
        let seen' := mode_seen v seen Exec in
        let fl := mkInFlight index started (IK_Exec ring_index samples cursor seen') in
        if negb seen' && grace_over v started
        then (fl, Some (Err (refusal WE_MotnSetupFailed (str_bytes "the RT core refused EXEC mode"))))
        else (fl, if ring_index <=? es_completed_index (vw_exec v) then Some (Ok None) else None)
    | IK_Home seen =>
        let in_homing := bool_decide (ss_mode (vw_snap v) = Homing) in
        if negb seen then
          (mkInFlight index started (IK_Home in_homing),
           if negb in_homing && grace_over v started
           then Some (Err (refusal WE_MotnSetupFailed (str_bytes "the RT core refused HOMING mode"))) else None)
        else
          (fl, if in_homing then None
               else if ss_homed (vw_snap v) then Some (Ok None)
               else Some (Err (refusal WE_MotnTickFailed (str_bytes "the homing sequence failed"))))
    | IK_Delay target paused_at_start =>
        (fl, if f64_gt (es_target_scale (vw_exec v)) f64_0 && (delay_remaining_ticks v target paused_at_start =? 0)
             then Some (Ok None) else None)
    | IK_ToolSwap swap => (fl, if vw_applied v swap then Some (Ok None) else None)
    | IK_Instant => (fl, Some (Ok None))
    end.

Definition is_exec (fl : option InFlight) : bool :=
  match fl with Some (mkInFlight _ _ (IK_Exec _ _ _ _)) => true | _ => false end.
Definition is_tool (fl : option InFlight) : bool := match fl with Some (mkInFlight _ _ (IK_Tool _)) => true | _ => false end.
Definition is_home (k : InFlightKind) : bool := match k with IK_Home _ => true | _ => false end.

Definition update_enablement (v : PlanView) (p : Par6Planner) : Par6Planner :=
  let '(w, en) := pd_probe (p_world p) (vw_q v) in
  match en with Some en => pp_enablement en (pp_world w p) | None => pp_world w p end.

(** The end of the command in flight. *)
Definition finish (fl : InFlight) (verdict : option Verdict_) (p : Par6Planner) : option CommandOutcome * Par6Planner :=
  let p := pp_inflight (Some fl) p in
  match verdict with
  | None => (None, p)
  | Some (Ok code) => (Some (mkOutcome (if_server_index fl) None code), pp_near_singularity None (pp_inflight None p))
  | Some (Err e) =>
      let p := if is_tool (p_inflight p) then pp_inflight None p else discard_planned p in
      (Some (mkOutcome (if_server_index fl) (Some e) None), pp_near_singularity None p)
  end.

(** A seek that succeeded goes on to the home pose. *)
Definition after_verdict (v : PlanView) (fl : InFlight) (verdict : option Verdict_) (p : Par6Planner) : option CommandOutcome * Par6Planner :=
  match verdict with
  | Some (Ok _) =>
      if is_home (if_kind fl) then
        match start_home_return v p with
        | (Ok IK_Instant, p) => finish fl verdict p
        | (Ok kind, p) => (None, pp_inflight (Some (mkInFlight (if_server_index fl) (vw_now v) kind)) p)
        | (Err e, p) => finish fl (Some (Err e)) p
        end
      else finish fl verdict p
  | _ => finish fl verdict p
  end.

Definition tend (v : PlanView) (p : Par6Planner) : Par6Planner :=
  if is_exec (p_inflight p) then pump_ring (feed p) else follow_drive_tool v (update_enablement v p).

Definition poll (v : PlanView) (p : Par6Planner) : option CommandOutcome * Par6Planner :=
  let p := tend v p in
  match p_invalidated p with
  | Some out => (Some out, pp_invalidated None p)
  | None =>
      match p_inflight p with
      | None => (None, p)
      | Some fl => let '(fl, verdict) := verdict_of v fl in after_verdict v fl verdict (pp_inflight None p)
      end
  end.

Definition cancel (halt_tool : bool) (p : Par6Planner) : Par6Planner :=
  let tool := is_tool (p_inflight p) in
  let p := pp_inflight None p in
  let p := if halt_tool && tool then send_core RC_GripperStop p else p in
  pp_near_singularity None p.

(** ** Tool stops *)

Definition start_tool (v : PlanView) (index : Z) (cmd : ToolAction) (p : Par6Planner) : result WireError unit * Par6Planner :=
  if negb (bool_decide (ta_action cmd = str_bytes "stop"))
  then (Err (refusal WE_CommValidationError (quoted "only `stop` runs ahead of the queue, not '" (ta_action cmd) "'")), p)
  else
    match start_tool_action v cmd p with
    | (Err e, p) => (Err e, p)
    | (Ok epoch, p) => (Ok tt, pp_tool_stop (Some (mkToolStop index epoch)) p)
    end.

Definition poll_tool (v : PlanView) (p : Par6Planner) : option CommandOutcome * Par6Planner :=
  match p_tool_stop p with
  | None => (None, p)
  | Some fl =>
      match tool_settle v (tsf_epoch_at_send fl) with
      | None => (None, p)
      | Some (Ok code) => (Some (mkOutcome (tsf_server_index fl) None code), pp_tool_stop None p)
      | Some (Err e) => (Some (mkOutcome (tsf_server_index fl) (Some e) None), pp_tool_stop None p)
      end
  end.

Definition cancel_tool : Par6Planner -> Par6Planner := pp_tool_stop None.

(** ** The rest of the trait *)

Definition f64s_eqb (a b : list f64) : bool := (length a =? length b)%nat && forallb (fun '(x, y) => f64_eqb x y) (zip a b).
Definition payload_eqb (a b : PayloadSpec) : bool :=
  f64_eqb (ps_mass a) (ps_mass b) && f64s_eqb (ps_com a) (ps_com b) &&
  match ps_inertia a, ps_inertia b with Some x, Some y => f64s_eqb x y | None, None => true | _, _ => false end.

Definition sync (ctx : OwnedPlanContext) (p : Par6Planner) : Par6Planner :=
  let p :=
    if payload_eqb (pctx_payload ctx) (p_payload p) then p
    else match pd_set_payload (p_world p) (pctx_payload ctx) with
         | Some w => pp_payload (pctx_payload ctx) (pp_world w p)
         | None => p
         end in
  let p :=
    if bool_decide (pctx_completion_policy ctx = p_policy p) then p
    else link_send (L_SettlePolicy (pctx_completion_policy ctx)) (pp_policy (pctx_completion_policy ctx) p) in
  let p := match profile_from_name (pctx_profile ctx) with Some f => pp_profile f p | None => p end in
  pp_world (pd_set_tcp (p_world p) (pctx_tcp_offset_mm ctx) (pctx_tcp_rotation_deg ctx)) p.

(** The motion in flight against a changed world. *)
Definition revalidate_inflight (v : PlanView) (p : Par6Planner) : Par6Planner :=
  match p_inflight p with
  | Some (mkInFlight index _ (IK_Exec _ samples _ _)) =>
      match pd_revalidate (p_world p) (vw_q v) samples with
      | Some (e, latch) =>
          pp_invalidated (Some (mkOutcome index (Some e) None)) (discard_planned (latch_collision latch p))
      | None => p
      end
  | _ => p
  end.

Definition planner_set_shapes (v : PlanView) (layer : ShapeLayer) (shapes : list Shape) (p : Par6Planner) :
  result WireError (option Z) * Par6Planner :=
  match pd_set_shapes (p_world p) layer shapes with
  | Err e => (Err e, p)
  | Ok (w, epoch) => (Ok (Some epoch), revalidate_inflight v (pp_world w p))
  end.

Definition planner_warnings (p : Par6Planner) : list WireError := match p_near_singularity p with Some e => [e] | None => [] end.

Definition take_fitted_tool (p : Par6Planner) : option (bytes * option bytes) * Par6Planner :=
  (p_tool_change p, pp_tool_change None p).

Definition clear_collision : Par6Planner -> Par6Planner := pp_collision_latch collision_default.

Definition ticks_duration (ticks : Z) (p : Par6Planner) : f64 := f64_mul (f64_of_int ticks) (p_dt p).

(** Seconds left on the motion in flight. *)
Definition inflight_duration (v : PlanView) (p : Par6Planner) : f64 :=
  match p_inflight p with
  | Some (mkInFlight _ _ (IK_Exec ring_index samples cursor _)) =>
      ticks_duration
        (if es_active_command_index (vw_exec v) =? ring_index
         then Z.of_nat (length samples - cursor) + es_samples_remaining (vw_exec v)
         else Z.of_nat (length samples)) p
  | Some (mkInFlight _ _ (IK_Delay target paused_at_start)) =>
      ticks_duration (delay_remaining_ticks v target paused_at_start) p
  | _ => f64_0
  end.

Definition f64_pi : f64 := 0x400921FB54442D18.
Definition to_radians (deg : f64) : f64 := f64_mul deg (f64_div f64_pi (f64_of_int 180)).

(** Where a joint move from a configuration ends. *)
Definition move_j_target (from : list f64) (m : MoveJ) : list f64 :=
  zip_with (fun a q => if mj_rel m then f64_add q (to_radians a) else to_radians a) (mj_angles m) from.

(** Seconds a queued command is priced at, and where it leaves the arm. *)
Definition price (p : Par6Planner) (from : list f64) (cmd : Command) : option f64 * list f64 :=
  match cmd with
  | C_Delay d => (Some (dl_seconds d), from)
  | C_MoveJ m =>
      let target := move_j_target from m in
      ((fun n => ticks_duration (Z.of_nat n) p) <$>
         pd_joint_ticks (p_world p) (p_profile p) from target (mj_duration m) (mj_speed m) (mj_accel m), target)
  | C_MoveJPose m => (Some (default f64_0 (mjp_duration m)), from)
  | C_MoveL m => (Some (default f64_0 (ml_duration m)), from)
  | C_MoveC m => (Some (default f64_0 (mc_duration m)), from)
  | C_MoveS m => (Some (default f64_0 (ms_duration m)), from)
  | C_MoveP m => (Some (default f64_0 (mp_duration m)), from)
  | _ => (None, from)
  end.

Definition price_next (p : Par6Planner) (acc : f64 * list f64) (queued : OwnedQueued) : f64 * list f64 :=
  let '(total, from) := acc in
  let '(cost, from) := price p from (oq_cmd queued) in
  (match cost with Some c => f64_add total c | None => total end, from).

(** The queue is priced from the end of the motion in flight. *)
Definition queued_duration (v : PlanView) (pending : list OwnedQueued) (p : Par6Planner) : f64 :=
  let from :=
    match p_inflight p with
    | Some (mkInFlight _ _ (IK_Exec _ samples _ _)) => match last samples with Some s => s_q s | None => vw_q v end
    | _ => vw_q v
    end in
  fst (fold_left (price_next p) pending (f64_0, from)).

#[export] Instance par6_planner : Plane.Planner PlanView Par6Planner := {
  pl_start := start;
  pl_poll := poll;
  pl_cancel := cancel;
  pl_start_tool := start_tool;
  pl_poll_tool := poll_tool;
  pl_cancel_tool := cancel_tool;
  pl_sync := sync;
  pl_set_shapes := planner_set_shapes;
  pl_collision p := Some (p_collision_latch p);
  pl_warnings := planner_warnings;
  pl_take_fitted_tool := take_fitted_tool;
  pl_clear_collision := clear_collision;
  pl_enablement := p_enablement;
  pl_queued_duration v pending p := (queued_duration v pending p, p);
  pl_inflight_duration := inflight_duration;
}.

End Planner.
Arguments Par6Planner : clear implicits.
