(* ===== verification/PlannerProps.v ===== *)
(** * PlannerProps: what the queued-command executor promises

    A command is answered at most once and succeeds only on what the core reports of
    it; the ring is fed the samples of the motion in flight, each once and in order,
    and a flush of an abandoned motion never reaches the next; a failing gripper leaves
    the arm alone; the tool fitted is the one a live drive says is on the arm. *)
From stdpp Require Import gmap.
From S2P Require Import Prelude F64 Wire Enums Command CommandCodec WireError Reply Chunk BusTypes Ring RtState.
From S2P Require Import Gripper Convert HomingConfig RobotSchema RobotValidate RobotExample ConfigBundle CoreState Core ExecTick ServerGate ServerTypes.
From S2P Require Import ServerQueue ServerDispatch ServerExample Plane Planner.

(** ** Blend chains *)

(** The commands a chain takes: each of the family of the head, each but the head after
    one that asks for a rounded corner. *)
Lemma chain_from_takes head rest : forall previous k next, (k < chain_from head previous rest)%nat -> rest !! k = Some next ->
  same_family head (oq_cmd next) = true /\
  rounds (match k with O => previous | S j => match rest !! j with Some q => oq_cmd q | None => previous end end) = true.
Proof.
  induction rest as [|q rest IH]; intros previous k next; cbn [chain_from]; [lia|].
  destruct (rounds previous && same_family head (oq_cmd q)) eqn:E; [|lia]. apply andb_true_iff in E as [E1 E2]. intros Hk Hl.
  destruct k as [|k]; cbn in Hl; [by injection Hl as <-|]. destruct (IH (oq_cmd q) k next ltac:(lia) Hl) as [H1 H2]. split; [done|].
  destruct k as [|k]; [done|]. cbn in *. by destruct (rest !! k).
Qed.

Lemma chain_from_length head rest : forall previous, (chain_from head previous rest <= length rest)%nat.
Proof. induction rest as [|q rest IH]; intros previous; cbn; [done|]. destruct (_ && _); [|lia]. specialize (IH (oq_cmd q)). lia. Qed.

Lemma blend_chain_bound cmd rest n : blend_chain_len cmd rest = Some n -> (0 < n <= length rest)%nat.
Proof.
  unfold blend_chain_len. destruct (_ && _); [done|]. pose proof (chain_from_length cmd rest cmd). destruct (chain_from cmd cmd rest); [done|].
  intros [= <-]. lia.
Qed.

Section Props.
Context `{Hshow : !Show} {W : Type} `{Hdeps : !PlanDeps W}.
Implicit Type p : Par6Planner W.

(** ** What an operation leaves alone *)

(** What is waiting for an answer: the command in flight, the invalidated one. *)
Definition live (p : Par6Planner W) : list Z :=
  match p_inflight p with Some fl => [if_server_index fl] | None => [] end ++
  match p_invalidated p with Some out => [co_index out] | None => [] end.

(** Planning and tending change neither. *)
Definition keeps (p p' : Par6Planner W) : Prop := p_inflight p' = p_inflight p /\ p_invalidated p' = p_invalidated p.

Lemma keeps_refl p : keeps p p.
Proof. done. Qed.
Lemma keeps_trans p1 p2 p3 : keeps p1 p2 -> keeps p2 p3 -> keeps p1 p3.
Proof. intros [A B] [C D]. split; congruence. Qed.

Lemma start_exec_keeps q plots seen p : keeps p (snd (start_exec q plots seen p)).
Proof.
  unfold start_exec. destruct (pd_accel_gate _ _); [done|]. destruct (pd_collision_gate _ _ _) as [[e [l|]]|]; done.
Qed.

Lemma start_plotted_keeps v plotted p : keeps p (snd (start_plotted v plotted p)).
Proof.
  unfold start_plotted. destruct plotted as [pl|]; [|done]. destruct (pt_plots pl) as [|x l]; [done|].
  pose proof (start_exec_keeps (vw_q v) (x :: l) (in_exec v) p) as H. destruct (start_exec _ _ _ p) as [[k|e] p']; [|done].
  cbn [snd] in *. by destruct (pt_singularity pl).
Qed.

Lemma tool_action_keeps v cmd p : keeps p (snd (start_tool_action v cmd p)).
Proof.
  unfold start_tool_action, plain_action. destruct (p_tool p); [|done].
  repeat case_bool_decide; try (by destruct (ta_params cmd)); try done.
  destruct (scalars 3 _) as [[|a [|b [|c [|]]]]|]; try done. destruct (scalar_refusal a b c); [done|]. by destruct (gripper_calibrated v).
Qed.

Lemma adopt_tool_keeps v name p : keeps p (snd (adopt_tool v name p)).
Proof.
  unfold adopt_tool. destruct (eq_ignore_case _ _); [done|]. destruct (List.find _ _); [|done].
  destruct (drive_refusal _ _ _); [done|]. by destruct (pd_rebuild _ _ _).
Qed.

Lemma plan_one_keeps v cmd p : keeps p (snd (plan_one v cmd p)).
Proof.
  destruct cmd; cbn [plan_one]; try done; try apply start_plotted_keeps.
  - case_bool_decide; [done|]. destruct (_ && _); [apply start_plotted_keeps|done].
  - pose proof (adopt_tool_keeps v (st_tool_name p0) p) as H. by destruct (adopt_tool v _ p) as [[[]|] ?].
  - pose proof (tool_action_keeps v p0 p) as H. by destruct (start_tool_action v p0 p) as [[]?].
Qed.

Lemma plan_command_keeps v cmd rest p : keeps p (snd (plan_command v cmd rest p)).
Proof.
  unfold plan_command. destruct (blend_chain_len cmd rest).
  - pose proof (start_plotted_keeps v (pd_plan (p_world p) (p_profile p) (vw_q v) (cmd :: map oq_cmd (take n rest))) p) as H.
    unfold start_motion. by destruct (start_plotted _ _ p) as [[]?].
  - pose proof (plan_one_keeps v cmd p) as H. by destruct (plan_one v cmd p) as [[]?].
Qed.

Lemma follow_drive_keeps v p : keeps p (follow_drive_tool v p).
Proof.
  unfold follow_drive_tool. destruct (_ || _); [done|]. destruct (drive_info v) as [d|]; [|done]. destruct (di_tool_id d =? 0); [done|].
  destruct (_ || _); [done|]. destruct (tool_by_can_id _ _) as [t|]; [|done].
  pose proof (adopt_tool_keeps v (str_bytes (tl_name t)) p) as H. by destruct (adopt_tool v _ p) as [[[]|] ?].
Qed.

(** Feeding the ring keeps which command is in flight. *)
Lemma pump_live p : live (pump_ring p) = live p.
Proof.
  unfold pump_ring, live. destruct (p_inflight p) as [[i t []]|] eqn:E; rewrite ?E; try done.
  destruct (push_samples _ _) as [r n]. by cbn.
Qed.
Lemma pump_invalidated p : p_invalidated (pump_ring p) = p_invalidated p.
Proof. unfold pump_ring. destruct (p_inflight p) as [[i t []]|]; try done. by destruct (push_samples _ _). Qed.

Lemma tend_live v p : live (tend v p) = live p /\ p_invalidated (tend v p) = p_invalidated p.
Proof.
  unfold tend. destruct (is_exec (p_inflight p)); [by rewrite pump_live, pump_invalidated|].
  destruct (follow_drive_keeps v (update_enablement v p)) as [E1 E2]. unfold live. rewrite E1, E2.
  unfold update_enablement. by destruct (pd_probe _ _) as [w [en|]].
Qed.

(** ** One answer per command *)

(** What is called on the planner, and what the consumer of the ring does meanwhile. *)
Inductive PlannerOp :=
| PO_Start (v : PlanView) (batch : list OwnedQueued)
| PO_Poll (v : PlanView)
| PO_Cancel (halt_tool : bool)
| PO_StartTool (v : PlanView) (index : Z) (cmd : ToolAction)
| PO_PollTool (v : PlanView)
| PO_CancelTool
| PO_Sync (ctx : OwnedPlanContext)
| PO_SetShapes (v : PlanView) (layer : ShapeLayer) (shapes : list Shape)
| PO_TakeFitted
| PO_ClearCollision
| PO_Pop
| PO_Flush.

(** The state after a call, and the outcome of a queued command it gave. *)
Definition planner_step (p : Par6Planner W) (o : PlannerOp) : option CommandOutcome * Par6Planner W :=
  match o with
  | PO_Start v batch => (None, snd (start v batch p))
  | PO_Poll v => poll v p
  | PO_Cancel halt_tool => (None, cancel halt_tool p)
  | PO_StartTool v index cmd => (None, snd (start_tool v index cmd p))
  | PO_PollTool v => (None, snd (poll_tool v p))
  | PO_CancelTool => (None, cancel_tool p)
  | PO_Sync ctx => (None, sync ctx p)
  | PO_SetShapes v layer shapes => (None, snd (planner_set_shapes v layer shapes p))
  | PO_TakeFitted => (None, snd (take_fitted_tool p))
  | PO_ClearCollision => (None, clear_collision p)
  | PO_Pop => (None, pp_ring (fst (pop (p_ring p))) p)
  | PO_Flush => (None, pp_ring (fst (clear_marked (p_ring p))) p)
  end.

Fixpoint planner_run (p : Par6Planner W) (os : list PlannerOp) : list CommandOutcome * Par6Planner W :=
  match os with
  | [] => ([], p)
  | o :: os =>
      let '(out, p) := planner_step p o in
      let '(outs, p) := planner_run p os in
      (match out with Some out => out :: outs | None => outs end, p)
  end.

(** The commands a run starts. *)
Definition started_by (o : PlannerOp) : list Z := match o with PO_Start _ (head :: _) => [oq_index head] | _ => [] end.

Definition answered (out : option CommandOutcome) : list Z := match out with Some out => [co_index out] | None => [] end.

Lemma start_live v batch p : live (snd (start v batch p)) ⊆+ started_by (PO_Start v batch) ++ live p.
Proof.
  destruct batch as [|head rest]; cbn [start started_by]; [done|].
  pose proof (plan_command_keeps v (oq_cmd head) rest p) as [E1 E2]. destruct (plan_command v _ rest p) as [[[k n]|e] p']; cbn [snd] in *.
  - rewrite pump_live. unfold live. cbn. rewrite E2. apply submseteq_skip. apply submseteq_inserts_l. done.
  - unfold live. rewrite E1, E2. by apply submseteq_cons.
Qed.

(** The end of a command: its index leaves what is live for the answers. *)
Lemma finish_live fl verdict p : p_invalidated p = None ->
  live (snd (finish fl verdict p)) ++ answered (fst (finish fl verdict p)) = [if_server_index fl].
Proof.
  intros E. unfold finish, live. destruct verdict as [[c|e]|]; cbn; rewrite ?E; [done| |done].
  destruct fl as [i t []]; cbn; by rewrite ?E.
Qed.

Lemma after_verdict_live v fl verdict p : p_invalidated p = None -> 
  live (snd (after_verdict v fl verdict p)) ++ answered (fst (after_verdict v fl verdict p)) = [if_server_index fl].
Proof.
  intros E. unfold after_verdict. destruct verdict as [[c|e]|]; try by apply finish_live.
  destruct (is_home (if_kind fl)); [|by apply finish_live].
  pose proof (start_plotted_keeps v (pd_home_return (p_world p) (p_profile p) (vw_q v)) p) as [E1 E2]. fold (start_home_return v p) in E1, E2.
  destruct (start_home_return v p) as [[k|e] p']; cbn [snd] in *.
  - destruct k; try (apply finish_live; congruence); unfold live; cbn; by rewrite E2, E.
  - apply finish_live. congruence.
Qed.

Lemma verdict_index v fl : if_server_index (fst (verdict_of v fl)) = if_server_index fl.
Proof.
  destruct fl as [i t k]. cbn. destruct (ss_error_active _); [done|]. destruct k; try done; [by destruct (_ && _)|by destruct seen_homing].
Qed.

Lemma verdict_kind v fl : is_tool (Some (fst (verdict_of v fl))) = is_tool (Some fl) /\
  is_home (if_kind (fst (verdict_of v fl))) = is_home (if_kind fl).
Proof.
  destruct fl as [i t k]. cbn [verdict_of]. destruct (ss_error_active _); [done|].
  destruct k; try done; [by destruct (_ && _)|by destruct seen_homing].
Qed.

Lemma poll_live v p : live (snd (poll v p)) ++ answered (fst (poll v p)) ⊆+ live p.
Proof.
  unfold poll. destruct (tend_live v p) as [E1 E2]. rewrite <- E1. set (q := tend v p) in *. clearbody q. clear E1 E2 p.
  destruct (p_invalidated q) as [out|] eqn:Ei.
  - unfold live. cbn. rewrite Ei. rewrite app_nil_r. done.
  - destruct (p_inflight q) as [fl|] eqn:Ef; [|cbn; unfold live; by rewrite Ef, Ei].
    destruct (verdict_of v fl) as [fl' verdict] eqn:Ev. rewrite after_verdict_live by done.
    unfold live. rewrite Ef, Ei. pose proof (verdict_index v fl) as H. rewrite Ev in H. cbn in *. by rewrite H.
Qed.

Lemma revalidate_live v p : live (revalidate_inflight v p) ⊆+ live p.
Proof.
  unfold revalidate_inflight. destruct (p_inflight p) as [[i t []]|] eqn:E; try done.
  destruct (pd_revalidate _ _ _) as [[e latch]|]; [|done]. unfold live. rewrite E. cbn. apply submseteq_skip, submseteq_nil_l.
Qed.

Lemma step_live p o : live (snd (planner_step p o)) ++ answered (fst (planner_step p o)) ⊆+ started_by o ++ live p.
Proof.
  destruct o; cbn [planner_step started_by answered fst snd app]; rewrite ?app_nil_r; try done.
  - apply start_live.
  - apply poll_live.
  - unfold cancel. destruct (is_tool _), halt_tool; cbn; unfold live; cbn; apply submseteq_inserts_l; done.
  - unfold start_tool. destruct (negb _); [done|]. pose proof (tool_action_keeps v cmd p) as [E1 E2].
    destruct (start_tool_action v cmd p) as [[]?]; cbn [snd] in *; unfold live; cbn; by rewrite E1, E2.
  - unfold poll_tool. destruct (p_tool_stop p); [|done]. destruct (tool_settle _ _) as [[]|]; done.
  - unfold sync. destruct (payload_eqb _ _); [|destruct (pd_set_payload _ _)]; case_bool_decide; destruct (profile_from_name _); done.
  - unfold planner_set_shapes. destruct (pd_set_shapes _ _ _) as [[w epoch]|]; [|done]. apply (revalidate_live v (pp_world w p)).
Qed.

Lemma answers_join (outs live2 rest live1 ans begun live0 : list Z) : outs ++ live2 ⊆+ rest ++ live1 -> live1 ++ ans ⊆+ begun ++ live0 ->
  (ans ++ outs) ++ live2 ⊆+ (begun ++ rest) ++ live0.
Proof.
  intros H1 H2. rewrite <- !app_assoc. transitivity (ans ++ rest ++ live1); [by apply submseteq_app|].
  rewrite (Permutation_app_comm ans), <- app_assoc. transitivity (rest ++ begun ++ live0); [by apply submseteq_app|].
  rewrite !app_assoc, (Permutation_app_comm rest). done.
Qed.

(** C14: a queued command gets at most one answer, and only what was started is
    answered: along any run of calls, the consumer of the ring taking or flushing
    samples in between, the outcomes and what still waits for one are among the
    commands started, none of them twice. *)
Theorem commands_are_answered_once ring dt b w os : let run := planner_run (planner_new ring dt b w) os in
  map co_index (fst run) ++ live (snd run) ⊆+ concat (map started_by os).
Proof.
  assert (Hgen : forall os p, map co_index (fst (planner_run p os)) ++ live (snd (planner_run p os)) ⊆+ concat (map started_by os) ++ live p).
  { clear. induction os as [|o os IH]; intros p; cbn [planner_run map concat]; [done|].
    pose proof (step_live p o) as Hs. destruct (planner_step p o) as [out p1]. specialize (IH p1). destruct (planner_run p1 os) as [outs p2].
    cbn [fst snd] in *. pose proof (answers_join _ _ _ _ _ _ _ IH Hs) as H. by destruct out. }
  specialize (Hgen os (planner_new ring dt b w)). cbn [live p_inflight p_invalidated planner_new app] in Hgen. by rewrite app_nil_r in Hgen.
Qed.

(** ** Success is what the core reports *)

(** What ends a command well: the playback has passed its samples, the seek has homed
    the arm and left it at the home pose, the delay has run its ticks unpaused, the
    jaws have settled, the core has applied the tool. *)
Definition reported_done (v : PlanView) (p : Par6Planner W) (kind : InFlightKind) : Prop :=
  match kind with
  | IK_Tool epoch => tl_epoch (vw_tool v) <> epoch /\ (tl_verdict (vw_tool v) = Done \/ exists d, tl_verdict (vw_tool v) = Settled d)
  | IK_Exec ring_index _ _ _ => ring_index <= es_completed_index (vw_exec v)
  | IK_Home seen => seen = true /\ ss_homed (vw_snap v) = true /\ ss_mode (vw_snap v) <> Homing /\
      fst (start_home_return v p) = Ok IK_Instant
  | IK_Delay target paused_at_start => f64_gt (es_target_scale (vw_exec v)) f64_0 = true /\
      target <= Z.max 0 (ss_tick (vw_snap v) - saturating_sub (es_paused_ticks (vw_exec v)) paused_at_start)
  | IK_ToolSwap swap => vw_applied v swap = true
  | IK_Instant => True
  end.

Lemma verdict_done v p fl code : snd (verdict_of v fl) = Some (Ok code) ->
  ss_error_active (vw_snap v) = false /\ (if_kind (fst (verdict_of v fl)) = if_kind fl \/ is_exec (Some fl) = true) /\
  (is_home (if_kind fl) = false -> reported_done v p (if_kind fl)) /\
  (is_home (if_kind fl) = true -> if_kind fl = IK_Home true /\ ss_homed (vw_snap v) = true /\ ss_mode (vw_snap v) <> Homing).
Proof.
  destruct fl as [i t k]. cbn [verdict_of]. destruct (ss_error_active (vw_snap v)); [done|].
  destruct k as [epoch|ri samples cursor seen|seen|target paused|swap|]; cbn [snd fst if_kind is_home reported_done is_exec].
  - unfold tool_settle. destruct (Z.eqb_spec (tl_epoch (vw_tool v)) epoch); [done|]. intros H. split_and!; [done|by left| |done].
    intros _. split; [done|]. destruct (tl_verdict (vw_tool v)); try done; [by left|right; by eexists].
  - destruct (_ && _); [done|]. destruct (Z.leb_spec ri (es_completed_index (vw_exec v))); [|done]. intros _. by split_and!; auto.
  - destruct seen; cbn [negb]; [|by destruct (_ && _)]. case_bool_decide as Hm; [done|]. destruct (ss_homed (vw_snap v)); [|done].
    intros _. by split_and!; auto.
  - destruct (f64_gt _ _); [|done]. cbn [andb]. destruct (Z.eqb_spec (delay_remaining_ticks v target paused) 0) as [E|]; [|done].
    intros _. split_and!; auto; [|done]. intros _. split; [done|]. unfold delay_remaining_ticks, saturating_sub in *. lia.
  - destruct (vw_applied v swap) eqn:Ea; [|done]. intros _. by split_and!; auto.
  - intros _. by split_and!; auto.
Qed.

(** What tending leaves of the command in flight: the cursor may move. *)
Definition same_motion (a b : InFlightKind) : Prop :=
  a = b \/ exists ri samples c1 c2 seen, a = IK_Exec ri samples c1 seen /\ b = IK_Exec ri samples c2 seen.

Lemma tend_inflight v p : match p_inflight p, p_inflight (tend v p) with
  | Some a, Some b => if_server_index b = if_server_index a /\ if_started b = if_started a /\ same_motion (if_kind a) (if_kind b)
  | None, None => True
  | _, _ => False
  end.
Proof.
  unfold tend. destruct (is_exec (p_inflight p)) eqn:E.
  - destruct (p_inflight p) as [[i t []]|] eqn:Ei; try done. unfold pump_ring. cbn [feed p_inflight pp_fed]. rewrite Ei.
    cbn [p_ring pp_fed]. destruct (push_samples _ _) as [r n]. cbn. split_and!; [done..|]. right. by eexists _, _, _, _, _.
  - destruct (follow_drive_keeps v (update_enablement v p)) as [-> _]. unfold update_enablement.
    destruct (pd_probe _ _) as [w [en|]]; cbn; (destruct (p_inflight p); [|done]); split_and!; try done; by left.
Qed.

Lemma done_same_motion v p a b : same_motion a b -> reported_done v p b -> reported_done v p a.
Proof. by intros [->|(ri & samples & c1 & c2 & seen & -> & ->)]. Qed.

(** C15: a queued command is reported successful only when the core reports it done:
    with no error latched, the playback past the samples of its motion, the arm homed
    and at its home pose, the delay run out and unpaused, the jaws settled on the
    action it sent, the tool applied. *)
Theorem success_is_reported_by_the_core v p out :
  (forall o, p_invalidated p = Some o -> co_error o <> None) ->
  fst (poll v p) = Some out -> co_error out = None ->
  exists fl, p_inflight p = Some fl /\ if_server_index fl = co_index out /\
    ss_error_active (vw_snap v) = false /\ reported_done v (pp_inflight None (tend v p)) (if_kind fl).
Proof.
  intros Hinv. unfold poll. destruct (tend_live v p) as [_ Et]. pose proof (tend_inflight v p) as Hfl.
  rewrite Et. destruct (p_invalidated p) as [o|] eqn:Eo; [intros [= <-] Hn; by destruct (Hinv o eq_refl)|].
  destruct (p_inflight (tend v p)) as [fl|] eqn:Ef; [|done]. destruct (p_inflight p) as [fl0|]; [|done].
  destruct Hfl as (Hidx & _ & Hkind). set (q := pp_inflight None (tend v p)).
  destruct (verdict_of v fl) as [fl' verdict] eqn:Ev. pose proof (verdict_index v fl) as Hi. rewrite Ev in Hi. cbn [fst] in Hi.
  assert (Hdone : forall code, verdict = Some (Ok code) -> ss_error_active (vw_snap v) = false /\
    (is_home (if_kind fl) = false -> reported_done v q (if_kind fl)) /\
    (is_home (if_kind fl) = true -> if_kind fl = IK_Home true /\ ss_homed (vw_snap v) = true /\ ss_mode (vw_snap v) <> Homing) /\
    is_home (if_kind fl') = is_home (if_kind fl)).
  { intros code ->. destruct (verdict_done v q fl code) as (H1 & H2 & H3 & H4); [by rewrite Ev|]. split_and!; [done..|].
    pose proof (verdict_kind v fl) as [_ Hk]. by rewrite Ev in Hk. }
  unfold after_verdict. destruct verdict as [[code|e]|]; [|by intros [= <-]|done]. destruct (Hdone code eq_refl) as (H1 & H2 & H3 & H4).
  assert (Hall : reported_done v q (if_kind fl) -> co_index out = if_server_index fl' -> exists fl, Some fl0 = Some fl /\ if_server_index fl = co_index out /\
    ss_error_active (vw_snap v) = false /\ reported_done v q (if_kind fl)).
  { intros Hd Hio. exists fl0. split_and!; [done|congruence|done|by eapply done_same_motion]. }
  rewrite H4. destruct (is_home (if_kind fl)) eqn:Eh.
  - destruct (H3 eq_refl) as (Hk & Hh & Hm). destruct (start_home_return v q) as [[k|e] p'] eqn:Es.
    + destruct k; try done. intros [= <-] _. apply Hall; [|done]. rewrite Hk. cbn. by rewrite Es.
    + by intros [= <-].
  - intros [= <-] _. apply Hall; [by apply H2|done].
Qed.

(** ** Failures *)

Lemma start_plotted_fails v plotted p e p' : start_plotted v plotted p = (Err e, p') -> p_link p' = p_link p /\ p_ring p' = p_ring p.
Proof.
  unfold start_plotted. destruct plotted as [pl|]; [|by intros [= _ <-]]. destruct (pt_plots pl) as [|x l]; [done|].
  destruct (start_exec _ _ _ p) as [[k|e'] p1] eqn:E; [done|]. intros [= _ <-]. revert E. unfold start_exec.
  destruct (pd_accel_gate _ _); [by intros [= _ <-]|]. destruct (pd_collision_gate _ _ _) as [[e0 [latch|]]|]; try done; by intros [= _ <-].
Qed.

Lemma probe_keeps v p : p_link (update_enablement v p) = p_link p /\ p_ring (update_enablement v p) = p_ring p /\
  p_inflight (update_enablement v p) = p_inflight p.
Proof. unfold update_enablement. by destruct (pd_probe _ _) as [w [en|]]. Qed.

Lemma follow_drive_busy v p : is_Some (p_inflight p) -> follow_drive_tool v p = p.
Proof. intros H. unfold follow_drive_tool. by rewrite bool_decide_eq_true_2, orb_true_r. Qed.

(** A failed gripper action leaves the arm alone: nothing is sent to the core and no
    sample is dropped.  Any other failure brakes the program and marks everything in
    the ring for the flush. *)
Lemma failure_brakes_the_motion v p out : p_invalidated p = None -> fst (poll v p) = Some out -> co_error out <> None ->
  let p' := snd (poll v p) in
  p_inflight p' = None /\
  if is_tool (p_inflight p) then p_link p' = p_link p /\ p_ring p' = p_ring p
  else p_link p' = p_link (tend v p) ++ [L_Send RC_ExecStop] /\ p_ring p' = fst (mark (p_ring (tend v p))).
Proof.
  intros Hinv. cbv zeta. unfold poll. destruct (tend_live v p) as [_ Et]. rewrite Et, Hinv.
  assert (Htool : is_tool (p_inflight p) = true -> p_link (tend v p) = p_link p /\ p_ring (tend v p) = p_ring p /\ p_inflight (tend v p) = p_inflight p).
  { intros H. unfold tend. destruct (p_inflight p) as [[i t []]|] eqn:E; try done. cbn [is_exec]. destruct (probe_keeps v p) as (E1 & E2 & E3).
    rewrite follow_drive_busy; [by rewrite E1, E2, E3|]. rewrite E3, E. by eexists. }
  assert (Heq : is_tool (p_inflight p) = is_tool (p_inflight (tend v p))).
  { pose proof (tend_inflight v p) as H. destruct (p_inflight p) as [[i t k]|], (p_inflight (tend v p)) as [[i' t' k']|]; try done.
    destruct H as (_ & _ & H). cbn in H. destruct H as [->|(? & ? & ? & ? & ? & -> & ->)]; done. }
  destruct (p_inflight (tend v p)) as [fl|] eqn:Ef; [|done]. set (q := pp_inflight None (tend v p)) in *.
  destruct (verdict_of v fl) as [fl' verdict] eqn:Ev.
  assert (Hk : is_tool (Some fl') = is_tool (Some fl) /\ is_home (if_kind fl') = is_home (if_kind fl)).
  { pose proof (verdict_kind v fl) as Hk. by rewrite Ev in Hk. }
  assert (Hfin : forall e p0, p_link p0 = p_link (tend v p) -> p_ring p0 = p_ring (tend v p) ->
    p_inflight (snd (finish fl' (Some (Err e)) p0)) = None /\
    if is_tool (p_inflight p) then p_link (snd (finish fl' (Some (Err e)) p0)) = p_link p /\ p_ring (snd (finish fl' (Some (Err e)) p0)) = p_ring p
    else p_link (snd (finish fl' (Some (Err e)) p0)) = p_link (tend v p) ++ [L_Send RC_ExecStop] /\
      p_ring (snd (finish fl' (Some (Err e)) p0)) = fst (mark (p_ring (tend v p)))).
  { intros e p0 El Er. unfold finish. cbn [p_inflight pp_inflight]. rewrite (proj1 Hk), Heq.
    destruct (is_tool (Some fl)) eqn:Etl; cbn; [|by rewrite El, Er]. destruct Htool as (F1 & F2 & _); [done|]. split; [done|]. split; congruence. }
  unfold after_verdict. destruct verdict as [[code|e]|]; [|intros _ _; by apply Hfin|done].
  destruct (is_home (if_kind fl')); [|by intros [= <-]]. destruct (start_home_return v q) as [[k|e] p1] eqn:Es.
  - destruct k; try done. by intros [= <-].
  - intros _ _. destruct (start_plotted_fails _ _ _ _ _ Es) as [F1 F2]. by apply Hfin.
Qed.

(** ** Feeding the ring *)

(** The slots of the current fill, those of the motion in flight. *)
Definition of_fill (g : Z) (sl : Slot) : bool := sl_generation sl =? g.
Definition current_slots (r : RingShared) : list Slot := List.filter (of_fill (r_fill_generation r)) (ring_items r).

Definition ring_ok (r : RingShared) : Prop :=
  ring_wf r /\ r_flush_generation r <= r_fill_generation r /\
  Forall (fun sl => sl_generation sl <= r_fill_generation r) (ring_items r).

(** The samples of a motion carry its ring index; the last one alone ends it. *)
Definition stamped (ring_index : Z) (samples : list Sample) : Prop :=
  forall k s, samples !! k = Some s -> s_meta s = mkSampleMeta ring_index ring_index (k + 1 =? length samples)%nat.

(** The motion in flight: what was pushed last is its first samples, in order; what the
    ring still holds of it is the end of those, behind everything older; and no flush
    asked for so far covers it. *)
Definition motion_ok (r : RingShared) (pushed : list Sample) (k : InFlightKind) : Prop :=
  match k with
  | IK_Exec ring_index samples cursor _ =>
      r_flush_generation r < r_fill_generation r /\ (cursor <= length samples)%nat /\ stamped ring_index samples /\
      (exists earlier, pushed = earlier ++ take cursor samples) /\
      (exists d old, ring_items r = old ++ current_slots r /\ Forall (fun sl => sl_generation sl < r_fill_generation r) old /\
        map sl_sample (current_slots r) = drop d (take cursor samples))
  | _ => True
  end.

Definition fed_ok (p : Par6Planner W) : Prop :=
  ring_ok (p_ring p) /\ match p_inflight p with Some fl => motion_ok (p_ring p) (p_pushed p) (if_kind fl) | None => True end.

Lemma of_fill_none g l : Forall (fun sl => sl_generation sl < g) l -> List.filter (of_fill g) l = [].
Proof.
  induction 1 as [|sl l H Hl IH]; [done|]. cbn. unfold of_fill at 1. destruct (Z.eqb_spec (sl_generation sl) g); [lia|done].
Qed.
Lemma of_fill_all g l : Forall (fun sl => sl_generation sl = g) l -> List.filter (of_fill g) l = l.
Proof. induction 1 as [|sl l H Hl IH]; [done|]. cbn. unfold of_fill at 1. by rewrite H, Z.eqb_refl, IH. Qed.
Lemma of_fill_current g l : Forall (fun sl => sl_generation sl = g) (List.filter (of_fill g) l).
Proof. apply List.Forall_forall. intros sl [_ H]%filter_In. by apply Z.eqb_eq. Qed.

(** What the operations of the ring do to its items and its counters. *)
Lemma push_fields r s r' b : ring_ok r -> try_push r s = (r', b) ->
  ring_ok r' /\ r_fill_generation r' = r_fill_generation r /\ r_flush_generation r' = r_flush_generation r /\
  ring_items r' = ring_items r ++ (if b then [mkSlot s (r_fill_generation r)] else []).
Proof.
  intros (Hwf & Hf & Hi) E. pose proof (push_refines r s Hwf) as H. rewrite E in H. destruct H as [Hwf' H].
  assert (Hg : r_fill_generation r' = r_fill_generation r /\ r_flush_generation r' = r_flush_generation r).
  { unfold try_push in E. destruct (_ >=? _); injection E as <- <-; done. }
  destruct Hg as [G1 G2]. assert (Hit : ring_items r' = ring_items r ++ (if b then [mkSlot s (r_fill_generation r)] else [])).
  { cbn [aq_run ring_abs aq_items aq_cap aq_fill aq_bound] in H. destruct (_ <? _); injection H as _ H _ _ <-; [done|by rewrite app_nil_r]. }
  split_and!; [|done..]. split_and!; [done|congruence|]. rewrite Hit, G1. apply Forall_app. split; [done|].
  destruct b; [|constructor]. repeat constructor. cbn. lia.
Qed.

Lemma push_samples_fields l : forall r, ring_ok r -> let '(r', n) := push_samples l r in
  ring_ok r' /\ r_fill_generation r' = r_fill_generation r /\ r_flush_generation r' = r_flush_generation r /\ (n <= length l)%nat /\
  ring_items r' = ring_items r ++ map (fun s => mkSlot s (r_fill_generation r)) (take n l).
Proof.
  induction l as [|s l IH]; intros r Hr; cbn [push_samples]; [cbn; by rewrite app_nil_r|].
  destruct (try_push r s) as [r1 b] eqn:E. destruct (push_fields r s r1 b Hr E) as (H1 & H2 & H3 & H4). destruct b.
  - specialize (IH r1 H1). destruct (push_samples l r1) as [r2 n]. destruct IH as (I1 & I2 & I3 & I4 & I5).
    rewrite I5, H4, I2, I3, H2, H3. cbn. split_and!; [done..|lia|by rewrite <- app_assoc].
  - cbn. rewrite H4. split_and!; [done..|lia|done].
Qed.

Lemma mark_fields r : ring_ok r -> ring_ok (fst (mark r)).
Proof.
  intros (Hwf & Hf & Hi). split_and!; [done|cbn [mark fst r_flush_generation r_fill_generation set_flush]; lia|].
  assert (E : ring_items (fst (mark r)) = ring_items r) by (unfold ring_items, ring_len; cbn; by apply items_from_set). by rewrite E.
Qed.

Lemma begin_fields r : ring_ok r -> ring_ok (fst (begin_generation r)) /\ ring_items (fst (begin_generation r)) = ring_items r /\
  r_fill_generation (fst (begin_generation r)) = r_fill_generation r + 1 /\ r_flush_generation (fst (begin_generation r)) = r_flush_generation r.
Proof.
  intros (Hwf & Hf & Hi). assert (E : ring_items (fst (begin_generation r)) = ring_items r).
  { unfold ring_items, ring_len. cbn. by apply items_from_set. }
  split_and!; [|done..]. split_and!; [done|cbn; lia|]. rewrite E. eapply List.Forall_impl; [|exact Hi]. cbn. intros. lia.
Qed.

Lemma pump_fed p : fed_ok p -> fed_ok (pump_ring p).
Proof.
  intros [Hr Hm]. unfold pump_ring. destruct (p_inflight p) as [[i t k]|] eqn:Ei; [|by unfold fed_ok; rewrite Ei]. destruct k as [|ri samples cursor seen| | | |];
    try (by unfold fed_ok; rewrite Ei). cbn [if_kind motion_ok] in Hm. destruct Hm as (M1 & M2 & M3 & (earlier & M4) & (d & old & M5 & M6 & M7)).
  pose proof (push_samples_fields (drop cursor samples) (p_ring p) Hr) as H. destruct (push_samples _ _) as [r n].
  destruct H as (H1 & H2 & H3 & H4 & H5). rewrite length_drop in H4. split; cbn [p_ring p_inflight p_pushed pp_inflight pp_pushed pp_ring if_kind motion_ok]; [done|].
  assert (Htk : take (cursor + n) samples = take cursor samples ++ take n (drop cursor samples)) by (by rewrite take_take_drop).
  set (new := map (fun s => mkSlot s (r_fill_generation (p_ring p))) (take n (drop cursor samples))) in *.
  assert (Hnew : Forall (fun sl => sl_generation sl = r_fill_generation (p_ring p)) new) by (apply Forall_map, Forall_true; done).
  assert (Hcur : current_slots r = current_slots (p_ring p) ++ new).
  { unfold current_slots. rewrite H5, H2, List.filter_app. f_equal. by apply of_fill_all. }
  rewrite H2, H3. split_and!; [done|lia|done|exists earlier; by rewrite M4, Htk, app_assoc|].
  assert (Hmap : map sl_sample new = take n (drop cursor samples)) by (unfold new; by rewrite map_map, map_id).
  destruct (Nat.le_gt_cases d (length (take cursor samples))).
  - exists d, old. rewrite Hcur, H5, map_app, M7, Htk, drop_app_le, Hmap by done. split_and!; [|done..]. by rewrite app_assoc, <- M5.
  - exists (length (take cursor samples)), old. rewrite Hcur, H5, map_app, M7, Htk, drop_app_length, Hmap, (drop_ge (take cursor samples)) by lia.
    split_and!; [|done..]. by rewrite app_assoc, <- M5.
Qed.

(** Planning leaves a ring ready for what it started, and untouched where it fails. *)
Definition planned_ok (p : Par6Planner W) (res : result WireError InFlightKind * Par6Planner W) : Prop :=
  ring_ok (p_ring p) -> ring_ok (p_ring (snd res)) /\
  match fst res with
  | Ok k => motion_ok (p_ring (snd res)) (p_pushed (snd res)) k
  | Err _ => p_ring (snd res) = p_ring p /\ p_pushed (snd res) = p_pushed p
  end.

Lemma ring_sample_meta p q i n k plot : s_meta (ring_sample p q i n k plot) = mkSampleMeta i i (k + 1 =? n)%nat.
Proof.
  destruct plot as [[x y] z]. cbn [ring_sample]. destruct (pd_feedforward (p_world p) x y z); [|done].
  by destruct (pd_feedforward (p_world p) x zeros64 y).
Qed.

Lemma start_exec_planned q plots seen p : planned_ok p (start_exec q plots seen p).
Proof.
  intros Hr. unfold start_exec. destruct (pd_accel_gate _ _); [done|]. destruct (pd_collision_gate _ _ _) as [[e [l|]]|]; [done..|].
  destruct (begin_fields (p_ring p) Hr) as (B1 & B2 & B3 & B4). cbn [fst snd]. cbn [p_ring p_pushed feed send_core link_send pp_fed pp_link pp_next_ring_index pp_ring].
  split; [done|]. cbn [motion_ok]. pose proof Hr as (_ & Hf & Hi). rewrite B2, B3, B4.
  assert (Hold : Forall (fun sl => sl_generation sl < r_fill_generation (p_ring p) + 1) (ring_items (p_ring p))).
  { eapply List.Forall_impl; [|exact Hi]. cbn. intros. lia. }
  assert (Hc : current_slots (fst (begin_generation (p_ring p))) = []) by (unfold current_slots; rewrite B2, B3; by apply of_fill_none).
  rewrite Hc. split_and!; [lia|cbn; lia| |by exists (p_pushed p); rewrite app_nil_r|exists 0%nat, (ring_items (p_ring p)); by rewrite app_nil_r].
  intros k s Hk. rewrite list_lookup_imap in Hk. destruct (plots !! k) as [plot|]; [|done]. rewrite length_imap. injection Hk as <-. apply ring_sample_meta.
Qed.

Lemma start_plotted_planned v plotted p : planned_ok p (start_plotted v plotted p).
Proof.
  intros Hr. unfold start_plotted. destruct plotted as [pl|]; [|done]. destruct (pt_plots pl) as [|x l]; [done|].
  pose proof (start_exec_planned (vw_q v) (x :: l) (in_exec v) p Hr) as H. destruct (start_exec _ _ _ p) as [[k|e] p']; [|done].
  by destruct (pt_singularity pl).
Qed.

(** The calls that touch neither the ring nor what is in flight. *)
Definition aside (p p' : Par6Planner W) : Prop := p_ring p' = p_ring p /\ p_pushed p' = p_pushed p /\ p_inflight p' = p_inflight p.

Lemma aside_fed p p' : aside p p' -> fed_ok p -> fed_ok p'.
Proof. intros (E1 & E2 & E3) [H1 H2]. unfold fed_ok. by rewrite E1, E2, E3. Qed.

Lemma tool_action_aside v cmd p : aside p (snd (start_tool_action v cmd p)).
Proof.
  unfold start_tool_action, plain_action. destruct (p_tool p); [|done].
  repeat case_bool_decide; try (by destruct (ta_params cmd)); try done.
  destruct (scalars 3 _) as [[|a [|b [|c [|]]]]|]; try done. destruct (scalar_refusal a b c); [done|]. by destruct (gripper_calibrated v).
Qed.

Lemma adopt_tool_aside v name p : aside p (snd (adopt_tool v name p)).
Proof.
  unfold adopt_tool. destruct (eq_ignore_case _ _); [done|]. destruct (List.find _ _); [|done].
  destruct (drive_refusal _ _ _); [done|]. by destruct (pd_rebuild _ _ _).
Qed.

Lemma follow_drive_aside v p : aside p (follow_drive_tool v p).
Proof.
  unfold follow_drive_tool. destruct (_ || _); [done|]. destruct (drive_info v) as [d|]; [|done]. destruct (di_tool_id d =? 0); [done|].
  destruct (_ || _); [done|]. destruct (tool_by_can_id _ _) as [t|]; [|done].
  pose proof (adopt_tool_aside v (str_bytes (tl_name t)) p) as H. by destruct (adopt_tool v _ p) as [[[]|] ?].
Qed.

Lemma plan_one_planned v cmd p : planned_ok p (plan_one v cmd p).
Proof.
  intros Hr. destruct cmd; cbn [plan_one]; try done; try by apply start_plotted_planned.
  - case_bool_decide; [done|]. destruct (_ && _); [by apply start_plotted_planned|done].
  - pose proof (adopt_tool_aside v (st_tool_name p0) p) as (E1 & E2 & _). destruct (adopt_tool v _ p) as [[[]|] ?]; cbn in *; by rewrite ?E1, ?E2.
  - pose proof (tool_action_aside v p0 p) as (E1 & E2 & _). destruct (start_tool_action v p0 p) as [[]?]; cbn in *; by rewrite ?E1, ?E2.
Qed.

Lemma plan_command_planned v cmd rest p : ring_ok (p_ring p) -> ring_ok (p_ring (snd (plan_command v cmd rest p))) /\
  match fst (plan_command v cmd rest p) with
  | Ok (k, _) => motion_ok (p_ring (snd (plan_command v cmd rest p))) (p_pushed (snd (plan_command v cmd rest p))) k
  | Err _ => p_ring (snd (plan_command v cmd rest p)) = p_ring p /\ p_pushed (snd (plan_command v cmd rest p)) = p_pushed p
  end.
Proof.
  intros Hr. unfold plan_command. destruct (blend_chain_len cmd rest) as [n|].
  - pose proof (start_plotted_planned v (pd_plan (p_world p) (p_profile p) (vw_q v) (cmd :: map oq_cmd (take n rest))) p Hr) as H.
    unfold start_motion. by destruct (start_plotted _ _ p) as [[]?].
  - pose proof (plan_one_planned v cmd p Hr) as H. by destruct (plan_one v cmd p) as [[]?].
Qed.

Lemma start_fed v batch p : fed_ok p -> fed_ok (snd (start v batch p)).
Proof.
  intros [Hr Hm]. destruct batch as [|head rest]; [done|]. cbn [start].
  pose proof (plan_command_planned v (oq_cmd head) rest p Hr) as [H1 H2]. pose proof (plan_command_keeps v (oq_cmd head) rest p) as [E _].
  destruct (plan_command v (oq_cmd head) rest p) as [[[k n]|e] p']; cbn [fst snd] in *; [by apply pump_fed; split|].
  destruct H2 as [E1 E2]. split; [by rewrite E1|]. by rewrite E1, E2, E.
Qed.

Lemma idle_fed p : ring_ok (p_ring p) -> p_inflight p = None -> fed_ok p.
Proof. intros H E. split; [done|]. by rewrite E. Qed.

Lemma discard_fed p : ring_ok (p_ring p) -> fed_ok (discard_planned p).
Proof. intros H. apply idle_fed; [|done]. by apply mark_fields. Qed.

Lemma tend_fed v p : fed_ok p -> fed_ok (tend v p).
Proof.
  intros H. unfold tend. destruct (is_exec (p_inflight p)); [by apply pump_fed|].
  apply (aside_fed _ _ (follow_drive_aside v _)). revert H. apply aside_fed. unfold update_enablement. by destruct (pd_probe _ _) as [w [en|]].
Qed.

(** A verdict is told of the same motion. *)
Lemma verdict_motion v fl r pushed : motion_ok r pushed (if_kind fl) -> motion_ok r pushed (if_kind (fst (verdict_of v fl))).
Proof.
  destruct fl as [i t k]. cbn [verdict_of]. destruct (ss_error_active _); [done|]. destruct k; try done; [by destruct (_ && _)|by destruct seen_homing].
Qed.

Lemma finish_fed fl verdict p : ring_ok (p_ring p) -> motion_ok (p_ring p) (p_pushed p) (if_kind fl) -> fed_ok (snd (finish fl verdict p)).
Proof.
  intros Hr Hm. unfold finish. destruct verdict as [[c|e]|]; cbn [snd]; [by apply idle_fed| |by split].
  destruct (is_tool _); [by apply idle_fed|]. apply (aside_fed (discard_planned (pp_inflight (Some fl) p))); [done|]. by apply discard_fed.
Qed.

Lemma poll_fed v p : fed_ok p -> fed_ok (snd (poll v p)).
Proof.
  intros H. unfold poll. pose proof (tend_fed v p H) as [Hr Hm]. destruct (p_invalidated (tend v p)); [by split|].
  destruct (p_inflight (tend v p)) as [fl|] eqn:Ef; [|by apply idle_fed]. pose proof (verdict_motion v fl _ _ Hm) as Hm'.
  destruct (verdict_of v fl) as [fl' verdict]. cbn [fst] in Hm'. set (q := pp_inflight None (tend v p)).
  assert (Hfin : forall vd, fed_ok (snd (finish fl' vd q))) by (intros; by apply finish_fed).
  unfold after_verdict. destruct verdict as [[c|e]|]; [|apply Hfin..]. destruct (is_home (if_kind fl')) eqn:Eh; [|apply Hfin].
  assert (Hhome : forall r pushed, motion_ok r pushed (if_kind fl')) by (by destruct (if_kind fl')).
  pose proof (start_plotted_planned v (pd_home_return (p_world q) (p_profile q) (vw_q v)) q Hr) as [H1 H2]. fold (start_home_return v q) in H1, H2.
  destruct (start_home_return v q) as [[k|e] p1]; cbn [fst snd] in *; [|by apply finish_fed].
  destruct k; try (by split); by apply finish_fed.
Qed.

Lemma revalidate_fed v p : fed_ok p -> fed_ok (revalidate_inflight v p).
Proof.
  intros [Hr Hm]. unfold revalidate_inflight. assert (Hp : fed_ok p) by (by split). destruct (p_inflight p) as [[i t []]|]; try done.
  destruct (pd_revalidate _ _ _) as [[e latch]|]; [|done].
  assert (Hl : p_ring (latch_collision latch p) = p_ring p) by (by destruct latch).
  apply (aside_fed (discard_planned (latch_collision latch p))); [done|]. apply discard_fed. by rewrite Hl.
Qed.

(** What the consumer takes from the front is never out of order. *)
Lemma consumer_fed p r : ring_wf r -> r_fill_generation r = r_fill_generation (p_ring p) -> r_flush_generation r = r_flush_generation (p_ring p) ->
  (exists gone, ring_items (p_ring p) = gone ++ ring_items r) -> fed_ok p -> fed_ok (pp_ring r p).
Proof.
  intros Hwf E1 E2 [gone E3] [(Hw & Hf & Hi) Hm]. assert (Hr : ring_ok r).
  { split_and!; [done|lia|]. rewrite E1. rewrite E3 in Hi. by apply Forall_app in Hi as [_ Hi]. }
  split; [done|]. cbn [p_inflight p_ring p_pushed pp_ring]. destruct (p_inflight p) as [[i t k]|]; [|done]. destruct k as [|ri samples cursor seen| | | |]; try done.
  cbn [if_kind motion_ok] in *. destruct Hm as (M1 & M2 & M3 & M4 & (d & old & M5 & M6 & M7)). rewrite E1, E2. split_and!; [done..|].
  unfold current_slots in *. rewrite E1. rewrite E3 in M5, M7. set (g := r_fill_generation (p_ring p)) in *.
  pose proof (of_fill_current g (gone ++ ring_items r)) as Hcur. rewrite List.filter_app in M5, M7, Hcur. set (cur := List.filter (of_fill g) (ring_items r)) in *.
  apply Forall_app in Hcur as [Hg Hcur].
  destruct (Nat.le_gt_cases (length old) (length gone)) as [Hl|Hl].
  - (* the old part is gone *)
    assert (Hri : Forall (fun sl => sl_generation sl = g) (ring_items r)).
    { assert (Hall : Forall (fun sl => sl_generation sl = g) (drop (length gone) (gone ++ ring_items r))).
      { rewrite M5, drop_app_ge by lia. apply Forall_drop, Forall_app. done. }
      by rewrite drop_app_length in Hall. }
    exists (d + length (List.filter (of_fill g) gone))%nat, []. unfold cur. rewrite of_fill_all by done. split_and!; [done|constructor|].
    rewrite map_app in M7. rewrite <- drop_drop, <- M7. unfold cur. rewrite (of_fill_all g (ring_items r)) by done.
    by rewrite <- (length_map sl_sample (List.filter _ _)), drop_app_length.
  - assert (Hng : List.filter (of_fill g) gone = []).
    { apply of_fill_none. assert (Ht : take (length gone) (gone ++ ring_items r) = take (length gone) old) by (by rewrite M5, take_app_le by lia).
      rewrite take_app_length in Ht. rewrite Ht. by apply Forall_take. }
    rewrite Hng in M5, M7. cbn [app] in M5, M7. exists d, (drop (length gone) old). split_and!; [|by apply Forall_drop|done].
    assert (Hd : drop (length gone) (gone ++ ring_items r) = drop (length gone) (old ++ cur)) by (by rewrite M5).
    rewrite drop_app_length, drop_app_le in Hd by lia. done.
Qed.

Lemma pop_fed p : fed_ok p -> fed_ok (pp_ring (fst (pop (p_ring p))) p).
Proof.
  intros H. pose proof H as [(Hwf & _) _]. pose proof (pop_refines (p_ring p) Hwf) as Hp.
  assert (Hg : r_fill_generation (fst (pop (p_ring p))) = r_fill_generation (p_ring p) /\
    r_flush_generation (fst (pop (p_ring p))) = r_flush_generation (p_ring p)) by (unfold pop; by destruct (_ =? _)).
  destruct (pop (p_ring p)) as [r s]. destruct Hp as [Hw Hp]. cbn [fst] in *. destruct Hg as [G1 G2].
  apply consumer_fed; [done..| |done]. cbn [aq_run ring_abs aq_items aq_cap aq_fill aq_bound] in Hp. injection Hp as _ Hp _.
  rewrite <- Hp. destruct (ring_items (p_ring p)) as [|x l]; [by exists []|by exists [x]].
Qed.

Lemma drop_marked_suffix bound l : exists gone, l = gone ++ drop_marked bound l.
Proof.
  induction l as [|sl l [gone IH]]; cbn; [by exists []|]. destruct (sl_generation sl >? bound); [by exists []|].
  exists (sl :: gone). cbn. by rewrite <- IH.
Qed.

(** A flush takes what is at or below its mark off the front. *)
Lemma flush_fields r : ring_wf r -> let r' := fst (clear_marked r) in
  ring_wf r' /\ r_fill_generation r' = r_fill_generation r /\ r_flush_generation r' = r_flush_generation r /\
  ring_items r' = drop_marked (r_flush_generation r) (ring_items r).
Proof.
  intros Hwf. pose proof (clear_marked_refines r Hwf) as Hp.
  assert (Hg : r_fill_generation (fst (clear_marked r)) = r_fill_generation r /\ r_flush_generation (fst (clear_marked r)) = r_flush_generation r) by done.
  destruct (clear_marked r) as [r' n]. destruct Hp as [Hw Hp]. cbn [fst] in *. destruct Hg as [G1 G2].
  cbn [aq_run ring_abs aq_items aq_cap aq_fill aq_bound] in Hp. by injection Hp as _ Hp _.
Qed.

Lemma flush_fed p : fed_ok p -> fed_ok (pp_ring (fst (clear_marked (p_ring p))) p).
Proof.
  intros H. pose proof H as [(Hwf & _) _]. destruct (flush_fields (p_ring p) Hwf) as (F1 & F2 & F3 & F4).
  apply consumer_fed; [done..| |done]. rewrite F4. apply drop_marked_suffix.
Qed.

Lemma drop_marked_above bound g l : bound < g -> List.filter (of_fill g) (drop_marked bound l) = List.filter (of_fill g) l.
Proof.
  intros Hlt. induction l as [|sl l IH]; [done|]. cbn. destruct (Z.gtb_spec (sl_generation sl) bound) as [Hg|Hg]; [done|].
  rewrite IH. unfold of_fill at 2. destruct (Z.eqb_spec (sl_generation sl) g); [lia|done].
Qed.

Lemma step_fed p o : fed_ok p -> fed_ok (snd (planner_step p o)).
Proof.
  intros H. pose proof H as [Hr _]. destruct o; cbn [planner_step snd]; try done.
  - by apply start_fed.
  - by apply poll_fed.
  - apply idle_fed; unfold cancel; by destruct (halt_tool && _).
  - unfold start_tool. destruct (negb _); [done|]. pose proof (tool_action_aside v cmd p) as Ha. revert H. apply aside_fed.
    by destruct (start_tool_action v cmd p) as [[]?].
  - unfold poll_tool. destruct (p_tool_stop p); [|done]. destruct (tool_settle _ _) as [[]|]; revert H; by apply aside_fed.
  - revert H. apply aside_fed. unfold sync.
    destruct (payload_eqb _ _); [|destruct (pd_set_payload _ _)]; case_bool_decide; destruct (profile_from_name _); done.
  - unfold planner_set_shapes. destruct (pd_set_shapes _ _ _) as [[w epoch]|]; [|done]. apply (revalidate_fed v (pp_world w p)). revert H. by apply aside_fed.
  - by apply pop_fed.
  - by apply flush_fed.
Qed.

(** An empty ring of [S cap] slots, as [sample_ring] makes it. *)
Definition empty_ring (cap : nat) : RingShared := mkRing (replicate (S cap) (mkSlot sample_default 0)) 0 0 1 0.

Lemma empty_ring_ok cap : ring_ok (empty_ring cap).
Proof.
  split_and!; [|cbn; lia|cbn; constructor]. unfold ring_wf, ring_len, ring_capacity, empty_ring. cbn [r_buf r_head r_tail].
  rewrite length_replicate. lia.
Qed.

(** C16: the ring is fed the motion in flight and nothing else.  Whatever is called on
    the planner, and whatever the core takes or flushes in between, what was pushed
    last is the first samples of the motion in flight, each once and in order, all
    with its index and only the last marked as last; what the ring holds of it stands
    together behind everything older; and a flush asked for of an earlier motion takes
    none of it. *)
Theorem ring_is_fed_in_order cap dt b w os : let p := snd (planner_run (planner_new (empty_ring cap) dt b w) os) in
  fed_ok p /\
  if is_exec (p_inflight p) then current_slots (fst (clear_marked (p_ring p))) = current_slots (p_ring p) else True.
Proof.
  assert (Hgen : forall os p, fed_ok p -> fed_ok (snd (planner_run p os))).
  { clear. induction os as [|o os IH]; intros p H; cbn [planner_run]; [done|]. pose proof (step_fed p o H) as Hs.
    destruct (planner_step p o) as [out p1]. specialize (IH p1 Hs). by destruct (planner_run p1 os) as [outs p2]. }
  cbv zeta. specialize (Hgen os (planner_new (empty_ring cap) dt b w) ltac:(split; [apply empty_ring_ok|done])).
  set (p := snd (planner_run _ os)) in *. clearbody p. split; [done|]. destruct Hgen as [(Hwf & _) Hm].
  destruct (p_inflight p) as [[i t []]|]; try done. cbn [is_exec if_kind motion_ok] in *. destruct Hm as [Hlt _].
  destruct (flush_fields (p_ring p) Hwf) as (_ & F2 & _ & F4). unfold current_slots. rewrite F2, F4. by apply drop_marked_above.
Qed.

(** ** The tool on the arm *)

(** A tool is fitted over what a drive that is heard says only when the drive is silent
    about it: while the drive answers, the tool fitted is the one it reports, or it
    reports none that is configured. *)
Lemma fitted_tool_is_on_the_arm v name p swap : fst (adopt_tool v name p) = Ok (Some swap) ->
  vw_bus_simulated v = false -> drive_heard v = true ->
  exists d, drive_info v = Some d /\
    match reported_tool v (p_bundle p) with Some (_, on_arm) => p_fitted_tool (snd (adopt_tool v name p)) = on_arm | None => True end.
Proof.
  unfold adopt_tool. intros H Hs Hh. destruct (eq_ignore_case _ _); [done|]. destruct (List.find _ _) as [g|]; [|done].
  assert (Hd : drive_refusal v (p_bundle p) g = None) by (by destruct (drive_refusal v (p_bundle p) g)). rewrite Hd in *.
  unfold drive_refusal in Hd. rewrite Hs, Hh in Hd. cbn [negb andb] in Hd. destruct (drive_info v) as [d|]; [|done]. exists d. split; [done|].
  destruct (reported_tool v (p_bundle p)) as [[id on_arm]|]; [|done]. destruct (String.eqb_spec on_arm (tl_name g)) as [E|]; [|done].
  rewrite E. by destruct (pd_rebuild _ _ _).
Qed.

(** ** On its thread *)

(** A start is never answered for more commands than it was given, so the thread passes
    the planner's count on as it is. *)
Lemma started_count_is_kept v batch p n : fst (start v batch p) = Ok n -> clamp_taken n (length batch) = n.
Proof.
  destruct batch as [|head rest]; [done|]. cbn [start]. unfold plan_command.
  destruct (blend_chain_len (oq_cmd head) rest) as [k|] eqn:E.
  - apply blend_chain_bound in E. destruct (start_motion _ _ p) as [[]?]; [|done]. intros [= <-]. unfold clamp_taken. cbn [length]. lia.
  - destruct (plan_one _ _ p) as [[]?]; [|done]. intros [= <-]. unfold clamp_taken. cbn [length]. lia.
Qed.

End Props.

(** ** A planner of one bundle, for the witnesses

    Motions of two ticks, an empty collision world, the bundle of [RobotExample]. *)
#[local] Instance two_ticks : PlanDeps unit := {
  pd_plan _ _ q _ := Ok (mkPlotted [(q, zeros64, zeros64); (q, zeros64, zeros64)] None);
  pd_home_return _ _ _ := Ok (mkPlotted [] None);
  pd_accel_gate _ _ := None;
  pd_feedforward _ _ _ _ := Some zeros32;
  pd_collision_gate _ _ _ := None;
  pd_revalidate _ _ _ := None;
  pd_joint_ticks _ _ _ _ _ _ _ := Some 2%nat;
  pd_probe w _ := (w, None);
  pd_set_shapes w _ _ := Ok (w, 1);
  pd_rebuild w _ _ := Ok w;
  pd_set_payload w _ := Some w;
  pd_set_tcp w _ _ := w;
}.

Definition example_planner : Par6Planner unit := planner_new (empty_ring 7) 0x3F70624DD2F1A9FC example_bundle tt.

(** What the planner sees of a core in EXEC whose playback has completed an index. *)
Definition exec_view (completed : Z) : PlanView :=
  mkPlanView (mkSnapshot 7 Exec Enabled true f64_0 [] [] None false [] [] false ServerGate.exec_status_default 0 0) zeros64
    (ExecTick.mkExecStatus 0 1 completed false false f64_1 false f64_1 f64_1 0) (mkToolStatus Unarmed 0) true 0 (fun _ => false).

Definition example_move : Command := C_MoveJ (mkMoveJ 9 zeros64 None None None None false).

(** A move: its two samples go into the ring, it is answered once the core has passed
    them, and the answer is the only one. *)
Lemma a_move_runs :
  let '(outs, p) := planner_run example_planner
    [PO_Start (exec_view 0) [mkOwnedQueued 5 example_move]; PO_Poll (exec_view 0); PO_Pop; PO_Pop; PO_Poll (exec_view 1); PO_Poll (exec_view 1)] in
  outs = [mkOutcome 5 None None] /\ map (fun s => sm_is_last (s_meta s)) (p_pushed p) = [false; true] /\ p_inflight p = None.
Proof. by vm_compute. Qed.

Definition busy_planner : Par6Planner unit := pp_inflight (Some (mkInFlight 5 0 (IK_Exec 1 [] 0 true))) example_planner.

Lemma success_is_reported_by_the_core_witness :
  fst (poll (exec_view 1) busy_planner) = Some (mkOutcome 5 None None) /\
  exists fl, p_inflight busy_planner = Some fl /\ if_server_index fl = 5 /\ ss_error_active (vw_snap (exec_view 1)) = false /\
    reported_done (exec_view 1) (pp_inflight None (tend (exec_view 1) busy_planner)) (if_kind fl).
Proof.
  split; [by vm_compute|]. apply (success_is_reported_by_the_core (exec_view 1) busy_planner (mkOutcome 5 None None)); [done|by vm_compute|done].
Defined.
